(* ===== verification/_CoqProject ===== *)
-Q . S2P
Prelude.v
PyStr.v
Utf8.v
HeadTail.v
Preview.v
Spill.v
TerminalOutput.v
PyVal.v
Splice.v
Hashline.v
HashlineFacts.v
CodexPatch.v
CodexPatchFacts.v
WorkspaceEdit.v
LocalFs.v
WorkspaceEditFacts.v
Cron.v
CronFacts.v
Shlex.v
Permissions.v
PermissionsFacts.v
Json.v
JsonFacts.v
BgJournal.v
BgJournalFacts.v
Background.v
BackgroundFacts.v
BackgroundSafety.v
Framing.v
FramingFacts.v
WorkflowJournal.v
WorkflowJournalFacts.v
WorkflowRuntime.v
WorkflowRuntimeFacts.v
WorkflowResume.v
WorkflowLimits.v
WorkflowFanout.v
Conversation.v
ConversationFacts.v
Inbox.v
InboxFacts.v
InboxDelivery.v
InboxDiscovery.v
InboxQueue.v
Projection.v
ProjectionTerminal.v
ProjectionFacts.v
ProjectionStreams.v
ProjectionPeers.v
Recording.v
RecordingFacts.v
RecordingReplay.v
Control.v
ControlFacts.v
ControlPrompts.v
SessionRuntime.v
SessionRuntimeFacts.v
MemoryStore.v
MemoryFacts.v
MemoryBounds.v
MemoryEdit.v
Prog.v
Tools.v
Hooks.v
HooksFacts.v
ToolsFacts.v
ToolExec.v
ToolExecFacts.v
ToolBatch.v
LlmErrors.v
AgentStream.v
AgentLoop.v
AgentLoopFacts.v
AgentLoopLimits.v
LlmErrorsFacts.v
VolatileContext.v
AgentTurn.v
AgentTurnFacts.v
Compression.v
CompressionFacts.v
