(* ===== verification/Prelude.v ===== *)
(** * Verification of the kolega-code agent

    kolega-code is a coding agent for the terminal: a loop calls a language
    model, runs the tools that the model asks for (shells, edits of files, other
    agents), records what happens in a journal and shows it.  This library models
    the core of the Python program and proves it correct for every model: whatever
    the model, the tools, the hooks and the host answer.  It covers the loop itself
    - its requests and retries, the streamed reply, the execution of tools with
    hooks and permissions, and how a turn begins and ends - and what the loop works
    with: the conversation that is sent, the context that changes during a
    session, the tools that edit files, the bounded output of commands, the
    permission rules, background jobs and their journal, workflows of agents with
    their limits and their resume journal, the recording of a session and the
    projection that shows it, the control channel, project memory, the framing of
    the browser bridge, messages between sessions, and cron schedules.

    ** How the program is modelled

    A Python [str] is the list of its code points, [bytes] the list of byte
    values, an [int] a [Z]; slices keep Python's treatment of negative and
    out-of-range indices ([slice_to], [slice_from], [slice]).  A decoded JSON
    value is a [value] (PyVal.v), whose dicts are in insertion order.  A call that
    may raise returns a [result]; a call that changes an object returns the new
    object beside its value.  Code between two awaits is one step of a relation
    where operations interleave (Background.v, WorkflowRuntime.v, InboxQueue.v,
    Control.v), and one function where they do not.  A coroutine that awaits hooks,
    people, tools or the model is a tree of its awaits (Prog.v), and a theorem
    about it holds for every answer; the pool of Prog.v interleaves several.  Integers are unbounded as in Python; the
    32-bit arithmetic of the line hash is masked as in the source.

    Code outside the repository is a parameter: the file system's answers, the
    clock, [uuid4], [repr] and [str] of floats and containers, [casefold],
    [str.lower], SHA-1, the hash of a string.  A theorem that relies on such code
    says how in a hypothesis (that a fresh name is fresh, that [uuid4().hex] is 32
    hexadecimal digits), and its witness supplies a concrete function.  The loop
    takes what it needs of that kind as one class, [Environment].

    ** Files and the code they model (all paths under src/kolega_code/)

    - Shared: Prelude.v (slices, results, stable sorting, automation), PyStr.v
      (string methods, decimal notation), Utf8.v (codec, incremental and strict),
      PyVal.v and Json.v with JsonFacts.v (values, [json.dumps], [json.loads] and
      their round trip).
    - HeadTail.v, Preview.v, Spill.v, TerminalOutput.v: services/terminal_buffer.py.
      [HeadTailBuffer], [LineCap] and the spill writer are modules with the state
      of the source's classes; the accumulator composes them.  The theorems show
      that for every interleaving of chunks and reads the buffer is the split of
      the whole stream, the preview stays within its budget and counts what it
      leaves out exactly, lines are capped as if capped one by one, and the spill
      file holds every byte.
    - Splice.v, Hashline.v, HashlineFacts.v: agent/tool_backend/hashline_v2.py.
      Tags round trip, stale tags are refused, and separate edits are applied as
      one simultaneous replacement in the text they were anchored in.
    - CodexPatch.v, CodexPatchFacts.v: agent/tool_backend/codex_patch.py.  Printed
      patches parse back; an update replaces, for each chunk in order, a region
      that matches, of the strictest grade there is, and keeps the rest.
    - WorkspaceEdit.v, LocalFs.v, WorkspaceEditFacts.v: services/lsp/edits.py over
      [LocalFileSystem] of services/file_system.py, a tree of directories and files.
      On that tree [apply] does what was planned on virtual files; a refused plan
      writes nothing; text edits are simultaneous; positions are exact in UTF-16
      units.  Three theorems show files that are lost, emptied or lose their CRLF.
    - Cron.v, CronFacts.v: cli/cron.py.  Fields denote the sets they should, and
      the next time is the first that matches.
    - Shlex.v, Permissions.v, PermissionsFacts.v: permissions.py.  Every rule that
      is offered for a call allows that call.
    - BgJournal.v, BgJournalFacts.v, Background.v, BackgroundFacts.v,
      BackgroundSafety.v: session/background.py over cli/session_journal.py.  A
      report reaches the history at most once and after it is durable, no outcome
      is lost, a restart recovers exactly what was not delivered, limits hold, and
      tasks can always end.
    - Framing.v, FramingFacts.v: browser_extension/framing.py.  Frames round trip
      through both readers and writers, whatever pieces the streams are cut in,
      and both readers give the same answer on every input.
    - WorkflowJournal.v, WorkflowRuntime.v, their Facts, WorkflowResume.v,
      WorkflowLimits.v, WorkflowFanout.v: agent/orchestration/runtime.py,
      journal.py, budget.py, accounting.py, types.py, and the overrides of
      agent/model_routing.py.  The journal of a run answers the calls of the run
      that resumes it; concurrency, agent cap and budget hold in every
      interleaving; every run can end; fan-outs return their values in order.
    - Conversation.v, ConversationFacts.v: agent/conversation.py with the messages
      of llm/models.py.  Repair pairs every call with its answer and is idempotent,
      a repaired history is what the API accepts, and compaction keeps it so.
    - Inbox.v, InboxFacts.v, InboxDelivery.v, InboxDiscovery.v, InboxQueue.v:
      session/inbox.py, the host of cli/peer_messaging.py, and the [send_message]
      tool of cli/tui/agent_runtime.py.  Addressing is unambiguous, socket names
      round trip, discovery reports exactly the live peers, a message over a
      socket is handled as one inside the process, and the gates of the recipient
      hold in every interleaving.
    - Projection.v, ProjectionTerminal.v, ProjectionFacts.v, ProjectionStreams.v,
      ProjectionPeers.v: session/projection.py over the events of events.py.  The
      fold of events has its invariant (what each lookup table points at), every
      stream of text shows exactly its own deltas whatever comes between, the
      terminal is a window on all the output, and a message of the inbox is shown
      once, without the wrapper that the model sees.
    - Recording.v, RecordingFacts.v, RecordingReplay.v: session/recording.py over
      the interface of session/store.py and the store of session/inmemory.py.  The
      record of a session shows the same streams as the session did, however it is
      coalesced and whenever the idle loop wakes up; the ceilings hold, times never
      run backwards and the projection accepts the order.  Three lemmas show where
      a recording says less.

    - Control.v, ControlFacts.v, ControlPrompts.v: session/control.py.  Requests,
      the lease and the announcements as steps between awaits; a question has one
      answer: a response that was accepted, which is the lease holder's or that of a
      caller without a name, or the default; nobody waits when nobody can answer,
      and the projection shows the questions that are open.
    - SessionRuntime.v, SessionRuntimeFacts.v: the permission policy of
      session/runtime.py over permissions.py and the control channel.  A call is
      allowed only by a saved rule or by such a response, and "always allow" is asked
      once.

    - MemoryStore.v, MemoryFacts.v, MemoryBounds.v, MemoryEdit.v:
      memory/markdown.py over a tree of files.  What is written is read back and
      nothing else changes; the limits hold whatever is written, with the one
      exception that makes a memory unusable; an edit is exact; the prompt shows the
      longest beginning of the index that fits.

    - Prog.v: coroutines as trees of awaits, their runs, and the rules for them.
    - Tools.v, ToolsFacts.v: tools/core.py, registry.py, param_aliases.py.  The
      names of arguments are resolved: every accepted name stays, no alias is left,
      the canonical name wins.
    - Hooks.v, HooksFacts.v: hooks/.  Loaded hooks are well-formed and trusted; a
      dispatch raises only cancellation, and the first hook that blocks is the last
      that runs.
    - ToolExec.v, ToolExecFacts.v, ToolBatch.v: [execute_single_tool] and
      [process_tool_calls] of agent/baseagent.py.  A handler runs only on arguments
      that the permission gate let pass, every call is answered as long as its
      failure can be told of, an exclusive tool never runs beside others, and the
      results of a batch are those of its calls in order, also in parallel under
      eight permits.
    - LlmErrors.v, LlmErrorsFacts.v: llm/exceptions.py.  What the errors of the
      libraries become, and which of them are retried.
    - AgentStream.v: the chunks of a streamed reply carry its text exactly.
    - AgentLoop.v, AgentLoopFacts.v, AgentLoopLimits.v: [_agent_loop_stream] with
      [handle_llm_error] and the other methods it calls.  The variables of the loop
      are a [frame]; an exception carries the frame in which it was raised, since
      the [except] clause reads variables of the [try] block.  A monitor accepts
      every run: no request while a call is unanswered, unless the log failed.  A turn with a limit of
      iterations ends, an outage is bounded, and retries wait within their bounds.
    - AgentTurn.v, AgentTurnFacts.v: [process_message_stream] and what surrounds the
      loop.  [drive] makes the awaits of the loop awaits of the turn.  The end of a
      turn is told once and alike, a refused prompt leaves nothing but the
      announcement of its turn, and an interruption leaves no call open.
    - Compression.v, CompressionFacts.v: agent/compression.py and [compress_history].
      A pass reports what it did, its requests separate no call from its results,
      and they are bounded in number.
    - VolatileContext.v: agent/volatile_context.py.  The history always tells what
      is the case, and no text breaks out of its envelope.

    The components meet where the code calls across them: the journal of
    Background.v is BgJournal.v's, terminal output composes the four files on
    streams, envelopes and frames and journals use Json.v, hashline and workspace
    edits share Splice.v, the projection reads what the inbox announces, and the
    recording is stated through the projection of what it stores, the permission
    callback gets its answers through the control channel, the execution of tools
    calls hooks, permissions and the registry, and the turn drives the loop, which
    commits to the conversation and streams through AgentStream.v.  [RunTools] of
    the loop stands for [process_tool_calls] of ToolExec.v: the loop is proved for
    every batch of results, and ToolBatch.v shows which results these are.  In the
    same way [Compress] stands for [compress_history] of Compression.v.

    ** Fuel and bounds

    Recursion that is not structural takes fuel, chosen at the call so that it is
    never the reason of a result: [dec_go] the binary length of the number;
    [decode_go], [decode_strict_go], [write_loop] and the loops of the hash the
    length of the input, of which every round consumes some; [read_loop] the bytes
    to read; [loads] twice the length of the text ([loads_fuel] proves that it
    never runs out); [repair_loop] one round for each message; [parse_operations]
    the number of lines; [day_loop] the days of the search horizon;
    [allocate_loop] one round more than there are files in the directory.  The
    loop of the preview runs six rounds in the source and in the model, and
    [render_preview_exact] proves them enough.  [rounds] takes the rounds of the
    agent loop; the loop itself has no bound, so that results hold for every fuel,
    and [turn_terminates] and [outage_bounded] prove that one round more than the
    limit of iterations, or than the retries that are left, is enough.  [read_all] is a consumer of frames
    of this library, bounded by its caller.

    ** Not modelled

    The provider adapters, the catalogue of models and the pricing ledger; the
    widgets of the terminal interface, the gateway, ACP, web and MCP servers, which
    are glue over third-party libraries; processes and sockets, and files but for
    those of LocalFs.v and MemoryStore.v, of which the models take the answers; the executor that compiles authored
    workflows; and the bundled document scripts.  Floating-point numbers occur only
    as opaque JSON values; times are integers.  Within the modelled files: the
    binding of sockets, the cache markers and provider adaptation of the
    conversation, the rows of the session journal that do not concern background
    jobs, the JSON view of a projected state ([to_dict]), and the task that paces
    the idle loop of the recording (its rounds are steps that may happen at any
    time).  Base64, the size of an event as JSON and the artifact store are
    parameters of the recording.  Of the agent: the prompts, the accounting of tokens
    with the gauge and the warnings that depend on it, cache markers, the guard that
    times a silent stream (its error is one of the answers of a request), the
    repair of pending commits in [prepare_background_completions], goal evaluation,
    and clean-up; of hooks and tools: the killing of a command that runs too long
    and the texts of [inspect.Signature.bind].  The stream of a reply is answered at
    once with its events, which are then handled in order.

    ** Plan

    Next: the routing of the browser bridge (browser_extension/multiplex.py), the
    edit tool (agent/tool_backend/edit_tool.py), the stall guard of streams, and
    the clients of the control channel (gateway, acp). *)

From stdpp Require Import base list strings numbers sorting.
From Stdlib Require Import ZArith Lia Ascii.

#[global] Open Scope Z_scope.

(** ** Python values

    A Python [str] is the list of its code points and a Python [bytes] the
    list of its byte values, both as [Z]; a Python [int] is a [Z]. *)

Abbreviation str := (list Z) (only parsing).
Abbreviation bytes := (list Z) (only parsing).

(** ASCII literals of the source, as code points. *)
Definition lit (s : string) : str :=
  map (fun a => Z.of_N (N_of_ascii a)) (String.list_ascii_of_string s).
Arguments lit s%_string_scope.

(** [len(x)] is a Python [int]. *)
Definition len {A} (l : list A) : Z := Z.of_nat (length l).

(** Python truthiness of a sequence. *)
Definition nonempty {A} (l : list A) : bool := match l with [] => false | _ => true end.

(** ** Errors

    A call that may raise returns [result E A]; the stdpp monad notations
    sequence such calls the way the source does. *)

Inductive result (E A : Type) : Type :=
| Ok (a : A)
| Raise (e : E).
Arguments Ok {E A} a.
Arguments Raise {E A} e.

#[global] Instance result_ret {E} : MRet (result E) := fun A a => Ok a.
#[global] Instance result_bind {E} : MBind (result E) := fun A B f m =>
  match m with Ok a => f a | Raise e => Raise e end.
#[global] Instance result_fmap {E} : FMap (result E) := fun A B f m =>
  match m with Ok a => Ok (f a) | Raise e => Raise e end.

(** [for x in l: acc = f(acc, x)] where the body may raise. *)
Fixpoint foldM {E A B} (f : A -> B -> result E A) (l : list B) (acc : A) : result E A :=
  match l with
  | [] => Ok acc
  | x :: l' => match f acc x with Ok acc' => foldM f l' acc' | Raise e => Raise e end
  end.

(** [[f(x) for x in l]] where [f] may raise. *)
Fixpoint mapR {E A B} (f : A -> result E B) (l : list A) : result E (list B) :=
  match l with
  | [] => Ok []
  | x :: l' =>
      match f x with
      | Ok y => match mapR f l' with Ok ys => Ok (y :: ys) | Raise e => Raise e end
      | Raise e => Raise e
      end
  end.

Lemma foldM_app {E A B} (f : A -> B -> result E A) l1 l2 a :
  foldM f (l1 ++ l2) a = a' ← foldM f l1 a; foldM f l2 a'.
Proof.
  revert a; induction l1 as [|x l1 IH]; intros a; simpl; [done|].
  destruct (f a x); simpl; auto.
Qed.

Lemma bind_Ok {E A B} (m : result E A) (f : A -> result E B) b :
  (a ← m; f a) = Ok b -> exists a, m = Ok a /\ f a = Ok b.
Proof. destruct m; simpl; intros; [eauto|discriminate]. Qed.

(** ** Slices

    [seq[i:j]] with Python's treatment of negative and out-of-range bounds. *)

Definition norm_idx (i n : Z) : Z := if i <? 0 then Z.max 0 (i + n) else Z.min i n.

Definition slice_to {A} (l : list A) (j : Z) : list A :=
  take (Z.to_nat (norm_idx j (len l))) l.
Definition slice_from {A} (l : list A) (i : Z) : list A :=
  drop (Z.to_nat (norm_idx i (len l))) l.
Definition slice {A} (l : list A) (i j : Z) : list A :=
  let a := norm_idx i (len l) in
  let b := norm_idx j (len l) in
  take (Z.to_nat (b - a)) (drop (Z.to_nat a) l).

(** [l[i:j] = c]: the replaced region is empty at [i] when [j] is before it. *)
Definition slice_set {A} (l : list A) (i j : Z) (c : list A) : list A :=
  let a := norm_idx i (len l) in
  let b := Z.max a (norm_idx j (len l)) in
  take (Z.to_nat a) l ++ c ++ drop (Z.to_nat b) l.

Section Len.
Context {A : Type}.
Implicit Types l : list A.

Lemma len_nil : len (@nil A) = 0.
Proof. done. Qed.
Lemma len_cons x l : len (x :: l) = 1 + len l.
Proof. unfold len; simpl; lia. Qed.
Lemma len_app l1 l2 : len (l1 ++ l2) = len l1 + len l2.
Proof. unfold len; rewrite length_app; lia. Qed.
Lemma len_nonneg l : 0 <= len l.
Proof. unfold len; lia. Qed.
Lemma len_take n l : len (take n l) = Z.min (Z.of_nat n) (len l).
Proof. unfold len; rewrite length_take; lia. Qed.
Lemma len_drop n l : len (drop n l) = Z.max 0 (len l - Z.of_nat n).
Proof. unfold len; rewrite length_drop; lia. Qed.
Lemma len_zero_nil l : len l = 0 -> l = [].
Proof. destruct l; [done|]; rewrite len_cons; pose proof (len_nonneg l); lia. Qed.
Lemma len_replicate n (x : A) : len (replicate n x) = Z.of_nat n.
Proof. unfold len; by rewrite length_replicate. Qed.

Lemma slice_to_pos l j : 0 <= j -> slice_to l j = take (Z.to_nat j) l.
Proof.
  intros Hj; unfold slice_to, norm_idx.
  destruct (Z.ltb_spec j 0); [lia|].
  destruct (Z.le_ge_cases j (len l)).
  - by rewrite Z.min_l.
  - rewrite Z.min_r by lia. unfold len in *.
    rewrite Nat2Z.id, firstn_all, take_ge; [done|lia].
Qed.

Lemma slice_from_pos l i : 0 <= i -> slice_from l i = drop (Z.to_nat i) l.
Proof.
  intros Hj; unfold slice_from, norm_idx.
  destruct (Z.ltb_spec i 0); [lia|].
  destruct (Z.le_ge_cases i (len l)).
  - by rewrite Z.min_l.
  - rewrite Z.min_r by lia. unfold len in *.
    rewrite Nat2Z.id, drop_all, drop_ge; [done|lia].
Qed.

(** [l[-n:]] keeps the last [n] elements. *)
Lemma slice_from_neg l n :
  0 < n -> slice_from l (- n) = drop (Z.to_nat (len l - n)) l.
Proof.
  intros Hn; unfold slice_from, norm_idx.
  destruct (Z.ltb_spec (- n) 0); [|lia].
  f_equal; lia.
Qed.

Lemma len_slice_to_pos l j : 0 <= j -> len (slice_to l j) = Z.min j (len l).
Proof. intros; rewrite slice_to_pos, len_take by done; lia. Qed.
Lemma len_slice_from_pos l i : 0 <= i -> len (slice_from l i) = Z.max 0 (len l - i).
Proof. intros; rewrite slice_from_pos, len_drop by done; lia. Qed.
Lemma len_slice_from_neg l n :
  0 < n -> len (slice_from l (- n)) = Z.min n (len l).
Proof.
  intros; rewrite slice_from_neg, len_drop by done; pose proof (len_nonneg l); lia.
Qed.

Lemma slice_to_from l i : 0 <= i -> slice_to l i ++ slice_from l i = l.
Proof. intros; rewrite slice_to_pos, slice_from_pos, take_drop; done. Qed.

Lemma slice_set_in_range l i j c :
  0 <= i <= j -> j <= len l ->
  slice_set l i j c = take (Z.to_nat i) l ++ c ++ drop (Z.to_nat j) l.
Proof.
  intros Hij Hj; unfold slice_set, norm_idx.
  destruct (Z.ltb_spec i 0), (Z.ltb_spec j 0); try lia.
  by rewrite !Z.min_l, Z.max_r by lia.
Qed.
End Len.

(** ** Stable sorting: [sorted(l, key=...)] *)

Section Sort.
Context {A : Type} (leb : A -> A -> bool).

Fixpoint insert_by (x : A) (l : list A) : list A :=
  match l with
  | [] => [x]
  | y :: l' => if leb x y then x :: y :: l' else y :: insert_by x l'
  end.

Fixpoint sort_by (l : list A) : list A :=
  match l with [] => [] | x :: l' => insert_by x (sort_by l') end.

Lemma insert_by_perm x l : insert_by x l ≡ₚ x :: l.
Proof.
  induction l as [|y l IH]; simpl; [done|].
  destruct (leb x y); [done|]. rewrite IH. apply Permutation_swap.
Qed.

Lemma sort_by_perm l : sort_by l ≡ₚ l.
Proof. induction l as [|x l IH]; simpl; [done|]. by rewrite insert_by_perm, IH. Qed.

Hypothesis leb_total : forall x y, leb x y = false -> leb y x = true.
Hypothesis leb_trans : forall x y z, leb x y = true -> leb y z = true -> leb x z = true.

Lemma insert_by_sorted x l :
  StronglySorted (fun a b => leb a b = true) l ->
  StronglySorted (fun a b => leb a b = true) (insert_by x l).
Proof.
  induction 1 as [|y l Hs IH Hall]; simpl; [repeat constructor|].
  destruct (leb x y) eqn:E.
  - constructor; [by constructor|]. constructor; [done|].
    eapply Forall_impl; [exact Hall|]. simpl; eauto.
  - constructor; [done|]. rewrite insert_by_perm. constructor; auto.
Qed.

Lemma sort_by_sorted l : StronglySorted (fun a b => leb a b = true) (sort_by l).
Proof. induction l; simpl; [constructor|]. by apply insert_by_sorted. Qed.
End Sort.

(** An already ordered list is left as it is. *)
Lemma sort_by_id {A} (leb : A -> A -> bool) l :
  StronglySorted (fun a b => leb a b = true) l -> sort_by leb l = l.
Proof.
  induction 1 as [|x l Hs IH Hall]; simpl; [done|]. rewrite IH.
  destruct l as [|y l]; simpl; [done|].
  inversion Hall; subst. by match goal with H : leb x y = true |- _ => rewrite H end.
Qed.

(** ** Automation *)

(** Destructs every boolean comparison the goal or a hypothesis branches on. *)
Ltac zbool :=
  repeat match goal with
  | |- context [?a <? ?b] => destruct (Z.ltb_spec a b)
  | |- context [?a <=? ?b] => destruct (Z.leb_spec a b)
  | |- context [?a =? ?b] => destruct (Z.eqb_spec a b)
  | |- context [?a >? ?b] => rewrite (Z.gtb_ltb a b)
  | |- context [?a >=? ?b] => rewrite (Z.geb_leb a b)
  | H : context [?a <? ?b] |- _ => destruct (Z.ltb_spec a b)
  | H : context [?a <=? ?b] |- _ => destruct (Z.leb_spec a b)
  | H : context [?a =? ?b] |- _ => destruct (Z.eqb_spec a b)
  end; simpl in *; try lia; try discriminate.

Create Rewrite HintDb pylist.
#[export] Hint Rewrite @len_nil @len_cons @len_app @len_take @len_drop : pylist.

(** Turns every length into arithmetic on the lengths of the atoms, knowing
    that those are not negative. *)
Ltac len_facts :=
  repeat match goal with
  | |- context [len ?l] =>
      lazymatch goal with H : 0 <= len l |- _ => fail | _ => pose proof (len_nonneg l) end
  | _ : context [len ?l] |- _ =>
      lazymatch goal with H : 0 <= len l |- _ => fail | _ => pose proof (len_nonneg l) end
  end.
Ltac len_simpl := autorewrite with pylist in *; len_facts.
Ltac len_lia := len_simpl; lia.

(** Splits a [result] computation in a hypothesis into its successful steps. *)
Ltac ok_inv H :=
  let a := fresh "v" in let E := fresh "E" in
  apply bind_Ok in H as (a & E & H).

Lemma sum_list_Z_app (l1 l2 : list Z) :
  foldr Z.add 0 (l1 ++ l2) = foldr Z.add 0 l1 + foldr Z.add 0 l2.
Proof. induction l1; simpl; lia. Qed.
