(* ===== verification/PyStr.v ===== *)
(** * Python strings

    The parts of [str] and of the [re] module that the modelled sources use:
    white space, line boundaries and decimal digits as CPython 3.11 (Unicode
    14) defines them, [strip], [split], [splitlines], [replace], [count],
    [join] and the decimal rendering of integers. *)

From stdpp Require Import base list strings numbers.
From Stdlib Require Import ZArith Lia.
From S2P Require Import Prelude.

Definition NL : Z := 10.
Definition CR : Z := 13.

(** [str.isspace] of one code point; the class [\s] of a [str] pattern. *)
Definition is_space (c : Z) : bool :=
  ((9 <=? c) && (c <=? 13)) || ((28 <=? c) && (c <=? 32)) ||
  (c =? 133) || (c =? 160) || (c =? 5760) ||
  ((8192 <=? c) && (c <=? 8202)) ||
  (c =? 8232) || (c =? 8233) || (c =? 8239) || (c =? 8287) || (c =? 12288).

(** The line boundaries of [str.splitlines]. *)
Definition is_linebreak (c : Z) : bool :=
  ((10 <=? c) && (c <=? 13)) || ((28 <=? c) && (c <=? 30)) ||
  (c =? 133) || (c =? 8232) || (c =? 8233).

(** The code points of the digit zero of every decimal digit block (category
    Nd); each block holds the ten digits in order. *)
Definition nd_zeros : list Z :=
  [48; 1632; 1776; 1984; 2406; 2534; 2662; 2790; 2918; 3046; 3174; 3302;
   3430; 3558; 3664; 3792; 3872; 4160; 4240; 6112; 6160; 6470; 6608; 6784;
   6800; 6992; 7088; 7232; 7248; 42528; 43216; 43264; 43472; 43504; 43600;
   44016; 65296; 66720; 68912; 69734; 69872; 69942; 70096; 70384; 70736;
   70864; 71248; 71360; 71472; 71904; 72016; 72784; 73040; 73120; 92768;
   92864; 93008; 120782; 120792; 120802; 120812; 120822; 123200; 123632;
   125264; 130032].

(** The value of a decimal digit, the class [\d] of a [str] pattern. *)
Definition digit_value (c : Z) : option Z :=
  match List.find (fun z => (z <=? c) && (c <=? z + 9)) nd_zeros with
  | Some z => Some (c - z)
  | None => None
  end.
Definition is_digit (c : Z) : bool :=
  match digit_value c with Some _ => true | None => false end.

(** [int(s)] on a string of decimal digits. *)
Definition digits_value (s : str) : Z :=
  fold_left (fun a c => 10 * a + default 0 (digit_value c)) s 0.

(** ** Prefixes, suffixes and stripping *)

Fixpoint startswith (p s : str) : bool :=
  match p, s with
  | [], _ => true
  | a :: p', b :: s' => (a =? b) && startswith p' s'
  | _, [] => false
  end.
Definition endswith (p s : str) : bool := startswith (rev p) (rev s).

Fixpoint drop_while {A} (f : A -> bool) (l : list A) : list A :=
  match l with [] => [] | x :: l' => if f x then drop_while f l' else l end.
Fixpoint take_while {A} (f : A -> bool) (l : list A) : list A :=
  match l with [] => [] | x :: l' => if f x then x :: take_while f l' else [] end.

Definition lstrip_by (f : Z -> bool) (s : str) : str := drop_while f s.
Definition rstrip_by (f : Z -> bool) (s : str) : str := rev (drop_while f (rev s)).
Definition strip_by (f : Z -> bool) (s : str) : str := rstrip_by f (lstrip_by f s).
Definition lstrip (s : str) : str := lstrip_by is_space s.
Definition rstrip (s : str) : str := rstrip_by is_space s.
Definition strip (s : str) : str := strip_by is_space s.

(** ** Splitting and joining *)

(** [s.split(sep)] for a one-character separator. *)
Fixpoint split_on (sep : Z) (s : str) : list str :=
  match s with
  | [] => [[]]
  | c :: s' =>
      if c =? sep then [] :: split_on sep s'
      else match split_on sep s' with
           | [] => [[c]]
           | w :: ws => (c :: w) :: ws
           end
  end.

(** [sep.join(l)]. *)
Fixpoint join (sep : str) (l : list str) : str :=
  match l with
  | [] => []
  | [x] => x
  | x :: l' => x ++ sep ++ join sep l'
  end.

(** [s.split()]: maximal runs without white space. *)
Fixpoint split_ws_go (cur : str) (s : str) : list str :=
  match s with
  | [] => if nonempty cur then [cur] else []
  | c :: s' =>
      if is_space c
      then (if nonempty cur then cur :: split_ws_go [] s' else split_ws_go [] s')
      else split_ws_go (cur ++ [c]) s'
  end.
Definition split_ws (s : str) : list str := split_ws_go [] s.

(** [s.splitlines(keepends=True)]: every line with its terminator; [\r\n] is
    one boundary and a final terminator starts no further line. *)
Fixpoint splitlines_keep (s : str) : list str :=
  match s with
  | [] => []
  | c :: s' =>
      if (c =? CR) && match s' with d :: _ => d =? NL | [] => false end
      then match s' with
           | d :: s'' => [c; d] :: splitlines_keep s''
           | [] => [[c]]
           end
      else if is_linebreak c then [c] :: splitlines_keep s'
      else match splitlines_keep s' with
           | [] => [[c]]
           | w :: ws => (c :: w) :: ws
           end
  end.

(** Removes the line terminator [splitlines] drops. *)
Definition drop_eol (l : str) : str :=
  if endswith [CR; NL] l then slice_to l (-2)
  else match rev l with
       | c :: _ => if is_linebreak c then slice_to l (-1) else l
       | [] => l
       end.
Definition splitlines (s : str) : list str := map drop_eol (splitlines_keep s).

(** ** Substring search: non-overlapping, left to right *)

(** [s.replace(old, new)] for a non-empty [old]; [skip] counts the characters
    of an occurrence still to be passed over. *)
Fixpoint replace_go (old new : str) (skip : nat) (s : str) : str :=
  match s with
  | [] => []
  | c :: s' =>
      match skip with
      | S k => replace_go old new k s'
      | O => if startswith old s then new ++ replace_go old new (length old - 1) s'
             else c :: replace_go old new O s'
      end
  end.
Definition replace (old new s : str) : str := replace_go old new O s.

(** [s.count(sub)] for a non-empty [sub]. *)
Fixpoint count_go (sub : str) (skip : nat) (s : str) : Z :=
  match s with
  | [] => 0
  | c :: s' =>
      match skip with
      | S k => count_go sub k s'
      | O => if startswith sub s then 1 + count_go sub (length sub - 1) s'
             else count_go sub O s'
      end
  end.
Definition count_sub (sub s : str) : Z := count_go sub O s.

(** [s.replace("\r\n", "\n").replace("\r", "\n")]. *)
Definition normalize_newlines (s : str) : str :=
  replace [CR] [NL] (replace [CR; NL] [NL] s).

(** Occurrences of one value in a sequence ([s.count("\n")], [b.count(b"\n")]). *)
Fixpoint count_char (c : Z) (s : list Z) : Z :=
  match s with [] => 0 | x :: s' => (if x =? c then 1 else 0) + count_char c s' end.

Fixpoint member (c : Z) (s : str) : bool :=
  match s with [] => false | x :: s' => (x =? c) || member c s' end.

(** [s.partition(sep)] for a one-character separator that occurs in [s]: what
    stands before and after its first occurrence. *)
Fixpoint partition (sep : Z) (s : str) : str * str :=
  match s with
  | [] => ([], [])
  | c :: s' => if c =? sep then ([], s')
               else let '(a, b) := partition sep s' in (c :: a, b)
  end.

(** ** Decimal rendering of integers *)

Fixpoint dec_go (fuel : nat) (n : Z) : str :=
  match fuel with
  | O => []
  | S f => if n <? 10 then [48 + n] else dec_go f (n / 10) ++ [48 + n mod 10]
  end.

(** [str(n)] for [n >= 0]: one more round than there are binary digits. *)
Definition dec_nat (n : Z) : str := dec_go (S (Z.to_nat (Z.log2 n))) n.
Definition dec (n : Z) : str := if n <? 0 then 45 :: dec_nat (- n) else dec_nat n.

(** [a <= b] of strings: by code points, a prefix first. *)
Fixpoint str_leb (a b : str) : bool :=
  match a, b with
  | [], _ => true
  | _ :: _, [] => false
  | x :: a', y :: b' => if x <? y then true else if y <? x then false else str_leb a' b'
  end.

(** Zero padding to width [w] ([f"{n:06d}"]). *)
Definition dec_pad (w : nat) (n : Z) : str :=
  let d := dec n in replicate (w - length d) 48 ++ d.

(** Thousands separators ([f"{n:,}"]), on the reversed digits. *)
Fixpoint group3 (s : str) : str :=
  match s with
  | a :: b :: c :: ((_ :: _) as r) => a :: b :: c :: 44 :: group3 r
  | _ => s
  end.
Definition dec_comma (n : Z) : str :=
  if n <? 0 then 45 :: rev (group3 (rev (dec_nat (- n)))) else rev (group3 (rev (dec_nat n))).

(** ** Lemmas *)

Lemma startswith_spec p s : startswith p s = true <-> exists r, s = p ++ r.
Proof.
  revert s; induction p as [|a p IH]; intros s; simpl.
  - split; eauto.
  - destruct s as [|b s]; [split; [done|intros [? [=]]]|].
    rewrite andb_true_iff, Z.eqb_eq, IH. split.
    + intros [-> [r ->]]; eauto.
    + intros [r [= -> ->]]; eauto.
Qed.

Lemma startswith_app p s : startswith p (p ++ s) = true.
Proof. apply startswith_spec; eauto. Qed.

Lemma startswith_refl s : startswith s s = true.
Proof. apply startswith_spec; exists []; by rewrite app_nil_r. Qed.

Lemma endswith_spec p s : endswith p s = true <-> exists r, s = r ++ p.
Proof.
  unfold endswith; rewrite startswith_spec; split; intros [r E].
  - exists (rev r). by rewrite <- (rev_involutive s), E, rev_app_distr, rev_involutive.
  - exists (rev r). by rewrite E, rev_app_distr.
Qed.

Lemma startswith_len p s : startswith p s = true -> len p <= len s.
Proof. intros [r ->]%startswith_spec; len_lia. Qed.

Lemma count_char_app c s1 s2 : count_char c (s1 ++ s2) = count_char c s1 + count_char c s2.
Proof. induction s1; simpl; lia. Qed.

Lemma count_char_nonneg c s : 0 <= count_char c s.
Proof. induction s; simpl; [lia|]. destruct (_ =? _); lia. Qed.

Lemma count_char_le_len c s : count_char c s <= len s.
Proof. induction s; simpl; [done|]. rewrite len_cons. destruct (_ =? _); lia. Qed.

Lemma member_spec c s : member c s = true <-> c ∈ s.
Proof.
  induction s as [|x s IH]; simpl; [by split; [|inversion 1]|].
  rewrite orb_true_iff, Z.eqb_eq, IH, elem_of_cons. split; intros []; subst; auto.
Qed.

Lemma member_app c s1 s2 : member c (s1 ++ s2) = member c s1 || member c s2.
Proof. induction s1; simpl; [done|]. by rewrite IHs1, orb_assoc. Qed.

(** *** Splitting and joining *)

Lemma split_on_nonempty sep s : split_on sep s <> [].
Proof. destruct s; simpl; [done|]. case_match; [done|]. by case_match. Qed.

Lemma join_split_on sep s : join [sep] (split_on sep s) = s.
Proof.
  induction s as [|c s IH]; simpl; [done|].
  pose proof (split_on_nonempty sep s).
  destruct (Z.eqb_spec c sep) as [->|Hne]; destruct (split_on sep s) as [|w ws]; try done; simpl.
  - simpl in IH. by rewrite IH.
  - destruct ws; simpl in *; by rewrite IH.
Qed.

Lemma split_on_app_nosep sep w s :
  member sep w = false ->
  split_on sep (w ++ s) =
    match split_on sep s with [] => [w] | x :: xs => (w ++ x) :: xs end.
Proof.
  induction w as [|c w IH]; simpl; intros Hn.
  - pose proof (split_on_nonempty sep s); by destruct (split_on sep s).
  - apply orb_false_iff in Hn as [Hc Hn]. rewrite Hc, IH by done.
    by destruct (split_on sep s).
Qed.

Lemma split_on_nosep sep w : member sep w = false -> split_on sep w = [w].
Proof.
  intros H. pose proof (split_on_app_nosep sep w [] H) as E.
  rewrite app_nil_r in E. rewrite E; simpl. by rewrite app_nil_r.
Qed.

Lemma split_on_join sep l :
  l <> [] -> Forall (fun w => member sep w = false) l -> split_on sep (join [sep] l) = l.
Proof.
  intros Hl Hall; induction Hall as [|w l Hw Hall IH]; [done|].
  destruct l as [|w' l]; [by apply split_on_nosep|].
  change (join [sep] (w :: w' :: l)) with (w ++ sep :: join [sep] (w' :: l)).
  rewrite split_on_app_nosep by done. cbn [split_on].
  rewrite Z.eqb_refl, IH by done. by rewrite app_nil_r.
Qed.

(** One more character: it opens a new last piece or extends it. *)
Lemma split_on_snoc sep s c :
  exists ls l, split_on sep s = ls ++ [l] /\
    split_on sep (s ++ [c]) = (if c =? sep then ls ++ [l; []] else ls ++ [l ++ [c]]).
Proof.
  induction s as [|x s (ls & l & E & E')]; simpl.
  - exists [], []. by destruct (c =? sep).
  - rewrite E, E'. destruct (x =? sep).
    + exists ([] :: ls), l. by destruct (c =? sep).
    + destruct ls as [|w ls]; [exists [], (x :: l)|exists ((x :: w) :: ls), l];
        by destruct (c =? sep).
Qed.

Lemma join_cons_ne sep x l : l <> [] -> join sep (x :: l) = x ++ sep ++ join sep l.
Proof. by destruct l. Qed.

Lemma join_snoc_app sep ls x y : join sep (ls ++ [x ++ y]) = join sep (ls ++ [x]) ++ y.
Proof.
  induction ls as [|w ls IH]; [done|].
  cbn [app]. rewrite !join_cons_ne, IH, !app_assoc; by try (intros E; apply app_nil in E as [_ E]).
Qed.

Lemma join_snoc_nil sep ls x : join sep (ls ++ [x; []]) = join sep (ls ++ [x]) ++ sep.
Proof.
  induction ls as [|w ls IH]; [simpl; by rewrite app_nil_r|].
  cbn [app]. rewrite !join_cons_ne, IH, !app_assoc; by try (intros E; apply app_nil in E as [_ E]).
Qed.

Lemma split_on_pieces sep s : Forall (fun w => member sep w = false) (split_on sep s).
Proof.
  induction s as [|c s IH]; simpl; [by repeat constructor|].
  destruct (Z.eqb_spec c sep).
  - by constructor.
  - destruct (split_on sep s); inversion IH; subst; repeat constructor; simpl; auto;
      by rewrite (proj2 (Z.eqb_neq c sep)).
Qed.

(** *** Stripping *)

Lemma drop_while_all {A} f (l : list A) : Forall (fun x => f x = true) l -> drop_while f l = [].
Proof. induction 1 as [|x l Hx _ IH]; simpl; [done|]. by rewrite Hx. Qed.

Lemma drop_while_app_all {A} f (l1 l2 : list A) :
  Forall (fun x => f x = true) l1 -> drop_while f (l1 ++ l2) = drop_while f l2.
Proof. induction 1 as [|x l Hx _ IH]; simpl; [done|]. by rewrite Hx. Qed.

Lemma drop_while_hd {A} f (x : A) l : f x = false -> drop_while f (x :: l) = x :: l.
Proof. simpl; by intros ->. Qed.

Lemma drop_while_head {A} (f : A -> bool) (l : list A) :
  match drop_while f l with [] => True | c :: _ => f c = false end.
Proof. induction l as [|c l IH]; simpl; [done|]. by destruct (f c) eqn:E. Qed.

Lemma take_drop_while {A} f (l : list A) : take_while f l ++ drop_while f l = l.
Proof. induction l as [|x l IH]; simpl; [done|]. destruct (f x); simpl; by rewrite ?IH. Qed.

Lemma take_while_all {A} f (l : list A) : Forall (fun x => f x = true) (take_while f l).
Proof. induction l as [|x l IH]; simpl; [done|]. by destruct (f x) eqn:E; constructor. Qed.

Lemma take_while_app {A} f (l r : list A) :
  Forall (fun x => f x = true) l -> (forall x r', r = x :: r' -> f x = false) ->
  take_while f (l ++ r) = l /\ drop_while f (l ++ r) = r.
Proof.
  induction 1 as [|x l Hx _ IH]; simpl; intros Hr.
  - destruct r as [|y r]; simpl; [done|]. by rewrite (Hr y r).
  - rewrite Hx. destruct (IH Hr) as [-> ->]. done.
Qed.

(** A string that neither begins nor ends with white space is its own [strip]. *)
Definition stripped (s : str) : Prop :=
  match s with [] => True | c :: _ => is_space c = false end /\
  match rev s with [] => True | c :: _ => is_space c = false end.

Lemma strip_stripped s : stripped s -> strip s = s.
Proof.
  intros [H1 H2]. unfold strip, strip_by, rstrip_by, lstrip_by.
  destruct s as [|c s]; [done|]. rewrite drop_while_hd by done.
  destruct (rev (c :: s)) as [|d r] eqn:E; [by apply (f_equal length) in E; rewrite length_rev in E|].
  rewrite drop_while_hd by done. by rewrite <- E, rev_involutive.
Qed.

(** *** Decimal digits *)

Lemma digit_value_ascii d : 0 <= d <= 9 -> digit_value (48 + d) = Some d.
Proof.
  intros H. assert (d = 0 \/ d = 1 \/ d = 2 \/ d = 3 \/ d = 4 \/ d = 5 \/ d = 6 \/ d = 7 \/ d = 8 \/ d = 9)
    as Hd by lia.
  decompose [or] Hd; subst; reflexivity.
Qed.

Definition ascii_digit (c : Z) : bool := (48 <=? c) && (c <=? 57).

Lemma ascii_digit_is_digit c : ascii_digit c = true -> is_digit c = true.
Proof.
  unfold ascii_digit, is_digit. intros H. assert (48 <= c <= 57) by lia.
  replace c with (48 + (c - 48)) by lia. by rewrite digit_value_ascii by lia.
Qed.

Lemma dec_go_digits fuel n :
  0 <= n -> Forall (fun c => ascii_digit c = true) (dec_go fuel n).
Proof.
  revert n; induction fuel as [|f IH]; intros n Hn; simpl; [done|].
  pose proof (Z.mod_pos_bound n 10 ltac:(lia)).
  destruct (Z.ltb_spec n 10).
  - repeat constructor. unfold ascii_digit; lia.
  - apply Forall_app; split; [apply IH, Z.div_pos; lia|].
    repeat constructor. unfold ascii_digit; lia.
Qed.

Lemma digits_value_snoc s d :
  0 <= d <= 9 -> digits_value (s ++ [48 + d]) = 10 * digits_value s + d.
Proof.
  intros H; unfold digits_value; rewrite fold_left_app; simpl.
  by rewrite digit_value_ascii by done.
Qed.

Lemma dec_go_value fuel n :
  0 <= n < 2 ^ Z.of_nat fuel -> digits_value (dec_go fuel n) = n.
Proof.
  revert n; induction fuel as [|f IH]; intros n Hn; simpl.
  - simpl in Hn. change (2 ^ 0) with 1 in Hn. assert (n = 0) as -> by lia. reflexivity.
  - destruct (Z.ltb_spec n 10).
    + unfold digits_value; simpl. rewrite digit_value_ascii by lia. simpl; lia.
    + pose proof (Z.mod_pos_bound n 10 ltac:(lia)). pose proof (Z.div_mod n 10 ltac:(lia)).
      rewrite digits_value_snoc by lia. rewrite IH; [lia|].
      rewrite Nat2Z.inj_succ, Z.pow_succ_r in Hn by lia.
      split; [apply Z.div_pos; lia|]. apply Z.div_lt_upper_bound; lia.
Qed.

(** [int(str(n)) = n]. *)
Lemma dec_nat_value n : 0 <= n -> digits_value (dec_nat n) = n.
Proof.
  intros Hn; unfold dec_nat; apply dec_go_value; split; [done|].
  rewrite Nat2Z.inj_succ, Z2Nat.id by apply Z.log2_nonneg.
  destruct (Z.eq_dec n 0) as [->|]; [done|]. by apply Z.log2_spec; lia.
Qed.

Lemma dec_nat_digits n : 0 <= n -> Forall (fun c => ascii_digit c = true) (dec_nat n).
Proof. apply dec_go_digits. Qed.

Lemma dec_nonneg n : 0 <= n -> dec n = dec_nat n.
Proof. intros; unfold dec. by destruct (Z.ltb_spec n 0); [lia|]. Qed.

Lemma dec_nat_nonempty n : dec_nat n <> [].
Proof. unfold dec_nat; simpl. destruct (_ <? _); [done|]. by destruct (dec_go _ _). Qed.

Lemma dec_inj n m : 0 <= n -> 0 <= m -> dec n = dec m -> n = m.
Proof.
  intros Hn Hm E. rewrite !dec_nonneg in E by done.
  by rewrite <- (dec_nat_value n), <- (dec_nat_value m), E.
Qed.

(** *** Newline normalisation *)

Lemma replace_char_map a b s :
  replace [a] b s = concat (map (fun c => if c =? a then b else [c]) s).
Proof.
  unfold replace; induction s as [|c s IH]; simpl; [done|].
  rewrite Z.eqb_sym, andb_true_r. destruct (c =? a); simpl; by rewrite IH.
Qed.

Lemma replace_go_absent old new s :
  (forall s1 s2, s <> s1 ++ old ++ s2) -> replace_go old new 0 s = s.
Proof.
  induction s as [|c s IH]; intros Habs; [done|].
  cbn [replace_go]. destruct (startswith old (c :: s)) eqn:E.
  - apply startswith_spec in E as [r E]. by destruct (Habs [] r).
  - rewrite IH; [done|]. intros s1 s2 ->. by apply (Habs (c :: s1) s2).
Qed.

(** Without carriage returns, normalisation changes nothing. *)
Lemma normalize_newlines_id s : member CR s = false -> normalize_newlines s = s.
Proof.
  intros H; unfold normalize_newlines.
  unfold replace at 2. rewrite replace_go_absent.
  - unfold replace; apply replace_go_absent. intros s1 s2 E.
    rewrite E, member_app in H; simpl in H. by destruct (member CR s1).
  - intros s1 s2 E. rewrite E, member_app in H; simpl in H. by destruct (member CR s1).
Qed.

Lemma normalize_newlines_no_cr s : member CR (normalize_newlines s) = false.
Proof.
  unfold normalize_newlines. generalize (replace [CR; NL] [NL] s) as t; intros t.
  rewrite replace_char_map. induction t as [|c t IH]; simpl; [done|].
  rewrite member_app, IH, orb_false_r. destruct (Z.eqb_spec c CR); simpl; [done|].
  by rewrite (proj2 (Z.eqb_neq c CR)).
Qed.

(** *** The width of a rendered number *)

Lemma dec_go_len fuel n :
  0 <= n < 2 ^ Z.of_nat fuel -> (0 < fuel)%nat ->
  let d := len (dec_go fuel n) in 1 <= d /\ n < 10 ^ d /\ (d = 1 \/ 10 ^ (d - 1) <= n).
Proof.
  revert n; induction fuel as [|f IH]; intros n Hn Hf; [lia|]. cbn [dec_go].
  destruct (Z.ltb_spec n 10); [change (len [48 + n]) with 1; change (10 ^ 1) with 10; lia|].
  assert (0 <= n / 10 < 2 ^ Z.of_nat f) as Hq.
  { rewrite Nat2Z.inj_succ, Z.pow_succ_r in Hn by lia.
    split; [apply Z.div_pos; lia|]. apply Z.div_lt_upper_bound; lia. }
  assert (0 < f)%nat as Hf'.
  { destruct f; [|lia]. change (2 ^ Z.of_nat 0) with 1 in Hq.
    assert (10 / 10 <= n / 10) by (apply Z.div_le_mono; lia). change (10 / 10) with 1 in *; lia. }
  destruct (IH (n / 10) Hq Hf') as (H1 & H2 & H3). rewrite len_app, len_cons, len_nil.
  set (d := len (dec_go f (n / 10))) in *.
  pose proof (Z.div_mod n 10 ltac:(lia)). pose proof (Z.mod_pos_bound n 10 ltac:(lia)).
  replace (d + (1 + 0)) with (Z.succ d) by lia. rewrite Z.pow_succ_r by lia.
  split; [lia|]. split; [lia|]. right. replace (Z.succ d - 1) with d by lia.
  destruct H3 as [->|H3]; [change (10 ^ 1) with 10; lia|].
  replace d with (Z.succ (d - 1)) by lia. rewrite Z.pow_succ_r by lia. lia.
Qed.

Lemma dec_nat_len n :
  0 <= n -> let d := len (dec_nat n) in 1 <= d /\ n < 10 ^ d /\ (d = 1 \/ 10 ^ (d - 1) <= n).
Proof.
  intros Hn; unfold dec_nat; apply dec_go_len; [|lia]. split; [done|].
  rewrite Nat2Z.inj_succ, Z2Nat.id by apply Z.log2_nonneg.
  destruct (Z.eq_dec n 0) as [->|]; [done|]. by apply Z.log2_spec; lia.
Qed.

Lemma len_group3 s : s <> [] -> len (group3 s) = len s + (len s - 1) / 3.
Proof.
  induction s as [s IH] using (induction_ltof1 _ (@length Z)); intros Hs.
  destruct s as [|a [|b [|c [|d s]]]]; try done.
  change (group3 (a :: b :: c :: d :: s)) with (a :: b :: c :: 44 :: group3 (d :: s)).
  rewrite !(len_cons (A := Z)), IH by (unfold ltof; simpl; lia || done).
  rewrite !(len_cons (A := Z)).
  replace (1 + (1 + (1 + (1 + len s))) - 1) with (1 + len s - 1 + 1 * 3) by lia.
  rewrite Z.div_add by lia. lia.
Qed.

Lemma len_rev {A} (l : list A) : len (rev l) = len l.
Proof. unfold len. by rewrite length_rev. Qed.

Lemma len_dec_comma n :
  0 <= n -> len (dec_comma n) = len (dec_nat n) + (len (dec_nat n) - 1) / 3.
Proof.
  intros Hn. unfold dec_comma. destruct (Z.ltb_spec n 0); [lia|].
  rewrite len_rev, len_group3, len_rev; [done|]. intros E.
  apply (f_equal len) in E. rewrite len_rev, len_nil in E.
  destruct (dec_nat_len n Hn); lia.
Qed.

Lemma dec_nat_len_mono n m : 0 <= n <= m -> len (dec_nat n) <= len (dec_nat m).
Proof.
  intros H. destruct (dec_nat_len n) as (H1 & H2 & H3), (dec_nat_len m) as (H4 & H5 & H6); [lia..|].
  destruct H3 as [->|H3]; [done|]. destruct (Z.le_gt_cases (len (dec_nat n)) (len (dec_nat m))); [done|].
  assert (10 ^ len (dec_nat m) <= 10 ^ (len (dec_nat n) - 1)) by (apply Z.pow_le_mono_r; lia). lia.
Qed.

Lemma dec_nat_len_ratio n m : 0 < n <= m -> m < 10 * n -> len (dec_nat m) <= len (dec_nat n) + 1.
Proof.
  intros H Hm. destruct (dec_nat_len n) as (H1 & H2 & H3), (dec_nat_len m) as (H4 & H5 & H6); [lia..|].
  destruct H6 as [->|H6]; [lia|].
  destruct (Z.le_gt_cases (len (dec_nat m)) (len (dec_nat n) + 1)); [done|].
  assert (10 ^ (len (dec_nat n) + 1) <= 10 ^ (len (dec_nat m) - 1)) by (apply Z.pow_le_mono_r; lia).
  replace (len (dec_nat n) + 1) with (Z.succ (len (dec_nat n))) in * by lia.
  rewrite Z.pow_succ_r in * by lia. lia.
Qed.

Lemma len_dec_comma_mono n m : 0 <= n <= m -> len (dec_comma n) <= len (dec_comma m).
Proof.
  intros H. rewrite !len_dec_comma by lia. pose proof (dec_nat_len_mono n m H).
  assert ((len (dec_nat n) - 1) / 3 <= (len (dec_nat m) - 1) / 3) by (apply Z.div_le_mono; lia). lia.
Qed.

(** Within a factor of ten the width grows by a digit and a separator at most. *)
Lemma len_dec_comma_ratio n m :
  0 < n <= m -> m < 10 * n -> len (dec_comma m) <= len (dec_comma n) + 2.
Proof.
  intros H Hm. rewrite !len_dec_comma by lia. pose proof (dec_nat_len_ratio n m H Hm).
  assert ((len (dec_nat m) - 1) / 3 <= (len (dec_nat n) - 1 + 1 * 3) / 3) by (apply Z.div_le_mono; lia).
  rewrite Z.div_add in * by lia. lia.
Qed.

Lemma len_dec_comma_pos n : 0 <= n -> 1 <= len (dec_comma n).
Proof.
  intros H. rewrite len_dec_comma by done. destruct (dec_nat_len n H) as (? & _).
  pose proof (Z.div_pos (len (dec_nat n) - 1) 3 ltac:(lia) ltac:(lia)). lia.
Qed.

(** *** Zero padding *)

Lemma digits_value_zeros k s : digits_value (replicate k 48 ++ s) = digits_value s.
Proof.
  unfold digits_value. rewrite fold_left_app. f_equal.
  induction k as [|k IH]; simpl; [done|]. by change (default 0 (digit_value 48)) with 0.
Qed.

Lemma dec_pad_value w n : 0 <= n -> digits_value (dec_pad w n) = n.
Proof. intros H. unfold dec_pad. by rewrite digits_value_zeros, dec_nonneg, dec_nat_value. Qed.

Lemma dec_pad_digits w n : 0 <= n -> Forall (fun c => ascii_digit c = true) (dec_pad w n).
Proof.
  intros H. unfold dec_pad. apply Forall_app; split; [by apply Forall_replicate|].
  rewrite dec_nonneg by done. by apply dec_nat_digits.
Qed.

Lemma dec_pad_nonempty w n : 0 <= n -> dec_pad w n <> [].
Proof.
  intros H E. apply app_nil in E as [_ E]. rewrite dec_nonneg in E by done.
  by apply dec_nat_nonempty in E.
Qed.

(** ** Lines *)

Lemma slice_to_snoc {A} (l : list A) x : slice_to (l ++ [x]) (-1) = l.
Proof.
  unfold slice_to, norm_idx. change (-1 <? 0) with true. cbv iota.
  replace (Z.to_nat (Z.max 0 (-1 + len (l ++ [x])))) with (length l)
    by (unfold len; rewrite length_app; simpl; lia).
  by rewrite take_app_length.
Qed.

Lemma splitlines_keep_line r s :
  Forall (fun c => is_linebreak c = false) r ->
  splitlines_keep (r ++ NL :: s) = (r ++ [NL]) :: splitlines_keep s.
Proof.
  induction 1 as [|c r Hc Hr IH]; [done|]. simpl app. cbn [splitlines_keep].
  replace (c =? CR) with false.
  2: { symmetry. apply Z.eqb_neq. intros ->. discriminate. }
  cbn [andb]. rewrite Hc, IH. done.
Qed.

Lemma splitlines_keep_last r :
  r <> [] -> Forall (fun c => is_linebreak c = false) r -> splitlines_keep r = [r].
Proof.
  intros Hne Hr. induction Hr as [|c r Hc Hr IH]; [done|]. cbn [splitlines_keep].
  replace (c =? CR) with false.
  2: { symmetry. apply Z.eqb_neq. intros ->. discriminate. }
  cbn [andb]. rewrite Hc. destruct r as [|d r]; [done|]. by rewrite IH.
Qed.

Lemma linebreak_not_cr c : is_linebreak c = false -> (c =? CR) = false /\ (c =? NL) = false.
Proof. unfold is_linebreak, CR, NL. zbool. Qed.

Lemma drop_eol_line r : Forall (fun c => is_linebreak c = false) r -> drop_eol (r ++ [NL]) = r.
Proof.
  intros H. unfold drop_eol. destruct (endswith [CR; NL] (r ++ [NL])) eqn:E.
  - exfalso. apply endswith_spec in E as [q E]. change [CR; NL] with ([CR] ++ [NL]) in E.
    rewrite app_assoc in E. apply app_inj_tail in E as [-> _]. apply Forall_app in H as [_ H].
    by inversion H.
  - rewrite rev_app_distr. simpl. by rewrite slice_to_snoc.
Qed.

Lemma drop_eol_last r : Forall (fun c => is_linebreak c = false) r -> drop_eol r = r.
Proof.
  intros H. unfold drop_eol. destruct (endswith [CR; NL] r) eqn:E.
  - exfalso. apply endswith_spec in E as [q ->]. apply Forall_app in H as [_ H]. by inversion H.
  - apply Forall_rev in H. destruct (rev r) as [|c q]; [done|]. inversion H as [|? ? Hc _]; subst.
    by rewrite Hc.
Qed.

(** [splitlines] gives back the lines a text was joined from, when it does not
    end in an empty one. *)
Lemma splitlines_join ls l :
  Forall (Forall (fun c => is_linebreak c = false)) (ls ++ [l]) -> l <> [] ->
  splitlines (join [NL] (ls ++ [l])) = ls ++ [l].
Proof.
  intros H Hl. unfold splitlines. induction ls as [|x ls IH]; inversion H as [|? ? Hx H']; subst.
  - simpl. rewrite splitlines_keep_last by done. simpl. by rewrite drop_eol_last.
  - cbn [app]. rewrite join_cons_ne by (by destruct ls). change ([NL] ++ ?x) with (NL :: x).
    rewrite splitlines_keep_line by done. cbn [map]. by rewrite drop_eol_line, IH.
Qed.

Lemma concat_splitlines_keep s : concat (splitlines_keep s) = s.
Proof.
  assert (forall n s, (length s <= n)%nat -> concat (splitlines_keep s) = s) as H;
    [|exact (H (length s) s (le_n _))].
  induction n as [|n IH]; intros t Ht; [destruct t; [done|simpl in Ht; lia]|].
  destruct t as [|c t]; [done|]. cbn [splitlines_keep]. simpl in Ht.
  destruct ((c =? CR) && _).
  - destruct t as [|d t]; [done|]. simpl. rewrite IH; [done|]. simpl in Ht. lia.
  - destruct (is_linebreak c); [simpl; rewrite IH; [done|lia]|].
    pose proof (IH t ltac:(lia)) as E. destruct (splitlines_keep t) as [|w ws]; simpl in *; by subst.
Qed.
Lemma splitlines_keep_nonempty s : Forall (fun l => l <> []) (splitlines_keep s).
Proof.
  assert (forall n s, (length s <= n)%nat -> Forall (fun l => l <> []) (splitlines_keep s)) as H; [|exact (H (length s) s (le_n _))].
  induction n as [|n IH]; intros t Ht; [destruct t; [constructor|simpl in Ht; lia]|]. destruct t as [|c t]; [constructor|]. cbn [splitlines_keep]. simpl in Ht.
  destruct ((c =? CR) && _).
  - destruct t as [|d t]; [by apply list.Forall_cons|]. apply list.Forall_cons. split; [done|]. apply IH. simpl in Ht. lia.
  - destruct (is_linebreak c); [apply list.Forall_cons; split; [done|apply IH; lia]|]. pose proof (IH t ltac:(lia)) as E.
    destruct (splitlines_keep t) as [|w ws]; apply list.Forall_cons; [by split; [|constructor]|]. apply list.Forall_cons in E as [_ E]. by split.
Qed.
