(* ===== verification/Utf8.v ===== *)
(** * UTF-8

    [str.encode("utf-8")] and [bytes.decode("utf-8", errors=...)] of CPython:
    ill-formed input is cut into maximal subparts, each of which the error
    handler drops ([ignore]), replaces by U+FFFD ([replace]) or reports
    ([strict]); the incremental decoder keeps an incomplete final sequence. *)

From stdpp Require Import base list numbers.
From Stdlib Require Import ZArith Lia.
From S2P Require Import Prelude PyStr.

(** Unicode scalar values: what a Python string can encode. *)
Definition scalar (c : Z) : bool :=
  (0 <=? c) && (c <=? 1114111) && negb ((55296 <=? c) && (c <=? 57343)).

Definition utf8_char (c : Z) : bytes :=
  if c <? 128 then [c]
  else if c <? 2048 then [192 + c / 64; 128 + c mod 64]
  else if c <? 65536 then [224 + c / 4096; 128 + (c / 64) mod 64; 128 + c mod 64]
  else [240 + c / 262144; 128 + (c / 4096) mod 64; 128 + (c / 64) mod 64; 128 + c mod 64].

(** The bytes of a text of scalar values.  On a lone surrogate [encode] raises;
    the models that encode texts which may hold one ask [scalar] first. *)
Definition utf8 (s : str) : bytes := concat (map utf8_char s).

(** ** Decoding one sequence *)

Inductive dstep :=
| DChar (c : Z) (n : nat)   (* a character and the bytes it used *)
| DBad (n : nat)            (* an ill-formed subpart of [n] bytes *)
| DMore.                    (* a well-formed but unfinished prefix *)

Definition cont (b : Z) : bool := (128 <=? b) && (b <=? 191).

(** The range of the second byte of a three- or four-byte sequence. *)
Definition second3 (b0 b1 : Z) : bool :=
  ((if b0 =? 224 then 160 else 128) <=? b1) && (b1 <=? (if b0 =? 237 then 159 else 191)).
Definition second4 (b0 b1 : Z) : bool :=
  ((if b0 =? 240 then 144 else 128) <=? b1) && (b1 <=? (if b0 =? 244 then 143 else 191)).

Definition decode_step (b0 : Z) (r : bytes) : dstep :=
  if b0 <? 128 then DChar b0 1
  else if b0 <? 194 then DBad 1
  else if b0 <? 224 then
    match r with
    | [] => DMore
    | b1 :: _ => if cont b1 then DChar ((b0 - 192) * 64 + (b1 - 128)) 2 else DBad 1
    end
  else if b0 <? 240 then
    match r with
    | [] => DMore
    | b1 :: r1 =>
        if second3 b0 b1 then
          match r1 with
          | [] => DMore
          | b2 :: _ => if cont b2
                       then DChar ((b0 - 224) * 4096 + (b1 - 128) * 64 + (b2 - 128)) 3
                       else DBad 2
          end
        else DBad 1
    end
  else if b0 <? 245 then
    match r with
    | [] => DMore
    | b1 :: r1 =>
        if second4 b0 b1 then
          match r1 with
          | [] => DMore
          | b2 :: r2 =>
              if cont b2 then
                match r2 with
                | [] => DMore
                | b3 :: _ =>
                    if cont b3
                    then DChar ((b0 - 240) * 262144 + (b1 - 128) * 4096
                                + (b2 - 128) * 64 + (b3 - 128)) 4
                    else DBad 3
                end
              else DBad 2
          end
        else DBad 1
    end
  else DBad 1.

(** ** Decoding a byte string

    Every round consumes a byte at least, so the length is enough fuel.  The
    result is the text and the unfinished sequence at the end. *)
Fixpoint decode_go (h : str) (fuel : nat) (b : bytes) : str * bytes :=
  match fuel, b with
  | S f, b0 :: r =>
      match decode_step b0 r with
      | DChar c n => let '(t, rest) := decode_go h f (drop n b) in (c :: t, rest)
      | DBad n => let '(t, rest) := decode_go h f (drop n b) in (h ++ t, rest)
      | DMore => ([], b)
      end
  | _, _ => ([], b)
  end.

(** The incremental decoder: what is decoded now and what stays buffered. *)
Definition decode_incr (h : str) (b : bytes) : str * bytes := decode_go h (length b) b.

(** [b.decode("utf-8", errors=h)]: an unfinished end is one more error. *)
Definition decode_with (h : str) (b : bytes) : str :=
  let '(t, rest) := decode_incr h b in t ++ (if nonempty rest then h else []).
Definition decode_ignore (b : bytes) : str := decode_with [] b.
Definition REPLACEMENT : Z := 65533.
Definition decode_replace (b : bytes) : str := decode_with [REPLACEMENT] b.

(** [b.decode("utf-8")]: [None] stands for [UnicodeDecodeError]. *)
Fixpoint decode_strict_go (fuel : nat) (b : bytes) : option str :=
  match fuel, b with
  | _, [] => Some []
  | S f, b0 :: r =>
      match decode_step b0 r with
      | DChar c n => match decode_strict_go f (drop n b) with
                     | Some t => Some (c :: t)
                     | None => None
                     end
      | _ => None
      end
  | O, _ => None
  end.
Definition decode_strict (b : bytes) : option str := decode_strict_go (length b) b.

(** ** Encoding *)

Abbreviation scalars := (Forall (fun c => scalar c = true)).

Lemma utf8_app s1 s2 : utf8 (s1 ++ s2) = utf8 s1 ++ utf8 s2.
Proof. unfold utf8; by rewrite map_app, concat_app. Qed.
Lemma utf8_cons c s : utf8 (c :: s) = utf8_char c ++ utf8 s.
Proof. done. Qed.
Lemma utf8_nil : utf8 [] = [].
Proof. done. Qed.

Lemma utf8_char_len c : 1 <= len (utf8_char c) <= 4.
Proof. unfold utf8_char, len; zbool. Qed.

Lemma len_utf8_nonneg_cons c s : len (utf8 (c :: s)) = len (utf8_char c) + len (utf8 s).
Proof. by rewrite utf8_cons, len_app. Qed.

Lemma len_le_utf8 s : len s <= len (utf8 s).
Proof.
  induction s as [|c s IH]; [done|].
  rewrite len_utf8_nonneg_cons, len_cons. pose proof (utf8_char_len c); lia.
Qed.

Lemma len_utf8_le s : len (utf8 s) <= 4 * len s.
Proof.
  induction s as [|c s IH]; [done|].
  rewrite len_utf8_nonneg_cons, len_cons. pose proof (utf8_char_len c); lia.
Qed.

Lemma utf8_nonempty s : s <> [] -> utf8 s <> [].
Proof.
  destruct s as [|c s]; [done|]. intros _ E. apply (f_equal len) in E.
  rewrite len_utf8_nonneg_cons, len_nil in E.
  pose proof (utf8_char_len c); pose proof (len_nonneg (utf8 s)); lia.
Qed.

(** The shape of an encoded character: a lead byte, then continuation bytes. *)
Lemma utf8_char_shape c :
  scalar c = true ->
  exists b0 r, utf8_char c = b0 :: r /\ Forall (fun b => cont b = true) r /\
    ((c < 128 /\ b0 = c /\ r = []) \/ (128 <= c /\ 194 <= b0)).
Proof.
  intros Hc; unfold scalar in Hc; unfold utf8_char, cont.
  pose proof (Z.mod_pos_bound c 64 ltac:(lia)).
  pose proof (Z.mod_pos_bound (c / 64) 64 ltac:(lia)).
  pose proof (Z.mod_pos_bound (c / 4096) 64 ltac:(lia)).
  destruct (Z.ltb_spec c 128); [|destruct (Z.ltb_spec c 2048); [|destruct (Z.ltb_spec c 65536)]];
    eexists _, _; (split; [reflexivity|]); (split; [repeat constructor; lia|]).
  - by left.
  - right. assert (128 / 64 <= c / 64) by (apply Z.div_le_mono; lia).
    change (128 / 64) with 2 in *. lia.
  - right. assert (0 <= c / 4096) by (apply Z.div_pos; lia). lia.
  - right. assert (0 <= c / 262144) by (apply Z.div_pos; lia). lia.
Qed.

(** The base-64 digits of a code point. *)
Lemma digits64 c :
  0 <= c ->
  exists q3 q2 q1 q0,
    c / 64 = q3 * 4096 + q2 * 64 + q1 /\ c / 4096 = q3 * 64 + q2 /\ c / 262144 = q3 /\
    c mod 64 = q0 /\ (c / 64) mod 64 = q1 /\ (c / 4096) mod 64 = q2 /\
    c = q3 * 262144 + q2 * 4096 + q1 * 64 + q0 /\
    0 <= q0 < 64 /\ 0 <= q1 < 64 /\ 0 <= q2 < 64 /\ 0 <= q3.
Proof.
  intros Hc. exists (c / 262144), ((c / 4096) mod 64), ((c / 64) mod 64), (c mod 64).
  assert (c / 4096 = c / 64 / 64) as E1 by (rewrite Z.div_div by lia; done).
  assert (c / 262144 = c / 4096 / 64) as E2 by (rewrite Z.div_div by lia; done).
  pose proof (Z.div_mod c 64 ltac:(lia)).
  pose proof (Z.div_mod (c / 64) 64 ltac:(lia)).
  pose proof (Z.div_mod (c / 4096) 64 ltac:(lia)).
  pose proof (Z.mod_pos_bound c 64 ltac:(lia)).
  pose proof (Z.mod_pos_bound (c / 64) 64 ltac:(lia)).
  pose proof (Z.mod_pos_bound (c / 4096) 64 ltac:(lia)).
  pose proof (Z.div_pos c 262144 ltac:(lia) ltac:(lia)).
  rewrite <- E1 in *. rewrite <- E2 in *. lia.
Qed.

Ltac decide_cmp :=
  repeat match goal with
  | |- context [?a <? ?b] => first [rewrite (proj2 (Z.ltb_lt a b)) by lia | rewrite (proj2 (Z.ltb_ge a b)) by lia]
  | |- context [?a <=? ?b] => first [rewrite (proj2 (Z.leb_le a b)) by lia | rewrite (proj2 (Z.leb_gt a b)) by lia]
  end.

Lemma decode_step_char c b0 r rest :
  scalar c = true -> utf8_char c = b0 :: r ->
  decode_step b0 (r ++ rest) = DChar c (length (utf8_char c)).
Proof.
  intros Hc E; unfold scalar in Hc.
  destruct (digits64 c ltac:(lia)) as (q3 & q2 & q1 & q0 & E1 & E2 & E3 & E4 & E5 & E6 & Hval & Hb).
  revert E. unfold utf8_char. rewrite E4, E5, E6, E3.
  destruct (Z.ltb_spec c 128); [|destruct (Z.ltb_spec c 2048); [|destruct (Z.ltb_spec c 65536)]];
    intros E; injection E as <- <-; unfold decode_step, second3, second4, cont; simpl.
  - by decide_cmp.
  - rewrite E1. decide_cmp. simpl. f_equal; lia.
  - rewrite E2. destruct (Z.eqb_spec (224 + (q3 * 64 + q2)) 224), (Z.eqb_spec (224 + (q3 * 64 + q2)) 237);
      decide_cmp; simpl; f_equal; lia.
  - destruct (Z.eqb_spec (240 + q3) 240), (Z.eqb_spec (240 + q3) 244);
      decide_cmp; simpl; f_equal; lia.
Qed.

(** A proper non-empty prefix of an encoded character is unfinished. *)
Lemma decode_step_more c b0 r p q :
  scalar c = true -> utf8_char c = b0 :: r -> r = p ++ q -> q <> [] ->
  decode_step b0 p = DMore.
Proof.
  intros Hc E Er Hq; unfold scalar in Hc.
  destruct (digits64 c ltac:(lia)) as (q3 & q2 & q1 & q0 & E1 & E2 & E3 & E4 & E5 & E6 & Hval & Hb).
  revert E. unfold utf8_char. rewrite E4, E5, E6, E3.
  destruct (Z.ltb_spec c 128); [|destruct (Z.ltb_spec c 2048); [|destruct (Z.ltb_spec c 65536)]];
    intros E; injection E as <- <-;
    repeat (destruct p as [|? p]; simpl in Er; [|first [discriminate Er|injection Er as <- Er]]);
    try (by destruct q); unfold decode_step, second3, second4, cont; simpl.
  all: rewrite ?E1, ?E2.
  all: try destruct (Z.eqb_spec (224 + (q3 * 64 + q2)) 224), (Z.eqb_spec (224 + (q3 * 64 + q2)) 237).
  all: try destruct (Z.eqb_spec (240 + q3) 240), (Z.eqb_spec (240 + q3) 244).
  all: try (exfalso; lia).
  all: by decide_cmp.
Qed.

(** ** Decoding what was encoded *)

Lemma decode_step_progress b0 r n :
  (exists c, decode_step b0 r = DChar c n) \/ decode_step b0 r = DBad n -> (1 <= n)%nat.
Proof. unfold decode_step; intros [[c H]|H]; repeat case_match; simplify_eq; lia. Qed.

(** Any fuel of at least the length gives the same result. *)
Lemma decode_go_fuel h f b :
  (length b <= f)%nat -> decode_go h f b = decode_go h (length b) b.
Proof.
  revert b; induction f as [f IH] using (well_founded_induction lt_wf); intros b Hf.
  destruct f as [|f]; [by assert (length b = 0%nat) as -> by lia|].
  destruct b as [|b0 r]; [by destruct f|]. simpl length in *. cbn [decode_go].
  destruct (decode_step b0 r) as [c n|n|] eqn:E; [| |done].
  all: assert (1 <= n)%nat as Hn by (eapply decode_step_progress; eauto).
  all: destruct n as [|n]; [lia|]; cbn [drop].
  all: pose proof (length_drop r n) as Hl.
  all: rewrite (IH f) by lia; rewrite <- (IH (length r)) by lia; done.
Qed.

Lemma decode_incr_char h c s :
  scalar c = true ->
  decode_incr h (utf8_char c ++ s) =
    (let '(t, rest) := decode_incr h s in (c :: t, rest)).
Proof.
  intros Hc; unfold decode_incr.
  destruct (utf8_char_shape c Hc) as (b0 & r & E & _ & _).
  pose proof (decode_step_char c b0 r s Hc E) as Hstep.
  rewrite E at 1 2. simpl. rewrite Hstep.
  replace (drop (length (utf8_char c)) (b0 :: r ++ s)) with s
    by (by rewrite E, app_comm_cons, drop_app_length).
  rewrite decode_go_fuel; [done|]. rewrite length_app; lia.
Qed.

Lemma decode_incr_utf8 h s b :
  scalars s ->
  decode_incr h (utf8 s ++ b) = (let '(t, rest) := decode_incr h b in (s ++ t, rest)).
Proof.
  induction 1 as [|c s Hc Hs IH]; simpl; [by destruct (decode_incr h b)|].
  rewrite utf8_cons, <- app_assoc, decode_incr_char, IH by done.
  by destruct (decode_incr h b).
Qed.

Lemma decode_with_utf8 h s b :
  scalars s -> decode_with h (utf8 s ++ b) = s ++ decode_with h b.
Proof.
  intros Hs; unfold decode_with. rewrite decode_incr_utf8 by done.
  destruct (decode_incr h b). by rewrite app_assoc.
Qed.

(** [s.encode("utf-8").decode("utf-8", errors) = s]. *)
Lemma decode_with_encode h s : scalars s -> decode_with h (utf8 s) = s.
Proof.
  intros Hs. rewrite <- (app_nil_r (utf8 s)), decode_with_utf8 by done.
  by rewrite app_nil_r.
Qed.

(** Continuation bytes on their own are ill-formed, one at a time. *)
Lemma decode_ignore_conts p b :
  Forall (fun x => cont x = true) p -> decode_ignore (p ++ b) = decode_ignore b.
Proof.
  induction 1 as [|x p Hx Hp IH]; [done|]. simpl app.
  rewrite <- IH. unfold decode_ignore, decode_with, decode_incr. simpl.
  replace (decode_step x (p ++ b)) with (DBad 1).
  - simpl. by destruct (decode_go [] _ _).
  - unfold decode_step, cont in *. by zbool.
Qed.

(** A proper prefix of an encoded character decodes to nothing. *)
Lemma decode_ignore_partial c p q :
  scalar c = true -> utf8_char c = p ++ q -> q <> [] -> decode_ignore p = [].
Proof.
  intros Hc E Hq. destruct p as [|b0 p]; [done|].
  unfold decode_ignore, decode_with, decode_incr. simpl.
  rewrite (decode_step_more c b0 (p ++ q) p q) by done. done.
Qed.

(** Cutting an encoded string at a byte: a whole number of characters, then
    part of the next one. *)
Lemma utf8_cut s k :
  scalars s -> (k <= length (utf8 s))%nat ->
  exists s1 s2 p q, s = s1 ++ s2 /\ take k (utf8 s) = utf8 s1 ++ p /\ drop k (utf8 s) = q /\
    (p = [] /\ q = utf8 s2 \/
     exists c s3 q', s2 = c :: s3 /\ utf8_char c = p ++ q' /\ p <> [] /\ q' <> [] /\ q = q' ++ utf8 s3).
Proof.
  intros Hs; revert k; induction Hs as [|c s Hc Hs IH]; intros k Hk.
  - exists [], [], [], []. rewrite utf8_nil, take_nil, drop_nil. naive_solver.
  - rewrite utf8_cons in *. destruct (decide (length (utf8_char c) <= k)%nat) as [Hle|Hlt].
    + destruct (IH (k - length (utf8_char c))%nat) as (s1 & s2 & p & q & -> & H1 & H2 & H3).
      { rewrite length_app in Hk; lia. }
      exists (c :: s1), s2, p, q. split; [done|].
      rewrite take_app_ge, drop_app_ge by lia.
      rewrite H1, utf8_cons, app_assoc. auto.
    + destruct (decide (k = 0)%nat) as [->|Hk0].
      * exists [], (c :: s), [], (utf8 (c :: s)). naive_solver.
      * exists [], (c :: s), (take k (utf8_char c)), (drop k (utf8_char c) ++ utf8 s).
        rewrite take_app_le, drop_app_le by lia. split; [done|]. split; [done|]. split; [done|].
        right. exists c, s, (drop k (utf8_char c)). split; [done|].
        rewrite take_drop. split; [done|].
        split; [|split; [|done]]; intros E; apply (f_equal length) in E;
          rewrite ?length_take, ?length_drop in E; simpl in E; lia.
Qed.

Lemma utf8_char_tail_cont c p q :
  scalar c = true -> utf8_char c = p ++ q -> p <> [] -> Forall (fun x => cont x = true) q.
Proof.
  intros Hc E Hp. destruct (utf8_char_shape c Hc) as (b0 & r & E' & Hr & _).
  destruct p as [|x p]; [done|]. rewrite E' in E. simpl in E. injection E as <- E.
  rewrite E in Hr. by apply Forall_app in Hr as [_ ?].
Qed.

(** A newline byte only ever encodes a newline character. *)
Lemma count_nl_utf8 s : scalars s -> count_char NL (utf8 s) = count_char NL s.
Proof.
  induction 1 as [|c s Hc Hs IH]; [done|]. rewrite utf8_cons, count_char_app, IH. simpl. f_equal.
  destruct (utf8_char_shape c Hc) as (b0 & r & -> & Hr & Hb). simpl.
  assert (count_char NL r = 0) as ->.
  { clear -Hr. induction Hr as [|x r Hx Hr IH]; simpl; [done|]. unfold cont, NL in *; zbool. }
  unfold NL in *. destruct Hb as [(? & -> & ->)|[? ?]]; zbool.
Qed.

(** A byte cut leaves whole characters and, before the cut, a fragment that is
    dropped by [errors="ignore"] and holds no newline. *)
Lemma utf8_cut_left s k :
  scalars s -> (k <= length (utf8 s))%nat ->
  exists s1 x p, s = s1 ++ x /\ take k (utf8 s) = utf8 s1 ++ p /\
    decode_ignore (take k (utf8 s)) = s1 /\ count_char NL p = 0.
Proof.
  intros Hs Hk. destruct (utf8_cut s k Hs Hk) as (s1 & s2 & p & q & -> & H1 & _ & H3).
  exists s1, s2, p. rewrite H1. apply Forall_app in Hs as [Hs1 Hs2].
  unfold decode_ignore. rewrite decode_with_utf8 by done. split; [done|]. split; [done|].
  destruct H3 as [[-> _]|(c & s3 & q' & -> & E & Hp & Hq & _)]; [by rewrite app_nil_r|].
  inversion Hs2; subst. split.
  - change (decode_with [] p) with (decode_ignore p).
    by rewrite (decode_ignore_partial c p q'), app_nil_r.
  - destruct (utf8_char_shape c) as (b0 & r & E' & Hr & Hb); [done|].
    destruct p as [|x p]; [done|]. rewrite E' in E; injection E as <- E.
    assert (Forall (fun y => y <> NL) (b0 :: p)) as Hno.
    { constructor.
      - destruct Hb as [(_ & _ & ->)|[_ ?]]; [|unfold NL; lia]. by destruct p, q'.
      - rewrite E in Hr. apply Forall_app in Hr as [Hr _].
        eapply Forall_impl; try exact Hr. unfold cont, NL; intros; simpl in *; lia. }
    clear -Hno. induction Hno as [|y l Hy _ IH]; simpl; [done|].
    by rewrite (proj2 (Z.eqb_neq y NL)).
Qed.

Lemma utf8_cut_right s k :
  scalars s -> (k <= length (utf8 s))%nat ->
  exists y s3 q, s = y ++ s3 /\ drop k (utf8 s) = q ++ utf8 s3 /\
    decode_ignore (drop k (utf8 s)) = s3 /\ Forall (fun b => cont b = true) q.
Proof.
  intros Hs Hk. destruct (utf8_cut s k Hs Hk) as (s1 & s2 & p & q & -> & _ & -> & H3).
  apply Forall_app in Hs as [Hs1 Hs2].
  destruct H3 as [[_ ->]|(c & s3 & q' & -> & E & Hp & Hq & ->)].
  - exists s1, s2, []. unfold decode_ignore. by rewrite decode_with_encode.
  - inversion Hs2; subst. exists (s1 ++ [c]), s3, q'. rewrite <- app_assoc. split; [done|].
    split; [done|].
    assert (Forall (fun b => cont b = true) q') by (by eapply utf8_char_tail_cont).
    split; [|done]. rewrite decode_ignore_conts by done.
    unfold decode_ignore. by rewrite decode_with_encode.
Qed.

Lemma utf8_prefix_le s1 x y s3 :
  s1 ++ x = y ++ s3 -> len (utf8 s1) <= len (utf8 y) -> exists z, y = s1 ++ z.
Proof.
  intros E Hle. apply app_eq_inv in E as [(z & -> & _)|(z & -> & _)].
  - exists []. rewrite utf8_app, len_app in Hle. pose proof (len_le_utf8 z).
    rewrite (len_zero_nil z), !app_nil_r; [done|]. pose proof (len_nonneg z); lia.
  - eauto.
Qed.

Lemma endswith_snoc p l x : endswith [p] (l ++ [x]) = (p =? x).
Proof. unfold endswith. rewrite rev_app_distr. simpl. by rewrite andb_true_r. Qed.

Lemma endswith_nl_utf8 s : scalars s -> endswith [NL] (utf8 s) = endswith [NL] s.
Proof.
  intros Hs. destruct s as [|c s _] using rev_ind; [done|].
  apply Forall_app in Hs as [_ Hc]. inversion Hc as [|? ? Hc' _]; subst.
  rewrite utf8_app, endswith_snoc.
  destruct (utf8_char_shape c Hc') as (b0 & r & E & Hr & Hb).
  change (utf8 [c]) with (utf8_char c ++ []). rewrite app_nil_r, E.
  destruct r as [|z r _] using rev_ind.
  - rewrite endswith_snoc. destruct Hb as [(_ & -> & _)|[? ?]]; [done|].
    unfold NL; zbool.
  - change (b0 :: r ++ [z]) with ((b0 :: r) ++ [z]). rewrite app_assoc, endswith_snoc.
    apply Forall_app in Hr as [_ Hz]. inversion Hz as [|? ? Hz' _]; subst.
    destruct Hb as [(_ & _ & E')|[? ?]]; [by destruct r|]. unfold cont, NL in *; zbool.
Qed.

Lemma decode_strict_encode s : scalars s -> decode_strict (utf8 s) = Some s.
Proof.
  intros Hs. unfold decode_strict.
  assert (forall f, (length (utf8 s) <= f)%nat -> decode_strict_go f (utf8 s) = Some s) as H;
    [|by apply H].
  induction Hs as [|c s Hc Hs IH]; intros f Hf; [by destruct f|].
  rewrite utf8_cons in *. rewrite length_app in Hf.
  destruct (utf8_char_shape c Hc) as (b0 & r & E & _ & _).
  pose proof (decode_step_char c b0 r (utf8 s) Hc E) as Hstep.
  destruct f as [|f]; [rewrite E in Hf; simpl in Hf; lia|].
  rewrite E at 1. cbn [decode_strict_go app]. rewrite Hstep.
  replace (drop (length (utf8_char c)) (b0 :: r ++ utf8 s)) with (utf8 s)
    by (by rewrite E, app_comm_cons, drop_app_length).
  rewrite IH; [done|]. rewrite E in Hf; simpl in Hf; lia.
Qed.

(** Decoding part of an encoded text: the complete characters, with the bytes
    of an unfinished one kept back. *)
Lemma decode_incr_prefix h s b r :
  scalars s -> utf8 s = b ++ r ->
  exists t u p, s = t ++ u /\ decode_incr h b = (t, p) /\ b = utf8 t ++ p /\ (r = [] -> p = [] /\ u = []).
Proof.
  intros Hs E. assert (b = take (length b) (utf8 s)) as Hb by (by rewrite E, take_app_length).
  destruct (utf8_cut s (length b) Hs) as (s1 & s2 & p & q & Es & H1 & H2 & H3).
  { rewrite E, length_app; lia. }
  rewrite <- Hb in H1. subst s. apply Forall_app in Hs as [Hs1 Hs2].
  exists s1, s2, p. split; [done|]. rewrite H1, decode_incr_utf8 by done.
  assert (drop (length b) (utf8 (s1 ++ s2)) = r) as Hr by (by rewrite E, drop_app_length).
  assert (decode_incr h p = ([], p)) as ->.
  { destruct H3 as [[-> _]|(c & s3 & q' & -> & Ec & Hp & Hq & _)]; [done|].
    pose proof (Forall_inv Hs2) as Hc. destruct p as [|b0 p]; [done|].
    unfold decode_incr. cbn [length decode_go].
    by rewrite (decode_step_more c b0 (p ++ q') p q' Hc Ec eq_refl Hq). }
  rewrite app_nil_r. split; [done|]. split; [done|]. intros ->. assert (q = []) as -> by congruence.
  destruct H3 as [[-> H3]|(c & s3 & q' & _ & _ & _ & Hq & H3)].
  - split; [done|]. destruct s2; [done|]. symmetry in H3; by apply (utf8_nonempty (z :: s2)) in H3.
  - by destruct q'.
Qed.

(** ** Chunks

    What the decoder decides on a prefix it does not change its mind about, so
    feeding a stream in pieces decodes it as a whole, well formed or not. *)
Lemma decode_step_stable b0 r x :
  decode_step b0 r <> DMore -> decode_step b0 (r ++ x) = decode_step b0 r.
Proof.
  unfold decode_step. intros H.
  destruct r as [|b1 [|b2 [|b3 r]]]; simpl in *;
    repeat match goal with |- context [if ?c then _ else _] => destruct c end; done.
Qed.

Definition step_size (d : dstep) : nat := match d with DChar _ n | DBad n => n | DMore => 1 end.

Lemma decode_step_size b0 r :
  (1 <= step_size (decode_step b0 r) <= S (length r))%nat.
Proof.
  unfold decode_step.
  repeat (first [match goal with |- context [if ?c then _ else _] => destruct c end
                 | match goal with |- context [match ?r with [] => _ | _ => _ end] => destruct r end]);
    simpl; lia.
Qed.

Lemma scalar_spec c : 0 <= c <= 1114111 -> c < 55296 \/ 57343 < c -> scalar c = true.
Proof. intros. unfold scalar. zbool. Qed.

Lemma decode_step_scalar b0 r c n :
  0 <= b0 -> decode_step b0 r = DChar c n -> scalar c = true.
Proof.
  intros H0. unfold decode_step, second3, second4, cont.
  destruct r as [|b1 [|b2 [|b3 r]]]; simpl;
    repeat match goal with
    | |- context [if ?b0 <? ?k then _ else _] => destruct (Z.ltb_spec b0 k)
    | |- context [if ?a && ?b then _ else _] => destruct (a && b) eqn:?
    end; try done; intros [= <- <-];
    repeat match goal with
    | H : _ && _ = true |- _ => apply andb_true_iff in H as [?%Z.leb_le ?%Z.leb_le]
    | H : context [if ?b =? ?k then _ else _] |- _ => destruct (Z.eqb_spec b k)
    end; apply scalar_spec; lia.
Qed.

Lemma decode_incr_app h a b :
  decode_incr h (a ++ b) =
    let '(t, p) := decode_incr h a in let '(u, q) := decode_incr h (p ++ b) in (t ++ u, q).
Proof.
  remember (length a) as n eqn:Hn. revert a Hn.
  induction n as [n IH] using (well_founded_induction lt_wf). intros a ->.
  destruct a as [|b0 r]; [unfold decode_incr at 2; simpl; by destruct (decode_incr h b)|].
  destruct (decode_step b0 r) as [c k|k|] eqn:E.
  3: { unfold decode_incr at 2. cbn [length decode_go]. rewrite E. by destruct (decode_incr h _). }
  all: pose proof (decode_step_size b0 r) as Hk; rewrite E in Hk; cbn [step_size] in Hk.
  all: pose proof (decode_step_stable b0 r b ltac:(by rewrite E)) as E'; rewrite E in E'.
  all: pose proof (length_drop (b0 :: r) k) as Hd; cbn [length] in Hd.
  all: assert (drop k ((b0 :: r) ++ b) = drop k (b0 :: r) ++ b) as Happ
         by (apply drop_app_le; simpl; lia).
  all: unfold decode_incr at 1 2; cbn [app length decode_go]; rewrite E, E'.
  all: cbn [app] in Happ; rewrite Happ.
  all: rewrite (decode_go_fuel h _ (drop k (b0 :: r) ++ b)) by (rewrite !length_app, Hd; lia).
  all: rewrite (decode_go_fuel h _ (drop k (b0 :: r))) by (rewrite Hd; lia).
  all: fold (decode_incr h (drop k (b0 :: r) ++ b)) (decode_incr h (drop k (b0 :: r))).
  all: rewrite (IH (length (drop k (b0 :: r))) ltac:(simpl length at 2; lia) _ eq_refl).
  all: destruct (decode_incr h (drop k (b0 :: r))) as [t p]; destruct (decode_incr h (p ++ b)).
  all: simpl; by rewrite ?app_assoc.
Qed.

Lemma decode_incr_scalars h b :
  scalars h -> Forall (fun x => 0 <= x) b ->
  scalars (fst (decode_incr h b)) /\ Forall (fun x => 0 <= x) (snd (decode_incr h b)).
Proof.
  intros Hh. unfold decode_incr. generalize (length b) as f. intros f.
  revert b; induction f as [|f IH]; intros b Hb; [done|].
  destruct b as [|b0 r]; [done|]. cbn [decode_go].
  assert (forall n, Forall (fun x => 0 <= x) (drop n (b0 :: r))) as Hd by (intros; by apply Forall_drop).
  pose proof (Forall_inv Hb) as Hb0. simpl in Hb0.
  destruct (decode_step b0 r) as [c n|n|] eqn:E; [| |done];
    specialize (IH _ (Hd n)); destruct (decode_go h f _) as [t rest]; simpl in *; destruct IH.
  - split; [|done]. constructor; [by eapply decode_step_scalar|done].
  - split; [|done]. by apply Forall_app.
Qed.
