(* ===== verification/HeadTail.v ===== *)
(** * Bounded terminal output: head/tail buffer and preview

    Models the pure half of [kolega_code/services/terminal_buffer.py]: the
    clamps, [HeadTailBuffer] with its [view], the character and token caps and
    the head/tail preview.  [UnicodeDecodeError] is the value [None]. *)

From stdpp Require Import base list strings numbers.
From Stdlib Require Import ZArith Lia.
From S2P Require Import Prelude PyStr Utf8.

Definition GLOBAL_MAX_TOOL_OUTPUT_TOKENS : Z := 10000.
Definition SPILL_THRESHOLD_BYTES : Z := 50 * 1024.
Definition PREVIEW_HEAD_BYTES : Z := 20 * 1024.
Definition PREVIEW_TAIL_BYTES : Z := 30 * 1024.
Definition LINE_CAP_BYTES : Z := 1024.
(** ["… [line truncated]"], whose first character is U+2026. *)
Definition LINE_TRUNCATION_MARKER : str := 8230 :: lit " [line truncated]".
Definition MIN_YIELD_MS : Z := 250.
Definition MAX_YIELD_MS : Z := 30000.
Definition MIN_POLL_MS : Z := 5000.
Definition MAX_POLL_MS : Z := 300000.
Definition DEFAULT_YIELD_MS : Z := 10000.

(** [value] is what [int(value)] gives, [None] when it raises. *)
Definition clamp_yield (value : option Z) (poll : bool) : Z :=
  let millis := match value with Some m => m | None => DEFAULT_YIELD_MS end in
  let millis := if millis <=? 0 then DEFAULT_YIELD_MS else millis in
  let low := if poll then MIN_POLL_MS else MIN_YIELD_MS in
  let high := if poll then MAX_POLL_MS else MAX_YIELD_MS in
  Z.max low (Z.min high millis).

Definition clamp_output_tokens (value : option Z) : Z :=
  let tokens := match value with Some t => t | None => GLOBAL_MAX_TOOL_OUTPUT_TOKENS end in
  Z.max 1 (Z.min tokens GLOBAL_MAX_TOOL_OUTPUT_TOKENS).

Definition _omitted_marker (num_bytes num_lines : Z) : str :=
  let noun := if num_lines =? 1 then lit "line" else lit "lines" in
  [NL] ++ lit "[... omitted " ++ dec_comma num_bytes ++ lit " bytes across "
    ++ dec_comma num_lines ++ lit " " ++ noun ++ lit " ...]" ++ [NL].

Record HeadTailView := mkView {
  head : str;
  tail : str;
  omitted_bytes : Z;
  omitted_newlines : Z;
  omitted_ends_newline : bool;
  omitted_lines : Z
}.

(** ** [HeadTailBuffer] *)

Module HeadTailBuffer.

Record t := mk {
  _head_cap : Z;
  _tail_cap : Z;
  _head : bytes;
  _tail : bytes;
  _omitted_line_breaks : Z;
  _omitted_ends_newline : bool;
  total_bytes : Z
}.

Definition init (head_bytes tail_bytes : Z) : t :=
  mk head_bytes tail_bytes [] [] 0 false 0.

Definition append (b : t) (data : bytes) : t :=
  if negb (nonempty data) then b
  else
    let total := total_bytes b + len data in
    let '(hd, data) :=
      if len (_head b) <? _head_cap b then
        let take := _head_cap b - len (_head b) in
        (_head b ++ slice_to data take, slice_from data take)
      else (_head b, data) in
    if nonempty data then
      let tl := _tail b ++ data in
      let excess := len tl - _tail_cap b in
      if 0 <? excess then
        let removed := slice_to tl excess in
        mk (_head_cap b) (_tail_cap b) hd (slice_from tl excess)
           (_omitted_line_breaks b + count_char NL removed)
           (endswith [NL] removed) total
      else mk (_head_cap b) (_tail_cap b) hd tl
              (_omitted_line_breaks b) (_omitted_ends_newline b) total
    else mk (_head_cap b) (_tail_cap b) hd (_tail b)
            (_omitted_line_breaks b) (_omitted_ends_newline b) total.

Definition view (b : t) : option HeadTailView :=
  let raw_omitted := Z.max 0 (total_bytes b - len (_head b) - len (_tail b)) in
  if raw_omitted =? 0 then
    text ← decode_strict (_head b ++ _tail b);
    Some (mkView text [] 0 0 false 0)
  else
    let hd := decode_ignore (_head b) in
    let tl := decode_ignore (_tail b) in
    let retained_bytes := len (utf8 hd) + len (utf8 tl) in
    let omitted := Z.max 0 (total_bytes b - retained_bytes) in
    let skipped_tail_bytes := len (_tail b) - len (utf8 tl) in
    let ends := if skipped_tail_bytes =? 0 then _omitted_ends_newline b else false in
    let lines := _omitted_line_breaks b + (if ends then 0 else 1) in
    Some (mkView hd tl omitted (_omitted_line_breaks b) ends (Z.max 1 lines)).

(** The properties [omitted_bytes] and [omitted_lines] of the class. *)
Definition get_omitted_bytes (b : t) : option Z := omitted_bytes <$> view b.
Definition get_omitted_lines (b : t) : option Z := omitted_lines <$> view b.

Definition text (b : t) : option str :=
  v ← view b;
  Some (if omitted_bytes v =? 0 then head v
        else head v ++ _omitted_marker (omitted_bytes v) (omitted_lines v) ++ tail v).

Definition reset (b : t) : t := mk (_head_cap b) (_tail_cap b) [] [] 0 false 0.

Definition __len__ (b : t) : Z := total_bytes b.

End HeadTailBuffer.

(** ** Character and token caps *)

Record CappedOutput := mkCapped {
  out_text : str;
  truncated : bool;
  original_token_count : Z;
  spill_path : option str;
  spill_bytes : Z;
  line_truncated_count : Z;
  line_truncated_bytes : Z;
  preview_omitted_bytes : Z;
  preview_omitted_lines : Z
}.

(** A [CappedOutput] with the dataclass defaults. *)
Definition capped (t : str) (tr : bool) (n : Z) : CappedOutput := mkCapped t tr n None 0 0 0 0 0.

Definition _truncation_marker (max_tokens : Z) : str :=
  [NL] ++ lit "[... output truncated to fit " ++ dec max_tokens ++ lit " tokens ...]" ++ [NL].

Definition _estimated_tokens (char_count : Z) : Z :=
  if char_count <=? 0 then 0 else (char_count + 3) / 4.

Definition cap_chars (text : str) (budget_chars : Z) (marker : str)
    (original_tokens : option Z) : CappedOutput :=
  let budget := Z.max 0 budget_chars in
  let original := default (_estimated_tokens (len text)) original_tokens in
  if len text <=? budget then capped text false original
  else if budget =? 0 then capped [] true original
  else if budget <=? len marker then capped (slice_to marker budget) true original
  else
    let available := budget - len marker in
    let head := available / 2 in
    let tail := available - head in
    capped (slice_to text head ++ marker ++
              (if negb (tail =? 0) then slice_from text (- tail) else [])) true original.

(** [max_tokens] is what [int(max_tokens)] gives; the soft limit has no
    [except] clause and is only called with integers. *)
Definition effective_tokens (max_tokens : Z) (hard_limit : bool) : Z :=
  if hard_limit then clamp_output_tokens (Some max_tokens) else Z.max 1 max_tokens.

Definition cap_tokens (text : str) (max_tokens : Z) (protected_suffix : str)
    (original_tokens : option Z) (hard_limit : bool) : CappedOutput :=
  let effective_max_tokens := effective_tokens max_tokens hard_limit in
  let original := default (_estimated_tokens (len text)) original_tokens in
  let full := text ++ protected_suffix in
  let budget_chars := effective_max_tokens * 4 in
  if len full <=? budget_chars then capped full (effective_max_tokens <? original) original
  else
    let marker := _truncation_marker effective_max_tokens in
    let suffix := if len protected_suffix <=? budget_chars then protected_suffix else [] in
    let available := Z.max 0 (budget_chars - len marker - len suffix) in
    let out :=
      if available =? 0 then
        (if nonempty suffix then slice_from suffix (- budget_chars) else [])
      else
        out_text (cap_chars text (available + len marker) marker (Some original)) ++ suffix in
    capped (slice_to out budget_chars) true original.

(** ** The head/tail preview *)

Definition _allocate_preview_chars (head_length tail_length available : Z) : Z * Z :=
  let available := Z.max 0 available in
  let head := Z.min head_length
                (available * PREVIEW_HEAD_BYTES / (PREVIEW_HEAD_BYTES + PREVIEW_TAIL_BYTES)) in
  let tail := Z.min tail_length (available - head) in
  let remaining := available - head - tail in
  let '(head, remaining) :=
    if negb (remaining =? 0) then
      let extra_head := Z.min remaining (head_length - head) in
      (head + extra_head, remaining - extra_head)
    else (head, remaining) in
  let tail := if negb (remaining =? 0) then tail + Z.min remaining (tail_length - tail) else tail in
  (head, tail).

(** What one round of the marker loop computes from the marker it starts with. *)
Record preview_round := mkRound {
  pr_head_keep : Z;
  pr_tail_keep : Z;
  pr_omitted_bytes : Z;
  pr_omitted_lines : Z;
  pr_marker : str
}.

Definition render_round (view : HeadTailView) (source_head source_tail : str)
    (budget : Z) (marker : str) : preview_round :=
  let available := Z.max 0 (budget - len marker) in
  let '(next_head_keep, next_tail_keep) :=
    _allocate_preview_chars (len source_head) (len source_tail) available in
  let removed_head := slice_from source_head next_head_keep in
  let removed_tail :=
    if negb (next_tail_keep =? 0) then slice_to source_tail (len source_tail - next_tail_keep)
    else source_tail in
  let omitted := omitted_bytes view + len (utf8 removed_head) + len (utf8 removed_tail) in
  let newlines := omitted_newlines view + count_char NL removed_head + count_char NL removed_tail in
  let ends :=
    if nonempty removed_tail then endswith [NL] removed_tail
    else if negb (omitted_bytes view =? 0) then omitted_ends_newline view
    else endswith [NL] removed_head in
  let lines := Z.max 1 (newlines + (if ends then 0 else 1)) in
  mkRound next_head_keep next_tail_keep omitted lines (_omitted_marker omitted lines).

(** The [for _ in range(6)] loop: the kept lengths and the marker of the last
    round, with the omission counts of the last round computed. *)
Fixpoint render_loop (rounds : nat) (view : HeadTailView) (source_head source_tail : str)
    (budget : Z) (cur : preview_round) : preview_round :=
  match rounds with
  | O => cur
  | S n =>
      let next := render_round view source_head source_tail budget (pr_marker cur) in
      if (pr_head_keep next =? pr_head_keep cur) && (pr_tail_keep next =? pr_tail_keep cur)
         && bool_decide (pr_marker next = pr_marker cur)
      then mkRound (pr_head_keep cur) (pr_tail_keep cur)
                   (pr_omitted_bytes next) (pr_omitted_lines next) (pr_marker cur)
      else render_loop n view source_head source_tail budget next
  end.

Definition _render_preview (view : HeadTailView) (budget_chars : Z) : str * Z * Z :=
  let budget := Z.max 0 budget_chars in
  if (omitted_bytes view =? 0) && (len (head view) <=? budget) then (head view, 0, 0)
  else
    let '(source_head, source_tail) :=
      if omitted_bytes view =? 0 then
        let split := len (head view) * PREVIEW_HEAD_BYTES
                       / (PREVIEW_HEAD_BYTES + PREVIEW_TAIL_BYTES) in
        (slice_to (head view) split, slice_from (head view) split)
      else (head view, tail view) in
    let marker := _omitted_marker (Z.max 1 (omitted_bytes view)) (Z.max 1 (omitted_lines view)) in
    let r := render_loop 6 view source_head source_tail budget
               (mkRound (-1) (-1) (omitted_bytes view) (omitted_lines view) marker) in
    if budget <? len (pr_marker r) then
      (out_text (cap_chars (source_head ++ source_tail) budget
                   (_truncation_marker (Z.max 1 (budget / 4))) None),
       pr_omitted_bytes r, pr_omitted_lines r)
    else
      (slice_to source_head (Z.max 0 (pr_head_keep r)) ++ pr_marker r ++
         (if 0 <? pr_tail_keep r then slice_from source_tail (- pr_tail_keep r) else []),
       pr_omitted_bytes r, pr_omitted_lines r).

(** ** Clamps *)

Lemma clamp_output_tokens_bounds v : 1 <= clamp_output_tokens v <= GLOBAL_MAX_TOOL_OUTPUT_TOKENS.
Proof. unfold clamp_output_tokens, GLOBAL_MAX_TOOL_OUTPUT_TOKENS; lia. Qed.

Lemma effective_tokens_pos n hard : 1 <= effective_tokens n hard.
Proof.
  unfold effective_tokens; destruct hard; [|lia].
  pose proof (clamp_output_tokens_bounds (Some n)); lia.
Qed.

(** ** [HeadTailBuffer]: the specification

    After the bytes [D], whatever the chunks they came in, the buffer holds
    the first [hc] of them, the last [tc] of the remainder, and the exact
    account of the bytes in between. *)

Section HeadTailSpec.
Variables hc tc : Z.
Hypothesis hc_nonneg : 0 <= hc.
Hypothesis tc_nonneg : 0 <= tc.

Definition ht_rest (D : bytes) : bytes := drop (Z.to_nat hc) D.
Definition ht_cut (D : bytes) : nat := Z.to_nat (len (ht_rest D) - tc).
Definition ht_head (D : bytes) : bytes := take (Z.to_nat hc) D.
Definition ht_middle (D : bytes) : bytes := take (ht_cut D) (ht_rest D).
Definition ht_tail (D : bytes) : bytes := drop (ht_cut D) (ht_rest D).

Definition ht_spec (D : bytes) : HeadTailBuffer.t :=
  HeadTailBuffer.mk hc tc (ht_head D) (ht_tail D)
    (count_char NL (ht_middle D)) (endswith [NL] (ht_middle D)) (len D).

Lemma ht_split D : ht_head D ++ ht_middle D ++ ht_tail D = D.
Proof. unfold ht_head, ht_middle, ht_tail, ht_rest; by rewrite !take_drop. Qed.

Lemma ht_rest_app D data :
  ht_rest (D ++ data) =
    ht_rest D ++ (if len D <? hc then slice_from data (hc - len D) else data).
Proof.
  unfold ht_rest. destruct (Z.ltb_spec (len D) hc).
  - unfold len in *. rewrite drop_app_ge, (drop_ge D) by lia. simpl.
    rewrite slice_from_pos by lia. f_equal; lia.
  - unfold len in *. rewrite drop_app_le by lia. done.
Qed.

Lemma ht_head_app D data :
  ht_head (D ++ data) =
    ht_head D ++ (if len D <? hc then slice_to data (hc - len D) else []).
Proof.
  unfold ht_head. destruct (Z.ltb_spec (len D) hc).
  - unfold len in *. rewrite take_app_ge, (take_ge D) by lia.
    rewrite slice_to_pos by lia. do 2 f_equal; lia.
  - unfold len in *. rewrite take_app_le by lia. by rewrite app_nil_r.
Qed.

Lemma len_ht_head D : len (ht_head D) = Z.min hc (len D).
Proof. unfold ht_head; rewrite len_take; lia. Qed.
Lemma len_ht_tail D : len (ht_tail D) = Z.min tc (len (ht_rest D)).
Proof. unfold ht_tail, ht_cut; rewrite len_drop; pose proof (len_nonneg (ht_rest D)); lia. Qed.

Lemma ht_init : HeadTailBuffer.init hc tc = ht_spec [].
Proof.
  unfold HeadTailBuffer.init, ht_spec, ht_head, ht_tail, ht_middle, ht_cut, ht_rest.
  by rewrite take_nil, drop_nil, take_nil, drop_nil.
Qed.

Lemma endswith_app_nonempty p l1 l2 :
  l2 <> [] -> endswith [p] (l1 ++ l2) = endswith [p] l2.
Proof.
  intros H. unfold endswith. rewrite rev_app_distr. simpl.
  destruct (rev l2) eqn:E; [|done].
  apply (f_equal length) in E. rewrite length_rev in E. by destruct l2.
Qed.

(** Pushing [r] onto the remainder moves the overflow of the tail into the
    middle. *)
Lemma ht_push D D' r :
  ht_rest D' = ht_rest D ++ r ->
  let tl := ht_tail D ++ r in
  let ex := Z.to_nat (len tl - tc) in
  ht_middle D' = ht_middle D ++ take ex tl /\ ht_tail D' = drop ex tl.
Proof.
  intros E tl ex. unfold ht_middle at 1, ht_tail at 1. rewrite E.
  assert (ht_rest D ++ r = ht_middle D ++ tl) as ->.
  { unfold tl, ht_middle, ht_tail. by rewrite app_assoc, take_drop. }
  assert (ht_cut D' = (length (ht_middle D) + ex)%nat) as ->.
  { pose proof (len_ht_tail D) as Ht.
    assert (len (ht_middle D) + len (ht_tail D) = len (ht_rest D)) as Hs.
    { unfold ht_middle, ht_tail. by rewrite <- len_app, take_drop. }
    unfold ht_cut, ex, tl. rewrite E, !len_app.
    pose proof (len_nonneg r). pose proof (len_nonneg (ht_rest D)).
    unfold len in *; lia. }
  by rewrite take_app_add, drop_app_add.
Qed.

Lemma ht_append D data :
  HeadTailBuffer.append (ht_spec D) data = ht_spec (D ++ data).
Proof.
  unfold HeadTailBuffer.append. destruct data as [|x data]; [by rewrite app_nil_r|].
  cbn [nonempty negb ht_spec HeadTailBuffer._head HeadTailBuffer._head_cap
       HeadTailBuffer._tail HeadTailBuffer._tail_cap HeadTailBuffer.total_bytes
       HeadTailBuffer._omitted_line_breaks HeadTailBuffer._omitted_ends_newline].
  set (dat := x :: data). rewrite len_ht_head.
  pose proof (ht_rest_app D dat) as Hr. pose proof (ht_head_app D dat) as Hh.
  assert ((Z.min hc (len D) <? hc) = (len D <? hc)) as Hlt by (zbool; lia).
  rewrite Hlt. set (r := if len D <? hc then slice_from dat (hc - len D) else dat) in *.
  destruct (ht_push D (D ++ dat) r Hr) as [Hm Ht].
  replace (if len D <? hc
           then (ht_head D ++ slice_to dat (hc - Z.min hc (len D)),
                 slice_from dat (hc - Z.min hc (len D)))
           else (ht_head D, dat)) with (ht_head (D ++ dat), r).
  2: { unfold r; rewrite Hh. destruct (Z.ltb_spec (len D) hc); [|by rewrite app_nil_r].
       by rewrite Z.min_r by lia. }
  cbv zeta in Hm, Ht. unfold ht_spec. rewrite Hm, Ht, (len_app D dat), count_char_app. clearbody r.
  pose proof (len_ht_tail D) as Hlt'. pose proof (len_nonneg (ht_rest D)).
  assert (r = [] -> ht_tail D ++ r = ht_tail D) as Hnil by (intros ->; apply app_nil_r).
  remember (ht_tail D ++ r) as tl eqn:Etl.
  assert ((0 <? len tl - tc) = false -> Z.to_nat (len tl - tc) = 0%nat) as Hz by (intros; zbool).
  destruct r as [|y r0] eqn:Er; cbn [nonempty].
  - rewrite Hnil by done. replace (Z.to_nat (len (ht_tail D) - tc)) with 0%nat by lia.
    by rewrite take_0, drop_0, app_nil_r, Z.add_0_r.
  - destruct (0 <? len tl - tc) eqn:Eex.
    + rewrite slice_to_pos, slice_from_pos by lia. f_equal.
      rewrite endswith_app_nonempty; [done|]. intros E0.
      apply (f_equal len) in E0. rewrite len_take, len_nil in E0. lia.
    + rewrite Hz by done. by rewrite take_0, drop_0, app_nil_r, Z.add_0_r.
Qed.

(** Feeding chunks one after the other. *)
Lemma ht_feed D chunks :
  fold_left HeadTailBuffer.append chunks (ht_spec D) = ht_spec (D ++ concat chunks).
Proof.
  revert D; induction chunks as [|c chunks IH]; intros D; simpl; [by rewrite app_nil_r|].
  by rewrite ht_append, IH, app_assoc.
Qed.
End HeadTailSpec.

(** ** What a view shows *)

(** A view of the text [s] that accounts for every character: nothing is left
    out, or [s] is the head, an omitted middle and the tail, and the counts
    are those of the middle. *)
Inductive view_of (s : str) : HeadTailView -> Prop :=
| view_full : view_of s (mkView s [] 0 0 false 0)
| view_elided s1 s2 s3 :
    s = s1 ++ s2 ++ s3 -> s2 <> [] ->
    view_of s (mkView s1 s3 (len (utf8 s2)) (count_char NL s2) (endswith [NL] s2)
                 (Z.max 1 (count_char NL s2 + (if endswith [NL] s2 then 0 else 1)))).

Lemma count_nl_conts q : Forall (fun b => cont b = true) q -> count_char NL q = 0.
Proof. induction 1; simpl; [done|]. unfold cont, NL in *; zbool. Qed.

Lemma endswith_nl_conts l q :
  Forall (fun b => cont b = true) q -> q <> [] -> endswith [NL] (l ++ q) = false.
Proof.
  intros Hq Hne. destruct q as [|x q _] using rev_ind; [done|].
  rewrite app_assoc, endswith_snoc. apply Forall_app in Hq as [_ Hx].
  inversion Hx; subst. unfold cont, NL in *; zbool.
Qed.

Lemma ht_view_spec hc tc s :
  0 <= hc -> 0 <= tc -> scalars s ->
  exists v, HeadTailBuffer.view (ht_spec hc tc (utf8 s)) = Some v /\ view_of s v.
Proof.
  intros Hh Ht Hs. set (D := utf8 s).
  pose proof (ht_split hc tc D) as Hsplit.
  assert (len (ht_head hc D) + len (ht_middle hc tc D) + len (ht_tail hc tc D) = len D) as Hlen.
  { rewrite <- Hsplit at 4. rewrite !len_app; lia. }
  unfold HeadTailBuffer.view; cbn [ht_spec HeadTailBuffer.total_bytes HeadTailBuffer._head
    HeadTailBuffer._tail HeadTailBuffer._omitted_line_breaks HeadTailBuffer._omitted_ends_newline].
  pose proof (len_nonneg (ht_middle hc tc D)) as Hm0.
  destruct (Z.eqb_spec (Z.max 0 (len D - len (ht_head hc D) - len (ht_tail hc tc D))) 0) as [E|E].
  - assert (ht_middle hc tc D = []) as Em by (apply len_zero_nil; lia).
    rewrite Em in Hsplit. simpl in Hsplit. rewrite Hsplit.
    exists (mkView s [] 0 0 false 0). split; [|constructor].
    unfold D. by rewrite decode_strict_encode.
  - set (k1 := length (ht_head hc D)). set (k2 := (k1 + length (ht_middle hc tc D))%nat).
    assert (k2 <= length D)%nat as Hk by (unfold k2, k1, len in *; lia).
    assert (take k1 D = ht_head hc D) as Hk1 by (rewrite <- Hsplit at 1; apply take_app_length).
    assert (drop k2 D = ht_tail hc tc D) as Hk2.
    { rewrite <- Hsplit at 1. unfold k2, k1. by rewrite app_assoc, <- length_app, drop_app_length. }
    destruct (utf8_cut_left s k1 Hs ltac:(unfold D, k2 in *; lia)) as (s1 & x & p & Ex & Hp1 & Hp2 & Hp3).
    destruct (utf8_cut_right s k2 Hs ltac:(unfold D, k2 in *; lia)) as (y & s3 & q & Ey & Hq1 & Hq2 & Hq3).
    fold D in Hp1, Hp2, Hq1, Hq2. rewrite Hk1 in Hp1, Hp2. rewrite Hk2 in Hq1, Hq2.
    rewrite Hp2, Hq2.
    destruct (utf8_prefix_le s1 x y s3) as [s2 ->].
    { by rewrite <- Ex, Ey. }
    { assert (len D = len (utf8 y) + len (utf8 s3)) as E1 by (unfold D; by rewrite Ey, utf8_app, len_app).
      apply (f_equal len) in Hp1, Hq1. rewrite len_app in Hp1, Hq1. pose proof (len_nonneg p).
      pose proof (len_nonneg q). lia. }
    rewrite <- app_assoc in Ey.
    assert (utf8 s2 = p ++ ht_middle hc tc D ++ q) as Es2.
    { apply (app_inv_head (utf8 s1)), (app_inv_tail (utf8 s3)).
      rewrite <- !app_assoc, <- !utf8_app, <- Ey. fold D. rewrite <- Hsplit at 1.
      rewrite Hp1, Hq1. by rewrite <- !app_assoc. }
    assert (scalars s2) as Hs2 by (rewrite Ey in Hs; rewrite !Forall_app in Hs; naive_solver).
    assert (ht_middle hc tc D <> []) as Hmne by (intros E0; rewrite E0, len_nil in Hlen; lia).
    assert (s2 <> []) as Hne by (intros ->; by destruct p, (ht_middle hc tc D)).
    eexists; split; [reflexivity|].
    assert (count_char NL (ht_middle hc tc D) = count_char NL s2) as Hcnt.
    { rewrite <- (count_nl_utf8 s2), Es2, !count_char_app, Hp3, (count_nl_conts q); [lia|done..]. }
    assert ((if len (ht_tail hc tc D) - len (utf8 s3) =? 0 then endswith [NL] (ht_middle hc tc D) else false)
            = endswith [NL] s2) as Hends.
    { rewrite <- (endswith_nl_utf8 s2), Es2, Hq1, len_app by done.
      destruct (Z.eqb_spec (len q + len (utf8 s3) - len (utf8 s3)) 0) as [E0|E0].
      - assert (q = []) as -> by (apply len_zero_nil; lia).
        by rewrite app_nil_r, endswith_app_nonempty.
      - rewrite app_assoc, endswith_nl_conts; [done|done|]. intros ->. rewrite len_nil in E0; lia. }
    rewrite Hends, Hcnt.
    replace (Z.max 0 (len D - (len (utf8 s1) + len (utf8 s3)))) with (len (utf8 s2)).
    { by apply view_elided. }
    unfold D. rewrite Ey, !utf8_app, !len_app. pose proof (len_nonneg (utf8 s2)). lia.
Qed.

(** ** Caps *)

Lemma cap_chars_len text budget marker o :
  len (out_text (cap_chars text budget marker o)) <= Z.max 0 budget.
Proof.
  unfold cap_chars. set (b := Z.max 0 budget).
  destruct (Z.leb_spec (len text) b); [done|].
  destruct (Z.eqb_spec b 0); [simpl; rewrite len_nil; lia|].
  destruct (Z.leb_spec b (len marker)).
  - simpl. rewrite len_slice_to_pos by lia. lia.
  - set (av := b - len marker).
    pose proof (Z.div_pos av 2 ltac:(lia) ltac:(lia)).
    assert (av / 2 <= av) by (apply Z.div_le_upper_bound; lia). simpl.
    rewrite !len_app, len_slice_to_pos by lia.
    destruct (Z.eqb_spec (av - av / 2) 0); simpl; [rewrite len_nil; lia|].
    rewrite len_slice_from_neg by lia. lia.
Qed.

Lemma cap_tokens_len text n suffix o hard :
  len (out_text (cap_tokens text n suffix o hard)) <= 4 * effective_tokens n hard.
Proof.
  unfold cap_tokens. pose proof (effective_tokens_pos n hard).
  set (e := effective_tokens n hard) in *.
  destruct (Z.leb_spec (len (text ++ suffix)) (e * 4)); [simpl; lia|].
  simpl. rewrite len_slice_to_pos by lia. lia.
Qed.

(** When there is room for the marker and one more character, the protected
    suffix survives whole at the end. *)
Lemma cap_tokens_suffix text n suffix o hard :
  len (_truncation_marker (effective_tokens n hard)) + len suffix < 4 * effective_tokens n hard ->
  exists pre, out_text (cap_tokens text n suffix o hard) = pre ++ suffix.
Proof.
  unfold cap_tokens. pose proof (effective_tokens_pos n hard).
  set (e := effective_tokens n hard) in *. intros Hroom.
  destruct (Z.leb_spec (len (text ++ suffix)) (e * 4)); [simpl; eauto|].
  pose proof (len_nonneg (_truncation_marker e)).
  destruct (Z.leb_spec (len suffix) (e * 4)); [|lia].
  destruct (Z.eqb_spec (Z.max 0 (e * 4 - len (_truncation_marker e) - len suffix)) 0); [lia|].
  cbn [out_text capped].
  set (av := Z.max 0 (e * 4 - len (_truncation_marker e) - len suffix)) in *.
  match goal with |- context [out_text ?c] => set (content := out_text c) end.
  assert (len content <= av + len (_truncation_marker e)) as Hc.
  { unfold content. etransitivity; [apply cap_chars_len|]. unfold av; lia. }
  exists content. rewrite slice_to_pos by lia. rewrite take_ge; [done|].
  rewrite length_app. unfold len in *. unfold av in *. lia.
Qed.

Lemma allocate_bounds H T av :
  0 <= H -> 0 <= T -> 0 <= av ->
  let '(h, t) := _allocate_preview_chars H T av in
  0 <= h <= H /\ 0 <= t <= T /\ h + t = Z.min av (H + T).
Proof.
  intros HH HT Hav. unfold _allocate_preview_chars.
  rewrite Z.max_r by done. unfold PREVIEW_HEAD_BYTES, PREVIEW_TAIL_BYTES.
  set (q := av * (20 * 1024) / (20 * 1024 + 30 * 1024)).
  assert (0 <= q <= av) as Hq.
  { unfold q; split; [apply Z.div_pos; lia|apply Z.div_le_upper_bound; lia]. }
  clearbody q. set (h0 := Z.min H q). set (t0 := Z.min T (av - h0)).
  destruct (Z.eqb_spec (av - h0 - t0) 0); simpl.
  - destruct (Z.eqb_spec (av - h0 - t0) 0); simpl; lia.
  - destruct (Z.eqb_spec (av - h0 - t0 - Z.min (av - h0 - t0) (H - h0)) 0); simpl; lia.
Qed.

(** ** Properties *)

(** Whatever the chunks a byte stream arrives in, [HeadTailBuffer] ends in
    the state the specification gives for the whole stream: its first
    [head_bytes] bytes, the last [tail_bytes] of the rest, the total, and the
    newline account of exactly the bytes dropped in between; so its [view] of
    an encoded text (read through [decode], with characters cut by either
    bound dropped) is the whole text, or a prefix and a suffix of it with the
    exact byte and line counts of what lies between. *)
Theorem head_tail_refines hc tc chunks :
  0 <= hc -> 0 <= tc ->
  fold_left HeadTailBuffer.append chunks (HeadTailBuffer.init hc tc)
    = ht_spec hc tc (concat chunks) /\
  (forall s, scalars s -> concat chunks = utf8 s ->
     exists v, HeadTailBuffer.view (fold_left HeadTailBuffer.append chunks (HeadTailBuffer.init hc tc))
                 = Some v /\ view_of s v).
Proof.
  intros Hh Ht.
  rewrite (ht_init hc tc), ht_feed by done. split; [done|].
  intros s Hs ->. by apply ht_view_spec.
Qed.

Lemma head_tail_refines_witness :
  fold_left HeadTailBuffer.append [[97; 98]; [99; 10; 100]; [101]] (HeadTailBuffer.init 2 1)
    = HeadTailBuffer.mk 2 1 [97; 98] [101] 1 false 6.
Proof.
  rewrite (proj1 (head_tail_refines 2 1 [[97; 98]; [99; 10; 100]; [101]] ltac:(lia) ltac:(lia))).
  reflexivity.
Defined.

(** [cap_tokens] never returns more than four characters per effective
    token, marker and suffix included, and keeps the protected suffix whole
    whenever the budget holds the marker, the suffix and one more character. *)
Theorem cap_tokens_bounded text n suffix o hard :
  len (out_text (cap_tokens text n suffix o hard)) <= 4 * effective_tokens n hard /\
  (len (_truncation_marker (effective_tokens n hard)) + len suffix < 4 * effective_tokens n hard ->
   exists pre, out_text (cap_tokens text n suffix o hard) = pre ++ suffix).
Proof. split; [apply cap_tokens_len|apply cap_tokens_suffix]. Qed.

Lemma cap_tokens_bounded_witness :
  len (out_text (cap_tokens (replicate 500 97) 30 (lit "SPILL") None true)) <= 120 /\
  exists pre, out_text (cap_tokens (replicate 500 97) 30 (lit "SPILL") None true) = pre ++ lit "SPILL".
Proof.
  destruct (cap_tokens_bounded (replicate 500 97) 30 (lit "SPILL") None true) as [H1 H2].
  split; [exact H1|apply H2; vm_compute; reflexivity].
Defined.
