(* ===== verification/Preview.v ===== *)
(** * The preview fits its budget

    [_render_preview] lets the omission marker and the kept text depend on each
    other and settles them in at most six rounds.  This file shows that six are
    enough: marker lengths only grow from round to round, by four characters
    in total after the first one, so the rendered preview never exceeds the
    requested number of characters. *)

From stdpp Require Import base list strings numbers.
From Stdlib Require Import ZArith Lia.
From S2P Require Import Prelude PyStr Utf8 HeadTail.

(** ** The kept lengths are monotone in the available room *)

Lemma allocate_closed H T av :
  0 <= H -> 0 <= T -> 0 <= av ->
  let q := av * PREVIEW_HEAD_BYTES / (PREVIEW_HEAD_BYTES + PREVIEW_TAIL_BYTES) in
  fst (_allocate_preview_chars H T av) = Z.min H (Z.max q (av - T)).
Proof.
  intros HH HT Hav q. unfold _allocate_preview_chars. rewrite Z.max_r by done. fold q.
  assert (0 <= q <= av) as Hq.
  { unfold q, PREVIEW_HEAD_BYTES, PREVIEW_TAIL_BYTES.
    split; [apply Z.div_pos; lia|apply Z.div_le_upper_bound; lia]. }
  clearbody q. set (h0 := Z.min H q). set (t0 := Z.min T (av - h0)).
  destruct (Z.eqb_spec (av - h0 - t0) 0); simpl.
  - destruct (Z.eqb_spec (av - h0 - t0) 0); simpl; lia.
  - destruct (Z.eqb_spec (av - h0 - t0 - Z.min (av - h0 - t0) (H - h0)) 0); simpl; lia.
Qed.

Lemma allocate_mono H T av av' :
  0 <= H -> 0 <= T -> 0 <= av' <= av ->
  let k := _allocate_preview_chars H T av in
  let k' := _allocate_preview_chars H T av' in
  fst k' <= fst k /\ snd k' <= snd k /\ (fst k - fst k') + (snd k - snd k') <= av - av'.
Proof.
  intros HH HT Hav k k'.
  pose proof (allocate_bounds H T av HH HT ltac:(lia)) as B.
  pose proof (allocate_bounds H T av' HH HT ltac:(lia)) as B'.
  pose proof (allocate_closed H T av HH HT ltac:(lia)) as C.
  pose proof (allocate_closed H T av' HH HT ltac:(lia)) as C'.
  unfold k, k'. destruct (_allocate_preview_chars H T av) as [h t].
  destruct (_allocate_preview_chars H T av') as [h' t']. simpl in *.
  unfold PREVIEW_HEAD_BYTES, PREVIEW_TAIL_BYTES in *.
  set (q := av * (20 * 1024) / (20 * 1024 + 30 * 1024)) in *.
  set (q' := av' * (20 * 1024) / (20 * 1024 + 30 * 1024)) in *.
  assert (q' <= q /\ q - q' <= av - av') as Hq.
  { pose proof (Z.div_mod (av * (20 * 1024)) (20 * 1024 + 30 * 1024) ltac:(lia)) as D1.
    pose proof (Z.mod_pos_bound (av * (20 * 1024)) (20 * 1024 + 30 * 1024) ltac:(lia)) as M1.
    pose proof (Z.div_mod (av' * (20 * 1024)) (20 * 1024 + 30 * 1024) ltac:(lia)) as D2.
    pose proof (Z.mod_pos_bound (av' * (20 * 1024)) (20 * 1024 + 30 * 1024) ltac:(lia)) as M2.
    fold q in D1. fold q' in D2. lia. }
  clearbody q q'. lia.
Qed.

(** ** The omission counts are monotone in what is removed *)

Definition ends_of (v : HeadTailView) (rh rt : str) : bool :=
  if nonempty rt then endswith [NL] rt
  else if negb (omitted_bytes v =? 0) then omitted_ends_newline v
  else endswith [NL] rh.
Definition lines_of (v : HeadTailView) (rh rt : str) : Z :=
  Z.max 1 (omitted_newlines v + count_char NL rh + count_char NL rt
           + (if ends_of v rh rt then 0 else 1)).
Definition bytes_of (v : HeadTailView) (rh rt : str) : Z :=
  omitted_bytes v + len (utf8 rh) + len (utf8 rt).

Lemma endswith_count c l : endswith [c] l = true -> 1 <= count_char c l.
Proof.
  intros [r ->]%endswith_spec. rewrite count_char_app. simpl.
  rewrite Z.eqb_refl. pose proof (count_char_nonneg c r). lia.
Qed.

Lemma bytes_of_mono v rh rt m1 m2 :
  bytes_of v rh rt <= bytes_of v (m1 ++ rh) (rt ++ m2)
    <= bytes_of v rh rt + 4 * (len m1 + len m2).
Proof.
  unfold bytes_of. rewrite !utf8_app, !len_app.
  pose proof (len_utf8_le m1). pose proof (len_utf8_le m2).
  pose proof (len_nonneg (utf8 m1)). pose proof (len_nonneg (utf8 m2)). lia.
Qed.

Lemma lines_of_mono v rh rt m1 m2 :
  lines_of v rh rt <= lines_of v (m1 ++ rh) (rt ++ m2)
    <= lines_of v rh rt + (len m1 + len m2) + 1.
Proof.
  unfold lines_of. rewrite !count_char_app.
  pose proof (count_char_le_len NL m1). pose proof (count_char_le_len NL m2).
  pose proof (count_char_nonneg NL m1). pose proof (count_char_nonneg NL m2).
  assert (ends_of v (m1 ++ rh) (rt ++ m2) = true -> ends_of v rh rt = false ->
          1 <= count_char NL m1 + count_char NL m2) as Hlow.
  { unfold ends_of. intros H3 H4. destruct m2 as [|y m2'] eqn:Em2.
    - rewrite app_nil_r in H3. destruct rt; simpl in *; [|congruence].
      destruct (omitted_bytes v =? 0); simpl in *; [|congruence].
      destruct rh as [|z rh].
      + rewrite app_nil_r in H3. apply endswith_count in H3. lia.
      + rewrite endswith_app_nonempty in H3 by done. congruence.
    - rewrite <- Em2 in *. replace (nonempty (rt ++ m2)) with true in H3
        by (subst; by destruct rt).
      rewrite endswith_app_nonempty in H3 by (by subst). apply endswith_count in H3. lia. }
  destruct (ends_of v (m1 ++ rh) (rt ++ m2)), (ends_of v rh rt);
    try (specialize (Hlow eq_refl eq_refl)); lia.
Qed.

(** ** The length of the marker *)

Definition marker_len (b l : Z) : Z := len (_omitted_marker b l).

Lemma marker_len_eq b l :
  marker_len b l = 39 + len (dec_comma b) + len (dec_comma l) + (if l =? 1 then 0 else 1).
Proof.
  unfold marker_len, _omitted_marker. rewrite !len_app.
  change (len (lit "[... omitted ")) with 13. change (len (lit " bytes across ")) with 14.
  change (len [NL]) with 1. change (len (lit " ")) with 1. change (len (lit " ...]")) with 5.
  destruct (l =? 1); [change (len (lit "line")) with 4|change (len (lit "lines")) with 5]; lia.
Qed.

Lemma marker_len_mono b l b' l' :
  0 <= b <= b' -> 1 <= l <= l' -> marker_len b l <= marker_len b' l'.
Proof.
  intros Hb Hl. rewrite !marker_len_eq.
  pose proof (len_dec_comma_mono b b' Hb). pose proof (len_dec_comma_mono l l' ltac:(lia)).
  zbool; lia.
Qed.

Lemma width_small n : 0 <= n < 1000 -> len (dec_comma n) <= 3.
Proof.
  intros H. transitivity (len (dec_comma 999)); [apply len_dec_comma_mono; lia|done].
Qed.

Lemma width_two n : 0 <= n < 100 -> len (dec_comma n) <= 2.
Proof.
  intros H. transitivity (len (dec_comma 99)); [apply len_dec_comma_mono; lia|done].
Qed.

Lemma width_bytes_window b b' : 0 <= b <= b' -> b' <= b + 196 -> len (dec_comma b') <= len (dec_comma b) + 2.
Proof.
  intros H H'. pose proof (len_dec_comma_pos b ltac:(lia)).
  destruct (Z.lt_ge_cases b 100).
  - pose proof (width_small b' ltac:(lia)). lia.
  - apply len_dec_comma_ratio; lia.
Qed.

Lemma width_lines_window l l' :
  1 <= l <= l' -> l' <= l + 50 ->
  len (dec_comma l') + (if l' =? 1 then 0 else 1) <= len (dec_comma l) + (if l =? 1 then 0 else 1) + 2.
Proof.
  intros H H'. pose proof (len_dec_comma_pos l ltac:(lia)).
  destruct (Z.lt_ge_cases l 6).
  - pose proof (width_two l' ltac:(lia)). zbool; lia.
  - pose proof (len_dec_comma_ratio l l' ltac:(lia) ltac:(lia)). zbool; lia.
Qed.

(** In a window of 196 bytes and 50 lines the marker grows by four at most. *)
Lemma marker_len_window b l b' l' :
  0 <= b <= b' -> b' <= b + 196 -> 1 <= l <= l' -> l' <= l + 50 ->
  marker_len b' l' <= marker_len b l + 4.
Proof.
  intros H1 H2 H3 H4. rewrite !marker_len_eq.
  pose proof (width_bytes_window b b' H1 H2). pose proof (width_lines_window l l' H3 H4). lia.
Qed.

(** Below [10^18] a number takes 23 characters at most. *)
Lemma marker_len_bounds b l :
  0 <= b < 10 ^ 18 -> 1 <= l < 10 ^ 18 -> 41 <= marker_len b l <= 86.
Proof.
  intros Hb Hl. rewrite marker_len_eq.
  pose proof (len_dec_comma_pos b ltac:(lia)). pose proof (len_dec_comma_pos l ltac:(lia)).
  assert (forall n, 0 <= n < 10 ^ 18 -> len (dec_comma n) <= 23) as W.
  { intros n Hn. transitivity (len (dec_comma (10 ^ 18 - 1))).
    - apply len_dec_comma_mono; lia.
    - by vm_compute. }
  pose proof (W b ltac:(lia)). pose proof (W l ltac:(lia)). zbool; lia.
Qed.

(** ** One round depends on the length of its marker only *)

Section Rounds.
Variables (v : HeadTailView) (sh st : str) (budget : Z).

Definition rnd (a : Z) : preview_round :=
  let '(h, t) := _allocate_preview_chars (len sh) (len st) (Z.max 0 (budget - a)) in
  let rh := drop (Z.to_nat h) sh in
  let rt := take (Z.to_nat (len st - t)) st in
  mkRound h t (bytes_of v rh rt) (lines_of v rh rt)
    (_omitted_marker (bytes_of v rh rt) (lines_of v rh rt)).
Definition next_len (a : Z) : Z := len (pr_marker (rnd a)).

Lemma render_round_rnd m : render_round v sh st budget m = rnd (len m).
Proof.
  unfold render_round, rnd.
  pose proof (allocate_bounds (len sh) (len st) (Z.max 0 (budget - len m))
                (len_nonneg _) (len_nonneg _) ltac:(lia)) as B.
  destruct (_allocate_preview_chars _ _ _) as [h t].
  rewrite slice_from_pos by lia.
  assert ((if negb (t =? 0) then slice_to st (len st - t) else st)
          = take (Z.to_nat (len st - t)) st) as ->.
  { destruct (Z.eqb_spec t 0) as [->|]; simpl.
    - rewrite take_ge; [done|]. unfold len; lia.
    - by rewrite slice_to_pos by lia. }
  reflexivity.
Qed.

Lemma next_len_marker a : next_len a = marker_len (pr_omitted_bytes (rnd a)) (pr_omitted_lines (rnd a)).
Proof. unfold next_len, rnd. by destruct (_allocate_preview_chars _ _ _). Qed.

Lemma rnd_lines_pos a : 1 <= pr_omitted_lines (rnd a).
Proof. unfold rnd. destruct (_allocate_preview_chars _ _ _); simpl. unfold lines_of; lia. Qed.

Lemma rnd_keep a :
  0 <= pr_head_keep (rnd a) <= len sh /\ 0 <= pr_tail_keep (rnd a) <= len st /\
  pr_head_keep (rnd a) + pr_tail_keep (rnd a) <= Z.max 0 (budget - a).
Proof.
  pose proof (allocate_bounds (len sh) (len st) (Z.max 0 (budget - a))
                (len_nonneg _) (len_nonneg _) ltac:(lia)) as B.
  unfold rnd. destruct (_allocate_preview_chars _ _ _); simpl. lia.
Qed.

Lemma rnd_mono a a' :
  a <= a' ->
  let r := rnd a in let r' := rnd a' in
  pr_omitted_bytes r <= pr_omitted_bytes r' <= pr_omitted_bytes r + 4 * (a' - a) /\
  pr_omitted_lines r <= pr_omitted_lines r' <= pr_omitted_lines r + (a' - a) + 1.
Proof.
  intros Ha. unfold rnd.
  pose proof (allocate_mono (len sh) (len st) (Z.max 0 (budget - a)) (Z.max 0 (budget - a'))
                (len_nonneg _) (len_nonneg _) ltac:(lia)) as M.
  pose proof (allocate_bounds (len sh) (len st) (Z.max 0 (budget - a))
                (len_nonneg _) (len_nonneg _) ltac:(lia)) as B.
  pose proof (allocate_bounds (len sh) (len st) (Z.max 0 (budget - a'))
                (len_nonneg _) (len_nonneg _) ltac:(lia)) as B'.
  destruct (_allocate_preview_chars _ _ (Z.max 0 (budget - a))) as [h t].
  destruct (_allocate_preview_chars _ _ (Z.max 0 (budget - a'))) as [h' t']. cbn [fst snd] in M. simpl.
  set (m1 := take (Z.to_nat (h - h')) (drop (Z.to_nat h') sh)).
  set (m2 := take (Z.to_nat (t - t')) (drop (Z.to_nat (len st - t)) st)).
  assert (drop (Z.to_nat h') sh = m1 ++ drop (Z.to_nat h) sh) as ->.
  { unfold m1. rewrite <- (take_drop (Z.to_nat (h - h')) (drop (Z.to_nat h') sh)) at 1.
    rewrite drop_drop. do 2 f_equal. lia. }
  assert (take (Z.to_nat (len st - t')) st = take (Z.to_nat (len st - t)) st ++ m2) as ->.
  { unfold m2. rewrite take_take_drop. f_equal. lia. }
  pose proof (bytes_of_mono v (drop (Z.to_nat h) sh) (take (Z.to_nat (len st - t)) st) m1 m2).
  pose proof (lines_of_mono v (drop (Z.to_nat h) sh) (take (Z.to_nat (len st - t)) st) m1 m2).
  assert (len m1 <= h - h') by (unfold m1; rewrite len_take; lia).
  assert (len m2 <= t - t') by (unfold m2; rewrite len_take; lia).
  pose proof (len_nonneg m1). pose proof (len_nonneg m2). lia.
Qed.

(** ** The loop *)

(** A round whose kept text leaves room for its marker. *)
Definition fits (r : preview_round) : Prop :=
  0 <= pr_head_keep r <= len sh /\ 0 <= pr_tail_keep r <= len st /\
  pr_head_keep r + pr_tail_keep r <= Z.max 0 (budget - len (pr_marker r)).

(** [U] bounds the marker lengths the loop can reach from [b] on. *)
Lemma render_loop_fits U n b :
  (forall x, b <= x <= U -> x <= next_len x -> next_len x <= U) ->
  (forall x y, b <= x <= y -> next_len x <= next_len y) ->
  b <= U -> b <= next_len b -> U - b <= Z.of_nat n ->
  fits (render_loop n v sh st budget (rnd b)).
Proof.
  revert b; induction n as [|n IH]; intros b HU Hmono Hb Hnext Hn.
  - simpl. pose proof (HU b ltac:(lia) Hnext). unfold fits.
    pose proof (rnd_keep b). unfold next_len in *. lia.
  - cbn [render_loop]. rewrite render_round_rnd. fold (next_len b).
    pose proof (HU b ltac:(lia) Hnext) as HUb.
    destruct (_ && _) eqn:E.
    + rewrite !andb_true_iff, !Z.eqb_eq, bool_decide_eq_true in E.
      destruct E as [[E1 E2] _]. unfold fits; simpl. rewrite <- E1, <- E2.
      fold (next_len b). pose proof (rnd_keep (next_len b)). lia.
    + destruct (Z.eq_dec (next_len b) b) as [Eq|Ne].
      * rewrite Eq, !Z.eqb_refl, bool_decide_eq_true_2 in E; [discriminate|done].
      * apply IH; try lia.
        -- intros x Hx; apply HU; lia.
        -- intros x y Hxy; apply Hmono; lia.
        -- apply Hmono; lia.
Qed.

Lemma next_len_mono x y : 0 <= omitted_bytes v -> x <= y -> next_len x <= next_len y.
Proof.
  intros Hv Hxy. rewrite !next_len_marker. destruct (rnd_mono x y Hxy) as [? ?].
  pose proof (rnd_lines_pos x). apply marker_len_mono; [|lia].
  unfold rnd in *. repeat destruct (_allocate_preview_chars _ _ _); simpl in *.
  unfold bytes_of in *. pose proof (len_nonneg (utf8 (drop (Z.to_nat z) sh))).
  pose proof (len_nonneg (utf8 (take (Z.to_nat (len st - z0)) st))). lia.
Qed.

(** The kept lengths determine the round. *)
Lemma rnd_ext a b :
  pr_head_keep (rnd a) = pr_head_keep (rnd b) -> pr_tail_keep (rnd a) = pr_tail_keep (rnd b) ->
  rnd a = rnd b.
Proof.
  unfold rnd. repeat destruct (_allocate_preview_chars _ _ _); simpl. by intros -> ->.
Qed.

Lemma render_loop_rnd n b : exists b', render_loop n v sh st budget (rnd b) = rnd b'.
Proof.
  revert b; induction n as [|n IH]; intros b; [by exists b|].
  cbn [render_loop]. rewrite render_round_rnd.
  destruct (_ && _) eqn:E; [|apply IH].
  rewrite !andb_true_iff, !Z.eqb_eq in E. destruct E as [[E1 E2] _].
  exists b. rewrite (rnd_ext _ _ E1 E2). by destruct (rnd b).
Qed.

Lemma render_loop_S n b :
  fits (render_loop n v sh st budget (rnd (next_len b))) ->
  fits (render_loop (S n) v sh st budget (rnd b)).
Proof.
  intros H. cbn [render_loop]. rewrite render_round_rnd. fold (next_len b).
  destruct (_ && _) eqn:E; [|done].
  rewrite !andb_true_iff, !Z.eqb_eq in E. destruct E as [[E1 E2] _].
  unfold fits; simpl. rewrite <- E1, <- E2. fold (next_len b). apply rnd_keep.
Qed.

(** The text [s] as the loop sees it: the two sources around an omitted part
    whose counts the view carries. *)
Variables s s2 : str.
Hypothesis s_split : s = sh ++ s2 ++ st.
Hypothesis v_bytes : omitted_bytes v = len (utf8 s2).
Hypothesis v_newlines : omitted_newlines v = count_char NL s2.
Hypothesis v_ends : s2 <> [] -> omitted_ends_newline v = endswith [NL] s2.
Hypothesis s_bound : len (utf8 s) < 10 ^ 17.

Lemma omitted_zero : (omitted_bytes v =? 0) = negb (nonempty s2).
Proof.
  rewrite v_bytes. destruct s2 as [|c t]; [done|]. simpl.
  pose proof (len_le_utf8 (c :: t)). rewrite len_cons in *. pose proof (len_nonneg t). zbool.
Qed.

Lemma rnd_exact a :
  exists p mid q, s = p ++ mid ++ q /\
    p = take (Z.to_nat (pr_head_keep (rnd a))) sh /\
    q = drop (Z.to_nat (len st - pr_tail_keep (rnd a))) st /\
    pr_omitted_bytes (rnd a) = len (utf8 mid) /\
    pr_omitted_lines (rnd a) = Z.max 1 (count_char NL mid + (if endswith [NL] mid then 0 else 1)) /\
    pr_marker (rnd a) = _omitted_marker (pr_omitted_bytes (rnd a)) (pr_omitted_lines (rnd a)).
Proof.
  unfold rnd. destruct (_allocate_preview_chars _ _ _) as [h t]; simpl.
  set (rh := drop (Z.to_nat h) sh). set (rt := take (Z.to_nat (len st - t)) st).
  exists (take (Z.to_nat h) sh), (rh ++ s2 ++ rt), (drop (Z.to_nat (len st - t)) st).
  split. { rewrite s_split. unfold rh, rt.
           by rewrite <- !app_assoc, take_drop, (app_assoc (take (Z.to_nat h) sh)), take_drop. }
  split; [done|]. split; [done|]. unfold bytes_of, lines_of. rewrite v_bytes, v_newlines.
  rewrite !utf8_app, !len_app, !count_char_app. split; [lia|]. split; [|done].
  assert (ends_of v rh rt = endswith [NL] (rh ++ s2 ++ rt)) as ->.
  { unfold ends_of. rewrite omitted_zero. destruct rt as [|x rt0] eqn:Ert.
    - cbn [nonempty]. rewrite app_nil_r. destruct s2 as [|y s2'] eqn:Es2; cbn [nonempty negb].
      + by rewrite app_nil_r.
      + rewrite endswith_app_nonempty by done. by apply v_ends.
    - rewrite app_assoc, endswith_app_nonempty by done. done. }
  f_equal. lia.
Qed.

Lemma rnd_sizes a : 0 <= pr_omitted_bytes (rnd a) < 10 ^ 17 /\ 1 <= pr_omitted_lines (rnd a) < 10 ^ 18.
Proof.
  destruct (rnd_exact a) as (p & mid & q & Es & _ & _ & -> & -> & _).
  assert (len (utf8 mid) <= len (utf8 s)).
  { rewrite Es, !utf8_app, !len_app. pose proof (len_nonneg (utf8 p)). pose proof (len_nonneg (utf8 q)). lia. }
  pose proof (len_nonneg (utf8 mid)). pose proof (len_le_utf8 mid).
  pose proof (count_char_le_len NL mid). pose proof (count_char_nonneg NL mid).
  destruct (endswith [NL] mid); lia.
Qed.

(** Six rounds, the first one included, reach a marker that fits. *)
Lemma render_loop_enough b :
  b <= next_len b -> 41 <= b ->
  fits (render_loop 5 v sh st budget (rnd b)).
Proof.
  intros Hb H41. apply render_loop_S.
  assert (0 <= omitted_bytes v) as Hv by (rewrite v_bytes; apply len_nonneg).
  assert (next_len b <= 86) as H86.
  { rewrite next_len_marker. destruct (rnd_sizes b). apply marker_len_bounds; lia. }
  apply (render_loop_fits (next_len b + 4)); try lia.
  - intros x Hx _. rewrite (next_len_marker b), (next_len_marker x).
    destruct (rnd_mono b x ltac:(lia)) as [? ?]. destruct (rnd_sizes b).
    apply marker_len_window; lia.
  - intros x y Hxy. apply next_len_mono; lia.
  - apply next_len_mono; lia.
Qed.
End Rounds.

(** What a rendered preview is, given the text [s] it shows: [s] itself, or a
    prefix and a suffix of [s] around a marker that counts exactly the bytes
    and lines between them; a budget too small for that marker gets plainly
    truncated text, with the same counts. *)
Inductive preview_of (s : str) (budget : Z) : str * Z * Z -> Prop :=
| preview_whole : preview_of s budget (s, 0, 0)
| preview_cut p mid q t :
    s = p ++ mid ++ q ->
    let ob := len (utf8 mid) in
    let ol := Z.max 1 (count_char NL mid + (if endswith [NL] mid then 0 else 1)) in
    (len (_omitted_marker ob ol) <= Z.max 0 budget -> t = p ++ _omitted_marker ob ol ++ q) ->
    preview_of s budget (t, ob, ol).

(** The general case of [_render_preview], once the sources are chosen. *)
Lemma render_general v sh st budget s s2 :
  s = sh ++ s2 ++ st ->
  omitted_bytes v = len (utf8 s2) ->
  omitted_newlines v = count_char NL s2 ->
  (s2 <> [] -> omitted_ends_newline v = endswith [NL] s2) ->
  omitted_lines v <= lines_of v [] [] ->
  len (utf8 s) < 10 ^ 17 ->
  0 <= budget ->
  let marker := _omitted_marker (Z.max 1 (omitted_bytes v)) (Z.max 1 (omitted_lines v)) in
  let r := render_loop 6 v sh st budget
             (mkRound (-1) (-1) (omitted_bytes v) (omitted_lines v) marker) in
  fits sh st budget r /\ exists b, r = rnd v sh st budget b.
Proof.
  intros Es Hb Hn He Hl Hsz Hbud marker r.
  assert (r = render_loop 5 v sh st budget (rnd v sh st budget (len marker))) as Er.
  { unfold r. change 6%nat with (S 5). cbn [render_loop pr_marker].
    rewrite render_round_rnd. pose proof (rnd_keep v sh st budget (len marker)).
    destruct (_ && _) eqn:E; [|done].
    rewrite !andb_true_iff, !Z.eqb_eq in E. simpl in E. lia. }
  rewrite Er. split; [|apply render_loop_rnd].
  assert (0 <= omitted_bytes v) as Hb0 by (rewrite Hb; apply len_nonneg).
  pose proof (rnd_sizes v sh st budget s s2 Es Hb Hn He Hsz (len marker)) as [S1 S2].
  assert (marker_len (Z.max 1 (omitted_bytes v)) (Z.max 1 (omitted_lines v))
          <= next_len v sh st budget (len marker)) as Hgrow.
  { rewrite next_len_marker.
    pose proof (bytes_of_mono v [] []) as MB. pose proof (lines_of_mono v [] []) as ML.
    revert S1 S2. unfold rnd. destruct (_allocate_preview_chars _ _ _) as [h t]. simpl. intros S1 S2.
    specialize (MB (drop (Z.to_nat h) sh) (take (Z.to_nat (len st - t)) st)).
    specialize (ML (drop (Z.to_nat h) sh) (take (Z.to_nat (len st - t)) st)).
    rewrite app_nil_r in MB, ML. simpl app in MB, ML.
    assert (1 <= lines_of v [] []) by (unfold lines_of; lia).
    assert (bytes_of v [] [] = omitted_bytes v) as E0 by (unfold bytes_of; rewrite utf8_nil, len_nil; lia).
    destruct (Z.eq_dec (omitted_bytes v) 0) as [Ez|Ez].
    - rewrite Ez. etransitivity; [apply (marker_len_mono 1 _ 1 (lines_of v [] []))|]; [lia|lia|].
      rewrite !marker_len_eq. change (len (dec_comma 1)) with 1.
      pose proof (len_dec_comma_pos (bytes_of v (drop (Z.to_nat h) sh)
                    (take (Z.to_nat (len st - t)) st)) ltac:(lia)).
      pose proof (len_dec_comma_mono (lines_of v [] []) (lines_of v (drop (Z.to_nat h) sh)
                    (take (Z.to_nat (len st - t)) st)) ltac:(lia)). zbool; lia.
    - apply marker_len_mono; lia. }
  apply (render_loop_enough v sh st budget s s2); try done.
  transitivity (marker_len 1 1); [done|]. apply marker_len_mono; lia.
Qed.

Lemma preview_assemble v sh st budget s s2 :
  s = sh ++ s2 ++ st ->
  omitted_bytes v = len (utf8 s2) ->
  omitted_newlines v = count_char NL s2 ->
  (s2 <> [] -> omitted_ends_newline v = endswith [NL] s2) ->
  omitted_lines v <= lines_of v [] [] ->
  len (utf8 s) < 10 ^ 17 ->
  0 <= budget ->
  let marker := _omitted_marker (Z.max 1 (omitted_bytes v)) (Z.max 1 (omitted_lines v)) in
  let r := render_loop 6 v sh st budget
             (mkRound (-1) (-1) (omitted_bytes v) (omitted_lines v) marker) in
  let out :=
    if budget <? len (pr_marker r) then
      (out_text (cap_chars (sh ++ st) budget (_truncation_marker (Z.max 1 (budget / 4))) None),
       pr_omitted_bytes r, pr_omitted_lines r)
    else
      (slice_to sh (Z.max 0 (pr_head_keep r)) ++ pr_marker r ++
         (if 0 <? pr_tail_keep r then slice_from st (- pr_tail_keep r) else []),
       pr_omitted_bytes r, pr_omitted_lines r) in
  len (fst (fst out)) <= budget /\ preview_of s budget out.
Proof.
  intros Es Hb Hn He Hl Hsz Hbud marker r.
  destruct (render_general v sh st budget s s2 Es Hb Hn He Hl Hsz Hbud) as [Hfit [b Hr]].
  fold marker r in Hfit, Hr. clearbody r. destruct Hfit as (Hh & Ht & Hsum).
  destruct (rnd_exact v sh st budget s s2 Es Hb Hn He b) as (p & mid & q & Es' & Ep & Eq & Eb & El & Em).
  rewrite <- Hr in *. rewrite Eb, El in *.
  assert (slice_to sh (Z.max 0 (pr_head_keep r)) = p) as E1
    by (rewrite Z.max_r, slice_to_pos by lia; done).
  assert ((if 0 <? pr_tail_keep r then slice_from st (- pr_tail_keep r) else []) = q) as E2.
  { destruct (Z.ltb_spec 0 (pr_tail_keep r)).
    - by rewrite slice_from_neg.
    - assert (pr_tail_keep r = 0) as E0 by lia. rewrite E0 in Eq.
      rewrite Eq, drop_ge; [done|]. unfold len; lia. }
  rewrite E1, E2. destruct (Z.ltb_spec budget (len (pr_marker r))); simpl.
  - split; [etransitivity; [apply cap_chars_len|lia]|].
    apply (preview_cut s budget p mid q); [done|]. rewrite <- Em. lia.
  - split.
    + rewrite !len_app. apply (f_equal len) in Ep, Eq.
      rewrite len_take in Ep. rewrite len_drop in Eq. lia.
    + apply (preview_cut s budget p mid q); [done|]. rewrite <- Em. done.
Qed.

Lemma render_preview_ok s v budget :
  view_of s v -> len (utf8 s) < 10 ^ 17 ->
  len (fst (fst (_render_preview v budget))) <= Z.max 0 budget /\
  preview_of s (Z.max 0 budget) (_render_preview v budget).
Proof.
  intros Hv Hsz. unfold _render_preview. set (bud := Z.max 0 budget).
  assert (0 <= bud) as Hbud by lia.
  destruct Hv as [|s1 s2 s3 Es Hne].
  - cbn [omitted_bytes head]. rewrite Z.eqb_refl. cbn [andb].
    destruct (Z.leb_spec (len s) bud); [split; [done|constructor]|].
    set (k := len s * PREVIEW_HEAD_BYTES / (PREVIEW_HEAD_BYTES + PREVIEW_TAIL_BYTES)).
    assert (0 <= k) as Hk.
    { unfold k, PREVIEW_HEAD_BYTES, PREVIEW_TAIL_BYTES. pose proof (len_nonneg s). apply Z.div_pos; lia. }
    apply (preview_assemble (mkView s [] 0 0 false 0) _ _ bud s []); try done.
    by rewrite app_nil_l, slice_to_from.
  - cbn [omitted_bytes head tail].
    assert ((len (utf8 s2) =? 0) = false) as ->.
    { pose proof (utf8_nonempty s2 Hne). apply Z.eqb_neq. by intros e%len_zero_nil. }
    cbn [andb].
    apply (preview_assemble (mkView s1 s3 _ _ _ _) _ _ bud s s2); try done.
    unfold lines_of, ends_of; simpl. pose proof (utf8_nonempty s2 Hne).
    destruct (Z.eqb_spec (len (utf8 s2)) 0) as [e|]; [by apply len_zero_nil in e|]. simpl. lia.
Qed.

(** ** Properties *)

(** For every view of a text (of less than 10^17 bytes) and every budget,
    [_render_preview] returns at most the budgeted number of characters, and
    what it returns is the text itself or an exact prefix and suffix of it
    around a marker whose byte and line counts are those of the omitted
    middle: six rounds of the marker loop are always enough. *)
Theorem render_preview_exact s v budget :
  view_of s v -> len (utf8 s) < 10 ^ 17 ->
  len (fst (fst (_render_preview v budget))) <= Z.max 0 budget /\
  preview_of s (Z.max 0 budget) (_render_preview v budget).
Proof. apply render_preview_ok. Qed.

Lemma render_preview_exact_witness :
  len (fst (fst (_render_preview (mkView (replicate 200 97) [] 0 0 false 0) 60))) <= 60.
Proof.
  exact (proj1 (render_preview_exact (replicate 200 97) (mkView (replicate 200 97) [] 0 0 false 0) 60
                  (view_full _) ltac:(by vm_compute))).
Defined.
