(* ===== verification/Spill.v ===== *)
(** * Terminal spill files

    Models [TerminalSpillStore], [_write_all] and [_SpillWriter] of
    [kolega_code/services/terminal_buffer.py]: complete output streams that
    cross a threshold are persisted, byte for byte, in a fresh file.

    The spill directory is a finite map from file names to entries.
    [os.write], which may accept only part of what it is given, and
    [str.lower] are parameters.  An [OSError] other than the ones the code
    names (a full disk, a missing permission) is outside the model. *)

From stdpp Require Import base list gmap strings numbers.
From Stdlib Require Import ZArith Lia.
From S2P Require Import Prelude PyStr Utf8 HeadTail.

Inductive entry :=
| RegularFile (content : bytes) (mode : Z)
| OtherEntry.

Abbreviation directory := (gmap (list Z) entry).

Inductive spill_error :=
| ShortWrite          (* OSError: short write while persisting terminal output *)
| AppendFinalized.    (* RuntimeError: Cannot append to finalized terminal output *)

(** [_SPILL_NAME_RE] with its group [id]; the final [$] also stands before a
    trailing newline. *)
Definition spill_name_id (name : str) : option Z :=
  let id := take_while ascii_digit name in
  let rest := drop_while ascii_digit name in
  match rest with
  | 46 :: rest1 =>
      let mid := take_while (fun c => negb (c =? 46)) rest1 in
      let ext := drop_while (fun c => negb (c =? 46)) rest1 in
      if nonempty id && nonempty mid &&
         (bool_decide (ext = lit ".log") || bool_decide (ext = lit ".log" ++ [NL]))
      then Some (digits_value id) else None
  | _ => None
  end.

Section Spill.
Variable lower : str -> str.        (* str.lower *)
Variable os_write : bytes -> Z.     (* how many bytes os.write accepts *)

(** ** [TerminalSpillStore] *)

Record store_state := mkStore { _next_id : option Z; root : directory }.

Definition tool_char (c : Z) : bool :=
  ((97 <=? c) && (c <=? 122)) || ascii_digit c || (c =? 95) || (c =? 45).

(** [re.sub(r"[^a-z0-9_-]+", "-", s)]; [in_run] says whether the previous
    character belongs to a run that was already replaced. *)
Fixpoint sub_tool_chars (in_run : bool) (s : str) : str :=
  match s with
  | [] => []
  | c :: s' => if tool_char c then c :: sub_tool_chars false s'
               else if in_run then sub_tool_chars true s' else 45 :: sub_tool_chars true s'
  end.

Definition safe_tool_name (tool_name : str) : str :=
  let s := strip_by (fun c => c =? 45) (sub_tool_chars false (lower tool_name)) in
  if nonempty s then s else lit "terminal".

Definition spill_file_name (spill_id : Z) (safe_tool : str) : str :=
  dec_pad 6 spill_id ++ lit "." ++ safe_tool ++ lit ".log".

Definition existing_ids (d : directory) : list Z :=
  omap (fun ne => match ne.2 with RegularFile _ _ => spill_name_id ne.1 | OtherEntry => None end)
       (map_to_list d).

(** The [while True] loop over candidate ids: exclusive creation fails exactly
    when the name is taken. *)
Fixpoint allocate_loop (fuel : nat) (d : directory) (next : Z) (safe_tool : str)
    : option (str * store_state) :=
  match fuel with
  | O => None
  | S f =>
      let path := spill_file_name next safe_tool in
      match d !! path with
      | Some _ => allocate_loop f d (next + 1) safe_tool
      | None => Some (path, mkStore (Some (next + 1)) (<[path := RegularFile [] 384]> d))
      end
  end.

(** One more round than there are entries is enough ([allocate_total]). *)
Definition allocate_path (st : store_state) (tool_name : str) : option (str * store_state) :=
  let next := match _next_id st with
              | Some n => n
              | None => foldr Z.max 0 (existing_ids (root st)) + 1
              end in
  allocate_loop (S (size (root st))) (root st) next (safe_tool_name tool_name).

(** ** [_write_all] *)

(** Appends [data] to what the descriptor refers to; every round of the loop
    writes a byte at least, so the length is enough fuel. *)
Fixpoint write_all_loop (fuel : nat) (file data : bytes) : result spill_error bytes :=
  match fuel, data with
  | _, [] => Ok file
  | O, _ => Ok file
  | S f, _ =>
      let written := os_write data in
      if written <=? 0 then Raise ShortWrite
      else write_all_loop f (file ++ slice_to data written) (slice_from data written)
  end.
Definition _write_all (file data : bytes) : result spill_error bytes :=
  write_all_loop (length data) file data.

(** The same, on the file a descriptor was opened on. *)
Definition write_fd (d : directory) (fd : str) (data : bytes) : result spill_error directory :=
  match d !! fd with
  | Some (RegularFile c m) => c' ← _write_all c data; Ok (<[fd := RegularFile c' m]> d)
  | _ => Ok d
  end.

(** ** [_SpillWriter] *)

Record _SpillWriter := mkWriter {
  has_store : bool;
  tool_name : str;
  backing_path : option str;
  total_bytes : Z;
  _path : option str;
  _fd : option str;
  _pending : bytes;
  _active : bool;
  _finalized : bool
}.

Definition spill_init (store : bool) (tool : str) (backing : option str) : _SpillWriter :=
  mkWriter store tool backing 0 backing None [] false false.

Definition path (w : _SpillWriter) : option str := if _active w then _path w else None.

Definition spill_append (ws : _SpillWriter * store_state) (data : bytes)
    : result spill_error (_SpillWriter * store_state) :=
  let '(w, st) := ws in
  if negb (nonempty data) then Ok (w, st)
  else if _finalized w then Raise AppendFinalized
  else
    let total := total_bytes w + len data in
    match backing_path w with
    | Some _ =>
        Ok (mkWriter (has_store w) (tool_name w) (backing_path w) total (_path w) (_fd w) (_pending w)
              (if SPILL_THRESHOLD_BYTES <? total then true else _active w) (_finalized w), st)
    | None =>
        match _fd w with
        | Some fd =>
            d ← write_fd (root st) fd data;
            Ok (mkWriter (has_store w) (tool_name w) (backing_path w) total (_path w) (_fd w)
                  (_pending w) (_active w) (_finalized w), mkStore (_next_id st) d)
        | None =>
            if negb (has_store w) then
              let remaining := Z.max 0 (SPILL_THRESHOLD_BYTES + 1 - len (_pending w)) in
              Ok (mkWriter (has_store w) (tool_name w) (backing_path w) total (_path w) (_fd w)
                    (_pending w ++ slice_to data remaining) (_active w) (_finalized w), st)
            else if total <=? SPILL_THRESHOLD_BYTES then
              Ok (mkWriter (has_store w) (tool_name w) (backing_path w) total (_path w) (_fd w)
                    (_pending w ++ data) (_active w) (_finalized w), st)
            else
              match allocate_path st (tool_name w) with
              | None => Ok (w, st)   (* unreachable: [allocate_total] *)
              | Some (p, st') =>
                  d1 ← write_fd (root st') p (_pending w);
                  d2 ← write_fd d1 p data;
                  Ok (mkWriter (has_store w) (tool_name w) (backing_path w) total (Some p) (Some p)
                        [] true (_finalized w), mkStore (_next_id st') d2)
              end
        end
    end.

(** [os.chmod] and [unlink] on an entry; their errors are ignored. *)
Definition chmod (d : directory) (p : str) (m : Z) : directory :=
  match d !! p with Some (RegularFile c _) => <[p := RegularFile c m]> d | _ => d end.

Definition spill_finalize (ws : _SpillWriter * store_state) : _SpillWriter * store_state :=
  let '(w, st) := ws in
  if _finalized w then (w, st)
  else
    let d := match _active w, _path w with
             | true, Some p => chmod (root st) p 256
             | _, _ => root st
             end in
    let '(d, pth) := match backing_path w, _active w with
                     | Some b, false => (delete b d, None)
                     | _, _ => (d, _path w)
                     end in
    (mkWriter (has_store w) (tool_name w) (backing_path w) (total_bytes w) pth None []
       (_active w) true, mkStore (_next_id st) d).

End Spill.

(** ** Allocation *)

Section SpillFacts.
Variable lower : str -> str.
Variable os_write : bytes -> Z.

Lemma spill_file_name_split n t :
  0 <= n ->
  take_while ascii_digit (spill_file_name n t) = dec_pad 6 n /\
  drop_while ascii_digit (spill_file_name n t) = 46 :: t ++ lit ".log".
Proof.
  intros Hn. unfold spill_file_name. apply take_while_app; [by apply dec_pad_digits|].
  intros x r' [= <- _]. done.
Qed.

Lemma spill_file_name_inj n m t t' :
  0 <= n -> 0 <= m -> spill_file_name n t = spill_file_name m t' -> n = m.
Proof.
  intros Hn Hm E. destruct (spill_file_name_split n t Hn) as [E1 _].
  destruct (spill_file_name_split m t' Hm) as [E2 _].
  rewrite E, E2 in E1. by rewrite <- (dec_pad_value 6 n), <- (dec_pad_value 6 m), E1.
Qed.

Lemma sub_tool_chars_ok b s : Forall (fun c => tool_char c = true) (sub_tool_chars b s).
Proof.
  revert b; induction s as [|c s IH]; intros b; simpl; [done|].
  destruct (tool_char c) eqn:E; [by constructor|].
  destruct b; [done|]. by constructor.
Qed.

Lemma drop_while_Forall {A} (P : A -> Prop) f l : Forall P l -> Forall P (drop_while f l).
Proof. induction 1; simpl; [done|]. destruct (f x); [done|by constructor]. Qed.

Lemma strip_by_Forall (P : Z -> Prop) f s : Forall P s -> Forall P (strip_by f s).
Proof.
  intros H. unfold strip_by, rstrip_by, lstrip_by.
  apply Forall_rev, drop_while_Forall, Forall_rev, drop_while_Forall, H.
Qed.

Lemma safe_tool_name_ok t :
  Forall (fun c => tool_char c = true) (safe_tool_name lower t) /\ safe_tool_name lower t <> [].
Proof.
  unfold safe_tool_name. destruct (nonempty _) eqn:E.
  - split; [apply strip_by_Forall, sub_tool_chars_ok|]. by destruct (strip_by _ _).
  - split; [|done]. by repeat constructor.
Qed.

(** The name of an allocated file is read back as its id by the scan that
    seeds the counter of a later process. *)
Lemma spill_name_id_roundtrip n t :
  0 <= n -> Forall (fun c => tool_char c = true) t -> t <> [] ->
  spill_name_id (spill_file_name n t) = Some n.
Proof.
  intros Hn Ht Hne. unfold spill_name_id.
  destruct (spill_file_name_split n t Hn) as [-> ->].
  destruct (take_while_app (fun c => negb (c =? 46)) t (lit ".log")) as [E1 E2].
  - eapply Forall_impl; try exact Ht. intros c. unfold tool_char, ascii_digit. simpl. zbool; done.
  - intros x r' [= <- _]. done.
  - rewrite E1, E2. rewrite bool_decide_eq_true_2 by done.
    assert (nonempty (dec_pad 6 n) = true) as ->
      by (pose proof (dec_pad_nonempty 6 n Hn); by destruct (dec_pad 6 n)).
    assert (nonempty t = true) as -> by (by destruct t).
    simpl. by rewrite dec_pad_value.
Qed.

(** Candidate names are pairwise different, so a directory of [k] entries
    cannot hold [k + 1] of them. *)
Lemma allocate_loop_total fuel d n t :
  0 <= n -> (size d < fuel)%nat ->
  exists m, n <= m /\ d !! spill_file_name m t = None /\
    allocate_loop fuel d n t =
      Some (spill_file_name m t,
            mkStore (Some (m + 1)) (<[spill_file_name m t := RegularFile [] 384]> d)).
Proof.
  intros Hn Hsize.
  assert (exists i, (i < fuel)%nat /\ d !! spill_file_name (n + Z.of_nat i) t = None) as Hex.
  { destruct (decide (Forall (fun i => is_Some (d !! spill_file_name (n + Z.of_nat i) t)) (seq 0 fuel)))
      as [Hall|Hnot].
    - exfalso. set (names := map (fun i => spill_file_name (n + Z.of_nat i) t) (seq 0 fuel)).
      assert (NoDup names) as Hnd.
      { apply NoDup_fmap_2_strong; [|apply NoDup_seq]. intros i j _ _ E.
        apply spill_file_name_inj in E; lia. }
      assert (list_to_set names ⊆ dom d) as Hsub.
      { intros x Hx. apply elem_of_list_to_set, list_elem_of_fmap in Hx as (i & -> & Hi).
        apply elem_of_dom. rewrite Forall_forall in Hall. apply Hall. by apply list_elem_of_In. }
      apply subseteq_size in Hsub. rewrite size_list_to_set, size_dom in Hsub by done.
      unfold names in Hsub. rewrite length_map, length_seq in Hsub. lia.
    - apply not_Forall_Exists in Hnot; [|apply _].
      apply Exists_exists in Hnot as (i & Hi & Hn0). apply in_seq in Hi.
      exists i. split; [lia|]. by apply eq_None_not_Some. }
  clear Hsize. revert n Hn Hex. induction fuel as [|f IH]; intros n Hn (i & Hi & Hd); [lia|].
  cbn [allocate_loop]. destruct (d !! spill_file_name n t) eqn:E; [|by exists n].
  destruct i as [|i]; [by rewrite Z.add_0_r, E in Hd|].
  destruct (IH (n + 1)) as (m & Hm & H1 & H2); [lia| |exists m; split; [lia|done]].
  exists i. split; [lia|]. by replace (n + 1 + Z.of_nat i) with (n + Z.of_nat (S i)) by lia.
Qed.

Definition store_ok (st : store_state) : Prop := forall n, _next_id st = Some n -> 0 <= n.

Lemma foldr_max_nonneg l : 0 <= foldr Z.max 0 l.
Proof. induction l; simpl; lia. Qed.

Lemma allocate_total st tool :
  store_ok st ->
  exists m, let p := spill_file_name m (safe_tool_name lower tool) in
    0 <= m /\ root st !! p = None /\
    allocate_path lower st tool
      = Some (p, mkStore (Some (m + 1)) (<[p := RegularFile [] 384]> (root st))).
Proof.
  intros Hok. unfold allocate_path.
  set (next := match _next_id st with Some n => n | None => _ end).
  assert (0 <= next) as Hn.
  { unfold next. destruct (_next_id st) eqn:E; [by apply Hok|].
    pose proof (foldr_max_nonneg (existing_ids (root st))). lia. }
  destruct (allocate_loop_total (S (size (root st))) (root st) next (safe_tool_name lower tool))
    as (m & H1 & H2 & H3); [done|lia|]. exists m. cbv zeta. split; [lia|done].
Qed.

(** ** Writing

    [os.write] reports between one byte and all of a non-empty buffer. *)
Hypothesis os_write_progress : forall v, v <> [] -> 1 <= os_write v <= len v.

Lemma write_all_loop_ok fuel file data :
  (length data <= fuel)%nat -> write_all_loop os_write fuel file data = Ok (file ++ data).
Proof.
  revert file data; induction fuel as [|f IH]; intros file data Hf.
  - destruct data; [by rewrite app_nil_r|]. simpl in Hf; lia.
  - destruct data as [|x data]; [by rewrite app_nil_r|].
    cbn [write_all_loop]. set (v := x :: data) in *.
    pose proof (os_write_progress v ltac:(done)) as Hw.
    destruct (Z.leb_spec (os_write v) 0); [lia|].
    rewrite IH.
    + by rewrite <- app_assoc, slice_to_from by lia.
    + rewrite slice_from_pos, length_drop by lia. lia.
Qed.

Lemma write_all_ok file data : _write_all os_write file data = Ok (file ++ data).
Proof. by apply write_all_loop_ok. Qed.

Lemma write_fd_ok d p c m data :
  d !! p = Some (RegularFile c m) ->
  write_fd os_write d p data = Ok (<[p := RegularFile (c ++ data) m]> d).
Proof. intros E. unfold write_fd. by rewrite E, write_all_ok. Qed.

(** ** The writer keeps every byte

    [spilled tool d0 D ws]: after the bytes [D], starting from the directory
    [d0], either they are all pending and nothing was written, or they are the
    exact content of one new file. *)
Inductive spilled (tool : str) (d0 : directory) (D : bytes) : _SpillWriter * store_state -> Prop :=
| spilled_pending st :
    len D <= SPILL_THRESHOLD_BYTES -> root st = d0 -> store_ok st ->
    spilled tool d0 D (mkWriter true tool None (len D) None None D false false, st)
| spilled_file p st :
    SPILL_THRESHOLD_BYTES < len D -> d0 !! p = None ->
    root st = <[p := RegularFile D 384]> d0 -> store_ok st ->
    spilled tool d0 D (mkWriter true tool None (len D) (Some p) (Some p) [] true false, st).

Lemma spill_append_spilled tool d0 D ws data :
  spilled tool d0 D ws ->
  exists ws', spill_append lower os_write ws data = Ok ws' /\ spilled tool d0 (D ++ data) ws'.
Proof.
  intros H. destruct data as [|x data].
  { exists ws. rewrite app_nil_r. by destruct ws. }
  set (dat := x :: data).
  destruct H as [st Hlen Hroot Hok|p st Hlen Hp Hroot Hok];
    unfold spill_append; cbn [nonempty negb _finalized backing_path _fd has_store total_bytes
      tool_name _pending _path _active]; rewrite <- len_app.
  - destruct (Z.leb_spec (len (D ++ dat)) SPILL_THRESHOLD_BYTES).
    + eexists; split; [reflexivity|]. by constructor.
    + destruct (allocate_total st tool Hok) as (m & Hm & Hfresh & ->).
      set (p := spill_file_name m (safe_tool_name lower tool)) in *.
      cbn [root]. rewrite (write_fd_ok _ p [] 384) by apply lookup_insert_eq. simpl.
      rewrite insert_insert_eq, (write_fd_ok _ p D 384) by apply lookup_insert_eq. simpl.
      rewrite insert_insert_eq. eexists; split; [reflexivity|].
      apply spilled_file; [done|by rewrite <- Hroot| |].
      * by rewrite <- Hroot.
      * intros n [= <-]. lia.
  - rewrite (write_fd_ok _ p D 384) by (rewrite Hroot; apply lookup_insert_eq). simpl.
    eexists; split; [reflexivity|]. apply spilled_file; [|done| |done].
    + rewrite len_app. pose proof (len_nonneg dat). lia.
    + rewrite Hroot. by rewrite insert_insert_eq.
Qed.

Lemma spill_feed tool d0 D ws chunks :
  spilled tool d0 D ws ->
  exists ws', foldM (spill_append lower os_write) chunks ws = Ok ws' /\
    spilled tool d0 (D ++ concat chunks) ws'.
Proof.
  revert D ws; induction chunks as [|c chunks IH]; intros D ws H; simpl.
  - exists ws. by rewrite app_nil_r.
  - destruct (spill_append_spilled tool d0 D ws c H) as (ws1 & -> & H1).
    rewrite app_assoc. by apply IH.
Qed.

Lemma spill_init_spilled tool st :
  store_ok st -> spilled tool (root st) [] (spill_init true tool None, st).
Proof.
  intros H. apply (spilled_pending tool (root st) [] st); try done.
Qed.

(** ** Properties *)

(** Feeding a [_SpillWriter] any sequence of chunks (under a file system
    that accepts at least a byte per write) either leaves the directory
    untouched and all bytes pending, when they do not exceed the threshold, or
    stores exactly the concatenation of all chunks in one file whose name was
    free before and leaves every other file alone; [finalize] then makes that
    file read-only, keeps its content, and refuses further appends. *)
Theorem spill_writer_complete tool st chunks :
  store_ok st ->
  exists w st', foldM (spill_append lower os_write) chunks (spill_init true tool None, st) = Ok (w, st') /\
    let D := concat chunks in
    let '(wf, stf) := spill_finalize (w, st') in
    total_bytes w = len D /\ path wf = path w /\ _finalized wf = true /\
    (len D <= SPILL_THRESHOLD_BYTES -> path w = None /\ _pending w = D /\ root stf = root st) /\
    (SPILL_THRESHOLD_BYTES < len D -> exists p, path w = Some p /\ root st !! p = None /\
       root stf = <[p := RegularFile D 256]> (root st)).
Proof.
  intros Hok. destruct (spill_feed tool (root st) [] _ chunks (spill_init_spilled tool st Hok))
    as ([w st'] & E & H). exists w, st'. split; [done|]. rewrite app_nil_l in H. cbv zeta.
  inversion H as [st1 Hlen Hroot Hok'|p st1 Hlen Hp Hroot Hok']; subst; simpl.
  - repeat split; try done; try lia.
  - repeat split; try done; try lia. intros _. exists p. repeat split; try done.
    unfold chmod. by rewrite Hroot, lookup_insert_eq, insert_insert_eq.
Qed.

(** [allocate_path] always returns: its search for a free id ends within
    one round more than the directory has entries, with the name of a file
    that did not exist, now created empty and owner-only, under an id that a
    later scan of the directory reads back. *)
Theorem allocate_path_fresh st tool :
  store_ok st ->
  exists m p st', allocate_path lower st tool = Some (p, st') /\
    root st !! p = None /\ root st' = <[p := RegularFile [] 384]> (root st) /\
    _next_id st' = Some (m + 1) /\ spill_name_id p = Some m.
Proof.
  intros Hok. destruct (allocate_total st tool Hok) as (m & Hm & Hfresh & E).
  exists m; eexists _, _. split; [exact E|].
  destruct (safe_tool_name_ok tool). repeat split; try done. by apply spill_name_id_roundtrip.
Qed.
End SpillFacts.

Lemma spill_writer_complete_witness :
  (forall v : bytes, v <> [] -> 1 <= Z.min 2 (len v) <= len v) /\
  exists w st',
    foldM (spill_append id (fun v => Z.min 2 (len v))) [lit "abc"; lit "de"]
      (spill_init true (lit "exec") None, mkStore None ∅) = Ok (w, st') /\
    total_bytes w = 5.
Proof.
  assert (forall v : bytes, v <> [] -> 1 <= Z.min 2 (len v) <= len v) as Hw.
  { intros [|x v] Hv; [done|]. rewrite len_cons. pose proof (len_nonneg v). lia. }
  split; [exact Hw|].
  destruct (spill_writer_complete id (fun v => Z.min 2 (len v)) Hw (lit "exec") (mkStore None ∅)
              [lit "abc"; lit "de"] ltac:(discriminate)) as (w & st' & E & H).
  exists w, st'. split; [exact E|]. destruct (spill_finalize (w, st')). apply (proj1 H).
Defined.

Lemma allocate_path_fresh_witness :
  exists m p st',
    allocate_path id (mkStore None {[ lit "000007.x.log" := RegularFile [] 0 ]}) (lit "exec") = Some (p, st') /\
    spill_name_id p = Some m.
Proof.
  destruct (allocate_path_fresh id (mkStore None {[ lit "000007.x.log" := RegularFile [] 0 ]}) (lit "exec")
              ltac:(discriminate)) as (m & p & st' & E & _ & _ & _ & H).
  exists m, p, st'. split; [exact E|exact H].
Defined.
