(* ===== verification/TerminalOutput.v ===== *)
(** * The terminal output accumulator

    Models [_StreamingLineCap] and [TerminalOutputAccumulator] of
    [kolega_code/services/terminal_buffer.py]: bytes read from a terminal are
    decoded incrementally, spilled complete, capped line by line and offered
    to the model as a bounded preview of what is new. *)

From stdpp Require Import base list gmap strings numbers.
From Stdlib Require Import ZArith Lia.
From S2P Require Import Prelude PyStr Utf8 HeadTail Preview Spill.

(** ** [_StreamingLineCap] *)

Module LineCap.

Record t := mk {
  cap_bytes : Z;
  _payload_bytes : Z;
  _visible_bytes : Z;
  _line_truncated : bool;
  _delta_line_counted : bool;
  _delta_lines : Z;
  _delta_bytes : Z
}.

Definition init (cap : Z) : t :=
  let marker_bytes := len (utf8 LINE_TRUNCATION_MARKER) in
  let cap := Z.max marker_bytes cap in
  mk cap (Z.max 0 (cap - marker_bytes)) 0 false false 0 0.

(** The body of the loop over the characters of [append]. *)
Definition step (st : t) (char : Z) : t * str :=
  if char =? NL then
    (mk (cap_bytes st) (_payload_bytes st) 0 false false (_delta_lines st) (_delta_bytes st), [char])
  else
    let encoded_size := len (utf8_char char) in
    if negb (_line_truncated st) && (_visible_bytes st + encoded_size <=? _payload_bytes st) then
      (mk (cap_bytes st) (_payload_bytes st) (_visible_bytes st + encoded_size) (_line_truncated st)
          (_delta_line_counted st) (_delta_lines st) (_delta_bytes st), [char])
    else
      let rendered := if negb (_line_truncated st) then LINE_TRUNCATION_MARKER else [] in
      let lines := if negb (_delta_line_counted st) then _delta_lines st + 1 else _delta_lines st in
      (mk (cap_bytes st) (_payload_bytes st) (_visible_bytes st) true true lines
          (_delta_bytes st + encoded_size), rendered).

Fixpoint render (st : t) (text : str) : t * str :=
  match text with
  | [] => (st, [])
  | c :: text' =>
      let '(st1, out) := step st c in
      let '(st2, outs) := render st1 text' in
      (st2, out ++ outs)
  end.

Definition append (st : t) (text : str) : t * bytes :=
  let '(st', rendered) := render st text in (st', utf8 rendered).

Definition take_delta_stats (st : t) : t * (Z * Z) :=
  (mk (cap_bytes st) (_payload_bytes st) (_visible_bytes st) (_line_truncated st) false 0 0,
   (_delta_lines st, _delta_bytes st)).

End LineCap.

(** ** [TerminalOutputAccumulator] *)

Inductive acc_error :=
| SpillError (e : spill_error)
| UnicodeDecodeError.

Record accumulator := mkAcc {
  _spill : _SpillWriter;
  _preview : HeadTailBuffer.t;
  _line_cap : LineCap.t;
  _decoder : bytes;                (* the bytes the incremental decoder holds *)
  _full_delta : option bytes;
  _delta_chars : Z;
  acc_finalized : bool
}.

Definition acc_init (store : bool) (tool : str) (backing : option str)
    (line_cap_bytes : Z) (retain_full_delta : bool) : accumulator :=
  mkAcc (spill_init store tool backing)
        (HeadTailBuffer.init PREVIEW_HEAD_BYTES PREVIEW_TAIL_BYTES)
        (LineCap.init line_cap_bytes) []
        (if retain_full_delta then Some [] else None) 0 false.

Definition acc_spill_path (a : accumulator) : option str := path (_spill a).
Definition acc_total_bytes (a : accumulator) : Z := total_bytes (_spill a).

Section Accumulator.
Variable lower : str -> str.
Variable os_write : bytes -> Z.

Definition _append_normalized (a : accumulator) (st : store_state) (text : str)
    : result acc_error (accumulator * store_state) :=
  if negb (nonempty text) then Ok (a, st)
  else
    let normalized := utf8 text in
    match spill_append lower os_write (_spill a, st) normalized with
    | Raise e => Raise (SpillError e)
    | Ok (w, st') =>
        let full := match _full_delta a with Some f => Some (f ++ normalized) | None => None end in
        let '(lc, out) := LineCap.append (_line_cap a) text in
        Ok (mkAcc w (HeadTailBuffer.append (_preview a) out) lc (_decoder a) full
              (_delta_chars a + len text) (acc_finalized a), st')
    end.

(** [self._decoder.decode(data, final=False)]. *)
Definition set_decoder (a : accumulator) (d : bytes) : accumulator :=
  mkAcc (_spill a) (_preview a) (_line_cap a) d (_full_delta a) (_delta_chars a) (acc_finalized a).

Definition append_bytes (a : accumulator) (st : store_state) (data : bytes)
    : result acc_error (accumulator * store_state) :=
  if negb (nonempty data) then Ok (a, st)
  else
    let '(text, rest) := decode_incr [REPLACEMENT] (_decoder a ++ data) in
    _append_normalized (set_decoder a rest) st text.

Definition append_text (a : accumulator) (st : store_state) (text : str)
    : result acc_error (accumulator * store_state) :=
  if nonempty text then _append_normalized a st text else Ok (a, st).

(** [decode(b"", final=True)] turns a kept-back fragment into U+FFFD. *)
Definition acc_finalize (a : accumulator) (st : store_state)
    : result acc_error (accumulator * store_state) :=
  if acc_finalized a then Ok (a, st)
  else
    let text := decode_replace (_decoder a) in
    let a1 := mkAcc (_spill a) (_preview a) (_line_cap a) [] (_full_delta a) (_delta_chars a) true in
    '(a2, st2) ← _append_normalized a1 st text;
    let '(w, st3) := spill_finalize (_spill a2, st2) in
    Ok (mkAcc w (_preview a2) (_line_cap a2) (_decoder a2) (_full_delta a2) (_delta_chars a2)
              (acc_finalized a2), st3).

Definition acc_spill_bytes (a : accumulator) : Z :=
  match acc_spill_path a with Some _ => acc_total_bytes a | None => 0 end.

(** The first branch of [read_delta]: the retained text, not shortened. *)
Definition read_full (a : accumulator) (full_delta : bytes)
    : result acc_error (CappedOutput * accumulator) :=
  match decode_strict full_delta with
  | None => Raise UnicodeDecodeError
  | Some text =>
      let '(lc, _) := LineCap.take_delta_stats (_line_cap a) in
      Ok (mkCapped text false (_estimated_tokens (len text)) (acc_spill_path a) (acc_spill_bytes a) 0 0 0 0,
          mkAcc (_spill a) (HeadTailBuffer.reset (_preview a)) lc (_decoder a) (Some []) 0
                (acc_finalized a))
  end.

(** Its second branch: the bounded preview. *)
Definition read_capped (a : accumulator) (max_output_tokens : Z) (hard_limit : bool)
    : result acc_error (CappedOutput * accumulator) :=
  match HeadTailBuffer.view (_preview a) with
  | None => Raise UnicodeDecodeError
  | Some v =>
      let '(text, ob, ol) := _render_preview v (effective_tokens max_output_tokens hard_limit * 4) in
      let '(lc, (line_count, line_bytes)) := LineCap.take_delta_stats (_line_cap a) in
      Ok (mkCapped text ((0 <? ob) || (0 <? line_bytes)) (_estimated_tokens (_delta_chars a))
            (acc_spill_path a) (acc_spill_bytes a) line_count line_bytes ob ol,
          mkAcc (_spill a) (HeadTailBuffer.reset (_preview a)) lc (_decoder a)
                (match _full_delta a with Some _ => Some [] | None => None end) 0
                (acc_finalized a))
  end.

Definition read_delta (a : accumulator) (max_output_tokens : Z) (hard_limit : bool)
    : result acc_error (CappedOutput * accumulator) :=
  match hard_limit, _full_delta a with
  | false, Some f => read_full a f
  | _, _ => read_capped a max_output_tokens hard_limit
  end.

End Accumulator.

(** ** What the line cap means

    The reference: every line of the text, on its own, is kept whole when its
    bytes fit the payload, and otherwise cut after the longest prefix that
    fits, followed by the marker. *)

Fixpoint fit (P : Z) (line : str) : str :=
  match line with
  | [] => []
  | c :: l => if len (utf8_char c) <=? P then c :: fit (P - len (utf8_char c)) l else []
  end.
Definition cut (P : Z) (line : str) : bool := len (fit P line) <? len line.
Definition cap_line (P : Z) (line : str) : str :=
  if cut P line then fit P line ++ LINE_TRUNCATION_MARKER else line.
Definition cap_text (P : Z) (s : str) : str := join [NL] (map (cap_line P) (split_on NL s)).
Definition dropped_bytes (P : Z) (s : str) : Z :=
  foldr Z.add 0 (map (fun l => len (utf8 l) - len (utf8 (fit P l))) (split_on NL s)).
Definition cut_lines (P : Z) (s : str) : Z :=
  foldr Z.add 0 (map (fun l => Z.b2z (cut P l)) (split_on NL s)).

Lemma fit_prefix P l : exists r, l = fit P l ++ r.
Proof.
  revert P; induction l as [|c l IH]; intros P; simpl; [by exists []|].
  destruct (_ <=? P); [|by eexists]. destruct (IH (P - len (utf8_char c))) as [r E].
  exists r. simpl. by f_equal.
Qed.

Lemma fit_bytes P l : 0 <= P -> len (utf8 (fit P l)) <= P.
Proof.
  revert P; induction l as [|c l IH]; intros P HP; simpl; [done|].
  destruct (Z.leb_spec (len (utf8_char c)) P); [|done].
  rewrite utf8_cons, len_app. pose proof (IH (P - len (utf8_char c)) ltac:(lia)). lia.
Qed.

Lemma fit_whole P l : cut P l = false <-> fit P l = l.
Proof.
  unfold cut. destruct (fit_prefix P l) as [r E]. split; [|intros ->; apply Z.ltb_irrefl].
  intros H. rewrite E in H at 2. rewrite len_app in H. pose proof (len_nonneg r).
  apply Z.ltb_ge in H. rewrite E at 2. by rewrite (len_zero_nil r), app_nil_r by lia.
Qed.

(** The next character of a line is kept exactly when all before it were and
    it still fits. *)
Lemma fit_snoc P l c :
  fit P (l ++ [c]) =
    if negb (cut P l) && (len (utf8 (fit P l)) + len (utf8_char c) <=? P)
    then fit P l ++ [c] else fit P l.
Proof.
  revert P; induction l as [|x l IH]; intros P; simpl.
  - unfold cut; simpl. rewrite Z.add_0_l. done.
  - unfold cut in *. simpl. destruct (Z.leb_spec (len (utf8_char x)) P).
    + rewrite IH, !len_cons, utf8_cons, len_app.
      replace (1 + len (fit (P - len (utf8_char x)) l) <? 1 + len l)
        with (len (fit (P - len (utf8_char x)) l) <? len l) by zbool.
      replace (len (utf8_char x) + len (utf8 (fit (P - len (utf8_char x)) l)) + len (utf8_char c) <=? P)
        with (len (utf8 (fit (P - len (utf8_char x)) l)) + len (utf8_char c) <=? P - len (utf8_char x))
        by zbool.
      by destruct (_ && _).
    + rewrite len_cons, len_nil. pose proof (len_nonneg l).
      by replace (0 <? 1 + len l) with true by zbool.
Qed.

Lemma cut_snoc P l c :
  cut P (l ++ [c]) = cut P l || negb (len (utf8 (fit P l)) + len (utf8_char c) <=? P).
Proof.
  destruct (cut P l) eqn:E.
  - unfold cut in *. rewrite fit_snoc. unfold cut. rewrite E. simpl. rewrite len_app, len_cons, len_nil. zbool.
  - unfold cut at 1. rewrite fit_snoc, E. apply fit_whole in E. rewrite E. simpl.
    rewrite len_app, len_cons, len_nil. destruct (_ <=? P); simpl; [|zbool].
    rewrite len_app, len_cons, len_nil. zbool.
Qed.

(** [line_state P s st]: the cap is in the state it has after the text [s]. *)
Definition line_state (P : Z) (s : str) (st : LineCap.t) : Prop :=
  LineCap._payload_bytes st = P /\
  exists ls l, split_on NL s = ls ++ [l] /\
    LineCap._visible_bytes st = len (utf8 (fit P l)) /\ LineCap._line_truncated st = cut P l.

Lemma cap_line_snoc P l c :
  cap_line P (l ++ [c]) =
    cap_line P l ++ (if cut P l then [] else if cut P (l ++ [c]) then LINE_TRUNCATION_MARKER else [c]).
Proof.
  unfold cap_line. destruct (cut P (l ++ [c])) eqn:E'; destruct (cut P l) eqn:E.
  - rewrite fit_snoc, E, app_nil_r. done.
  - rewrite cut_snoc, E in E'. simpl in E'. rewrite fit_snoc.
    destruct (_ <=? P); [done|]. simpl. rewrite andb_false_r.
    apply fit_whole in E. by rewrite E.
  - by rewrite cut_snoc, E in E'.
  - done.
Qed.

Lemma len_utf8_snoc l c : len (utf8 (l ++ [c])) = len (utf8 l) + len (utf8_char c).
Proof. by rewrite utf8_app, utf8_cons, utf8_nil, app_nil_r, len_app. Qed.

Lemma line_state_step P s st c st' out :
  line_state P s st -> LineCap.step st c = (st', out) ->
  line_state P (s ++ [c]) st' /\ cap_text P (s ++ [c]) = cap_text P s ++ out /\
  LineCap._delta_bytes st' - LineCap._delta_bytes st = dropped_bytes P (s ++ [c]) - dropped_bytes P s /\
  (LineCap._delta_line_counted st = LineCap._line_truncated st ->
   LineCap._delta_line_counted st' = LineCap._line_truncated st' /\
   LineCap._delta_lines st' - LineCap._delta_lines st = cut_lines P (s ++ [c]) - cut_lines P s).
Proof.
  intros (HP & ls & l & Es & Hv & Ht). unfold LineCap.step, line_state.
  destruct (split_on_snoc NL s c) as (ls' & l' & E1 & E2).
  rewrite Es in E1. apply app_inj_tail in E1 as [<- <-].
  unfold cap_text, dropped_bytes, cut_lines. rewrite E2, Es. destruct (Z.eqb_spec c NL) as [->|Hc].
  - intros [= <- <-]. simpl. split; [|split; [|split]].
    + split; [done|]. exists (ls ++ [l]), []. by rewrite <- app_assoc.
    + rewrite !map_app. simpl. apply join_snoc_nil.
    + rewrite !map_app, !sum_list_Z_app. simpl. lia.
    + intros _. split; [done|]. rewrite !map_app, !sum_list_Z_app. simpl. change (cut P []) with false. simpl. lia.
  - rewrite !map_app, !sum_list_Z_app. simpl.
    rewrite cap_line_snoc, join_snoc_app, HP, Hv, Ht.
    pose proof (cut_snoc P l c) as Hcut. pose proof (fit_snoc P l c) as Hfit.
    destruct (cut P l) eqn:El; simpl in *;
      [|destruct (Z.leb_spec (len (utf8 (fit P l)) + len (utf8_char c)) P); simpl in *];
      rewrite Hcut, Hfit, (len_utf8_snoc l c); intros [= <- <-]; simpl;
      (split; [split; [done|exists ls, (l ++ [c]); rewrite Hcut, Hfit]|split; [done|split]]);
      rewrite ?len_utf8_snoc; try done; try lia; intros ->; split; try done; simpl; lia.
Qed.

Lemma line_state_render P s st text st' out :
  line_state P s st -> LineCap.render st text = (st', out) ->
  line_state P (s ++ text) st' /\ cap_text P (s ++ text) = cap_text P s ++ out /\
  LineCap._delta_bytes st' - LineCap._delta_bytes st = dropped_bytes P (s ++ text) - dropped_bytes P s /\
  (LineCap._delta_line_counted st = LineCap._line_truncated st ->
   LineCap._delta_line_counted st' = LineCap._line_truncated st' /\
   LineCap._delta_lines st' - LineCap._delta_lines st = cut_lines P (s ++ text) - cut_lines P s).
Proof.
  revert s st st' out; induction text as [|c text IH]; intros s st st' out Hs E; simpl in E.
  - injection E as <- <-. rewrite !app_nil_r. repeat split; try done; try apply Hs; lia.
  - destruct (LineCap.step st c) as [st1 o1] eqn:E1.
    destruct (LineCap.render st1 text) as [st2 o2] eqn:E2. injection E as <- <-.
    destruct (line_state_step P s st c st1 o1 Hs E1) as (H1 & H2 & H3 & H4).
    destruct (IH (s ++ [c]) st1 st2 o2 H1 E2) as (G1 & G2 & G3 & G4).
    rewrite <- (app_assoc s [c] text) in *. simpl in *.
    split; [done|]. split; [by rewrite G2, H2, app_assoc|]. split; [lia|].
    intros E. destruct (H4 E) as [E' ?]. destruct (G4 E'). split; [done|lia].
Qed.

Definition payload_of (cap : Z) : Z := Z.max 0 (cap - 20).

Lemma line_state_init cap : line_state (payload_of cap) [] (LineCap.init cap).
Proof.
  unfold LineCap.init, payload_of. change (len (utf8 LINE_TRUNCATION_MARKER)) with 20.
  split; simpl; [lia|]. exists [], []. done.
Qed.

Lemma line_state_take P s st : line_state P s st -> line_state P s (fst (LineCap.take_delta_stats st)).
Proof. done. Qed.

(** ** Streams of appends and reads of the line cap *)

Inductive cap_op := CapAppend (text : str) | CapTake.

Definition cap_exec (st : LineCap.t) (op : cap_op) : LineCap.t * bytes * Z :=
  match op with
  | CapAppend t => let '(st', out) := LineCap.append st t in (st', out, 0)
  | CapTake => let '(st', (_, b)) := LineCap.take_delta_stats st in (st', [], b)
  end.
Fixpoint cap_run (st : LineCap.t) (ops : list cap_op) : LineCap.t * bytes * Z :=
  match ops with
  | [] => (st, [], 0)
  | op :: ops' =>
      let '(st1, o1, b1) := cap_exec st op in
      let '(st2, o2, b2) := cap_run st1 ops' in (st2, o1 ++ o2, b1 + b2)
  end.
Definition cap_fed (ops : list cap_op) : str :=
  concat (map (fun op => match op with CapAppend t => t | CapTake => [] end) ops).

Lemma cap_run_spec P ops s st st' out b :
  line_state P s st -> cap_run st ops = (st', out, b) ->
  line_state P (s ++ cap_fed ops) st' /\
  utf8 (cap_text P (s ++ cap_fed ops)) = utf8 (cap_text P s) ++ out /\
  b + LineCap._delta_bytes st' - LineCap._delta_bytes st
    = dropped_bytes P (s ++ cap_fed ops) - dropped_bytes P s.
Proof.
  revert s st st' out b; induction ops as [|op ops IH]; intros s st st' out b Hs E; simpl in E.
  - injection E as <- <- <-. unfold cap_fed; simpl. rewrite !app_nil_r. repeat split; try apply Hs; lia.
  - destruct (cap_exec st op) as [[st1 o1] b1] eqn:E1.
    destruct (cap_run st1 ops) as [[st2 o2] b2] eqn:E2. injection E as <- <- <-.
    unfold cap_fed; simpl. fold (cap_fed ops). destruct op as [t|]; simpl in E1.
    + unfold LineCap.append in E1. destruct (LineCap.render st t) as [st3 o3] eqn:E3.
      injection E1 as <- <- <-. destruct (line_state_render P s st t st3 o3 Hs E3) as (H1 & H2 & H3 & _).
      destruct (IH _ _ _ _ _ H1 E2) as (G1 & G2 & G3). rewrite app_assoc.
      split; [done|]. split; [by rewrite G2, H2, utf8_app, app_assoc|lia].
    + injection E1 as <- <- <-. destruct (IH s _ _ _ _ (line_state_take P s st Hs) E2) as (G1 & G2 & G3).
      split; [done|]. split; [done|]. simpl in *. lia.
Qed.

Lemma cap_line_bytes P l : 0 <= P -> len (utf8 (cap_line P l)) <= P + 20.
Proof.
  intros HP. unfold cap_line. pose proof (fit_bytes P l HP). destruct (cut P l) eqn:E.
  - rewrite utf8_app, len_app. change (len (utf8 LINE_TRUNCATION_MARKER)) with 20. lia.
  - apply fit_whole in E. rewrite E in *. lia.
Qed.

(** ** The accumulator over a stream *)

Inductive acc_op := Feed (data : bytes) | Read (max_output_tokens : Z) (hard_limit : bool).

Section AccFacts.
Variable lower : str -> str.
Variable os_write : bytes -> Z.
Hypothesis os_write_progress : forall v, v <> [] -> 1 <= os_write v <= len v.

Definition acc_exec (s : accumulator * store_state * list CappedOutput) (op : acc_op)
    : result acc_error (accumulator * store_state * list CappedOutput) :=
  let '(a, st, outs) := s in
  match op with
  | Feed d => '(a', st') ← append_bytes lower os_write a st d; Ok (a', st', outs)
  | Read n hard => '(o, a') ← read_delta a n hard; Ok (a', st, outs ++ [o])
  end.

Definition fed (ops : list acc_op) : bytes :=
  concat (map (fun op => match op with Feed d => d | Read _ _ => [] end) ops).

Definition reads (ops : list acc_op) : list (Z * bool) :=
  omap (fun op => match op with Feed _ => None | Read n hard => Some (n, hard) end) ops.

(** The text the bytes [D] decode to, and what is still undecoded. *)
Definition decoded (D : bytes) : str := fst (decode_incr [REPLACEMENT] D).
Definition undecoded (D : bytes) : bytes := snd (decode_incr [REPLACEMENT] D).

Lemma decoded_app D d :
  decode_incr [REPLACEMENT] (undecoded D ++ d) =
    (drop (length (decoded D)) (decoded (D ++ d)), undecoded (D ++ d)) /\
  decoded (D ++ d) = decoded D ++ drop (length (decoded D)) (decoded (D ++ d)).
Proof.
  unfold decoded, undecoded. rewrite (decode_incr_app _ D d).
  destruct (decode_incr [REPLACEMENT] D) as [t p]; simpl.
  destruct (decode_incr [REPLACEMENT] (p ++ d)) as [u q]; simpl. by rewrite drop_app_length.
Qed.

(** [acc_rep P tool d0 D s0 (a, st)]: the bytes [D] were fed and the text [s0]
    was already read. *)
Record acc_rep (P : Z) (tool : str) (d0 : directory) (full : bool) (D : bytes) (s0 : str)
    (a : accumulator) (st : store_state) : Prop := {
  rep_spill : spilled tool d0 (utf8 (decoded D)) (_spill a, st);
  rep_bytes : Forall (fun x => 0 <= x) D;
  rep_decoder : _decoder a = undecoded D;
  rep_open : acc_finalized a = false;
  rep_line : line_state P (decoded D) (_line_cap a);
  rep_delta : exists delta out, decoded D = s0 ++ delta /\
    cap_text P (decoded D) = cap_text P s0 ++ out /\
    _preview a = ht_spec PREVIEW_HEAD_BYTES PREVIEW_TAIL_BYTES (utf8 out) /\
    _delta_chars a = len delta /\ _full_delta a = (if full then Some (utf8 delta) else None)
}.

Lemma acc_rep_init tool st full cap :
  store_ok st ->
  acc_rep (payload_of cap) tool (root st) full [] [] (acc_init true tool None cap full) st.
Proof.
  intros H. split; simpl; try done.
  - by apply spill_init_spilled.
  - apply line_state_init.
  - exists [], []. rewrite <- ht_init. by destruct full.
Qed.

Lemma acc_rep_feed P tool d0 full D s0 a st d :
  acc_rep P tool d0 full D s0 a st -> Forall (fun x => 0 <= x) d ->
  exists a' st', append_bytes lower os_write a st d = Ok (a', st') /\
    acc_rep P tool d0 full (D ++ d) s0 a' st'.
Proof.
  intros [H1 H2 H3 Hopen H4 (delta & out & E1 & E2 & E3 & E4 & E5)] Hd. unfold append_bytes.
  destruct d as [|x d].
  { exists a, st. rewrite (app_nil_r D). split; [done|]. split; try done. by exists delta, out. }
  set (dd := x :: d) in *. cbn [nonempty negb dd]. fold dd. rewrite H3.
  destruct (decoded_app D dd) as [-> Edec]. set (t := drop (length (decoded D)) (decoded (D ++ dd))) in *.
  assert (Forall (fun x => 0 <= x) (D ++ dd)) as Hb by (by apply Forall_app).
  unfold _append_normalized, set_decoder.
  cbn [_spill _line_cap _decoder _full_delta _delta_chars acc_finalized _preview].
  destruct (nonempty t) eqn:Et; cbn [negb].
  - destruct (spill_append_spilled lower os_write os_write_progress tool d0 _ _ (utf8 t) H1)
      as ([w st'] & -> & Hw).
    unfold LineCap.append. destruct (LineCap.render (_line_cap a) t) as [lc o] eqn:Er.
    destruct (line_state_render P _ _ t lc o H4 Er) as (G1 & G2 & _).
    eexists _, _; split; [reflexivity|]. split; simpl; rewrite ?Edec, ?utf8_app; try done.
    exists (delta ++ t), (out ++ o). rewrite E1 at 1. rewrite app_assoc. split; [done|].
    split; [by rewrite G2, E2, app_assoc|]. rewrite E3, ht_append, utf8_app by done.
    split; [done|]. rewrite len_app, E4, E5. split; [done|].
    destruct full; [by rewrite utf8_app|done].
  - destruct t; [|done]. rewrite app_nil_r in Edec. eexists _, _; split; [reflexivity|].
    split; simpl; rewrite ?Edec; try done. by exists delta, out.
Qed.

(** What a read shows of the raw text [raw] whose line-capped form is [cap]. *)
Definition shown (full : bool) (n : Z) (hard : bool) (raw cap : str) (o : CappedOutput) : Prop :=
  if full && negb hard then out_text o = raw
  else let budget := 4 * effective_tokens n hard in
       len (out_text o) <= budget /\ original_token_count o = _estimated_tokens (len raw) /\
       preview_of cap budget (out_text o, preview_omitted_bytes o, preview_omitted_lines o).

Lemma decoded_scalars D : Forall (fun x => 0 <= x) D -> scalars (decoded D).
Proof.
  intros H. apply decode_incr_scalars; [|done]. by repeat constructor.
Qed.

Lemma fit_scalars P l : scalars l -> scalars (fit P l).
Proof.
  intros H. destruct (fit_prefix P l) as [r E]. rewrite E in H. by apply Forall_app in H as [? _].
Qed.

Lemma cap_line_scalars P l : scalars l -> scalars (cap_line P l).
Proof.
  intros H. unfold cap_line. destruct (cut P l); [|done].
  apply Forall_app; split; [by apply fit_scalars|]. by repeat constructor.
Qed.

Lemma join_Forall (Q : Z -> Prop) sep ls : Forall Q sep -> Forall (Forall Q) ls -> Forall Q (join sep ls).
Proof.
  intros Hs; induction 1 as [|x ls Hx Hls IH]; [done|]. destruct ls; [done|].
  apply Forall_app; split; [done|]. by apply Forall_app.
Qed.

Lemma split_on_Forall (Q : Z -> Prop) sep s : Forall Q s -> Forall (Forall Q) (split_on sep s).
Proof.
  induction 1 as [|c s Hc Hs IH]; simpl; [by repeat constructor|].
  destruct (c =? sep); [by constructor|]. destruct (split_on sep s) as [|w ws]; [by repeat constructor|].
  inversion IH; subst. constructor; [by constructor|done].
Qed.

Lemma cap_text_scalars P s : scalars s -> scalars (cap_text P s).
Proof.
  intros H. apply join_Forall; [by repeat constructor|].
  apply Forall_map. eapply Forall_impl; [|exact (split_on_Forall _ NL s H)].
  intros l; apply cap_line_scalars.
Qed.

Lemma acc_rep_read P tool d0 full D s0 a st n hard :
  acc_rep P tool d0 full D s0 a st -> len (utf8 (cap_text P (decoded D))) < 10 ^ 17 ->
  exists o a' raw cap, read_delta a n hard = Ok (o, a') /\
    acc_rep P tool d0 full D (decoded D) a' st /\
    decoded D = s0 ++ raw /\ cap_text P (decoded D) = cap_text P s0 ++ cap /\
    shown full n hard raw cap o.
Proof.
  intros [H1 H2 H3 Hopen H4 (delta & out & E1 & E2 & E3 & E4 & E5)] Hsize.
  pose proof (decoded_scalars D H2) as Hs.
  assert (scalars delta) as Hsd by (rewrite E1 in Hs; by apply Forall_app in Hs as [_ ?]).
  assert (scalars out) as Hso.
  { apply (cap_text_scalars P) in Hs. rewrite E2 in Hs. by apply Forall_app in Hs as [_ ?]. }
  assert (forall lc, line_state P (decoded D) lc ->
    acc_rep P tool d0 full D (decoded D)
      (mkAcc (_spill a) (HeadTailBuffer.reset (_preview a)) lc (_decoder a)
         (if full then Some [] else None) 0 (acc_finalized a)) st) as Hreset.
  { intros lc Hlc. split; simpl; try done. exists [], []. rewrite !app_nil_r, E3.
    by repeat split. }
  destruct (full && negb hard) eqn:Efh; unfold shown; rewrite Efh.
  - apply andb_true_iff in Efh as [-> ->%negb_true_iff].
    unfold read_delta, read_full. rewrite E5, decode_strict_encode by done.
    eexists _, _, delta, out. split; [reflexivity|]. split; [|done].
    apply Hreset. by apply (line_state_take P _ (_line_cap a)).
  - assert (read_delta a n hard = read_capped a n hard) as ->.
    { unfold read_delta. rewrite E5. by destruct full, hard. }
    unfold read_capped. rewrite E3.
    destruct (ht_view_spec PREVIEW_HEAD_BYTES PREVIEW_TAIL_BYTES out ltac:(done) ltac:(done) Hso)
      as (v & -> & Hv).
    pose proof (effective_tokens_pos n hard) as Hpos. set (e := effective_tokens n hard) in *.
    destruct (render_preview_ok out v (e * 4) Hv) as [Hlen Hp].
    { rewrite E2, utf8_app, len_app in Hsize. pose proof (len_nonneg (utf8 (cap_text P s0))). lia. }
    replace (Z.max 0 (e * 4)) with (4 * e) in * by lia.
    destruct (_render_preview v (e * 4)) as [[text ob] ol]. cbn [LineCap.take_delta_stats].
    eexists _, _, delta, out. split; [reflexivity|]. rewrite <- E3, E4, E5.
    split; [|done]. replace (match (if full then Some (utf8 delta) else None) with
      | Some _ => Some [] | None => None end) with (if full then Some (@nil Z) else None) by (by destruct full).
    apply Hreset. by apply (line_state_take P _ (_line_cap a)).
Qed.

(** More text only adds to the capped form. *)
Lemma cap_text_prefix P s t : exists u, cap_text P (s ++ t) = cap_text P s ++ u.
Proof.
  induction t as [|c t IH] using rev_ind; [exists []; by rewrite !app_nil_r|].
  destruct IH as [u E]. rewrite app_assoc. unfold cap_text in *.
  destruct (split_on_snoc NL (s ++ t) c) as (ls & l & E1 & E2). rewrite E2, E1 in *.
  destruct (c =? NL).
  - exists (u ++ [NL]). rewrite app_assoc, <- E, !map_app. simpl. apply join_snoc_nil.
  - rewrite map_app in *. simpl in *. rewrite cap_line_snoc, join_snoc_app, E.
    eexists. symmetry. apply app_assoc.
Qed.

Lemma cap_text_size P D d :
  len (utf8 (cap_text P (decoded D))) <= len (utf8 (cap_text P (decoded (D ++ d)))).
Proof.
  rewrite (proj2 (decoded_app D d)). edestruct (cap_text_prefix P (decoded D)) as [u ->].
  rewrite utf8_app, len_app. pose proof (len_nonneg (utf8 u)). lia.
Qed.

Lemma acc_exec_run P tool d0 full ops D s0 a st outs :
  acc_rep P tool d0 full D s0 a st -> Forall (fun x => 0 <= x) (fed ops) ->
  len (utf8 (cap_text P (decoded (D ++ fed ops)))) < 10 ^ 17 ->
  exists a' st' outs' shows s1, foldM acc_exec ops (a, st, outs) = Ok (a', st', outs ++ outs') /\
    acc_rep P tool d0 full (D ++ fed ops) s1 a' st' /\
    s1 = s0 ++ concat (map fst shows) /\ cap_text P s1 = cap_text P s0 ++ concat (map snd shows) /\
    Forall3 (fun '(n, hard) '(raw, cap) o => shown full n hard raw cap o) (reads ops) shows outs'.
Proof.
  revert D s0 a st outs; induction ops as [|op ops IH]; intros D s0 a st outs Hrep Hb Hsz.
  { exists a, st, [], [], s0. unfold fed; simpl. rewrite !app_nil_r. split; [done|]. split; [done|].
    repeat split; try done. constructor. }
  destruct op as [d|n hard]; unfold fed in Hb, Hsz |- *; simpl in Hb, Hsz |- *; fold (fed ops) in *.
  - apply Forall_app in Hb as [Hd Hb].
    destruct (acc_rep_feed P tool d0 full D s0 a st d Hrep Hd) as (a1 & st1 & E & Hrep1).
    rewrite E. simpl. rewrite app_assoc in Hsz |- *. by apply IH.
  - destruct (acc_rep_read P tool d0 full D s0 a st n hard Hrep) as (o & a1 & raw & cap & E & Hrep1 & E1 & E2 & Hsh).
    { eapply Z.le_lt_trans; [|exact Hsz]. apply cap_text_size. }
    rewrite E. simpl.
    destruct (IH D (decoded D) a1 st (outs ++ [o]) Hrep1 Hb Hsz) as (a' & st' & outs' & shows & s1 & G1 & G2 & G3 & G4 & G5).
    exists a', st', (o :: outs'), ((raw, cap) :: shows), s1. simpl.
    rewrite <- app_assoc in G1. simpl in G1. rewrite G1. split; [done|]. split; [done|].
    rewrite !app_assoc, <- E1, <- E2. split; [done|]. split; [done|]. by constructor.
Qed.

Lemma undecoded_stuck D : decode_incr [REPLACEMENT] (undecoded D) = ([], undecoded D).
Proof.
  destruct (decoded_app D []) as [E1 E2]. rewrite !app_nil_r in E1. rewrite E1.
  by rewrite drop_all.
Qed.

Lemma decode_replace_decoded D :
  decode_replace D = decoded D ++ decode_replace (undecoded D).
Proof.
  unfold decode_replace, decode_with. rewrite undecoded_stuck. unfold decoded, undecoded.
  by destruct (decode_incr _ D).
Qed.

Lemma spilled_finalize tool d0 D w st :
  spilled tool d0 D (w, st) ->
  exists st', spill_finalize (w, st) = (fst (spill_finalize (w, st)), st') /\
    (len D <= SPILL_THRESHOLD_BYTES -> root st' = d0) /\
    (SPILL_THRESHOLD_BYTES < len D -> exists p, d0 !! p = None /\ path w = Some p /\
       root st' = <[p := RegularFile D 256]> d0).
Proof.
  intros H. inversion H as [st1 Hlen Hroot Hok'|p st1 Hlen Hp Hroot Hok']; subst; simpl.
  - eexists; split; [reflexivity|]. split; [done|lia].
  - eexists; split; [reflexivity|]. split; [lia|]. intros _. exists p. repeat split; try done.
    simpl. unfold chmod. by rewrite Hroot, lookup_insert_eq, insert_insert_eq.
Qed.

Lemma acc_rep_finalize P tool d0 full D s0 a st :
  acc_rep P tool d0 full D s0 a st ->
  let E := utf8 (decode_replace D) in
  exists a' st', acc_finalize lower os_write a st = Ok (a', st') /\
    acc_finalize lower os_write a' st' = Ok (a', st') /\
    (len E <= SPILL_THRESHOLD_BYTES -> root st' = d0) /\
    (SPILL_THRESHOLD_BYTES < len E -> exists p, d0 !! p = None /\ root st' = <[p := RegularFile E 256]> d0).
Proof.
  intros [H1 H2 H3 Hopen H4 (delta & out & E1 & E2 & E3 & E4 & E5)] E. unfold acc_finalize at 1.
  rewrite Hopen, H3. unfold _append_normalized.
  cbn [_spill _line_cap _decoder _full_delta _delta_chars acc_finalized _preview].
  assert (E = utf8 (decoded D) ++ utf8 (decode_replace (undecoded D))) as HE
    by (unfold E; rewrite decode_replace_decoded at 1; apply utf8_app).
  destruct (nonempty (decode_replace (undecoded D))) eqn:Et; cbn [negb].
  - destruct (spill_append_spilled lower os_write os_write_progress tool d0 _ _
      (utf8 (decode_replace (undecoded D))) H1) as ([w st1] & -> & Hw).
    rewrite <- HE in Hw. destruct (LineCap.append _ _) as [lc o]. cbn [mbind result_bind _spill].
    destruct (spilled_finalize _ _ _ _ _ Hw) as (st' & -> & Ha & Hb).
    eexists _, _; split; [reflexivity|]. split; [done|]. split; [done|].
    intros Hlen. destruct (Hb Hlen) as (p & ? & _ & ?). eauto.
  - destruct (decode_replace (undecoded D)); [|done]. rewrite utf8_nil, app_nil_r in HE. rewrite <- HE in H1.
    cbn [mbind result_bind _spill].
    destruct (spilled_finalize _ _ _ _ _ H1) as (st' & -> & Ha & Hb).
    eexists _, _; split; [reflexivity|]. split; [done|]. split; [done|].
    intros Hlen. destruct (Hb Hlen) as (p & ? & _ & ?). eauto.
Qed.

(** ** Properties *)

(** C1: For every sequence of byte chunks and reads that an accumulator with a
    spill store serves (any chunk boundaries, the bytes well formed UTF-8 or
    not): no call raises; consecutive reads show consecutive pieces of the
    decoded text, none lost or shown twice, each either whole or as an exact
    preview, within its token budget, of the piece with over-long lines capped
    as if the whole stream were capped at once; and the bytes kept for the
    spill file are the complete text, whatever the previews dropped. *)
Theorem accumulator_stream tool st cap full ops :
  store_ok st -> Forall (fun x => 0 <= x) (fed ops) ->
  let P := payload_of cap in let s := decoded (fed ops) in
  len (utf8 (cap_text P s)) < 10 ^ 17 ->
  exists a st' outs shows raw_left cap_left,
    foldM acc_exec ops (acc_init true tool None cap full, st, []) = Ok (a, st', outs) /\
    s = concat (map fst shows) ++ raw_left /\
    cap_text P s = concat (map snd shows) ++ cap_left /\
    Forall3 (fun '(n, hard) '(raw, cap) o => shown full n hard raw cap o) (reads ops) shows outs /\
    spilled tool (root st) (utf8 s) (_spill a, st').
Proof.
  intros Hok Hb P s Hsz.
  destruct (acc_exec_run P tool (root st) full ops [] [] _ st [] (acc_rep_init tool st full cap Hok) Hb Hsz)
    as (a & st' & outs & shows & s1 & E & [H1 _ _ _ _ (delta & out & E1 & E2 & _)] & -> & E4 & E5).
  simpl in *. exists a, st', outs, shows, delta, out. repeat split; try done.
  unfold s. by rewrite E2, E4.
Qed.

(** After any such stream, [finalize] succeeds, decodes what the decoder
    held back as one replacement character, and leaves the directory as it was
    or with exactly one new, read-only file that holds the text of the whole
    stream; calling it again changes nothing. *)
Theorem accumulator_finalize tool st cap full ops :
  store_ok st -> Forall (fun x => 0 <= x) (fed ops) ->
  len (utf8 (cap_text (payload_of cap) (decoded (fed ops)))) < 10 ^ 17 ->
  let E := utf8 (decode_replace (fed ops)) in
  exists a st' outs a'' st'',
    foldM acc_exec ops (acc_init true tool None cap full, st, []) = Ok (a, st', outs) /\
    acc_finalize lower os_write a st' = Ok (a'', st'') /\
    acc_finalize lower os_write a'' st'' = Ok (a'', st'') /\
    (len E <= SPILL_THRESHOLD_BYTES -> root st'' = root st) /\
    (SPILL_THRESHOLD_BYTES < len E ->
       exists p, root st !! p = None /\ root st'' = <[p := RegularFile E 256]> (root st)).
Proof.
  intros Hok Hb Hsz E.
  destruct (acc_exec_run _ tool (root st) full ops [] [] _ st [] (acc_rep_init tool st full cap Hok) Hb Hsz)
    as (a & st' & outs & shows & s1 & E1 & Hrep & _).
  destruct (acc_rep_finalize _ _ _ _ _ _ _ _ Hrep) as (a'' & st'' & H1 & H2 & H3 & H4).
  exists a, st', outs, a'', st''. split; [done|]. split; [done|]. split; [done|]. split; [done|].
  intros Hlen. by apply H4.
Qed.
End AccFacts.

Lemma cap_line_no_newline P l : member NL l = false -> member NL (cap_line P l) = false.
Proof.
  intros H. unfold cap_line. destruct (cut P l); [|done]. rewrite member_app.
  destruct (fit_prefix P l) as [r E]. rewrite E, member_app in H.
  apply orb_false_iff in H as [-> _]. done.
Qed.

Lemma cap_text_lines P s : split_on NL (cap_text P s) = map (cap_line P) (split_on NL s).
Proof.
  unfold cap_text. apply split_on_join.
  - pose proof (split_on_nonempty NL s). by destruct (split_on NL s).
  - apply Forall_map. eapply Forall_impl; [|exact (split_on_pieces NL s)].
    intros l; apply cap_line_no_newline.
Qed.

(** However a text is cut into appends, and wherever its drop statistics
    are taken in between, the line cap renders exactly what capping every line
    of the whole text on its own gives; every rendered line then has at most
    [cap_bytes] bytes, and the bytes reported as dropped add up to those the
    cap removed. *)
Theorem line_cap_streaming cap ops :
  let P := payload_of cap in
  let '(st, out, reported) := cap_run (LineCap.init cap) ops in
  let s := cap_fed ops in
  out = utf8 (cap_text P s) /\
  split_on NL (cap_text P s) = map (cap_line P) (split_on NL s) /\
  Forall (fun l => len (utf8 l) <= LineCap.cap_bytes (LineCap.init cap)) (split_on NL (cap_text P s)) /\
  reported + LineCap._delta_bytes st = dropped_bytes P s.
Proof.
  destruct (cap_run (LineCap.init cap) ops) as [[st out] b] eqn:E.
  destruct (cap_run_spec _ ops [] _ st out b (line_state_init cap) E) as (_ & H2 & H3).
  simpl in H2, H3. split; [done|]. rewrite cap_text_lines. split; [done|]. split.
  - apply Forall_map, Forall_true. intros l.
    pose proof (cap_line_bytes (payload_of cap) l ltac:(unfold payload_of; lia)).
    unfold LineCap.init, payload_of in *. change (len (utf8 LINE_TRUNCATION_MARKER)) with 20. simpl. lia.
  - change (dropped_bytes (payload_of cap) []) with 0 in H3. lia.
Qed.

Definition sample_ops : list acc_op :=
  [Feed [97; 226]; Read 5 true; Feed [130; 172; 10; 255]; Read 5 false; Feed [226; 130]].

Lemma accumulator_stream_witness :
  exists a st' outs shows raw_left cap_left,
    foldM (acc_exec id len) sample_ops (acc_init true (lit "exec") None 1024 true, mkStore None ∅, [])
      = Ok (a, st', outs) /\
    [97; 8364; 10; REPLACEMENT] = concat (map fst shows) ++ raw_left /\
    cap_text 1004 [97; 8364; 10; REPLACEMENT] = concat (map snd shows) ++ cap_left /\
    Forall3 (fun '(n, hard) '(raw, cap) o => shown true n hard raw cap o) [(5, true); (5, false)] shows outs /\
    spilled (lit "exec") ∅ (utf8 [97; 8364; 10; REPLACEMENT]) (_spill a, st').
Proof.
  exact (accumulator_stream id len
    ltac:(intros v Hv; destruct v; [done|rewrite len_cons; pose proof (len_nonneg v); lia])
    (lit "exec") (mkStore None ∅) 1024 true sample_ops
    ltac:(intros n E; discriminate E) ltac:(repeat constructor; lia) ltac:(by vm_compute)).
Defined.

Lemma accumulator_finalize_witness :
  exists a st' outs a'' st'',
    foldM (acc_exec id len) sample_ops (acc_init true (lit "exec") None 1024 false, mkStore None ∅, [])
      = Ok (a, st', outs) /\
    acc_finalize id len a st' = Ok (a'', st'') /\ root st'' = ∅.
Proof.
  destruct (accumulator_finalize id len
    ltac:(intros v Hv; destruct v; [done|rewrite len_cons; pose proof (len_nonneg v); lia])
    (lit "exec") (mkStore None ∅) 1024 false sample_ops
    ltac:(intros n E; discriminate E) ltac:(repeat constructor; lia) ltac:(by vm_compute))
    as (a & st' & outs & a'' & st'' & H1 & H2 & _ & H4 & _).
  exists a, st', outs, a'', st''. split; [exact H1|]. split; [exact H2|]. apply H4. by vm_compute.
Defined.
