(* ===== verification/PyVal.v ===== *)
(** * Decoded JSON values

    What [json.loads] and the arguments of a tool call hold.  A (finite) float
    is a mantissa and a binary exponent. *)

From stdpp Require Import base list strings numbers.
From Stdlib Require Import ZArith Lia.
From S2P Require Import Prelude PyStr.

Inductive value :=
| VNone
| VBool (b : bool)
| VInt (n : Z)
| VFloat (mantissa exponent : Z)
| VStr (s : str)
| VList (l : list value)
| VDict (d : list (str * value)).     (* in insertion order, keys distinct *)

#[global] Instance str_eq_dec : EqDecision (list Z) := _.

Definition str_eqb (a b : str) : bool := bool_decide (a = b).

(** [d.get(k)] and [k in d]. *)
Fixpoint dict_get {A} (d : list (str * A)) (k : str) : option A :=
  match d with
  | [] => None
  | (k', v) :: d' => if str_eqb k' k then Some v else dict_get d' k
  end.
Definition dict_has {A} (d : list (str * A)) (k : str) : bool :=
  match dict_get d k with Some _ => true | None => false end.

(** [x in l] for strings. *)
Definition str_in (x : str) (l : list str) : bool := existsb (str_eqb x) l.

Lemma str_eqb_eq a b : str_eqb a b = true <-> a = b.
Proof. apply bool_decide_eq_true. Qed.
Lemma str_eqb_refl a : str_eqb a a = true.
Proof. by apply str_eqb_eq. Qed.
Lemma str_in_spec x l : str_in x l = true <-> x ∈ l.
Proof.
  unfold str_in. rewrite existsb_exists. split.
  - intros (y & Hy & ->%str_eqb_eq). by apply list_elem_of_In.
  - intros H. exists x. rewrite str_eqb_refl. by apply list_elem_of_In in H.
Qed.

Lemma dict_get_elem {A} (d : list (str * A)) k v : dict_get d k = Some v -> (k, v) ∈ d.
Proof.
  induction d as [|[k' v'] d IH]; [done|]. cbn. destruct (str_eqb k' k) eqn:E; [|right; auto].
  apply str_eqb_eq in E as ->. intros [= ->]. left.
Qed.

Lemma dict_has_elem {A} (d : list (str * A)) k : dict_has d k = true <-> k ∈ map fst d.
Proof.
  unfold dict_has. induction d as [|[k' v] d IH]; cbn; [split; [done|by intros ?%not_elem_of_nil]|].
  rewrite elem_of_cons, <- IH. destruct (str_eqb k' k) eqn:E; [apply str_eqb_eq in E; naive_solver|].
  split; [auto|]. intros [->|]; [by rewrite str_eqb_refl in E|done].
Qed.

Lemma dict_get_In {A} (d : list (str * A)) k v : NoDup (map fst d) -> (k, v) ∈ d -> dict_get d k = Some v.
Proof.
  induction d as [|[k' v'] d IH]; intros Hd Hi; [by apply not_elem_of_nil in Hi|]. cbn in Hd.
  apply list.NoDup_cons in Hd as [Hk Hd]. cbn. apply elem_of_cons in Hi as [[= -> ->]|Hi]; [by rewrite str_eqb_refl|].
  destruct (str_eqb k' k) eqn:E; [|by apply IH]. apply str_eqb_eq in E as ->. exfalso. apply Hk.
  apply (list_elem_of_fmap_2 fst) in Hi. done.
Qed.

(** [bool(v)]. *)
Definition truthy (v : value) : bool :=
  match v with
  | VNone => false
  | VBool b => b
  | VInt n => negb (n =? 0)
  | VFloat m _ => negb (m =? 0)
  | VStr s => nonempty s
  | VList l => nonempty l
  | VDict d => nonempty d
  end.

(** [isinstance(v, int)], which holds of [True] and [False] too. *)
Definition as_int (v : value) : option Z :=
  match v with VInt n => Some n | VBool b => Some (Z.b2z b) | _ => None end.

(** [d.get(k)]. *)
Definition get (d : list (str * value)) (k : str) : value := default VNone (dict_get d k).

(** [v == n] for an integer [n]: booleans and floats compare by value. *)
Definition eq_int (v : value) (n : Z) : bool :=
  match v with
  | VInt m => m =? n
  | VBool b => Z.b2z b =? n
  | VFloat m e => if 0 <=? e then m * 2 ^ e =? n else m =? n * 2 ^ (- e)
  | _ => false
  end.

(** [str(v)]; [repr] renders the containers and the floats. *)
Definition py_str (repr : value -> str) (v : value) : str :=
  match v with
  | VNone => lit "None"
  | VBool true => lit "True"
  | VBool false => lit "False"
  | VInt n => dec n
  | VStr s => s
  | _ => repr v
  end.
(** [str(v or "")]. *)
Definition str_or_empty (repr : value -> str) (v : value) : str :=
  if truthy v then py_str repr v else [].
