(* ===== verification/Splice.v ===== *)
(** * Editing a list in place, bottom up

    Both the hashline edits and the language-server edits replace regions of
    one snapshot by assigning slices of a list one after the other, starting
    with the region that stands last.  This file states what that is meant to
    compute, the simultaneous replacement of all regions of the snapshot, and
    proves that the order makes it so. *)

From stdpp Require Import base list numbers sorting.
From Stdlib Require Import ZArith Lia.
From S2P Require Import Prelude.

(** ** Sorted lists *)

Lemma sorted_upgrade {A K} (key : A -> K) (R Q : A -> A -> Prop) l :
  StronglySorted R l -> NoDup (map key l) ->
  (forall a b, a ∈ l -> b ∈ l -> key a <> key b -> R a b -> Q a b) -> StronglySorted Q l.
Proof.
  induction 1 as [|x l Hs IH Hall]; intros Hnd HQ; [constructor|].
  inversion Hnd as [|? ? Hx Hnd']; subst. constructor.
  - apply IH; [done|]. intros a b Ha Hb. apply HQ; by right.
  - apply Forall_forall. intros y Hy. rewrite Forall_forall in Hall.
    apply HQ; [by left|by right| |by apply Hall].
    intros E. apply Hx. rewrite E. by apply list_elem_of_fmap_2.
Qed.

(** In a list sorted by [leb], what comes strictly first also stands first. *)
Lemma sorted_pair {A} (leb : A -> A -> bool) (R : A -> A -> Prop) l x y :
  StronglySorted (fun a b => leb a b = true) l -> StronglySorted R l ->
  x ∈ l -> y ∈ l -> x <> y -> leb y x = false -> R x y.
Proof.
  intros Hs HR Hx Hy Hne Hl. revert HR Hx Hy; induction Hs as [|z l Hs IH Hall]; intros HR Hx Hy; [inversion Hx|].
  inversion HR as [|? ? HR' HRall]; subst. rewrite Forall_forall in Hall, HRall.
  apply elem_of_cons in Hx as [->|Hx]; apply elem_of_cons in Hy as [->|Hy]; try done.
  - by apply HRall.
  - specialize (Hall x Hx). congruence.
  - by apply IH.
Qed.

Section Splice.
Context {A : Type}.
Implicit Types l : list A.

(** Replace the positions from [start] to before [stop] by [content]. *)
Record splice := mkSplice { sp_start : Z; sp_stop : Z; sp_content : list A }.

Definition splice_in (n : Z) (s : splice) : Prop := 0 <= sp_start s <= sp_stop s /\ sp_stop s <= n.

Definition splice1 l (s : splice) : list A :=
  take (Z.to_nat (sp_start s)) l ++ sp_content s ++ drop (Z.to_nat (sp_stop s)) l.

(** The slice assignment of Python is this splice, for a region in range. *)
Lemma slice_set_splice l s :
  splice_in (len l) s -> slice_set l (sp_start s) (sp_stop s) (sp_content s) = splice1 l s.
Proof. intros [? ?]. by apply slice_set_in_range. Qed.

(** The reference: the snapshot read once from left to right, every region
    replaced by its content and everything between kept. *)
Fixpoint weave (pos : Z) l (asc : list splice) : list A :=
  match asc with
  | [] => drop (Z.to_nat pos) l
  | s :: asc' =>
      take (Z.to_nat (sp_start s - pos)) (drop (Z.to_nat pos) l) ++ sp_content s
        ++ weave (sp_stop s) l asc'
  end.

(** Regions of a list of length [n], from [pos] on, none before the end of the
    one that precedes it. *)
Fixpoint ascending (pos n : Z) (asc : list splice) : Prop :=
  match asc with
  | [] => pos <= n
  | s :: asc' => pos <= sp_start s <= sp_stop s /\ ascending (sp_stop s) n asc'
  end.

Lemma ascending_mono pos n m asc : n <= m -> ascending pos n asc -> ascending pos m asc.
Proof. revert pos; induction asc as [|s asc IH]; simpl; intros; [lia|]. naive_solver. Qed.

Lemma ascending_snoc pos n s asc :
  ascending pos n (asc ++ [s]) <->
  ascending pos (sp_start s) asc /\ sp_start s <= sp_stop s <= n.
Proof. revert pos; induction asc as [|x asc IH]; simpl; intros; [lia|]. rewrite IH. tauto. Qed.

Lemma len_splice1 l s :
  splice_in (len l) s -> len (splice1 l s) = len l - (sp_stop s - sp_start s) + len (sp_content s).
Proof. intros [? ?]. unfold splice1. len_simpl. lia. Qed.

(** A splice behind the other regions is one more region at the end. *)
Lemma weave_snoc l s pos asc :
  0 <= pos -> ascending pos (len l) (asc ++ [s]) ->
  weave pos (splice1 l s) asc = weave pos l (asc ++ [s]).
Proof.
  revert pos; induction asc as [|x asc IH]; simpl; intros pos Hpos Hasc.
  - unfold splice1. unfold len in *.
    rewrite drop_app_le by (rewrite length_take; lia).
    rewrite take_drop_commute. do 3 f_equal; lia.
  - destruct Hasc as [Hx Hasc]. rewrite IH by (done || lia). f_equal.
    apply ascending_snoc in Hasc as [Hasc Hs].
    assert (sp_stop x <= sp_start s) as Hle.
    { clear -Hasc. revert Hasc. generalize (sp_stop x). induction asc as [|y asc IH]; simpl; intros z H; [lia|].
      destruct H as [? H]. apply IH in H. lia. }
    unfold splice1. unfold len in *. rewrite drop_app_le, take_app_le, take_drop_commute, take_take
      by (rewrite ?length_drop, ?length_take; lia).
    rewrite take_drop_commute. f_equal. f_equal. lia.
Qed.

(** Assigning the regions from the last to the first computes the simultaneous
    replacement. *)
Theorem splices_weave l asc :
  ascending 0 (len l) asc -> fold_left splice1 (rev asc) l = weave 0 l asc.
Proof.
  revert l; induction asc as [|s asc IH] using rev_ind; intros l Hasc; [done|].
  rewrite rev_app_distr. simpl. rewrite IH; [apply weave_snoc; done || lia|].
  apply ascending_snoc in Hasc as [Hasc Hs].
  assert (0 <= sp_start s).
  { clear -Hasc. revert Hasc. generalize 0. induction asc as [|y asc IH]; simpl; intros z H; [lia|].
    destruct H as [? H]. apply IH in H. lia. }
  eapply ascending_mono; [|exact Hasc]. rewrite len_splice1 by (split; lia). len_facts. lia.
Qed.

(** Regions listed from the last to the first. *)
Lemma descending_ascending n ss :
  Forall (splice_in n) ss -> 0 <= n ->
  StronglySorted (fun a b => sp_stop b <= sp_start a) ss -> ascending 0 n (rev ss).
Proof.
  intros Hin Hn Hs. revert n Hin Hn. induction Hs as [|s ss Hs IH Hall]; intros n Hin Hn; simpl; [done|].
  inversion Hin as [|? ? [Hs1 Hs2] Hin']; subst. apply ascending_snoc. split; [|lia].
  apply IH; [|lia]. clear -Hall Hin'. induction Hall; inversion Hin'; subst; constructor; auto.
  unfold splice_in in *. lia.
Qed.

(** The same for Python's slice assignments. *)
Lemma slice_sets_weave l ss :
  Forall (splice_in (len l)) ss -> StronglySorted (fun a b => sp_stop b <= sp_start a) ss ->
  fold_left (fun l s => slice_set l (sp_start s) (sp_stop s) (sp_content s)) ss l = weave 0 l (rev ss).
Proof.
  intros Hin Hs. rewrite <- splices_weave, rev_involutive
    by (apply descending_ascending; try done; apply len_nonneg).
  revert l Hin. induction Hs as [|s ss Hs IH Hall]; intros l Hin; simpl; [done|].
  inversion Hin as [|? ? Hs0 Hin']; subst. rewrite slice_set_splice by done. apply IH.
  clear -Hall Hs0 Hin'. induction Hall; inversion Hin'; subst; constructor; auto.
  rewrite len_splice1 by done. destruct Hs0. unfold splice_in in *. len_facts. lia.
Qed.
End Splice.
Arguments splice : clear implicits.
