(* ===== verification/Hashline.v ===== *)
(** * Hashline v2: anchored line edits

    Models [kolega_code/agent/tool_backend/hashline_v2.py]: the xxHash32 line
    tags shown to the model, the parsing of edits that refer to them, and their
    application to a snapshot of the file after every anchor was checked.  The
    lines are those of a decoded file, so they hold no lone surrogates, which the
    hash could not encode. *)

From stdpp Require Import base list strings numbers sorting.
From Stdlib Require Import ZArith Lia.
From S2P Require Import Prelude PyStr Utf8 PyVal Splice.

(** ** xxHash32 *)

Definition _ALPHABET : str := lit "ZPMQVRWSNKTXJBYH".
Definition _MASK32 : Z := 4294967295.
Definition _PRIME32_1 : Z := 2654435761.
Definition _PRIME32_2 : Z := 2246822519.
Definition _PRIME32_3 : Z := 3266489917.
Definition _PRIME32_4 : Z := 668265263.
Definition _PRIME32_5 : Z := 374761393.

Definition mask32 (v : Z) : Z := Z.land v _MASK32.

Definition _rotl32 (value count : Z) : Z :=
  mask32 (Z.lor (Z.shiftl value count) (Z.shiftr value (32 - count))).

Definition _round32 (accumulator value : Z) : Z :=
  let accumulator := mask32 (accumulator + value * _PRIME32_2) in
  let accumulator := _rotl32 accumulator 13 in
  mask32 (accumulator * _PRIME32_1).

(** [int.from_bytes(b, "little")]. *)
Fixpoint from_bytes_little (b : bytes) : Z :=
  match b with [] => 0 | x :: b' => x + 256 * from_bytes_little b' end.
Definition word_at (data : bytes) (offset : Z) : Z :=
  from_bytes_little (slice data offset (offset + 4)).

(** The loop over stripes of sixteen bytes. *)
Fixpoint stripe_loop (fuel : nat) (data : bytes) (offset v1 v2 v3 v4 : Z)
    : Z * (Z * Z * Z * Z) :=
  match fuel with
  | O => (offset, (v1, v2, v3, v4))
  | S f =>
      if offset <=? len data - 16 then
        stripe_loop f data (offset + 16)
          (_round32 v1 (word_at data offset)) (_round32 v2 (word_at data (offset + 4)))
          (_round32 v3 (word_at data (offset + 8))) (_round32 v4 (word_at data (offset + 12)))
      else (offset, (v1, v2, v3, v4))
  end.

Fixpoint word_loop (fuel : nat) (data : bytes) (offset digest : Z) : Z * Z :=
  match fuel with
  | O => (offset, digest)
  | S f =>
      if offset + 4 <=? len data then
        let digest := mask32 (digest + word_at data offset * _PRIME32_3) in
        let digest := mask32 (_rotl32 digest 17 * _PRIME32_4) in
        word_loop f data (offset + 4) digest
      else (offset, digest)
  end.

Fixpoint byte_loop (fuel : nat) (data : bytes) (offset digest : Z) : Z * Z :=
  match fuel with
  | O => (offset, digest)
  | S f =>
      if offset <? len data then
        let digest := mask32 (digest + default 0 (data !! Z.to_nat offset) * _PRIME32_5) in
        let digest := mask32 (_rotl32 digest 11 * _PRIME32_1) in
        byte_loop f data (offset + 1) digest
      else (offset, digest)
  end.

(** Every round advances by a byte at least. *)
Definition xxhash32 (data : bytes) (seed : Z) : Z :=
  let length := len data in
  let fuel := S (Z.to_nat length) in
  let '(offset, digest) :=
    if 16 <=? length then
      let v1 := mask32 (seed + _PRIME32_1 + _PRIME32_2) in
      let v2 := mask32 (seed + _PRIME32_2) in
      let v3 := mask32 seed in
      let v4 := mask32 (seed - _PRIME32_1) in
      let '(offset, (v1, v2, v3, v4)) := stripe_loop fuel data 0 v1 v2 v3 v4 in
      (offset, mask32 (_rotl32 v1 1 + _rotl32 v2 7 + _rotl32 v3 12 + _rotl32 v4 18))
    else (0, mask32 (seed + _PRIME32_5)) in
  let digest := mask32 (digest + length) in
  let '(offset, digest) := word_loop fuel data offset digest in
  let '(_, digest) := byte_loop fuel data offset digest in
  let digest := Z.lxor digest (Z.shiftr digest 15) in
  let digest := mask32 (digest * _PRIME32_2) in
  let digest := Z.lxor digest (Z.shiftr digest 13) in
  let digest := mask32 (digest * _PRIME32_3) in
  let digest := Z.lxor digest (Z.shiftr digest 16) in
  mask32 digest.

(** ** Line tags *)

Definition alphabet_at (i : Z) : Z := default 0 (_ALPHABET !! Z.to_nat i).

Definition compute_line_hash (line : str) : str :=
  let line := if endswith [CR] line then slice_to line (-1) else line in
  let normalized := filter (fun c => is_space c = false) line in
  let value := Z.land (xxhash32 (utf8 normalized) 0) 255 in
  [alphabet_at (Z.shiftr value 4); alphabet_at (Z.land value 15)].

Definition BOM : Z := 65279.
Definition strip_bom (line_number : Z) (content : str) : str :=
  if (line_number =? 1) && startswith [BOM] content then slice_from content 1 else content.

Definition format_line_tag (line_number : Z) (content : str) : str :=
  dec line_number ++ lit "#" ++ compute_line_hash (strip_bom line_number content).

Fixpoint format_lines_from (line_number : Z) (lines : list str) : list str :=
  match lines with
  | [] => []
  | line :: lines' =>
      let line := strip_bom line_number line in
      (format_line_tag line_number line ++ lit ":" ++ line)
        :: format_lines_from (line_number + 1) lines'
  end.

Definition format_hash_lines (content : str) (start_line : Z) : str :=
  let content := normalize_newlines content in
  join [NL] (format_lines_from start_line (split_on NL content)).

Record LineTag := mkTag { line : Z; hash : str }.

Inductive hashline_error :=
| NotAString                      (* Line reference must be a string *)
| InvalidReference (value : str)
| IntTooLong                      (* int(): more digits than the limit of 4300 *)
| LineBelowOne (value : str)
| NullContent
| BadContent
| MissingKeys (keys : list str)
| UnexpectedKeys (keys : list str)
| EditsNotArray
| EditNotObject
| InsertWithoutAnchor
| InvalidOperation
| LineDoesNotExist (line total : Z)
| RangeReversed (first last : Z)
| EmptyContent                    (* Append/Prepend/Insert requires non-empty content *)
| NotAdjacent (after before : Z)
| MismatchError (message : str)   (* HashlineMismatchError *)
| NoChanges
| AssertionError.

Definition INT_MAX_STR_DIGITS : Z := 4300.

(** [_TAG_RE.match]: the groups 1 and 2.  The classes of consecutive parts
    have no character in common, so the greedy match is the only one. *)
Definition tag_match (value : str) : option (str * str) :=
  let s := drop_while is_space value in
  let s := drop_while (fun c => (c =? 62) || (c =? 43) || (c =? 45)) s in
  let s := drop_while is_space s in
  let digits := take_while is_digit s in
  let s := drop_while is_space (drop_while is_digit s) in
  match digits, s with
  | _ :: _, 35 :: s =>
      match drop_while is_space s with
      | a :: b :: _ => if member a _ALPHABET && member b _ALPHABET then Some (digits, [a; b]) else None
      | _ => None
      end
  | _, _ => None
  end.

Definition parse_tag (v : value) : result hashline_error LineTag :=
  match v with
  | VStr value =>
      match tag_match value with
      | None => Raise (InvalidReference value)
      | Some (digits, h) =>
          if INT_MAX_STR_DIGITS <? len digits then Raise IntTooLong
          else
            let n := digits_value digits in
            if n <? 1 then Raise (LineBelowOne value) else Ok (mkTag n h)
      end
  | _ => Raise NotAString
  end.

(** ** Edits *)

Inductive edit_op := OpSet | OpReplace | OpAppend | OpPrepend | OpInsert.

#[global] Instance edit_op_eq_dec : EqDecision edit_op.
Proof. solve_decision. Defined.

Record HashlineEdit := mkEdit {
  op : edit_op;
  content : list str;
  tag : option LineTag;
  first : option LineTag;
  last : option LineTag;
  after : option LineTag;
  before : option LineTag
}.

Record HashMismatch := mkMismatch { mm_line : Z; expected : str; actual : str }.

#[global] Instance HashMismatch_eq_dec : EqDecision HashMismatch.
Proof. solve_decision. Defined.

(** ** [HashlineMismatchError._format_message] *)

(** [range(a, b + 1)]. *)
Definition zrange (a b : Z) : list Z :=
  map (fun i => a + Z.of_nat i) (seq 0 (Z.to_nat (b + 1 - a))).

(** [sorted(display)] of a set. *)
Definition sorted_set (l : list Z) : list Z := sort_by Z.leb (remove_dups l).

Definition display_lines (mismatches : list HashMismatch) (total : Z) : list Z :=
  concat (map (fun m => zrange (Z.max 1 (mm_line m - 2)) (Z.min total (mm_line m + 2))) mismatches).

Fixpoint context_lines (mismatches : list HashMismatch) (file_lines : list str)
    (previous : Z) (display : list Z) : list str :=
  match display with
  | [] => []
  | line_number :: display' =>
      let gap := if negb (previous =? -1) && (previous + 1 <? line_number) then [lit "    ..."] else [] in
      let content := default [] (file_lines !! Z.to_nat (line_number - 1)) in
      let rendered := format_line_tag line_number content ++ lit ":" ++ content in
      let mark := if existsb (fun m => mm_line m =? line_number) mismatches
                  then lit ">>> " else lit "    " in
      gap ++ (mark ++ rendered) :: context_lines mismatches file_lines line_number display'
  end.

Definition mismatch_message (mismatches : list HashMismatch) (file_lines : list str) : str :=
  let count := len mismatches in
  let subject := if count =? 1 then lit "line has" else lit "lines have" in
  let header := dec count ++ lit " " ++ subject ++ lit " changed since last read. " ++
    lit "Use the updated LINE#ID references shown below (>>> marks changed lines)." in
  join [NL] (header :: [] ::
    context_lines mismatches file_lines (-1) (sorted_set (display_lines mismatches (len file_lines)))).

(** ** Edit content *)

Definition ascii_alnum (c : Z) : bool :=
  ascii_digit c || ((65 <=? c) && (c <=? 90)) || ((97 <=? c) && (c <=? 122)).

(** [_DISPLAY_PREFIX_RE.match]: what follows the match. *)
Definition display_prefix_rest (l : str) : option str :=
  let s := drop_while is_space l in
  let s := if startswith (lit ">>>") s then slice_from s 3
           else if startswith (lit ">>") s then slice_from s 2 else s in
  let s := drop_while is_space s in
  match take_while is_digit s, drop_while is_digit s with
  | _ :: _, 35 :: s =>
      let id := take_while ascii_alnum s in
      match drop_while ascii_alnum s with
      | 58 :: rest => if (1 <=? len id) && (len id <=? 16) then Some rest else None
      | _ => None
      end
  | _, _ => None
  end.

Definition plus_minus (c : Z) : bool := (c =? 43) || (c =? 45).

(** [_DIFF_PREFIX_RE.match]. *)
Definition diff_prefix_rest (l : str) : option str :=
  match l with
  | c :: rest =>
      if plus_minus c && negb (match rest with d :: _ => plus_minus d | [] => false end)
      then Some rest else None
  | [] => None
  end.

Definition is_match {A B} (f : A -> option B) (x : A) : bool :=
  match f x with Some _ => true | None => false end.

Definition _strip_copied_prefixes (lines : list str) : list str :=
  let ne := filter (fun l => nonempty l = true) lines in
  if negb (nonempty ne) then lines
  else
    let hash_count := len (filter (fun l => is_match display_prefix_rest l = true) ne) in
    let diff_count := len (filter (fun l => is_match diff_prefix_rest l = true) ne) in
    let strip_hash := (0 <? hash_count) && (len ne <=? 2 * hash_count) in
    let strip_diff := negb strip_hash && (0 <? diff_count) && (len ne <=? 2 * diff_count) in
    if strip_hash then map (fun l => default l (display_prefix_rest l)) lines
    else if strip_diff then map (fun l => default l (diff_prefix_rest l)) lines
    else lines.

(** [isinstance(value, list) and all(isinstance(line, str) ...)]. *)
Definition as_strings (l : list value) : option (list str) :=
  mapM (fun v => match v with VStr s => Some s | _ => None end) l.

Definition parse_content (v : value) (allow_null : bool) : result hashline_error (list str) :=
  match v with
  | VNone => if allow_null then Ok [] else Raise NullContent
  | VStr s =>
      let lines := _strip_copied_prefixes (split_on NL s) in
      match rev lines with
      | l :: _ => if nonempty (strip l) then Ok lines else Ok (slice_to lines (-1))
      | [] => Ok lines
      end
  | VList l => match as_strings l with Some ls => Ok ls | None => Raise BadContent end
  | _ => Raise BadContent
  end.

(** [sorted] of strings. *)
Fixpoint str_leb (a b : str) : bool :=
  match a, b with
  | [], _ => true
  | _, [] => false
  | x :: a', y :: b' => (x <? y) || ((x =? y) && str_leb a' b')
  end.

Definition _require_keys (edit : list (str * value)) (required allowed : list str)
    : result hashline_error () :=
  let missing := filter (fun k => dict_has edit k = false) required in
  if nonempty missing then Raise (MissingKeys missing)
  else
    let unexpected := sort_by str_leb (filter (fun k => str_in k allowed = false) (map fst edit)) in
    if nonempty unexpected then Raise (UnexpectedKeys unexpected) else Ok ().

(** [raw[k]] for a key that is known to be present. *)
Definition item (d : list (str * value)) (k : str) : value := default VNone (dict_get d k).

(** [parse_tag(raw[k]) if raw.get(k) is not None else None]. *)
Definition optional_tag (raw : list (str * value)) (k : str) : result hashline_error (option LineTag) :=
  match item raw k with
  | VNone => Ok None
  | v => t ← parse_tag v; Ok (Some t)
  end.

Definition is_op (v : value) (name : str) : bool :=
  match v with VStr s => str_eqb s name | _ => false end.

Definition parse_edit (raw : value) : result hashline_error HashlineEdit :=
  match raw with
  | VDict raw =>
      let o := item raw (lit "op") in
      if is_op o (lit "set") then
        _ ← _require_keys raw [lit "op"; lit "tag"; lit "content"] [lit "op"; lit "tag"; lit "content"];
        t ← parse_tag (item raw (lit "tag"));
        c ← parse_content (item raw (lit "content")) true;
        Ok (mkEdit OpSet c (Some t) None None None None)
      else if is_op o (lit "replace") then
        _ ← _require_keys raw [lit "op"; lit "first"; lit "last"; lit "content"]
                              [lit "op"; lit "first"; lit "last"; lit "content"];
        f ← parse_tag (item raw (lit "first"));
        l ← parse_tag (item raw (lit "last"));
        c ← parse_content (item raw (lit "content")) true;
        Ok (mkEdit OpReplace c None (Some f) (Some l) None None)
      else if is_op o (lit "append") then
        _ ← _require_keys raw [lit "op"; lit "content"] [lit "op"; lit "after"; lit "content"];
        a ← optional_tag raw (lit "after");
        c ← parse_content (item raw (lit "content")) false;
        Ok (mkEdit OpAppend c None None None a None)
      else if is_op o (lit "prepend") then
        _ ← _require_keys raw [lit "op"; lit "content"] [lit "op"; lit "before"; lit "content"];
        b ← optional_tag raw (lit "before");
        c ← parse_content (item raw (lit "content")) false;
        Ok (mkEdit OpPrepend c None None None None b)
      else if is_op o (lit "insert") then
        _ ← _require_keys raw [lit "op"; lit "content"] [lit "op"; lit "after"; lit "before"; lit "content"];
        a ← optional_tag raw (lit "after");
        b ← optional_tag raw (lit "before");
        match a, b with
        | None, None => Raise InsertWithoutAnchor
        | _, _ =>
            let mapped_op := match a, b with
                             | Some _, Some _ => OpInsert
                             | Some _, None => OpAppend
                             | None, _ => OpPrepend
                             end in
            c ← parse_content (item raw (lit "content")) false;
            Ok (mkEdit mapped_op c None None None a b)
        end
      else Raise InvalidOperation
  | _ => Raise EditNotObject
  end.

Definition parse_edits (raw_edits : value) : result hashline_error (list HashlineEdit) :=
  match raw_edits with
  | VList l => mapR parse_edit l
  | _ => Raise EditsNotArray
  end.

(** ** Applying edits *)

Definition _validate_tag (t : LineTag) (file_lines : list str) (mismatches : list HashMismatch)
    : result hashline_error (list HashMismatch) :=
  if (line t <? 1) || (len file_lines <? line t) then Raise (LineDoesNotExist (line t) (len file_lines))
  else
    let actual := compute_line_hash (default [] (file_lines !! Z.to_nat (line t - 1))) in
    if str_eqb actual (hash t) then Ok mismatches
    else Ok (mismatches ++ [mkMismatch (line t) (hash t) actual]).

(** [assert x is not None]. *)
Definition assert_some {A} (x : option A) : result hashline_error A :=
  match x with Some a => Ok a | None => Raise AssertionError end.

Definition validate_optional (t : option LineTag) (file_lines : list str) (mismatches : list HashMismatch) :=
  match t with Some t => _validate_tag t file_lines mismatches | None => Ok mismatches end.

(** The body of the validation loop. *)
Definition validate_edit (file_lines : list str) (mismatches : list HashMismatch) (e : HashlineEdit)
    : result hashline_error (list HashMismatch) :=
  match op e with
  | OpSet => t ← assert_some (tag e); _validate_tag t file_lines mismatches
  | OpReplace =>
      f ← assert_some (first e);
      l ← assert_some (last e);
      if line l <? line f then Raise (RangeReversed (line f) (line l))
      else
        m ← _validate_tag f file_lines mismatches;
        _validate_tag l file_lines m
  | OpAppend =>
      if negb (nonempty (content e)) then Raise EmptyContent
      else validate_optional (after e) file_lines mismatches
  | OpPrepend =>
      if negb (nonempty (content e)) then Raise EmptyContent
      else validate_optional (before e) file_lines mismatches
  | OpInsert =>
      a ← assert_some (after e);
      b ← assert_some (before e);
      if negb (nonempty (content e)) then Raise EmptyContent
      else if negb (line b =? line a + 1) then Raise (NotAdjacent (line a) (line b))
      else
        m ← _validate_tag a file_lines mismatches;
        _validate_tag b file_lines m
  end.

(** Keeps the first of equal elements, as the keys of a [dict] or a [seen]
    set do. *)
Fixpoint dedup_by {A K} `{EqDecision K} (key : A -> K) (seen : list K) (l : list A) : list A :=
  match l with
  | [] => []
  | x :: l' => if bool_decide (key x ∈ seen) then dedup_by key seen l'
               else x :: dedup_by key (key x :: seen) l'
  end.

Definition tag_line (t : option LineTag) : option Z := line <$> t.

(** The tuple [key] of the loop that drops repeated edits. *)
Definition edit_key (e : HashlineEdit) : edit_op * option Z * option Z * list str :=
  match op e with
  | OpSet => (OpSet, tag_line (tag e), None, content e)
  | OpReplace => (OpReplace, tag_line (first e), tag_line (last e), content e)
  | OpAppend => (OpAppend, tag_line (after e), None, content e)
  | OpPrepend => (OpPrepend, tag_line (before e), None, content e)
  | OpInsert => (OpInsert, tag_line (after e), tag_line (before e), content e)
  end.

Fixpoint enumerate_from {A} (i : Z) (l : list A) : list (Z * A) :=
  match l with [] => [] | x :: l' => (i, x) :: enumerate_from (i + 1) l' end.

Definition deduplicate (edits : list HashlineEdit) : list (Z * HashlineEdit) :=
  dedup_by (fun ie => edit_key (snd ie)) [] (enumerate_from 0 edits).

Definition sort_key (total : Z) (item : Z * HashlineEdit) : Z * Z * Z :=
  let '(index, e) := item in
  match op e with
  | OpSet => (- default 0 (tag_line (tag e)), 0, index)
  | OpReplace => (- default 0 (tag_line (last e)), 0, index)
  | OpAppend => (- default (total + 1) (tag_line (after e)), 1, index)
  | OpPrepend => (- default 0 (tag_line (before e)), 2, index)
  | OpInsert => (- default 0 (tag_line (before e)), 3, index)
  end.

(** Comparison of tuples of integers. *)
Definition key_leb (a b : Z * Z * Z) : bool :=
  let '(a1, a2, a3) := a in
  let '(b1, b2, b3) := b in
  (a1 <? b1) || ((a1 =? b1) && ((a2 <? b2) || ((a2 =? b2) && (a3 <=? b3)))).

Definition edit_order (total : Z) (x y : Z * HashlineEdit) : bool :=
  key_leb (sort_key total x) (sort_key total y).

(** The body of the loop that changes [file_lines]. *)
Definition apply_edit (file_lines : list str) (item : Z * HashlineEdit)
    : result hashline_error (list str) :=
  let e := snd item in
  match op e with
  | OpSet =>
      t ← assert_some (tag e);
      Ok (slice_set file_lines (line t - 1) (line t) (content e))
  | OpReplace =>
      f ← assert_some (first e);
      l ← assert_some (last e);
      Ok (slice_set file_lines (line f - 1) (line l) (content e))
  | OpAppend =>
      match after e with
      | Some a => Ok (slice_set file_lines (line a) (line a) (content e))
      | None => if bool_decide (file_lines = [[]]) then Ok (content e)
                else Ok (file_lines ++ content e)
      end
  | OpPrepend =>
      match before e with
      | Some b => let index := line b - 1 in Ok (slice_set file_lines index index (content e))
      | None => if bool_decide (file_lines = [[]]) then Ok (content e)
                else Ok (slice_set file_lines 0 0 (content e))
      end
  | OpInsert =>
      b ← assert_some (before e);
      let index := line b - 1 in Ok (slice_set file_lines index index (content e))
  end.

Definition apply_hashline_edits (text : str) (edits : list HashlineEdit) : result hashline_error str :=
  if negb (nonempty edits) then Ok text
  else
    let file_lines := split_on NL text in
    mismatches ← foldM (validate_edit file_lines) edits [];
    if nonempty mismatches
    then Raise (MismatchError (mismatch_message (dedup_by id [] mismatches) file_lines))
    else
      let order := sort_by (edit_order (len file_lines)) (deduplicate edits) in
      lines ← foldM apply_edit order file_lines;
      let text' := join [NL] lines in
      if str_eqb text' text then Raise NoChanges else Ok text'.

(** ** [strip_hashline_read_output] *)

(** The groups of the pattern, on a line without a newline. *)
Definition read_line_match (body : str) : option (str * str * str) :=
  let indent := take_while is_space body in
  let s := drop_while is_space body in
  let s := if startswith (lit ">>>") s then
             (if nonempty (take_while is_space (slice_from s 3))
              then drop_while is_space (slice_from s 3) else s)
           else s in
  match take_while is_digit s, drop_while is_digit s with
  | (_ :: _) as digits, 35 :: a :: b :: 58 :: rest =>
      if member a _ALPHABET && member b _ALPHABET then Some (indent, digits, rest) else None
  | _, _ => None
  end.

Definition strip_read_line (search : bool) (l : str) : str :=
  let ending := if endswith [NL] l then [NL] else [] in
  let body := if nonempty ending then slice_to l (-1) else l in
  match read_line_match body with
  | None => l
  | Some (indent, line_number, rest) =>
      (if search then indent ++ lit "Line " ++ line_number ++ lit ": " ++ rest else indent ++ rest) ++ ending
  end.

Definition strip_hashline_read_output (text : str) (search : bool) : str :=
  concat (map (strip_read_line search) (splitlines_keep text)).
