(* ===== verification/HashlineFacts.v ===== *)
(** * Hashline v2: the properties of the model in [Hashline.v] *)

From stdpp Require Import base list strings numbers sorting.
From Stdlib Require Import ZArith Lia.
From S2P Require Import Prelude PyStr Utf8 PyVal Splice Hashline.

(** ** Hashes *)

Lemma mask32_range v : 0 <= mask32 v < 2 ^ 32.
Proof.
  unfold mask32. change _MASK32 with (Z.ones 32). rewrite Z.land_ones by lia.
  apply Z.mod_pos_bound. lia.
Qed.

(** The loops of [xxhash32] stop by their conditions, not for want of fuel. *)
Lemma stripe_loop_done fuel data offset v1 v2 v3 v4 :
  len data - offset < Z.of_nat fuel ->
  len data - 16 < fst (stripe_loop fuel data offset v1 v2 v3 v4).
Proof.
  revert offset v1 v2 v3 v4; induction fuel as [|f IH]; intros; cbn [stripe_loop]; [simpl; lia|].
  destruct (Z.leb_spec offset (len data - 16)); [apply IH; lia|simpl; lia].
Qed.
Lemma word_loop_done fuel data offset digest :
  len data - offset < Z.of_nat fuel -> len data < fst (word_loop fuel data offset digest) + 4.
Proof.
  revert offset digest; induction fuel as [|f IH]; intros; cbn [word_loop]; [simpl; lia|].
  destruct (Z.leb_spec (offset + 4) (len data)); [apply IH; lia|simpl; lia].
Qed.
Lemma byte_loop_done fuel data offset digest :
  len data - offset < Z.of_nat fuel -> len data <= fst (byte_loop fuel data offset digest).
Proof.
  revert offset digest; induction fuel as [|f IH]; intros; cbn [byte_loop]; [simpl; lia|].
  destruct (Z.ltb_spec offset (len data)); [apply IH; lia|simpl; lia].
Qed.

Lemma land_range v k : 0 <= k -> 0 <= Z.land v (Z.ones k) < 2 ^ k.
Proof. intros. rewrite Z.land_ones by done. apply Z.mod_pos_bound. lia. Qed.

Lemma alphabet_at_member i : 0 <= i < 16 -> member (alphabet_at i) _ALPHABET = true.
Proof.
  intros H. unfold alphabet_at. apply member_spec.
  destruct (lookup_lt_is_Some_2 _ALPHABET (Z.to_nat i)) as [x Hx].
  { change (length _ALPHABET) with 16%nat. lia. }
  rewrite Hx. simpl. by eapply list_elem_of_lookup_2.
Qed.

Lemma compute_line_hash_shape l :
  exists a b, compute_line_hash l = [a; b] /\ member a _ALPHABET = true /\ member b _ALPHABET = true.
Proof.
  unfold compute_line_hash. set (v := Z.land (xxhash32 _ 0) 255).
  pose proof (land_range (xxhash32 (utf8 (filter (fun c => is_space c = false)
    (if endswith [CR] l then slice_to l (-1) else l))) 0) 8 ltac:(lia)) as Hv.
  change (Z.ones 8) with 255 in Hv. fold v in Hv.
  eexists _, _; split; [reflexivity|]. split; apply alphabet_at_member.
  - rewrite Z.shiftr_div_pow2 by lia. change (2 ^ 4) with 16. change (2 ^ 8) with 256 in Hv.
    split; [apply Z.div_pos; lia|apply Z.div_lt_upper_bound; lia].
  - apply (land_range v 4). lia.
Qed.

(** ** Tags *)

Lemma is_digit_not_space c : is_digit c = true -> is_space c = false.
Proof.
  unfold is_digit, digit_value. destruct (List.find _ nd_zeros) as [z|] eqn:E; [|done].
  intros _. apply List.find_some in E as [Hz Hc]. apply andb_true_iff in Hc as [H1%Z.leb_le H2%Z.leb_le].
  assert (forallb (fun z => forallb (fun k => negb (is_space (z + k))) [0;1;2;3;4;5;6;7;8;9]) nd_zeros = true)
    as Hall by (by vm_compute).
  rewrite forallb_forall in Hall. specialize (Hall z Hz). rewrite forallb_forall in Hall.
  specialize (Hall (c - z)). replace (z + (c - z)) with c in Hall by lia.
  apply negb_true_iff, Hall. assert (c - z = 0 \/ c - z = 1 \/ c - z = 2 \/ c - z = 3 \/ c - z = 4 \/
    c - z = 5 \/ c - z = 6 \/ c - z = 7 \/ c - z = 8 \/ c - z = 9) as Hk by lia. simpl. intuition.
Qed.

Lemma ascii_digit_not_space c : ascii_digit c = true -> is_space c = false.
Proof. intros H. by apply is_digit_not_space, ascii_digit_is_digit. Qed.

Lemma dec_digits n : 0 <= n -> Forall (fun c => is_digit c = true) (dec n).
Proof.
  intros H. rewrite dec_nonneg by done. eapply Forall_impl; [exact (dec_nat_digits n H)|].
  intros c; apply ascii_digit_is_digit.
Qed.

Lemma dec_head n : 0 <= n -> exists d r, dec n = d :: r /\ ascii_digit d = true.
Proof.
  intros H. rewrite dec_nonneg by done. pose proof (dec_nat_nonempty n) as Hne.
  pose proof (dec_nat_digits n H) as Hd. destruct (dec_nat n) as [|d r]; [done|].
  inversion Hd; subst. eauto.
Qed.

Lemma dec_split n s x :
  0 <= n -> is_digit x = false ->
  take_while is_digit (dec n ++ x :: s) = dec n /\ drop_while is_digit (dec n ++ x :: s) = x :: s.
Proof. intros Hn Hx. apply take_while_app; [by apply dec_digits|]. by intros ? ? [= <- <-]. Qed.

Definition decoration (p : str) : Prop :=
  exists s1 m s2, p = s1 ++ m ++ s2 /\ Forall (fun c => is_space c = true) s1 /\
    Forall (fun c => (c =? 62) || plus_minus c = true) m /\ Forall (fun c => is_space c = true) s2.

Lemma mark_not_space c : (c =? 62) || plus_minus c = true -> is_space c = false.
Proof. unfold plus_minus. intros H. assert (c = 62 \/ c = 43 \/ c = 45) as [-> | [-> | ->]] by zbool; done. Qed.

Lemma tag_match_decorated p n h rest :
  decoration p -> 1 <= n ->
  (exists a b, h = [a; b] /\ member a _ALPHABET = true /\ member b _ALPHABET = true) ->
  tag_match (p ++ dec n ++ lit "#" ++ h ++ rest) = Some (dec n, h).
Proof.
  intros (s1 & m & s2 & -> & H1 & Hm & H2) Hn (a & b & -> & Ha & Hb).
  destruct (dec_head n ltac:(lia)) as (d & r & Ed & Hd).
  pose proof (ascii_digit_not_space d Hd) as Hds.
  unfold tag_match. rewrite <- !app_assoc, (drop_while_app_all is_space) by done.
  assert (forall l, drop_while is_space (s2 ++ dec n ++ l) = dec n ++ l) as Hs2.
  { intros l. rewrite drop_while_app_all by done. rewrite Ed. simpl. by rewrite Hds. }
  assert (forall l, drop_while is_space (drop_while (fun c => (c =? 62) || (c =? 43) || (c =? 45))
    (drop_while is_space (m ++ s2 ++ dec n ++ l))) = dec n ++ l) as Hall.
  { intros l. destruct m as [|c m].
    - simpl. rewrite Hs2, Ed. simpl. unfold ascii_digit in Hd.
      replace ((d =? 62) || (d =? 43) || (d =? 45)) with false by zbool. simpl. by rewrite Hds.
    - inversion Hm as [|? ? Hc Hm']; subst. rewrite <- app_comm_cons, drop_while_hd by (by apply mark_not_space).
      rewrite app_comm_cons.
      rewrite (drop_while_app_all (fun c => (c =? 62) || (c =? 43) || (c =? 45)) (c :: m)).
      2: { eapply Forall_impl; [exact Hm|]. intros x. unfold plus_minus. by rewrite orb_assoc. }
      destruct s2 as [|x s2].
      + simpl. rewrite Ed. simpl. unfold ascii_digit in Hd.
        replace ((d =? 62) || (d =? 43) || (d =? 45)) with false by zbool. simpl. by rewrite Hds.
      + inversion H2 as [|? ? Hx _]; subst. simpl.
        destruct ((x =? 62) || (x =? 43) || (x =? 45)) eqn:Ex; [|exact (Hs2 l)].
        exfalso. assert (is_space x = false); [|congruence].
        apply mark_not_space. unfold plus_minus. by rewrite orb_assoc. }
  rewrite Hall. change (lit "#" ++ [a; b] ++ rest) with (35 :: a :: b :: rest).
  destruct (dec_split n (a :: b :: rest) 35 ltac:(lia) eq_refl) as [-> ->].
  rewrite Ed. rewrite drop_while_hd by done.
  assert (is_space a = false) as Has.
  { clear -Ha. apply member_spec in Ha. rewrite list_elem_of_In in Ha. simpl in Ha. intuition; by subst. }
  rewrite drop_while_hd by done. by rewrite Ha, Hb.
Qed.

Lemma format_lines_lookup n lines k :
  format_lines_from n lines !! k =
    (fun l => let l := strip_bom (n + Z.of_nat k) l in
              format_line_tag (n + Z.of_nat k) l ++ lit ":" ++ l) <$> lines !! k.
Proof.
  revert n k; induction lines as [|l lines IH]; intros n k; [by destruct k|].
  destruct k as [|k]; cbn [format_lines_from].
  - simpl. by rewrite Z.add_0_r.
  - cbn [lookup list_lookup]. rewrite IH. by replace (n + 1 + Z.of_nat k) with (n + Z.of_nat (S k)) by lia.
Qed.

Lemma length_format_lines n lines : length (format_lines_from n lines) = length lines.
Proof. revert n; induction lines; intros; simpl; auto. Qed.

(** Characters that occur nowhere in a list are found by no lookup. *)
Lemma digit_not_newline c : ascii_digit c = true -> (c =? NL) = false.
Proof. unfold ascii_digit, NL. zbool. Qed.

Lemma dec_no_newline n : 0 <= n -> member NL (dec n) = false.
Proof.
  intros H. rewrite dec_nonneg by done. pose proof (dec_nat_digits n H) as Hd.
  induction Hd as [|c s Hc Hs IH]; [done|]. simpl. by rewrite digit_not_newline.
Qed.

Lemma format_line_tag_no_newline n l : 0 <= n -> member NL (format_line_tag n l) = false.
Proof.
  intros H. unfold format_line_tag. rewrite !member_app, dec_no_newline by done.
  destruct (compute_line_hash_shape (strip_bom n l)) as (a & b & -> & Ha & Hb).
  assert (forall c, member c _ALPHABET = true -> (c =? NL) = false) as Hnl.
  { intros c Hc. apply member_spec in Hc. rewrite list_elem_of_In in Hc. simpl in Hc. intuition; by subst. }
  simpl. by rewrite !Hnl.
Qed.

Lemma strip_bom_member n l c : member c l = false -> member c (strip_bom n l) = false.
Proof.
  unfold strip_bom. destruct (_ && _); [|done]. destruct l as [|x l]; [done|].
  rewrite slice_from_pos by lia. change (Z.to_nat 1) with 1%nat. simpl. intros H.
  by apply orb_false_iff in H as [_ H].
Qed.

Lemma format_hash_lines_split text n :
  0 <= n ->
  split_on NL (format_hash_lines text n) = format_lines_from n (split_on NL (normalize_newlines text)).
Proof.
  intros Hn. unfold format_hash_lines. apply split_on_join.
  - pose proof (split_on_nonempty NL (normalize_newlines text)) as H.
    by destruct (split_on NL (normalize_newlines text)).
  - pose proof (split_on_pieces NL (normalize_newlines text)) as H. revert n Hn.
    induction H as [|l ls Hl Hls IH]; intros n Hn; simpl; constructor.
    + rewrite !member_app, format_line_tag_no_newline by done. by apply strip_bom_member.
    + apply IH. lia.
Qed.

Lemma normalize_newlines_cons c s :
  (c =? CR) = false -> normalize_newlines (c :: s) = c :: normalize_newlines s.
Proof.
  intros H. unfold normalize_newlines. rewrite !replace_char_map.
  assert (replace [CR; NL] [NL] (c :: s) = c :: replace [CR; NL] [NL] s) as ->.
  { unfold replace. cbn [replace_go startswith]. by rewrite (Z.eqb_sym CR c), H. }
  simpl. by rewrite H.
Qed.

Lemma split_on_head sep c s :
  (c =? sep) = false ->
  exists w ws, split_on sep s = w :: ws /\ split_on sep (c :: s) = (c :: w) :: ws.
Proof.
  intros H. simpl. rewrite H. pose proof (split_on_nonempty sep s) as Hne.
  destruct (split_on sep s) as [|w ws]; [done|]. eauto.
Qed.

Lemma first_line_head c s w ws :
  split_on NL (normalize_newlines s) = w :: ws -> startswith [c] w = true ->
  (c =? CR) = false -> startswith [c] s = true.
Proof.
  intros E H Hc. destruct s as [|x s]; [injection E as <- <-; done|].
  destruct (Z.eqb_spec x CR) as [->|Hx].
  - exfalso. assert (exists t, normalize_newlines (CR :: s) = NL :: t) as [t Et].
    { unfold normalize_newlines. rewrite replace_char_map. unfold replace.
      destruct s as [|y s]; [by eexists|]. cbn [replace_go startswith].
      rewrite Z.eqb_refl. cbn [andb]. rewrite andb_true_r. destruct (NL =? y); by eexists. }
    rewrite Et in E. simpl in E. injection E as <- <-. done.
  - rewrite normalize_newlines_cons in E by (by apply Z.eqb_neq). simpl in E.
    destruct (Z.eqb_spec x NL) as [->|Hn]; [injection E as <- <-; done|].
    destruct (split_on NL (normalize_newlines s)); injection E as <- <-; simpl in *; exact H.
Qed.

Lemma snapshot_lookup text k l :
  startswith [BOM; BOM] text = false ->
  split_on NL (normalize_newlines text) !! k = Some l ->
  let l' := strip_bom (1 + Z.of_nat k) l in
  split_on NL (normalize_newlines (strip_bom 1 text)) !! k = Some l' /\
  strip_bom (1 + Z.of_nat k) l' = l'.
Proof.
  intros Hb Hl. cbv zeta.
  change (strip_bom 1 text) with (if startswith [BOM] text then slice_from text 1 else text).
  destruct (startswith [BOM] text) eqn:Eb.
  - destruct text as [|c t]; [done|]. cbn [startswith] in Eb, Hb.
    apply andb_true_iff in Eb as [Ec%Z.eqb_eq _]. subst c. rewrite Z.eqb_refl in Hb. cbn [andb] in Hb. rewrite slice_from_pos by lia. change (drop (Z.to_nat 1) (BOM :: t)) with t.
    rewrite normalize_newlines_cons in Hl by done.
    destruct (split_on_head NL BOM (normalize_newlines t) eq_refl) as (w & ws & E1 & E2).
    rewrite E2 in Hl. rewrite E1. destruct k as [|k].
    + simpl in Hl. injection Hl as <-. cbn [lookup list_lookup]. change (1 + Z.of_nat 0) with 1.
      assert (startswith [BOM] w = false) as Hw.
      { destruct (startswith [BOM] w) eqn:Ew; [|done].
        apply (first_line_head BOM t w ws E1) in Ew; [|done]. cbn [startswith] in Ew. congruence. }
      change (strip_bom 1 (BOM :: w)) with (slice_from (BOM :: w) 1).
      rewrite slice_from_pos by lia. change (drop (Z.to_nat 1) (BOM :: w)) with w.
      split; [done|]. unfold strip_bom. by rewrite Hw, andb_false_r.
    + simpl in Hl. unfold strip_bom. replace (1 + Z.of_nat (S k) =? 1) with false by zbool. done.
  - rewrite Hl. destruct k as [|k]; [|unfold strip_bom; by replace (1 + Z.of_nat (S k) =? 1) with false by zbool].
    destruct (split_on NL (normalize_newlines text)) as [|w ws] eqn:E; [done|].
    simpl in Hl. injection Hl as ->. assert (startswith [BOM] l = false) as Hw.
    { destruct (startswith [BOM] l) eqn:Ew; [|done].
      apply (first_line_head BOM text l ws E) in Ew; [|done]. congruence. }
    unfold strip_bom. rewrite Hw. by rewrite andb_false_r, Hw, andb_false_r.
Qed.

(** ** Reading back what was shown *)

Lemma read_line_match_tagged n l :
  0 <= n ->
  read_line_match (format_line_tag n l ++ lit ":" ++ l) = Some ([], dec n, l).
Proof.
  intros Hn. unfold read_line_match, format_line_tag.
  destruct (compute_line_hash_shape (strip_bom n l)) as (a & b & -> & Ha & Hb).
  destruct (dec_head n Hn) as (d & r & Ed & Hd). pose proof (ascii_digit_not_space d Hd) as Hds.
  rewrite <- !app_assoc. change (lit "#" ++ [a; b] ++ lit ":" ++ l) with (35 :: a :: b :: 58 :: l).
  destruct (dec_split n (a :: b :: 58 :: l) 35 Hn eq_refl) as [E1 E2].
  assert (take_while is_space (dec n ++ 35 :: a :: b :: 58 :: l) = []) as -> by (rewrite Ed; simpl; by rewrite Hds).
  assert (drop_while is_space (dec n ++ 35 :: a :: b :: 58 :: l) = dec n ++ 35 :: a :: b :: 58 :: l) as ->
    by (rewrite Ed; simpl; by rewrite Hds).
  assert (startswith (lit ">>>") (dec n ++ 35 :: a :: b :: 58 :: l) = false) as ->.
  { rewrite Ed. change (lit ">>>") with [62; 62; 62]. cbn [startswith app].
    replace (62 =? d) with false; [done|]. symmetry. apply Z.eqb_neq. intros <-. discriminate. }
  rewrite E1, E2, Ed. by rewrite Ha, Hb.
Qed.

Lemma endswith_nl_false l : Forall (fun c => is_linebreak c = false) l -> endswith [NL] l = false.
Proof.
  intros H. unfold endswith. apply Forall_rev in H. destruct (rev l) as [|c r]; [done|].
  inversion H; subst. cbn [rev app startswith]. replace (NL =? c) with false; [done|].
  symmetry. apply Z.eqb_neq. intros <-. discriminate.
Qed.

Lemma endswith_nl_snoc l : endswith [NL] (l ++ [NL]) = true.
Proof. apply endswith_spec. by exists l. Qed.

Lemma strip_tagged_last n l :
  0 <= n -> Forall (fun c => is_linebreak c = false) (format_line_tag n l ++ lit ":" ++ l) ->
  strip_read_line false (format_line_tag n l ++ lit ":" ++ l) = l.
Proof.
  intros Hn H. unfold strip_read_line. rewrite endswith_nl_false by done. cbn [nonempty].
  rewrite read_line_match_tagged by done. by rewrite app_nil_r.
Qed.

Lemma strip_tagged n l :
  0 <= n ->
  strip_read_line false ((format_line_tag n l ++ lit ":" ++ l) ++ [NL]) = l ++ [NL].
Proof.
  intros Hn. unfold strip_read_line. rewrite endswith_nl_snoc. cbn [nonempty].
  rewrite slice_to_snoc, read_line_match_tagged by done. done.
Qed.

Lemma alphabet_no_linebreak c : member c _ALPHABET = true -> is_linebreak c = false.
Proof. intros Hc. apply member_spec in Hc. rewrite list_elem_of_In in Hc. simpl in Hc. intuition; by subst. Qed.

Lemma tagged_no_linebreak n l :
  0 <= n -> Forall (fun c => is_linebreak c = false) l ->
  Forall (fun c => is_linebreak c = false) (format_line_tag n l ++ lit ":" ++ l).
Proof.
  intros Hn Hl. unfold format_line_tag.
  destruct (compute_line_hash_shape (strip_bom n l)) as (a & b & -> & Ha & Hb).
  rewrite <- !app_assoc. apply Forall_app; split.
  - rewrite dec_nonneg by done. eapply Forall_impl; [exact (dec_nat_digits n Hn)|].
    intros c Hc. unfold ascii_digit, is_linebreak in *. zbool.
  - change (lit "#" ++ [a; b] ++ lit ":" ++ l) with (35 :: a :: b :: 58 :: l).
    do 4 (constructor; [first [done|by apply alphabet_no_linebreak]|]). exact Hl.
Qed.

Lemma strip_bom_Forall (P : Z -> Prop) n l : Forall P l -> Forall P (strip_bom n l).
Proof.
  unfold strip_bom. destruct (_ && _); [|done]. rewrite slice_from_pos by lia. apply Forall_drop.
Qed.

(** The lines a listing that starts at line [n] shows. *)
Fixpoint shown_lines (n : Z) (lines : list str) : list str :=
  match lines with [] => [] | l :: ls => strip_bom n l :: shown_lines (n + 1) ls end.

Lemma strip_format_lines n lines :
  0 <= n -> Forall (Forall (fun c => is_linebreak c = false)) lines ->
  concat (map (strip_read_line false) (splitlines_keep (join [NL] (format_lines_from n lines))))
    = join [NL] (shown_lines n lines).
Proof.
  intros Hn H. revert n Hn. induction H as [|l ls Hl Hls IH]; intros n Hn; [done|].
  cbn [format_lines_from shown_lines]. set (l' := strip_bom n l).
  assert (Forall (fun c => is_linebreak c = false) (format_line_tag n l' ++ lit ":" ++ l')) as Hr
    by (apply tagged_no_linebreak; [done|by apply strip_bom_Forall]).
  destruct ls as [|l2 ls].
  - cbn [format_lines_from join]. rewrite splitlines_keep_last; [|by destruct (format_line_tag n l')|done].
    cbn [map concat shown_lines join]. rewrite app_nil_r. by apply strip_tagged_last.
  - rewrite !join_cons_ne by done. change ([NL] ++ ?x) with (NL :: x).
    rewrite splitlines_keep_line by done. cbn [map concat]. rewrite strip_tagged, IH by (done || lia).
    by rewrite <- app_assoc.
Qed.

(** ** Anchors *)

Definition opt_list {A} (o : option A) : list A := match o with Some a => [a] | None => [] end.

(** The anchors an edit is checked against. *)
Definition anchors (e : HashlineEdit) : list LineTag :=
  match op e with
  | OpSet => opt_list (tag e)
  | OpReplace => opt_list (first e) ++ opt_list (last e)
  | OpAppend => opt_list (after e)
  | OpPrepend => opt_list (before e)
  | OpInsert => opt_list (after e) ++ opt_list (before e)
  end.

(** The anchor names an existing line and carries the hash the line has now. *)
Definition fresh_anchor (file_lines : list str) (t : LineTag) : Prop :=
  1 <= line t <= len file_lines /\
  exists l, file_lines !! Z.to_nat (line t - 1) = Some l /\ compute_line_hash l = hash t.

Lemma validate_tag_inv t fl m m' :
  _validate_tag t fl m = Ok m' -> exists x, m' = m ++ x /\ (x = [] -> fresh_anchor fl t).
Proof.
  unfold _validate_tag. destruct ((line t <? 1) || (len fl <? line t)) eqn:E; [done|].
  apply orb_false_iff in E as [H1%Z.ltb_ge H2%Z.ltb_ge].
  destruct (str_eqb _ _) eqn:Eh; intros [= <-].
  - exists []. rewrite app_nil_r. split; [done|]. intros _. split; [lia|]. apply str_eqb_eq in Eh.
    destruct (lookup_lt_is_Some_2 fl (Z.to_nat (line t - 1))) as [l Hl]; [unfold len in *; lia|].
    rewrite Hl in Eh. eauto.
  - eexists; split; [done|]. done.
Qed.

Lemma validate_tag_fresh t fl m : fresh_anchor fl t -> _validate_tag t fl m = Ok m.
Proof.
  intros (H & l & Hl & Hh). unfold _validate_tag.
  replace ((line t <? 1) || (len fl <? line t)) with false by zbool.
  by rewrite Hl; simpl; rewrite Hh, str_eqb_refl.
Qed.

(** The structural conditions an edit must meet besides fresh anchors. *)
Definition edit_shape (e : HashlineEdit) : Prop :=
  match op e with
  | OpSet => tag e <> None
  | OpReplace => exists f l, first e = Some f /\ last e = Some l /\ line f <= line l
  | OpAppend | OpPrepend => content e <> []
  | OpInsert => content e <> [] /\
      exists a b, after e = Some a /\ before e = Some b /\ line b = line a + 1
  end.

Definition edit_valid (fl : list str) (e : HashlineEdit) : Prop :=
  edit_shape e /\ Forall (fresh_anchor fl) (anchors e).

Ltac split_validate H :=
  repeat match type of H with
  | (if ?c then _ else _) = Ok _ => destruct c eqn:?; [discriminate H|]
  | (_ ≫= _) = Ok _ => let E := fresh "E" in let v := fresh "v" in apply bind_Ok in H as (v & E & H)
  end.

Lemma assert_some_Ok {A} (x : option A) a : assert_some x = Ok a -> x = Some a.
Proof. destruct x; simpl; congruence. Qed.

Lemma nonempty_true {A} (l : list A) : negb (nonempty l) = false -> l <> [].
Proof. by destruct l. Qed.

Lemma validate_edit_inv fl m e m' :
  validate_edit fl m e = Ok m' -> exists x, m' = m ++ x /\ (x = [] -> edit_valid fl e).
Proof.
  unfold validate_edit, edit_valid, edit_shape, anchors. destruct (op e); intros H; split_validate H;
    repeat match goal with E : assert_some _ = Ok _ |- _ => apply assert_some_Ok in E; rewrite E in * end.
  - apply validate_tag_inv in H as (x & -> & Hx). exists x. split; [done|]. intros ->.
    split; [done|]. constructor; [by apply Hx|done].
  - apply validate_tag_inv in E1 as (x1 & -> & H1). apply validate_tag_inv in H as (x2 & -> & H2).
    exists (x1 ++ x2). rewrite app_assoc. split; [done|]. intros [-> ->]%app_nil.
    split; [|constructor; [by apply H1|constructor; [by apply H2|done]]]. eexists _, _. repeat split; try done. zbool.
  - destruct (after e) as [a|]; simpl in H.
    + apply validate_tag_inv in H as (x & -> & Hx). exists x. split; [done|]. intros ->.
      split; [by apply nonempty_true|]. constructor; [by apply Hx|done].
    + injection H as <-. exists []. rewrite app_nil_r. split; [done|]. intros _. split; [by apply nonempty_true|done].
  - destruct (before e) as [a|]; simpl in H.
    + apply validate_tag_inv in H as (x & -> & Hx). exists x. split; [done|]. intros ->.
      split; [by apply nonempty_true|]. constructor; [by apply Hx|done].
    + injection H as <-. exists []. rewrite app_nil_r. split; [done|]. intros _. split; [by apply nonempty_true|done].
  - apply validate_tag_inv in E1 as (x1 & -> & H1). apply validate_tag_inv in H as (x2 & -> & H2).
    exists (x1 ++ x2). rewrite app_assoc. split; [done|]. intros [-> ->]%app_nil.
    split; [|constructor; [by apply H1|constructor; [by apply H2|done]]]. split; [by apply nonempty_true|].
    eexists _, _. repeat split; try done. apply negb_false_iff in Heqb0. zbool.
Qed.

Lemma validate_edit_valid fl m e : edit_valid fl e -> validate_edit fl m e = Ok m.
Proof.
  unfold validate_edit, edit_valid, edit_shape, anchors. destruct (op e).
  - intros [Ht Ha]. destruct (tag e) as [t|]; [|done]. inversion Ha; subst. by apply validate_tag_fresh.
  - intros [(f & l & Ef & El & Hle) Ha]. rewrite Ef, El in *. simpl in *.
    inversion Ha as [|? ? Hf Ha']; subst. inversion Ha'; subst.
    destruct (Z.ltb_spec (line l) (line f)); [lia|]. rewrite validate_tag_fresh by done. by apply validate_tag_fresh.
  - intros [Hc Ha]. destruct (content e); [done|]. simpl. destruct (after e) as [t|]; [|done].
    inversion Ha; subst. by apply validate_tag_fresh.
  - intros [Hc Ha]. destruct (content e); [done|]. simpl. destruct (before e) as [t|]; [|done].
    inversion Ha; subst. by apply validate_tag_fresh.
  - intros [(Hc & a & b & Ea & Eb & Hab) Ha]. rewrite Ea, Eb in *. destruct (content e); [done|].
    simpl in *. inversion Ha as [|? ? Hf Ha']; subst. inversion Ha'; subst.
    rewrite Hab, Z.eqb_refl. simpl. rewrite validate_tag_fresh by done. by apply validate_tag_fresh.
Qed.

Lemma validate_all fl es : foldM (validate_edit fl) es [] = Ok [] <-> Forall (edit_valid fl) es.
Proof.
  split.
  - assert (forall m m', foldM (validate_edit fl) es m = Ok m' ->
      exists x, m' = m ++ x /\ (x = [] -> Forall (edit_valid fl) es)) as H.
    { induction es as [|e es IH]; intros m m' H; simpl in H.
      - injection H as <-. exists []. by rewrite app_nil_r.
      - destruct (validate_edit fl m e) as [m1|] eqn:E; [|done].
        apply validate_edit_inv in E as (x & -> & Hx). apply IH in H as (y & -> & Hy).
        exists (x ++ y). rewrite app_assoc. split; [done|]. intros [-> ->]%app_nil. constructor; auto. }
    intros E. apply H in E as (x & Ex & Hx). simpl in Ex. subst x. by apply Hx.
  - induction 1 as [|e es He Hes IH]; simpl; [done|]. by rewrite validate_edit_valid.
Qed.

(** ** Simultaneous replacement *)

(** An edit with an anchor; the others extend the end or the beginning. *)
Definition anchored (e : HashlineEdit) : Prop := anchors e <> [].

Definition lineno (t : option LineTag) : Z := default 0 (tag_line t).

(** The region of the snapshot an anchored edit replaces. *)
Definition edit_splice (e : HashlineEdit) : splice str :=
  match op e with
  | OpSet => mkSplice (lineno (tag e) - 1) (lineno (tag e)) (content e)
  | OpReplace => mkSplice (lineno (first e) - 1) (lineno (last e)) (content e)
  | OpAppend => mkSplice (lineno (after e)) (lineno (after e)) (content e)
  | OpPrepend | OpInsert => mkSplice (lineno (before e) - 1) (lineno (before e) - 1) (content e)
  end.

Definition replaces (e : HashlineEdit) : bool :=
  match op e with OpSet | OpReplace => true | _ => false end.
Definition appends (e : HashlineEdit) : bool :=
  match op e with OpAppend => true | _ => false end.

(** An append right behind the last line of a replaced region. *)
Definition append_clash (a b : HashlineEdit) : Prop :=
  appends a = true /\ replaces b = true /\ sp_start (edit_splice a) = sp_stop (edit_splice b).

(** Two edits of different regions. *)
Definition apart (a b : HashlineEdit) : Prop :=
  (sp_stop (edit_splice a) <= sp_start (edit_splice b) \/ sp_stop (edit_splice b) <= sp_start (edit_splice a)) /\
  ~ append_clash a b /\ ~ append_clash b a.

Lemma apply_edit_splice fl i e :
  edit_shape e -> anchored e ->
  let s := edit_splice e in
  apply_edit fl (i, e) = Ok (slice_set fl (sp_start s) (sp_stop s) (sp_content s)).
Proof.
  unfold edit_shape, anchored, anchors, apply_edit, edit_splice, lineno, tag_line. cbn [snd].
  destruct (op e).
  - destruct (tag e); done.
  - intros (f & l & -> & -> & _) _. done.
  - intros _. by destruct (after e).
  - intros _. by destruct (before e).
  - intros (_ & a & b & _ & -> & _) _. done.
Qed.

Lemma edit_splice_in fl e :
  edit_valid fl e -> anchored e -> splice_in (len fl) (edit_splice e).
Proof.
  unfold edit_valid, edit_shape, anchored, anchors, edit_splice, splice_in, lineno, tag_line.
  destruct (op e).
  - intros [_ Ha] Hne. destruct (tag e) as [t|]; [|done]. inversion Ha as [|? ? [? _] _]; subst. simpl. lia.
  - intros [(f & l & -> & -> & Hle) Ha] _. inversion Ha as [|? ? [? _] Ha']; subst.
    inversion Ha' as [|? ? [? _] _]; subst. simpl. lia.
  - intros [_ Ha] Hne. destruct (after e) as [t|]; [|done]. inversion Ha as [|? ? [? _] _]; subst. simpl. lia.
  - intros [_ Ha] Hne. destruct (before e) as [t|]; [|done]. inversion Ha as [|? ? [? _] _]; subst. simpl. lia.
  - intros [(_ & a & b & -> & -> & Hab) Ha] _. inversion Ha as [|? ? [? _] Ha']; subst.
    inversion Ha' as [|? ? [? _] _]; subst. simpl. lia.
Qed.

Lemma key_leb_spec a1 a2 a3 b1 b2 b3 :
  key_leb (a1, a2, a3) (b1, b2, b3) = true <->
  a1 < b1 \/ a1 = b1 /\ (a2 < b2 \/ a2 = b2 /\ a3 <= b3).
Proof.
  unfold key_leb. by rewrite !orb_true_iff, !andb_true_iff, !orb_true_iff, !andb_true_iff,
    !Z.ltb_lt, !Z.eqb_eq, Z.leb_le.
Qed.
Lemma key_leb_total x y : key_leb x y = false -> key_leb y x = true.
Proof.
  destruct x as [[? ?] ?], y as [[? ?] ?]. intros H. apply key_leb_spec.
  apply not_true_iff_false in H. rewrite key_leb_spec in H. lia.
Qed.
Lemma key_leb_trans x y z : key_leb x y = true -> key_leb y z = true -> key_leb x z = true.
Proof. destruct x as [[? ?] ?], y as [[? ?] ?], z as [[? ?] ?]. rewrite !key_leb_spec. lia. Qed.

(** The first component of the sort key. *)
Definition anchor_line (e : HashlineEdit) : Z :=
  match op e with
  | OpSet => lineno (tag e)
  | OpReplace => lineno (last e)
  | OpAppend => lineno (after e)
  | OpPrepend | OpInsert => lineno (before e)
  end.

Definition priority (e : HashlineEdit) : Z :=
  match op e with OpSet | OpReplace => 0 | OpAppend => 1 | OpPrepend => 2 | OpInsert => 3 end.

Lemma edit_order_line total i j a b :
  anchored a -> anchored b -> edit_order total (i, a) (j, b) = true ->
  anchor_line b < anchor_line a \/ anchor_line b = anchor_line a /\ priority a <= priority b.
Proof.
  unfold edit_order, sort_key, anchor_line, priority, anchored, anchors, lineno, tag_line.
  intros Ha Hb H.
  destruct (op a), (op b);
    repeat match goal with
    | H : opt_list ?x <> [] |- _ => destruct x; [clear H|done]
    end; apply key_leb_spec in H; simpl in *; lia.
Qed.

Lemma replaces_nonempty e :
  edit_shape e -> replaces e = true -> sp_start (edit_splice e) < sp_stop (edit_splice e).
Proof.
  unfold edit_shape, replaces, edit_splice, lineno, tag_line. destruct (op e); try done; [simpl; lia|].
  intros (f & l & -> & -> & Hle) _. simpl. lia.
Qed.

Lemma order_descending fl total i j a b :
  edit_valid fl a -> edit_valid fl b -> anchored a -> anchored b -> apart a b ->
  edit_order total (i, a) (j, b) = true ->
  sp_stop (edit_splice b) <= sp_start (edit_splice a).
Proof.
  intros Va Vb Ha Hb [Hap [Hc1 Hc2]] Ho. apply edit_order_line in Ho; [|done..].
  pose proof (edit_splice_in fl a Va Ha) as [Ia _]. pose proof (edit_splice_in fl b Vb Hb) as [Ib _].
  pose proof (replaces_nonempty a (proj1 Va)) as Na. pose proof (replaces_nonempty b (proj1 Vb)) as Nb.
  unfold append_clash in *. clear Va Vb Ha Hb.
  unfold edit_splice, anchor_line, priority, appends, replaces in *.
  destruct (op a), (op b); simpl in *; try specialize (Na eq_refl); try specialize (Nb eq_refl); try lia.
  all: destruct Hap; try lia; exfalso; apply Hc2; repeat split; lia.
Qed.

Lemma dedup_by_spec {A K} `{EqDecision K} (key : A -> K) seen l :
  NoDup (map key (dedup_by key seen l)) /\
  (forall x, x ∈ dedup_by key seen l -> x ∈ l /\ key x ∉ seen).
Proof.
  revert seen; induction l as [|x l IH]; intros seen; simpl; [split; [constructor|inversion 1]|].
  case_bool_decide as Hx.
  - destruct (IH seen) as [H1 H2]. split; [done|]. intros y Hy. apply H2 in Hy as [? ?]. split; [by right|done].
  - destruct (IH (key x :: seen)) as [H1 H2]. split.
    + simpl. constructor; [|done]. intros (y & Ey & Hy)%list_elem_of_fmap.
      apply H2 in Hy as [_ Hy]. apply Hy. rewrite <- Ey. by left.
    + intros y [->|Hy]%elem_of_cons; [split; [by left|done]|].
      apply H2 in Hy as [? Hy]. split; [by right|]. intros ?. apply Hy. by right.
Qed.

Lemma enumerate_from_elem {A} i (l : list A) x : x ∈ enumerate_from i l -> snd x ∈ l.
Proof.
  revert i; induction l as [|y l IH]; intros i; simpl; [inversion 1|].
  intros [->|H]%elem_of_cons; [by left|right; eauto].
Qed.

Section Simultaneous.
Variables (text : str) (edits : list HashlineEdit).
Let fl := split_on NL text.
Let order := sort_by (edit_order (len fl)) (deduplicate edits).
Hypothesis edits_valid : Forall (edit_valid fl) edits.

Lemma order_elem x : x ∈ order -> snd x ∈ edits.
Proof.
  unfold order. rewrite sort_by_perm. intros Hx. apply dedup_by_spec in Hx as [Hx _].
  by eapply enumerate_from_elem.
Qed.

Lemma order_valid x : x ∈ order -> edit_valid fl (snd x).
Proof. intros Hx. rewrite Forall_forall in edits_valid. apply edits_valid. by apply order_elem. Qed.

Lemma order_sorted : StronglySorted (fun a b => edit_order (len fl) a b = true) order.
Proof.
  apply sort_by_sorted.
  - intros x y. apply key_leb_total.
  - intros x y z. apply key_leb_trans.
Qed.

Hypothesis edits_anchored : Forall anchored edits.

Lemma apply_all_splices l ord :
  (forall x, x ∈ ord -> edit_shape (snd x) /\ anchored (snd x)) ->
  foldM apply_edit ord l =
    Ok (fold_left (fun l s => slice_set l (sp_start s) (sp_stop s) (sp_content s))
          (map (fun x => edit_splice (snd x)) ord) l).
Proof.
  revert l; induction ord as [|[i e] ord IH]; intros l H; [done|]. cbn [foldM map fold_left].
  destruct (H (i, e) ltac:(by left)) as [Hs Ha]. rewrite (apply_edit_splice l i e Hs Ha).
  apply IH. intros x Hx. apply H. by right.
Qed.

Hypothesis edits_apart :
  forall a b, a ∈ edits -> b ∈ edits -> edit_key a <> edit_key b -> apart a b.

Lemma order_splices :
  let asc := rev (map (fun x => edit_splice (snd x)) order) in
  ascending 0 (len fl) asc /\ foldM apply_edit order fl = Ok (weave 0 fl asc).
Proof.
  assert (forall x, x ∈ order -> anchored (snd x)) as Hanch.
  { intros x Hx. rewrite Forall_forall in edits_anchored. apply edits_anchored. by apply order_elem. }
  set (asc := rev _). cbv zeta.
  assert (Forall (splice_in (len fl)) (map (fun x => edit_splice (snd x)) order)) as Hin.
  { apply Forall_forall. intros s (x & -> & Hx)%list_elem_of_fmap.
    apply edit_splice_in; [by apply order_valid|by apply Hanch]. }
  assert (StronglySorted (fun a b => sp_stop b <= sp_start a) (map (fun x => edit_splice (snd x)) order)) as Hs.
  { assert (StronglySorted (fun x y => sp_stop (edit_splice (snd y)) <= sp_start (edit_splice (snd x))) order) as Hs.
    { eapply (sorted_upgrade (fun x => edit_key (snd x))); [exact order_sorted| |].
      - unfold order. rewrite sort_by_perm. apply dedup_by_spec.
      - intros [i a] [j b] Ha Hb Hk Ho.
        eapply (order_descending fl); [by apply (order_valid (i, a))|by apply (order_valid (j, b))
          |by apply (Hanch (i, a))|by apply (Hanch (j, b))| |exact Ho].
        apply edits_apart; [by apply (order_elem (i, a))|by apply (order_elem (j, b))|done]. }
    clear -Hs. induction Hs as [|x l Hs IH Hall]; simpl; constructor; [done|].
    apply Forall_forall. intros s (y & -> & Hy)%list_elem_of_fmap. rewrite Forall_forall in Hall. by apply Hall. }
  split; [apply descending_ascending; try done; apply len_nonneg|].
  rewrite apply_all_splices.
  - f_equal. by apply slice_sets_weave.
  - intros x Hx. split; [by apply order_valid|by apply Hanch].
Qed.
End Simultaneous.

(** ** What the parser produces *)

Definition parsed_ok (e : HashlineEdit) : Prop :=
  match op e with
  | OpSet => tag e <> None
  | OpReplace => first e <> None /\ last e <> None
  | OpInsert => after e <> None /\ before e <> None
  | _ => True
  end.

Lemma parse_edit_ok v e : parse_edit v = Ok e -> parsed_ok e.
Proof.
  unfold parse_edit. destruct v; try done. cbv zeta.
  repeat match goal with |- context [if is_op ?a ?b then _ else _] => destruct (is_op a b) end; intros H;
    repeat match type of H with (_ ≫= _) = Ok _ => apply bind_Ok in H as (? & ? & H) end; try done.
  1-4: injection H as <-; done.
  destruct x0, x1; try done; apply bind_Ok in H as (? & ? & H); injection H as <-; done.
Qed.

Lemma mapR_Forall {E A B} (P : B -> Prop) (f : A -> result E B) l l' :
  (forall x y, f x = Ok y -> P y) -> mapR f l = Ok l' -> Forall P l'.
Proof.
  intros Hf. revert l'; induction l as [|x l IH]; intros l'; simpl; [intros [= <-]; done|].
  destruct (f x) eqn:E1; [|done]. destruct (mapR f l); [|done]. intros [= <-]. constructor; eauto.
Qed.

Lemma validate_tag_no_assert t fl m : _validate_tag t fl m <> Raise AssertionError.
Proof. unfold _validate_tag. by repeat case_match. Qed.

Lemma bind_no_assert {A B} (m : result hashline_error A) (f : A -> result hashline_error B) :
  m <> Raise AssertionError -> (forall a, f a <> Raise AssertionError) ->
  (a ← m; f a) <> Raise AssertionError.
Proof. destruct m; simpl; [auto|]. congruence. Qed.

Lemma validate_edit_no_assert fl m e : parsed_ok e -> validate_edit fl m e <> Raise AssertionError.
Proof.
  unfold parsed_ok, validate_edit, validate_optional. destruct (op e).
  - destruct (tag e); [|done]. intros _. apply validate_tag_no_assert.
  - destruct (first e), (last e); try (by intros []). intros _. cbn [assert_some mbind result_bind].
    case_match; [done|]. apply bind_no_assert; intros; apply validate_tag_no_assert.
  - intros _. case_match; [done|]. case_match; [apply validate_tag_no_assert|done].
  - intros _. case_match; [done|]. case_match; [apply validate_tag_no_assert|done].
  - destruct (after e), (before e); try (by intros []). intros _. cbn [assert_some mbind result_bind].
    case_match; [done|]. case_match; [done|].
    apply bind_no_assert; intros; apply validate_tag_no_assert.
Qed.

Lemma foldM_no_assert {A B} (P : B -> Prop) (f : A -> B -> result hashline_error A) l a :
  (forall a x, P x -> f a x <> Raise AssertionError) -> Forall P l ->
  foldM f l a <> Raise AssertionError.
Proof.
  intros Hf H. revert a; induction H as [|x l Hx Hl IH]; intros a; simpl; [done|].
  destruct (f a x) eqn:E; [done|]. specialize (Hf a x Hx). congruence.
Qed.

Lemma apply_edit_no_raise l x : parsed_ok (snd x) -> apply_edit l x <> Raise AssertionError.
Proof.
  destruct x as [i e]. unfold parsed_ok, apply_edit. cbn [snd]. destruct (op e).
  - by destruct (tag e).
  - destruct (first e), (last e); naive_solver.
  - intros _. by repeat case_match.
  - intros _. by repeat case_match.
  - destruct (before e); naive_solver.
Qed.

(** ** Properties *)

(** C2: Whenever edits are anchored at current lines, concern different regions
    and no append follows a replaced line, [apply_hashline_edits] computes
    their simultaneous replacement in the snapshot: the regions of the distinct
    edits, put in ascending order, are replaced by their contents and every
    other line is kept; a result equal to the input is refused. *)
Theorem hashline_edits_simultaneous text edits :
  edits <> [] ->
  Forall (edit_valid (split_on NL text)) edits -> Forall anchored edits ->
  (forall a b, a ∈ edits -> b ∈ edits -> edit_key a <> edit_key b -> apart a b) ->
  exists asc, asc ≡ₚ map (fun x => edit_splice (snd x)) (deduplicate edits) /\
    ascending 0 (len (split_on NL text)) asc /\
    let text' := join [NL] (weave 0 (split_on NL text) asc) in
    apply_hashline_edits text edits = if str_eqb text' text then Raise NoChanges else Ok text'.
Proof.
  intros Hne Hv Ha Hap. destruct (order_splices text edits Hv Ha Hap) as [Hasc Hfold].
  eexists; split; [|split; [exact Hasc|]].
  - rewrite <- Permutation_rev. by rewrite sort_by_perm.
  - unfold apply_hashline_edits. destruct edits as [|e es]; [done|]. cbn [nonempty negb].
    rewrite (proj2 (validate_all _ _) Hv). cbn [mbind result_bind nonempty]. by rewrite Hfold.
Qed.

(** Nothing is written on stale information: when [apply_hashline_edits]
    returns a text, every anchor of every edit named an existing line and
    carried the hash of that line's present content, and the text differs from
    the old one (unless there were no edits at all). *)
Theorem hashline_anchors_checked text edits text' :
  apply_hashline_edits text edits = Ok text' ->
  edits = [] /\ text' = text \/
  text' <> text /\ Forall (fun e => edit_shape e /\ Forall (fresh_anchor (split_on NL text)) (anchors e)) edits.
Proof.
  unfold apply_hashline_edits. destruct edits as [|e es]; [intros [= <-]; by left|].
  cbn [nonempty negb]. intros H. apply bind_Ok in H as (m & Em & H).
  destruct m as [|? ?]; [|done]. cbn [nonempty] in H. apply bind_Ok in H as (lines & El & H).
  destruct (str_eqb _ text) eqn:E; [done|]. injection H as <-. right. split.
  - intros E'. by rewrite E', str_eqb_refl in E.
  - by apply validate_all.
Qed.

(** Edits that [parse_edits] accepts never trip an [assert] of
    [apply_hashline_edits], whatever the text: every failure is one of the
    documented [ValueError]s. *)
Theorem parsed_edits_no_assertion raw edits text :
  parse_edits raw = Ok edits -> apply_hashline_edits text edits <> Raise AssertionError.
Proof.
  intros Hp. assert (Forall parsed_ok edits) as Hok.
  { destruct raw; try done. eapply mapR_Forall; [|exact Hp]. intros; by eapply parse_edit_ok. }
  unfold apply_hashline_edits. case_match; [done|]. apply bind_no_assert.
  - eapply foldM_no_assert; [|exact Hok]. intros; by apply validate_edit_no_assert.
  - intros m. case_match; [done|]. apply bind_no_assert.
    + eapply (foldM_no_assert (fun x => parsed_ok (snd x))); [intros; by apply apply_edit_no_raise|].
      apply Forall_forall. intros x Hx. rewrite Forall_forall in Hok. apply Hok.
      by eapply order_elem.
    + intros lines. by case_match.
Qed.

(** The tags of a listing work as anchors: each line that
    [format_hash_lines] shows, even with the markers of a mismatch report in
    front, parses to a tag with that line's number, and the tag passes
    [_validate_tag] on the snapshot the edit tool takes of the same text. *)
Theorem line_tag_roundtrip text k rendered p :
  startswith [BOM; BOM] text = false -> decoration p ->
  len (dec (1 + Z.of_nat k)) <= INT_MAX_STR_DIGITS ->
  split_on NL (format_hash_lines text 1) !! k = Some rendered ->
  exists t, parse_tag (VStr (p ++ rendered)) = Ok t /\ line t = 1 + Z.of_nat k /\
    forall m, _validate_tag t (split_on NL (normalize_newlines (strip_bom 1 text))) m = Ok m.
Proof.
  intros Hb Hp Hd Hr. rewrite format_hash_lines_split, format_lines_lookup in Hr by lia.
  destruct (split_on NL (normalize_newlines text) !! k) as [l|] eqn:El; [|done].
  cbn [fmap option_fmap option_map] in Hr. apply (inj Some) in Hr. subst rendered.
  destruct (snapshot_lookup text k l Hb El) as [Hl Hi]. set (l' := strip_bom (1 + Z.of_nat k) l) in *.
  unfold parse_tag, format_line_tag. rewrite Hi, <- !app_assoc.
  rewrite (tag_match_decorated p (1 + Z.of_nat k) (compute_line_hash l') (lit ":" ++ l') Hp ltac:(lia))
    by apply compute_line_hash_shape.
  destruct (Z.ltb_spec INT_MAX_STR_DIGITS (len (dec (1 + Z.of_nat k)))); [lia|].
  rewrite dec_nonneg, dec_nat_value by lia. destruct (Z.ltb_spec (1 + Z.of_nat k) 1); [lia|].
  eexists; split; [done|]. split; [done|]. intros m. apply validate_tag_fresh. split; simpl.
  - apply lookup_lt_Some in Hl. unfold len. lia.
  - exists l'. split; [|done]. by replace (Z.to_nat (1 + Z.of_nat k - 1)) with k by lia.
Qed.

(** [strip_hashline_read_output] undoes the listing of a text whose only
    line boundaries are newlines: it gives back exactly the lines shown, and the
    text itself for a listing that does not start at a byte order mark. *)
Theorem read_output_roundtrip text n :
  0 <= n -> Forall (Forall (fun c => is_linebreak c = false)) (split_on NL (normalize_newlines text)) ->
  strip_hashline_read_output (format_hash_lines text n) false
    = join [NL] (shown_lines n (split_on NL (normalize_newlines text))) /\
  (1 < n \/ n = 1 /\ startswith [BOM] text = false ->
   strip_hashline_read_output (format_hash_lines text n) false = normalize_newlines text).
Proof.
  intros Hn H. unfold strip_hashline_read_output, format_hash_lines. rewrite strip_format_lines by done.
  split; [done|]. intros Hc. rewrite <- (join_split_on NL (normalize_newlines text)) at 2. f_equal.
  assert (forall ls n, 1 < n -> shown_lines n ls = ls) as Hid.
  { induction ls as [|l ls IH]; intros m Hm; simpl; [done|].
    rewrite IH by lia. unfold strip_bom. by replace (m =? 1) with false by zbool. }
  destruct Hc as [Hc|[-> Hc]]; [by apply Hid|].
  destruct (split_on NL (normalize_newlines text)) as [|l ls] eqn:E; [done|]. simpl. rewrite Hid by lia.
  unfold strip_bom. destruct (startswith [BOM] l) eqn:Eb; [|by rewrite andb_false_r].
  apply (first_line_head BOM text l ls E) in Eb; [|done]. congruence.
Qed.

(** Sample data: a file of three lines and anchors to them. *)
Definition sample_text : str := lit "a" ++ [NL] ++ lit "b" ++ [NL] ++ lit "c".
Definition sample_tag (n : Z) (l : str) : option LineTag := Some (mkTag n (compute_line_hash l)).
Definition set_line (n : Z) (l : str) (c : list str) : HashlineEdit :=
  mkEdit OpSet c (sample_tag n l) None None None None.
Definition append_line (n : Z) (l : str) (c : list str) : HashlineEdit :=
  mkEdit OpAppend c None None None (sample_tag n l) None.

(** The condition on appends is needed: replacing line 1 by two lines and
    appending after line 1 puts the appended line between the two new ones, and
    deleting line 1 and appending after it puts the line after line 2, although
    both edits refer to one snapshot and no region overlaps. *)
Theorem append_after_set_misplaced :
  apply_hashline_edits sample_text
    [set_line 1 (lit "a") [lit "p"; lit "q"]; append_line 1 (lit "a") [lit "X"]]
    = Ok (join [NL] [lit "p"; lit "X"; lit "q"; lit "b"; lit "c"]) /\
  apply_hashline_edits sample_text
    [set_line 1 (lit "a") []; append_line 1 (lit "a") [lit "X"]]
    = Ok (join [NL] [lit "b"; lit "X"; lit "c"]).
Proof. by vm_compute. Qed.

Lemma hashline_edits_simultaneous_witness :
  exists asc, asc ≡ₚ [mkSplice 0 1 [lit "p"; lit "q"]; mkSplice 2 2 [lit "X"]] /\
    ascending 0 3 asc.
Proof.
  destruct (hashline_edits_simultaneous sample_text
    [set_line 1 (lit "a") [lit "p"; lit "q"]; append_line 2 (lit "b") [lit "X"]])
    as (asc & H1 & H2 & _).
  - done.
  - repeat constructor; cbn; try done; try lia; eexists; split; reflexivity.
  - by repeat constructor.
  - intros a b Ha Hb Hk. rewrite !elem_of_cons in Ha, Hb.
    destruct Ha as [-> | [-> |Ha]]; [| |inversion Ha]; destruct Hb as [-> | [-> |Hb]];
      try (by destruct Hk); try (inversion Hb).
    all: split; [cbn; lia|]; split; intros (H1 & H2 & H3); cbn in *; congruence || lia.
  - exists asc. split; [exact H1|exact H2].
Defined.

Lemma hashline_anchors_checked_witness :
  join [NL] [lit "z"; lit "b"; lit "c"] <> sample_text /\
  Forall (fun e => edit_shape e /\ Forall (fresh_anchor (split_on NL sample_text)) (anchors e))
    [set_line 1 (lit "a") [lit "z"]].
Proof.
  destruct (hashline_anchors_checked sample_text [set_line 1 (lit "a") [lit "z"]]
    (join [NL] [lit "z"; lit "b"; lit "c"])) as [[H _]|H]; [by vm_compute|discriminate H|exact H].
Defined.

Lemma parsed_edits_no_assertion_witness :
  exists edits,
    parse_edits (VList [VDict [(lit "op", VStr (lit "append")); (lit "content", VStr (lit "x"))]]) = Ok edits /\
    apply_hashline_edits sample_text edits <> Raise AssertionError.
Proof.
  eexists; split; [reflexivity|].
  by apply (parsed_edits_no_assertion
    (VList [VDict [(lit "op", VStr (lit "append")); (lit "content", VStr (lit "x"))]])).
Defined.

Lemma line_tag_roundtrip_witness :
  exists t, parse_tag (VStr (lit ">>> " ++ lit "2#XH:b")) = Ok t /\ line t = 2 /\
    forall m, _validate_tag t (split_on NL (normalize_newlines (strip_bom 1 sample_text))) m = Ok m.
Proof.
  apply (line_tag_roundtrip sample_text 1 (lit "2#XH:b") (lit ">>> ")); try (by vm_compute).
  exists [], (lit ">>>"), (lit " "). by repeat constructor.
Defined.

Lemma read_output_roundtrip_witness :
  strip_hashline_read_output (format_hash_lines sample_text 1) false = sample_text.
Proof.
  rewrite (proj2 (read_output_roundtrip sample_text 1 ltac:(lia) ltac:(by repeat constructor))); [by vm_compute|].
  by right.
Defined.
