(* ===== verification/CodexPatch.v ===== *)
(** * The [apply_patch] language

    Models [kolega_code/agent/tool_backend/codex_patch.py]: the parser of the
    patch text and the application of the chunks of an update to the lines of
    a file, with its four grades of line matching. *)

From stdpp Require Import base list strings numbers.
From Stdlib Require Import ZArith Lia.
From S2P Require Import Prelude PyStr PyVal Splice.

Inductive PatchKind := KAdd | KDelete | KUpdate.

Record PatchChunk := mkChunk {
  context : option str;
  chunk_lines : list (Z * str);
  end_of_file : bool
}.

Record PatchOperation := mkOp {
  kind : PatchKind;
  op_path : str;
  move_to : option str;
  add_lines : list str;
  chunks : list PatchChunk
}.

Inductive patch_error :=
| NoBegin | NoEnd
| BadAddLine (line : str)
| EmptyAdd (path : str)
| EofNotFinal                     (* '*** End of File' must be the final line *)
| EofTwice
| BadUpdateLine (line : str)
| EmptyUpdate (path : str)
| BadMarker (marker : str)
| NoOperations
| MissingPath (prefix : str)
| ContextMismatch (number : Z) (context : str)
| ChunkMismatch (number : Z) (preview : str).

Definition ADD : str := lit "*** Add File: ".
Definition DELETE : str := lit "*** Delete File: ".
Definition UPDATE : str := lit "*** Update File: ".
Definition MOVE : str := lit "*** Move to: ".
Definition EOF : str := lit "*** End of File".

(** ** Parsing *)

Definition _path_after (line prefix : str) : result patch_error str :=
  let path := strip (slice_from line (len prefix)) in
  if nonempty path then Ok path else Raise (MissingPath (strip prefix)).

Definition _is_operation_marker (line : str) : bool :=
  startswith ADD line || startswith DELETE line || startswith UPDATE line.

(** The loop over the lines of an Add File. *)
Fixpoint add_loop (lines : list str) (added : list str) : result patch_error (list str * list str) :=
  match lines with
  | [] => Ok (added, [])
  | l :: lines' =>
      if startswith (lit "*** ") l then Ok (added, lines)
      else if startswith (lit "+") l then add_loop lines' (added ++ [slice_from l 1])
      else Raise (BadAddLine l)
  end.

Record update_state := mkUpd {
  u_chunks : list PatchChunk;
  u_context : option str;
  u_lines : list (Z * str);
  u_eof : bool
}.

Definition finish_chunk (u : update_state) : update_state :=
  let cs := match u_context u, u_lines u, u_eof u with
            | None, [], false => u_chunks u
            | c, ls, e => u_chunks u ++ [mkChunk c ls e]
            end in
  mkUpd cs None [] false.

Definition change_prefix (c : Z) : bool := (c =? 43) || (c =? 45) || (c =? 32).

(** One line of an Update File. *)
Definition update_line (u : update_state) (l : str) : result patch_error update_state :=
  if str_eqb l (lit "@@") || startswith (lit "@@ ") l then
    if u_eof u then Raise EofNotFinal
    else
      let u := finish_chunk u in
      Ok (mkUpd (u_chunks u) (if startswith (lit "@@ ") l then Some (slice_from l 3) else None)
                (u_lines u) (u_eof u))
  else if str_eqb l EOF then
    if u_eof u then Raise EofTwice else Ok (mkUpd (u_chunks u) (u_context u) (u_lines u) true)
  else
    match l with
    | c :: rest =>
        if change_prefix c then
          if u_eof u then Raise EofNotFinal
          else Ok (mkUpd (u_chunks u) (u_context u) (u_lines u ++ [(c, rest)]) (u_eof u))
        else Raise (BadUpdateLine l)
    | [] => Raise (BadUpdateLine l)
    end.

Fixpoint update_loop (lines : list str) (u : update_state)
    : result patch_error (update_state * list str) :=
  match lines with
  | [] => Ok (u, [])
  | l :: lines' =>
      if _is_operation_marker l then Ok (u, lines)
      else u' ← update_line u l; update_loop lines' u'
  end.

(** One operation: its marker is the first line. *)
Definition parse_operation (marker : str) (rest : list str)
    : result patch_error (PatchOperation * list str) :=
  if startswith ADD marker then
    path ← _path_after marker ADD;
    '(added, rest) ← add_loop rest [];
    if nonempty added then Ok (mkOp KAdd path None added [], rest) else Raise (EmptyAdd path)
  else if startswith DELETE marker then
    path ← _path_after marker DELETE;
    Ok (mkOp KDelete path None [] [], rest)
  else if startswith UPDATE marker then
    path ← _path_after marker UPDATE;
    '(move, rest) ← match rest with
                    | l :: rest' => if startswith MOVE l
                                    then m ← _path_after l MOVE; Ok (Some m, rest')
                                    else Ok (None, rest)
                    | [] => Ok (None, rest)
                    end;
    '(u, rest) ← update_loop rest (mkUpd [] None [] false);
    let cs := u_chunks (finish_chunk u) in
    if negb (nonempty cs) && match move with None => true | Some _ => false end
    then Raise (EmptyUpdate path)
    else Ok (mkOp KUpdate path move [] cs, rest)
  else Raise (BadMarker marker).

(** The loop over the operations; each consumes its marker line at least. *)
Fixpoint parse_operations (fuel : nat) (lines : list str) (operations : list PatchOperation)
    : result patch_error (list PatchOperation) :=
  match fuel, lines with
  | S f, marker :: rest =>
      '(o, rest') ← parse_operation marker rest;
      parse_operations f rest' (operations ++ [o])
  | _, _ => Ok operations
  end.

Definition parse_codex_patch (raw : str) : result patch_error (list PatchOperation) :=
  let text := normalize_newlines raw in
  match splitlines text with
  | [] => Raise NoBegin
  | first :: rest =>
      if negb (str_eqb (strip first) (lit "*** Begin Patch")) then Raise NoBegin
      else match rev rest with
           | [] => Raise NoEnd
           | last :: body =>
               if negb (str_eqb (strip last) (lit "*** End Patch")) then Raise NoEnd
               else
                 ops ← parse_operations (length body) (rev body) [];
                 if nonempty ops then Ok ops else Raise NoOperations
           end
  end.

(** ** Matching lines *)

Definition smart_char (c : Z) : Z :=
  if (c =? 8216) || (c =? 8217) || (c =? 8218) || (c =? 8219) then 39
  else if (c =? 8220) || (c =? 8221) || (c =? 8222) || (c =? 8223) then 34 else c.

(** [_forms(value)[mode]]. *)
Definition _forms (mode : nat) (value : str) : str :=
  match mode with
  | 0%nat => value
  | 1%nat => rstrip value
  | 2%nat => strip value
  | _ => map smart_char value
  end.

(** [range(a, b)]. *)
Definition py_range (a b : Z) : list Z := map (fun i => a + Z.of_nat i) (seq 0 (Z.to_nat (b - a))).

Definition line_at (lines : list str) (index : Z) : str := default [] (lines !! Z.to_nat index).

(** The first success, over the modes in order and the candidates in order. *)
Fixpoint first_mode {A} (modes : list nat) (candidates : list A) (ok : nat -> A -> bool)
    : option A :=
  match modes with
  | [] => None
  | m :: modes' =>
      match List.find (ok m) candidates with
      | Some i => Some i
      | None => first_mode modes' candidates ok
      end
  end.
Definition MODES : list nat := [0; 1; 2; 3]%nat.

Definition _find_line (lines : list str) (needle : str) (start : Z) : option Z :=
  first_mode MODES (py_range start (len lines))
    (fun mode index => str_eqb (_forms mode (line_at lines index)) (_forms mode needle)).

(** [[_forms(line)[mode] for line in lines[index : index + len(needle)]] == wanted]. *)
Definition lines_match (mode : nat) (lines needle : list str) (index : Z) : bool :=
  bool_decide (map (_forms mode) (slice lines index (index + len needle)) = map (_forms mode) needle).

Definition _find_sequence (lines needle : list str) (start : Z) (at_end : bool) : option (Z * Z) :=
  if len lines <? len needle then None
  else
    let candidates := if at_end then [len lines - len needle]
                      else py_range start (len lines - len needle + 1) in
    match first_mode MODES candidates
            (fun mode index => negb (index <? start) && lines_match mode lines needle index) with
    | Some index => Some (index, index + len needle)
    | None => None
    end.

Definition _dominant_ending (content : str) : str :=
  let crlf := count_sub [CR; NL] content in
  let lf := count_char NL content - crlf in
  let cr := count_char CR content - crlf in
  if negb (crlf =? 0) && (lf <=? crlf) && (cr <=? crlf) then [CR; NL]
  else if negb (cr =? 0) && (lf <? cr) then [CR] else [NL].

(** ** Applying the chunks of an update *)

Definition old_lines (chunk : PatchChunk) : list str :=
  map snd (filter (fun pt => (fst pt =? 32) || (fst pt =? 45) = true) (chunk_lines chunk)).
Definition new_lines (chunk : PatchChunk) : list str :=
  map snd (filter (fun pt => (fst pt =? 32) || (fst pt =? 43) = true) (chunk_lines chunk)).

(** The state of the loop: the lines, the cursor and the number of the chunk. *)
Definition apply_chunk (s : list str * Z * Z) (chunk : PatchChunk)
    : result patch_error (list str * Z * Z) :=
  let '(lines, cursor, number) := s in
  hint ← match context chunk with
         | None => Ok cursor
         | Some c =>
             match _find_line lines c cursor with
             | None => Raise (ContextMismatch number c)
             | Some context_index => Ok (context_index + 1)
             end
         end;
  let old := old_lines chunk in
  let new := new_lines chunk in
  '(start, stop) ←
    (if negb (nonempty old) then
       let start := if end_of_file chunk then len lines else hint in Ok (start, start)
     else
       match _find_sequence lines old hint (end_of_file chunk) with
       | None => Raise (ChunkMismatch number (join [NL] (slice_to old 5)))
       | Some m => Ok m
       end);
  Ok (slice_set lines start stop new, start + len new, number + 1).

Definition apply_update_chunks (content : str) (cs : list PatchChunk) : result patch_error str :=
  let dominant := _dominant_ending content in
  let normalized := normalize_newlines content in
  let had_final_newline := endswith [NL] normalized in
  let lines := split_on NL normalized in
  let lines := if had_final_newline then slice_to lines (-1) else lines in
  '(lines, _, _) ← foldM apply_chunk cs (lines, 0, 1);
  let text := join [NL] lines in
  let text := if had_final_newline then text ++ [NL] else text in
  Ok (if str_eqb dominant [NL] then text else replace [NL] dominant text).
