(* ===== verification/CodexPatchFacts.v ===== *)
(** * The [apply_patch] language: the properties of the model in [CodexPatch.v] *)

From stdpp Require Import base list strings numbers.
From Stdlib Require Import ZArith Lia.
From S2P Require Import Prelude PyStr PyVal Splice CodexPatch.

(** ** A printer, for the grammar the module documents *)

Definition print_chunk (c : PatchChunk) : list str :=
  (match context c with None => lit "@@" | Some x => lit "@@ " ++ x end)
    :: map (fun pt => fst pt :: snd pt) (chunk_lines c)
    ++ (if end_of_file c then [EOF] else []).

Definition print_op (o : PatchOperation) : list str :=
  match kind o with
  | KAdd => (ADD ++ op_path o) :: map (fun l => 43 :: l) (add_lines o)
  | KDelete => [DELETE ++ op_path o]
  | KUpdate =>
      (UPDATE ++ op_path o)
        :: (match move_to o with None => [] | Some m => [MOVE ++ m] end)
        ++ concat (map print_chunk (chunks o))
  end.

Definition print_patch (ops : list PatchOperation) : str :=
  join [NL] (lit "*** Begin Patch" :: concat (map print_op ops) ++ [lit "*** End Patch"]).

(** ** What can be printed *)

Abbreviation one_line := (Forall (fun c => is_linebreak c = false)) (only parsing).

Definition path_ok (p : str) : Prop := one_line p /\ stripped p /\ p <> [].

Definition chunk_ok (c : PatchChunk) : Prop :=
  (context c <> None \/ chunk_lines c <> [] \/ end_of_file c = true) /\
  (forall x, context c = Some x -> one_line x) /\
  Forall (fun pt => change_prefix (fst pt) = true /\ one_line (snd pt)) (chunk_lines c).

(** Only the last chunk reaches the end of the file. *)
Fixpoint eof_last (cs : list PatchChunk) : Prop :=
  match cs with
  | [] | [_] => True
  | c :: cs' => end_of_file c = false /\ eof_last cs'
  end.

Definition op_ok (o : PatchOperation) : Prop :=
  path_ok (op_path o) /\
  match kind o with
  | KAdd => move_to o = None /\ chunks o = [] /\ add_lines o <> [] /\ Forall one_line (add_lines o)
  | KDelete => move_to o = None /\ chunks o = [] /\ add_lines o = []
  | KUpdate => add_lines o = [] /\ (chunks o <> [] \/ move_to o <> None) /\
      (forall m, move_to o = Some m -> path_ok m) /\
      Forall chunk_ok (chunks o) /\ eof_last (chunks o)
  end.

(** ** Reading back *)

Lemma slice_from_app {A} (a b : list A) : slice_from (a ++ b) (len a) = b.
Proof.
  rewrite slice_from_pos by apply len_nonneg. unfold len. rewrite Nat2Z.id. apply drop_app_length.
Qed.

Lemma path_after_print prefix p : path_ok p -> _path_after (prefix ++ p) prefix = Ok p.
Proof.
  intros (_ & Hs & Hne). unfold _path_after. rewrite slice_from_app, strip_stripped by done.
  by destruct p.
Qed.

(** What may follow the lines of an operation. *)
Definition op_start (rest : list str) : Prop :=
  match rest with [] => True | l :: _ => _is_operation_marker l = true end.

Lemma marker_stars l : _is_operation_marker l = true -> startswith (lit "*** ") l = true.
Proof.
  unfold _is_operation_marker. rewrite !orb_true_iff, !startswith_spec.
  intros [[[r ->]|[r ->]]|[r ->]];
    [exists (lit "Add File: " ++ r)|exists (lit "Delete File: " ++ r)|exists (lit "Update File: " ++ r)];
    reflexivity.
Qed.

Lemma print_op_start o rest :
  exists l ls, print_op o ++ rest = l :: ls /\ _is_operation_marker l = true.
Proof.
  unfold print_op. destruct (kind o); eexists _, _; (split; [reflexivity|]);
    unfold _is_operation_marker; rewrite startswith_app; by rewrite ?orb_true_r.
Qed.

Lemma add_loop_print ls rest added :
  op_start rest -> add_loop (map (fun l => 43 :: l) ls ++ rest) added = Ok (added ++ ls, rest).
Proof.
  intros Hr. revert added; induction ls as [|l ls IH]; intros added; cbn [map app add_loop].
  - rewrite app_nil_r. destruct rest as [|m rest]; [done|]. cbn [add_loop].
    by rewrite marker_stars.
  - change (startswith (lit "*** ") (43 :: l)) with false. change (startswith (lit "+") (43 :: l)) with true.
    cbv iota. rewrite slice_from_pos by lia. change (drop (Z.to_nat 1) (43 :: l)) with l.
    by rewrite IH, <- app_assoc.
Qed.

Lemma change_prefix_cases c : change_prefix c = true -> c = 43 \/ c = 45 \/ c = 32.
Proof. unfold change_prefix. zbool. Qed.

Lemma update_line_change u c t :
  change_prefix c = true -> u_eof u = false ->
  _is_operation_marker (c :: t) = false /\
  update_line u (c :: t) = Ok (mkUpd (u_chunks u) (u_context u) (u_lines u ++ [(c, t)]) false).
Proof.
  intros Hc He. unfold update_line. rewrite Hc, He.
  assert (str_eqb (c :: t) (lit "@@") = false /\ str_eqb (c :: t) EOF = false) as [-> ->].
  { split; apply bool_decide_eq_false; intros [= Hx _]; subst; discriminate. }
  by destruct (change_prefix_cases c Hc) as [-> | [-> | ->]].
Qed.

Lemma update_loop_changes pts rest u :
  Forall (fun pt => change_prefix (fst pt) = true /\ one_line (snd pt)) pts -> u_eof u = false ->
  update_loop (map (fun pt => fst pt :: snd pt) pts ++ rest) u =
    update_loop rest (mkUpd (u_chunks u) (u_context u) (u_lines u ++ pts) false).
Proof.
  intros H. revert u; induction H as [|[c t] pts [Hc Ht] Hpts IH]; intros u He.
  - simpl. rewrite app_nil_r. destruct u; simpl in *; by subst.
  - cbn [map app update_loop fst snd]. destruct (update_line_change u c t Hc He) as [-> ->].
    cbn [mbind result_bind]. rewrite IH by done. simpl. by rewrite <- app_assoc.
Qed.

Lemma update_loop_chunk ch rest u :
  chunk_ok ch -> u_eof u = false ->
  update_loop (print_chunk ch ++ rest) u =
    update_loop rest (mkUpd (u_chunks (finish_chunk u)) (context ch) (chunk_lines ch) (end_of_file ch)).
Proof.
  intros (_ & _ & Hl) He. unfold print_chunk. rewrite <- app_comm_cons, <- app_assoc.
  cbn [update_loop].
  assert (forall h, h = match context ch with None => lit "@@" | Some x => lit "@@ " ++ x end ->
    _is_operation_marker h = false /\
    update_line u h = Ok (mkUpd (u_chunks (finish_chunk u)) (context ch) [] false)) as Hh.
  { intros h ->. unfold update_line. rewrite He. destruct (context ch) as [x|]; split; try done.
    rewrite startswith_app, orb_true_r. cbn [finish_chunk u_lines u_eof u_chunks].
    change 3 with (len (lit "@@ ")) at 1. by rewrite slice_from_app. }
  destruct (Hh _ eq_refl) as [-> ->]. cbn [mbind result_bind].
  rewrite update_loop_changes by done. cbn [u_chunks u_context u_lines app].
  destruct (end_of_file ch); done.
Qed.

Lemma finish_chunk_pending d ch :
  chunk_ok ch ->
  u_chunks (finish_chunk (mkUpd d (context ch) (chunk_lines ch) (end_of_file ch))) = d ++ [ch].
Proof.
  intros (Hne & _). unfold finish_chunk. cbn [u_context u_lines u_eof u_chunks].
  destruct ch as [[c|] [|l ls] []]; simpl in *; try done. by destruct Hne as [|[]].
Qed.

Lemma update_loop_chunks cs rest u :
  Forall chunk_ok cs -> eof_last cs -> op_start rest -> u_eof u = false ->
  exists u', update_loop (concat (map print_chunk cs) ++ rest) u = Ok (u', rest) /\
    u_chunks (finish_chunk u') = u_chunks (finish_chunk u) ++ cs.
Proof.
  intros H. revert u; induction H as [|ch cs Hch Hcs IH]; intros u Hlast Hr He.
  - exists u. rewrite app_nil_r. split; [|done]. destruct rest as [|l rest]; [done|].
    simpl in *. by rewrite Hr.
  - cbn [map concat]. rewrite <- app_assoc, update_loop_chunk by done.
    destruct cs as [|ch2 cs].
    + eexists. split; [destruct rest as [|l rest]; simpl in *; [reflexivity|by rewrite Hr]|].
      by apply finish_chunk_pending.
    + destruct Hlast as [He2 Hlast].
      destruct (IH (mkUpd (u_chunks (finish_chunk u)) (context ch) (chunk_lines ch) (end_of_file ch)))
        as (u' & E1 & E2); try done.
      exists u'. split; [done|]. rewrite E2, finish_chunk_pending by done. by rewrite <- app_assoc.
Qed.

Lemma move_not_marker m : startswith MOVE (MOVE ++ m) = true.
Proof. apply startswith_app. Qed.

(** The first line of a printed chunk, or of what follows, is no move. *)
Lemma no_move cs rest :
  op_start rest ->
  match concat (map print_chunk cs) ++ rest with [] => true | l :: _ => negb (startswith MOVE l) end = true.
Proof.
  intros Hr. destruct cs as [|c cs].
  - destruct rest as [|l rest]; [done|]. simpl in Hr |- *. unfold _is_operation_marker in Hr.
    apply negb_true_iff. destruct (startswith MOVE l) eqn:E; [|done]. exfalso.
    apply startswith_spec in E as [r ->]. discriminate Hr.
  - cbn [map concat app]. unfold print_chunk at 1. cbn [app]. by destruct (context c).
Qed.

Lemma parse_operation_print o rest :
  op_ok o -> op_start rest ->
  exists marker ls, print_op o = marker :: ls /\ parse_operation marker (ls ++ rest) = Ok (o, rest).
Proof.
  intros [Hp Ho] Hr. destruct o as [k p mv al cs]. unfold print_op.
  cbn [kind op_path move_to add_lines chunks] in *. destruct k.
  - destruct Ho as (-> & -> & Hne & Hl). eexists _, _; split; [reflexivity|].
    unfold parse_operation. rewrite startswith_app, path_after_print by done. cbn [mbind result_bind].
    rewrite add_loop_print by done. cbn [mbind result_bind app]. by destruct al.
  - destruct Ho as (-> & -> & ->). eexists _, _; split; [reflexivity|].
    unfold parse_operation. change (startswith ADD (DELETE ++ p)) with false.
    rewrite startswith_app, path_after_print by done. done.
  - destruct Ho as (-> & Hne & Hmv & Hcs & Hlast). eexists _, _; split; [reflexivity|].
    unfold parse_operation. change (startswith ADD (UPDATE ++ p)) with false.
    change (startswith DELETE (UPDATE ++ p)) with false.
    rewrite startswith_app, path_after_print by done. cbn [mbind result_bind].
    destruct (update_loop_chunks cs rest (mkUpd [] None [] false) Hcs Hlast Hr eq_refl) as (u & E1 & E2).
    change (u_chunks (finish_chunk (mkUpd [] None [] false)) ++ cs) with cs in E2.
    assert (forall (mvo : option str), (cs <> [] \/ mvo <> None) ->
      ('(u, rest) ← update_loop (concat (map print_chunk cs) ++ rest) (mkUpd [] None [] false);
       let cs := u_chunks (finish_chunk u) in
       if negb (nonempty cs) && match mvo with None => true | Some _ => false end
       then Raise (EmptyUpdate p) else Ok (mkOp KUpdate p mvo [] cs, rest)) =
      @Ok patch_error _ (mkOp KUpdate p mvo [] cs, rest)) as Hend.
    { intros mvo Hm. rewrite E1. cbn [mbind result_bind]. rewrite E2.
      destruct cs, mvo; simpl; try done. by destruct Hm. }
    destruct mv as [m|].
    + cbn [app]. rewrite startswith_app, path_after_print by (by apply Hmv).
      cbn [mbind result_bind]. by apply (Hend (Some m)).
    + pose proof (no_move cs rest Hr) as Hnm. cbn [app].
      destruct (concat (map print_chunk cs) ++ rest) as [|l ls].
      * cbn [mbind result_bind]. by apply (Hend None).
      * apply negb_true_iff in Hnm. rewrite Hnm. cbn [mbind result_bind]. by apply (Hend None).
Qed.

Lemma ops_start ops : op_start (concat (map print_op ops)).
Proof.
  destruct ops as [|o ops]; [done|]. cbn [map concat].
  destruct (print_op_start o (concat (map print_op ops))) as (l & ls & -> & Hl). done.
Qed.

Lemma parse_operations_print ops fuel acc :
  Forall op_ok ops -> (length (concat (map print_op ops)) <= fuel)%nat ->
  parse_operations fuel (concat (map print_op ops)) acc = Ok (acc ++ ops).
Proof.
  intros H. revert fuel acc; induction H as [|o ops Ho Hops IH]; intros fuel acc Hf.
  - rewrite app_nil_r. by destruct fuel.
  - cbn [map concat] in *. destruct (parse_operation_print o (concat (map print_op ops)) Ho (ops_start ops))
      as (marker & ls & E & Hp). rewrite E in *. rewrite <- app_comm_cons in *. simpl in Hf.
    destruct fuel as [|fuel]; [lia|]. cbn [parse_operations]. rewrite Hp. cbn [mbind result_bind].
    rewrite IH by (rewrite length_app in Hf; lia). by rewrite <- app_assoc.
Qed.

Lemma one_line_app (a b : str) : one_line a -> one_line b -> one_line (a ++ b).
Proof. intros. by apply Forall_app. Qed.

Lemma print_op_lines o : op_ok o -> Forall one_line (print_op o).
Proof.
  intros [(Hp & _) Ho]. unfold print_op. destruct (kind o).
  - destruct Ho as (_ & _ & _ & Hl). constructor; [apply one_line_app; [by repeat constructor|done]|].
    apply Forall_fmap. eapply Forall_impl; [|exact Hl]. intros l ?. by constructor.
  - constructor; [apply one_line_app; [by repeat constructor|done]|done].
  - destruct Ho as (_ & _ & Hm & Hc & _). constructor; [apply one_line_app; [by repeat constructor|done]|].
    apply Forall_app; split.
    + destruct (move_to o) as [m|]; [|done]. destruct (Hm m eq_refl) as [Hml _].
      constructor; [apply one_line_app; [by repeat constructor|done]|done].
    + clear -Hc. induction Hc as [|c cs Hc Hcs IH]; [done|]. cbn [map concat]. apply Forall_app; split; [|done].
      destruct Hc as (_ & Hx & Hl). constructor.
      * destruct (context c) as [x|]; [|by repeat constructor].
        apply one_line_app; [by repeat constructor|by apply Hx].
      * apply Forall_app; split.
        -- apply Forall_fmap. eapply Forall_impl; [|exact Hl]. intros [p t] [Hp Ht]. constructor; [|done].
           simpl in Hp. destruct (change_prefix_cases p Hp) as [-> | [-> | ->]]; done.
        -- destruct (end_of_file c); [|done]. constructor; [by repeat constructor|done].
Qed.

Lemma print_ops_lines ops : Forall op_ok ops -> Forall one_line (concat (map print_op ops)).
Proof.
  induction 1; [done|]. cbn [map concat]. apply Forall_app; split; [by apply print_op_lines|done].
Qed.

Lemma join_no_cr ls : Forall one_line ls -> member CR (join [NL] ls) = false.
Proof.
  induction 1 as [|l ls Hl Hls IH]; [done|].
  assert (member CR l = false) as Hm.
  { clear -Hl. induction Hl as [|c l Hc Hl IH]; [done|]. simpl.
    destruct (linebreak_not_cr c Hc) as [-> _]. done. }
  destruct ls as [|l2 ls]; [done|]. rewrite join_cons_ne by done.
  by rewrite !member_app, Hm, IH.
Qed.

(** ** Properties of the parser *)

(** [parse_codex_patch] reads back every printed patch: for every list of
    operations whose paths are stripped and non-empty, whose texts are single
    lines and whose end-of-file mark is on the last chunk of an update, parsing
    the text the grammar prescribes for it gives exactly those operations. *)
Theorem codex_patch_roundtrip ops :
  Forall op_ok ops -> ops <> [] -> parse_codex_patch (print_patch ops) = Ok ops.
Proof.
  intros H Hne. unfold parse_codex_patch, print_patch.
  set (body := concat (map print_op ops)).
  assert (Forall one_line ((lit "*** Begin Patch" :: body) ++ [lit "*** End Patch"])) as Hl.
  { apply Forall_app; split; [|constructor; [by repeat constructor|done]].
    constructor; [by repeat constructor|by apply print_ops_lines]. }
  rewrite normalize_newlines_id by (by apply join_no_cr).
  rewrite app_comm_cons, splitlines_join by done. cbn [app].
  change (str_eqb (strip (lit "*** Begin Patch")) (lit "*** Begin Patch")) with true. cbn [negb].
  rewrite rev_app_distr. cbn [rev app].
  change (str_eqb (strip (lit "*** End Patch")) (lit "*** End Patch")) with true. cbn [negb].
  rewrite rev_involutive, length_rev. unfold body. rewrite parse_operations_print by done.
  cbn [mbind result_bind app]. by destruct ops.
Qed.

(** ** Matching *)

Lemma find_first {A} (f : A -> bool) l x :
  List.find f l = Some x -> exists l1 l2, l = l1 ++ x :: l2 /\ f x = true /\ Forall (fun y => f y = false) l1.
Proof.
  induction l as [|y l IH]; simpl; [done|]. destruct (f y) eqn:E.
  - intros [= <-]. exists [], l. done.
  - intros H. destruct (IH H) as (l1 & l2 & -> & Hx & Hall). exists (y :: l1), l2. by repeat constructor.
Qed.

(** The result is of the strictest mode that has one, and first in it. *)
Lemma first_mode_spec {A} modes (cands : list A) ok x :
  first_mode modes cands ok = Some x ->
  exists ms m ms' l1 l2, modes = ms ++ m :: ms' /\ cands = l1 ++ x :: l2 /\ ok m x = true /\
    Forall (fun y => ok m y = false) l1 /\
    Forall (fun m' => Forall (fun y => ok m' y = false) cands) ms.
Proof.
  induction modes as [|m modes IH]; simpl; [done|]. destruct (List.find (ok m) cands) as [y|] eqn:E.
  - intros [= <-]. destruct (find_first _ _ _ E) as (l1 & l2 & Ec & Hx & Hall).
    exists [], m, modes, l1, l2. done.
  - intros H. destruct (IH H) as (ms & m' & ms' & l1 & l2 & -> & Ec & Hx & H1 & H2).
    exists (m :: ms), m', ms', l1, l2. repeat (split; [done|]). constructor; [|done].
    rewrite Forall_forall. intros y Hy. by apply (List.find_none _ _ E).
Qed.

Lemma first_mode_none {A} modes (cands : list A) ok :
  first_mode modes cands ok = None -> Forall (fun m => Forall (fun y => ok m y = false) cands) modes.
Proof.
  induction modes as [|m modes IH]; simpl; [done|]. destruct (List.find (ok m) cands) eqn:E; [done|].
  intros H. constructor; [|by apply IH]. rewrite Forall_forall. intros y Hy. by apply (List.find_none _ _ E).
Qed.

Lemma py_range_elem a b x : In x (py_range a b) <-> a <= x < b.
Proof.
  unfold py_range. rewrite in_map_iff. setoid_rewrite in_seq. split.
  - intros (i & <- & Hi). lia.
  - intros H. exists (Z.to_nat (x - a)). lia.
Qed.

Lemma range_increasing a s n p q (u v : Z) w :
  map (fun i => a + Z.of_nat i) (seq s n) = p ++ u :: q ++ v :: w -> u < v.
Proof.
  revert s p q; induction n as [|n IH]; intros s p q E; [by destruct p|].
  destruct p as [|y p]; injection E as E1 E2; [|by eapply IH].
  assert (In v (map (fun i => a + Z.of_nat i) (seq (S s) n))) as Hv by (rewrite E2; apply in_elt).
  apply in_map_iff in Hv as (i & <- & Hi). apply in_seq in Hi. lia.
Qed.

(** The regions an update may replace with [needle] as its old lines. *)
Definition candidate (lines needle : list str) (start : Z) (at_end : bool) (i : Z) : Prop :=
  start <= i /\ i + len needle <= len lines /\ (at_end = true -> i + len needle = len lines).

Lemma find_sequence_some lines needle start at_end i j :
  0 <= start -> _find_sequence lines needle start at_end = Some (i, j) ->
  j = i + len needle /\ candidate lines needle start at_end i /\
  exists m, (m < 4)%nat /\ lines_match m lines needle i = true /\
    (forall m' k, (m' < m)%nat -> candidate lines needle start at_end k -> lines_match m' lines needle k = false) /\
    (forall k, k < i -> candidate lines needle start at_end k -> lines_match m lines needle k = false).
Proof.
  intros Hs. unfold _find_sequence. destruct (Z.ltb_spec (len lines) (len needle)); [done|].
  set (cands := if at_end then _ else _). destruct (first_mode _ _ _) as [x|] eqn:E; [|done].
  intros [= -> <-]. apply first_mode_spec in E as (ms & m & ms' & l1 & l2 & Em & Ec & Hok & H1 & H2).
  assert (forall k, In k cands /\ start <= k <-> candidate lines needle start at_end k) as Hcand.
  { intros k. unfold cands, candidate. destruct at_end; [simpl|rewrite py_range_elem]; naive_solver lia. }
  apply andb_true_iff in Hok as [Hge%negb_true_iff Hm]. apply Z.ltb_ge in Hge.
  split; [done|]. split; [apply Hcand; split; [rewrite Ec; apply in_elt|done]|].
  assert (m < 4 /\ forall m', m' < m -> In m' ms)%nat as [Hm4 Hms].
  { clear -Em. destruct ms as [|a [|b [|c [|d ms]]]]; injection Em as; subst; simpl; try (by destruct ms);
      split; intros; lia. }
  exists m. split; [done|]. split; [done|]. split.
  - intros m' k Hm' Hk. rewrite Forall_forall in H2. specialize (H2 m' (Hms m' Hm')).
    apply Hcand in Hk as [Hk1 Hk2]. rewrite Forall_forall in H2. specialize (H2 k Hk1).
    apply andb_false_iff in H2 as [H2|H2]; [|done]. apply negb_false_iff, Z.ltb_lt in H2. lia.
  - intros k Hki Hk. apply Hcand in Hk as [Hk1 Hk2]. rewrite Ec in Hk1.
    assert (In k l1) as Hin.
    { apply in_app_iff in Hk1 as [?|[Hk1|Hk1]]; [done|lia|]. exfalso.
      unfold cands in Ec. destruct at_end.
      - destruct l1 as [|? [|? ?]]; injection Ec as; subst; done.
      - clear -Ec Hk1 Hki. revert Ec. unfold py_range. generalize (Z.to_nat (len lines - len needle + 1 - start)).
        intros n Ec. apply in_split in Hk1 as (a & b & ->). apply range_increasing in Ec. lia. }
    rewrite Forall_forall in H1. specialize (H1 k Hin).
    apply andb_false_iff in H1 as [H1|H1]; [|done]. apply negb_false_iff, Z.ltb_lt in H1. lia.
Qed.

Lemma find_sequence_none lines needle start at_end k m :
  _find_sequence lines needle start at_end = None -> (m < 4)%nat ->
  candidate lines needle start at_end k -> lines_match m lines needle k = false.
Proof.
  unfold _find_sequence. intros H Hm Hk. destruct (Z.ltb_spec (len lines) (len needle)).
  { unfold candidate in Hk. destruct Hk as (_ & Hk & _). unfold lines_match.
    apply bool_decide_eq_false. intros E. apply (f_equal length) in E. rewrite !length_map in E.
    assert (len (slice lines k (k + len needle)) <= len lines).
    { unfold slice. rewrite len_take, len_drop. pose proof (len_nonneg lines). lia. }
    unfold len in *. lia. }
  destruct (first_mode _ _ _) eqn:E; [done|]. apply first_mode_none in E. rewrite Forall_forall in E.
  assert (In m MODES) as Hin by (do 4 (destruct m as [|m]; [simpl; tauto|]); lia).
  specialize (E m Hin). rewrite Forall_forall in E. destruct Hk as (Hk1 & Hk2 & Hk3).
  specialize (E k). destruct (Z.ltb_spec k start); [lia|]. apply E.
  destruct at_end; [left; specialize (Hk3 eq_refl); lia|rewrite py_range_elem; lia].
Qed.

(** ** Applying chunks *)

Lemma slice_in {A} (l : list A) i j :
  0 <= i <= j -> j <= len l -> slice l i j = take (Z.to_nat (j - i)) (drop (Z.to_nat i) l).
Proof.
  intros Hij Hj. unfold slice, norm_idx. destruct (Z.ltb_spec i 0), (Z.ltb_spec j 0); try lia.
  by rewrite !Z.min_l by lia.
Qed.

(** Positions behind a prefix [D] that replaced the first [pos] elements. *)
Lemma drop_shift {A} (D orig : list A) pos i :
  len D <= i -> 0 <= pos ->
  drop (Z.to_nat i) (D ++ drop (Z.to_nat pos) orig) = drop (Z.to_nat (pos + (i - len D))) orig.
Proof.
  intros Hi Hp. unfold len in *. rewrite drop_app_ge by lia. rewrite drop_drop. f_equal. lia.
Qed.

Lemma take_shift {A} (D orig : list A) pos i :
  len D <= i -> 0 <= pos ->
  take (Z.to_nat i) (D ++ drop (Z.to_nat pos) orig)
    = D ++ take (Z.to_nat (i - len D)) (drop (Z.to_nat pos) orig).
Proof. intros Hi Hp. unfold len in *. rewrite take_app_ge by lia. do 2 f_equal. lia. Qed.

(** The region of the original lines a chunk replaced: it holds the chunk's old
    lines, in the strictest grade that matched, behind its context line. *)
Record chunk_region (orig : list str) (ch : PatchChunk) (s : splice str) : Prop := {
  region_new : sp_content s = new_lines ch;
  region_old : exists m, (m < 4)%nat /\
    map (_forms m) (slice orig (sp_start s) (sp_stop s)) = map (_forms m) (old_lines ch);
  region_eof : end_of_file ch = true -> sp_stop s = len orig;
  region_context : forall c, context ch = Some c -> exists i l m, (m < 4)%nat /\
    Z.of_nat i < sp_start s /\ orig !! i = Some l /\ _forms m l = _forms m c
}.

Lemma find_line_some lines needle start i :
  0 <= start -> _find_line lines needle start = Some i ->
  start <= i < len lines /\ exists m, (m < 4)%nat /\ _forms m (line_at lines i) = _forms m needle.
Proof.
  intros Hs H. unfold _find_line in H.
  apply first_mode_spec in H as (ms & m & ms' & l1 & l2 & Em & Ec & Hok & _).
  assert (In i (py_range start (len lines))) as Hi by (rewrite Ec; apply in_elt).
  split; [by apply py_range_elem|]. exists m. apply str_eqb_eq in Hok. split; [|done].
  assert (In m MODES) as Hm by (rewrite Em; apply in_elt). simpl in Hm. lia.
Qed.

Lemma apply_chunk_region orig D pos n ch L' c' n' :
  0 <= pos <= len orig ->
  apply_chunk (D ++ drop (Z.to_nat pos) orig, len D, n) ch = Ok (L', c', n') ->
  exists s, pos <= sp_start s <= sp_stop s /\ sp_stop s <= len orig /\ chunk_region orig ch s /\
    let D' := D ++ take (Z.to_nat (sp_start s - pos)) (drop (Z.to_nat pos) orig) ++ sp_content s in
    L' = D' ++ drop (Z.to_nat (sp_stop s)) orig /\ c' = len D'.
Proof.
  intros Hpos H. set (L := D ++ drop (Z.to_nat pos) orig) in *.
  assert (len L = len D + (len orig - pos)) as HL by (unfold L; rewrite len_app, len_drop; lia).
  pose proof (len_nonneg D) as HD. unfold apply_chunk in H.
  apply bind_Ok in H as (hint & Eh & H). apply bind_Ok in H as ([start stop] & Es & H).
  injection H as <- <- _.
  assert (len D <= hint <= len L /\ forall c, context ch = Some c -> exists i l m, (m < 4)%nat /\
    len D <= i < hint /\ orig !! Z.to_nat (pos + (i - len D)) = Some l /\ _forms m l = _forms m c) as [Hhint Hctx].
  { destruct (context ch) as [c|]; [|injection Eh as <-; split; [lia|done]].
    destruct (_find_line L c (len D)) as [i|] eqn:Ef; [|done]. injection Eh as <-.
    apply find_line_some in Ef as (Hi & m & Hm & Hf); [|done]. split; [lia|]. intros ? [= <-].
    assert (L !! Z.to_nat i = orig !! Z.to_nat (pos + (i - len D))) as El.
    { rewrite <- (Nat.add_0_r (Z.to_nat i)), <- lookup_drop. unfold L. rewrite drop_shift by lia.
      rewrite lookup_drop. f_equal. lia. }
    destruct (lookup_lt_is_Some_2 orig (Z.to_nat (pos + (i - len D)))) as [l Hl]; [unfold len in *; lia|].
    exists i, l, m. unfold line_at in Hf. rewrite El, Hl in Hf. split; [done|]. split; [lia|]. done. }
  assert (hint <= start <= stop /\ stop <= len L /\ (end_of_file ch = true -> stop = len L) /\
    exists m, (m < 4)%nat /\ map (_forms m) (slice L start stop) = map (_forms m) (old_lines ch))
    as (Hst & Hsl & Heof & m & Hm & Hold).
  { destruct (old_lines ch) as [|o os] eqn:Eo; cbn [nonempty negb] in Es.
    - injection Es as <- <-. destruct (end_of_file ch); repeat split; try lia; try done; exists 0%nat;
        (split; [lia|]); rewrite slice_in by lia; by rewrite Z.sub_diag.
    - destruct (_find_sequence L (o :: os) hint (end_of_file ch)) as [[i j]|] eqn:Ef; [|done].
      injection Es as <- <-. apply find_sequence_some in Ef as (-> & (Hc1 & Hc2 & Hc3) & m & Hm & Hmm & _); [|lia].
      pose proof (len_nonneg (o :: os)). repeat split; try lia; [done|]. exists m. split; [done|].
      by apply bool_decide_eq_true in Hmm. }
  exists (mkSplice (pos + (start - len D)) (pos + (stop - len D)) (new_lines ch)).
  cbn [sp_start sp_stop sp_content]. split; [lia|]. split; [lia|]. split.
  - split; cbn [sp_start sp_stop sp_content]; [done| |intros Hf; specialize (Heof Hf); lia|].
    + exists m. split; [done|]. rewrite slice_in in Hold |- * by lia. unfold L in Hold.
      rewrite drop_shift in Hold by lia. rewrite <- Hold.
      by replace (pos + (stop - len D) - (pos + (start - len D))) with (stop - start) by lia.
    + intros c Hc. destruct (Hctx c Hc) as (i & l & m' & Hm' & Hi & Hl & Hf).
      exists (Z.to_nat (pos + (i - len D))), l, m'. repeat split; try done. lia.
  - replace (pos + (start - len D) - pos) with (start - len D) by lia.
    rewrite slice_set_in_range by lia. unfold L. rewrite take_shift, drop_shift by lia.
    rewrite <- !app_assoc. split; [done|]. rewrite !len_app, len_take, len_drop. lia.
Qed.

Lemma apply_chunks_weave orig cs D pos n L' c' n' :
  0 <= pos <= len orig ->
  foldM apply_chunk cs (D ++ drop (Z.to_nat pos) orig, len D, n) = Ok (L', c', n') ->
  exists asc, ascending pos (len orig) asc /\ Forall2 (chunk_region orig) cs asc /\ L' = D ++ weave pos orig asc.
Proof.
  revert D pos n; induction cs as [|ch cs IH]; intros D pos n Hpos H; cbn [foldM] in H.
  - injection H as <- _ _. exists []. split; [simpl; lia|]. split; [constructor|done].
  - destruct (apply_chunk _ ch) as [[[L1 c1] n1]|] eqn:E; [|done].
    apply apply_chunk_region in E as (s & Hs & Hs2 & Hr & EL & Ec); [|done]. cbv zeta in EL, Ec.
    rewrite EL, Ec in H. apply IH in H as (asc & Ha & Hf & ->); [|lia].
    exists (s :: asc). split; [simpl; split; [lia|done]|]. split; [by constructor|].
    cbn [weave]. by rewrite <- !app_assoc.
Qed.

(** ** Properties of the applier *)

(** The lines of a file as the applier counts them. *)
Definition file_lines (content : str) : list str :=
  let normalized := normalize_newlines content in
  let lines := split_on NL normalized in
  if endswith [NL] normalized then slice_to lines (-1) else lines.

(** C3: When [apply_update_chunks] succeeds, the result is the original file
    with one region per chunk replaced: the regions are in the order of the
    chunks, do not overlap, hold the chunk's old lines (in one of the four
    grades of matching), lie behind its context line and reach the end of the
    file when the chunk says so; every line outside them is kept, and so are the
    final newline and the dominant line ending. *)
Theorem codex_update_regions content cs r :
  apply_update_chunks content cs = Ok r ->
  exists asc, ascending 0 (len (file_lines content)) asc /\
    Forall2 (chunk_region (file_lines content)) cs asc /\
    let text := join [NL] (weave 0 (file_lines content) asc) ++
                (if endswith [NL] (normalize_newlines content) then [NL] else []) in
    r = if str_eqb (_dominant_ending content) [NL] then text else replace [NL] (_dominant_ending content) text.
Proof.
  intros H. unfold apply_update_chunks in H. fold (file_lines content) in H.
  apply bind_Ok in H as ([[L c] n] & E & H).
  apply (apply_chunks_weave (file_lines content) cs [] 0 1) in E as (asc & Ha & Hf & ->);
    [|split; [lia|apply len_nonneg]].
  exists asc. split; [done|]. split; [done|]. injection H as <-. simpl app.
  destruct (endswith [NL] (normalize_newlines content)); [done|]. by rewrite app_nil_r.
Qed.

(** [_find_sequence] is exact: a result is a region of the right length at
    or behind the start (at the end of the file when asked for), it matches in
    some grade, no candidate matches in a stricter grade and none before it in
    its own; no result means that no candidate matches in any grade. *)
Theorem find_sequence_strictest lines needle start at_end :
  0 <= start ->
  match _find_sequence lines needle start at_end with
  | Some (i, j) =>
      j = i + len needle /\ candidate lines needle start at_end i /\
      exists m, (m < 4)%nat /\ lines_match m lines needle i = true /\
        (forall m' k, (m' < m)%nat -> candidate lines needle start at_end k ->
           lines_match m' lines needle k = false) /\
        (forall k, k < i -> candidate lines needle start at_end k -> lines_match m lines needle k = false)
  | None => forall m k, (m < 4)%nat -> candidate lines needle start at_end k ->
      lines_match m lines needle k = false
  end.
Proof.
  intros Hs. destruct (_find_sequence lines needle start at_end) as [[i j]|] eqn:E.
  - by apply find_sequence_some.
  - intros m k Hm Hk. by eapply find_sequence_none.
Qed.

(** The parser is stricter than the grammar the module documents: an added
    line that contains a form feed, which the grammar allows inside a line, is
    split there by [splitlines] and the patch is refused. *)
Theorem codex_form_feed_refused :
  parse_codex_patch (join [NL] [lit "*** Begin Patch"; lit "*** Add File: a"; 43 :: 120 :: 12 :: [121];
    lit "*** End Patch"]) = Raise (BadAddLine (lit "y")).
Proof. by vm_compute. Qed.

(** Sample operations. *)
Definition sample_chunk : PatchChunk :=
  mkChunk (Some (lit "def f():")) [(32, lit "  a"); (45, lit "  b"); (43, lit "  c")] false.
Definition sample_patch : list PatchOperation :=
  [mkOp KAdd (lit "n.txt") None [lit "one"; []] []; mkOp KDelete (lit "d.txt") None [] [];
   mkOp KUpdate (lit "u.py") (Some (lit "v.py")) [] [sample_chunk; mkChunk None [(43, lit "end")] true]].
Definition sample_file : str := join [NL] [lit "x"; lit "def f():"; lit "  a"; lit "  b "; lit "y"; []].

Lemma sample_patch_ok : Forall op_ok sample_patch.
Proof.
  assert (path_ok (lit "n.txt") /\ path_ok (lit "d.txt") /\ path_ok (lit "u.py") /\ path_ok (lit "v.py"))
    as (H1 & H2 & H3 & H4) by (repeat split; by repeat constructor).
  assert (chunk_ok sample_chunk /\ chunk_ok (mkChunk None [(43, lit "end")] true)) as [H5 H6].
  { split.
    - split; [by left|]. split; [intros x [= <-]; by repeat constructor|].
      repeat (constructor; [split; [done|by repeat constructor]|]). constructor.
    - split; [by right; left|]. split; [done|].
      constructor; [split; [done|by repeat constructor]|constructor]. }
  constructor; [|constructor; [|constructor; [|done]]]; (split; [done|]); simpl.
  - repeat split; try done. by repeat constructor.
  - done.
  - split; [done|]. split; [by left|]. split; [by intros m [= <-]|].
    split; [|done]. constructor; [done|constructor; [done|constructor]].
Qed.

Lemma codex_patch_roundtrip_witness : parse_codex_patch (print_patch sample_patch) = Ok sample_patch.
Proof. apply codex_patch_roundtrip; [exact sample_patch_ok|done]. Defined.

Lemma codex_update_regions_witness :
  exists asc, ascending 0 5 asc /\ Forall2 (chunk_region (file_lines sample_file)) [sample_chunk] asc.
Proof.
  destruct (codex_update_regions sample_file [sample_chunk]
    (join [NL] [lit "x"; lit "def f():"; lit "  a"; lit "  c"; lit "y"; []])) as (asc & H1 & H2 & _).
  - by vm_compute.
  - exists asc. split; [exact H1|exact H2].
Defined.

Lemma find_sequence_strictest_witness :
  _find_sequence (file_lines sample_file) [lit "  a"; lit "  b"] 2 false = Some (2, 4) /\
  candidate (file_lines sample_file) [lit "  a"; lit "  b"] 2 false 2.
Proof.
  pose proof (find_sequence_strictest (file_lines sample_file) [lit "  a"; lit "  b"] 2 false ltac:(lia)) as H.
  destruct (_find_sequence (file_lines sample_file) [lit "  a"; lit "  b"] 2 false) as [[i j]|] eqn:E;
    vm_compute in E; [|discriminate E]. injection E as <- <-. split; [reflexivity|]. exact (proj1 (proj2 H)).
Defined.
