(* ===== verification/WorkspaceEdit.v ===== *)
(** * Language-server workspace edits

    Models [WorkspaceEditApplier] of [kolega_code/services/lsp/edits.py]: a
    [WorkspaceEdit] is parsed, planned on virtual files, and, only when the
    whole plan succeeded, written to the file system.  The translation of a
    file URI to a path (urllib and pathlib) is the parameter [uri_to_path]. *)

From stdpp Require Import base list gmap strings numbers sorting.
From Stdlib Require Import ZArith Lia.
From S2P Require Import Prelude PyStr PyVal Splice.

(** ** The file system, as the applier uses it

    The interface [FileSystem] of [services/file_system.py].  A reading call
    may raise; a writing call returns the state it leaves and its error. *)

Inductive fs_error := FsError (code : Z).

Class FileSystem (S : Type) := {
  exists_ : S -> str -> bool;
  is_dir : S -> str -> bool;
  read_text : S -> str -> result fs_error str;
  read_bytes : S -> str -> result fs_error bytes;
  get_parent : str -> str;
  write_text : S -> str -> str -> S * result fs_error ();
  mkdir : S -> str -> S * result fs_error ();
  rename : S -> str -> str -> S * result fs_error ();
  remove : S -> str -> S * result fs_error ();
  rmdir : S -> str -> S * result fs_error ();
  rmtree : S -> str -> S * result fs_error ()
}.

Inductive edit_error :=
| WorkspaceEditError (what : str)
| TypeError                        (* unhashable [kind] *)
| FsRaised (e : fs_error).

Definition wee {A} (what : string) : result edit_error A := Raise (WorkspaceEditError (lit what)).

(** ** Data *)

Record TextChange := mkChange { tc_path : str; old_text : str; new_text : str }.

Record WorkspaceEditResult := mkResult {
  applied : bool;
  summaries : list str;
  touched_paths : list str;
  text_changes : list TextChange
}.

Record _ResolvedTextEdit := mkResolved { start : Z; stop : Z; rt_text : str; index : Z }.

#[global] Instance ResolvedTextEdit_eq_dec : EqDecision _ResolvedTextEdit.
Proof. solve_decision. Defined.

Inductive _ResourceOp :=
| ResCreate (path : str) (overwrite ignore_if_exists : bool)
| ResRename (old_path new_path : str) (overwrite ignore_if_exists : bool)
| ResDelete (path : str) (ignore_if_missing recursive : bool).

Inductive edit_op :=
| TextEditOp (path : str) (edits : list (list (str * value)))
| ResourceOp (op : _ResourceOp).

(** ** Positions *)

(** [_python_offset_for_utf16], the loop over the characters from [index]. *)
Fixpoint utf16_loop (text : str) (index units_seen utf16_character : Z) : result edit_error Z :=
  match text with
  | [] => if units_seen =? utf16_character then Ok index
          else wee "Text edit character is outside the line."
  | char :: text' =>
      if units_seen =? utf16_character then Ok index
      else
        let units_seen := units_seen + (if 65535 <? char then 2 else 1) in
        if utf16_character <? units_seen
        then wee "Text edit character splits a UTF-16 surrogate pair."
        else utf16_loop text' (index + 1) units_seen utf16_character
  end.
Definition _python_offset_for_utf16 (text : str) (utf16_character : Z) : result edit_error Z :=
  utf16_loop text 0 0 utf16_character.

Definition line_body (line_text : str) : str :=
  if endswith [CR; NL] line_text then slice_to line_text (-2)
  else if endswith [NL] line_text || endswith [CR] line_text then slice_to line_text (-1)
  else line_text.

Definition offset_at (content : str) (line character : Z) : result edit_error Z :=
  let lines := splitlines_keep content in
  if negb (nonempty lines) then
    (if (line =? 0) && (character =? 0) then Ok 0
     else wee "Text edit position is outside the document.")
  else if (line =? len lines) && (character =? 0) then Ok (len content)
  else if len lines <=? line then wee "Text edit line is outside the document."
  else
    let line_start := foldr Z.add 0 (map len (slice_to lines line)) in
    let line_text := default [] (lines !! Z.to_nat line) in
    i ← _python_offset_for_utf16 (line_body line_text) character;
    Ok (line_start + i).

Definition _offset_for_position (content : str) (position : value) : result edit_error Z :=
  match position with
  | VDict p =>
      match as_int (get p (lit "line")), as_int (get p (lit "character")) with
      | Some line, Some character =>
          if (line <? 0) || (character <? 0)
          then wee "Text edit line and character must be non-negative."
          else offset_at content line character
      | _, _ => wee "Text edit line and character must be integers."
      end
  | _ => wee "Text edit position must be an object."
  end.

(** ** Text edits *)

(** [edit["range"]] and [edit["newText"]], whose types were validated. *)
Definition range_of (edit : list (str * value)) : list (str * value) :=
  match get edit (lit "range") with VDict r => r | _ => [] end.
Definition text_of (edit : list (str * value)) : str :=
  match get edit (lit "newText") with VStr s => s | _ => [] end.

Definition resolved_key (r : _ResolvedTextEdit) : Z * Z * str := (start r, stop r, rt_text r).

(** The first loop of [apply_text_edits]. *)
Fixpoint resolve_loop (content : str) (edits : list (list (str * value))) (index : Z)
    (seen_non_empty : list (Z * Z * str)) (resolved : list _ResolvedTextEdit)
    : result edit_error (list _ResolvedTextEdit) :=
  match edits with
  | [] => Ok resolved
  | edit :: edits' =>
      start ← _offset_for_position content (get (range_of edit) (lit "start"));
      stop ← _offset_for_position content (get (range_of edit) (lit "end"));
      if stop <? start then wee "Text edit range end is before start."
      else
        let r := mkResolved start stop (text_of edit) index in
        if negb (start =? stop) && bool_decide (resolved_key r ∈ seen_non_empty)
        then resolve_loop content edits' (index + 1) seen_non_empty resolved
        else
          let seen := if negb (start =? stop) then seen_non_empty ++ [resolved_key r]
                      else seen_non_empty in
          resolve_loop content edits' (index + 1) seen (resolved ++ [r])
  end.

(** The keys [(start, end, index)], ascending, and [(start, index)], descending. *)
Definition asc_leb (x y : _ResolvedTextEdit) : bool :=
  (start x <? start y) || ((start x =? start y) &&
    ((stop x <? stop y) || ((stop x =? stop y) && (index x <=? index y)))).
Definition desc_leb (x y : _ResolvedTextEdit) : bool :=
  (start y <? start x) || ((start y =? start x) && (index y <=? index x)).

Fixpoint overlaps (ascending : list _ResolvedTextEdit) : bool :=
  match ascending with
  | previous :: ((current :: _) as rest) => (start current <? stop previous) || overlaps rest
  | _ => false
  end.

Definition apply_resolved (updated : str) (edit : _ResolvedTextEdit) : str :=
  slice_to updated (start edit) ++ rt_text edit ++ slice_from updated (stop edit).

Definition apply_text_edits (content : str) (edits : list (list (str * value))) : result edit_error str :=
  resolved ← resolve_loop content edits 0 [] [];
  if overlaps (sort_by asc_leb resolved) then wee "WorkspaceEdit contains overlapping text edits."
  else Ok (fold_left apply_resolved (sort_by desc_leb resolved) content).

Definition validate_text_edit (edit : value) : result edit_error (list (str * value)) :=
  match edit with
  | VDict d =>
      match get d (lit "range") with
      | VDict _ => match get d (lit "newText") with
                   | VStr _ => Ok d
                   | _ => wee "Text edit newText must be a string."
                   end
      | _ => wee "Text edit range must be an object."
      end
  | _ => wee "Text edit entries must be objects."
  end.

Definition _validate_text_edit_list (edits : value) : result edit_error (list (list (str * value))) :=
  match edits with
  | VList l => mapR validate_text_edit l
  | _ => wee "Text edits must be an array."
  end.

(** ** Parsing a [WorkspaceEdit] *)

Section Parse.
Variable uri_to_path : str -> result edit_error str.

(** [entry.get("options") or {}]. *)
Definition options_of (entry : list (str * value)) (what : string)
    : result edit_error (list (str * value)) :=
  let o := get entry (lit "options") in
  if truthy o then match o with VDict d => Ok d | _ => wee what end else Ok [].

Definition _parse_create_file (entry : list (str * value)) : result edit_error edit_op :=
  match get entry (lit "uri") with
  | VStr uri =>
      options ← options_of entry "CreateFile.options must be an object.";
      path ← uri_to_path uri;
      Ok (ResourceOp (ResCreate path (truthy (get options (lit "overwrite")))
                                     (truthy (get options (lit "ignoreIfExists")))))
  | _ => wee "CreateFile.uri must be a string."
  end.

Definition _parse_rename_file (entry : list (str * value)) : result edit_error edit_op :=
  match get entry (lit "oldUri"), get entry (lit "newUri") with
  | VStr old_uri, VStr new_uri =>
      options ← options_of entry "RenameFile.options must be an object.";
      old_path ← uri_to_path old_uri;
      new_path ← uri_to_path new_uri;
      Ok (ResourceOp (ResRename old_path new_path (truthy (get options (lit "overwrite")))
                                                  (truthy (get options (lit "ignoreIfExists")))))
  | _, _ => wee "RenameFile.oldUri and RenameFile.newUri must be strings."
  end.

Definition _parse_delete_file (entry : list (str * value)) : result edit_error edit_op :=
  match get entry (lit "uri") with
  | VStr uri =>
      options ← options_of entry "DeleteFile.options must be an object.";
      path ← uri_to_path uri;
      Ok (ResourceOp (ResDelete path (truthy (get options (lit "ignoreIfNotExists")))
                                     (truthy (get options (lit "recursive")))))
  | _ => wee "DeleteFile.uri must be a string."
  end.

(** [kind in {...}]: a list or an object cannot be looked up in a set. *)
Definition kind_in (kind : value) (kinds : list str) : result edit_error bool :=
  match kind with
  | VStr s => Ok (str_in s kinds)
  | VList _ | VDict _ => Raise TypeError
  | _ => Ok false
  end.

Definition parse_entry (entry : value) : result edit_error edit_op :=
  match entry with
  | VDict entry =>
      let kind := get entry (lit "kind") in
      create ← kind_in kind [lit "create"; lit "createFile"];
      ren ← kind_in kind [lit "rename"; lit "renameFile"];
      del ← kind_in kind [lit "delete"; lit "deleteFile"];
      text ← kind_in kind [lit "textDocument/edit"; lit "edit"];
      let document := get entry (lit "textDocument") in
      if create : bool then _parse_create_file entry
      else if ren : bool then _parse_rename_file entry
      else if del : bool then _parse_delete_file entry
      else if text || match document with VNone => false | _ => true end then
        match document with
        | VDict d =>
            match get d (lit "uri") with
            | VStr uri =>
                path ← uri_to_path uri;
                edits ← _validate_text_edit_list (default (VList []) (dict_get entry (lit "edits")));
                Ok (TextEditOp path edits)
            | _ => wee "TextDocumentEdit.textDocument.uri must be a string."
            end
        | _ => wee "TextDocumentEdit.textDocument must be an object."
        end
      else wee "Unsupported WorkspaceEdit documentChanges entry"
  | _ => wee "WorkspaceEdit.documentChanges entries must be objects."
  end.

Definition parse_change (item : str * value) : result edit_error edit_op :=
  path ← uri_to_path (fst item);
  edits ← _validate_text_edit_list (snd item);
  Ok (TextEditOp path edits).

Definition _parse_workspace_edit (edit : value) : result edit_error (list edit_op) :=
  match edit with
  | VDict edit =>
      match get edit (lit "changes") with
      | VNone =>
          match get edit (lit "documentChanges") with
          | VNone => Ok []
          | VList l => mapR parse_entry l
          | _ => wee "WorkspaceEdit.documentChanges must be an array."
          end
      | VDict changes => mapR parse_change (filter (fun it => truthy (snd it) = true) changes)
      | _ => wee "WorkspaceEdit.changes must be an object."
      end
  | _ => wee "WorkspaceEdit must be an object."
  end.
End Parse.

(** ** Planning and writing *)

Abbreviation virtual := (gmap (list Z) (option (list Z))).

Section Apply.
Context {S : Type} `{FileSystem S}.

Definition fs_call {A} (r : result fs_error A) : result edit_error A :=
  match r with Ok a => Ok a | Raise e => Raise (FsRaised e) end.

Definition _virtual_or_disk_content (s : S) (path : str) (virtual_files : virtual) : result edit_error str :=
  match virtual_files !! path with
  | Some (Some content) => Ok content
  | Some None => wee "WorkspaceEdit targets a deleted file"
  | None =>
      if negb (exists_ s path) then wee "WorkspaceEdit targets a missing file"
      else if is_dir s path then wee "WorkspaceEdit targets a directory as text"
      else fs_call (read_text s path)
  end.

Definition _virtual_exists (s : S) (path : str) (virtual_files : virtual) : bool :=
  match virtual_files !! path with
  | Some (Some _) => true
  | Some None => false
  | None => exists_ s path
  end.

Definition _validate_resource_op (s : S) (op : _ResourceOp) (virtual_files : virtual) : result edit_error () :=
  match op with
  | ResCreate path overwrite ignore_if_exists =>
      if _virtual_exists s path virtual_files && negb (overwrite || ignore_if_exists)
      then wee "CreateFile target already exists" else Ok ()
  | ResRename old_path new_path overwrite ignore_if_exists =>
      if negb (_virtual_exists s old_path virtual_files) then wee "RenameFile source does not exist"
      else if _virtual_exists s new_path virtual_files && negb (overwrite || ignore_if_exists)
      then wee "RenameFile destination already exists" else Ok ()
  | ResDelete path ignore_if_missing _ =>
      if negb (_virtual_exists s path virtual_files) && negb ignore_if_missing
      then wee "DeleteFile target does not exist" else Ok ()
  end.

Definition _apply_virtual_resource_op (s : S) (op : _ResourceOp) (virtual_files : virtual)
    : result edit_error virtual :=
  match op with
  | ResCreate path _ ignore_if_exists =>
      if ignore_if_exists && _virtual_exists s path virtual_files then Ok virtual_files
      else Ok (<[path := Some []]> virtual_files)
  | ResRename old_path new_path _ ignore_if_exists =>
      if ignore_if_exists && _virtual_exists s new_path virtual_files then Ok virtual_files
      else
        v ← match virtual_files !! old_path with
            | Some x => Ok (<[new_path := x]> (delete old_path virtual_files))
            | None =>
                if exists_ s old_path && negb (is_dir s old_path) then
                  c ← fs_call (read_text s old_path); Ok (<[new_path := Some c]> virtual_files)
                else Ok virtual_files
            end;
        Ok (<[old_path := None]> v)
  | ResDelete path ignore_if_missing _ =>
      if ignore_if_missing && negb (_virtual_exists s path virtual_files) then Ok virtual_files
      else Ok (<[path := None]> virtual_files)
  end.

Definition _resource_summary (op : _ResourceOp) : str :=
  match op with
  | ResCreate path _ _ => lit "created " ++ path
  | ResRename old_path new_path _ _ => lit "renamed " ++ old_path ++ lit " -> " ++ new_path
  | ResDelete path _ _ => lit "deleted " ++ path
  end.

(** The paths [(op.path, op.old_path, op.new_path)] that are not empty. *)
Definition resource_paths (op : _ResourceOp) : list str :=
  filter (fun p => nonempty p = true)
    match op with
    | ResCreate path _ _ | ResDelete path _ _ => [path]
    | ResRename old_path new_path _ _ => [old_path; new_path]
    end.

Definition ending_of (crlf_count lf_count cr_count : Z) : str :=
  if (0 <? crlf_count) && (lf_count <=? crlf_count) && (cr_count <=? crlf_count) then [CR; NL]
  else if (0 <? cr_count) && (lf_count <? cr_count) then [CR] else [NL].

(** Text and bytes are counted alike; both are lists of numbers here. *)
Definition _detect_dominant_line_ending (s : S) (path old_text : str) : str :=
  let raw := match read_bytes s path with Ok raw => raw | Raise _ => old_text end in
  let without_crlf := replace [CR; NL] [] raw in
  ending_of (count_sub [CR; NL] raw) (count_char NL without_crlf) (count_char CR without_crlf).

Definition _preserve_line_endings (s : S) (path old_text new_text : str) : str :=
  let line_ending := _detect_dominant_line_ending s path old_text in
  if str_eqb line_ending [NL] then new_text
  else replace [NL] line_ending (normalize_newlines new_text).

(** The state of the planning loop; [planned] pairs every operation with the
    change the dictionary [planned_text_changes] has for its index. *)
Record plan := mkPlan {
  virtual_files : virtual;
  planned : list (edit_op * option TextChange);
  plan_summaries : list str;
  plan_touched : list str;
  plan_changes : list TextChange
}.

Definition plan_op (s : S) (p : plan) (op : edit_op) : result edit_error plan :=
  match op with
  | TextEditOp path edits =>
      old ← _virtual_or_disk_content s path (virtual_files p);
      new ← apply_text_edits old edits;
      let new := _preserve_line_endings s path old new in
      let change := mkChange path old new in
      Ok (mkPlan (<[path := Some new]> (virtual_files p)) (planned p ++ [(op, Some change)])
            (plan_summaries p ++ [lit "updated " ++ path ++ lit " (" ++ dec (len edits) ++ lit " text edit(s))"])
            (plan_touched p ++ [path]) (plan_changes p ++ [change]))
  | ResourceOp r =>
      _ ← _validate_resource_op s r (virtual_files p);
      v ← _apply_virtual_resource_op s r (virtual_files p);
      Ok (mkPlan v (planned p ++ [(op, None)]) (plan_summaries p ++ [_resource_summary r])
            (plan_touched p ++ resource_paths r) (plan_changes p))
  end.

(** A sequence of writing calls stops at the first error. *)
Definition then_do (r : S * result fs_error ()) (k : S -> S * result fs_error ()) : S * result fs_error () :=
  match r with
  | (s, Ok _) => k s
  | (s, Raise e) => (s, Raise e)
  end.

Definition _ensure_parent_directory (s : S) (path : str) : S * result fs_error () :=
  let parent := get_parent path in
  if nonempty parent && negb (str_eqb parent (lit ".")) && negb (exists_ s parent)
  then mkdir s parent else (s, Ok ()).

Definition _write_text (s : S) (path content : str) : S * result fs_error () :=
  then_do (_ensure_parent_directory s path) (fun s => write_text s path content).

Definition _remove_path (s : S) (path : str) (recursive : bool) : S * result fs_error () :=
  if is_dir s path then (if recursive then rmtree s path else rmdir s path) else remove s path.

Definition _write_resource_op (s : S) (op : _ResourceOp) : S * result fs_error () :=
  match op with
  | ResCreate path overwrite ignore_if_exists =>
      if ignore_if_exists && exists_ s path then (s, Ok ())
      else if overwrite || negb (exists_ s path) then _write_text s path [] else (s, Ok ())
  | ResRename old_path new_path overwrite ignore_if_exists =>
      if ignore_if_exists && exists_ s new_path then (s, Ok ())
      else
        then_do (if overwrite && exists_ s new_path then _remove_path s new_path true else (s, Ok ()))
          (fun s => then_do (_ensure_parent_directory s new_path) (fun s => rename s old_path new_path))
  | ResDelete path ignore_if_missing recursive =>
      if ignore_if_missing && negb (exists_ s path) then (s, Ok ())
      else _remove_path s path recursive
  end.

Definition write_op (s : S) (item : edit_op * option TextChange) : S * result fs_error () :=
  match item with
  | (TextEditOp _ _, Some change) => _write_text s (tc_path change) (new_text change)
  | (ResourceOp r, _) => _write_resource_op s r
  | (TextEditOp _ _, None) => (s, Ok ())
  end.

Fixpoint write_ops (s : S) (items : list (edit_op * option TextChange)) : S * result fs_error () :=
  match items with
  | [] => (s, Ok ())
  | item :: items' => then_do (write_op s item) (fun s => write_ops s items')
  end.

(** [tuple(dict.fromkeys(l))]. *)
Fixpoint first_occurrences (seen l : list str) : list str :=
  match l with
  | [] => []
  | x :: l' => if str_in x seen then first_occurrences seen l' else x :: first_occurrences (x :: seen) l'
  end.

Variable uri_to_path : str -> result edit_error str.

Definition no_edits (should_write : bool) : WorkspaceEditResult :=
  mkResult should_write [lit "No edits returned."] [] [].

Definition _apply (s : S) (edit : value) (should_write : bool) : S * result edit_error WorkspaceEditResult :=
  if negb (truthy edit) then (s, Ok (no_edits should_write))
  else
    match _parse_workspace_edit uri_to_path edit with
    | Raise e => (s, Raise e)
    | Ok [] => (s, Ok (no_edits should_write))
    | Ok ops =>
        match foldM (plan_op s) ops (mkPlan ∅ [] [] [] []) with
        | Raise e => (s, Raise e)
        | Ok p =>
            let r := mkResult should_write (plan_summaries p) (first_occurrences [] (plan_touched p))
                              (plan_changes p) in
            if should_write then
              match write_ops s (planned p) with
              | (s', Ok _) => (s', Ok r)
              | (s', Raise e) => (s', Raise (FsRaised e))
              end
            else (s, Ok r)
        end
    end.

Definition preview (s : S) (edit : value) := _apply s edit false.
Definition apply (s : S) (edit : value) := _apply s edit true.
End Apply.
