(* ===== verification/LocalFs.v ===== *)
(** * The local file system

    Models [LocalFileSystem] of [kolega_code/services/file_system.py] with an
    absolute [root_path]: what its operations do to a tree of directories and files,
    and what they raise.

    A path of the file system is the list of its components from the top; a path of
    the caller is a text, relative to the root or absolute, as [pathlib] reads it.
    A file has bytes; text is decoded as UTF-8 with universal newlines when it is
    read and encoded as it is when it is written.  Errors are numbers of the system,
    with [UNICODE] for a [UnicodeError].  [..] is a component like any other here
    (properties exclude it); links, permissions, quotas and names that the system
    refuses are not modelled. *)

From stdpp Require Import base list gmap strings numbers.
From Stdlib Require Import ZArith Lia.
From S2P Require Import Prelude PyStr Utf8 PyVal WorkspaceEdit.

Inductive node := File (content : bytes) | Dir.
Abbreviation tree := (gmap (list (list Z)) node).
Abbreviation location := (list (list Z)).

Definition ENOENT : fs_error := FsError 2.
Definition EEXIST : fs_error := FsError 17.
Definition ENOTDIR : fs_error := FsError 20.
Definition EISDIR : fs_error := FsError 21.
Definition EINVAL : fs_error := FsError 22.
Definition ENOTEMPTY : fs_error := FsError 39.
Definition UNICODE : fs_error := FsError (-1).

(** ** Paths *)

Definition SLASH : Z := 47.
(** A component that [pathlib] keeps. *)
Definition kept (c : str) : bool := nonempty c && negb (str_eqb c (lit ".")).
Definition parts (p : str) : location := List.filter kept (split_on SLASH p).
Definition is_absolute (p : str) : bool := startswith [SLASH] p.

Fixpoint strip_prefix (l q : location) : option location :=
  match l, q with
  | [], _ => Some q
  | c :: l', d :: q' => if str_eqb c d then strip_prefix l' q' else None
  | _ :: _, [] => None
  end.
(** [q] lies inside [l]. *)
Definition inside (l q : location) : bool := match strip_prefix l q with Some (_ :: _) => true | _ => false end.
(** The directories on the way to [q], and [q]. *)
Definition prefixes (q : location) : list location := map (fun n => take (S n) q) (seq 0 (length q)).

Section LocalFileSystem.
Variable root : location.

Definition _resolve_path (p : str) : location := if is_absolute p then parts p else root ++ parts p.
(** [str(path.relative_to(root))], or [str(path)]. *)
Definition show (q : location) : str :=
  match strip_prefix root q with
  | Some [] => lit "."
  | Some r => join [SLASH] r
  | None => SLASH :: join [SLASH] q
  end.
Definition local_parent (p : str) : str := show (removelast (_resolve_path p)).

(** ** Reading *)

Definition exists_at (t : tree) (q : location) : bool := match t !! q with Some _ => true | None => false end.
Definition dir_at (t : tree) (q : location) : bool := match t !! q with Some Dir => true | _ => false end.
Definition file_at (t : tree) (q : location) : bool := match t !! q with Some (File _) => true | _ => false end.
(** The error for a path where nothing is. *)
Definition absent (t : tree) (q : location) : fs_error := if existsb (file_at t) (prefixes q) then ENOTDIR else ENOENT.
Definition bytes_at (t : tree) (q : location) : result fs_error bytes :=
  match t !! q with Some (File b) => Ok b | Some Dir => Raise EISDIR | None => Raise (absent t q) end.
(** Universal newlines. *)
Definition text_in (b : bytes) : option str := normalize_newlines <$> decode_strict b.
Definition text_at (t : tree) (q : location) : result fs_error str :=
  b ← bytes_at t q; match text_in b with Some c => Ok c | None => Raise UNICODE end.

(** ** Writing *)

(** The file is emptied before the text is encoded. *)
Definition write_at (t : tree) (q : location) (c : str) : tree * result fs_error () :=
  if dir_at t q then (t, Raise EISDIR)
  else if negb (dir_at t (removelast q)) then (t, Raise (absent t q))
  else if forallb scalar c then (<[q := File (utf8 c)]> t, Ok ()) else (<[q := File []]> t, Raise UNICODE).

(** [mkdir(parents=True, exist_ok=True)]. *)
Definition make_dir (t : tree) (q : location) : tree := match t !! q with Some _ => t | None => <[q := Dir]> t end.
Definition mkdir_at (t : tree) (q : location) : tree * result fs_error () :=
  if file_at t q then (t, Raise EEXIST)
  else if existsb (file_at t) (prefixes q) then (t, Raise ENOTDIR)
  else (fold_left make_dir (prefixes q) t, Ok ()).

Definition remove_at (t : tree) (q : location) : tree * result fs_error () :=
  match t !! q with
  | Some (File _) => (delete q t, Ok ())
  | Some Dir => (t, Raise EISDIR)
  | None => (t, Raise (absent t q))
  end.

Definition is_empty (t : tree) (q : location) : bool := forallb (fun x => negb (inside q x.1)) (map_to_list t).
Definition rmdir_at (t : tree) (q : location) : tree * result fs_error () :=
  match t !! q with
  | Some Dir => if is_empty t q then (delete q t, Ok ()) else (t, Raise ENOTEMPTY)
  | Some (File _) => (t, Raise ENOTDIR)
  | None => (t, Raise (absent t q))
  end.
Definition rmtree_at (t : tree) (q : location) : tree * result fs_error () :=
  match t !! q with
  | Some Dir => (filter (fun x => strip_prefix q x.1 = None) t, Ok ())
  | Some (File _) => (t, Raise ENOTDIR)
  | None => (t, Raise (absent t q))
  end.

(** A directory with what it holds under another name. *)
Definition moved (t : tree) (p q : location) : tree :=
  list_to_map (map (fun x => (match strip_prefix p x.1 with Some r => q ++ r | None => x.1 end, x.2)) (map_to_list t)).
Definition rename_at (t : tree) (p q : location) : tree * result fs_error () :=
  match t !! p with
  | None => (t, Raise (absent t p))
  | Some n =>
      if bool_decide (p = q) then (t, Ok ())
      else if negb (dir_at t (removelast q)) then (t, Raise (absent t q))
      else match n, t !! q with
           | File _, Some Dir => (t, Raise EISDIR)
           | File b, _ => (<[q := File b]> (delete p t), Ok ())
           | Dir, Some (File _) => (t, Raise ENOTDIR)
           | Dir, Some Dir =>
               if inside p q then (t, Raise EINVAL) else if is_empty t q then (moved t p q, Ok ()) else (t, Raise ENOTEMPTY)
           | Dir, None => if inside p q then (t, Raise EINVAL) else (moved t p q, Ok ())
           end
  end.

Definition local_fs : FileSystem tree := {|
  exists_ t p := exists_at t (_resolve_path p);
  is_dir t p := dir_at t (_resolve_path p);
  read_text t p := text_at t (_resolve_path p);
  read_bytes t p := bytes_at t (_resolve_path p);
  get_parent := local_parent;
  write_text t p c := write_at t (_resolve_path p) c;
  mkdir t p := mkdir_at t (_resolve_path p);
  rename t p q := rename_at t (_resolve_path p) (_resolve_path q);
  remove t p := remove_at t (_resolve_path p);
  rmdir t p := rmdir_at t (_resolve_path p);
  rmtree t p := rmtree_at t (_resolve_path p)
|}.

(** ** Paths and locations *)

(** What a component of a path may be. *)
Definition name (c : str) : Prop := kept c = true /\ member SLASH c = false.
Lemma parts_names p : Forall name (parts p).
Proof.
  apply list.Forall_forall. intros c Hc. unfold parts in Hc. apply list_elem_of_In, filter_In in Hc as [Hc Hk]. split; [done|].
  pose proof (split_on_pieces SLASH p) as H. rewrite List.Forall_forall in H. by apply H.
Qed.
Lemma parts_join q : Forall name q -> parts (join [SLASH] q) = q.
Proof.
  intros H. unfold parts. destruct q as [|c q]; [done|]. rewrite split_on_join; [|done|by eapply List.Forall_impl; [|exact H]; intros ? []].
  clear -H. induction H as [|x l [Hc _] _ IH]; [done|]. cbn. by rewrite Hc, IH.
Qed.

Lemma strip_prefix_spec l q r : strip_prefix l q = Some r <-> q = l ++ r.
Proof.
  revert q; induction l as [|c l IH]; intros q; cbn; [split; [by intros [= ->]|by intros ->]|].
  destruct q as [|d q]; [done|]. destruct (str_eqb c d) eqn:E.
  - apply str_eqb_eq in E as ->. rewrite IH. split; [by intros ->|by intros [= ->]].
  - split; [done|]. intros [= <- _]. by rewrite str_eqb_refl in E.
Qed.
Lemma inside_spec l q : inside l q = true <-> exists c r, q = l ++ c :: r.
Proof.
  unfold inside. destruct (strip_prefix l q) as [[|c r]|] eqn:E.
  - apply strip_prefix_spec in E as ->. split; [done|]. intros (c & r & H). apply (inj (app l)) in H. done.
  - apply strip_prefix_spec in E as ->. split; eauto.
  - split; [done|]. intros (c & r & H). apply strip_prefix_spec in H. congruence.
Qed.

Hypothesis root_names : Forall name root.
Lemma resolve_names p : Forall name (_resolve_path p).
Proof. unfold _resolve_path. destruct (is_absolute p); [|apply Forall_app; split; [done|]]; apply parts_names. Qed.
Lemma resolve_show q : Forall name q -> _resolve_path (show q) = q.
Proof.
  intros Hq. unfold show. destruct (strip_prefix root q) as [r|] eqn:E.
  - apply strip_prefix_spec in E as ->. apply Forall_app in Hq as [_ Hr].
    assert (Hrel : forall s, is_absolute s = false -> parts s = r -> _resolve_path s = root ++ r)
      by (intros s Hs Hp; unfold _resolve_path; by rewrite Hs, Hp).
    destruct r as [|c r]; [by apply Hrel|]. apply Hrel; [|by apply parts_join].
    inversion Hr as [|? ? [Hk Hm] _]; subst. unfold kept in Hk. destruct c as [|x c]; [done|].
    cbn [member] in Hm. apply orb_false_iff in Hm as [Hx _]. rewrite Z.eqb_sym in Hx.
    unfold is_absolute. destruct r; cbn [join app startswith]; by rewrite Hx.
  - unfold _resolve_path, is_absolute. cbn [startswith]. rewrite Z.eqb_refl. cbn [andb].
    assert (parts (SLASH :: join [SLASH] q) = parts (join [SLASH] q)) as ->; [|by apply parts_join].
    unfold parts. change (SLASH :: join [SLASH] q) with ([] ++ SLASH :: join [SLASH] q).
    by rewrite split_on_app_nosep by done.
Qed.

(** The text that names its location: not another for the same file. *)
Definition canonical (p : str) : Prop := show (_resolve_path p) = p /\ lit ".." ∉ _resolve_path p.
Lemma canonical_inj p p' : canonical p -> canonical p' -> _resolve_path p = _resolve_path p' -> p = p'.
Proof. intros [H _] [H' _] E. by rewrite <- H, <- H', E. Qed.
Lemma parent_resolved p : _resolve_path (local_parent p) = removelast (_resolve_path p).
Proof.
  apply resolve_show. pose proof (resolve_names p) as H. induction H as [|c q Hc _ IH]; [constructor|]. cbn. destruct q; by constructor.
Qed.
End LocalFileSystem.

(** ** What making directories does *)

Lemma make_dirs_lookup ps : forall t (q : location), fold_left make_dir ps t !! q =
  match t !! q with Some n => Some n | None => if bool_decide (q ∈ ps) then Some Dir else None end.
Proof.
  induction ps as [|p ps IH]; intros t q; cbn [fold_left].
  { rewrite bool_decide_eq_false_2 by apply not_elem_of_nil. by destruct (t !! q). }
  rewrite IH. unfold make_dir. destruct (t !! p) as [n|] eqn:Ep.
  - destruct (t !! q) eqn:Eq; [done|]. assert (q <> p) by (intros ->; congruence).
    erewrite bool_decide_ext; [done|]. rewrite elem_of_cons. naive_solver.
  - destruct (decide (q = p)) as [->|Hne].
    + rewrite lookup_insert_eq, Ep. by rewrite bool_decide_eq_true_2 by left.
    + rewrite lookup_insert_ne by done. destruct (t !! q); [done|].
      by rewrite (bool_decide_ext (q ∈ p :: ps) (q ∈ ps)) by (rewrite elem_of_cons; naive_solver).
Qed.
Lemma elem_of_prefixes q p : p ∈ prefixes q <-> p <> [] /\ exists r, q = p ++ r.
Proof.
  unfold prefixes. rewrite list_elem_of_In, in_map_iff. split.
  - intros (n & <- & Hn%in_seq). split; [destruct q; cbn in *; [lia|done]|]. exists (drop (S n) q). by rewrite take_drop.
  - intros [Hp (r & ->)]. destruct p as [|c p]; [done|]. exists (length p). split.
    + change (take (S (length p)) ((c :: p) ++ r)) with (c :: take (length p) (p ++ r)). f_equal. apply take_app_length.
    + apply in_seq. rewrite length_app. cbn. lia.
Qed.
Lemma removelast_snoc {A} (l : list A) : l <> [] -> exists x, l = removelast l ++ [x].
Proof. intros H. destruct (exists_last H) as (l' & x & ->). exists x. by rewrite removelast_last. Qed.
