(* ===== verification/WorkspaceEditFacts.v ===== *)
(** * Workspace edits: the properties of the model in [WorkspaceEdit.v]

    Positions, simultaneous edits, and what [apply] does to a local tree of files
    ([LocalFs.v]); the lemmas at the end show files that an edit loses or changes. *)

From stdpp Require Import base list gmap strings numbers sorting.
From Stdlib Require Import ZArith Lia.
From S2P Require Import Prelude PyStr Utf8 PyVal Splice WorkspaceEdit LocalFs.

(** ** Positions *)

Definition utf16_units (c : Z) : Z := if 65535 <? c then 2 else 1.
Definition utf16_len (s : str) : Z := foldr Z.add 0 (map utf16_units s).

Lemma utf16_units_pos c : 1 <= utf16_units c <= 2.
Proof. unfold utf16_units. destruct (_ <? _); lia. Qed.

Lemma utf16_len_nonneg s : 0 <= utf16_len s.
Proof. unfold utf16_len. induction s as [|c s IH]; simpl; [lia|]. pose proof (utf16_units_pos c). lia. Qed.

Lemma utf16_loop_spec text idx seen u :
  seen <= u ->
  match utf16_loop text idx seen u with
  | Ok i => exists k, i = idx + k /\ 0 <= k <= len text /\ seen + utf16_len (take (Z.to_nat k) text) = u
  | Raise _ => forall k, 0 <= k <= len text -> seen + utf16_len (take (Z.to_nat k) text) <> u
  end.
Proof.
  revert idx seen; induction text as [|c text IH]; intros idx seen Hs; cbn [utf16_loop].
  - destruct (Z.eqb_spec seen u).
    + exists 0. split; [lia|]. split; [done|]. unfold utf16_len; simpl. lia.
    + intros k Hk. rewrite take_nil. unfold utf16_len; simpl. lia.
  - destruct (Z.eqb_spec seen u) as [->|Hne].
    { exists 0. unfold utf16_len; simpl. pose proof (len_nonneg (c :: text)). lia. }
    fold (utf16_units c). pose proof (utf16_units_pos c) as Hc.
    assert (forall k, 1 <= k -> utf16_len (take (Z.to_nat k) (c :: text))
      = utf16_units c + utf16_len (take (Z.to_nat (k - 1)) text)) as Hstep.
    { intros k Hk. replace (Z.to_nat k) with (S (Z.to_nat (k - 1))) by lia. done. }
    destruct (Z.ltb_spec u (seen + utf16_units c)).
    + intros k Hk. destruct (Z.eq_dec k 0) as [->|Hk0]; [unfold utf16_len; simpl; lia|].
      rewrite Hstep by lia. pose proof (utf16_len_nonneg (take (Z.to_nat (k - 1)) text)). lia.
    + specialize (IH (idx + 1) (seen + utf16_units c) ltac:(lia)).
      destruct (utf16_loop text (idx + 1) (seen + utf16_units c) u) as [i|e].
      * destruct IH as (k & -> & Hk & E). exists (k + 1). rewrite len_cons. split; [lia|]. split; [lia|].
        rewrite Hstep by lia. replace (k + 1 - 1) with k by lia. lia.
      * intros k Hk. rewrite len_cons in Hk. destruct (Z.eq_dec k 0) as [->|Hk0]; [unfold utf16_len; simpl; lia|].
        rewrite Hstep by lia. specialize (IH (k - 1) ltac:(lia)). lia.
Qed.

Lemma sum_lens ls : foldr Z.add 0 (map len ls) = len (concat ls : str).
Proof. induction ls as [|l ls IH]; simpl; [done|]. rewrite len_app. lia. Qed.

(** Where a position points: the beginning of its line, and there the
    character that many UTF-16 units into the line's body. *)
Definition points_at (content : str) (line character o : Z) : Prop :=
  let lines := splitlines_keep content in
  (line = len lines /\ character = 0 /\ o = len content) \/
  exists l i, lines !! Z.to_nat line = Some l /\
    o = len (concat (take (Z.to_nat line) lines)) + i /\
    0 <= i <= len (line_body l) /\ utf16_len (take (Z.to_nat i) (line_body l)) = character.

Lemma len_line_body l : len (line_body l) <= len l.
Proof.
  unfold line_body, slice_to, norm_idx. pose proof (len_nonneg l).
  destruct (endswith [CR; NL] l); [rewrite len_take; lia|]. destruct (_ || _); [rewrite len_take; lia|lia].
Qed.

Lemma offset_at_spec content line character :
  0 <= line -> 0 <= character ->
  match offset_at content line character with
  | Ok o => points_at content line character o /\ 0 <= o <= len content
  | Raise _ => forall o, ~ points_at content line character o
  end.
Proof.
  intros Hl Hc. unfold offset_at, points_at. set (lines := splitlines_keep content).
  pose proof (concat_splitlines_keep content) as Hcat. fold lines in Hcat.
  destruct lines as [|l0 ls0] eqn:El; cbn [nonempty negb].
  { simpl in Hcat. subst content. destruct (Z.eqb_spec line 0), (Z.eqb_spec character 0); simpl.
    1: split; [left; done|done].
    all: intros o [(H1 & H2 & _)|(l & i & H1 & _)]; try (unfold len in H1; simpl in H1; lia); try lia; done. }
  rewrite <- El in *. clear El l0 ls0.
  destruct ((line =? len lines) && (character =? 0)) eqn:E1.
  { apply andb_true_iff in E1 as [->%Z.eqb_eq ->%Z.eqb_eq]. split; [by left|]. pose proof (len_nonneg content). lia. }
  destruct (Z.leb_spec (len lines) line).
  { intros o [(-> & -> & _)|(l & i & H1 & _)].
    - by rewrite !Z.eqb_refl in E1.
    - apply lookup_lt_Some in H1. unfold len in *. lia. }
  destruct (lookup_lt_is_Some_2 lines (Z.to_nat line)) as [l Hll]; [unfold len in *; lia|].
  rewrite Hll. simpl default. rewrite slice_to_pos, sum_lens by lia.
  pose proof (utf16_loop_spec (line_body l) 0 0 character Hc) as Hu. unfold _python_offset_for_utf16.
  destruct (utf16_loop (line_body l) 0 0 character) as [i|e]; simpl.
  - destruct Hu as (k & -> & Hk & E). split.
    + right. exists l, k. repeat split; try lia; done.
    + pose proof (len_line_body l).
      assert (len content = len (concat (take (Z.to_nat line) lines)) + len (concat (drop (Z.to_nat line) lines))) as Hsum
        by (rewrite <- len_app, <- concat_app, take_drop; by rewrite Hcat).
      rewrite (drop_S _ _ _ Hll) in Hsum. simpl in Hsum. rewrite len_app in Hsum.
      pose proof (len_nonneg (concat (drop (S (Z.to_nat line)) lines))).
      pose proof (len_nonneg (concat (take (Z.to_nat line) lines))). lia.
  - intros o [(-> & -> & _)|(l' & i & Hl' & _ & Hi & Hu16)]; [lia|].
    assert (Some l' = Some l) as [= ->] by (by rewrite <- Hl', <- Hll). apply (Hu i Hi). lia.
Qed.

(** ** Text edits *)

Lemma offset_for_position_range content v o :
  _offset_for_position content v = Ok o -> 0 <= o <= len content.
Proof.
  unfold _offset_for_position. destruct v; try done. repeat case_match; try done.
  match goal with E : _ || _ = false |- _ => apply orb_false_iff in E as [?%Z.ltb_ge ?%Z.ltb_ge] end.
  intros Ho. pose proof (offset_at_spec content z z0 ltac:(done) ltac:(done)) as Hs. rewrite Ho in Hs. tauto.
Qed.

Definition resolved_ok (content : str) (r : _ResolvedTextEdit) : Prop :=
  0 <= start r <= stop r /\ stop r <= len content.

Lemma resolve_loop_ok content edits idx seen resolved out :
  resolve_loop content edits idx seen resolved = Ok out ->
  Forall (resolved_ok content) resolved -> Forall (fun r => index r < idx) resolved ->
  NoDup (map index resolved) ->
  Forall (resolved_ok content) out /\ NoDup (map index out).
Proof.
  revert idx seen resolved; induction edits as [|edit edits IH]; intros idx seen resolved E Hok Hidx Hnd;
    cbn [resolve_loop] in E.
  - by injection E as <-.
  - apply bind_Ok in E as (a & Ea & E). apply bind_Ok in E as (b & Eb & E).
    apply offset_for_position_range in Ea, Eb. destruct (Z.ltb_spec b a); [done|].
    assert (Forall (fun r => index r < idx + 1) resolved) as Hidx'.
    { rewrite Forall_forall in Hidx |- *. intros r Hr. specialize (Hidx r Hr). lia. }
    destruct (_ && _).
    + by eapply IH.
    + eapply IH; [exact E| | |].
      * apply Forall_app; split; [done|]. constructor; [|done]. unfold resolved_ok; simpl; lia.
      * apply Forall_app; split; [done|]. constructor; [simpl; lia|done].
      * rewrite map_app. apply NoDup_app. split; [done|]. split; [|apply NoDup_singleton].
        intros i (r & -> & Hr)%list_elem_of_fmap Hi. rewrite Forall_forall in Hidx. specialize (Hidx r Hr).
        apply list_elem_of_singleton in Hi. simpl in Hi. lia.
Qed.

Lemma overlaps_false content l :
  Forall (resolved_ok content) l -> overlaps l = false -> StronglySorted (fun a b => stop a <= start b) l.
Proof.
  intros H. induction H as [|x l Hx Hl IH]; intros Ho; [constructor|].
  destruct l as [|y l]; [by repeat constructor|]. cbn [overlaps] in Ho.
  apply orb_false_iff in Ho as [Hxy%Z.ltb_ge Ho]. specialize (IH Ho). constructor; [done|].
  constructor; [done|]. inversion IH as [|? ? _ Hall]; subst. inversion Hl as [|? ? Hy _]; subst.
  rewrite Forall_forall in Hall |- *. intros z Hz. specialize (Hall z Hz). unfold resolved_ok in Hy. lia.
Qed.

Lemma asc_leb_spec x y :
  asc_leb x y = true <-> start x < start y \/ start x = start y /\
    (stop x < stop y \/ stop x = stop y /\ index x <= index y).
Proof.
  unfold asc_leb. by rewrite !orb_true_iff, !andb_true_iff, !orb_true_iff, !andb_true_iff,
    !Z.ltb_lt, !Z.eqb_eq, Z.leb_le.
Qed.
Lemma desc_leb_spec x y :
  desc_leb x y = true <-> start y < start x \/ start y = start x /\ index y <= index x.
Proof. unfold desc_leb. by rewrite !orb_true_iff, !andb_true_iff, Z.ltb_lt, Z.eqb_eq, Z.leb_le. Qed.

Lemma asc_sorted l : StronglySorted (fun a b => asc_leb a b = true) (sort_by asc_leb l).
Proof.
  apply sort_by_sorted.
  - intros x y H. apply not_true_iff_false in H. rewrite asc_leb_spec in *. lia.
  - intros x y z. rewrite !asc_leb_spec. lia.
Qed.
Lemma desc_sorted l : StronglySorted (fun a b => desc_leb a b = true) (sort_by desc_leb l).
Proof.
  apply sort_by_sorted.
  - intros x y H. apply not_true_iff_false in H. rewrite desc_leb_spec in *. lia.
  - intros x y z. rewrite !desc_leb_spec. lia.
Qed.

Definition splice_of (r : _ResolvedTextEdit) : splice Z := mkSplice (start r) (stop r) (rt_text r).

(** An insertion at the beginning of a replaced range comes before that edit in
    the list, as the edits of one position are meant to be ordered. *)
Definition insertions_first (resolved : list _ResolvedTextEdit) : Prop :=
  forall a b, a ∈ resolved -> b ∈ resolved ->
    start a = stop a -> start b = start a -> start b < stop b -> index a < index b.

Lemma desc_separated content resolved :
  Forall (resolved_ok content) resolved -> NoDup (map index resolved) -> insertions_first resolved ->
  overlaps (sort_by asc_leb resolved) = false ->
  StronglySorted (fun a b => stop b <= start a) (sort_by desc_leb resolved).
Proof.
  intros Hok Hnd Hins Hov.
  assert (StronglySorted (fun a b => stop a <= start b) (sort_by asc_leb resolved)) as HR.
  { apply (overlaps_false content); [|done]. by rewrite sort_by_perm. }
  eapply (sorted_upgrade index); [apply desc_sorted|by rewrite sort_by_perm|].
  intros a b Ha Hb Hk Hd. rewrite sort_by_perm in Ha, Hb. apply desc_leb_spec in Hd.
  assert (forall x y, x ∈ resolved -> y ∈ resolved -> index x <> index y -> asc_leb y x = false -> stop x <= start y) as Hpair.
  { intros x y Hx Hy Hne Hl.
    eapply (sorted_pair asc_leb (fun a b => stop a <= start b)); [apply asc_sorted|exact HR| | | |exact Hl];
      [by rewrite sort_by_perm..|by intros ->]. }
  destruct (asc_leb a b) eqn:Eab; [|by apply Hpair].
  apply asc_leb_spec in Eab. rewrite Forall_forall in Hok. pose proof (Hok a Ha) as Oa. pose proof (Hok b Hb) as Ob.
  unfold resolved_ok in *. destruct (Z.eq_dec (stop a) (stop b)) as [Es|Es].
  - assert (start a = start b /\ index b < index a) as [E1 E2] by lia.
    apply Hpair; [done..|lia|]. apply not_true_iff_false. rewrite asc_leb_spec. lia.
  - assert (start a = start b /\ stop a < stop b /\ index b < index a) as (E1 & E2 & E3) by lia.
    assert (stop a <= start b) as Hs.
    { apply Hpair; [done..|lia|]. apply not_true_iff_false. rewrite asc_leb_spec. lia. }
    specialize (Hins a b Ha Hb). lia.
Qed.

Lemma apply_resolved_splice l r : 0 <= start r <= stop r -> apply_resolved l r = splice1 l (splice_of r).
Proof. intros H. unfold apply_resolved, splice1. rewrite slice_to_pos, slice_from_pos by lia. done. Qed.

Lemma apply_resolved_all content rs l :
  Forall (resolved_ok content) rs -> fold_left apply_resolved rs l = fold_left splice1 (map splice_of rs) l.
Proof.
  intros H. revert l; induction H as [|r rs [Hr _] Hrs IH]; intros l; simpl; [done|].
  by rewrite apply_resolved_splice, IH.
Qed.

(** ** Applying to the local file system *)

Definition op_paths (op : edit_op) : list str :=
  match op with
  | TextEditOp p _ => [p]
  | ResourceOp (ResCreate p _ _) | ResourceOp (ResDelete p _ _) => [p]
  | ResourceOp (ResRename o n _ _) => [o; n]
  end.
(** An operation that does not rename a file to itself. *)
Definition no_self_rename (op : edit_op) : Prop :=
  match op with ResourceOp (ResRename o n _ _) => o <> n | _ => True end.
(** A planned text that UTF-8 can encode. *)
Definition encodable (item : edit_op * option TextChange) : Prop :=
  match item.2 with Some c => Forall (fun x => scalar x = true) (new_text c) | None => True end.

(** The file at a location. *)
Definition file (t : tree) (q : location) : option bytes := match t !! q with Some (File b) => Some b | _ => None end.
(** The bytes of a file that has the planned text: what writing it gives, or those
    of a file that reads as that text. *)
Definition holds (b : bytes) (c : str) : Prop := b = utf8 c \/ text_in b = Some c.

Section Refinement.
Variable root : location.
Hypothesis root_names : Forall name root.
#[local] Instance fs : FileSystem tree := local_fs root.
Abbreviation at_ := (_resolve_path root).
(** The paths of the operations. *)
Variable ps : list str.
Hypothesis ps_canonical : Forall (canonical root) ps.
Hypothesis ps_apart : forall p q, p ∈ ps -> q ∈ ps -> inside (at_ p) (at_ q) = false.

(** The root exists, and so can each of the paths as a file: it is no directory, and
    no file stands where a directory above it must be. *)
Record ready (t : tree) : Prop := {
  ready_top : t !! [] = Some Dir;
  ready_root : t !! root = Some Dir;
  ready_file : forall p, p ∈ ps -> dir_at t (at_ p) = false;
  ready_above : forall p q, p ∈ ps -> inside q (at_ p) = true -> file t q = None
}.

(** The tree [t] has the contents planned from [t0], and no other file changed. *)
Definition represents (t0 t : tree) (v : virtual) : Prop :=
  (forall p, p ∈ ps -> match v !! p with
                       | None => file t (at_ p) = file t0 (at_ p)
                       | Some None => file t (at_ p) = None
                       | Some (Some c) => exists b, file t (at_ p) = Some b /\ holds b c
                       end)
  /\ forall q, (forall p, p ∈ ps -> q <> at_ p) -> file t q = file t0 q.

Lemma at_inj p p' : p ∈ ps -> p' ∈ ps -> at_ p = at_ p' -> p = p'.
Proof. rewrite List.Forall_forall in ps_canonical. intros H H'. apply canonical_inj; apply ps_canonical; by apply list_elem_of_In. Qed.
Lemma inside_parent q : q <> [] -> inside (removelast q) q = true.
Proof. intros H. apply inside_spec. destruct (removelast_snoc q H) as [x E]. by exists x, []. Qed.
Lemma ready_nonempty t p : ready t -> p ∈ ps -> at_ p <> [].
Proof. intros Hr Hp E. pose proof (ready_file t Hr p Hp) as H. unfold dir_at in H. by rewrite E, (ready_top t Hr) in H. Qed.
(** What stands above a path is a directory, if it is anything. *)
Lemma above_dir t p q n : ready t -> p ∈ ps -> inside q (at_ p) = true -> t !! q = Some n -> n = Dir.
Proof. intros Hr Hp Hi Hn. pose proof (ready_above t Hr p q Hp Hi) as H. unfold file in H. rewrite Hn in H. by destruct n. Qed.
Lemma exists_file t p : ready t -> p ∈ ps -> exists_at t (at_ p) = true <-> is_Some (file t (at_ p)).
Proof.
  intros Hr Hp. pose proof (ready_file t Hr p Hp) as H. unfold exists_at, file, dir_at in *. destruct (t !! at_ p) as [[b|]|]; split; try done; eauto; by intros [? [=]].
Qed.

(** ** Single calls *)

Lemma ensure_parent t p : ready t -> p ∈ ps -> exists t', _ensure_parent_directory t p = (t', Ok ()) /\ ready t'
  /\ dir_at t' (removelast (at_ p)) = true /\ forall q, file t' q = file t q.
Proof.
  intros Hr Hp. pose proof (ready_nonempty t p Hr Hp) as Hne. set (d := removelast (at_ p)).
  assert (Hd : inside d (at_ p) = true) by by apply inside_parent.
  assert (Hres : at_ (local_parent root p) = d) by by apply parent_resolved.
  assert (Hdir : forall n, t !! d = Some n -> dir_at t d = true).
  { intros n Hn. unfold dir_at. rewrite Hn. by rewrite (above_dir t p d n Hr Hp Hd Hn). }
  unfold _ensure_parent_directory. cbn [get_parent fs local_fs exists_ mkdir]. rewrite Hres.
  assert (Hroot : str_eqb (local_parent root p) (lit ".") = true -> d = root).
  { intros E%str_eqb_eq. rewrite <- Hres, E. unfold _resolve_path. cbn. by rewrite app_nil_r. }
  assert (Hmk : t !! d = None \/ exists n, t !! d = Some n) by (destruct (t !! d); eauto).
  destruct Hmk as [Hmk|[n Hn]].
  2: { assert (exists_at t d = true) as -> by (unfold exists_at; by rewrite Hn). rewrite andb_false_r. exists t. split_and!; [done..|by eapply Hdir|done]. }
  assert (nonempty (local_parent root p) && negb (str_eqb (local_parent root p) (lit ".")) && negb (exists_at t d) = true) as ->.
  { unfold exists_at. rewrite Hmk. cbn [negb]. rewrite andb_true_r. apply andb_true_iff. split.
    - destruct (local_parent root p) as [|x s] eqn:E; [|done]. exfalso. rewrite <- Hres in Hmk. unfold _resolve_path in Hmk. cbn in Hmk.
      rewrite app_nil_r in Hmk. by rewrite (ready_root t Hr) in Hmk.
    - apply negb_true_iff, not_true_iff_false. intros E. rewrite (Hroot E), (ready_root t Hr) in Hmk. done. }
  assert (Hpre : forall q, q ∈ prefixes d -> inside q (at_ p) = true).
  { intros q [_ (r & Eq)]%elem_of_prefixes. apply inside_spec in Hd as (c & r' & E). apply inside_spec. rewrite E, Eq, <- app_assoc.
    destruct r as [|y r]; [by exists c, r'|]. by exists y, (r ++ c :: r'). }
  unfold mkdir_at. assert (file_at t d = false) as -> by (unfold file_at; by rewrite Hmk).
  assert (existsb (file_at t) (prefixes d) = false) as ->.
  { apply not_true_iff_false. intros (q & Hq%list_elem_of_In & E)%existsb_exists. unfold file_at in E.
    destruct (t !! q) as [n|] eqn:En; [|done]. by rewrite (above_dir t p q n Hr Hp (Hpre q Hq) En) in E. }
  eexists. split; [reflexivity|].
  assert (Hfile : forall q, file (fold_left make_dir (prefixes d) t) q = file t q).
  { intros q. unfold file. rewrite make_dirs_lookup. destruct (t !! q); [done|]. by destruct (bool_decide _). }
  split_and!; [|  |exact Hfile].
  - split; [by rewrite make_dirs_lookup, (ready_top t Hr)|by rewrite make_dirs_lookup, (ready_root t Hr)| |].
    + intros p' Hp'. unfold dir_at. rewrite make_dirs_lookup. pose proof (ready_file t Hr p' Hp') as H. unfold dir_at in H.
      destruct (t !! at_ p') as [[b|]|]; [done..|]. case_bool_decide as Hb; [|done]. apply Hpre in Hb. by rewrite ps_apart in Hb.
    + intros p' q Hp' Hq. rewrite Hfile. by eapply ready_above.
  - unfold dir_at. rewrite make_dirs_lookup, Hmk. rewrite bool_decide_eq_true_2; [done|]. apply elem_of_prefixes.
    split; [|exists []; by rewrite app_nil_r]. intros E. rewrite E, (ready_top t Hr) in Hmk. done.
Qed.

(** The tree with a file at a path, or without. *)
Lemma ready_change t t' p : ready t -> p ∈ ps -> dir_at t' (at_ p) = false -> (forall q, q <> at_ p -> t' !! q = t !! q) -> ready t'.
Proof.
  intros Hr Hp Hd Ho.
  assert (Hne : forall q, t !! q = Some Dir -> q <> at_ p).
  { intros q Hq ->. pose proof (ready_file t Hr p Hp) as H. unfold dir_at in H. by rewrite Hq in H. }
  split.
  - rewrite Ho; [by apply ready_top|]. apply Hne. by apply ready_top.
  - rewrite Ho; [by apply ready_root|]. apply Hne. by apply ready_root.
  - intros p' Hp'. destruct (decide (at_ p' = at_ p)) as [->|Hn]; [done|]. unfold dir_at. rewrite Ho by done. by apply ready_file.
  - intros p' q Hp' Hq. unfold file. rewrite Ho; [by eapply ready_above|]. intros ->. by rewrite ps_apart in Hq.
Qed.
Lemma file_ext t t' q : t' !! q = t !! q -> file t' q = file t q.
Proof. unfold file. by intros ->. Qed.

Lemma represents_exists t0 t v p : ready t0 -> ready t -> represents t0 t v -> p ∈ ps -> _virtual_exists t0 p v = exists_at t (at_ p).
Proof.
  intros H0 Ht [Hv _] Hp. specialize (Hv p Hp). unfold _virtual_exists. apply eq_bool_prop_intro. rewrite !Is_true_true, (exists_file t p) by done.
  destruct (v !! p) as [[c|]|].
  - destruct Hv as (b & -> & _). split; eauto.
  - rewrite Hv. split; [done|]. by intros [? [=]].
  - rewrite Hv. cbn [exists_ fs local_fs]. by apply exists_file.
Qed.
Lemma represents_same t0 t t' v : represents t0 t v -> (forall q, file t' q = file t q) -> represents t0 t' v.
Proof.
  intros [H1 H2] E. split; [intros p Hp; rewrite E; by apply H1|]. intros q Hq. rewrite E. by apply H2.
Qed.
(** One path gets the content [x], the others keep theirs. *)
Lemma represents_update t0 t t' v p x : represents t0 t v -> p ∈ ps -> (forall q, q <> at_ p -> file t' q = file t q) ->
  match x with Some c => exists b, file t' (at_ p) = Some b /\ holds b c | None => file t' (at_ p) = None end ->
  represents t0 t' (<[p := x]> v).
Proof.
  intros [H1 H2] Hp E Hx. split.
  - intros p' Hp'. destruct (decide (p' = p)) as [->|Hn]; [rewrite lookup_insert_eq; by destruct x|].
    rewrite lookup_insert_ne by done. rewrite E; [by apply H1|]. intros Ha. by apply Hn, at_inj.
  - intros q Hq. rewrite E by by apply Hq. by apply H2.
Qed.

Lemma write_text_refines t0 t v p c : ready t -> represents t0 t v -> p ∈ ps -> Forall (fun x => scalar x = true) c ->
  exists t', _write_text t p c = (t', Ok ()) /\ ready t' /\ represents t0 t' (<[p := Some c]> v).
Proof.
  intros Hr Hv Hp Hc. unfold _write_text. destruct (ensure_parent t p Hr Hp) as (t1 & -> & Hr1 & Hd & Hf). cbn [then_do].
  cbn [write_text fs local_fs]. unfold write_at. rewrite (ready_file t1 Hr1 p Hp), Hd. cbn [negb].
  assert (forallb scalar c = true) as -> by (apply forallb_forall; intros x Hx; rewrite List.Forall_forall in Hc; auto).
  assert (Hlook : file (<[at_ p := File (utf8 c)]> t1) (at_ p) = Some (utf8 c)) by (unfold file; by rewrite lookup_insert_eq).
  eexists. split; [reflexivity|]. split.
  - eapply ready_change; [exact Hr1|exact Hp|unfold dir_at; by rewrite lookup_insert_eq|]. intros q Hq. by rewrite lookup_insert_ne.
  - apply represents_update with (t := t1); [by apply represents_same with t|done| |eexists; split; [exact Hlook|by left]].
    intros q Hq. apply file_ext. by rewrite lookup_insert_ne.
Qed.
Lemma remove_refines t0 t v p b : ready t -> represents t0 t v -> p ∈ ps -> exists_at t (at_ p) = true ->
  exists t', _remove_path t p b = (t', Ok ()) /\ ready t' /\ represents t0 t' (<[p := None]> v) /\ forall q, q <> at_ p -> t' !! q = t !! q.
Proof.
  intros Hr Hv Hp [c Hc]%exists_file; [|done..]. unfold _remove_path. cbn [is_dir remove fs local_fs]. rewrite (ready_file t Hr p Hp).
  unfold remove_at, file in *. destruct (t !! at_ p) as [[b'|]|] eqn:E; [|done..].
  assert (Ho : forall q, q <> at_ p -> delete (at_ p) t !! q = t !! q) by (intros q Hq; by rewrite lookup_delete_ne).
  eexists. split; [reflexivity|]. split_and!; [|  |exact Ho].
  - eapply ready_change; [exact Hr|exact Hp|unfold dir_at; by rewrite lookup_delete_eq|exact Ho].
  - apply represents_update with (t := t); [done..| |unfold file; by rewrite lookup_delete_eq]. intros q Hq. apply file_ext. by apply Ho.
Qed.
Lemma rename_refines t0 t v o n b c : ready t -> represents t0 t v -> o ∈ ps -> n ∈ ps -> o <> n ->
  file t (at_ o) = Some b -> holds b c -> t !! at_ n = None ->
  exists t', then_do (_ensure_parent_directory t n) (fun t => rename t o n) = (t', Ok ()) /\ ready t' /\
    represents t0 t' (<[o := None]> (<[n := Some c]> v)).
Proof.
  intros Hr Hv Ho Hn Hne Hb Hc Hnone. assert (Hat : at_ o <> at_ n) by (intros E; by apply Hne, at_inj).
  destruct (ensure_parent t n Hr Hn) as (t1 & -> & Hr1 & Hd & Hf). cbn [then_do]. cbn [rename fs local_fs]. unfold rename_at.
  assert (Ho1 : t1 !! at_ o = Some (File b)).
  { specialize (Hf (at_ o)). rewrite Hb in Hf. unfold file in Hf. destruct (t1 !! at_ o) as [[x|]|]; try done. by injection Hf as ->. }
  rewrite Ho1, bool_decide_eq_false_2 by done. rewrite Hd. cbn [negb].
  set (t' := <[at_ n := File b]> (delete (at_ o) t1)).
  assert (E : match t1 !! at_ n with Some Dir => (t1, Raise EISDIR) | _ => (t', Ok ()) end = (t', Ok ())).
  { pose proof (ready_file t1 Hr1 n Hn) as H. unfold dir_at in H. by destruct (t1 !! at_ n) as [[|]|]. }
  rewrite E. exists t'. split; [done|].
  assert (Hfn : file t' (at_ n) = Some b) by (unfold file, t'; by rewrite lookup_insert_eq).
  assert (Hfo : file t' (at_ o) = None) by (unfold file, t'; by rewrite lookup_insert_ne, lookup_delete_eq by done).
  assert (Hrest : forall q, q <> at_ n -> q <> at_ o -> t' !! q = t1 !! q) by (intros q H1 H2; unfold t'; by rewrite lookup_insert_ne, lookup_delete_ne by done).
  split.
  - apply (ready_change (delete (at_ o) t1) t' n); [|done|unfold dir_at, t'; by rewrite lookup_insert_eq|intros q Hq; unfold t'; by rewrite lookup_insert_ne].
    eapply ready_change; [exact Hr1|exact Ho|unfold dir_at; by rewrite lookup_delete_eq|]. intros q Hq. by rewrite lookup_delete_ne.
  - split.
    + intros p Hp. destruct (decide (p = o)) as [->|Hpo]; [by rewrite lookup_insert_eq|]. rewrite lookup_insert_ne by done.
      destruct (decide (p = n)) as [->|Hpn]; [rewrite lookup_insert_eq; eauto|]. rewrite lookup_insert_ne by done.
      rewrite (file_ext t1 t'), Hf; [by apply Hv|]. apply Hrest; intros E'; [by apply Hpn, at_inj|by apply Hpo, at_inj].
    + intros q Hq. rewrite (file_ext t1 t'), Hf; [by apply Hv|]. apply Hrest; by apply Hq.
Qed.

(** ** The whole plan *)

(** What a rename leaves in the plan: the text of the source under the new name. *)
Lemma virtual_rename t0 t v o n ow ig v' :
  ready t0 -> ready t -> represents t0 t v -> o ∈ ps -> n ∈ ps -> o <> n -> ig && exists_at t (at_ n) = false ->
  _validate_resource_op t0 (ResRename o n ow ig) v = Ok () ->
  _apply_virtual_resource_op t0 (ResRename o n ow ig) v = Ok v' ->
  exists b c, file t (at_ o) = Some b /\ holds b c /\ forall p, v' !! p = (<[o := None]> (<[n := Some c]> v)) !! p.
Proof.
  intros H0 Ht Hr Ho Hn Hne Hig Hval Hv. unfold _validate_resource_op in Hval.
  destruct (_virtual_exists t0 o v) eqn:Eo; [|done]. cbn [negb] in Hval.
  rewrite (represents_exists t0 t) in Eo by done. apply exists_file in Eo as [b Hb]; [|done..]. exists b.
  unfold _apply_virtual_resource_op in Hv. rewrite (represents_exists t0 t), Hig in Hv by done.
  pose proof (proj1 Hr o Ho) as Hro. destruct (v !! o) as [[x|]|] eqn:Evo; [| congruence |].
  - destruct Hro as (b' & Eb & Hh). rewrite Hb in Eb. injection Eb as <-. exists x. split_and!; [done..|]. simpl in Hv. injection Hv as <-. intros p.
    destruct (decide (p = o)) as [->|Hpo]; [by rewrite !lookup_insert_eq|]. rewrite !(lookup_insert_ne _ o p) by done.
    destruct (decide (p = n)) as [->|Hpn]; [by rewrite !lookup_insert_eq|]. rewrite !(lookup_insert_ne _ n p) by done.
    by rewrite lookup_delete_ne.
  - rewrite Hb in Hro. cbn [exists_ is_dir read_text fs local_fs] in Hv. rewrite (ready_file t0 H0 o Ho) in Hv.
    assert (exists_at t0 (at_ o) = true) as Hex by (apply exists_file; [done..|]; rewrite <- Hro; eauto). rewrite Hex in Hv. cbn [andb negb] in Hv.
    unfold text_at, bytes_at in Hv. unfold file in Hro. destruct (t0 !! at_ o) as [[x|]|]; try done. injection Hro as ->. cbn [mbind result_bind] in Hv.
    destruct (text_in x) as [c|] eqn:Ec; [|done]. cbn in Hv. injection Hv as <-. exists c. split_and!; [done|by right|done].
Qed.

Lemma represents_ext t0 t v v' : (forall p, v !! p = v' !! p) -> represents t0 t v -> represents t0 t v'.
Proof. intros E [H1 H2]. split; [|done]. intros p Hp. rewrite <- E. by apply H1. Qed.

Lemma write_resource_refines t0 t v r v' :
  ready t0 -> ready t -> represents t0 t v -> (forall p, p ∈ op_paths (ResourceOp r) -> p ∈ ps) -> no_self_rename (ResourceOp r) ->
  _validate_resource_op t0 r v = Ok () -> _apply_virtual_resource_op t0 r v = Ok v' ->
  exists t', _write_resource_op t r = (t', Ok ()) /\ ready t' /\ represents t0 t' v'.
Proof.
  intros H0 Ht Hr Hps Hns Hval Hv. destruct r as [p ow ig|o n ow ig|p im rc]; cbn [no_self_rename op_paths] in *.
  - assert (Hp : p ∈ ps) by (apply Hps; left). unfold _validate_resource_op, _apply_virtual_resource_op in *. rewrite (represents_exists t0 t) in * by done.
    unfold _write_resource_op. cbn [exists_ fs local_fs]. destruct (ig && exists_at t (at_ p)) eqn:Ei.
    + injection Hv as <-. eauto.
    + injection Hv as <-. destruct (ow || negb (exists_at t (at_ p))) eqn:Eo; [by apply write_text_refines|].
      exfalso. destruct ow, ig, (exists_at t (at_ p)); done.
  - assert (Ho : o ∈ ps) by (apply Hps; left). assert (Hn : n ∈ ps) by (apply Hps; right; left).
    unfold _write_resource_op. cbn [exists_ fs local_fs]. destruct (ig && exists_at t (at_ n)) eqn:Ei.
    { unfold _apply_virtual_resource_op in Hv. rewrite (represents_exists t0 t) in Hv by done. rewrite Ei in Hv. injection Hv as <-. eauto. }
    destruct (virtual_rename t0 t v o n ow ig v' H0 Ht Hr Ho Hn Hns Ei Hval Hv) as (b & c & Hb & Hc & Ext).
    assert (Hat : at_ o <> at_ n) by (intros E; by apply Hns, at_inj).
    assert (exists t1 v1, (if ow && exists_at t (at_ n) then _remove_path t n true else (t, Ok ())) = (t1, Ok ()) /\ ready t1 /\
      represents t0 t1 v1 /\ t1 !! at_ n = None /\ file t1 (at_ o) = Some b /\ forall q, q <> n -> v1 !! q = v !! q)
      as (t1 & v1 & -> & Ht1 & Hr1 & Hn1 & Ho1 & Hv1).
    { destruct (ow && exists_at t (at_ n)) eqn:Ew.
      - apply andb_true_iff in Ew as [_ Ew]. destruct (remove_refines t0 t v n true Ht Hr Hn Ew) as (t1 & E1 & Ht1 & Hr1 & Hsame).
        exists t1, (<[n := None]> v). split_and!; [done..| | |intros q Hq; by rewrite lookup_insert_ne].
        + pose proof (proj1 Hr1 n Hn) as Hx. rewrite lookup_insert_eq in Hx. pose proof (ready_file t1 Ht1 n Hn) as Hd. unfold file, dir_at in *.
          by destruct (t1 !! at_ n) as [[|]|].
        + rewrite (file_ext t t1); [done|]. by apply Hsame.
      - exists t, v. split_and!; [done..| |done|done]. unfold _validate_resource_op in Hval. rewrite !(represents_exists t0 t) in Hval by done.
        unfold exists_at in *. destruct (t !! at_ n); [|done]. exfalso. by destruct (t !! at_ o), ow, ig. }
    cbn [then_do]. destruct (rename_refines t0 t1 v1 o n b c Ht1 Hr1 Ho Hn Hns Ho1 Hc Hn1) as (t' & E2 & Ht2 & Hr2).
    exists t'. split_and!; [exact E2|done|]. eapply represents_ext; [|exact Hr2]. intros q. rewrite Ext.
    destruct (decide (q = o)) as [->|]; [by rewrite !lookup_insert_eq|]. rewrite !(lookup_insert_ne _ o q) by done.
    destruct (decide (q = n)) as [->|]; [by rewrite !lookup_insert_eq|]. rewrite !(lookup_insert_ne _ n q) by done.
    by apply Hv1.
  - assert (Hp : p ∈ ps) by (apply Hps; left). unfold _validate_resource_op, _apply_virtual_resource_op in *. rewrite (represents_exists t0 t) in * by done.
    unfold _write_resource_op. cbn [exists_ fs local_fs]. destruct (im && negb (exists_at t (at_ p))) eqn:Ei.
    + injection Hv as <-. eauto.
    + injection Hv as <-. assert (Hex : exists_at t (at_ p) = true) by (by destruct (exists_at t (at_ p)), im).
      destruct (remove_refines t0 t v p rc Ht Hr Hp Hex) as (t' & -> & Ht' & Hr' & _). eauto.
Qed.

Lemma plan_op_refines t0 t p op p' :
  ready t0 -> ready t -> represents t0 t (virtual_files p) -> (forall q, q ∈ op_paths op -> q ∈ ps) -> no_self_rename op -> plan_op t0 p op = Ok p' ->
  exists item, planned p' = planned p ++ [item] /\
    (encodable item -> exists t', write_op t item = (t', Ok ()) /\ ready t' /\ represents t0 t' (virtual_files p')).
Proof.
  intros H0 Ht Hr Hps Hns Hp. destruct op as [path edits|r]; cbn [plan_op] in Hp.
  - apply bind_Ok in Hp as (old & Eo & Hp). apply bind_Ok in Hp as (new & En & Hp). injection Hp as <-.
    cbn [planned virtual_files]. eexists. split; [reflexivity|]. cbn [write_op tc_path new_text encodable snd]. intros He.
    apply write_text_refines; [done..|apply Hps; left|exact He].
  - apply bind_Ok in Hp as ([] & Ev & Hp). apply bind_Ok in Hp as (v & Ea & Hp). injection Hp as <-.
    cbn [planned virtual_files]. eexists. split; [reflexivity|]. intros _. by apply (write_resource_refines t0 t (virtual_files p)).
Qed.

Lemma decide_encodable item : encodable item \/ ~ encodable item.
Proof.
  unfold encodable. destruct item.2 as [c|]; [|by left]. destruct (forallb scalar (new_text c)) eqn:E.
  - left. apply List.Forall_forall. intros x Hx. by apply (proj1 (forallb_forall _ _) E).
  - right. intros H. rewrite (proj2 (forallb_forall scalar (new_text c))) in E; [done|]. by apply List.Forall_forall.
Qed.
Lemma planned_extends t0 ops : forall p p', foldM (plan_op t0) ops p = Ok p' -> exists items, planned p' = planned p ++ items.
Proof.
  induction ops as [|op ops IH]; intros p p' E; cbn [foldM] in E; [injection E as <-; exists []; by rewrite app_nil_r|].
  destruct (plan_op t0 p op) as [p1|] eqn:E1; [|done]. destruct (IH p1 p' E) as [items ->].
  assert (exists item, planned p1 = planned p ++ [item]) as [item ->]; [|rewrite <- app_assoc; eauto].
  destruct op as [path edits|r]; cbn [plan_op] in E1.
  - apply bind_Ok in E1 as (old & _ & E1). apply bind_Ok in E1 as (new & _ & E1). injection E1 as <-. eauto.
  - apply bind_Ok in E1 as ([] & _ & E1). apply bind_Ok in E1 as (v & _ & E1). injection E1 as <-. eauto.
Qed.

Lemma plan_refines t0 ops : ready t0 -> (forall op q, op ∈ ops -> q ∈ op_paths op -> q ∈ ps) -> Forall no_self_rename ops -> forall t p p',
  ready t -> represents t0 t (virtual_files p) -> foldM (plan_op t0) ops p = Ok p' ->
  exists items, planned p' = planned p ++ items /\
    (Forall encodable items -> exists t', write_ops t items = (t', Ok ()) /\ represents t0 t' (virtual_files p')).
Proof.
  intros H0 Hps Hns. induction Hns as [|op ops Hop Hops IH]; intros t p p' Ht Hr E; cbn [foldM] in E.
  - injection E as <-. exists []. rewrite app_nil_r. split; [done|]. intros _. by exists t.
  - destruct (plan_op t0 p op) as [p1|] eqn:E1; [|done].
    destruct (plan_op_refines t0 t p op p1 H0 Ht Hr) as (item & P1 & W1); [|done|exact E1|].
    { intros q Hq. apply (Hps op); [left|done]. }
    assert (Hps' : forall op q, op ∈ ops -> q ∈ op_paths op -> q ∈ ps) by (intros op' q Hop'; apply Hps; by right).
    destruct (decide_encodable item) as [He|He].
    + destruct (W1 He) as (t1 & W & Ht1 & Hr1). destruct (IH Hps' t1 p1 p' Ht1 Hr1 E) as (items & P2 & W2). exists (item :: items).
      rewrite P2, P1, <- app_assoc. split; [done|]. intros [_ Hi]%Forall_cons_iff. destruct (W2 Hi) as (t' & Hw & Hr'). exists t'.
      cbn [write_ops]. rewrite W. by split.
    + destruct (planned_extends t0 ops p1 p' E) as [items P2]. exists (item :: items). rewrite P2, P1, <- app_assoc. split; [done|].
      by intros [Hi _]%Forall_cons_iff.
Qed.
End Refinement.

(** C4: On a local directory tree, [apply] carries out exactly what [preview] planned.
    The plan of operations on files succeeded; their paths are canonical, without
    [..], none lies inside another, each can be a file in the tree (it is no
    directory, and no file stands where a directory above it must be), no file is
    renamed to itself, and the planned texts can be encoded.  Then every write
    succeeds, directories that are missing are made, and the reported result is that
    of the preview.  Afterwards each file of the plan has the planned text (the bytes
    of that text, or, when it was only renamed, its old bytes, which read as that
    text), the files planned to be gone are gone, and every other file has the bytes
    that it had. *)
Theorem workspace_apply_refines root uri_to_path t edit ops p :
  Forall name root ->
  Forall (canonical root) (flat_map op_paths ops) ->
  (forall q q', q ∈ flat_map op_paths ops -> q' ∈ flat_map op_paths ops -> inside (_resolve_path root q) (_resolve_path root q') = false) ->
  ready root (flat_map op_paths ops) t -> Forall no_self_rename ops ->
  truthy edit = true -> @_parse_workspace_edit uri_to_path edit = Ok ops -> ops <> [] ->
  foldM (@plan_op _ (local_fs root) t) ops (mkPlan ∅ [] [] [] []) = Ok p -> Forall encodable (planned p) ->
  exists t' r, @apply _ (local_fs root) uri_to_path t edit = (t', Ok r) /\
    @preview _ (local_fs root) uri_to_path t edit = (t, Ok (mkResult false (summaries r) (touched_paths r) (text_changes r))) /\
    text_changes r = plan_changes p /\ represents root (flat_map op_paths ops) t t' (virtual_files p).
Proof.
  intros Hroot Hcan Hapart Hready Hns Ht Hp Hne Hplan Henc. unfold apply, preview, _apply. rewrite Ht, Hp. cbn [negb].
  destruct ops as [|op ops]; [done|]. rewrite Hplan.
  destruct (plan_refines root Hroot (flat_map op_paths (op :: ops)) Hcan Hapart t (op :: ops) Hready) with (t := t) (p := mkPlan ∅ [] [] [] []) (p' := p)
    as (items & E & W); [|done|exact Hready| |exact Hplan|].
  - intros o q Ho Hq. apply list_elem_of_In, in_flat_map. exists o. split; by apply list_elem_of_In.
  - split; [|done]. intros q _. cbn [virtual_files]. by rewrite lookup_empty.
  - cbn [planned app] in E. rewrite E in Henc |- *. destruct (W Henc) as (t' & Hw & Hr). unfold fs in Hw. rewrite Hw. eexists t', _. split; [reflexivity|]. by split_and!.
Qed.

(** Planning comes first, on any file system: an edit that [preview]
    refuses is refused by [apply] with the same error and nothing is written;
    an edit that it accepts gives [apply] the same report, unless the file
    system itself fails while writing. *)
Theorem workspace_plan_first {S} `{FileSystem S} (uri_to_path : str -> result edit_error str) (s : S) edit :
  match preview uri_to_path s edit with
  | (s', Raise e) => s' = s /\ apply uri_to_path s edit = (s, Raise e)
  | (s', Ok r) => s' = s /\
      (snd (apply uri_to_path s edit) = Ok (mkResult true (summaries r) (touched_paths r) (text_changes r)) \/
       exists e, snd (apply uri_to_path s edit) = Raise (FsRaised e))
  end.
Proof.
  unfold preview, apply, _apply. destruct (negb (truthy edit)); [by split; [|left]|].
  destruct (_parse_workspace_edit uri_to_path edit) as [[|op ops]|e]; [by split; [|left]| |done].
  destruct (foldM (plan_op s) (op :: ops) _) as [p|e]; [|done]. split; [done|].
  destruct (write_ops s (planned p)) as [s' [[]|e]]; [by left|right; eauto].
Qed.

(** When no insertion stands behind a replacement of the text at its
    position, [apply_text_edits] computes the simultaneous replacement of all
    (distinct) ranges of the document it was given: insertions and
    replacements end up in position order, everything between is kept. *)
Theorem text_edits_simultaneous content edits resolved updated :
  resolve_loop content edits 0 [] [] = Ok resolved -> insertions_first resolved ->
  apply_text_edits content edits = Ok updated ->
  exists asc, asc ≡ₚ map splice_of resolved /\ ascending 0 (len content) asc /\
    updated = weave 0 content asc.
Proof.
  intros Hres Hins H. unfold apply_text_edits in H. rewrite Hres in H. cbn [mbind result_bind] in H.
  destruct (overlaps (sort_by asc_leb resolved)) eqn:Eo; [done|]. injection H as <-.
  destruct (resolve_loop_ok content edits 0 [] [] resolved Hres) as [Hok Hnd]; try constructor.
  pose proof (desc_separated content resolved Hok Hnd Hins Eo) as Hs.
  assert (ascending 0 (len content) (rev (map splice_of (sort_by desc_leb resolved)))) as Ha.
  { apply descending_ascending; [|apply len_nonneg|].
    - apply Forall_fmap. rewrite sort_by_perm. exact Hok.
    - clear -Hs. induction Hs as [|x l Hs IH Hall]; simpl; constructor; [done|].
      by apply Forall_fmap. }
  exists (rev (map splice_of (sort_by desc_leb resolved))). split; [|split; [done|]].
  - rewrite <- Permutation_rev. by rewrite sort_by_perm.
  - rewrite (apply_resolved_all content) by (by rewrite sort_by_perm).
    rewrite <- splices_weave by done. by rewrite rev_involutive.
Qed.

(** A position resolves to the offset it denotes and to nothing else:
    counting UTF-16 units in the body of its line, or the end of the document
    for the line after the last; a position that denotes no offset (outside
    the line or the document, or inside a surrogate pair) is refused. *)
Theorem offset_for_position_exact content line character :
  0 <= line -> 0 <= character ->
  match _offset_for_position content (VDict [(lit "line", VInt line); (lit "character", VInt character)]) with
  | Ok o => points_at content line character o /\ 0 <= o <= len content
  | Raise _ => forall o, ~ points_at content line character o
  end.
Proof.
  intros Hl Hc. unfold _offset_for_position.
  change (as_int (get [(lit "line", VInt line); (lit "character", VInt character)] (lit "line"))) with (Some line).
  change (as_int (get [(lit "line", VInt line); (lit "character", VInt character)] (lit "character")))
    with (Some character). cbv iota.
  destruct (Z.ltb_spec line 0); [lia|]. destruct (Z.ltb_spec character 0); [lia|]. by apply offset_at_spec.
Qed.

(** Sample edits on the text ["abcdef"]. *)
Definition sample_pos (c : Z) : value := VDict [(lit "line", VInt 0); (lit "character", VInt c)].
Definition sample_edit (a b : Z) (t : str) : list (str * value) :=
  [(lit "range", VDict [(lit "start", sample_pos a); (lit "end", sample_pos b)]); (lit "newText", VStr t)].

(** The order matters: replacing the characters 1 to 3 of ["abcdef"] by
    ["X"] and then inserting ["YY"] at 1 passes the overlap check but yields
    ["aXbcdef"]: the inserted text is lost and the replaced text stays. *)
Theorem insertion_after_replacement_lost :
  apply_text_edits (lit "abcdef") [sample_edit 1 3 (lit "X"); sample_edit 1 1 (lit "YY")] = Ok (lit "aXbcdef") /\
  apply_text_edits (lit "abcdef") [sample_edit 1 1 (lit "YY"); sample_edit 1 3 (lit "X")] = Ok (lit "aYYXdef").
Proof. by vm_compute. Qed.

(** ** A small project *)

Definition sample_root : location := [lit "p"].
Definition sample_file (p : string) : location := sample_root ++ [lit p].
(** The directory [/p] with the file [a]. *)
Definition sample_tree (content : bytes) : tree :=
  <[sample_file "a" := File content]> (<[sample_root := Dir]> {[ [] := Dir ]}).
#[local] Instance sample_fs : FileSystem tree := local_fs sample_root.

Lemma above_check (t : tree) l :
  forallb (fun x => match x.2 with File _ => negb (inside x.1 l) | Dir => true end) (map_to_list t) = true ->
  forall q, inside q l = true -> file t q = None.
Proof.
  intros H q Hq. unfold file. destruct (t !! q) as [[b|]|] eqn:E; [|done..]. apply elem_of_map_to_list, list_elem_of_In in E.
  apply (proj1 (forallb_forall _ _) H) in E. cbn in E. by rewrite Hq in E.
Qed.

Definition strip_scheme (uri : str) : result edit_error str := Ok (slice_from uri 8).
Definition sample_rename (overwrite : bool) (old new : str) : value :=
  VDict [(lit "documentChanges", VList [VDict [(lit "kind", VStr (lit "rename"));
    (lit "oldUri", VStr (lit "file:///" ++ old)); (lit "newUri", VStr (lit "file:///" ++ new));
    (lit "options", VDict [(lit "overwrite", VBool overwrite)])]])].
Definition sample_changes (path : str) (edits : list (list (str * value))) : value :=
  VDict [(lit "changes", VDict [(lit "file:///" ++ path, VList (map VDict edits))])].

(** A rename of a file to itself that may overwrite is accepted by [preview], but
    [apply] first removes the file as the obstacle at the destination and then
    fails to rename it, so the file is lost. *)
Theorem self_rename_loses_file :
  let t := sample_tree (lit "text") in
  let edit := sample_rename true (lit "a") (lit "a") in
  snd (apply strip_scheme t edit) = Raise (FsRaised ENOENT) /\ file (fst (apply strip_scheme t edit)) (sample_file "a") = None /\
  exists r, preview strip_scheme t edit = (t, Ok r).
Proof. cbv zeta. split_and!; [by vm_compute..|]. eexists. by vm_compute. Qed.

(** A text with a lone surrogate is accepted by [preview], but cannot be encoded:
    the file is emptied before that is noticed. *)
Theorem surrogate_empties_file :
  let t := sample_tree (lit "abcdef") in
  let edit := sample_changes (lit "a") [sample_edit 1 3 [55357]] in
  snd (apply strip_scheme t edit) = Raise (FsRaised UNICODE) /\ file (fst (apply strip_scheme t edit)) (sample_file "a") = Some [] /\
  exists r, preview strip_scheme t edit = (t, Ok r).
Proof. cbv zeta. split_and!; [by vm_compute..|]. eexists. by vm_compute. Qed.

(** A file whose lines end in CRLF keeps them when it is edited, but not when the
    same edit first renames it: its endings are looked for under the new name,
    where no file is yet. *)
Definition rename_and_edit (old new : str) (edits : list (list (str * value))) : value :=
  VDict [(lit "documentChanges", VList [
    VDict [(lit "kind", VStr (lit "rename")); (lit "oldUri", VStr (lit "file:///" ++ old)); (lit "newUri", VStr (lit "file:///" ++ new))];
    VDict [(lit "textDocument", VDict [(lit "uri", VStr (lit "file:///" ++ new))]); (lit "edits", VList (map VDict edits))]])].
Theorem renamed_file_loses_crlf :
  let t := sample_tree [97; CR; NL; 98; CR; NL] in
  file (fst (apply strip_scheme t (sample_changes (lit "a") [sample_edit 0 1 (lit "X")]))) (sample_file "a") = Some [88; CR; NL; 98; CR; NL] /\
  file (fst (apply strip_scheme t (rename_and_edit (lit "a") (lit "b") [sample_edit 0 1 (lit "X")]))) (sample_file "b") = Some [88; NL; 98; NL].
Proof. by vm_compute. Qed.

(** A file is edited and another one created in a directory that is missing. *)
Definition sample_create : value :=
  VDict [(lit "documentChanges", VList [
    VDict [(lit "textDocument", VDict [(lit "uri", VStr (lit "file:///a"))]); (lit "edits", VList [VDict (sample_edit 1 3 (lit "X"))])];
    VDict [(lit "kind", VStr (lit "create")); (lit "uri", VStr (lit "file:///d/b"))]])].
Definition sample_ops : list edit_op := [TextEditOp (lit "a") [sample_edit 1 3 (lit "X")]; ResourceOp (ResCreate (lit "d/b") false false)].

Lemma workspace_apply_refines_witness :
  let t := sample_tree (lit "abcdef") in
  exists t' r, apply strip_scheme t sample_create = (t', Ok r) /\
    (exists b, file t' (sample_file "a") = Some b /\ holds b (lit "aXdef")) /\
    exists b, file t' [lit "p"; lit "d"; lit "b"] = Some b /\ holds b [].
Proof.
  cbv zeta. assert (Hin : forall q, q ∈ flat_map op_paths sample_ops -> q = lit "a" \/ q = lit "d/b").
  { intros q. cbn [flat_map sample_ops op_paths app]. rewrite !elem_of_cons. intros [->|[->|H]]; [by left|by right|by apply not_elem_of_nil in H]. }
  destruct (foldM (plan_op (sample_tree (lit "abcdef"))) sample_ops (mkPlan ∅ [] [] [] [])) as [p|e] eqn:Ep; [|by vm_compute in Ep].
  assert (virtual_files p !! lit "a" = Some (Some (lit "aXdef")) /\ virtual_files p !! lit "d/b" = Some (Some []) /\ Forall encodable (planned p))
    as (Ha & Hb & He) by (vm_compute in Ep; injection Ep as <-; split_and!; [by vm_compute..|by repeat constructor]).
  destruct (workspace_apply_refines sample_root strip_scheme (sample_tree (lit "abcdef")) sample_create sample_ops p) as (t' & r & H & _ & _ & Hr & _).
  - repeat constructor.
  - repeat constructor; try (by vm_compute); by apply (bool_decide_unpack _); vm_compute.
  - intros q q' [->| ->]%Hin [->| ->]%Hin; by vm_compute.
  - split; [by vm_compute..| |]; intros q.
    + intros [->| ->]%Hin; by vm_compute.
    + intros q' [->| ->]%Hin; apply above_check; by vm_compute.
  - repeat constructor.
  - done.
  - by vm_compute.
  - done.
  - exact Ep.
  - exact He.
  - exists t', r. split; [exact H|]. split.
    + pose proof (Hr (lit "a") ltac:(left)) as Hx. rewrite Ha in Hx. exact Hx.
    + pose proof (Hr (lit "d/b") ltac:(right; left)) as Hx. rewrite Hb in Hx. exact Hx.
Defined.

Lemma text_edits_simultaneous_witness :
  exists asc, asc ≡ₚ [mkSplice 1 1 (lit "YY"); mkSplice 1 3 (lit "X")] /\ ascending 0 6 asc /\
    lit "aYYXdef" = weave 0 (lit "abcdef") asc.
Proof.
  apply (text_edits_simultaneous (lit "abcdef") [sample_edit 1 1 (lit "YY"); sample_edit 1 3 (lit "X")]
    [mkResolved 1 1 (lit "YY") 0; mkResolved 1 3 (lit "X") 1]); [by vm_compute| |by vm_compute].
  intros a b Ha Hb. rewrite !elem_of_cons in Ha, Hb.
  destruct Ha as [-> | [-> |Ha]]; [| |inversion Ha]; destruct Hb as [-> | [-> |Hb]];
    try (inversion Hb); cbn; lia.
Defined.

Lemma offset_for_position_exact_witness :
  points_at [128512; 97] 0 2 1 /\ 0 <= 1 <= 2.
Proof. exact (offset_for_position_exact [128512; 97] 0 2 ltac:(lia) ltac:(lia)). Defined.
