(* ===== verification/Cron.v ===== *)
(** * Cron schedules

    Models [kolega_code/cli/cron.py]: the parser of five-field cron
    expressions and the search for the next firing minute.  A [date] is its
    proleptic Gregorian ordinal, with the year, month and day that
    [datetime.date.fromordinal] gives it; a [datetime] is naive local time. *)

From stdpp Require Import base list gmap strings numbers sorting.
From Stdlib Require Import ZArith Lia.
From S2P Require Import Prelude PyStr PyVal.

(** ** Dates *)

Definition MAXORDINAL : Z := 3652059.
Definition is_leap (y : Z) : bool := (y mod 4 =? 0) && (negb (y mod 100 =? 0) || (y mod 400 =? 0)).
Definition days_before_year (y : Z) : Z :=
  let y := y - 1 in y * 365 + y / 4 - y / 100 + y / 400.
Definition DAYS_IN_MONTH : list Z := [31; 28; 31; 30; 31; 30; 31; 31; 30; 31; 30; 31].
Definition days_in_month (y m : Z) : Z :=
  if (m =? 2) && is_leap y then 29 else default 0 (DAYS_IN_MONTH !! Z.to_nat (m - 1)).

(** The month and day of the [n]-th day (from 0) of a year, month by month. *)
Fixpoint month_day (fuel : nat) (y m n : Z) : Z * Z :=
  match fuel with
  | O => (m, n + 1)
  | S f => if n <? days_in_month y m then (m, n + 1) else month_day f y (m + 1) (n - days_in_month y m)
  end.

(** [date.fromordinal]: cycles of 400, 100, 4 and single years. *)
Definition ord2ymd (o : Z) : Z * Z * Z :=
  let n := o - 1 in
  let n400 := n / 146097 in
  let n := n mod 146097 in
  let n100 := n / 36524 in
  let n := n mod 36524 in
  let n4 := n / 1461 in
  let n := n mod 1461 in
  let n1 := n / 365 in
  let n := n mod 365 in
  let year := n400 * 400 + 1 + n100 * 100 + n4 * 4 + n1 in
  if (n1 =? 4) || (n100 =? 4) then (year - 1, 12, 31)
  else let '(m, d) := month_day 11 year 1 n in (year, m, d).

Definition date_month (o : Z) : Z := let '(_, m, _) := ord2ymd o in m.
Definition date_day (o : Z) : Z := let '(_, _, d) := ord2ymd o in d.
(** Monday is 0. *)
Definition weekday (o : Z) : Z := (o + 6) mod 7.

Record datetime := mkDT {
  dt_date : Z; dt_hour : Z; dt_minute : Z; dt_second : Z; dt_microsecond : Z
}.

(** The ordinal of a calendar date, for examples. *)
Definition ymd2ord (y m d : Z) : Z :=
  days_before_year y + foldr Z.add 0 (map (days_in_month y) (map (fun i => Z.of_nat i) (seq 1 (Z.to_nat (m - 1))))) + d.

(** ** Fields *)

Definition SEARCH_HORIZON_DAYS : Z := 366 * 4.

Inductive cron_error :=
| EmptyField | UnsupportedField | EmptyItem | NestedStep | BadStep | InvertedRange
| UnsupportedValue | OutOfRange (v low high : Z)
| EmptyExpression | Macro | WrongFieldCount (n : Z)
| NoMatchingTime
| IntTooLong          (* ValueError of int(), which is not a CronError *)
| OverflowError.      (* date value out of range *)

Record _FieldSpec := mkSpec { low : Z; high : Z }.
Definition _MINUTE := mkSpec 0 59.
Definition _HOUR := mkSpec 0 23.
Definition _DOM := mkSpec 1 31.
Definition _MONTH := mkSpec 1 12.
Definition _DOW := mkSpec 0 7.

(** [_ALLOWED_FIELD_CHARS]. *)
Definition allowed_char (c : Z) : bool :=
  ascii_digit c || (c =? 42) || (c =? 47) || (c =? 44) || (c =? 45).

(** [text.isdigit()] and [int(text)] on allowed characters. *)
Definition all_digits (s : str) : bool := nonempty s && forallb ascii_digit s.
Definition py_int (s : str) : result cron_error Z :=
  if 4300 <? len s then Raise IntTooLong else Ok (digits_value s).

Definition _parse_value (text : str) (spec : _FieldSpec) : result cron_error Z :=
  let body := strip text in
  if negb (all_digits body) then Raise UnsupportedValue
  else
    value ← py_int body;
    if (low spec <=? value) && (value <=? high spec) then Ok value
    else Raise (OutOfRange value (low spec) (high spec)).

(** [range(low, high + 1, step)] for a positive step. *)
Definition step_range (lo hi step : Z) : list Z :=
  map (fun i => lo + step * Z.of_nat i) (seq 0 (Z.to_nat ((hi - lo) / step + 1))).

Definition item_bounds (body : str) (step : Z) (spec : _FieldSpec) : result cron_error (Z * Z) :=
  if str_eqb body (lit "*") then Ok (low spec, high spec)
  else if member 45 body then
    let '(start_text, end_text) := partition 45 body in
    lo ← _parse_value start_text spec;
    hi ← _parse_value end_text spec;
    if hi <? lo then Raise InvertedRange else Ok (lo, hi)
  else
    lo ← _parse_value body spec;
    Ok (lo, if 1 <? step then high spec else lo).

Definition _parse_field_item (item : str) (spec : _FieldSpec) : result cron_error (list Z) :=
  '(body, step) ←
    (if member 47 item then
       let '(body, step_text) := partition 47 item in
       if member 47 step_text then Raise NestedStep
       else if negb (all_digits step_text) then Raise BadStep
       else
         step ← py_int step_text;
         if step <? 1 then Raise BadStep else Ok (strip body, step)
     else Ok (item, 1));
  '(lo, hi) ← item_bounds body step spec;
  Ok (step_range lo hi step).

Definition parse_part (spec : _FieldSpec) (values : gset Z) (part : str) : result cron_error (gset Z) :=
  let item := strip part in
  if negb (nonempty item) then Raise EmptyItem
  else
    vs ← _parse_field_item item spec;
    Ok (values ∪ list_to_set vs).

Definition _parse_field (text : str) (spec : _FieldSpec) : result cron_error (gset Z) :=
  let raw := strip text in
  if negb (nonempty raw) then Raise EmptyField
  else if negb (forallb allowed_char raw) then Raise UnsupportedField
  else foldM (parse_part spec) (split_on 44 raw) ∅.

(** ** Schedules *)

Record CronSchedule := mkCron {
  expression : str;
  minutes : gset Z;
  hours : gset Z;
  days_of_month : gset Z;
  months : gset Z;
  days_of_week : gset Z;
  dom_restricted : bool;
  dow_restricted : bool
}.

Definition parse (text : str) : result cron_error CronSchedule :=
  let raw := join (lit " ") (split_ws text) in
  if negb (nonempty raw) then Raise EmptyExpression
  else if startswith (lit "@") raw then Raise Macro
  else
    match split_on 32 raw with
    | [minute_text; hour_text; dom_text; month_text; dow_text] =>
        dow ← _parse_field dow_text _DOW;
        mi ← _parse_field minute_text _MINUTE;
        ho ← _parse_field hour_text _HOUR;
        dm ← _parse_field dom_text _DOM;
        mo ← _parse_field month_text _MONTH;
        Ok (mkCron raw mi ho dm mo (set_map (fun v => v mod 7) dow)
              (negb (str_eqb (strip dom_text) (lit "*"))) (negb (str_eqb (strip dow_text) (lit "*"))))
    | fields => Raise (WrongFieldCount (len fields))
    end.

Definition parse_cron (text : str) : result cron_error CronSchedule := parse text.

(** [except CronError]: an error of another class passes through. *)
Definition try_parse_cron (text : str) : result cron_error (option CronSchedule) :=
  match parse text with
  | Ok c => Ok (Some c)
  | Raise IntTooLong => Raise IntTooLong
  | Raise _ => Ok None
  end.

Definition describe (c : CronSchedule) : str := lit "cron " ++ expression c.

Definition _matches_date (c : CronSchedule) (day : Z) : bool :=
  if negb (bool_decide (date_month day ∈ months c)) then false
  else
    let dom_ok := bool_decide (date_day day ∈ days_of_month c) in
    let dow_ok := bool_decide ((weekday day + 1) mod 7 ∈ days_of_week c) in
    if dom_restricted c && dow_restricted c then dom_ok || dow_ok else dom_ok && dow_ok.

Definition matches (c : CronSchedule) (moment : datetime) : bool :=
  if negb (bool_decide (dt_minute moment ∈ minutes c)) || negb (bool_decide (dt_hour moment ∈ hours c))
  then false else _matches_date c (dt_date moment).

(** [sorted(s)] of a set. *)
Definition sorted_values (s : gset Z) : list Z := sort_by Z.leb (elements s).

(** The two inner loops: the first time of a day that is not skipped. *)
Fixpoint first_time (hs ms : list Z) (first_day : bool) (start_hour start_minute : Z) : option (Z * Z) :=
  match hs with
  | [] => None
  | hour :: hs' =>
      if first_day && (hour <? start_hour) then first_time hs' ms first_day start_hour start_minute
      else
        match List.find (fun minute => negb (first_day && (hour =? start_hour) && (minute <? start_minute))) ms with
        | Some minute => Some (hour, minute)
        | None => first_time hs' ms first_day start_hour start_minute
        end
  end.

Definition add_days (day n : Z) : result cron_error Z :=
  if MAXORDINAL <? day + n then Raise OverflowError else Ok (day + n).

(** The loop over the days; [day <= last_day] fails once the fuel, the number
    of days left, is used up. *)
Fixpoint day_loop (fuel : nat) (c : CronSchedule) (hs ms : list Z) (day last_day : Z)
    (first_day : bool) (start_hour start_minute : Z) : result cron_error datetime :=
  match fuel with
  | O => Raise NoMatchingTime
  | S f =>
      if day <=? last_day then
        let found := if _matches_date c day then first_time hs ms first_day start_hour start_minute else None in
        match found with
        | Some (hour, minute) => Ok (mkDT day hour minute 0 0)
        | None =>
            day' ← add_days day 1;
            day_loop f c hs ms day' last_day false start_hour start_minute
        end
      else Raise NoMatchingTime
  end.

(** [after.replace(second=0, microsecond=0) + timedelta(minutes=1)]. *)
Definition next_minute (after : datetime) : result cron_error (Z * Z * Z) :=
  let t := dt_hour after * 60 + dt_minute after + 1 in
  if t <? 1440 then Ok (dt_date after, t / 60, t mod 60)
  else d ← add_days (dt_date after) 1; Ok (d, 0, 0).

Definition next_fire_after (c : CronSchedule) (after : datetime) : result cron_error datetime :=
  '(day, start_hour, start_minute) ← next_minute after;
  last_day ← add_days (dt_date after) SEARCH_HORIZON_DAYS;
  day_loop (Z.to_nat (last_day - day + 1)) c (sorted_values (hours c)) (sorted_values (minutes c))
    day last_day true start_hour start_minute.
