(* ===== verification/CronFacts.v ===== *)
(** * Cron schedules: the properties of the model in [Cron.v] *)

From stdpp Require Import base list gmap strings numbers sorting.
From Stdlib Require Import ZArith Lia.
From S2P Require Import Prelude PyStr PyVal Cron.

(** ** Fields *)

Definition in_range (spec : _FieldSpec) (s : gset Z) : Prop :=
  s <> ∅ /\ forall v, v ∈ s -> low spec <= v <= high spec.

Lemma step_range_elem lo hi step v :
  1 <= step -> lo <= hi -> v ∈ step_range lo hi step <-> lo <= v <= hi /\ (v - lo) mod step = 0.
Proof.
  intros Hs Hle. unfold step_range. rewrite list_elem_of_fmap. setoid_rewrite elem_of_seq.
  pose proof (Z.div_pos (hi - lo) step ltac:(lia) ltac:(lia)). split.
  - intros (i & -> & Hi). pose proof (Z.mul_div_le (hi - lo) step ltac:(lia)).
    assert (Z.of_nat i <= (hi - lo) / step) by lia. assert (step * Z.of_nat i <= step * ((hi - lo) / step)) by nia.
    split; [lia|]. replace (lo + step * Z.of_nat i - lo) with (Z.of_nat i * step) by lia. apply Z.mod_mul. lia.
  - intros [Hv Hm]. apply Z.div_exact in Hm; [|lia]. pose proof (Z.div_pos (v - lo) step ltac:(lia) ltac:(lia)).
    exists (Z.to_nat ((v - lo) / step)). split; [lia|].
    assert ((v - lo) / step <= (hi - lo) / step) by (apply Z.div_le_mono; lia). lia.
Qed.

Lemma parse_value_range text spec v : _parse_value text spec = Ok v -> low spec <= v <= high spec.
Proof.
  unfold _parse_value. case_match; [done|]. intros E. apply bind_Ok in E as (x & _ & E).
  destruct (_ && _) eqn:Eb; [|done]. injection E as <-. apply andb_true_iff in Eb as [?%Z.leb_le ?%Z.leb_le]. lia.
Qed.

Lemma item_bounds_range body step spec lo hi :
  low spec <= high spec -> item_bounds body step spec = Ok (lo, hi) ->
  low spec <= lo <= hi /\ hi <= high spec.
Proof.
  intros Hsp. unfold item_bounds. destruct (str_eqb body (lit "*")); [intros [= <- <-]; lia|].
  destruct (member 45 body).
  - destruct (partition 45 body) as [a b]. intros E. apply bind_Ok in E as (x & Ex & E).
    apply bind_Ok in E as (y & Ey & E). destruct (Z.ltb_spec y x); [done|]. injection E as <- <-.
    apply parse_value_range in Ex, Ey. lia.
  - intros E. apply bind_Ok in E as (x & Ex & E). injection E as <- <-. apply parse_value_range in Ex.
    destruct (1 <? step); lia.
Qed.

(** The values of one item: an arithmetic progression inside the field. *)
Lemma parse_field_item_values item spec vs :
  low spec <= high spec -> _parse_field_item item spec = Ok vs ->
  exists lo hi step, 1 <= step /\ low spec <= lo <= hi /\ hi <= high spec /\
    forall v, v ∈ vs <-> lo <= v <= hi /\ (v - lo) mod step = 0.
Proof.
  intros Hsp. unfold _parse_field_item. intros E. apply bind_Ok in E as ([body step] & Eb & E).
  apply bind_Ok in E as ([lo hi] & Ei & E). injection E as <-.
  assert (1 <= step) as Hst.
  { destruct (member 47 item); [|injection Eb as <- <-; lia]. destruct (partition 47 item) as [b t].
    destruct (member 47 t); [done|]. destruct (all_digits t); [|done]. cbn [negb] in Eb.
    apply bind_Ok in Eb as (s & _ & Eb). destruct (Z.ltb_spec s 1); [done|]. injection Eb as <- <-. lia. }
  apply item_bounds_range in Ei; [|done]. exists lo, hi, step. split; [done|]. split; [lia|]. split; [lia|].
  intros v. apply step_range_elem; lia.
Qed.

Lemma parse_parts_range spec parts s s' :
  low spec <= high spec -> foldM (parse_part spec) parts s = Ok s' ->
  (forall v, v ∈ s -> low spec <= v <= high spec) ->
  (forall v, v ∈ s' -> low spec <= v <= high spec) /\ s ⊆ s' /\ (parts <> [] -> s' <> ∅).
Proof.
  intros Hsp. revert s; induction parts as [|p parts IH]; intros s E Hs; cbn [foldM] in E.
  { injection E as <-. done. }
  destruct (parse_part spec s p) as [s1|] eqn:Ep; [|done]. unfold parse_part in Ep.
  destruct (negb (nonempty (strip p))); [done|]. apply bind_Ok in Ep as (vs & Ev & Ep). injection Ep as <-.
  apply parse_field_item_values in Ev as (lo & hi & step & Hst & Hlo & Hhi & Hvs); [|done].
  destruct (IH _ E) as (H1 & H2 & _).
  { intros v [Hv|Hv]%elem_of_union; [by apply Hs|]. rewrite elem_of_list_to_set in Hv. apply Hvs in Hv. lia. }
  split; [done|]. split; [set_solver|]. intros _ Hempty. subst s'.
  assert (lo ∈ vs) as Hin by (apply Hvs; rewrite Z.sub_diag, Z.mod_0_l by lia; lia).
  assert (lo ∈ s ∪ list_to_set vs) as Hin2 by set_solver. specialize (H2 lo Hin2). set_solver.
Qed.

Lemma parse_field_range text spec s : low spec <= high spec -> _parse_field text spec = Ok s -> in_range spec s.
Proof.
  intros Hsp. unfold _parse_field. case_match; [done|]. case_match; [done|]. intros E.
  apply parse_parts_range in E as (H1 & _ & H3); [|done|set_solver]. split; [|done].
  apply H3, split_on_nonempty.
Qed.

(** ** Well-formed schedules *)

Record cron_wf (c : CronSchedule) : Prop := {
  wf_minutes : in_range _MINUTE (minutes c);
  wf_hours : in_range _HOUR (hours c);
  wf_dom : in_range _DOM (days_of_month c);
  wf_months : in_range _MONTH (months c);
  wf_dow : in_range (mkSpec 0 6) (days_of_week c)
}.

Lemma parse_wf text c : parse text = Ok c -> cron_wf c.
Proof.
  unfold parse. case_match; [done|]. case_match; [done|].
  destruct (split_on 32 _) as [|a [|b [|d [|e [|f [|? ?]]]]]]; try done.
  intros E. repeat (apply bind_Ok in E as (? & ? & E)). injection E as <-.
  split; simpl; try (eapply parse_field_range; [|eassumption]; done).
  match goal with Hd : _parse_field _ _DOW = Ok _ |- _ => apply parse_field_range in Hd as [Hne Hr]; [|done] end.
  split.
  - apply set_choose_L in Hne as [v Hv]. intros Hm.
    assert (v mod 7 ∈ (set_map (fun v => v mod 7) x : gset Z)) as Hin by (apply elem_of_map; eauto).
    rewrite Hm in Hin. set_solver.
  - intros v (w & -> & Hw)%elem_of_map. simpl. pose proof (Z.mod_pos_bound w 7 ltac:(lia)). lia.
Qed.

(** ** The search *)

Lemma sorted_values_sorted s : StronglySorted (fun a b => (a <=? b) = true) (sorted_values s).
Proof. apply sort_by_sorted; intros; zbool. Qed.
Lemma sorted_values_elem s v : v ∈ sorted_values s <-> v ∈ s.
Proof. unfold sorted_values. by rewrite sort_by_perm, elem_of_elements. Qed.

(** A time of day at or after the start, on the first day. *)
Definition not_skipped (first_day : bool) (sh sm h m : Z) : Prop :=
  first_day = true -> sh * 60 + sm <= h * 60 + m.

Lemma find_sorted (f : Z -> bool) l :
  StronglySorted (fun a b => (a <=? b) = true) l ->
  match List.find f l with
  | Some x => x ∈ l /\ f x = true /\ forall y, y ∈ l -> f y = true -> x <= y
  | None => forall y, y ∈ l -> f y = false
  end.
Proof.
  induction 1 as [|x l Hs IH Hall]; simpl; [inversion 1|]. rewrite Forall_forall in Hall.
  destruct (f x) eqn:E.
  - split; [by left|]. split; [done|]. intros y [->|Hy]%elem_of_cons _; [lia|].
    specialize (Hall y Hy). zbool.
  - destruct (List.find f l) as [z|].
    + destruct IH as (H1 & H2 & H3). split; [by right|]. split; [done|].
      intros y [->|Hy]%elem_of_cons Hf; [congruence|by apply H3].
    + intros y [->|Hy]%elem_of_cons; [done|by apply IH].
Qed.

Lemma first_time_spec hs ms first_day sh sm :
  StronglySorted (fun a b => (a <=? b) = true) hs -> StronglySorted (fun a b => (a <=? b) = true) ms ->
  (forall m, m ∈ ms -> 0 <= m <= 59) -> 0 <= sm <= 59 ->
  match first_time hs ms first_day sh sm with
  | Some (h, m) => h ∈ hs /\ m ∈ ms /\ not_skipped first_day sh sm h m /\
      forall h' m', h' ∈ hs -> m' ∈ ms -> not_skipped first_day sh sm h' m' -> h * 60 + m <= h' * 60 + m'
  | None => forall h' m', h' ∈ hs -> m' ∈ ms -> ~ not_skipped first_day sh sm h' m'
  end.
Proof.
  intros Hhs Hms Hm Hsm. induction Hhs as [|h hs Hs IH Hall]; cbn [first_time]; [inversion 1|].
  rewrite Forall_forall in Hall. assert (forall h', h' ∈ hs -> h <= h') as Hle.
  { intros h' Hh'. specialize (Hall h' Hh'). zbool. }
  assert (forall h' m', h' ∈ h :: hs -> m' ∈ ms -> not_skipped first_day sh sm h' m' ->
    (forall m', m' ∈ ms -> ~ not_skipped first_day sh sm h m') -> h' ∈ hs) as Hskip.
  { intros h' m' [->|Hh']%elem_of_cons Hm' Hns Hno; [by destruct (Hno m' Hm')|done]. }
  destruct (first_day && (h <? sh)) eqn:E1.
  { apply andb_true_iff in E1 as [-> E1%Z.ltb_lt].
    assert (forall m', m' ∈ ms -> ~ not_skipped true sh sm h m') as Hno.
    { intros m' Hm' Hns. specialize (Hns eq_refl). specialize (Hm m' Hm'). lia. }
    destruct (first_time hs ms true sh sm) as [[h1 m1]|].
    - destruct IH as (H1 & H2 & H3 & H4). split; [by right|]. do 2 (split; [done|]).
      intros h' m' Hh' Hm' Hns. apply H4; [|done|done]. by eapply Hskip.
    - intros h' m' Hh' Hm' Hns. eapply IH; [|exact Hm'|exact Hns]. by eapply Hskip. }
  assert (forall m', 0 <= m' <= 59 ->
    negb (first_day && (h =? sh) && (m' <? sm)) = true <-> not_skipped first_day sh sm h m') as Hf.
  { intros m' Hm'. unfold not_skipped. destruct first_day; cbn [andb] in *; [|by split].
    apply Z.ltb_ge in E1. destruct (Z.eqb_spec h sh) as [->|Hne]; cbn [andb].
    - destruct (Z.ltb_spec m' sm); simpl; split; intros; try done; [specialize (H0 eq_refl)|]; lia.
    - simpl. split; intros; try done. lia. }
  pose proof (find_sorted (fun minute => negb (first_day && (h =? sh) && (minute <? sm))) ms Hms) as Hfind.
  destruct (List.find _ ms) as [m|].
  - destruct Hfind as (H1 & H2 & H3). split; [by left|]. split; [done|].
    split; [apply Hf; [by apply Hm|done]|]. intros h' m' Hh' Hm' Hns. pose proof (Hm m H1). pose proof (Hm m' Hm').
    apply elem_of_cons in Hh' as [->|Hh'].
    + assert (m <= m') by (apply H3; [done|by apply Hf]). lia.
    + specialize (Hle h' Hh'). destruct (Z.eq_dec h h') as [<-|]; [|lia].
      assert (m <= m') by (apply H3; [done|by apply Hf]). lia.
  - assert (forall m', m' ∈ ms -> ~ not_skipped first_day sh sm h m') as Hno.
    { intros m' Hm' Hns. specialize (Hfind m' Hm'). apply Hf in Hns; [congruence|by apply Hm]. }
    destruct (first_time hs ms first_day sh sm) as [[h1 m1]|].
    + destruct IH as (H1 & H2 & H3 & H4). split; [by right|]. do 2 (split; [done|]).
      intros h' m' Hh' Hm' Hns. apply H4; [|done|done]. by eapply Hskip.
    + intros h' m' Hh' Hm' Hns. eapply IH; [|exact Hm'|exact Hns]. by eapply Hskip.
Qed.

(** ** The first firing minute *)

Definition minute_num (d h m : Z) : Z := (d * 24 + h) * 60 + m.
Definition fires (c : CronSchedule) (d h m : Z) : Prop :=
  _matches_date c d = true /\ h ∈ hours c /\ m ∈ minutes c.

Section Search.
Variable c : CronSchedule.
Hypothesis wf : cron_wf c.

Lemma fires_bounds d h m : fires c d h m -> 0 <= h <= 23 /\ 0 <= m <= 59.
Proof.
  intros (_ & Hh & Hm). split; [by apply (proj2 (wf_hours c wf))|by apply (proj2 (wf_minutes c wf))].
Qed.

(** The earliest minute the loop may return. *)
Definition lower (first_day : bool) (day sh sm : Z) : Z :=
  if first_day then minute_num day sh sm else minute_num day 0 0.

Lemma day_loop_spec fuel day last_day first_day sh sm :
  Z.of_nat fuel = Z.max 0 (last_day - day + 1) -> 0 <= sh <= 23 -> 0 <= sm <= 59 -> last_day <= MAXORDINAL ->
  match day_loop fuel c (sorted_values (hours c)) (sorted_values (minutes c)) day last_day first_day sh sm with
  | Ok t => fires c (dt_date t) (dt_hour t) (dt_minute t) /\ dt_second t = 0 /\ dt_microsecond t = 0 /\
      lower first_day day sh sm <= minute_num (dt_date t) (dt_hour t) (dt_minute t) /\
      dt_date t <= last_day /\
      forall d h m, fires c d h m -> lower first_day day sh sm <= minute_num d h m ->
        minute_num (dt_date t) (dt_hour t) (dt_minute t) <= minute_num d h m
  | Raise NoMatchingTime => forall d h m, fires c d h m -> lower first_day day sh sm <= minute_num d h m -> last_day < d
  | Raise OverflowError => last_day = MAXORDINAL
  | Raise _ => False
  end.
Proof.
  intros Hfuel Hsh Hsm Hmax. revert day first_day Hfuel; induction fuel as [|f IH]; intros day first_day Hfuel;
    cbn [day_loop].
  { intros d h m Hf Hl. pose proof (fires_bounds d h m Hf). unfold lower, minute_num in Hl.
    destruct first_day; lia. }
  destruct (Z.leb_spec day last_day); [|lia].
  pose proof (first_time_spec (sorted_values (hours c)) (sorted_values (minutes c)) first_day sh sm
    (sorted_values_sorted _) (sorted_values_sorted _)
    ltac:(intros m Hm; apply sorted_values_elem in Hm; by apply (proj2 (wf_minutes c wf))) Hsm) as Hft.
  assert (forall d h m, fires c d h m -> lower first_day day sh sm <= minute_num d h m ->
    day < d \/ d = day /\ _matches_date c day = true /\ not_skipped first_day sh sm h m) as Hcase.
  { intros d h m Hf Hl. pose proof (fires_bounds d h m Hf). destruct Hf as (Hd & _).
    unfold lower, minute_num, not_skipped in *. destruct first_day; [|destruct (Z.eq_dec d day)];
      try (destruct (Z.eq_dec d day)); subst; try (right; split; [done|]; split; [done|]; lia); left; lia. }
  set (found := if _matches_date c day then _ else None).
  destruct found as [[h m]|] eqn:Efound; unfold found in Efound.
  - destruct (_matches_date c day) eqn:Ed; [|done]. rewrite Efound in Hft. destruct Hft as (H1 & H2 & H3 & H4).
    rewrite sorted_values_elem in H1, H2. assert (fires c day h m) as Hf by done.
    pose proof (fires_bounds day h m Hf). cbn [dt_date dt_hour dt_minute dt_second dt_microsecond].
    split; [done|]. do 2 (split; [done|]). split; [|split; [done|]].
    + unfold lower, minute_num, not_skipped in *. destruct first_day; lia.
    + intros d' h' m' Hf' Hl. pose proof (fires_bounds d' h' m' Hf').
      destruct (Hcase d' h' m' Hf' Hl) as [Hlt|(-> & _ & Hns)]; [unfold minute_num; lia|].
      destruct Hf' as (_ & Hh' & Hm'). specialize (H4 h' m').
      rewrite !sorted_values_elem in H4. specialize (H4 Hh' Hm' Hns). unfold minute_num. lia.
  - assert (forall d h m, fires c d h m -> lower first_day day sh sm <= minute_num d h m -> day < d) as Hnext.
    { intros d h m Hf Hl. destruct (Hcase d h m Hf Hl) as [?|(-> & Hd & Hns)]; [done|]. exfalso.
      rewrite Hd in Efound. rewrite Efound in Hft. destruct Hf as (_ & Hh & Hm).
      by apply (Hft h m); [apply sorted_values_elem|apply sorted_values_elem|]. }
    unfold add_days. destruct (Z.ltb_spec MAXORDINAL (day + 1)); cbn [mbind result_bind]; [lia|].
    specialize (IH (day + 1) false ltac:(lia)).
    assert (forall d h m, fires c d h m -> lower first_day day sh sm <= minute_num d h m ->
      lower false (day + 1) sh sm <= minute_num d h m) as Hlow.
    { intros d h m Hf Hl. specialize (Hnext d h m Hf Hl). pose proof (fires_bounds d h m Hf).
      unfold lower, minute_num. lia. }
    destruct (day_loop f c _ _ (day + 1) last_day false sh sm) as [t|[]]; try done.
    + destruct IH as (H1 & H2 & H3 & H4 & H5 & H6). do 3 (split; [done|]). split; [|split; [done|eauto]].
      unfold lower, minute_num in *. destruct first_day; lia.
    + eauto.
Qed.
End Search.

(** ** The meaning of a field

    The items of a field, how they are written and what they mean. *)

Inductive item :=
| Star | StarStep (n : Z) | Single (a : Z) | SingleStep (a n : Z) | Range (a b : Z) | RangeStep (a b n : Z).

Definition print_item (i : item) : str :=
  match i with
  | Star => lit "*"
  | StarStep n => lit "*/" ++ dec n
  | Single a => dec a
  | SingleStep a n => dec a ++ lit "/" ++ dec n
  | Range a b => dec a ++ lit "-" ++ dec b
  | RangeStep a b n => dec a ++ lit "-" ++ dec b ++ lit "/" ++ dec n
  end.

(** First value, last value and step; a step of one after a single value
    leaves it single. *)
Definition item_progression (spec : _FieldSpec) (i : item) : Z * Z * Z :=
  match i with
  | Star => (low spec, high spec, 1)
  | StarStep n => (low spec, high spec, n)
  | Single a => (a, a, 1)
  | SingleStep a n => (a, if 1 <? n then high spec else a, n)
  | Range a b => (a, b, 1)
  | RangeStep a b n => (a, b, n)
  end.

Definition item_denotes (spec : _FieldSpec) (i : item) (v : Z) : Prop :=
  let '(lo, hi, step) := item_progression spec i in lo <= v <= hi /\ (v - lo) mod step = 0.

Definition small (n : Z) : Prop := 0 <= n /\ len (dec n) <= 4300.
Definition item_ok (spec : _FieldSpec) (i : item) : Prop :=
  match i with
  | Star => True
  | StarStep n => 1 <= n /\ small n
  | Single a => low spec <= a <= high spec
  | SingleStep a n => low spec <= a <= high spec /\ 1 <= n /\ small n
  | Range a b => low spec <= a <= b /\ b <= high spec
  | RangeStep a b n => low spec <= a <= b /\ b <= high spec /\ 1 <= n /\ small n
  end.

Lemma dec_ascii n : 0 <= n -> Forall (fun c => ascii_digit c = true) (dec n).
Proof. intros H. rewrite dec_nonneg by done. by apply dec_nat_digits. Qed.

Lemma ascii_digits_member x s :
  ascii_digit x = false -> Forall (fun c => ascii_digit c = true) s -> member x s = false.
Proof.
  intros Hx. induction 1 as [|c s Hc Hs IH]; [done|]. simpl. rewrite IH, orb_false_r.
  apply Z.eqb_neq. intros ->. congruence.
Qed.

Lemma ascii_digit_space c : ascii_digit c = true -> is_space c = false.
Proof.
  intros H. destruct (is_space c) eqn:E; [|done]. unfold ascii_digit, is_space in *.
  rewrite ?orb_true_iff, ?andb_true_iff, ?Z.leb_le, ?Z.eqb_eq in *. lia.
Qed.

Definition no_space (s : str) : Prop := Forall (fun c => is_space c = false) s.
Lemma strip_no_space s : no_space s -> strip s = s.
Proof.
  intros H. apply strip_stripped. split; [destruct H; done|]. apply Forall_rev in H. by destruct H.
Qed.
Lemma dec_no_space n : 0 <= n -> no_space (dec n).
Proof. intros H. eapply Forall_impl; [exact (dec_ascii n H)|]. intros c. apply ascii_digit_space. Qed.

Lemma dec_all_digits n : 0 <= n -> all_digits (dec n) = true.
Proof.
  intros H. unfold all_digits. pose proof (dec_ascii n H) as Hd. rewrite dec_nonneg in * by done.
  pose proof (dec_nat_nonempty n). destruct (dec_nat n) as [|c s]; [done|]. cbn [nonempty andb].
  apply forallb_forall. intros x Hx. rewrite Forall_forall in Hd. apply Hd. by apply list_elem_of_In.
Qed.

Lemma py_int_dec n : small n -> py_int (dec n) = Ok n.
Proof.
  intros [H Hl]. unfold py_int. destruct (Z.ltb_spec 4300 (len (dec n))); [lia|].
  by rewrite dec_nonneg, dec_nat_value.
Qed.

Lemma small_le n m : 0 <= n <= m -> m < 1000 -> small n.
Proof.
  intros H Hm. split; [lia|]. rewrite dec_nonneg by lia. pose proof (dec_nat_len_mono n 999 ltac:(lia)) as Hl.
  change (len (dec_nat 999)) with 3 in Hl. lia.
Qed.

Lemma parse_value_dec a spec :
  0 <= low spec -> high spec < 1000 -> low spec <= a <= high spec -> _parse_value (dec a) spec = Ok a.
Proof.
  intros Hl Hh Ha. unfold _parse_value. rewrite strip_no_space by (apply dec_no_space; lia).
  rewrite dec_all_digits by lia. cbn [negb]. rewrite py_int_dec by (apply (small_le a (high spec)); lia).
  cbn [mbind result_bind]. destruct (Z.leb_spec (low spec) a), (Z.leb_spec a (high spec)); try lia. done.
Qed.

Lemma partition_sep sep a b : member sep a = false -> partition sep (a ++ sep :: b) = (a, b).
Proof.
  induction a as [|c a IH]; simpl; [by rewrite Z.eqb_refl|]. intros [Hc Ha]%orb_false_iff.
  by rewrite Hc, IH.
Qed.

Lemma dec_no_sep x n : 0 <= n -> ascii_digit x = false -> member x (dec n) = false.
Proof. intros Hn Hx. apply ascii_digits_member; [done|by apply dec_ascii]. Qed.

Lemma dec_not_star n : 0 <= n -> str_eqb (dec n) (lit "*") = false.
Proof.
  intros H. apply bool_decide_eq_false. intros E. pose proof (dec_no_sep 42 n H eq_refl) as Hm.
  by rewrite E in Hm.
Qed.

Section Fields.
Variable spec : _FieldSpec.
Hypothesis spec_low : 0 <= low spec.
Hypothesis spec_high : high spec < 1000.

Lemma item_bounds_star step : item_bounds (lit "*") step spec = Ok (low spec, high spec).
Proof. done. Qed.
Lemma item_bounds_single a step :
  low spec <= a <= high spec -> item_bounds (dec a) step spec = Ok (a, if 1 <? step then high spec else a).
Proof.
  intros Ha. unfold item_bounds. rewrite dec_not_star, dec_no_sep by (done || lia).
  by rewrite parse_value_dec.
Qed.
Lemma item_bounds_dash a b step :
  low spec <= a <= b -> b <= high spec -> item_bounds (dec a ++ lit "-" ++ dec b) step spec = Ok (a, b).
Proof.
  intros Ha Hb. unfold item_bounds. change (lit "-" ++ dec b) with (45 :: dec b).
  replace (str_eqb (dec a ++ 45 :: dec b) (lit "*")) with false.
  2: { symmetry. apply bool_decide_eq_false. intros E. apply (f_equal (member 45)) in E.
       rewrite member_app in E. simpl in E. by rewrite orb_true_r in E. }
  rewrite member_app. cbn [member]. rewrite Z.eqb_refl, orb_true_r.
  rewrite partition_sep by (apply dec_no_sep; [lia|done]). rewrite !parse_value_dec by (done || lia).
  cbn [mbind result_bind]. destruct (Z.ltb_spec b a); [lia|done].
Qed.

(** A body with a step behind it. *)
Lemma parse_item_step body n :
  member 47 body = false -> no_space body -> 1 <= n -> small n ->
  _parse_field_item (body ++ lit "/" ++ dec n) spec =
    ('(lo, hi) ← item_bounds body n spec; Ok (step_range lo hi n)).
Proof.
  intros Hb Hs Hn Hsm. unfold _parse_field_item. change (lit "/" ++ dec n) with (47 :: dec n).
  rewrite member_app. cbn [member]. rewrite Z.eqb_refl, orb_true_r.
  rewrite partition_sep by done. rewrite dec_no_sep, dec_all_digits by (done || lia). cbn [negb].
  rewrite py_int_dec by done. cbn [mbind result_bind]. destruct (Z.ltb_spec n 1); [lia|].
  cbn [mbind result_bind]. by rewrite strip_no_space.
Qed.
Lemma parse_item_plain body :
  member 47 body = false ->
  _parse_field_item body spec = ('(lo, hi) ← item_bounds body 1 spec; Ok (step_range lo hi 1)).
Proof. intros Hb. unfold _parse_field_item. by rewrite Hb. Qed.

Lemma dash_plain a b : 0 <= a -> 0 <= b ->
  member 47 (dec a ++ lit "-" ++ dec b) = false /\ no_space (dec a ++ lit "-" ++ dec b).
Proof.
  intros Ha Hb. split; [rewrite !member_app, !dec_no_sep by done; done|].
  apply Forall_app; split; [by apply dec_no_space|]. apply Forall_app; split; [by repeat constructor|by apply dec_no_space].
Qed.

Lemma parse_item_print i :
  item_ok spec i -> low spec <= high spec ->
  exists vs, _parse_field_item (print_item i) spec = Ok vs /\ forall v, v ∈ vs <-> item_denotes spec i v.
Proof.
  intros Hi Hle. unfold item_denotes.
  assert (forall lo hi step, lo <= hi -> 1 <= step -> exists vs, @Ok cron_error _ (step_range lo hi step) = Ok vs /\
    forall v, v ∈ vs <-> lo <= v <= hi /\ (v - lo) mod step = 0) as Hfin.
  { intros lo hi step H1 H2. eexists; split; [reflexivity|]. intros v. by apply step_range_elem. }
  destruct i as [|n|a|a n|a b|a b n]; cbn [item_ok print_item item_progression] in *.
  - rewrite parse_item_plain by done. rewrite item_bounds_star. cbn [mbind result_bind]. apply Hfin; lia.
  - destruct Hi as [Hn Hsm]. change (lit "*/" ++ dec n) with (lit "*" ++ lit "/" ++ dec n).
    rewrite parse_item_step by (done || by repeat constructor).
    rewrite item_bounds_star. cbn [mbind result_bind]. apply Hfin; lia.
  - rewrite parse_item_plain by (apply dec_no_sep; [lia|done]). rewrite item_bounds_single by done.
    cbn [mbind result_bind]. apply Hfin; lia.
  - destruct Hi as (Ha & Hn & Hsm). rewrite parse_item_step; [|apply dec_no_sep; [lia|done]|apply dec_no_space; lia|done|done].
    rewrite item_bounds_single by done. cbn [mbind result_bind]. apply Hfin; [|lia]. destruct (1 <? n); lia.
  - destruct Hi as (Ha & Hb). rewrite parse_item_plain by (apply dash_plain; lia).
    rewrite item_bounds_dash by done. cbn [mbind result_bind]. apply Hfin; lia.
  - destruct Hi as (Ha & Hb & Hn & Hsm). destruct (dash_plain a b ltac:(lia) ltac:(lia)) as [Hm Hsp].
    replace (dec a ++ lit "-" ++ dec b ++ lit "/" ++ dec n) with ((dec a ++ lit "-" ++ dec b) ++ lit "/" ++ dec n)
      by (by rewrite <- !app_assoc).
    rewrite parse_item_step by done. rewrite item_bounds_dash by done. cbn [mbind result_bind]. apply Hfin; lia.
Qed.
End Fields.

Definition item_char (c : Z) : bool := ascii_digit c || (c =? 42) || (c =? 47) || (c =? 45).

Lemma item_char_spec c :
  item_char c = true -> is_space c = false /\ (c =? 44) = false /\ allowed_char c = true.
Proof.
  unfold item_char, allowed_char. rewrite !orb_true_iff, !Z.eqb_eq. intros H.
  assert (is_space c = false) as ->
    by (destruct H as [[[H| ->]| ->]| ->]; [by apply ascii_digit_space|done..]).
  split; [done|]. split; [apply Z.eqb_neq; intros ->; destruct H as [[[H|H]|H]|H]; done|].
  tauto.
Qed.

Lemma print_item_chars spec i :
  0 <= low spec -> item_ok spec i ->
  Forall (fun c => item_char c = true) (print_item i) /\ print_item i <> [].
Proof.
  intros Hl Hi.
  assert (forall n, 0 <= n -> Forall (fun c => item_char c = true) (dec n) /\ dec n <> []) as Hd.
  { intros n Hn. split.
    - eapply Forall_impl; [exact (dec_ascii n Hn)|]. intros c Hc. unfold item_char. by rewrite Hc.
    - rewrite dec_nonneg by done. apply dec_nat_nonempty. }
  assert (forall s t, Forall (fun c => item_char c = true) s /\ s <> [] ->
    Forall (fun c => item_char c = true) t -> Forall (fun c => item_char c = true) (s ++ t) /\ s ++ t <> []) as Happ.
  { intros s t [H1 H2] H3. split; [by apply Forall_app|]. by destruct s. }
  assert (forall s, Forall (fun c => item_char c = true) (lit "/" ++ s) <-> Forall (fun c => item_char c = true) s) as Hslash.
  { intros s. rewrite Forall_app. split; [tauto|]. intros H; split; [by repeat constructor|done]. }
  assert (forall s, Forall (fun c => item_char c = true) (lit "-" ++ s) <-> Forall (fun c => item_char c = true) s) as Hdash.
  { intros s. rewrite Forall_app. split; [tauto|]. intros H; split; [by repeat constructor|done]. }
  destruct i as [|n|a|a n|a b|a b n]; cbn [item_ok print_item] in *; unfold small in *.
  - by repeat constructor.
  - apply Happ; [by repeat constructor|apply Hd; lia].
  - apply Hd; lia.
  - apply Happ; [apply Hd; lia|]. apply Hslash, Hd; lia.
  - apply Happ; [apply Hd; lia|]. apply Hdash, Hd; lia.
  - apply Happ; [apply Hd; lia|]. apply Hdash. apply Happ; [apply Hd; lia|]. apply Hslash, Hd; lia.
Qed.

Lemma parse_parts_print spec items s :
  0 <= low spec <= high spec -> high spec < 1000 -> Forall (item_ok spec) items ->
  exists s', foldM (parse_part spec) (map print_item items) s = Ok s' /\
    forall v, v ∈ s' <-> v ∈ s \/ Exists (fun i => item_denotes spec i v) items.
Proof.
  intros Hl Hh H. revert s; induction H as [|i items Hi Hitems IH]; intros s; cbn [map foldM].
  - exists s. split; [done|]. intros v. rewrite Exists_nil. tauto.
  - destruct (print_item_chars spec i ltac:(lia) Hi) as [Hc Hne].
    assert (no_space (print_item i)) as Hsp.
    { eapply Forall_impl; [exact Hc|]. intros c. apply item_char_spec. }
    unfold parse_part at 1. rewrite strip_no_space by done.
    destruct (parse_item_print spec ltac:(lia) Hh i Hi ltac:(lia)) as (vs & E & Hvs).
    destruct (print_item i) as [|c p] eqn:Ep; [done|]. cbn [nonempty negb].
    rewrite E. cbn [mbind result_bind]. destruct (IH (s ∪ list_to_set vs)) as (s' & E' & Hs').
    exists s'. split; [done|]. intros v. rewrite Hs', elem_of_union, elem_of_list_to_set, Hvs, Exists_cons. tauto.
Qed.

(** ** Properties *)

(** [_parse_field] gives every well-formed field its meaning: a
    comma-separated list of stars, values, ranges and steps denotes exactly the
    union of the arithmetic progressions its items stand for. *)
Theorem cron_field_semantics spec items :
  0 <= low spec <= high spec -> high spec < 1000 -> items <> [] -> Forall (item_ok spec) items ->
  exists s, _parse_field (join (lit ",") (map print_item items)) spec = Ok s /\
    forall v, v ∈ s <-> Exists (fun i => item_denotes spec i v) items.
Proof.
  intros Hl Hh Hne Hok. set (ps := map print_item items).
  assert (Forall (fun p => Forall (fun c => item_char c = true) p /\ p <> []) ps) as Hps.
  { apply Forall_fmap. eapply Forall_impl; [exact Hok|]. intros i Hi. apply (print_item_chars spec); [lia|done]. }
  assert (Forall (fun c => is_space c = false /\ allowed_char c = true) (join (lit ",") ps)) as Hall.
  { clear -Hps. induction Hps as [|p ps [Hp _] Hps IH]; [done|].
    assert (Forall (fun c => is_space c = false /\ allowed_char c = true) p) as Hp'.
    { eapply Forall_impl; [exact Hp|]. intros c Hc. apply item_char_spec in Hc. tauto. }
    destruct ps as [|q ps]; [done|]. rewrite join_cons_ne by done.
    apply Forall_app; split; [done|]. apply Forall_app; split; [by repeat constructor|done]. }
  unfold _parse_field. rewrite strip_no_space by (eapply Forall_impl; [exact Hall|]; simpl; tauto).
  assert (join (lit ",") ps <> []) as Hj.
  { assert (ps <> []) as Hpsne by (unfold ps; by destruct items).
    clear -Hps Hpsne. destruct Hps as [|p ps' [_ Hp] Hps']; [done|]. destruct ps'; [done|].
    rewrite join_cons_ne by done. by destruct p. }
  replace (nonempty (join (lit ",") ps)) with true by (by destruct (join (lit ",") ps)). cbn [negb].
  replace (forallb allowed_char (join (lit ",") ps)) with true.
  2: { symmetry. apply forallb_forall. intros c Hc. rewrite Forall_forall in Hall. apply Hall. by apply list_elem_of_In. }
  cbn [negb]. change (lit ",") with [44] at 1. rewrite split_on_join.
  - destruct (parse_parts_print spec items ∅ Hl Hh Hok) as (s & E & Hs). exists s. split; [done|].
    intros v. rewrite Hs. set_solver.
  - unfold ps. by destruct items.
  - eapply Forall_impl; [exact Hps|]. intros p [Hp _]. clear -Hp. induction Hp as [|c p Hc Hp IH]; [done|].
    simpl. apply item_char_spec in Hc as (_ & -> & _). done.
Qed.

(** Every schedule [parse] returns has non-empty fields inside their
    ranges, Sunday as 0 only. *)
Theorem cron_parse_well_formed text c : parse text = Ok c -> cron_wf c.
Proof. apply parse_wf. Qed.

Definition dt_num (t : datetime) : Z :=
  (minute_num (dt_date t) (dt_hour t) (dt_minute t) * 60 + dt_second t) * 1000000 + dt_microsecond t.
Definition dt_valid (t : datetime) : Prop :=
  0 <= dt_hour t <= 23 /\ 0 <= dt_minute t <= 59 /\ 0 <= dt_second t <= 59 /\ 0 <= dt_microsecond t < 1000000.
Definition whole_minute (t : datetime) : Prop := dt_second t = 0 /\ dt_microsecond t = 0.

Lemma matches_fires c t : matches c t = true <-> fires c (dt_date t) (dt_hour t) (dt_minute t).
Proof.
  unfold matches, fires. destruct (bool_decide (dt_minute t ∈ minutes c)) eqn:E1,
    (bool_decide (dt_hour t ∈ hours c)) eqn:E2; cbn [negb orb];
    rewrite ?bool_decide_eq_true, ?bool_decide_eq_false in *; tauto || (split; [done|tauto]).
Qed.

Lemma next_minute_spec after :
  dt_valid after ->
  match next_minute after with
  | Ok (d, h, m) => minute_num d h m = minute_num (dt_date after) (dt_hour after) (dt_minute after) + 1 /\
      0 <= h <= 23 /\ 0 <= m <= 59 /\ dt_date after <= d
  | Raise e => e = OverflowError /\ MAXORDINAL <= dt_date after
  end.
Proof.
  intros (Hh & Hm & _). unfold next_minute. set (t := dt_hour after * 60 + dt_minute after + 1).
  destruct (Z.ltb_spec t 1440).
  - pose proof (Z.div_mod t 60 ltac:(lia)). pose proof (Z.mod_pos_bound t 60 ltac:(lia)). unfold minute_num. lia.
  - unfold add_days. destruct (Z.ltb_spec MAXORDINAL (dt_date after + 1)); cbn [mbind result_bind];
      [split; [done|lia]|unfold minute_num; lia].
Qed.

(** C5: [next_fire_after] returns the first firing minute: a time that matches
    the schedule, strictly after the given one, and such that no matching
    minute lies between; when it reports that nothing matches, nothing matches
    within the search horizon; any other failure is the end of the calendar. *)
Theorem next_fire_first c after :
  cron_wf c -> dt_valid after ->
  match next_fire_after c after with
  | Ok t => matches c t = true /\ whole_minute t /\ dt_num after < dt_num t /\
      forall u, whole_minute u -> matches c u = true -> dt_num after < dt_num u -> dt_num t <= dt_num u
  | Raise NoMatchingTime =>
      forall u, whole_minute u -> matches c u = true -> dt_num after < dt_num u ->
        dt_date after + SEARCH_HORIZON_DAYS < dt_date u
  | Raise e => e = OverflowError /\ MAXORDINAL <= dt_date after + SEARCH_HORIZON_DAYS
  end.
Proof.
  intros Hwf Hv. unfold next_fire_after. pose proof (next_minute_spec after Hv) as Hn.
  destruct (next_minute after) as [[[d h] m]|e]; cbn [mbind result_bind].
  2: { destruct Hn as [-> Hn]. split; [done|]. unfold SEARCH_HORIZON_DAYS. lia. }
  destruct Hn as (Hnum & Hh & Hm & Hd). unfold add_days.
  destruct (Z.ltb_spec MAXORDINAL (dt_date after + SEARCH_HORIZON_DAYS)); cbn [mbind result_bind]; [split; [done|lia]|].
  assert (d <= dt_date after + 1) as Hd1 by (unfold minute_num in Hnum; destruct Hv; lia).
  pose proof (day_loop_spec c Hwf (Z.to_nat (dt_date after + SEARCH_HORIZON_DAYS - d + 1)) d
    (dt_date after + SEARCH_HORIZON_DAYS) true h m ltac:(unfold SEARCH_HORIZON_DAYS; lia) Hh Hm ltac:(lia)) as Hs.
  assert (forall u, whole_minute u -> dt_num after < dt_num u ->
    lower true d h m <= minute_num (dt_date u) (dt_hour u) (dt_minute u)) as Hafter.
  { intros u [Hu1 Hu2] Hlt. unfold lower, dt_num in *. rewrite Hnum. rewrite Hu1, Hu2 in Hlt.
    destruct Hv as (_ & _ & Hs1 & Hs2). lia. }
  destruct (day_loop _ c _ _ d _ true h m) as [t|[]]; try done.
  - destruct Hs as (H1 & H2 & H3 & H4 & _ & H6). split; [by apply matches_fires|]. split; [done|]. split.
    + unfold lower, dt_num in *. rewrite H2, H3. destruct Hv as (_ & _ & Hs1 & Hs2). lia.
    + intros u Hu Hmu Hlt. specialize (H6 _ _ _ (proj1 (matches_fires c u) Hmu) (Hafter u Hu Hlt)).
      destruct Hu as [Hu1 Hu2]. unfold dt_num. rewrite H2, H3, Hu1, Hu2. lia.
  - intros u Hu Hmu Hlt. exact (Hs _ _ _ (proj1 (matches_fires c u) Hmu) (Hafter u Hu Hlt)).
  - split; [done|lia].
Qed.

Definition leap_day : str := lit "0 0 29 2 *".

(** Four years are not enough from every starting point: after the leap
    day of 2096 the next one is in 2104, as 2100 is no leap year, and the
    search for ["0 0 29 2 *"] from 1 March 2097 finds nothing, although 29
    February 2104 matches. *)
Theorem leap_day_horizon_too_short :
  match parse leap_day with
  | Ok c => next_fire_after c (mkDT (ymd2ord 2097 3 1) 0 0 0 0) = Raise NoMatchingTime /\
            matches c (mkDT (ymd2ord 2104 2 29) 0 0 0 0) = true
  | Raise _ => False
  end.
Proof. by vm_compute. Qed.

Lemma cron_field_semantics_witness :
  exists s, _parse_field (lit "1-5/2,30") _MINUTE = Ok s /\
    forall v, v ∈ s <-> Exists (fun i => item_denotes _MINUTE i v) [RangeStep 1 5 2; Single 30].
Proof.
  apply (cron_field_semantics _MINUTE [RangeStep 1 5 2; Single 30]); cbn; try lia; [done|].
  repeat constructor; cbn; try lia. all: vm_compute; discriminate.
Defined.

Lemma cron_parse_well_formed_witness : exists c, parse leap_day = Ok c /\ cron_wf c.
Proof.
  destruct (parse leap_day) as [c|] eqn:E; [|vm_compute in E; discriminate E].
  exists c. split; [reflexivity|]. exact (cron_parse_well_formed leap_day c E).
Defined.

Lemma next_fire_first_witness :
  exists c, parse (lit "30 9 * * 1") = Ok c /\
    match next_fire_after c (mkDT 739656 9 30 0 0) with
    | Ok t => t = mkDT 739663 9 30 0 0 /\ matches c t = true
    | Raise _ => False
    end.
Proof.
  destruct (parse (lit "30 9 * * 1")) as [c|] eqn:E; [|vm_compute in E; discriminate E].
  exists c. split; [reflexivity|].
  pose proof (next_fire_first c (mkDT 739656 9 30 0 0) (parse_wf _ c E) ltac:(cbv; intuition discriminate)) as H.
  assert (next_fire_after c (mkDT 739656 9 30 0 0) = Ok (mkDT 739663 9 30 0 0)) as Hn.
  { vm_compute in E. injection E as <-. by vm_compute. }
  rewrite Hn in H |- *. split; [reflexivity|exact (proj1 H)].
Defined.
