(* ===== verification/Shlex.v ===== *)
(** * [shlex.split]

    The POSIX tokenizer of the standard library as [shlex.split(s)] runs it:
    split at white space, quotes and backslashes, no comment character.  The
    state of [shlex.read_token] is kept as the module keeps it. *)

From stdpp Require Import base list strings numbers.
From Stdlib Require Import ZArith Lia.
From S2P Require Import Prelude PyStr PyVal.

Definition SQ : Z := 39.
Definition DQ : Z := 34.
Definition BS : Z := 92.

(** [shlex.whitespace], [shlex.quotes], [shlex.escape]. *)
Definition sh_space (c : Z) : bool := (c =? 32) || (c =? 9) || (c =? CR) || (c =? NL).
Definition sh_quote (c : Z) : bool := (c =? SQ) || (c =? DQ).

Inductive sh_state :=
| Blank                      (* ' ' *)
| Word                       (* 'a' *)
| Quoted (q : Z)             (* a quote character *)
| Escaped (from : option Z). (* a backslash, seen in a word or in a quotation *)

Inductive sh_error := NoClosingQuotation | NoEscapedCharacter.

(** [token] is the token so far and [quoted] whether it had a quotation, so
    that it counts even when it is empty. *)
Fixpoint sh_run (s : str) (st : sh_state) (token : str) (quoted : bool) (out : list str)
    : result sh_error (list str) :=
  let emit := if nonempty token || quoted then out ++ [token] else out in
  match s with
  | [] =>
      match st with
      | Blank | Word => Ok emit
      | Quoted _ => Raise NoClosingQuotation
      | Escaped _ => Raise NoEscapedCharacter
      end
  | c :: s' =>
      match st with
      | Blank =>
          if sh_space c then sh_run s' Blank [] false emit
          else if c =? BS then sh_run s' (Escaped None) token quoted out
          else if sh_quote c then sh_run s' (Quoted c) token quoted out
          else sh_run s' Word [c] quoted out
      | Word =>
          if sh_space c then sh_run s' Blank [] false emit
          else if sh_quote c then sh_run s' (Quoted c) token quoted out
          else if c =? BS then sh_run s' (Escaped None) token quoted out
          else sh_run s' Word (token ++ [c]) quoted out
      | Quoted q =>
          if c =? q then sh_run s' Word token true out
          else if (c =? BS) && (q =? DQ) then sh_run s' (Escaped (Some q)) token true out
          else sh_run s' (Quoted q) (token ++ [c]) true out
      | Escaped None => sh_run s' Word (token ++ [c]) quoted out
      | Escaped (Some q) =>
          let token := if negb (c =? BS) && negb (c =? q) then token ++ [BS] else token in
          sh_run s' (Quoted q) (token ++ [c]) quoted out
      end
  end.

Definition shlex_split (s : str) : result sh_error (list str) := sh_run s Blank [] false [].

(** ** Plain words

    A command of words without quotes and backslashes, separated by single
    spaces, is split into those words. *)
Definition plain_char (c : Z) : bool := negb (sh_space c) && negb (sh_quote c) && negb (c =? BS).
Definition plain_word (w : str) : Prop := w <> [] /\ Forall (fun c => plain_char c = true) w.

Lemma plain_char_cases c : plain_char c = true -> sh_space c = false /\ sh_quote c = false /\ (c =? BS) = false.
Proof. unfold plain_char. rewrite !andb_true_iff, !negb_true_iff. tauto. Qed.

Lemma sh_run_word w s token out :
  Forall (fun c => plain_char c = true) w ->
  sh_run (w ++ s) Word token false out = sh_run s Word (token ++ w) false out.
Proof.
  intros H. revert token; induction H as [|c w Hc Hw IH]; intros token; [by rewrite app_nil_r|].
  cbn [app sh_run]. destruct (plain_char_cases c Hc) as (-> & -> & ->). by rewrite IH, <- app_assoc.
Qed.

Lemma sh_run_blank_word w s out :
  plain_word w -> sh_run (w ++ s) Blank [] false out = sh_run s Word w false out.
Proof.
  intros [Hne Hw]. destruct Hw as [|c w Hc Hw]; [done|]. cbn [app sh_run].
  destruct (plain_char_cases c Hc) as (-> & -> & ->). by rewrite sh_run_word.
Qed.

Lemma shlex_split_words ws : Forall plain_word ws -> shlex_split (join (lit " ") ws) = Ok ws.
Proof.
  intros H. unfold shlex_split.
  assert (forall out, sh_run (join (lit " ") ws) Blank [] false out = Ok (out ++ ws)) as Hall.
  { induction H as [|w ws Hw Hws IH]; intros out; [simpl; by rewrite app_nil_r|].
    destruct ws as [|w2 ws].
    - simpl join. rewrite <- (app_nil_r w), sh_run_blank_word, app_nil_r by done. destruct Hw as [Hne _]. by destruct w.
    - rewrite join_cons_ne by done. rewrite sh_run_blank_word by done. change (lit " ") with [32] at 1. cbn [app sh_run].
      change (sh_space 32) with true. cbv iota. rewrite IH. destruct Hw as [Hne _].
      destruct w; [done|]. cbn [nonempty orb]. by rewrite <- app_assoc. }
  apply Hall.
Qed.

(** Quotes and backslashes. *)
Example shlex_quotes :
  shlex_split (lit "git commit -m 'two words' a\ b") =
    Ok [lit "git"; lit "commit"; lit "-m"; lit "two words"; lit "a b"] /\
  shlex_split (lit "echo 'open") = Raise NoClosingQuotation.
Proof. by vm_compute. Qed.
