(* ===== verification/Permissions.v ===== *)
(** * Permission rules

    Models [kolega_code/permissions.py]: how a tool call becomes a permission
    request, which stored rules allow it, which rules the user is offered, and
    the store of rules.  [casefold] and [repr] stand for [str.casefold] and the
    rendering of containers; ids and timestamps of new rules are arguments. *)

From stdpp Require Import base list strings numbers.
From Stdlib Require Import ZArith Lia.
From S2P Require Import Prelude PyStr PyVal Shlex CodexPatch.

Inductive PermissionMode := AUTO | ASK.
Inductive PermissionKind := COMMAND | EDIT | MCP | MESSAGE.

#[global] Instance PermissionKind_eq_dec : EqDecision PermissionKind.
Proof. solve_decision. Defined.

Definition kind_value (k : PermissionKind) : str :=
  match k with COMMAND => lit "command" | EDIT => lit "edit" | MCP => lit "mcp" | MESSAGE => lit "message" end.
Definition kind_of_value (s : str) : option PermissionKind :=
  if str_eqb s (lit "command") then Some COMMAND
  else if str_eqb s (lit "edit") then Some EDIT
  else if str_eqb s (lit "mcp") then Some MCP
  else if str_eqb s (lit "message") then Some MESSAGE else None.

Definition COMMAND_PERMISSION_TOOLS : list str := [lit "execute_terminal_command"; lit "exec_command"; lit "eval"].
Definition EDIT_PERMISSION_TOOLS : list str :=
  [lit "edit"; lit "apply_patch"; lit "lsp_edit"; lit "multi_edit"; lit "resolve"; lit "write"].
Definition MESSAGE_PERMISSION_TOOLS : list str := [lit "send_message"].
Definition PERMISSIONS_SCHEMA_VERSION : Z := 1.

Record PermissionRequest := mkRequest {
  req_kind : PermissionKind;
  req_tool : str;
  inputs : list (str * value);
  command : str;
  req_path : str;
  mcp_server : str;
  mcp_tool : str
}.

Definition summary (r : PermissionRequest) : str :=
  match req_kind r with
  | COMMAND => command r
  | MCP => if nonempty (mcp_server r) then mcp_server r ++ lit "/" ++ mcp_tool r else req_tool r
  | MESSAGE => command r
  | EDIT => if nonempty (req_path r) then req_tool r ++ lit " " ++ req_path r else req_tool r
  end.

Record PermissionRule := mkRule {
  rule_id : str;
  rule_kind : PermissionKind;
  tool : str;
  match_type : str;
  pattern : str;
  created_at : str
}.

Inductive store_error :=
| Malformed               (* Permission rule is malformed *)
| CouldNotRead            (* an OSError *)
| NotJson                 (* not valid JSON *)
| UnsupportedSchema
| NoRulesArray
| AttributeError          (* the document is not an object *)
| UnicodeDecodeError.     (* the file is not UTF-8 *)

(** The others are [PermissionStoreError]s; these two are not. *)
Definition is_store_error (e : store_error) : bool :=
  match e with AttributeError | UnicodeDecodeError => false | _ => true end.

Definition PermissionRule_create (fresh : str * str) (k : PermissionKind) (t m p : str) : PermissionRule :=
  mkRule (fst fresh) k t m p (snd fresh).

(** ** Matching *)

Definition _shell_tokens (cmd : str) : list str :=
  match shlex_split cmd with Ok tokens => tokens | Raise _ => split_ws cmd end.
Definition _first_shell_token (cmd : str) : str :=
  match _shell_tokens cmd with t :: _ => t | [] => [] end.

Definition _matches_command (match_type pattern cmd : str) : bool :=
  if str_eqb match_type (lit "exact") then str_eqb cmd pattern
  else if str_eqb match_type (lit "prefix") then str_eqb cmd pattern || startswith (pattern ++ lit " ") cmd
  else if str_eqb match_type (lit "executable") then str_eqb (_first_shell_token cmd) pattern
  else false.

(** [rule.pattern in {"*", request.tool_name}]. *)
Definition tool_pattern (rule : PermissionRule) (request : PermissionRequest) : bool :=
  str_eqb (pattern rule) (lit "*") || str_eqb (pattern rule) (req_tool request).

Definition _matches_edit (rule : PermissionRule) (request : PermissionRequest) : bool :=
  if str_eqb (match_type rule) (lit "tool") then tool_pattern rule request
  else if str_eqb (match_type rule) (lit "path")
  then nonempty (req_path request) && str_eqb (req_path request) (pattern rule) else false.

Definition _matches_mcp (rule : PermissionRule) (request : PermissionRequest) : bool :=
  if str_eqb (match_type rule) (lit "tool") then tool_pattern rule request
  else if str_eqb (match_type rule) (lit "server")
  then nonempty (mcp_server request) && str_eqb (mcp_server request) (pattern rule) else false.

Section Permissions.
Variable casefold : str -> str.
Variable repr : value -> str.

Definition recipient_of (request : PermissionRequest) : str :=
  strip (str_or_empty repr (get (inputs request) (lit "recipient"))).

Definition _matches_message (rule : PermissionRule) (request : PermissionRequest) : bool :=
  if str_eqb (match_type rule) (lit "tool") then tool_pattern rule request
  else if str_eqb (match_type rule) (lit "recipient") then
    let recipient := casefold (recipient_of request) in
    nonempty recipient && str_eqb recipient (casefold (strip (pattern rule)))
  else false.

Definition matches (rule : PermissionRule) (request : PermissionRequest) : bool :=
  if negb (bool_decide (rule_kind rule = req_kind request)) then false
  else if nonempty (tool rule) && negb (str_eqb (tool rule) (lit "*"))
          && negb (str_eqb (tool rule) (req_tool request)) then false
  else match rule_kind rule with
       | COMMAND => _matches_command (match_type rule) (pattern rule) (command request)
       | MCP => _matches_mcp rule request
       | MESSAGE => _matches_message rule request
       | EDIT => _matches_edit rule request
       end.

(** ** From a tool call to a request *)

Definition _message_summary (recipient text : str) : str :=
  let preview := match splitlines (strip text) with l :: _ => strip l | [] => [] end in
  let preview := if 80 <? len preview then slice_to preview 77 ++ lit "..." else preview in
  if negb (nonempty recipient) then preview
  else if nonempty preview then lit "to " ++ recipient ++ lit ": " ++ preview
  else lit "to " ++ recipient.

(** [s.split("__", 1)] when the separator occurs. *)
Fixpoint split_dunder (s : str) : option (str * str) :=
  match s with
  | [] => None
  | c :: s' =>
      if startswith (lit "__") s then Some ([], slice_from s 2)
      else match split_dunder s' with Some (a, b) => Some (c :: a, b) | None => None end
  end.

Definition _mcp_target_from_tool_name (tool_name : str) : option (str * str) :=
  if negb (startswith (lit "mcp__") tool_name) then None
  else match split_dunder (slice_from tool_name 5) with
       | None => None
       | Some (server_id, mcp_tool) =>
           if nonempty server_id && nonempty mcp_tool then Some (server_id, mcp_tool) else None
       end.

(** [dict.fromkeys]: the first occurrences. *)
Fixpoint distinct (seen l : list str) : list str :=
  match l with
  | [] => []
  | x :: l' => if str_in x seen then distinct seen l' else x :: distinct (x :: seen) l'
  end.

Definition patch_paths (ops : list PatchOperation) : list str :=
  distinct [] (concat (map (fun o => op_path o :: match move_to o with Some m => [m] | None => [] end) ops)).

Definition _path_from_edit_inputs (ins : list (str * value)) (tool_name : str) : str :=
  if str_eqb tool_name (lit "apply_patch") then
    match get ins (lit "input") with
    | VStr raw =>
        match parse_codex_patch raw with
        | Raise _ => []
        | Ok operations => match patch_paths operations with [p] => p | _ => [] end
        end
    | _ => []
    end
  else
    let v := match get ins (lit "path") with VNone => get ins (lit "file_path") | v => v end in
    let path := match v with VNone => [] | v => strip (py_str repr v) end in
    if str_eqb tool_name (lit "edit") && truthy (get ins (lit "rename"))
    then path ++ lit " -> " ++ strip (py_str repr (get ins (lit "rename")))
    else if match get ins (lit "operation") with VStr s => str_eqb s (lit "rename_file") | _ => false end
            && truthy (get ins (lit "new_path"))
    then path ++ lit " -> " ++ strip (py_str repr (get ins (lit "new_path")))
    else path.

Definition permission_request_for_tool (tool_name : str) (ins : list (str * value)) : option PermissionRequest :=
  if str_eqb tool_name (lit "eval") then
    let language := strip (str_or_empty repr (get ins (lit "language"))) in
    let language := if nonempty language then language else lit "?" in
    let code := strip (str_or_empty repr (get ins (lit "code"))) in
    Some (mkRequest COMMAND tool_name ins (lit "[" ++ language ++ lit "] " ++ code) [] [] [])
  else if str_in tool_name COMMAND_PERMISSION_TOOLS then
    Some (mkRequest COMMAND tool_name ins (strip (str_or_empty repr (get ins (lit "command")))) [] [] [])
  else if str_in tool_name EDIT_PERMISSION_TOOLS then
    Some (mkRequest EDIT tool_name ins [] (_path_from_edit_inputs ins tool_name) [] [])
  else if str_in tool_name MESSAGE_PERMISSION_TOOLS then
    let recipient := strip (str_or_empty repr (get ins (lit "recipient"))) in
    let text := str_or_empty repr (get ins (lit "text")) in
    Some (mkRequest MESSAGE tool_name ins (_message_summary recipient text) [] [] [])
  else
    match _mcp_target_from_tool_name tool_name with
    | Some (server_id, mcp_tool) => Some (mkRequest MCP tool_name ins [] [] server_id mcp_tool)
    | None => None
    end.

(** ** Rules to offer *)

Record PermissionRuleOption := mkOption { label : str; description : str; opt_rule : PermissionRule }.

Definition rule_key (r : PermissionRule) : PermissionKind * str * str * str :=
  (rule_kind r, tool r, match_type r, pattern r).

Fixpoint dedupe_from (seen : list (PermissionKind * str * str * str)) (options : list PermissionRuleOption)
    : list PermissionRuleOption :=
  match options with
  | [] => []
  | o :: options' =>
      if bool_decide (rule_key (opt_rule o) ∈ seen) then dedupe_from seen options'
      else o :: dedupe_from (rule_key (opt_rule o) :: seen) options'
  end.
Definition _dedupe_options (options : list PermissionRuleOption) : list PermissionRuleOption :=
  dedupe_from [] options.

(** The id and timestamp of the n-th rule created. *)
Variable fresh : nat -> str * str.

Definition _command_rule_options (request : PermissionRequest) : list PermissionRuleOption :=
  let cmd := command request in
  if negb (nonempty cmd) then []
  else
    let exact := mkOption (lit "Always allow this exact command") (lit "Allow `" ++ cmd ++ lit "`.")
                   (PermissionRule_create (fresh 0) COMMAND (lit "*") (lit "exact") cmd) in
    let tokens := _shell_tokens cmd in
    let prefixes :=
      match tokens with
      | a :: b :: _ =>
          let prefix := join (lit " ") [a; b] in
          [mkOption (lit "Always allow commands starting with `" ++ prefix ++ lit "`")
             (lit "Allow commands whose first words are `" ++ prefix ++ lit "`.")
             (PermissionRule_create (fresh 1) COMMAND (lit "*") (lit "prefix") prefix)]
      | _ => []
      end in
    let executable := match tokens with t :: _ => t | [] => [] end in
    let executables :=
      if nonempty executable && negb (str_eqb executable cmd) then
        [mkOption (lit "Always allow `" ++ executable ++ lit "` commands")
           (lit "Allow commands whose executable is `" ++ executable ++ lit "`.")
           (PermissionRule_create (fresh 2) COMMAND (lit "*") (lit "executable") executable)]
      else [] in
    _dedupe_options (exact :: prefixes ++ executables).

Definition _message_rule_options (request : PermissionRequest) : list PermissionRuleOption :=
  let recipient := recipient_of request in
  (if nonempty recipient then
     [mkOption (lit "Always allow messages to `" ++ recipient ++ lit "`")
        (lit "Allow send_message to this peer by name.")
        (PermissionRule_create (fresh 0) MESSAGE (req_tool request) (lit "recipient") recipient)]
   else []) ++
  [mkOption (lit "Always allow `" ++ req_tool request ++ lit "`") (lit "Allow messages to any peer session.")
     (PermissionRule_create (fresh 1) MESSAGE (req_tool request) (lit "tool") (req_tool request))].

Definition _edit_rule_options (request : PermissionRequest) : list PermissionRuleOption :=
  (if nonempty (req_path request) then
     [mkOption (lit "Always allow `" ++ req_tool request ++ lit "` on `" ++ req_path request ++ lit "`")
        (lit "Allow this edit tool for this path.")
        (PermissionRule_create (fresh 0) EDIT (req_tool request) (lit "path") (req_path request))]
   else []) ++
  [mkOption (lit "Always allow `" ++ req_tool request ++ lit "` edits") (lit "Allow this edit tool for any path.")
     (PermissionRule_create (fresh 1) EDIT (req_tool request) (lit "tool") (req_tool request))].

Definition _mcp_rule_options (request : PermissionRequest) : list PermissionRuleOption :=
  _dedupe_options
    (mkOption (lit "Always allow MCP tool `" ++ req_tool request ++ lit "`") (lit "Allow this exact MCP tool.")
       (PermissionRule_create (fresh 0) MCP (req_tool request) (lit "tool") (req_tool request)) ::
     (if nonempty (mcp_server request) then
        [mkOption (lit "Always allow MCP server `" ++ mcp_server request ++ lit "`")
           (lit "Allow all verified MCP tools from this server.")
           (PermissionRule_create (fresh 1) MCP (lit "*") (lit "server") (mcp_server request))]
      else [])).

Definition allow_rule_options (request : PermissionRequest) : list PermissionRuleOption :=
  match req_kind request with
  | COMMAND => _command_rule_options request
  | MCP => _mcp_rule_options request
  | MESSAGE => _message_rule_options request
  | EDIT => _edit_rule_options request
  end.

(** [normalize_permission_mode] on a string; [lower] stands for [str.lower]. *)
Definition normalize_permission_mode (lower : str -> str) (v : option (PermissionMode + str))
    (default_mode : PermissionMode) : option PermissionMode :=
  match v with
  | Some (inl m) => Some m
  | None => Some default_mode
  | Some (inr s) =>
      if str_eqb (lower s) (lit "auto") then Some AUTO
      else if str_eqb (lower s) (lit "ask") then Some ASK else None
  end.

(** ** The store

    The permissions file: absent, unreadable ([OSError]), not UTF-8, not JSON, or
    a document.  [save] sorts the keys of its objects; nothing depends on their
    order. *)

Inductive permissions_file := Absent | Unreadable | NotText | BadJson | Document (v : value).

Definition to_dict (r : PermissionRule) : value :=
  VDict [(lit "id", VStr (rule_id r)); (lit "kind", VStr (kind_value (rule_kind r)));
         (lit "tool", VStr (tool r)); (lit "match_type", VStr (match_type r));
         (lit "pattern", VStr (pattern r)); (lit "created_at", VStr (created_at r))].

(** [str(data[k])]; [None] stands for the [KeyError]. *)
Definition required (d : list (str * value)) (k : str) : result store_error str :=
  match dict_get d k with Some v => Ok (py_str repr v) | None => Raise Malformed end.

Definition from_dict (v : value) : result store_error PermissionRule :=
  match v with
  | VDict d =>
      i ← required d (lit "id");
      kv ← required d (lit "kind");
      k ← match kind_of_value kv with Some k => Ok k | None => Raise Malformed end;
      let t := str_or_empty repr (get d (lit "tool")) in
      m ← required d (lit "match_type");
      p ← required d (lit "pattern");
      c ← required d (lit "created_at");
      Ok (mkRule i k t m p c)
  | _ => Raise Malformed
  end.

Definition load (f : permissions_file) : result store_error (list PermissionRule) :=
  match f with
  | Absent => Ok []
  | Unreadable => Raise CouldNotRead
  | NotText => Raise UnicodeDecodeError
  | BadJson => Raise NotJson
  | Document (VDict d) =>
      if negb (eq_int (get d (lit "schema_version")) PERMISSIONS_SCHEMA_VERSION) then Raise UnsupportedSchema
      else match get d (lit "rules") with
           | VList raw_rules => mapR from_dict raw_rules
           | _ => Raise NoRulesArray
           end
  | Document _ => Raise AttributeError
  end.

Definition save (rules : list PermissionRule) : permissions_file :=
  Document (VDict [(lit "schema_version", VInt PERMISSIONS_SCHEMA_VERSION);
                   (lit "rules", VList (map to_dict rules))]).

Definition _same_rule (left right : PermissionRule) : bool := bool_decide (rule_key left = rule_key right).

Definition add_rule (f : permissions_file) (rule : PermissionRule) : result store_error permissions_file :=
  rules ← load f;
  Ok (save (if existsb (fun existing => _same_rule existing rule) rules then rules else rules ++ [rule])).

Definition first_match (f : permissions_file) (request : PermissionRequest)
    : result store_error (option PermissionRule) :=
  rules ← load f;
  Ok (List.find (fun rule => matches rule request) rules).

End Permissions.
