(* ===== verification/PermissionsFacts.v ===== *)
(** * Permission rules: the properties of the model in [Permissions.v] *)

From stdpp Require Import base list strings numbers.
From Stdlib Require Import ZArith Lia.
From S2P Require Import Prelude PyStr PyVal Shlex CodexPatch Permissions.

Lemma drop_while_rev_head {A} (f : A -> bool) c (r : list A) :
  f c = false -> exists q, rev (drop_while f (rev (c :: r))) = c :: q.
Proof.
  intros Hc. simpl. induction (rev r) as [|x l' IH]; simpl.
  - rewrite Hc. by exists [].
  - destruct (f x); [done|]. simpl. rewrite rev_app_distr. simpl. by eexists.
Qed.

Lemma strip_is_stripped s : stripped (strip s).
Proof.
  unfold strip, strip_by, lstrip_by, rstrip_by, stripped. split.
  - pose proof (drop_while_head is_space s) as H. destruct (drop_while is_space s) as [|c r]; [done|].
    destruct (drop_while_rev_head is_space c r H) as [q ->]. done.
  - rewrite rev_involutive. apply drop_while_head.
Qed.

Lemma strip_idem s : strip (strip s) = strip s.
Proof. apply strip_stripped, strip_is_stripped. Qed.

Section Facts.
Variable casefold : str -> str.
Variable repr : value -> str.
Variable fresh : nat -> str * str.
(** Folding the case of a text never makes it empty. *)
Hypothesis casefold_nonempty : forall s, s <> [] -> casefold s <> [].

Abbreviation matches := (Permissions.matches casefold repr).

Lemma dedupe_from_sub seen os o : o ∈ dedupe_from seen os -> o ∈ os.
Proof.
  revert seen; induction os as [|x os IH]; intros seen; simpl; [done|].
  case_bool_decide; [intros ?; right; eauto|]. intros [->|?]%elem_of_cons; [by left|right; eauto].
Qed.

Lemma matches_key r1 r2 req : rule_key r1 = rule_key r2 -> matches r1 req = matches r2 req.
Proof.
  destruct r1, r2. unfold rule_key. cbn. intros [= -> -> -> ->].
  unfold Permissions.matches, _matches_edit, _matches_mcp, _matches_message, tool_pattern. done.
Qed.

Lemma matches_star k m p req id at_ :
  k = req_kind req ->
  matches (mkRule id k (lit "*") m p at_) req =
    match k with
    | COMMAND => _matches_command m p (command req)
    | MCP => _matches_mcp (mkRule id k (lit "*") m p at_) req
    | MESSAGE => _matches_message casefold repr (mkRule id k (lit "*") m p at_) req
    | EDIT => _matches_edit (mkRule id k (lit "*") m p at_) req
    end.
Proof. intros ->. unfold Permissions.matches. cbn [rule_kind tool match_type pattern]. by rewrite bool_decide_eq_true_2. Qed.

Lemma matches_own_tool k m p req id at_ :
  k = req_kind req ->
  matches (mkRule id k (req_tool req) m p at_) req =
    match k with
    | COMMAND => _matches_command m p (command req)
    | MCP => _matches_mcp (mkRule id k (req_tool req) m p at_) req
    | MESSAGE => _matches_message casefold repr (mkRule id k (req_tool req) m p at_) req
    | EDIT => _matches_edit (mkRule id k (req_tool req) m p at_) req
    end.
Proof.
  intros ->. unfold Permissions.matches. cbn [rule_kind tool match_type pattern].
  rewrite bool_decide_eq_true_2 by done. by rewrite str_eqb_refl, andb_false_r.
Qed.

(** A command of plain words separated by single spaces. *)
Definition plain_command (cmd : str) : Prop := exists ws, Forall plain_word ws /\ cmd = join (lit " ") ws.

Lemma prefix_matches cmd a b rest :
  plain_command cmd -> _shell_tokens cmd = a :: b :: rest ->
  _matches_command (lit "prefix") (join (lit " ") [a; b]) cmd = true.
Proof.
  intros (ws & Hws & ->) Ht. unfold _shell_tokens in Ht. rewrite shlex_split_words in Ht by done. subst ws.
  unfold _matches_command. change (str_eqb (lit "prefix") (lit "exact")) with false.
  change (str_eqb (lit "prefix") (lit "prefix")) with true. cbv iota.
  destruct rest as [|c rest]; [by rewrite str_eqb_refl|]. apply orb_true_iff. right. apply startswith_spec.
  exists (join (lit " ") (c :: rest)). rewrite (join_cons_ne _ a), (join_cons_ne _ b), (join_cons_ne _ a) by done.
  simpl join at 2. by rewrite <- !app_assoc.
Qed.

Lemma offered_match req o :
  o ∈ allow_rule_options repr fresh req ->
  (match_type (opt_rule o) <> lit "prefix" \/ plain_command (command req)) ->
  matches (opt_rule o) req = true.
Proof.
  intros Ho Hp. unfold allow_rule_options in Ho. destruct (req_kind req) eqn:Ek.
  - unfold _command_rule_options in Ho. destruct (nonempty (command req)) eqn:En; [|inversion Ho].
    cbn [negb] in Ho. apply dedupe_from_sub, elem_of_cons in Ho as [->|Ho].
    { unfold PermissionRule_create; cbn [opt_rule]. rewrite matches_star by done. unfold _matches_command.
      by rewrite !str_eqb_refl. }
    apply elem_of_app in Ho as [Ho|Ho].
    + destruct (_shell_tokens (command req)) as [|a [|b rest]] eqn:Et; try (by inversion Ho).
      apply list_elem_of_singleton in Ho as ->. unfold PermissionRule_create in *; cbn [opt_rule match_type] in *.
      rewrite matches_star by done. destruct Hp as [Hp|Hp]; [done|]. by eapply prefix_matches.
    + destruct (_ && _) eqn:Ex; [|by inversion Ho]. apply list_elem_of_singleton in Ho as ->.
      unfold PermissionRule_create; cbn [opt_rule]. rewrite matches_star by done. unfold _matches_command, _first_shell_token.
      change (str_eqb (lit "executable") (lit "exact")) with false.
      change (str_eqb (lit "executable") (lit "prefix")) with false.
      change (str_eqb (lit "executable") (lit "executable")) with true. apply str_eqb_refl.
  - unfold _edit_rule_options in Ho. apply elem_of_app in Ho as [Ho|Ho].
    + destruct (nonempty (req_path req)) eqn:En; [|by inversion Ho]. apply list_elem_of_singleton in Ho as ->.
      unfold PermissionRule_create; cbn [opt_rule]. rewrite matches_own_tool by done. unfold _matches_edit. cbn [match_type pattern].
      change (str_eqb (lit "path") (lit "tool")) with false. change (str_eqb (lit "path") (lit "path")) with true.
      by rewrite En, str_eqb_refl.
    + apply list_elem_of_singleton in Ho as ->. unfold PermissionRule_create; cbn [opt_rule]. rewrite matches_own_tool by done.
      unfold _matches_edit, tool_pattern. cbn [match_type pattern]. by rewrite str_eqb_refl, str_eqb_refl, orb_true_r.
  - unfold _mcp_rule_options in Ho. apply dedupe_from_sub, elem_of_cons in Ho as [->|Ho].
    + unfold PermissionRule_create; cbn [opt_rule]. rewrite matches_own_tool by done.
      unfold _matches_mcp, tool_pattern. cbn [match_type pattern]. by rewrite str_eqb_refl, str_eqb_refl, orb_true_r.
    + destruct (nonempty (mcp_server req)) eqn:En; [|by inversion Ho]. apply list_elem_of_singleton in Ho as ->.
      unfold PermissionRule_create; cbn [opt_rule]. rewrite matches_star by done. unfold _matches_mcp. cbn [match_type pattern].
      change (str_eqb (lit "server") (lit "tool")) with false. change (str_eqb (lit "server") (lit "server")) with true.
      by rewrite En, str_eqb_refl.
  - unfold _message_rule_options in Ho. apply elem_of_app in Ho as [Ho|Ho].
    + destruct (nonempty (recipient_of repr req)) eqn:En; [|by inversion Ho]. apply list_elem_of_singleton in Ho as ->.
      unfold PermissionRule_create; cbn [opt_rule]. rewrite matches_own_tool by done. unfold _matches_message.
      cbn [match_type pattern]. change (str_eqb (lit "recipient") (lit "tool")) with false.
      change (str_eqb (lit "recipient") (lit "recipient")) with true. cbv iota zeta.
      assert (strip (recipient_of repr req) = recipient_of repr req) as -> by apply strip_idem.
      rewrite str_eqb_refl, andb_true_r.
      assert (casefold (recipient_of repr req) <> []) as Hc by (apply casefold_nonempty; by destruct (recipient_of repr req)).
      by destruct (casefold (recipient_of repr req)).
    + apply list_elem_of_singleton in Ho as ->. unfold PermissionRule_create; cbn [opt_rule]. rewrite matches_own_tool by done.
      unfold _matches_message, tool_pattern. cbn [match_type pattern]. by rewrite str_eqb_refl, str_eqb_refl, orb_true_r.
Qed.

(** ** The store *)

Lemma from_to_dict r : from_dict repr (to_dict r) = Ok r.
Proof.
  destruct r as [i k t m p c]. unfold to_dict, from_dict, required. cbn [rule_id rule_kind tool match_type pattern created_at].
  cbn -[lit kind_of_value kind_value]. destruct k; cbn; by destruct t.
Qed.

Lemma load_save rules : load repr (save rules) = Ok rules.
Proof.
  unfold load, save. change (eq_int _ _) with true. cbn [negb].
  change (get _ (lit "rules")) with (VList (map to_dict rules)).
  induction rules as [|r rules IH]; [done|]. cbn [map mapR]. by rewrite from_to_dict, IH.
Qed.

Lemma find_match_some rules r req :
  r ∈ rules -> matches r req = true ->
  exists r', List.find (fun r => matches r req) rules = Some r' /\ matches r' req = true.
Proof.
  intros Hr Hm. destruct (List.find (fun r => matches r req) rules) as [r'|] eqn:E.
  - exists r'. split; [done|]. by apply List.find_some in E as [_ ?].
  - apply list_elem_of_In in Hr. pose proof (List.find_none _ _ E r Hr) as Hn. simpl in Hn. congruence.
Qed.

Lemma saved_rule_matches f rules rule f' req : load repr f = Ok rules -> add_rule repr f rule = Ok f' -> matches rule req = true ->
  exists r, first_match casefold repr f' req = Ok (Some r).
Proof.
  intros Hl Ha Hm. unfold add_rule in Ha. rewrite Hl in Ha. cbn [mbind result_bind] in Ha. injection Ha as <-.
  unfold first_match. rewrite load_save. cbn [mbind result_bind].
  destruct (existsb (fun existing => _same_rule existing rule) rules) eqn:E.
  - apply existsb_exists in E as (r & Hr%list_elem_of_In & Hs%bool_decide_eq_true). rewrite <- (matches_key r rule req Hs) in Hm.
    destruct (find_match_some rules r req Hr Hm) as (r' & -> & _). by exists r'.
  - destruct (find_match_some (rules ++ [rule]) rule req) as (r' & -> & _); [apply elem_of_app; right; by left|done|by exists r'].
Qed.

(** ** Properties *)

(** C6: Every rule offered for a tool call would allow that call, so that
    choosing "always allow" never asks again for the same call: exact,
    executable, path, tool, server and recipient rules always, the rule for the
    first two words when the command is written with plain words and single
    spaces. *)
Theorem offered_rules_match req o :
  o ∈ allow_rule_options repr fresh req ->
  match_type (opt_rule o) <> lit "prefix" \/ plain_command (command req) ->
  matches (opt_rule o) req = true.
Proof. apply offered_match. Qed.

(** Adding a rule grants exactly what it says: the store that [add_rule]
    leaves loads again, an allowed request stays allowed, the requests the rule
    matches are allowed by [first_match], a request allowed only now is matched
    by the rule, and adding it again changes nothing. *)
Theorem add_rule_grants f rules rule f' req :
  load repr f = Ok rules -> add_rule repr f rule = Ok f' ->
  exists rules', load repr f' = Ok rules' /\
    (existsb (fun r => matches r req) rules' = existsb (fun r => matches r req) rules || matches rule req) /\
    first_match casefold repr f' req = Ok (List.find (fun r => matches r req) rules') /\
    add_rule repr f' rule = Ok f'.
Proof.
  intros Hl Ha. unfold add_rule in Ha. rewrite Hl in Ha. cbn [mbind result_bind] in Ha. injection Ha as <-.
  set (rules' := if existsb _ rules then rules else rules ++ [rule]).
  exists rules'. rewrite load_save. split; [done|]. split; [|split].
  - unfold rules'. destruct (existsb (fun existing => _same_rule existing rule) rules) eqn:E.
    + apply existsb_exists in E as (r & Hr & Hs%bool_decide_eq_true). destruct (matches rule req) eqn:Em;
        [|by rewrite orb_false_r]. rewrite orb_true_r. apply existsb_exists. exists r. split; [done|].
      by rewrite (matches_key r rule).
    + rewrite existsb_app. simpl. by rewrite orb_false_r.
  - unfold first_match. by rewrite load_save.
  - unfold add_rule. rewrite load_save. cbn [mbind result_bind]. do 2 f_equal.
    assert (existsb (fun existing => _same_rule existing rule) rules' = true) as ->; [|done].
    unfold rules'. destruct (existsb (fun existing => _same_rule existing rule) rules) eqn:E; [done|].
    rewrite existsb_app. simpl. unfold _same_rule. rewrite bool_decide_eq_true_2 by done. by rewrite orb_true_r.
Qed.
End Facts.

Definition no_repr (v : value) : str := [].
Definition no_fresh (n : nat) : str * str := ([], []).
Definition sample_command : str := lit "git  status -s".
Definition sample_request : PermissionRequest :=
  mkRequest COMMAND (lit "exec_command") [(lit "command", VStr sample_command)] sample_command [] [] [].

(** The exception is real: for the command ["git  status -s"], with two
    spaces, the rule offered as "commands starting with git status" does not
    match the command it was offered for. *)
Theorem offered_prefix_can_miss :
  permission_request_for_tool no_repr (lit "exec_command") [(lit "command", VStr sample_command)] = Some sample_request /\
  map (fun o => (pattern (opt_rule o), matches id no_repr (opt_rule o) sample_request))
    (allow_rule_options no_repr no_fresh sample_request)
    = [(sample_command, true); (lit "git status", false); (lit "git", true)].
Proof. by vm_compute. Qed.

Lemma offered_rules_match_witness :
  exists o, o ∈ allow_rule_options no_repr no_fresh sample_request /\ matches id no_repr (opt_rule o) sample_request = true.
Proof.
  eexists. split; [left|].
  apply (offered_rules_match id no_repr no_fresh (fun s H => H)); [left|left; by vm_compute].
Defined.

Lemma add_rule_grants_witness :
  exists f' rules', add_rule no_repr Absent (mkRule [] COMMAND (lit "*") (lit "executable") (lit "git") []) = Ok f' /\
    load no_repr f' = Ok rules' /\ existsb (fun r => matches id no_repr r sample_request) rules' = true.
Proof.
  eexists.
  destruct (add_rule_grants id no_repr Absent [] (mkRule [] COMMAND (lit "*") (lit "executable") (lit "git") [])
    _ sample_request eq_refl eq_refl) as (rules' & H1 & H2 & _).
  exists rules'. split; [reflexivity|]. split; [exact H1|]. rewrite H2. by vm_compute.
Defined.
