(* ===== verification/Json.v ===== *)
(** * The JSON codec of the standard library

    [json.dumps] and [json.loads] on the values of [PyVal.v], as far as the
    program uses them: separators, [ensure_ascii], the hooks for repeated keys
    and for the constants [NaN] and [Infinity].  Floats are rendered and read by
    parameters (the shortest representation of a double is not modelled); the
    depth limit of the interpreter is not modelled. *)

From stdpp Require Import base list strings numbers.
From Stdlib Require Import ZArith Lia.
From S2P Require Import Prelude PyStr PyVal.

(** ** Printing *)

Definition hex_digit (n : Z) : Z := if n <? 10 then 48 + n else 87 + n.
Definition hex4 (n : Z) : str :=
  [hex_digit (n / 4096); hex_digit (n / 256 mod 16); hex_digit (n / 16 mod 16); hex_digit (n mod 16)].
Definition u_escape (n : Z) : str := [92; 117] ++ hex4 n.

(** One character of a string, with and without [ensure_ascii]. *)
Definition json_char (ensure_ascii : bool) (c : Z) : str :=
  if c =? 34 then [92; 34] else if c =? 92 then [92; 92]
  else if c =? 10 then [92; 110] else if c =? 13 then [92; 114] else if c =? 9 then [92; 116]
  else if c =? 12 then [92; 102] else if c =? 8 then [92; 98]
  else if c <? 32 then u_escape c
  else if ensure_ascii && (126 <? c) then
    if c <? 65536 then u_escape c
    else u_escape (55296 + (c - 65536) / 1024) ++ u_escape (56320 + (c - 65536) mod 1024)
  else [c].
Definition json_string (ensure_ascii : bool) (s : str) : str := 34 :: concat (map (json_char ensure_ascii) s) ++ [34].

Section Dumps.
Variable float_repr : Z -> Z -> str.
Variable ensure_ascii : bool.
Variables item_sep key_sep : str.

Fixpoint dumps (v : value) : str :=
  match v with
  | VNone => lit "null"
  | VBool true => lit "true"
  | VBool false => lit "false"
  | VInt n => dec n
  | VFloat m e => float_repr m e
  | VStr s => json_string ensure_ascii s
  | VList l => 91 :: join item_sep (map dumps l) ++ [93]
  | VDict d => 123 :: join item_sep (map (fun kv => json_string ensure_ascii kv.1 ++ key_sep ++ dumps kv.2) d) ++ [125]
  end.
End Dumps.

(** [sort_keys=True]: every dict in the order of its keys. *)
Fixpoint sort_keys (v : value) : value :=
  match v with
  | VList l => VList (map sort_keys l)
  | VDict d => VDict (sort_by (fun a b => str_leb a.1 b.1) (map (fun kv => (kv.1, sort_keys kv.2)) d))
  | _ => v
  end.

(** ** Reading *)

Inductive json_error :=
| BadJson                 (* JSONDecodeError *)
| IntTooLong              (* ValueError: more than 4300 digits *)
| HookRaised
| OutOfFuel.

Definition json_space (c : Z) : bool := (c =? 32) || (c =? 9) || (c =? 10) || (c =? 13).
Definition skip_ws (s : str) : str := drop_while json_space s.

Definition hex_value (c : Z) : option Z :=
  if (48 <=? c) && (c <=? 57) then Some (c - 48)
  else if (65 <=? c) && (c <=? 70) then Some (c - 55)
  else if (97 <=? c) && (c <=? 102) then Some (c - 87) else None.
Definition hex4_value (a b c d : Z) : option Z :=
  x ← hex_value a; y ← hex_value b; z ← hex_value c; w ← hex_value d; Some (x * 4096 + y * 256 + z * 16 + w).

Definition escape_value (c : Z) : option Z :=
  if c =? 34 then Some 34 else if c =? 92 then Some 92 else if c =? 47 then Some 47
  else if c =? 98 then Some 8 else if c =? 102 then Some 12 else if c =? 110 then Some 10
  else if c =? 114 then Some 13 else if c =? 116 then Some 9 else None.

Definition high_surrogate (c : Z) : bool := (55296 <=? c) && (c <=? 56319).
Definition low_surrogate (c : Z) : bool := (56320 <=? c) && (c <=? 57343).

(** The escape pair that follows a high surrogate, if it is a low one. *)
Definition following_low (s : str) : option Z :=
  match s with
  | 92 :: 117 :: a :: b :: c :: d :: _ =>
      u ← hex4_value a b c d; if low_surrogate u then Some u else None
  | _ => None
  end.

(** The rest of a string after its opening quote; [skip] characters belong to
    an escape already read. *)
Fixpoint scan_string (skip : nat) (s : str) : option (str * str) :=
  match s with
  | [] => None
  | c :: s' =>
      match skip with
      | S skip' => scan_string skip' s'
      | O =>
          if c =? 34 then Some ([], s')
          else if c <? 32 then None
          else if c =? 92 then
            match s' with
            | 117 :: a :: b :: x :: d :: s2 =>
                match hex4_value a b x d with
                | None => None
                | Some u =>
                    if high_surrogate u then
                      match following_low s2 with
                      | Some u2 =>
                          match scan_string 11 s' with
                          | Some (r, t) => Some ((65536 + (u - 55296) * 1024 + (u2 - 56320)) :: r, t)
                          | None => None
                          end
                      | None => match scan_string 5 s' with Some (r, t) => Some (u :: r, t) | None => None end
                      end
                    else match scan_string 5 s' with Some (r, t) => Some (u :: r, t) | None => None end
                end
            | e :: _ =>
                match escape_value e with
                | Some v => match scan_string 1 s' with Some (r, t) => Some (v :: r, t) | None => None end
                | None => None
                end
            | [] => None
            end
          else match scan_string O s' with Some (r, t) => Some (c :: r, t) | None => None end
      end
  end.

(** Numbers: a sign, an integer without leading zero, a fraction, an exponent. *)
Definition span_digits (s : str) : str * str := (take_while ascii_digit s, drop_while ascii_digit s).

Definition scan_nat (s : str) : option (str * str) :=
  match s with
  | c :: r => if c =? 48 then Some ([48], r) else if ascii_digit c then Some (span_digits s) else None
  | [] => None
  end.
Definition scan_int (s : str) : option (str * str) :=
  match s with
  | c :: r =>
      if c =? 45 then match scan_nat r with Some (ds, t) => Some (45 :: ds, t) | None => None end else scan_nat s
  | [] => None
  end.
Definition scan_frac (s : str) : str * str :=
  match s with
  | c :: r =>
      if c =? 46 then let '(ds, r') := span_digits r in if nonempty ds then (46 :: ds, r') else ([], s) else ([], s)
  | [] => ([], s)
  end.
Definition scan_exp (s : str) : str * str :=
  match s with
  | e :: r =>
      if (e =? 101) || (e =? 69) then
        let '(sg, r1) := match r with c :: r1 => if (c =? 43) || (c =? 45) then ([c], r1) else ([], r) | [] => ([], r) end in
        let '(ds, r2) := span_digits r1 in
        if nonempty ds then (e :: sg ++ ds, r2) else ([], s)
      else ([], s)
  | [] => ([], s)
  end.
Definition int_value (s : str) : Z :=
  match s with c :: ds => if c =? 45 then - digits_value ds else digits_value s | [] => 0 end.
Definition int_digits (s : str) : Z :=
  match s with c :: ds => if c =? 45 then len ds else len s | [] => 0 end.

(** [d[k] = v] on an insertion-ordered dict. *)
Fixpoint dict_set {A} (d : list (str * A)) (k : str) (v : A) : list (str * A) :=
  match d with
  | [] => [(k, v)]
  | (k', v') :: d' => if str_eqb k' k then (k', v) :: d' else (k', v') :: dict_set d' k v
  end.
Definition dict_update {A} (d e : list (str * A)) : list (str * A) := foldl (fun d kv => dict_set d kv.1 kv.2) d e.
Definition dict_of {A} (pairs : list (str * A)) : list (str * A) := foldl (fun d kv => dict_set d kv.1 kv.2) [] pairs.

Definition starts (c : Z) (s : str) : bool := match s with x :: _ => x =? c | [] => false end.

Section Loads.
Variable parse_float : str -> value.
(** [object_pairs_hook] and [parse_constant]. *)
Variable object_hook : list (str * value) -> result json_error value.
Variable constant_hook : str -> result json_error value.

Definition scan_number (s : str) : result json_error (value * str) :=
  match scan_int s with
  | None => Raise BadJson
  | Some (i, r) =>
      let '(f, r1) := scan_frac r in
      let '(e, r2) := scan_exp r1 in
      if nonempty f || nonempty e then Ok (parse_float (i ++ f ++ e), r2)
      else if 4300 <? int_digits i then Raise IntTooLong
      else Ok (VInt (int_value i), r2)
  end.

Definition scan_literal (s : str) : option (result json_error (value * str)) :=
  let constant name rest := Some (match constant_hook (lit name) with Ok v => Ok (v, rest) | Raise e => Raise e end) in
  if startswith (lit "null") s then Some (Ok (VNone, slice_from s 4))
  else if startswith (lit "true") s then Some (Ok (VBool true, slice_from s 4))
  else if startswith (lit "false") s then Some (Ok (VBool false, slice_from s 5))
  else if startswith (lit "NaN") s then constant "NaN"%string (slice_from s 3)
  else if startswith (lit "Infinity") s then constant "Infinity"%string (slice_from s 8)
  else if startswith (lit "-Infinity") s then constant "-Infinity"%string (slice_from s 9)
  else None.

(** A value without leading space; the items of an array after its first
    bracket or comma; the members of an object likewise. *)
Fixpoint scan_value (fuel : nat) (s : str) {struct fuel} : result json_error (value * str) :=
  match fuel with
  | O => Raise OutOfFuel
  | S fuel' =>
      match s with
      | [] => Raise BadJson
      | c :: r =>
          if c =? 34 then
            match scan_string O r with Some (x, t) => Ok (VStr x, t) | None => Raise BadJson end
          else if c =? 123 then
            if starts 125 (skip_ws r) then v ← object_hook []; Ok (v, tail (skip_ws r))
            else '(pairs, t) ← scan_members fuel' (skip_ws r); v ← object_hook pairs; Ok (v, t)
          else if c =? 91 then
            if starts 93 (skip_ws r) then Ok (VList [], tail (skip_ws r))
            else '(items, t) ← scan_items fuel' (skip_ws r); Ok (VList items, t)
          else match scan_literal s with
               | Some x => x
               | None => scan_number s
               end
      end
  end
with scan_items (fuel : nat) (s : str) {struct fuel} : result json_error (list value * str) :=
  match fuel with
  | O => Raise OutOfFuel
  | S fuel' =>
      '(v, t) ← scan_value fuel' s;
      let t := skip_ws t in
      if starts 93 t then Ok ([v], tail t)
      else if starts 44 t then '(vs, t2) ← scan_items fuel' (skip_ws (tail t)); Ok (v :: vs, t2)
      else Raise BadJson
  end
with scan_members (fuel : nat) (s : str) {struct fuel} : result json_error (list (str * value) * str) :=
  match fuel with
  | O => Raise OutOfFuel
  | S fuel' =>
      if negb (starts 34 s) then Raise BadJson
      else match scan_string O (tail s) with
           | None => Raise BadJson
           | Some (k, t) =>
               let t := skip_ws t in
               if negb (starts 58 t) then Raise BadJson
               else
                 '(v, t2) ← scan_value fuel' (skip_ws (tail t));
                 let t2 := skip_ws t2 in
                 if starts 125 t2 then Ok ([(k, v)], tail t2)
                 else if starts 44 t2 then
                   '(ps, t4) ← scan_members fuel' (skip_ws (tail t2)); Ok ((k, v) :: ps, t4)
                 else Raise BadJson
           end
  end.

Definition loads (s : str) : result json_error value :=
  '(v, t) ← scan_value (S (2 * length s)) (skip_ws s);
  if nonempty (skip_ws t) then Raise BadJson else Ok v.
End Loads.

(** Without hooks. *)
Definition plain_object (pairs : list (str * value)) : result json_error value := Ok (VDict (dict_of pairs)).
