(* ===== verification/JsonFacts.v ===== *)
(** * The JSON codec: reading back what was printed *)

From stdpp Require Import base list strings numbers.
From Stdlib Require Import ZArith Lia.
From S2P Require Import Prelude PyStr Utf8 PyVal Json.

(** ** Induction on values *)

Section ValueInd.
Variable P : value -> Prop.
Hypothesis Hnone : P VNone.
Hypothesis Hbool : forall b, P (VBool b).
Hypothesis Hint : forall n, P (VInt n).
Hypothesis Hfloat : forall m e, P (VFloat m e).
Hypothesis Hstr : forall s, P (VStr s).
Hypothesis Hlist : forall l, Forall P l -> P (VList l).
Hypothesis Hdict : forall d, Forall (fun kv => P kv.2) d -> P (VDict d).

Fixpoint value_nested_ind (v : value) : P v :=
  match v with
  | VNone => Hnone
  | VBool b => Hbool b
  | VInt n => Hint n
  | VFloat m e => Hfloat m e
  | VStr s => Hstr s
  | VList l =>
      Hlist l ((fix go (l : list value) : Forall P l :=
                  match l with [] => Forall_nil_2 _ | x :: l' => Forall_cons_2 _ _ _ (value_nested_ind x) (go l') end) l)
  | VDict d =>
      Hdict d ((fix go (d : list (str * value)) : Forall (fun kv => P kv.2) d :=
                  match d with [] => Forall_nil_2 _ | x :: d' => Forall_cons_2 _ _ _ (value_nested_ind x.2) (go d') end) d)
  end.
End ValueInd.

(** ** Strings *)

Lemma hex_value_digit n : 0 <= n < 16 -> hex_value (hex_digit n) = Some n.
Proof.
  intros Hn. unfold hex_value, hex_digit. destruct (Z.ltb_spec n 10).
  - destruct (Z.leb_spec 48 (48 + n)), (Z.leb_spec (48 + n) 57); try lia. simpl. f_equal. lia.
  - destruct (Z.leb_spec 48 (87 + n)), (Z.leb_spec (87 + n) 57), (Z.leb_spec 65 (87 + n)), (Z.leb_spec (87 + n) 70),
      (Z.leb_spec 97 (87 + n)), (Z.leb_spec (87 + n) 102); try lia; simpl; f_equal; lia.
Qed.

Lemma hex4_digits u : 0 <= u < 65536 ->
  hex4_value (hex_digit (u / 4096)) (hex_digit (u / 256 mod 16)) (hex_digit (u / 16 mod 16)) (hex_digit (u mod 16)) = Some u.
Proof.
  intros Hu. unfold hex4_value. rewrite !hex_value_digit by (Z.to_euclidean_division_equations; lia).
  simpl. f_equal. Z.to_euclidean_division_equations; lia.
Qed.

Definition push (c : Z) (x : option (str * str)) : option (str * str) :=
  match x with Some (r, t) => Some (c :: r, t) | None => None end.

Lemma scan_u_escape u s : 0 <= u < 65536 -> high_surrogate u = false -> scan_string O (u_escape u ++ s) = push u (scan_string O s).
Proof. intros Hu Hh. cbn -[hex4_value hex_digit Z.div Z.modulo]. rewrite hex4_digits, Hh by done. reflexivity. Qed.

Lemma scan_pair h l s :
  0 <= h < 65536 -> 0 <= l < 65536 -> high_surrogate h = true -> low_surrogate l = true ->
  scan_string O (u_escape h ++ u_escape l ++ s) = push (65536 + (h - 55296) * 1024 + (l - 56320)) (scan_string O s).
Proof.
  intros Hh Hl Eh El. cbn -[hex4_value hex_digit Z.div Z.modulo low_surrogate high_surrogate].
  rewrite (hex4_digits h), Eh, (hex4_digits l) by done. cbn -[hex_digit Z.div Z.modulo low_surrogate]. rewrite El. reflexivity.
Qed.

Lemma scan_char ea c s : scalar c = true -> scan_string O (json_char ea c ++ s) = push c (scan_string O s).
Proof.
  intros Hc. assert (0 <= c < 55296 \/ 57344 <= c < 1114112) as Hr by (unfold scalar in Hc; lia). unfold json_char.
  destruct (Z.eqb_spec c 34) as [->|]; [done|]. destruct (Z.eqb_spec c 92) as [->|]; [done|].
  destruct (Z.eqb_spec c 10) as [->|]; [done|]. destruct (Z.eqb_spec c 13) as [->|]; [done|].
  destruct (Z.eqb_spec c 9) as [->|]; [done|]. destruct (Z.eqb_spec c 12) as [->|]; [done|].
  destruct (Z.eqb_spec c 8) as [->|]; [done|].
  assert (c < 65536 -> scan_string O (u_escape c ++ s) = push c (scan_string O s)) as Hu.
  { intros. apply scan_u_escape; [lia|]. unfold high_surrogate. lia. }
  destruct (Z.ltb_spec c 32); [apply Hu; lia|].
  destruct (ea && (126 <? c)) eqn:Ea.
  - destruct (Z.ltb_spec c 65536); [by apply Hu|]. rewrite <- app_assoc.
    rewrite scan_pair; try (Z.to_euclidean_division_equations; lia).
    + f_equal. Z.to_euclidean_division_equations; lia.
    + unfold high_surrogate. Z.to_euclidean_division_equations; lia.
    + unfold low_surrogate. Z.to_euclidean_division_equations; lia.
  - cbn [app scan_string]. destruct (Z.eqb_spec c 34), (Z.ltb_spec c 32), (Z.eqb_spec c 92); try lia. done.
Qed.

Lemma scan_json_string ea s t : Forall (fun c => scalar c = true) s ->
  scan_string O (concat (map (json_char ea) s) ++ 34 :: t) = Some (s, t).
Proof.
  induction 1 as [|c s Hc _ IH]; [done|]. cbn [map concat]. rewrite <- app_assoc, scan_char, IH by done. done.
Qed.

(** ** Numbers *)

Definition number_end (s : str) : Prop :=
  match s with [] => True | c :: _ => ascii_digit c = false /\ c <> 46 /\ c <> 101 /\ c <> 69 end.

Lemma dec_go_head fuel n : 0 < n -> (Z.to_nat (Z.log2 n) < fuel)%nat ->
  exists c r, dec_go fuel n = c :: r /\ 49 <= c <= 57.
Proof.
  revert n. induction fuel as [|fuel IH]; intros n Hn Hf; [lia|]. simpl. destruct (Z.ltb_spec n 10).
  - exists (48 + n), []. split; [done|lia].
  - assert (0 < n / 10) by (apply Z.div_str_pos; lia).
    destruct (IH (n / 10)) as (c & r & -> & Hc); [done| |by exists c, (r ++ [48 + n mod 10])].
    assert (Z.log2 (n / 10) < Z.log2 n); [|pose proof (Z.log2_nonneg (n / 10)); lia].
    apply Z.le_lt_trans with (Z.log2 (n / 2)); [apply Z.log2_le_mono; Z.to_euclidean_division_equations; lia|].
    change 2 with (2 ^ 1). rewrite <- Z.shiftr_div_pow2, Z.log2_shiftr by lia. pose proof (Z.log2_pos n ltac:(lia)). lia.
Qed.

Lemma dec_nat_head n : 0 <= n -> dec_nat n = [48] /\ n = 0 \/ exists c r, dec_nat n = c :: r /\ 49 <= c <= 57.
Proof.
  intros Hn. destruct (Z.eq_dec n 0) as [->|]; [by left|right]. apply dec_go_head; lia.
Qed.

Lemma span_digits_app ds rest : Forall (fun c => ascii_digit c = true) ds ->
  (match rest with [] => True | c :: _ => ascii_digit c = false end) -> span_digits (ds ++ rest) = (ds, rest).
Proof.
  intros Hd Hr. unfold span_digits. induction Hd as [|c ds Hc Hd IH]; simpl.
  - destruct rest as [|c r]; [done|]. simpl. by rewrite Hr.
  - injection IH as H1 H2. by rewrite Hc, H1, H2.
Qed.

Lemma number_end_digit rest : number_end rest -> match rest with [] => True | c :: _ => ascii_digit c = false end.
Proof. destruct rest; [done|]. by intros []. Qed.

Lemma scan_nat_dec n rest : 0 <= n -> number_end rest -> scan_nat (dec_nat n ++ rest) = Some (dec_nat n, rest).
Proof.
  intros Hn Hr. pose proof (span_digits_app _ rest (dec_nat_digits n Hn) (number_end_digit _ Hr)) as Hsp.
  pose proof (dec_nat_digits n Hn) as Hd. destruct (dec_nat_head n Hn) as [[E _]|(c & r & E & Hc)]; rewrite E in *; [done|].
  unfold scan_nat. inversion Hd as [|? ? Hdc _]; subst. cbn [app] in *.
  destruct (Z.eqb_spec c 48); [lia|]. by rewrite Hdc, Hsp.
Qed.

Lemma scan_int_dec n rest : number_end rest -> scan_int (dec n ++ rest) = Some (dec n, rest).
Proof.
  intros Hr. unfold dec, scan_int. destruct (Z.ltb_spec n 0).
  - cbn [app]. by rewrite Z.eqb_refl, scan_nat_dec by (done || lia).
  - rewrite <- (scan_nat_dec n rest) by (done || lia).
    destruct (dec_nat_head n) as [[E _]|(c & r & E & Hc)]; [done|by rewrite E|]. rewrite E. cbn [app].
    destruct (Z.eqb_spec c 45); [lia|done].
Qed.

Lemma int_value_dec n : int_value (dec n) = n.
Proof.
  unfold dec, int_value. destruct (Z.ltb_spec n 0).
  - rewrite Z.eqb_refl, dec_nat_value by lia. lia.
  - pose proof (dec_nat_value n ltac:(done)) as Hv. destruct (dec_nat_head n) as [[E ?]|(c & r & E & Hc)]; [done|by rewrite E; subst|].
    rewrite E in *. destruct (Z.eqb_spec c 45); [lia|done].
Qed.

Lemma scan_frac_end rest : number_end rest -> scan_frac rest = ([], rest).
Proof. destruct rest as [|c r]; [done|]. intros (_ & H1 & _). simpl. by destruct (Z.eqb_spec c 46). Qed.
Lemma scan_exp_end rest : number_end rest -> scan_exp rest = ([], rest).
Proof.
  destruct rest as [|c r]; [done|]. intros (_ & _ & H1 & H2). simpl.
  by destruct (Z.eqb_spec c 101), (Z.eqb_spec c 69).
Qed.

(** ** Dicts *)

Lemma dict_set_new {A} (d : list (str * A)) k v : k ∉ map fst d -> dict_set d k v = d ++ [(k, v)].
Proof.
  induction d as [|[k' v'] d IH]; [done|]. simpl. rewrite not_elem_of_cons. intros [Hk Hd].
  unfold str_eqb. rewrite bool_decide_eq_false_2 by congruence. by rewrite IH.
Qed.

Lemma dict_of_distinct {A} (d : list (str * A)) : NoDup (map fst d) -> dict_of d = d.
Proof.
  unfold dict_of. enough (forall acc, NoDup (map fst (acc ++ d)) -> foldl (fun d kv => dict_set d kv.1 kv.2) acc d = acc ++ d) as H
    by exact (H []).
  induction d as [|[k v] d IH]; intros acc Hn; simpl; [by rewrite app_nil_r|].
  rewrite dict_set_new, IH; rewrite <- ?app_assoc; [done|done|].
  rewrite map_app in Hn. simpl in Hn. apply list.NoDup_app in Hn as (_ & Hd & _). intros Hk. apply (Hd k Hk). left.
Qed.

(** ** The round trip *)

(** The values that survive: no floats, integers the interpreter prints, strings
    of scalar values, distinct keys. *)
Inductive plain : value -> Prop :=
| plain_none : plain VNone
| plain_bool b : plain (VBool b)
| plain_int n : int_digits (dec n) <= 4300 -> plain (VInt n)
| plain_str s : Forall (fun c => scalar c = true) s -> plain (VStr s)
| plain_list l : Forall plain l -> plain (VList l)
| plain_dict d :
    Forall (fun kv => Forall (fun c => scalar c = true) kv.1 /\ plain kv.2) d -> NoDup (map fst d) -> plain (VDict d).

Section RoundTrip.
Variable float_repr : Z -> Z -> str.
Variable ensure_ascii : bool.
Variables item_space key_space : str.
Hypothesis item_space_ws : Forall (fun c => json_space c = true) item_space.
Hypothesis key_space_ws : Forall (fun c => json_space c = true) key_space.

Variable parse_float : str -> value.
Variable object_hook : list (str * value) -> result json_error value.
Variable constant_hook : str -> result json_error value.
Hypothesis object_hook_distinct : forall d, NoDup (map fst d) -> object_hook d = Ok (VDict d).

Abbreviation comma := (44%Z :: item_space).
Abbreviation printed := (dumps float_repr ensure_ascii comma (58%Z :: key_space)).
Abbreviation scan := (scan_value parse_float object_hook constant_hook).

Lemma skip_ws_app ws s : Forall (fun c => json_space c = true) ws -> skip_ws (ws ++ s) = skip_ws s.
Proof. unfold skip_ws. induction 1 as [|c ws Hc _ IH]; [done|]. simpl. by rewrite Hc. Qed.

(** The first character of a value: no space, and no closing bracket. *)
Definition opens (s : str) : Prop :=
  match s with c :: _ => json_space c = false /\ c <> 93 /\ c <> 125 | [] => False end.

Lemma skip_ws_opens s : opens s -> skip_ws s = s.
Proof. destruct s as [|c s]; [done|]. intros (H & _). unfold skip_ws. simpl. by rewrite H. Qed.

Lemma opens_app s t : opens s -> opens (s ++ t).
Proof. by destruct s. Qed.

Lemma dec_opens n : opens (dec n).
Proof.
  unfold dec. destruct (Z.ltb_spec n 0); [by cbn|].
  destruct (dec_nat_head n) as [[-> _]|(c & r & -> & Hc)]; [done|by cbn|]. cbn. unfold json_space. split_and!; lia.
Qed.

Lemma printed_opens v : plain v -> opens (printed v).
Proof. destruct 1 as [|[]| | | |]; cbn; try (split_and!; [done|lia|lia]). apply dec_opens. Qed.

(** Numbers are no literals. *)
Lemma startswith_head p c s : match p with x :: _ => x <> c | [] => False end -> startswith p (c :: s) = false.
Proof. destruct p as [|x p]; [done|]. intros Hx. simpl. by destruct (Z.eqb_spec x c). Qed.

Lemma not_literal c s :
  (48 <= c <= 57 -> scan_literal constant_hook (c :: s) = None) /\
  (c = 45 -> startswith (lit "Infinity") s = false -> scan_literal constant_hook (c :: s) = None).
Proof.
  split.
  - intros Hc. unfold scan_literal. by rewrite !startswith_head by (cbn; lia).
  - intros -> Hi. unfold scan_literal.
    rewrite (startswith_head (lit "null")), (startswith_head (lit "true")), (startswith_head (lit "false")),
      (startswith_head (lit "NaN")), (startswith_head (lit "Infinity")) by (cbn; lia).
    change (startswith (lit "-Infinity") (45 :: s)) with (startswith (lit "Infinity") s). by rewrite Hi.
Qed.

Lemma literal_null rest : scan_literal constant_hook (lit "null" ++ rest) = Some (Ok (VNone, rest)).
Proof. unfold scan_literal. rewrite startswith_app, slice_from_pos by lia. reflexivity. Qed.
Lemma literal_true rest : scan_literal constant_hook (lit "true" ++ rest) = Some (Ok (VBool true, rest)).
Proof.
  unfold scan_literal. assert (startswith (lit "null") (lit "true" ++ rest) = false) as -> by done.
  rewrite startswith_app, slice_from_pos by lia. reflexivity.
Qed.
Lemma literal_false rest : scan_literal constant_hook (lit "false" ++ rest) = Some (Ok (VBool false, rest)).
Proof.
  unfold scan_literal. assert (startswith (lit "null") (lit "false" ++ rest) = false) as -> by done.
  assert (startswith (lit "true") (lit "false" ++ rest) = false) as -> by done.
  rewrite startswith_app, slice_from_pos by lia. reflexivity.
Qed.
Lemma scan_word w v fuel rest :
  (match w with x :: _ => x <> 34 /\ x <> 123 /\ x <> 91 | [] => False end) ->
  scan_literal constant_hook (w ++ rest) = Some (Ok (v, rest)) -> scan (S fuel) (w ++ rest) = Ok (v, rest).
Proof.
  intros Hw Hl. destruct w as [|x w]; [done|]. destruct Hw as (H1 & H2 & H3). cbn [scan_value app] in *.
  destruct (Z.eqb_spec x 34), (Z.eqb_spec x 123), (Z.eqb_spec x 91); try done. by rewrite Hl.
Qed.

Lemma scan_literal_dec n rest : number_end rest -> scan_literal constant_hook (dec n ++ rest) = None.
Proof.
  intros Hr. unfold dec. destruct (Z.ltb_spec n 0).
  - cbn [app]. apply not_literal; [done|].
    destruct (dec_nat_head (- n)) as [[-> _]|(c & r & -> & Hc)]; [lia|done|]. apply startswith_head. cbn. lia.
  - destruct (dec_nat_head n) as [[-> _]|(c & r & -> & Hc)]; [lia|apply (proj1 (not_literal 48 rest)); lia|apply (proj1 (not_literal c (r ++ rest))); lia].
Qed.

Lemma scan_dec n rest fuel : int_digits (dec n) <= 4300 -> number_end rest -> scan (S fuel) (dec n ++ rest) = Ok (VInt n, rest).
Proof.
  intros Hd Hr. pose proof (scan_literal_dec n rest Hr) as Hl. pose proof (dec_opens n) as Ho.
  cbn [scan_value]. destruct (dec n ++ rest) as [|c s] eqn:E; [by destruct (dec n)|].
  assert (c <> 34 /\ c <> 123 /\ c <> 91) as (H1 & H2 & H3).
  { unfold dec in E. destruct (Z.ltb_spec n 0); [injection E as <- _; lia|].
    destruct (dec_nat_head n) as [[En _]|(x & r & En & Hx)]; rewrite ?En in E; [done|injection E as <- _; lia..]. }
  destruct (Z.eqb_spec c 34), (Z.eqb_spec c 123), (Z.eqb_spec c 91); try done. rewrite Hl, <- E.
  unfold scan_number. rewrite scan_int_dec, scan_frac_end, scan_exp_end by done. cbn [nonempty orb].
  destruct (Z.ltb_spec 4300 (int_digits (dec n))); [lia|]. by rewrite int_value_dec.
Qed.

Definition scans (v : value) : Prop :=
  forall fuel rest, (2 * length (printed v) < fuel)%nat -> number_end rest -> scan fuel (printed v ++ rest) = Ok (v, rest).

Lemma skip_ws_close c s : json_space c = false -> skip_ws (c :: s) = c :: s.
Proof. intros Hc. unfold skip_ws. simpl. by rewrite Hc. Qed.

Lemma opens_starts s : opens s -> starts 93 s = false /\ starts 125 s = false.
Proof. destruct s as [|c s]; [done|]. intros (_ & H1 & H2). simpl. by destruct (Z.eqb_spec c 93), (Z.eqb_spec c 125). Qed.

Lemma join_opens (l : list str) x t : opens x -> opens (join comma (x :: l) ++ t).
Proof.
  intros Hx. destruct l as [|y l]; [by apply opens_app|]. rewrite join_cons_ne, <- app_assoc by done. by apply opens_app.
Qed.

Lemma scan_items_printed l fuel (rest : str) :
  l <> [] -> Forall scans l -> Forall plain l -> (2 * length (join comma (map printed l)) + 1 < fuel)%nat ->
  scan_items parse_float object_hook constant_hook fuel (join comma (map printed l) ++ 93 :: rest) = Ok (l, rest).
Proof.
  intros Hne Hs Hp. revert fuel. induction l as [|v l IH]; intros fuel Hf; [done|].
  inversion Hs as [|? ? Hv Hl]; inversion Hp as [|? ? Hpv Hpl]; subst. destruct fuel as [|fuel]; [lia|].
  cbn [scan_items]. destruct l as [|w l].
  - cbn [map join] in *. rewrite Hv by (done || lia). done.
  - cbn [map] in *. rewrite join_cons_ne in * by done. rewrite !length_app in Hf. cbn [length] in Hf.
    rewrite <- !app_assoc. cbn [app]. rewrite Hv by (done || lia). cbn [mbind result_bind].
    rewrite (skip_ws_close 44) by done. cbn [starts tl]. cbv iota beta zeta.
    change (44 =? 93) with false. change (44 =? 44) with true. cbv iota.
    rewrite skip_ws_app, skip_ws_opens; [|inversion Hpl; subst; by apply join_opens, printed_opens|done].
    change (printed w :: map printed l) with (map printed (w :: l)). rewrite IH; [done|done|done|done|]. cbn [map]. lia.
Qed.

Abbreviation member kv := (json_string ensure_ascii kv.1 ++ (58%Z :: key_space) ++ printed kv.2).
Abbreviation plain_member kv := (Forall (fun c => scalar c = true) kv.1 /\ plain kv.2).

Lemma member_opens (kv : str * value) : opens (member kv).
Proof. by cbn. Qed.

Lemma scan_members_S fuel s :
  scan_members parse_float object_hook constant_hook (S fuel) s =
    (if negb (starts 34 s) then Raise BadJson
     else match scan_string O (tail s) with
          | None => Raise BadJson
          | Some (k, t) =>
              let t := skip_ws t in
              if negb (starts 58 t) then Raise BadJson
              else
                '(v, t2) ← scan fuel (skip_ws (tail t));
                let t2 := skip_ws t2 in
                if starts 125 t2 then Ok ([(k, v)], tail t2)
                else if starts 44 t2 then
                  '(ps, t4) ← scan_members parse_float object_hook constant_hook fuel (skip_ws (tail t2)); Ok ((k, v) :: ps, t4)
                else Raise BadJson
          end).
Proof. reflexivity. Qed.

Lemma scan_member k v fuel tail' :
  Forall (fun c => scalar c = true) k -> plain v -> scans v -> number_end tail' -> (2 * length (printed v) < fuel)%nat ->
  scan_members parse_float object_hook constant_hook (S fuel) (member (k, v) ++ tail') =
    (let t2 := skip_ws tail' in
     if starts 125 t2 then Ok ([(k, v)], tail t2)
     else if starts 44 t2 then
       '(ps, t4) ← scan_members parse_float object_hook constant_hook fuel (skip_ws (tail t2)); Ok ((k, v) :: ps, t4)
     else Raise BadJson).
Proof.
  intros Hk Hp Hv Ht Hlen. cbn [fst snd]. unfold json_string. rewrite <- !app_comm_cons, <- !app_assoc. cbn [app].
  rewrite scan_members_S. cbn [starts tl]. rewrite Z.eqb_refl. cbn [negb]. rewrite scan_json_string by done. cbv zeta.
  rewrite skip_ws_close by done. cbn [starts tl]. rewrite Z.eqb_refl. cbn [negb].
  rewrite <- app_assoc, skip_ws_app by done. rewrite skip_ws_opens by (by apply opens_app, printed_opens). by rewrite Hv.
Qed.

Lemma scan_members_printed (d : list (str * value)) fuel (rest : str) :
  d <> [] -> Forall (fun kv => scans kv.2) d -> Forall (fun kv => plain_member kv) d ->
  (2 * length (join comma (map (fun kv => member kv) d)) + 1 < fuel)%nat ->
  scan_members parse_float object_hook constant_hook fuel (join comma (map (fun kv => member kv) d) ++ 125 :: rest) = Ok (d, rest).
Proof.
  intros Hne Hs Hp. revert fuel. induction d as [|[k v] d IH]; intros fuel Hf; [done|].
  inversion Hs as [|? ? Hv Hl]; inversion Hp as [|? ? [Hk Hpv] Hpl]; subst. cbn [fst snd] in Hv, Hk, Hpv.
  destruct fuel as [|fuel]; [lia|].
  assert (length (printed v) < length (member (k, v)))%nat as Hlen.
  { rewrite !length_app. cbn [fst snd length]. lia. }
  destruct d as [|w d].
  - cbn [map join] in *. rewrite scan_member; [done|done|done|done|by cbn|lia].
  - cbn [map] in *. rewrite join_cons_ne in * by done. rewrite !length_app in Hf. rewrite !length_app in Hlen.
    cbn [length fst snd] in Hf, Hlen.
    rewrite <- (app_assoc (member (k, v))). rewrite scan_member; [|done|done|done|by cbn|lia]. cbv zeta.
    rewrite <- app_assoc. cbn [app]. rewrite skip_ws_close by done. cbn [starts tl].
    change (44 =? 125) with false. change (44 =? 44) with true. cbv iota.
    rewrite skip_ws_app, skip_ws_opens by (done || apply join_opens, member_opens).
    change (member w :: map (fun kv => member kv) d) with (map (fun kv => member kv) (w :: d)).
    rewrite IH; [done|done|done|done|]. cbn [map]. lia.
Qed.

Lemma scan_array fuel r :
  scan (S fuel) (91 :: r) =
    (if starts 93 (skip_ws r) then Ok (VList [], tail (skip_ws r))
     else '(items, t) ← scan_items parse_float object_hook constant_hook fuel (skip_ws r); Ok (VList items, t)).
Proof. reflexivity. Qed.
Lemma scan_object fuel r :
  scan (S fuel) (123 :: r) =
    (if starts 125 (skip_ws r) then v ← object_hook []; Ok (v, tail (skip_ws r))
     else '(pairs, t) ← scan_members parse_float object_hook constant_hook fuel (skip_ws r); v ← object_hook pairs; Ok (v, t)).
Proof. reflexivity. Qed.

Lemma scans_plain v : plain v -> scans v.
Proof.
  induction v as [| | | | |l IH|d IH] using value_nested_ind; intros Hp fuel rest Hf Hr; inversion Hp as [| | | |? Hl|? Hd Hn]; subst;
    (destruct fuel as [|fuel]; [cbn in Hf; lia|]).
  - apply (scan_word (lit "null")); [cbn; lia|apply literal_null].
  - destruct b; [apply (scan_word (lit "true")); [cbn; lia|apply literal_true]
                |apply (scan_word (lit "false")); [cbn; lia|apply literal_false]].
  - by apply scan_dec.
  - cbn. unfold json_string. rewrite <- app_assoc. cbn [app]. by rewrite scan_json_string.
  - assert (Forall scans l) as Hs by (rewrite !Forall_forall in *; auto).
    cbn [dumps] in *. cbn [length] in Hf. rewrite length_app in Hf. cbn [length] in Hf.
    rewrite <- app_comm_cons, <- app_assoc, scan_array. change ([93] ++ rest) with (93 :: rest).
    destruct l as [|v l]; [done|].
    assert (opens (join comma (map printed (v :: l)) ++ 93 :: rest)) as Ho
      by (inversion Hl; subst; by apply join_opens, printed_opens).
    rewrite skip_ws_opens, (proj1 (opens_starts _ Ho)) by done. by rewrite scan_items_printed by (done || lia).
  - assert (Forall (fun kv => scans kv.2) d) as Hs.
    { rewrite !Forall_forall in *. intros kv Hkv. apply IH; [done|]. by apply Hd. }
    cbn [dumps] in *. cbn [length] in Hf. rewrite length_app in Hf. cbn [length] in Hf.
    rewrite <- app_comm_cons, <- app_assoc, scan_object. change ([125] ++ rest) with (125 :: rest).
    destruct d as [|kv d]; [cbn; by rewrite object_hook_distinct by done|].
    assert (opens (join comma (map (fun kv => member kv) (kv :: d)) ++ 125 :: rest)) as Ho by (apply join_opens, member_opens).
    rewrite skip_ws_opens, (proj2 (opens_starts _ Ho)) by done.
    rewrite scan_members_printed by (done || lia). cbn [mbind result_bind]. by rewrite object_hook_distinct.
Qed.

Lemma loads_dumps v : plain v -> loads parse_float object_hook constant_hook (printed v) = Ok v.
Proof.
  intros Hp. unfold loads. rewrite skip_ws_opens by by apply printed_opens.
  rewrite <- (app_nil_r (printed v)) at 2. rewrite scans_plain by (done || lia). done.
Qed.
End RoundTrip.

(** ** The characters of a printed value *)

Section Chars.
Variable P : Z -> Prop.
Variable float_repr : Z -> Z -> str.
Variable ensure_ascii : bool.
Variables item_sep key_sep : str.
Hypothesis P_ascii : forall c, 32 <= c < 127 -> P c.
Hypothesis P_char : forall c, scalar c = true -> Forall P (json_char ensure_ascii c).
Hypothesis P_item : Forall P item_sep.
Hypothesis P_key : Forall P key_sep.

Lemma ascii_chars s : forallb (fun c => (32 <=? c) && (c <? 127)) s = true -> Forall P s.
Proof. intros H. rewrite Forall_forall. intros c Hc. rewrite forallb_forall in H. apply P_ascii. specialize (H c Hc). lia. Qed.

Lemma json_string_chars s : scalars s -> Forall P (json_string ensure_ascii s).
Proof.
  intros Hs. unfold json_string. constructor; [apply P_ascii; lia|]. apply Forall_app. split; [|by apply ascii_chars].
  induction Hs as [|c s Hc _ IH]; [constructor|]. cbn [map concat]. apply Forall_app. auto.
Qed.

Lemma join_chars sep l : Forall P sep -> Forall (Forall P) l -> Forall P (join sep l).
Proof.
  intros Hs. induction 1 as [|x l Hx Hl IH]; [constructor|]. destruct l; [done|]. rewrite join_cons_ne by done.
  apply Forall_app. split; [done|]. by apply Forall_app.
Qed.

Lemma dec_chars n : Forall P (dec n).
Proof.
  assert (forall m, 0 <= m -> Forall P (dec_nat m)) as Hd.
  { intros m Hm. pose proof (dec_nat_digits m Hm) as Hdg. revert Hdg. apply Forall_impl. intros c Hc. apply P_ascii. unfold ascii_digit in Hc. simpl in Hc. lia. }
  unfold dec. destruct (Z.ltb_spec n 0); [constructor; [apply P_ascii; lia|apply Hd; lia]|by apply Hd].
Qed.

Lemma dumps_chars v : plain v -> Forall P (dumps float_repr ensure_ascii item_sep key_sep v).
Proof.
  induction v as [| | | | |l IH|d IH] using value_nested_ind; intros Hp; inversion Hp as [| |? Hi| |? Hl|? Hd Hn]; subst; cbn [dumps].
  - by apply ascii_chars.
  - destruct b; by apply ascii_chars.
  - apply dec_chars.
  - by apply json_string_chars.
  - constructor; [apply P_ascii; lia|]. apply Forall_app. split; [|by apply ascii_chars].
    apply join_chars; [done|]. apply Forall_map. rewrite Forall_forall in *. auto.
  - constructor; [apply P_ascii; lia|]. apply Forall_app. split; [|by apply ascii_chars].
    apply join_chars; [done|]. apply Forall_map. rewrite Forall_forall in IH, Hd. rewrite Forall_forall. intros kv Hkv. destruct (Hd kv Hkv) as [Hk Hv].
    cbv beta. apply Forall_app. split; [by apply json_string_chars|]. apply Forall_app. split; [done|]. by apply IH.
Qed.
End Chars.

(** ** Insertion into a dict *)

Lemma dict_get_set {A} (d : list (str * A)) k v k' :
  dict_get (dict_set d k v) k' = if str_eqb k k' then Some v else dict_get d k'.
Proof.
  induction d as [|[j w] d IH]; [done|]. cbn [dict_set]. unfold str_eqb at 1. case_bool_decide as E.
  - subst. cbn [dict_get]. by destruct (str_eqb k k').
  - cbn [dict_get]. rewrite IH. unfold str_eqb. repeat case_bool_decide; congruence.
Qed.

Lemma dict_set_keys {A} (d : list (str * A)) k v : NoDup (map fst d) -> NoDup (map fst (dict_set d k v)).
Proof.
  assert (forall d : list (str * A), forall j, j ∈ map fst (dict_set d k v) -> j = k \/ j ∈ map fst d) as Hin.
  { intros e j. induction e as [|[j' w] e IH]; cbn [dict_set map fst]; [rewrite list_elem_of_singleton; auto|].
    unfold str_eqb. case_bool_decide; cbn [map fst]; rewrite !elem_of_cons; naive_solver. }
  induction d as [|[j w] d IH]; cbn [dict_set map fst]; [intros; apply list.NoDup_singleton|].
  intros [Hj Hd]%list.NoDup_cons. unfold str_eqb. case_bool_decide as E; cbn [map fst]; apply list.NoDup_cons; [done|].
  split; [|auto]. intros [->|H]%Hin; done.
Qed.

Lemma dict_set_elem {A} (d : list (str * A)) k v x : x ∈ dict_set d k v -> x ∈ d \/ x = (k, v).
Proof.
  induction d as [|[k' v'] d IH]; cbn [dict_set]; [intros H; right; by apply list_elem_of_singleton in H|].
  destruct (str_eqb k' k) eqn:E; [apply str_eqb_eq in E as ->|]; rewrite !elem_of_cons; naive_solver.
Qed.

Lemma dict_update_elem {A} (d e : list (str * A)) x : x ∈ dict_update d e -> x ∈ d \/ x ∈ e.
Proof.
  unfold dict_update. revert d. induction e as [|[k v] e IH]; intros d; cbn; [auto|].
  rewrite elem_of_cons. intros [[H| ->]%dict_set_elem|H]%IH; auto.
Qed.

Lemma dict_update_nodup {A} (d e : list (str * A)) : NoDup (map fst d) -> NoDup (map fst (dict_update d e)).
Proof. unfold dict_update. revert d. induction e as [|[k v] e IH]; intros d Hd; cbn; [done|]. by apply IH, dict_set_keys. Qed.

Lemma dict_get_update_some {A} (e : list (str * A)) k : forall d, is_Some (dict_get d k) \/ k ∈ map fst e -> is_Some (dict_get (dict_update d e) k).
Proof.
  unfold dict_update. induction e as [|[k' v] e IH]; intros d; cbn; [intros [H|H]; [done|by apply not_elem_of_nil in H]|].
  intros H. apply IH. rewrite dict_get_set. destruct (str_eqb k' k) eqn:E; [left; eauto|].
  destruct H as [H|[->|H]%elem_of_cons]; [by left| |by right]. by rewrite str_eqb_refl in E.
Qed.

Lemma dict_set_plain d k v : plain (VDict d) -> scalars k -> plain v -> plain (VDict (dict_set d k v)).
Proof.
  intros Hd Hk Hv. inversion Hd as [| | | | |? Hf Hn]; subst. constructor; [|by apply dict_set_keys].
  clear Hn Hd. induction Hf as [|[j w] d Hj Hf IH]; cbn [dict_set]; [by repeat constructor|].
  destruct Hj as [Hj Hw]. destruct (str_eqb j k); constructor; auto.
Qed.

Lemma dict_update_plain d e :
  plain (VDict d) -> Forall (fun kv => scalars kv.1 /\ plain kv.2) e -> plain (VDict (dict_update d e)).
Proof.
  intros Hd He. unfold dict_update. revert d Hd. induction He as [|[k v] e [Hk Hv] _ IH]; intros d Hd; [done|].
  apply IH. by apply dict_set_plain.
Qed.

Lemma dict_update_get {A} (d e : list (str * A)) k : k ∉ map fst e -> dict_get (dict_update d e) k = dict_get d k.
Proof.
  unfold dict_update. revert d. induction e as [|[j w] e IH]; intros d Hk; [done|]. simpl in *.
  apply not_elem_of_cons in Hk as [Hj Hk]. rewrite IH by done. rewrite dict_get_set.
  unfold str_eqb. by rewrite bool_decide_eq_false_2.
Qed.

Lemma get_plain d k : plain (VDict d) -> plain (get d k).
Proof.
  intros Hd. inversion Hd as [| | | | |? Hf Hn]; subst. unfold get. clear Hd Hn.
  induction Hf as [|[j w] d [Hj Hw] _ IH]; [constructor|]. simpl. by destruct (str_eqb j k).
Qed.

(** ** The fuel of [loads] is enough for every text *)

Section Fuel.
Variable parse_float : str -> value.
Variable object_hook : list (str * value) -> result json_error value.
Variable constant_hook : str -> result json_error value.
Hypothesis object_hook_fuel : forall d, object_hook d <> Raise OutOfFuel.
Hypothesis constant_hook_fuel : forall s, constant_hook s <> Raise OutOfFuel.

Abbreviation scan := (scan_value parse_float object_hook constant_hook).

(** A result that is not out of fuel and leaves less than [n] characters. *)
Definition fine {A} (n : nat) (x : result json_error (A * str)) : Prop :=
  match x with Ok (_, t) => (length t < n)%nat | Raise e => e <> OutOfFuel end.

Lemma fine_bind {A B} n k (x : result json_error (A * str)) (f : A * str -> result json_error (B * str)) :
  fine n x -> (forall v t, (length t < n)%nat -> fine k (f (v, t))) -> fine k (x ≫= f).
Proof. destruct x as [[v t]|e]; simpl; auto. Qed.

Lemma fine_hook {A B} k (y : result json_error A) (g : A -> B) t :
  y <> Raise OutOfFuel -> (length t < k)%nat -> fine k (v ← y; Ok (g v, t)).
Proof. intros Hy Ht. destruct y; simpl; [done|]. congruence. Qed.

Lemma drop_while_length {A} (f : A -> bool) l : (length (drop_while f l) <= length l)%nat.
Proof. induction l as [|x l IH]; simpl; [lia|]. destruct (f x); simpl; lia. Qed.

Lemma scan_string_length skip s r t : scan_string skip s = Some (r, t) -> (length t < length s)%nat.
Proof.
  revert skip r. induction s as [|c s IH]; intros skip r Hs; [done|]. cbn [scan_string length] in *.
  destruct skip as [|skip]; [|apply IH in Hs; lia].
  assert (forall k u, match scan_string k s with Some (r, t) => Some (u :: r, t) | None => None end = Some (r, t) ->
    (length t < S (length s))%nat) as Hk.
  { intros k u Hx. destruct (scan_string k s) as [[r' t']|] eqn:E; simplify_eq. apply IH in E. lia. }
  destruct (c =? 34); [simplify_eq; lia|]. destruct (c <? 32); [done|].
  destruct (c =? 92); [|by eapply Hk]. repeat case_match; simplify_eq; try done.
  all: match goal with E : scan_string _ _ = Some _ |- _ => apply IH in E; cbn [length] in *; lia end.
Qed.

Lemma span_digits_length s : (length (snd (span_digits s)) <= length s)%nat.
Proof. apply drop_while_length. Qed.

Lemma scan_nat_length s i r : scan_nat s = Some (i, r) -> (length r < length s)%nat.
Proof.
  destruct s as [|c s]; [done|]. unfold scan_nat. destruct (c =? 48); [intros; simplify_eq; simpl; lia|].
  destruct (ascii_digit c) eqn:Ec; [|done]. unfold span_digits. cbn [drop_while]. rewrite Ec. intros [= <- <-].
  pose proof (drop_while_length ascii_digit s). simpl. lia.
Qed.

Lemma scan_int_length s i r : scan_int s = Some (i, r) -> (length r < length s)%nat.
Proof.
  destruct s as [|c s]; [done|]. unfold scan_int. destruct (c =? 45); [|by apply scan_nat_length].
  destruct (scan_nat s) as [[ds t]|] eqn:E; [|done]. intros [= _ <-]. apply scan_nat_length in E. simpl. lia.
Qed.

Lemma scan_frac_length s : (length (snd (scan_frac s)) <= length s)%nat.
Proof.
  destruct s as [|c s]; [done|]. unfold scan_frac. destruct (c =? 46); [|done]. pose proof (span_digits_length s) as H.
  destruct (span_digits s) as [ds r]. cbn [snd] in H. destruct (nonempty ds); cbn [snd length]; lia.
Qed.

Lemma scan_exp_length s : (length (snd (scan_exp s)) <= length s)%nat.
Proof.
  destruct s as [|c s]; [done|]. unfold scan_exp. destruct (_ || _); [|done].
  set (p := match s with [] => _ | _ => _ end).
  assert (length (snd p) <= length s)%nat as Hp.
  { unfold p. destruct s as [|x s]; [done|]. destruct (_ || _); cbn [snd length]; lia. }
  destruct p as [sg r1]. cbn [snd] in Hp. pose proof (span_digits_length r1) as H.
  destruct (span_digits r1) as [ds r]. cbn [snd] in H. destruct (nonempty ds); cbn [snd length]; lia.
Qed.

Lemma scan_number_fine s : fine (length s) (scan_number parse_float s).
Proof.
  unfold scan_number. destruct (scan_int s) as [[i r]|] eqn:E; [|done]. apply scan_int_length in E.
  pose proof (scan_frac_length r) as Hf. destruct (scan_frac r) as [f r1]. simpl in Hf.
  pose proof (scan_exp_length r1) as He. destruct (scan_exp r1) as [e r2]. simpl in He.
  destruct (_ || _); simpl; [lia|]. destruct (_ <? _); simpl; [done|lia].
Qed.

Lemma scan_literal_fine s x : scan_literal constant_hook s = Some x -> s <> [] -> fine (length s) x.
Proof.
  intros Hx Hs. assert (forall n, 1 <= n -> (length (slice_from s n) < length s)%nat) as Hl.
  { intros n Hn. rewrite slice_from_pos, length_drop by lia. destruct s; [done|]. simpl. lia. }
  unfold scan_literal in Hx. repeat (destruct (startswith _ _); [injection Hx as <-|]); try done; simpl; try (apply Hl; lia).
  all: match goal with |- context [constant_hook ?a] => pose proof (constant_hook_fuel a) as Hc; destruct (constant_hook a) end.
  all: simpl; try (apply Hl; lia); congruence.
Qed.

Lemma scan_fine fuel :
  (forall s, (2 * length s < fuel)%nat -> fine (length s) (scan fuel s)) /\
  (forall s, (2 * length s + 1 < fuel)%nat -> fine (length s) (scan_items parse_float object_hook constant_hook fuel s)) /\
  (forall s, (2 * length s + 1 < fuel)%nat -> fine (length s) (scan_members parse_float object_hook constant_hook fuel s)).
Proof.
  induction fuel as [|fuel (IHv & IHi & IHm)]; [split_and!; intros; lia|].
  assert (forall s, (length (tail (skip_ws s)) <= length s)%nat) as Ht.
  { intros s. pose proof (drop_while_length json_space s). unfold skip_ws. destruct (drop_while json_space s); simpl in *; lia. }
  assert (forall s, (length (skip_ws s) <= length s)%nat) as Hw by (intros; apply drop_while_length).
  split_and!; intros s Hf.
  - destruct s as [|c r]; [done|]. cbn [length] in *. pose proof (Ht r). pose proof (Hw r). cbn [scan_value].
    destruct (c =? 34).
    { destruct (scan_string O r) as [[x t]|] eqn:E; simpl; [apply scan_string_length in E; lia|done]. }
    destruct (c =? 123).
    { destruct (starts 125 (skip_ws r)); [apply fine_hook; [apply object_hook_fuel|lia]|].
      eapply fine_bind; [apply IHm; lia|]. intros v t Hl. apply fine_hook; [apply object_hook_fuel|lia]. }
    destruct (c =? 91).
    { destruct (starts 93 (skip_ws r)); [simpl; lia|]. eapply fine_bind; [apply IHi; lia|]. intros v t Hl. simpl. lia. }
    destruct (scan_literal constant_hook (c :: r)) as [x|] eqn:E; [by apply (scan_literal_fine _ _ E)|].
    apply (scan_number_fine (c :: r)).
  - cbn [scan_items]. eapply fine_bind; [apply IHv; lia|]. intros v t Hl. pose proof (Ht t) as H1. cbv zeta.
    destruct (starts 93 (skip_ws t)); [simpl; lia|]. destruct (starts 44 (skip_ws t)); [|done].
    pose proof (Hw (tail (skip_ws t))). eapply fine_bind; [apply IHi; lia|]. intros vs t' Hl'. simpl. lia.
  - cbn [scan_members]. destruct s as [|c s]; [done|]. cbn [length starts] in *. destruct (c =? 34); [|done]. cbn [negb].
    destruct (scan_string O (tail (c :: s))) as [[k t]|] eqn:E; [|done]. apply scan_string_length in E. cbn [tl] in E. cbv zeta.
    pose proof (Ht t) as H1. destruct (negb _); [done|]. pose proof (Hw (tail (skip_ws t))).
    eapply fine_bind; [apply IHv; lia|]. intros v t2 Hl. pose proof (Ht t2) as H2. pose proof (Hw (tail (skip_ws t2))).
    destruct (starts 125 (skip_ws t2)); [simpl; lia|]. destruct (starts 44 (skip_ws t2)); [|done].
    eapply fine_bind; [apply IHm; lia|]. intros ps t4 Hl4. simpl. lia.
Qed.

Lemma loads_fuel s : loads parse_float object_hook constant_hook s <> Raise OutOfFuel.
Proof.
  unfold loads. assert (length (skip_ws s) <= length s)%nat as Hl by apply drop_while_length.
  destruct (scan_fine (S (2 * length s))) as (Hv & _ & _). specialize (Hv (skip_ws s) ltac:(lia)).
  destruct (scan_value _ _ _ _ _) as [[v t]|e]; simpl in *; [by destruct (nonempty _)|congruence].
Qed.
End Fuel.
