(* ===== verification/BgJournal.v ===== *)
(** * Background jobs in the session journal

    Models the part of [SessionRecorder] in [kolega_code/cli/session_journal.py]
    that makes background jobs durable: admission, outcome, insertion into the
    root history, recovery, and the projection of archived reports.

    An event keeps what these operations read.  An artifact reference stands for
    the text it was made from (artifacts are named by the digest of their
    content).  The metadata of a job is opaque but for its project path.  A
    write may fail, and a failed write may nevertheless have left its event in
    the file ([_append_locked] says so): the outcome of the write is an argument
    of each operation. *)

From stdpp Require Import base list strings numbers gmap.
From Stdlib Require Import ZArith Lia.
From S2P Require Import Prelude PyStr PyVal.

(** The job states of the manager and the journal. *)
Inductive job_status := Queued | Running | Completed | Failed | Cancelled | Interrupted.

#[global] Instance job_status_eq_dec : EqDecision job_status.
Proof. solve_decision. Defined.

Definition terminal (s : job_status) : bool :=
  match s with Completed | Failed | Cancelled | Interrupted => true | Queued | Running => false end.

Definition TOOL_RESULT_PREVIEW_CHARS : Z := 100000.

Inductive write := Written | Lost | WrittenThenRaised.

Inductive journal_error :=
| NotRoot                 (* only valid for the root agent recorder *)
| InactiveEpoch
| ConflictingJob
| UnknownStatus           (* ValueError *)
| ConflictingOutcome
| UnsettledContext
| WriteFailed.

Section BgJournal.
Context {metadata : Type} `{EqDecision metadata}.
Variable project_path : metadata -> str.

(** The dict of a background job; [archived] and [text] are absent at first. *)
Record job_data := mkData {
  job_id : str;
  completion_id : str;
  agent_type : str;
  task : str;
  meta : metadata;
  job_epoch : str;
  status : job_status;
  job_result : str;
  delivered : bool;
  archived : bool;
  text : option str
}.

#[global] Instance job_data_eq_dec : EqDecision job_data.
Proof. solve_decision. Defined.

(** The payload of an inserted completion message. *)
Record completion := mkCompletion {
  msg_text : str;
  msg_completion_id : str;
  msg_job_id : str;
  msg_status : job_status;
  msg_archived : bool
}.

Inductive event_body :=
| EpochStarted
| JobSubmitted (job : job_data)
| JobTerminal (job : job_data) (result_artifact : option str)
| ContextMessage (c : option completion)
| MessageArchived (completion_id : str)
| WorkspaceSwitched (new_root : str)
| ContextRewound (boundary_seq : Z)
| OtherEvent.

Record event := mkEvent { seq : Z; epoch_id : str; depth : Z; body : event_body }.

(** The recorder: its stamp, the journal it writes to, and whether a tool
    result, an assistant message or a turn end is still to be settled. *)
Record recorder := mkRecorder {
  stamp_depth : Z;
  events : list event;
  journal_epoch : str;
  unsettled : bool
}.

(** ** Appending *)

Definition next_event (r : recorder) (ep : str) (b : event_body) : event :=
  mkEvent (len (events r) + 1) ep (stamp_depth r) b.
Definition add_event (r : recorder) (ep : str) (b : event_body) : recorder :=
  mkRecorder (stamp_depth r) (events r ++ [next_event r ep b]) (journal_epoch r) (unsettled r).

Definition _append (w : write) (r : recorder) (ep : str) (b : event_body) : result journal_error unit * recorder :=
  match w with
  | Written => (Ok tt, add_event r ep b)
  | Lost => (Raise WriteFailed, r)
  | WrittenThenRaised => (Raise WriteFailed, add_event r ep b)
  end.

(** ** Archived reports *)

Record archive_state := mkArchive {
  ar_archived : gset (list Z); ar_submitted : gset (list Z); ar_inserted : gset (list Z); ar_workspace : str }.

Definition archive_step (st : archive_state) (e : event) : archive_state :=
  let '(mkArchive ar sub ins ws) := st in
  if negb (depth e =? 0) then st
  else match body e with
       | EpochStarted => mkArchive ∅ ∅ ∅ []
       | JobSubmitted job =>
           let path := project_path (meta job) in
           let ar := if nonempty ws && nonempty path && negb (str_eqb path ws) then {[ completion_id job ]} ∪ ar else ar in
           mkArchive ar ({[ completion_id job ]} ∪ sub) ins ws
       | ContextMessage (Some c) =>
           if nonempty (msg_completion_id c) then
             mkArchive (if msg_archived c then {[ msg_completion_id c ]} ∪ ar else ar) sub
               ({[ msg_completion_id c ]} ∪ ins) ws
           else st
       | MessageArchived cid => mkArchive ({[ cid ]} ∪ ar) sub ins ws
       | WorkspaceSwitched new_root => mkArchive (ar ∪ (sub ∖ ins)) sub ins new_root
       | _ => st
       end.

Definition archived_background_completion_ids (es : list event) : gset (list Z) :=
  ar_archived (foldl archive_step (mkArchive ∅ ∅ ∅ []) es).

(** ** Recovery

    A row of [jobs] while it is built: the merged payloads and the artifact
    holding its result, if one does. *)

Definition row : Type := job_data * option str.

(** [jobs.setdefault(job_id, {}).update(job)], in insertion order. *)
Fixpoint update_row (rows : list (str * row)) (k : str) (job : job_data) (art : option str) : list (str * row) :=
  match rows with
  | [] => [(k, (job, art))]
  | (k', (job', art')) :: rows' =>
      if str_eqb k' k then (k', (job, match art with Some a => Some a | None => art' end)) :: rows'
      else (k', (job', art')) :: update_row rows' k job art
  end.

Definition in_epoch (ep : str) (e : event) : bool := str_eqb (epoch_id e) ep && (depth e =? 0).

Definition row_step (ep : str) (rows : list (str * row)) (e : event) : list (str * row) :=
  if negb (in_epoch ep e) then rows
  else match body e with
       | JobSubmitted job => update_row rows (job_id job) job None
       | JobTerminal job art => update_row rows (job_id job) job art
       | _ => rows
       end.

Definition delivered_ids (ep : str) (es : list event) : gset (list Z) :=
  list_to_set (omap (fun e =>
    if in_epoch ep e then
      match body e with
      | ContextMessage (Some c) => if nonempty (msg_completion_id c) then Some (msg_completion_id c) else None
      | _ => None
      end
    else None) es).

Definition close_row (dl ar : gset (list Z)) (r : str * row) : job_data :=
  let '(_, (job, art)) := r in
  mkData (job_id job) (completion_id job) (agent_type job) (task job) (meta job) (job_epoch job) (status job)
    (match art with Some t => t | None => job_result job end)
    (bool_decide (completion_id job ∈ dl)) (bool_decide (completion_id job ∈ ar)) (text job).

Definition read_background_jobs (r : recorder) (ep : str) : result journal_error (list job_data) :=
  if negb (stamp_depth r =? 0) then Raise NotRoot
  else
    let es := events r in
    let ar := archived_background_completion_ids (List.filter (fun e => str_eqb (epoch_id e) ep) es) in
    Ok (map (close_row (delivered_ids ep es) ar) (foldl (row_step ep) [] es)).

(** Reports for display, with the rewinds of the epoch applied. *)
Definition archived_message_step (ar : gset (list Z)) (ms : list (Z * str)) (e : event) : list (Z * str) :=
  match body e with
  | ContextMessage (Some c) => if bool_decide (msg_completion_id c ∈ ar) then ms ++ [(seq e, msg_text c)] else ms
  | ContextRewound boundary => List.filter (fun m => fst m <? boundary) ms
  | _ => ms
  end.

Definition read_archived_background_messages (r : recorder) : result journal_error (list str) :=
  if negb (stamp_depth r =? 0) then Raise NotRoot
  else
    let es := List.filter (in_epoch (journal_epoch r)) (events r) in
    Ok (map snd (foldl (archived_message_step (archived_background_completion_ids es)) [] es)).

(** ** Recording *)

Definition submitted_as (ep jid : str) (e : event) : option job_data :=
  if in_epoch ep e then
    match body e with JobSubmitted job => if str_eqb (job_id job) jid then Some job else None | _ => None end
  else None.

Definition record_background_job_submitted (w : write) (r : recorder) (job : job_data) (ep : str)
    : result journal_error unit * recorder :=
  if negb (stamp_depth r =? 0) then (Raise NotRoot, r)
  else if negb (str_eqb (journal_epoch r) ep) then (Raise InactiveEpoch, r)
  else match omap (submitted_as ep (job_id job)) (events r) with
       | job' :: _ => if bool_decide (job' = job) then (Ok tt, r) else (Raise ConflictingJob, r)
       | [] => _append w r ep (JobSubmitted job)
       end.

(** The recorded payload drops [delivered] and [text] and moves a long result
    into an artifact. *)
Definition terminal_event (job : job_data) : event_body :=
  let long := TOOL_RESULT_PREVIEW_CHARS <? len (job_result job) in
  JobTerminal
    (mkData (job_id job) (completion_id job) (agent_type job) (task job) (meta job) (job_epoch job) (status job)
       (if long then [] else job_result job) false (archived job) None)
    (if long then Some (job_result job) else None).

Definition record_background_job_terminal (w : write) (r : recorder) (job : job_data) (ep : str)
    : result journal_error unit * recorder :=
  if negb (stamp_depth r =? 0) then (Raise NotRoot, r)
  else if negb (terminal (status job)) then (Raise UnknownStatus, r)
  else match read_background_jobs r ep with
       | Raise e => (Raise e, r)
       | Ok rows =>
           match List.find (fun x => str_eqb (job_id x) (job_id job) && negb (bool_decide (status x = Queued))) rows with
           | Some existing =>
               if negb (bool_decide (status existing = status job)) || negb (str_eqb (job_result existing) (job_result job))
               then (Raise ConflictingOutcome, r) else (Ok tt, r)
           | None => _append w r ep (terminal_event job)
           end
       end.

Definition inserted_as (ep cid : str) (e : event) : option completion :=
  if in_epoch ep e then
    match body e with
    | ContextMessage (Some c) => if str_eqb (msg_completion_id c) cid then Some c else None
    | _ => None
    end
  else None.

Definition record_background_completion (w : write) (r : recorder) (job : job_data) (message : str) (ep : str)
    : result journal_error bool * recorder :=
  if negb (stamp_depth r =? 0) then (Raise NotRoot, r)
  else if unsettled r then (Raise UnsettledContext, r)
  else if negb (str_eqb (journal_epoch r) ep) then (Raise InactiveEpoch, r)
  else match omap (inserted_as ep (completion_id job)) (events r) with
       | c :: _ =>
           if archived job && negb (msg_archived c)
              && negb (bool_decide (completion_id job ∈ archived_background_completion_ids (events r))) then
             let '(x, r') := _append w r ep (MessageArchived (completion_id job)) in
             (match x with Ok _ => Ok false | Raise e => Raise e end, r')
           else (Ok false, r)
       | [] =>
           let '(x, r') := _append w r ep (ContextMessage (Some
             (mkCompletion message (completion_id job) (job_id job) (status job) (archived job)))) in
           (match x with Ok _ => Ok true | Raise e => Raise e end, r')
       end.

Definition record_workspace_switched (w : write) (r : recorder) (new_root : str) : result journal_error unit * recorder :=
  if unsettled r then (Raise UnsettledContext, r) else _append w r (journal_epoch r) (WorkspaceSwitched new_root).

(** [turn_open]: a turn of the root agent is in progress. *)
Definition start_epoch (w : write) (turn_open : bool) (r : recorder) (ep : str) : option journal_error * recorder :=
  if negb (stamp_depth r =? 0) then (Some NotRoot, r)
  else if unsettled r || turn_open then (Some UnsettledContext, r)
  else
    let '(x, r') := _append w r ep EpochStarted in
    let error := match x with Ok _ => None | Raise e => Some e end in
    match w with
    | Lost => (error, r')
    | _ => (error, mkRecorder (stamp_depth r') (events r') ep (unsettled r'))
    end.
End BgJournal.
