(* ===== verification/BgJournalFacts.v ===== *)
(** * Background jobs in the session journal: lemmas on [BgJournal.v] *)

From stdpp Require Import base list strings numbers gmap.
From Stdlib Require Import ZArith Lia.
From S2P Require Import Prelude PyStr PyVal BgJournal.

Lemma str_eqb_neq a b : str_eqb a b = false <-> a <> b.
Proof. apply bool_decide_eq_false. Qed.

Lemma str_eqb_spec a b : reflect (a = b) (str_eqb a b).
Proof. apply bool_decide_reflect. Qed.

Section Facts.
Context {metadata : Type} `{EqDecision metadata}.
Variable project_path : metadata -> str.

Abbreviation recorder := (@recorder metadata).
Abbreviation job_data := (@job_data metadata).
Abbreviation rows ep es := (foldl (row_step ep) [] es : list (str * @row metadata)).

Implicit Types (r : recorder) (d : job_data).

(** ** Rows *)

Lemma dict_get_update_row (rs : list (str * @row metadata)) k job art k' :
  dict_get (update_row rs k job art) k' =
    if str_eqb k k' then
      Some (job, match art with Some a => Some a | None => match dict_get rs k with Some (_, a) => a | None => None end end)
    else dict_get rs k'.
Proof.
  induction rs as [|[k0 [j0 a0]] rs IH]; simpl; [by destruct (str_eqb k k'), art|].
  destruct (str_eqb_spec k0 k) as [->|Hk]; simpl.
  - by destruct (str_eqb_spec k k').
  - rewrite IH. destruct (str_eqb_spec k0 k') as [->|]; [|done].
    by rewrite (proj2 (str_eqb_neq k k')).
Qed.

(** The key of a row is the id of its job, and no key occurs twice. *)
Definition keyed (rs : list (str * @row metadata)) : Prop :=
  Forall (fun kr => job_id kr.2.1 = kr.1) rs /\ NoDup (map fst rs).

Lemma update_row_keys (rs : list (str * @row metadata)) k job art x :
  x ∈ map fst (update_row rs k job art) -> x ∈ map fst rs \/ x = k.
Proof.
  induction rs as [|[k0 [j0 a0]] rs IH]; simpl.
  - intros ->%list_elem_of_singleton. by right.
  - destruct (str_eqb k0 k); simpl; [by left|]. rewrite !elem_of_cons. naive_solver.
Qed.

Lemma update_row_keyed rs job art : keyed rs -> keyed (update_row rs (job_id job) job art).
Proof.
  intros [Hf Hn]. induction rs as [|[k0 [j0 a0]] rs IH]; simpl.
  { split; [by constructor|]. apply NoDup_singleton. }
  inversion Hf; inversion Hn; subst. destruct (str_eqb_spec k0 (job_id job)) as [->|Hk].
  - split; by constructor.
  - destruct IH as [IH1 IH2]; [done|done|]. split; [by constructor|]. constructor; [|done].
    simpl. intros Hx%update_row_keys. naive_solver.
Qed.

Lemma row_step_keyed ep rs e : keyed rs -> keyed (row_step ep rs e).
Proof.
  intros Hk. unfold row_step. destruct (in_epoch ep e); [|done]. simpl. destruct (body e); auto using update_row_keyed.
Qed.

Lemma rows_keyed ep es : keyed (rows ep es).
Proof.
  induction es as [|e es IH] using rev_ind; [by repeat constructor|]. rewrite foldl_app. simpl. by apply row_step_keyed.
Qed.

(** The job an event is about. *)
Definition job_of (b : @event_body metadata) : option str :=
  match b with JobSubmitted j => Some (job_id j) | JobTerminal j _ => Some (job_id j) | _ => None end.

Lemma row_frame ep r ep' b id :
  job_of b <> Some id -> dict_get (rows ep (events (add_event r ep' b))) id = dict_get (rows ep (events r)) id.
Proof.
  intros Hb. simpl. rewrite foldl_app. simpl. unfold row_step. destruct (in_epoch _ _); [|done]. simpl.
  destruct b; try done; rewrite dict_get_update_row; destruct (str_eqb_spec (job_id job) id); simpl in *; congruence.
Qed.

Lemma in_epoch_next r ep b : stamp_depth r = 0 -> in_epoch ep (next_event r ep b) = true.
Proof. intros Hd. unfold in_epoch. simpl. by rewrite str_eqb_refl, Hd. Qed.

Lemma find_row dl ar (rs : list (str * @row metadata)) id :
  keyed rs ->
  List.find (fun x => str_eqb (job_id x) id && negb (bool_decide (status x = Queued))) (map (close_row dl ar) rs)
  = match dict_get rs id with
    | Some (j, art) => if bool_decide (status j = Queued) then None else Some (close_row dl ar (id, (j, art)))
    | None => None
    end.
Proof.
  intros [Hf Hn]. induction rs as [|[k [j art]] rs IH]; [done|]. inversion Hf; inversion Hn; subst. simpl in *. subst.
  destruct (str_eqb_spec (job_id j) id) as [<-|Hk]; simpl; [|by apply IH].
  case_bool_decide; simpl; [|done]. rewrite IH by done.
  destruct (dict_get rs (job_id j)) as [[j' a']|] eqn:E; [|done].
  exfalso. apply H5. clear -E. induction rs as [|[k [? ?]] rs IH]; simpl in *; [done|].
  destruct (str_eqb_spec k (job_id j)); [subst; left|right; auto].
Qed.

(** ** A durable outcome *)

Definition durable r (ep id : str) (s : job_status) (res : str) : Prop :=
  exists j art, dict_get (rows ep (events r)) id = Some (j, art) /\
    status j = s /\ (match art with Some t => t | None => job_result j end) = res.

Lemma durable_frame r ep ep' b id s res :
  job_of b <> Some id -> durable r ep id s res -> durable (add_event r ep' b) ep id s res.
Proof. intros Hb (j & art & Hg & ?). exists j, art. by rewrite row_frame. Qed.

Lemma append_cases w r ep b x r' :
  _append w r ep b = (x, r') -> (r' = r /\ x <> Ok tt) \/ r' = add_event r ep b.
Proof. destruct w; intros [= <- <-]; auto. Qed.

Lemma durable_submitted w r d ep x r' id s res ep' :
  record_background_job_submitted w r d ep = (x, r') -> id <> job_id d ->
  durable r ep' id s res -> durable r' ep' id s res.
Proof.
  unfold record_background_job_submitted. intros Hr Hid Hd.
  repeat (case_match || case_bool_decide); simplify_eq; try done.
  apply append_cases in Hr as [[-> _]| ->]; [done|]. apply durable_frame; simpl; congruence.
Qed.

Lemma durable_terminal_keep w r d ep x r' id s res :
  record_background_job_terminal project_path w r d ep = (x, r') -> terminal s = true ->
  durable r ep id s res -> durable r' ep id s res.
Proof.
  unfold record_background_job_terminal, read_background_jobs. intros Hr Hs Hd.
  destruct (negb (stamp_depth r =? 0)); simplify_eq; [done|].
  destruct (negb (terminal (status d))); simplify_eq; [done|].
  rewrite find_row in Hr by apply rows_keyed.
  destruct (decide (id = job_id d)) as [->|Hid].
  - destruct Hd as (j & art & Hg & Hst & Hres). rewrite Hg in Hr.
    rewrite bool_decide_eq_false_2 in Hr by (intros Hq; rewrite <- Hst, Hq in Hs; done).
    destruct (_ || _); simplify_eq; by exists j, art.
  - assert (forall b, job_of b = Some (job_id d) -> durable (add_event r ep b) ep id s res) as Hf.
    { intros b Hb. apply durable_frame; [congruence|done]. }
    repeat (case_match || case_bool_decide); simplify_eq; try done;
      apply append_cases in Hr as [[-> _]| ->]; auto.
Qed.

(** ** Well-formed journals

    Each row has been submitted; it is queued, with no result recorded, or
    settled. *)
Definition has_submitted r (ep id : str) : Prop := omap (submitted_as ep id) (events r) <> [].

Definition row_ok (rw : @row metadata) : Prop := (status rw.1 = Queued /\ rw.2 = None) \/ terminal (status rw.1) = true.

Definition journal_wf r : Prop :=
  forall ep id rw, dict_get (rows ep (events r)) id = Some rw -> has_submitted r ep id /\ row_ok rw.

Lemma omap_add {A} (f : event -> option A) r ep b :
  omap f (events (add_event r ep b)) = omap f (events r) ++ match f (next_event r ep b) with Some x => [x] | None => [] end.
Proof. simpl. by rewrite omap_app. Qed.

Lemma has_submitted_mono r ep b ep' id : has_submitted r ep' id -> has_submitted (add_event r ep b) ep' id.
Proof. unfold has_submitted. rewrite omap_add. intros ? [??]%app_eq_nil. done. Qed.

Lemma journal_wf_frame r ep b : job_of b = None -> journal_wf r -> journal_wf (add_event r ep b).
Proof.
  intros Hb Hw ep' id rw Hg. rewrite row_frame in Hg by congruence. apply Hw in Hg as [??].
  split; [by apply has_submitted_mono|done].
Qed.

Lemma not_submitted r ep id : omap (submitted_as ep id) (events r) = [] ->
  stamp_depth r = 0 -> journal_wf r -> dict_get (rows ep (events r)) id = None.
Proof. intros Hs Hd Hw. destruct (dict_get _ _) eqn:E; [|done]. apply Hw in E as [? _]. done. Qed.

Lemma journal_wf_event r ep b id :
  stamp_depth r = 0 -> job_of b = Some id -> journal_wf r -> has_submitted (add_event r ep b) ep id ->
  (forall rw, dict_get (rows ep (events (add_event r ep b))) id = Some rw -> row_ok rw) ->
  journal_wf (add_event r ep b).
Proof.
  intros Hd Hb Hw Hs Hr ep' id' rw Hg. destruct (decide (ep' = ep)) as [->|Hne].
  - destruct (decide (id' = id)) as [->|Hid]; [by split; [|apply Hr]|].
    rewrite row_frame in Hg by congruence. apply Hw in Hg as [??]. split; [by apply has_submitted_mono|done].
  - simpl in Hg. rewrite foldl_app in Hg. simpl in Hg. unfold row_step at 1, in_epoch in Hg. simpl in Hg.
    rewrite (proj2 (str_eqb_neq ep ep')) in Hg by done. simpl in Hg. apply Hw in Hg as [??].
    split; [by apply has_submitted_mono|done].
Qed.

Lemma journal_wf_submitted w r d ep x r' :
  record_background_job_submitted w r d ep = (x, r') -> status d = Queued -> journal_wf r ->
  journal_wf r' /\ (x = Ok tt -> has_submitted r' ep (job_id d)).
Proof.
  unfold record_background_job_submitted. intros Hr Hq Hw.
  destruct (stamp_depth r =? 0) eqn:Ed; simplify_eq/=; [|done]. apply Z.eqb_eq in Ed.
  destruct (negb _); simplify_eq; [done|].
  destruct (omap _ _) eqn:Eo.
  - assert (has_submitted (add_event r ep (JobSubmitted d)) ep (job_id d)) as Hs.
    { unfold has_submitted. rewrite omap_add, Eo. unfold submitted_as. rewrite in_epoch_next by done. simpl.
      by rewrite str_eqb_refl. }
    apply append_cases in Hr as [[-> ?]| ->]; [done|]. split; [|done].
    eapply journal_wf_event; [done|done|done|done|]. intros rw Hg. simpl in Hg. rewrite foldl_app in Hg. simpl in Hg.
    unfold row_step at 1 in Hg. rewrite in_epoch_next in Hg by done. simpl in Hg.
    rewrite dict_get_update_row, str_eqb_refl, (not_submitted r ep (job_id d)) in Hg by done.
    simplify_eq. by left.
  - case_bool_decide; simplify_eq; [|done]. split; [done|]. intros _. unfold has_submitted. by rewrite Eo.
Qed.

Lemma journal_wf_terminal w r d ep x r' :
  record_background_job_terminal project_path w r d ep = (x, r') -> has_submitted r ep (job_id d) ->
  journal_wf r -> journal_wf r'.
Proof.
  unfold record_background_job_terminal, read_background_jobs. intros Hr Hs Hw.
  destruct (stamp_depth r =? 0) eqn:Ed; simplify_eq/=; [|done]. apply Z.eqb_eq in Ed.
  destruct (terminal (status d)) eqn:Et; simplify_eq/=; [|done].
  destruct (List.find _ _); [by destruct (_ || _); simplify_eq|].
  apply append_cases in Hr as [[-> ?]| ->]; [done|].
  eapply journal_wf_event; [done|done|done|by apply has_submitted_mono|]. intros rw Hg. simpl in Hg. rewrite foldl_app in Hg.
  simpl in Hg. unfold row_step at 1 in Hg. rewrite in_epoch_next in Hg by done. simpl in Hg.
  rewrite dict_get_update_row in Hg. simpl in Hg. rewrite str_eqb_refl in Hg. simplify_eq. by right.
Qed.

Lemma durable_terminal_done w r d ep r' :
  record_background_job_terminal project_path w r d ep = (Ok tt, r') -> journal_wf r ->
  durable r' ep (job_id d) (status d) (job_result d).
Proof.
  unfold record_background_job_terminal, read_background_jobs. intros Hr Hw.
  destruct (stamp_depth r =? 0) eqn:Ed; [|done]. cbn [negb] in Hr. apply Z.eqb_eq in Ed.
  destruct (negb (terminal (status d))); [done|]. rewrite find_row in Hr by apply rows_keyed.
  assert ((forall rw, dict_get (rows ep (events r)) (job_id d) = Some rw -> rw.2 = None) ->
    _append w r ep (terminal_event d) = (Ok tt, r') -> durable r' ep (job_id d) (status d) (job_result d)) as Happ.
  { intros Hart Ha. destruct w; simplify_eq/=. unfold durable. simpl. rewrite foldl_app. simpl.
    unfold row_step at 1. rewrite in_epoch_next by done. simpl. rewrite dict_get_update_row. simpl. rewrite str_eqb_refl.
    destruct (dict_get (rows ep (events r)) (job_id d)) as [[j art]|] eqn:Eg;
      [pose proof (Hart _ eq_refl) as Hn; simpl in Hn; subst|]; do 2 eexists; (split; [done|]); simpl; by destruct (_ <? _). }
  destruct (dict_get (rows ep (events r)) (job_id d)) as [[j art]|] eqn:Eg; [|by apply Happ].
  case_bool_decide as Hq.
  - apply Happ; [|done]. intros rw [= <-]. apply Hw in Eg as [_ [[_ ?]|Ht]]; [done|]. simpl in Ht. by rewrite Hq in Ht.
  - destruct (_ || _) eqn:Eo; [done|]. simplify_eq. apply orb_false_iff in Eo as [E1 E2].
    apply negb_false_iff, bool_decide_eq_true in E1. apply negb_false_iff, str_eqb_eq in E2. by exists j, art.
Qed.

(** ** Insertions *)

Definition inserted_cid (ep : str) (e : @event metadata) : option str :=
  if in_epoch ep e then match body e with ContextMessage (Some c) => Some (msg_completion_id c) | _ => None end else None.

(** No completion is inserted twice in an epoch. *)
Definition inserted_once r : Prop := forall ep, NoDup (omap (inserted_cid ep) (events r)).

Definition is_inserted r (ep cid : str) : Prop := cid ∈ omap (inserted_cid ep) (events r).

Lemma inserted_as_cid ep cid (es : list (@event metadata)) :
  omap (inserted_as ep cid) es = [] <-> cid ∉ omap (inserted_cid ep) es.
Proof.
  induction es as [|e es IH]; simpl; [split; [by inversion 2|done]|].
  unfold inserted_as at 1, inserted_cid at 1.
  destruct (in_epoch ep e); [|done]. destruct (body e) as [| | |[c|]| | | |]; try done.
  destruct (str_eqb_spec (msg_completion_id c) cid) as [->|Hc].
  - split; [done|]. intros Hn. exfalso. apply Hn. left.
  - rewrite IH, elem_of_cons. naive_solver.
Qed.

Lemma is_inserted_mono r ep b ep' cid : is_inserted r ep' cid -> is_inserted (add_event r ep b) ep' cid.
Proof. unfold is_inserted. rewrite omap_add. intros. apply elem_of_app. by left. Qed.

Lemma inserted_once_frame r ep b :
  (forall c, b <> ContextMessage (Some c)) -> inserted_once r -> inserted_once (add_event r ep b).
Proof.
  intros Hb Hn ep'. rewrite omap_add. unfold inserted_cid at 2. destruct (in_epoch _ _), b as [| | |[c|]| | | |]; simpl;
    rewrite ?app_nil_r; try apply Hn; exfalso; by eapply Hb.
Qed.

Lemma record_completion_cases w r d t ep x r' :
  record_background_completion project_path w r d t ep = (x, r') ->
  (exists b, r' = r \/ (r' = add_event r ep b /\ job_of b = None)) /\
  (inserted_once r -> inserted_once r') /\
  (forall v, x = Ok v -> is_inserted r' ep (completion_id d)).
Proof.
  unfold record_background_completion. intros Hr.
  destruct (stamp_depth r =? 0) eqn:Ed; simplify_eq/=; [|by split; [exists OtherEvent; left|]]. apply Z.eqb_eq in Ed.
  destruct (unsettled r); simplify_eq/=; [by split; [exists OtherEvent; left|]|].
  destruct (negb _); simplify_eq/=; [by split; [exists OtherEvent; left|]|].
  destruct (omap _ _) as [|c cs] eqn:Eo.
  - destruct (_append _ _ _ _) as [y r''] eqn:Ea. simplify_eq. apply append_cases in Ea as [[-> Hy]| ->].
    + split; [by exists OtherEvent; left|]. split; [done|]. intros v. by destruct y as [[]|].
    + apply inserted_as_cid in Eo. split; [eexists; by right|]. split.
      * intros Hn ep'. rewrite omap_add. unfold inserted_cid at 2, in_epoch. simpl.
        destruct (str_eqb_spec ep ep') as [<-|]; simpl; [|by rewrite app_nil_r]. rewrite Ed. simpl.
        apply NoDup_app. split; [done|]. split; [|apply NoDup_singleton].
        intros z Hz ->%list_elem_of_singleton. done.
      * intros v _. unfold is_inserted. rewrite omap_add. unfold inserted_cid at 2. rewrite in_epoch_next by done.
        simpl. apply elem_of_app. right. by left.
  - assert (is_inserted r ep (completion_id d)) as Hi.
    { unfold is_inserted. destruct (decide (completion_id d ∈ omap (inserted_cid ep) (events r))); [done|].
      by apply inserted_as_cid in n; rewrite n in Eo. }
    destruct (_ && _); simplify_eq.
    + destruct (_append _ _ _ _) as [y r''] eqn:Ea. simplify_eq. apply append_cases in Ea as [[-> Hy]| ->].
      * split; [by exists OtherEvent; left|]. split; [done|]. intros v. by destruct y as [[]|].
      * split; [eexists; by right|]. split; [by apply inserted_once_frame|]. intros. by apply is_inserted_mono.
    + split; [by exists OtherEvent; left|]. split; [done|]. done.
Qed.
End Facts.
