(* ===== verification/Background.v ===== *)
(** * Background jobs

    Models [BackgroundAgentManager] of [kolega_code/session/background.py] with
    the recorder of [BgJournal.v] as its durable side.

    The manager runs on one event loop, so the code between two [await]s is
    atomic: a [label] names such a piece of code together with what the outside
    decides (the outcome of a write, of the child's run, of the host's
    preparation), and [step] executes it.  [operation] is the place reached by
    the operation that holds the manager's lock, [task_state] the place reached
    by the task of a job.  [Restart] is the death of the process and a new
    manager over the same journal.  A raised exception ends the operation; the
    three notification callbacks and the event they set only wake the host up
    and are left out. *)

From stdpp Require Import base list strings numbers gmap.
From Stdlib Require Import ZArith Lia.
From S2P Require Import Prelude PyStr PyVal Json BgJournal.

(** [task.done()] holds of [NoTask] (a recovered job) and [Finished]; the flag
    says that [task.cancel()] was called. *)
Inductive task_state :=
| NoTask
| Created
| WaitSlot (cancelling : bool)
| Holding (cancelling : bool)       (* in [await run()], holding a slot *)
| Persisting
| Finished.

Definition active (t : task_state) : bool := match t with NoTask | Finished => false | _ => true end.
Definition holding (t : task_state) : bool := match t with Holding _ => true | _ => false end.

(** How [await run()] ends. *)
Inductive run_outcome :=
| Returned (s : str)
| ReturnedOther                     (* not a string *)
| RaisedCancelled
| RaisedException (shown : str).    (* "Type: message" *)

Definition INTERRUPTED : str := lit "Background execution was interrupted by process exit.".
Definition CANCELLED : str := lit "Background job was cancelled.".

Definition status_value (s : job_status) : str :=
  match s with
  | Queued => lit "queued" | Running => lit "running" | Completed => lit "completed"
  | Failed => lit "failed" | Cancelled => lit "cancelled" | Interrupted => lit "interrupted"
  end.

Section Background.
Context {metadata : Type} `{EqDecision metadata}.
Variable project_path : metadata -> str.

Abbreviation job_data := (@job_data metadata).
Abbreviation recorder := (@recorder metadata).

Record job := mkJob {
  data : job_data;
  jtask : task_state;
  started : bool;
  cancel_requested : bool;
  persisted : bool
}.

(** After [_retry_failed_outcomes]. *)
Inductive continuation := ThenDeliver (archive : bool) | ThenClosed.

Inductive operation :=
| Idle
| Recovering (rows : list job_data)             (* the outcome of the first row is being written *)
| Admitting (d : job_data)
| Retrying (ids : list str) (k : continuation)
| Preparing (archive : bool)
| Reading (archive : bool)
| Delivering (archive : bool) (ids : list str)
| Committing (archive : bool) (id : str) (ids : list str)
| Closing.

Record manager := mkManager {
  rec : option recorder;
  rebound : bool;                  (* the public [recorder] was reassigned *)
  m_epoch : str;
  max_running : Z;
  max_jobs : Z;
  free_slots : Z;                  (* of the semaphore, at first [max_running] *)
  jobs : gmap (list Z) job;
  pending : list str;              (* the mailbox, oldest first *)
  errors : list str;               (* the jobs with a failed commit *)
  recovered : bool;
  closed : bool;
  oper : operation;
  live : list (str * str);         (* reports appended to the agent, by job *)
  needs_turn : bool                (* [agent.background_needs_turn] *)
}.

Definition init (r : option recorder) (running_limit jobs_limit : Z) : manager :=
  mkManager r false (match r with Some r => journal_epoch r | None => [] end) running_limit jobs_limit running_limit
    ∅ [] [] false false Idle [] false.

Definition set_rec (r : option recorder) (m : manager) : manager :=
  mkManager r (rebound m) (m_epoch m) (max_running m) (max_jobs m) (free_slots m) (jobs m) (pending m)
    (errors m) (recovered m) (closed m) (oper m) (live m) (needs_turn m).
Definition set_rebound (m : manager) : manager :=
  mkManager (rec m) true (m_epoch m) (max_running m) (max_jobs m) (free_slots m) (jobs m) (pending m)
    (errors m) (recovered m) (closed m) (oper m) (live m) (needs_turn m).
Definition set_jobs (j : gmap (list Z) job) (m : manager) : manager :=
  mkManager (rec m) (rebound m) (m_epoch m) (max_running m) (max_jobs m) (free_slots m) j (pending m)
    (errors m) (recovered m) (closed m) (oper m) (live m) (needs_turn m).
Definition set_slots (f : Z) (m : manager) : manager :=
  mkManager (rec m) (rebound m) (m_epoch m) (max_running m) (max_jobs m) f (jobs m) (pending m) (errors m)
    (recovered m) (closed m) (oper m) (live m) (needs_turn m).
Definition set_pending (p : list str) (m : manager) : manager :=
  mkManager (rec m) (rebound m) (m_epoch m) (max_running m) (max_jobs m) (free_slots m) (jobs m) p (errors m)
    (recovered m) (closed m) (oper m) (live m) (needs_turn m).
Definition set_errors (s : list str) (m : manager) : manager :=
  mkManager (rec m) (rebound m) (m_epoch m) (max_running m) (max_jobs m) (free_slots m) (jobs m) (pending m) s
    (recovered m) (closed m) (oper m) (live m) (needs_turn m).
Definition set_recovered (m : manager) : manager :=
  mkManager (rec m) (rebound m) (m_epoch m) (max_running m) (max_jobs m) (free_slots m) (jobs m) (pending m)
    (errors m) true (closed m) (oper m) (live m) (needs_turn m).
Definition set_closed (m : manager) : manager :=
  mkManager (rec m) (rebound m) (m_epoch m) (max_running m) (max_jobs m) (free_slots m) (jobs m) (pending m)
    (errors m) (recovered m) true (oper m) (live m) (needs_turn m).
Definition set_oper (o : operation) (m : manager) : manager :=
  mkManager (rec m) (rebound m) (m_epoch m) (max_running m) (max_jobs m) (free_slots m) (jobs m) (pending m)
    (errors m) (recovered m) (closed m) o (live m) (needs_turn m).
Definition add_live (id t : str) (m : manager) : manager :=
  mkManager (rec m) (rebound m) (m_epoch m) (max_running m) (max_jobs m) (free_slots m) (jobs m) (pending m)
    (errors m) (recovered m) (closed m) (oper m) (live m ++ [(id, t)]) true.

(** Fields of a job. *)
Definition with_outcome (s : job_status) (res : str) (d : job_data) : job_data :=
  mkData (job_id d) (completion_id d) (agent_type d) (task d) (meta d) (job_epoch d) s res (delivered d) (archived d) (text d).
Definition with_archived (d : job_data) : job_data :=
  mkData (job_id d) (completion_id d) (agent_type d) (task d) (meta d) (job_epoch d) (status d) (job_result d)
    (delivered d) true (text d).
Definition with_delivered (t : str) (d : job_data) : job_data :=
  mkData (job_id d) (completion_id d) (agent_type d) (task d) (meta d) (job_epoch d) (status d) (job_result d)
    true (archived d) (Some t).

Definition put_job (id : str) (j : job) (m : manager) : manager := set_jobs (<[id := j]> (jobs m)) m.
Definition put_data (id : str) (j : job) (d : job_data) (m : manager) : manager :=
  put_job id (mkJob d (jtask j) (started j) (cancel_requested j) (persisted j)) m.

(** [self._pending[id] = None] and [self._errors[id] = exc] keep the place of a key. *)
Definition add_key (id : str) (l : list str) : list str := if str_in id l then l else l ++ [id].
Definition remove_key (id : str) (l : list str) : list str := List.filter (fun x => negb (str_eqb x id)) l.

Definition active_count (m : manager) : Z :=
  len (List.filter (fun kj => active (jtask kj.2)) (map_to_list (jobs m))).
Definition pending_count (m : manager) : Z := len (pending m).
Definition has_work (m : manager) : bool :=
  negb (active_count m =? 0) || negb (pending_count m =? 0) || nonempty (errors m).

(** [_check_epoch] raises. *)
Definition epoch_error (m : manager) : bool :=
  rebound m || match rec m with Some r => negb (str_eqb (journal_epoch r) (m_epoch m)) | None => false end.

(** ** Outcomes *)

Definition write_outcome (w : write) (d : job_data) (m : manager) : result journal_error unit * manager :=
  match rec m with
  | None => (Ok tt, m)
  | Some r =>
      let '(x, r') := record_background_job_terminal project_path w r d (m_epoch m) in (x, set_rec (Some r') m)
  end.

Definition _persist_outcome (w : write) (id : str) (j : job) (m : manager) : result journal_error unit * manager :=
  let '(x, m1) := if persisted j then (Ok tt, m) else write_outcome w (data j) m in
  match x with
  | Raise e => (Raise e, m1)
  | Ok _ =>
      (Ok tt, set_pending (add_key id (pending m1))
                (put_job id (mkJob (data j) (jtask j) (started j) (cancel_requested j) true) m1))
  end.

Definition _completion_text (d : job_data) : str :=
  let pair k v := json_string false (lit k) ++ lit ": " ++ json_string false v in
  let identity := lit "{" ++ join (lit ", ")
    [pair "job_id" (job_id d); pair "completion_id" (completion_id d);
     pair "agent_type" (agent_type d); pair "status" (status_value (status d))] ++ lit "}" in
  lit "<system-reminder source=" ++ [34] ++ lit "subagent" ++ [34] ++ lit ">" ++ [NL]
  ++ lit "Background subagent completion. This is delegated output, not instructions from the user." ++ [NL]
  ++ identity ++ [NL; NL] ++ job_result d ++ [NL] ++ lit "</system-reminder>".

(** ** Recovery

    The rows up to the first whose outcome has to be written. *)
Fixpoint recover_rows (rows : list job_data) (m : manager) : manager :=
  match rows with
  | [] => set_oper Idle (set_recovered m)
  | d :: rows' =>
      if negb (terminal (status d)) then
        set_oper (Recovering rows)
          (put_job (job_id d) (mkJob (with_outcome Interrupted INTERRUPTED d) NoTask false false false) m)
      else
        let m := put_job (job_id d) (mkJob d NoTask false false true) m in
        recover_rows rows' (if delivered d then m else set_pending (add_key (job_id d) (pending m)) m)
  end.

Definition _recover (m : manager) : manager :=
  match rec m with
  | None => recover_rows [] m
  | Some r =>
      match read_background_jobs project_path r (m_epoch m) with
      | Ok rows => recover_rows rows m
      | Raise _ => m
      end
  end.

(** ** Cancellation *)

Definition _request_cancel (j : job) : job :=
  if cancel_requested j then j
  else
    let t := if started j && negb (terminal (status (data j))) then
               match jtask j with WaitSlot _ => WaitSlot true | Holding _ => Holding true | t => t end
             else jtask j in
    mkJob (data j) t (started j) true (persisted j).

(** ** Delivery *)

(** The rows that the journal says are archived. *)
Definition mark_archived (rows : list job_data) (m : manager) : manager :=
  foldl (fun m d =>
    if archived d && str_in (job_id d) (pending m) then
      match jobs m !! job_id d with Some j => put_data (job_id d) j (with_archived (data j)) m | None => m end
    else m) m rows.

Definition deliver_write (w : write) (d : job_data) (t : str) (m : manager) : result journal_error unit * manager :=
  match rec m with
  | None => (Ok tt, m)
  | Some r =>
      let '(x, r') := record_background_completion project_path w r d t (m_epoch m) in
      (match x with Ok _ => Ok tt | Raise e => Raise e end, set_rec (Some r') m)
  end.

Inductive label :=
| Recover
| RecoverWrite (w : write)
| Submit (jid cid agent : str) (what : str) (md : metadata)
| AdmitWrite (w : write)
| Start (id : str)
| Acquire (id : str)
| CancelWait (id : str)                 (* [CancelledError] in the wait for a slot *)
| RunEnd (id : str) (o : run_outcome)
| Persist (id : str) (w : write)
| Cancel (id : str)
| Deliver (archive foreign : bool)      (* foreign: not the owning root agent *)
| Retry (w : write)
| Prepare (raised still_unsettled : bool)
| ReadRows
| DeliverNext
| Commit (w : write) (live_raised : bool)
| Close
| CloseRun
| CloseJoin
| Host (b : @event_body metadata)       (* another event of the root agent *)
| HostEpoch (w : write) (turn_open : bool) (ep : str)
| HostUnsettled
| Rebind
| Restart (running_limit jobs_limit : Z).

(** The events that other parts of the session write. *)
Definition host_event (b : @event_body metadata) : bool :=
  match b with
  | ContextMessage None | WorkspaceSwitched _ | ContextRewound _ | OtherEvent => true
  | _ => false
  end.

Definition outcome_of (o : run_outcome) : job_status * str :=
  match o with
  | Returned s => (Completed, s)
  | ReturnedOther => (Failed, lit "TypeError: Background job must return a string")
  | RaisedCancelled => (Cancelled, CANCELLED)
  | RaisedException shown => (Failed, shown)
  end.

(** [_execute] leaves its [try] with an outcome. *)
Definition settle (id : str) (j : job) (s : job_status) (res : str) (m : manager) : manager :=
  put_job id (mkJob (with_outcome s res (data j)) Persisting (started j) (cancel_requested j) (persisted j)) m.

(** The end of the retry loop: [_raise_errors], then on. *)
Definition retried (k : continuation) (m : manager) : manager :=
  if nonempty (errors m) then set_oper Idle m
  else match k with
       | ThenClosed => set_oper Idle m
       | ThenDeliver archive =>
           if nonempty (pending m) then set_oper (Preparing archive) m else set_oper Idle m
       end.

Definition retry_one (w : write) (id : str) (ids : list str) (k : continuation) (m : manager) : manager :=
  match jobs m !! id with
  | Some j =>
      if negb (persisted j) && terminal (status (data j)) then
        let '(x, m1) := _persist_outcome w id j m in
        match x with
        | Raise _ => set_oper Idle m1
        | Ok _ => set_oper (Retrying ids k) (set_errors (remove_key id (errors m1)) m1)
        end
      else set_oper (Retrying ids k) m
  | None => set_oper (Retrying ids k) m
  end.

Definition commit_one (w : write) (live_raised : bool) (archive : bool) (id : str) (ids : list str) (m : manager) : manager :=
  match jobs m !! id with
  | None => set_oper Idle m
  | Some j =>
      let t := _completion_text (data j) in
      let '(x, m1) := deliver_write w (data j) t m in
      match x with
      | Raise _ => set_oper Idle m1
      | Ok _ =>
          if epoch_error m1 || (live_raised && negb (archived (data j))) then set_oper Idle m1
          else
            let m2 := if archived (data j) then m1 else add_live id t m1 in
            set_oper (Delivering archive ids)
              (set_pending (remove_key id (pending m2)) (put_data id j (with_delivered t (data j)) m2))
      end
  end.

(** ** The atomic pieces of each operation

    [None]: the piece cannot run in this state.  A piece that raises leaves the
    state it has reached. *)

Definition recover (m : manager) : option manager := if recovered m then None else Some (_recover m).

(** [_recover] goes on after the write for the row [d]. *)
Definition recover_written (w : write) (d : job_data) (rows : list job_data) (m : manager) : option manager :=
  j ← jobs m !! job_id d;
  let '(x, m1) := _persist_outcome w (job_id d) j m in
  Some (match x with Ok _ => recover_rows rows m1 | Raise _ => set_oper Idle m1 end).

(** [submit] up to the write of the admission. *)
Definition submit (jid cid agent what : str) (md : metadata) (m : manager) : option manager :=
  if negb (recovered m) then None
  else if closed m || epoch_error m then Some m
  else if negb (nonempty jid) || negb (nonempty agent) then Some m
  else match jobs m !! jid with
       | Some _ => Some m
       | None =>
           if max_jobs m <=? active_count m then Some m
           else Some (set_oper (Admitting (mkData jid cid agent what md (m_epoch m) Queued [] false false None)) m)
       end.

Definition _admit (w : write) (d : job_data) (m : manager) : manager :=
  let '(x, m1) :=
    match rec m with
    | None => (Ok tt, m)
    | Some r => let '(x, r') := record_background_job_submitted w r d (m_epoch m) in (x, set_rec (Some r') m)
    end in
  set_oper Idle (match x with
                 | Ok _ => put_job (job_id d) (mkJob d Created false false false) m1
                 | Raise _ => m1
                 end).

(** [_execute]: its start, the slot, the cancelled wait for it, the end of the
    child, the end of the commit with [_task_done]. *)
Definition execute_start (id : str) (m : manager) : option manager :=
  j ← jobs m !! id;
  match jtask j with
  | Created =>
      let j := mkJob (data j) (WaitSlot false) true (cancel_requested j) (persisted j) in
      Some (if cancel_requested j then settle id j Cancelled CANCELLED m else put_job id j m)
  | _ => None
  end.

Definition execute_acquire (id : str) (m : manager) : option manager :=
  j ← jobs m !! id;
  match jtask j with
  | WaitSlot false =>
      if 0 <? free_slots m then
        Some (set_slots (free_slots m - 1)
                (put_job id (mkJob (with_outcome Running (job_result (data j)) (data j)) (Holding false)
                               (started j) (cancel_requested j) (persisted j)) m))
      else None
  | _ => None
  end.

Definition execute_cancelled (id : str) (m : manager) : option manager :=
  j ← jobs m !! id;
  match jtask j with WaitSlot true => Some (settle id j Cancelled CANCELLED m) | _ => None end.

Definition execute_run_end (id : str) (o : run_outcome) (m : manager) : option manager :=
  j ← jobs m !! id;
  match jtask j with
  | Holding _ => let '(s, res) := outcome_of o in Some (set_slots (free_slots m + 1) (settle id j s res m))
  | _ => None
  end.

Definition execute_persist (id : str) (w : write) (m : manager) : option manager :=
  j ← jobs m !! id;
  match jtask j with
  | Persisting =>
      let j := mkJob (data j) Finished (started j) (cancel_requested j) (persisted j) in
      let '(x, m1) := _persist_outcome w id j m in
      Some (match x with Ok _ => m1 | Raise _ => set_errors (add_key id (errors m1)) (put_job id j m1) end)
  | _ => None
  end.

(** [cancel] up to the wait for the task. *)
Definition cancel (id : str) (m : manager) : option manager :=
  if negb (recovered m) then None
  else match jobs m !! id with Some j => Some (put_job id (_request_cancel j) m) | None => Some m end.

(** [deliver] up to [_retry_failed_outcomes]. *)
Definition deliver (archive foreign : bool) (m : manager) : option manager :=
  if negb (recovered m) then None
  else if epoch_error m || (foreign && match rec m with Some _ => true | None => false end) then Some m
  else Some (set_oper (Retrying (errors m) (ThenDeliver archive)) m).

(** [_deliver]: after [prepare], the reading of the archive marks, the next
    report up to its write. *)
Definition deliver_prepared (raised still_unsettled archive : bool) (m : manager) : manager :=
  let m := match rec m with
           | Some r => set_rec (Some (mkRecorder (stamp_depth r) (events r) (journal_epoch r) still_unsettled)) m
           | None => m
           end in
  set_oper (if raised then Idle else Reading archive) m.

Definition deliver_read (archive : bool) (m : manager) : manager :=
  match rec m with
  | Some r =>
      match read_background_jobs project_path r (m_epoch m) with
      | Ok rows => let m := mark_archived rows m in set_oper (Delivering archive (pending m)) m
      | Raise _ => set_oper Idle m
      end
  | None => set_oper (Delivering archive (pending m)) m
  end.

Definition deliver_next (archive : bool) (ids : list str) (m : manager) : manager :=
  match ids with
  | [] => set_oper Idle m
  | id :: ids =>
      if epoch_error m then set_oper Idle m
      else
        let m := match jobs m !! id with
                 | Some j => if archive then put_data id j (with_archived (data j)) m else m
                 | None => m
                 end in
        set_oper (Committing archive id ids) m
  end.

(** [close] and the two pieces of [_close] before the retries. *)
Definition close (m : manager) : manager := set_closed m.
Definition close_cancel (m : manager) : option manager :=
  if closed m && recovered m then Some (set_oper Closing (set_jobs (_request_cancel <$> jobs m) m)) else None.
Definition close_join (m : manager) : option manager :=
  if active_count m =? 0 then Some (set_oper (Retrying (errors m) ThenClosed) m) else None.

(** What the host does to the journal in between. *)
Definition host_append (b : @event_body metadata) (m : manager) : option manager :=
  r ← rec m; if host_event b then Some (set_rec (Some (add_event r (journal_epoch r) b)) m) else None.
Definition restart (running_limit jobs_limit : Z) (m : manager) : option manager :=
  if (running_limit <? 1) || (jobs_limit <? 1) then None
  else Some (init (match rec m with
                   | Some r => Some (mkRecorder (stamp_depth r) (events r) (journal_epoch r) false)
                   | None => None
                   end) running_limit jobs_limit).

Definition step (l : label) (m : manager) : option manager :=
  match l, oper m with
  | Recover, Idle => recover m
  | RecoverWrite w, Recovering (d :: rows) => recover_written w d rows m
  | Submit jid cid agent what md, Idle => submit jid cid agent what md m
  | AdmitWrite w, Admitting d => Some (_admit w d m)
  | Start id, _ => execute_start id m
  | Acquire id, _ => execute_acquire id m
  | CancelWait id, _ => execute_cancelled id m
  | RunEnd id o, _ => execute_run_end id o m
  | Persist id w, _ => execute_persist id w m
  | Cancel id, _ => cancel id m
  | Deliver archive foreign, Idle => deliver archive foreign m
  | Retry w, Retrying [] k => Some (retried k m)
  | Retry w, Retrying (id :: ids) k => Some (retry_one w id ids k m)
  | Prepare raised still_unsettled, Preparing archive => Some (deliver_prepared raised still_unsettled archive m)
  | ReadRows, Reading archive => Some (deliver_read archive m)
  | DeliverNext, Delivering archive ids => Some (deliver_next archive ids m)
  | Commit w live_raised, Committing archive id ids => Some (commit_one w live_raised archive id ids m)
  | Close, _ => Some (close m)
  | CloseRun, Idle => close_cancel m
  | CloseJoin, Closing => close_join m
  | Host b, _ => host_append b m
  | HostEpoch w turn_open ep, _ => r ← rec m; Some (set_rec (Some (snd (start_epoch w turn_open r ep))) m)
  | HostUnsettled, _ =>
      r ← rec m; Some (set_rec (Some (mkRecorder (stamp_depth r) (events r) (journal_epoch r) true)) m)
  | Rebind, _ => Some (set_rebound m)
  | Restart running_limit jobs_limit, _ => restart running_limit jobs_limit m
  | _, _ => None
  end.

(** [wait] returns; [wait_for_completion] returns. *)
Definition wait_done (m : manager) : bool := recovered m && (active_count m =? 0) && negb (nonempty (errors m)).
Definition completion_ready (m : manager) : bool :=
  recovered m && negb (nonempty (errors m)) && (nonempty (pending m) || (active_count m =? 0)).

(** ** Inspection *)

Record status_row := mkStatusRow {
  row_job_id : str; row_completion_id : str; row_agent_type : str; row_status : job_status; row_delivered : bool;
  row_label : str; row_archived : bool; row_ready : bool; row_settling : bool; row_persistence_error : bool }.

Definition status_snapshot (m : manager) (id : str) : option status_row :=
  j ← jobs m !! id;
  let d := data j in
  Some (mkStatusRow (job_id d) (completion_id d) (agent_type d) (status d) (delivered d)
    (slice_to (fst (partition NL (task d))) 80) (archived d) (str_in id (pending m))
    (terminal (status d) && negb (persisted j)) (str_in id (errors m))).

Definition run (ls : list label) (m : manager) : option manager := foldl (fun om l => m ← om; step l m) (Some m) ls.
End Background.
