(* ===== verification/BackgroundFacts.v ===== *)
(** * Background jobs: the properties of the model in [Background.v] *)

From stdpp Require Import base list strings numbers gmap.
From Stdlib Require Import ZArith Lia.
From S2P Require Import Prelude PyStr PyVal BgJournal BgJournalFacts Background.

(** ** Keys of an ordered dict *)

Lemma elem_add_key x id l : x ∈ add_key id l <-> x = id \/ x ∈ l.
Proof.
  unfold add_key. destruct (str_in id l) eqn:E; [apply str_in_spec in E; naive_solver|].
  rewrite elem_of_app, list_elem_of_singleton. naive_solver.
Qed.
Lemma add_key_nodup id l : NoDup l -> NoDup (add_key id l).
Proof.
  intros Hn. unfold add_key. destruct (str_in id l) eqn:E; [done|]. apply NoDup_app. split; [done|].
  split; [|apply NoDup_singleton]. intros x Hx ->%list_elem_of_singleton. apply str_in_spec in Hx. congruence.
Qed.
Lemma elem_remove_key x id l : x ∈ remove_key id l <-> x ∈ l /\ x <> id.
Proof.
  unfold remove_key. by rewrite !list_elem_of_In, filter_In, negb_true_iff, str_eqb_neq.
Qed.
Lemma remove_key_nodup id l : NoDup l -> NoDup (remove_key id l).
Proof. intros. apply NoDup_ListNoDup, List.NoDup_filter. by apply NoDup_ListNoDup. Qed.

(** Unfold a step to the piece of code it runs. *)
Ltac unfold_step H :=
  unfold Background.step, recover, recover_written, submit, _admit, execute_start, execute_acquire, execute_cancelled, execute_run_end,
    execute_persist, cancel, deliver, deliver_prepared, deliver_read, deliver_next, close, close_cancel, close_join,
    host_append, restart in H.
Ltac unfold_step_goal :=
  unfold Background.step, recover, recover_written, submit, _admit, execute_start, execute_acquire, execute_cancelled, execute_run_end,
    execute_persist, cancel, deliver, deliver_prepared, deliver_read, deliver_next, close, close_cancel, close_join,
    host_append, restart.

Section Facts.
Context {metadata : Type} `{EqDecision metadata}.
Variable project_path : metadata -> str.

Abbreviation job := (@job metadata).
Abbreviation manager := (@manager metadata).
Abbreviation recorder := (@recorder metadata).
Abbreviation job_data := (@job_data metadata).
Abbreviation step := (Background.step project_path).

Implicit Types (m : manager) (j : job) (js : gmap (list Z) job) (r : recorder).

(** ** The jobs, the mailbox, the failed commits and the live history *)

Definition state_ok j : Prop :=
  match jtask j with
  | NoTask | Finished => terminal (status (data j)) = true
  | Created | WaitSlot _ => status (data j) = Queued /\ persisted j = false
  | Holding _ => status (data j) = Running /\ persisted j = false
  | Persisting => terminal (status (data j)) = true /\ persisted j = false
  end.

Record core (js : gmap (list Z) job) (pe er : list str) (li : list (str * str)) (rc : bool) : Prop := mkCore {
  core_id : forall id j, js !! id = Some j -> job_id (data j) = id;
  core_state : forall id j, js !! id = Some j -> state_ok j;
  core_settled : forall id j, js !! id = Some j -> persisted j = true -> id ∈ pe \/ delivered (data j) = true;
  core_failed : forall id j, js !! id = Some j -> persisted j = false -> jtask j = Finished -> id ∈ er;
  core_nodup : NoDup pe;
  core_pending : forall id, id ∈ pe -> exists j, js !! id = Some j /\ persisted j = true;
  core_errors : forall id, id ∈ er -> exists j, js !! id = Some j /\ persisted j = false /\ jtask j = Finished;
  core_once : NoDup (map fst li);
  core_live : forall id, id ∈ map fst li -> id ∉ pe /\ exists j, js !! id = Some j /\ persisted j = true /\ delivered (data j) = true;
  core_fresh : rc = false -> li = [] /\ er = [] /\ forall id j, js !! id = Some j -> jtask j = NoTask
}.

(** A change of a job that keeps its identity and its settlement. *)
Record same_settlement (j j' : job) : Prop := mkSame {
  same_id : job_id (data j') = job_id (data j);
  same_cid : completion_id (data j') = completion_id (data j);
  same_persisted : persisted j' = persisted j;
  same_outcome : persisted j = true -> status (data j') = status (data j) /\ job_result (data j') = job_result (data j)
                   /\ delivered (data j') = delivered (data j);
  same_finished : jtask j' = Finished <-> jtask j = Finished;
  same_notask : jtask j = NoTask -> jtask j' = NoTask
}.

Lemma same_settlement_refl j : same_settlement j j.
Proof. by split. Qed.

Definition pointwise (P : job -> job -> Prop) (js js' : gmap (list Z) job) : Prop :=
  forall id, match js !! id, js' !! id with
             | None, None => True
             | Some j, Some j' => P j j'
             | _, _ => False
             end.

Lemma pointwise_insert js id j j' :
  js !! id = Some j -> same_settlement j j' -> pointwise same_settlement js (<[id := j']> js).
Proof.
  intros Hj Hs id'. destruct (decide (id = id')) as [<-|].
  - by rewrite lookup_insert_eq, Hj.
  - rewrite lookup_insert_ne by done. destruct (js !! id'); [apply same_settlement_refl|done].
Qed.

Lemma pointwise_l P js js' id j : pointwise P js js' -> js !! id = Some j -> exists j', js' !! id = Some j' /\ P j j'.
Proof. intros H Hj. specialize (H id). rewrite Hj in H. destruct (js' !! id); [eauto|done]. Qed.
Lemma pointwise_r P js js' id j' : pointwise P js js' -> js' !! id = Some j' -> exists j, js !! id = Some j /\ P j j'.
Proof. intros H Hj. specialize (H id). rewrite Hj in H. destruct (js !! id); [eauto|done]. Qed.

Lemma core_change js js' pe er li rc :
  core js pe er li rc -> pointwise same_settlement js js' ->
  (forall id j', js' !! id = Some j' -> state_ok j') -> core js' pe er li rc.
Proof.
  intros [Hid Hst Hse Hfa Hnd Hpe Her Hon Hli Hfr] Hpw Hst'. split; auto.
  - intros id j' Hj'. destruct (pointwise_r _ _ _ _ _ Hpw Hj') as (j & Hj & Hs). rewrite (same_id _ _ Hs). eauto.
  - intros id j' Hj' Hp. destruct (pointwise_r _ _ _ _ _ Hpw Hj') as (j & Hj & Hs).
    rewrite (same_persisted _ _ Hs) in Hp. destruct (same_outcome _ _ Hs Hp) as (_ & _ & ->). eauto.
  - intros id j' Hj' Hp Hf. destruct (pointwise_r _ _ _ _ _ Hpw Hj') as (j & Hj & Hs).
    rewrite (same_persisted _ _ Hs) in Hp. apply (same_finished _ _ Hs) in Hf. eauto.
  - intros id (j & Hj & Hp)%Hpe. destruct (pointwise_l _ _ _ _ _ Hpw Hj) as (j' & Hj' & Hs).
    exists j'. by rewrite (same_persisted _ _ Hs).
  - intros id (j & Hj & Hp & Hf)%Her. destruct (pointwise_l _ _ _ _ _ Hpw Hj) as (j' & Hj' & Hs).
    exists j'. by rewrite (same_persisted _ _ Hs), (same_finished _ _ Hs).
  - intros id (Hn & j & Hj & Hp & Hd)%Hli. split; [done|]. destruct (pointwise_l _ _ _ _ _ Hpw Hj) as (j' & Hj' & Hs).
    exists j'. destruct (same_outcome _ _ Hs Hp) as (_ & _ & ->). by rewrite (same_persisted _ _ Hs).
  - intros (? & ? & Hn)%Hfr. split_and!; auto. intros id j' Hj'. destruct (pointwise_r _ _ _ _ _ Hpw Hj') as (j & Hj & Hs).
    eapply same_notask; eauto.
Qed.

Lemma core_put js pe er li rc id j j' :
  core js pe er li rc -> js !! id = Some j -> same_settlement j j' -> state_ok j' ->
  core (<[id := j']> js) pe er li rc.
Proof.
  intros Hc Hj Hs Hok. eapply core_change; [done|by eapply pointwise_insert|].
  intros id' x. rewrite lookup_insert_Some. intros [[_ <-]|[_ Hx]]; [done|]. by eapply core_state.
Qed.

(** The outcome of a finished job is written. *)
Lemma core_persist js pe er li rc id j j' :
  core js pe er li rc -> js !! id = Some j -> persisted j = false -> job_id (data j') = id -> state_ok j' ->
  persisted j' = true -> (rc = false -> jtask j' = NoTask) ->
  core (<[id := j']> js) (add_key id pe) (remove_key id er) li rc.
Proof.
  intros [Hid Hst Hse Hfa Hnd Hpe Her Hon Hli Hfr] Hj Hp Hid' Hok Hp' Hnt.
  assert (id ∉ map fst li) as Hnl by (intros (_ & j0 & Hj0 & Hp0 & _)%Hli; congruence).
  split; auto using add_key_nodup.
  - intros x y. rewrite lookup_insert_Some. naive_solver.
  - intros x y. rewrite lookup_insert_Some. naive_solver.
  - intros x y. rewrite lookup_insert_Some, elem_add_key. intros [[<- _]|[_ Hx]] Hq; [by left; left|]. destruct (Hse x y Hx Hq); [left; by right|by right].
  - intros x y. rewrite lookup_insert_Some, elem_remove_key. intros [[<- <-]|[? Hx]]; [congruence|]. eauto.
  - intros x [->|(y & Hy & Hq)%Hpe]%elem_add_key; [exists j'; by rewrite lookup_insert_eq|].
    destruct (decide (x = id)) as [->|]; [exists j'; by rewrite lookup_insert_eq|exists y; by rewrite lookup_insert_ne].
  - intros x [(y & Hy & Hq)%Her Hx]%elem_remove_key. exists y. by rewrite lookup_insert_ne.
  - intros x Hx. pose proof Hx as (Hn & y & Hy & Hq)%Hli. assert (x <> id) by congruence. split.
    + rewrite elem_add_key. naive_solver.
    + exists y. by rewrite lookup_insert_ne.
  - intros Hrc. destruct (Hfr Hrc) as (? & -> & Hn). split_and!; [done|done|].
    intros x y. rewrite lookup_insert_Some. naive_solver.
Qed.

(** The write failed. *)
Lemma core_fail js pe er li rc id j j' :
  core js pe er li rc -> js !! id = Some j -> persisted j = false -> job_id (data j') = id -> state_ok j' ->
  persisted j' = false -> jtask j' = Finished -> rc = true ->
  core (<[id := j']> js) pe (add_key id er) li rc.
Proof.
  intros [Hid Hst Hse Hfa Hnd Hpe Her Hon Hli Hfr] Hj Hp Hid' Hok Hp' Hf ->.
  split; auto; try done.
  - intros x y. rewrite lookup_insert_Some. naive_solver.
  - intros x y. rewrite lookup_insert_Some. naive_solver.
  - intros x y. rewrite lookup_insert_Some. intros [[<- <-]|[? Hx]]; [congruence|]. eauto.
  - intros x y. rewrite lookup_insert_Some, elem_add_key. naive_solver.
  - intros x (y & Hy & Hq)%Hpe. exists y. rewrite lookup_insert_ne by congruence. done.
  - intros x [->|(y & Hy & Hq)%Her]%elem_add_key; [exists j'; by rewrite lookup_insert_eq|].
    destruct (decide (x = id)) as [->|]; [exists j'; by rewrite lookup_insert_eq|exists y; by rewrite lookup_insert_ne].
  - intros x (Hn & y & Hy & Hq & Hd)%Hli. split; [done|]. exists y. rewrite lookup_insert_ne by congruence. done.
Qed.

(** A report is delivered. *)
Lemma core_deliver js pe er li rc id j j' li' t :
  core js pe er li rc -> js !! id = Some j -> id ∈ pe -> job_id (data j') = id -> state_ok j' -> rc = true ->
  persisted j' = true -> delivered (data j') = true ->
  (li' = li \/ li' = li ++ [(id, t)]) ->
  core (<[id := j']> js) (remove_key id pe) er li' rc.
Proof.
  intros [Hid Hst Hse Hfa Hnd Hpe Her Hon Hli Hfr] Hj Hin Hid' Hok -> Hp' Hd' Hl.
  assert (persisted j = true) as Hp by (destruct (Hpe id Hin) as (? & ? & ?); congruence).
  assert (forall x, x ∈ map fst li' -> x ∈ map fst li \/ x = id) as Hm.
  { intros x. destruct Hl as [->| ->]; [by left|]. rewrite map_app, elem_of_app. simpl. rewrite list_elem_of_singleton. naive_solver. }
  split; auto using remove_key_nodup; try done.
  - intros x y. rewrite lookup_insert_Some. naive_solver.
  - intros x y. rewrite lookup_insert_Some. naive_solver.
  - intros x y. rewrite lookup_insert_Some, elem_remove_key. intros [[<- <-]|[? Hx]]; [by right|].
    intros Hq. destruct (Hse x y Hx Hq); [left; split; congruence|by right].
  - intros x y. rewrite lookup_insert_Some. intros [[<- <-]|[? Hx]]; [congruence|]. eauto.
  - intros x [(y & Hy & Hq)%Hpe Hx]%elem_remove_key. exists y. by rewrite lookup_insert_ne.
  - intros x (y & Hy & Hq & Hf)%Her. exists y. rewrite lookup_insert_ne by congruence. done.
  - destruct Hl as [->| ->]; [done|]. rewrite map_app. apply NoDup_app. split; [done|]. split; [|apply NoDup_singleton].
    intros x Hx ->%list_elem_of_singleton. by apply Hli in Hx as [? _].
  - intros x Hx. rewrite elem_remove_key. destruct (Hm x Hx) as [(Hn & y & Hy & Hq & Hd)%Hli| ->].
    + split; [naive_solver|]. destruct (decide (x = id)) as [->|]; [exists j'; by rewrite lookup_insert_eq|].
      exists y. by rewrite lookup_insert_ne.
    + split; [naive_solver|]. exists j'. by rewrite lookup_insert_eq.
Qed.

(** Recovery puts a settled job, or one whose outcome is still to be written. *)
Lemma core_restore js pe er li id j' pe' :
  core js pe er li false -> job_id (data j') = id -> jtask j' = NoTask -> terminal (status (data j')) = true ->
  persisted j' = true -> pe' = add_key id pe \/ (pe' = pe /\ delivered (data j') = true) ->
  core (<[id := j']> js) pe' er li false.
Proof.
  intros [Hid Hst Hse Hfa Hnd Hpe Her Hon Hli Hfr] Hid' Hnt Hok Hp' Hpe'. destruct (Hfr eq_refl) as (-> & -> & Hn).
  assert (forall x, x ∈ pe' -> x = id \/ x ∈ pe) as Hin.
  { destruct Hpe' as [->|[-> _]]; [intros x; by rewrite elem_add_key|by right]. }
  assert (forall x, x ∈ pe -> x ∈ pe') as Hin'.
  { destruct Hpe' as [->|[-> _]]; [intros x; rewrite elem_add_key; by right|done]. }
  split; try done.
  - intros x y. rewrite lookup_insert_Some. naive_solver.
  - intros x y. rewrite lookup_insert_Some. intros [[<- <-]|[? Hx]]; [by unfold state_ok; rewrite Hnt|eauto].
  - intros x y. rewrite lookup_insert_Some. intros [[<- <-]|[? Hx]] Hq.
    + destruct Hpe' as [->|[-> Hd]]; [left; rewrite elem_add_key; by left|by right].
    + destruct (Hse x y Hx Hq); auto.
  - intros x y. rewrite lookup_insert_Some. intros [[<- <-]|[? Hx]]; [congruence|eauto].
  - destruct Hpe' as [->|[-> _]]; auto using add_key_nodup.
  - intros x [->|(y & Hy & Hq)%Hpe]%Hin; [exists j'; by rewrite lookup_insert_eq|].
    destruct (decide (x = id)) as [->|]; [exists j'; by rewrite lookup_insert_eq|exists y; by rewrite lookup_insert_ne].
  - intros x Hx. inversion Hx.
  - intros x Hx. inversion Hx.
  - intros _. split_and!; [done|done|]. intros x y. rewrite lookup_insert_Some. naive_solver.
Qed.

Lemma core_interrupt js pe er li id j' :
  core js pe er li false -> (forall j, js !! id = Some j -> persisted j = false) -> job_id (data j') = id ->
  jtask j' = NoTask -> terminal (status (data j')) = true -> persisted j' = false ->
  core (<[id := j']> js) pe er li false.
Proof.
  intros [Hid Hst Hse Hfa Hnd Hpe Her Hon Hli Hfr] Hu Hid' Hnt Hok Hp'. destruct (Hfr eq_refl) as (-> & -> & Hn).
  split; try done.
  - intros x y. rewrite lookup_insert_Some. naive_solver.
  - intros x y. rewrite lookup_insert_Some. intros [[<- <-]|[? Hx]]; [by unfold state_ok; rewrite Hnt|eauto].
  - intros x y. rewrite lookup_insert_Some. intros [[<- <-]|[? Hx]]; [congruence|eauto].
  - intros x y. rewrite lookup_insert_Some. intros [[<- <-]|[? Hx]]; [congruence|eauto].
  - intros x (y & Hy & Hq)%Hpe. exists y. rewrite lookup_insert_ne; [done|]. intros <-. apply Hu in Hy. congruence.
  - intros x Hx. inversion Hx.
  - intros x Hx. inversion Hx.
  - intros _. split_and!; [done|done|]. intros x y. rewrite lookup_insert_Some. naive_solver.
Qed.

Lemma core_recovered js pe er li : core js pe er li false -> core js pe er li true.
Proof. by intros []. Qed.

Lemma core_admit js pe er li d :
  core js pe er li true -> js !! job_id d = None -> status d = Queued ->
  core (<[job_id d := mkJob d Created false false false]> js) pe er li true.
Proof.
  intros [Hid Hst Hse Hfa Hnd Hpe Her Hon Hli Hfr] Hn Hq. split; try done.
  - intros x y. rewrite lookup_insert_Some. naive_solver.
  - intros x y. rewrite lookup_insert_Some. intros [[<- <-]|[? Hx]]; [done|eauto].
  - intros x y. rewrite lookup_insert_Some. intros [[<- <-]|[? Hx]]; [done|eauto].
  - intros x y. rewrite lookup_insert_Some. intros [[<- <-]|[? Hx]]; [done|eauto].
  - intros x (y & Hy & Hp)%Hpe. exists y. by rewrite lookup_insert_ne by congruence.
  - intros x (y & Hy & Hp)%Her. exists y. by rewrite lookup_insert_ne by congruence.
  - intros x (Hx & y & Hy & Hp)%Hli. split; [done|]. exists y. by rewrite lookup_insert_ne by congruence.
Qed.

(** ** The durable side *)

Record durables (r : recorder) (ep : str) (js : gmap (list Z) job) (li : list (str * str)) : Prop := mkDurables {
  du_wf : journal_wf r;
  du_once : inserted_once r;
  du_submitted : forall id j, js !! id = Some j -> has_submitted r ep id;
  du_durable : forall id j, js !! id = Some j -> persisted j = true ->
                 durable r ep id (status (data j)) (job_result (data j));
  du_live : forall id, id ∈ map fst li -> exists j, js !! id = Some j /\ is_inserted r ep (completion_id (data j))
}.

Lemma durables_events r r' ep js li : events r' = events r -> durables r ep js li -> durables r' ep js li.
Proof.
  destruct r as [d1 es1 e1 u1], r' as [d2 es2 e2 u2]. simpl. intros -> [Hw Ho Hs Hd Hl]. by split.
Qed.

Lemma durables_change r ep js js' li : pointwise same_settlement js js' -> durables r ep js li -> durables r ep js' li.
Proof.
  intros Hpw [Hw Ho Hs Hd Hl]. split; auto.
  - intros id j' Hj'. destruct (pointwise_r _ _ _ _ _ Hpw Hj') as (j & Hj & _). eauto.
  - intros id j' Hj' Hp. destruct (pointwise_r _ _ _ _ _ Hpw Hj') as (j & Hj & Hsm).
    rewrite (same_persisted _ _ Hsm) in Hp. destruct (same_outcome _ _ Hsm Hp) as (-> & -> & _). eauto.
  - intros id (j & Hj & Hi)%Hl. destruct (pointwise_l _ _ _ _ _ Hpw Hj) as (j' & Hj' & Hsm).
    exists j'. by rewrite (same_cid _ _ Hsm).
Qed.

Lemma durables_host r ep ep' b js li :
  job_of b = None -> (forall c, b <> ContextMessage (Some c)) -> durables r ep js li -> durables (add_event r ep' b) ep js li.
Proof.
  intros Hb Hc [Hw Ho Hs Hd Hl]. split; auto using journal_wf_frame, inserted_once_frame.
  - intros. apply has_submitted_mono. eauto.
  - intros id j Hj Hp. apply durable_frame; [congruence|eauto].
  - intros id (j & Hj & Hi)%Hl. exists j. split; [done|]. by apply is_inserted_mono.
Qed.

(** What a journal operation does to insertions and submissions: it appends at
    most one event. *)
Definition extends r r' : Prop := r' = r \/ exists ep b, r' = add_event r ep b /\ forall c, b <> ContextMessage (Some c).

Lemma extends_once r r' : extends r r' -> inserted_once r -> inserted_once r'.
Proof. intros [->|(ep & b & -> & Hb)]; auto using inserted_once_frame. Qed.
Lemma extends_inserted r r' ep cid : extends r r' -> is_inserted r ep cid -> is_inserted r' ep cid.
Proof. intros [->|(ep' & b & -> & _)]; auto using is_inserted_mono. Qed.
Lemma extends_submitted r r' ep id : extends r r' -> has_submitted r ep id -> has_submitted r' ep id.
Proof. intros [->|(ep' & b & -> & _)]; auto using has_submitted_mono. Qed.

Lemma append_extends w r ep b x r' : (forall c, b <> ContextMessage (Some c)) -> _append w r ep b = (x, r') -> extends r r'.
Proof. intros Hb [[-> _]| ->]%append_cases; [by left|right; eauto]. Qed.

Lemma terminal_extends w r d ep x r' : record_background_job_terminal project_path w r d ep = (x, r') -> extends r r'.
Proof.
  unfold record_background_job_terminal. intros Hr. repeat case_match; simplify_eq; try (by left).
  eapply append_extends; [|done]. by intros c.
Qed.
Lemma submitted_extends w r d ep x r' : record_background_job_submitted w r d ep = (x, r') -> extends r r'.
Proof.
  unfold record_background_job_submitted. intros Hr. repeat (case_match || case_bool_decide); simplify_eq; try (by left).
  eapply append_extends; [|done]. by intros c.
Qed.

(** Every settled job of a good state has a terminal status. *)
Definition settled_terminal js : Prop := forall id j, js !! id = Some j -> persisted j = true -> terminal (status (data j)) = true.

Lemma core_terminal js pe er li rc : core js pe er li rc -> settled_terminal js.
Proof.
  intros Hc id j Hj Hp. pose proof (core_state _ _ _ _ _ Hc _ _ Hj) as Hs. unfold state_ok in Hs.
  destruct (jtask j); naive_solver congruence.
Qed.

Lemma durables_terminal w r d ep x r' js li :
  record_background_job_terminal project_path w r d ep = (x, r') -> has_submitted r ep (job_id d) -> settled_terminal js ->
  durables r ep js li -> durables r' ep js li.
Proof.
  intros Hr Hs Ht [Hw Ho Hsub Hd Hl]. pose proof (terminal_extends _ _ _ _ _ _ Hr) as He. split.
  - by eapply journal_wf_terminal.
  - by eapply extends_once.
  - intros. eapply extends_submitted; eauto.
  - intros id j Hj Hp. eapply durable_terminal_keep; eauto.
  - intros id (j & Hj & Hi)%Hl. exists j. split; [done|]. by eapply extends_inserted.
Qed.

Lemma durables_settle w r d ep r' js li id j j' :
  record_background_job_terminal project_path w r d ep = (Ok tt, r') -> settled_terminal js ->
  js !! id = Some j -> job_id d = id -> status (data j') = status d -> job_result (data j') = job_result d ->
  completion_id (data j') = completion_id (data j) ->
  durables r ep js li -> durables r' ep (<[id := j']> js) li.
Proof.
  intros Hr Ht Hj Hid Hst Hres Hcid Hdu.
  pose proof (durables_terminal _ _ _ _ _ _ _ _ Hr ltac:(rewrite Hid; by eapply du_submitted) Ht Hdu) as [Hw Ho Hsub Hd Hl].
  split; auto.
  - intros x y. rewrite lookup_insert_Some. intros [[<- <-]|[? Hx]]; eauto.
  - intros x y. rewrite lookup_insert_Some. intros [[<- <-]|[? Hx]]; [|eauto]. intros _. rewrite Hst, Hres, <- Hid.
    eapply durable_terminal_done; [done|]. by destruct Hdu.
  - intros x (y & Hy & Hi)%Hl. destruct (decide (x = id)) as [->|]; [|exists y; by rewrite lookup_insert_ne].
    exists j'. rewrite lookup_insert_eq. split; [done|]. congruence.
Qed.

Lemma durables_admit w r d ep x r' js li :
  record_background_job_submitted w r d ep = (x, r') -> status d = Queued -> js !! job_id d = None ->
  durables r ep js li ->
  durables r' ep (match x with Ok _ => <[job_id d := mkJob d Created false false false]> js | Raise _ => js end) li.
Proof.
  intros Hr Hq Hn [Hw Ho Hsub Hd Hl]. pose proof (submitted_extends _ _ _ _ _ _ Hr) as He.
  pose proof (journal_wf_submitted _ _ _ _ _ _ Hr Hq Hw) as [Hw' Hs'].
  assert (durables r' ep js li) as [Hw2 Ho2 Hsub2 Hd2 Hl2].
  { split; [done|by eapply extends_once| | |].
    - intros. eapply extends_submitted; eauto.
    - intros id j Hj Hp. eapply durable_submitted; eauto. congruence.
    - intros id (j & Hj & Hi)%Hl. exists j. split; [done|]. by eapply extends_inserted. }
  destruct x as [[]|e]; [|by split]. split; auto.
  - intros y z. rewrite lookup_insert_Some. intros [[<- <-]|[? Hx]]; eauto.
  - intros y z. rewrite lookup_insert_Some. intros [[<- <-]|[? Hx]]; [done|eauto].
  - intros y (z & Hz & Hi)%Hl2. exists z. by rewrite lookup_insert_ne by congruence.
Qed.

Lemma durables_completion w r d t ep x r' js li :
  record_background_completion project_path w r d t ep = (x, r') ->
  durables r ep js li ->
  durables r' ep js li /\ (forall v, x = Ok v -> is_inserted r' ep (completion_id d)).
Proof.
  intros Hr [Hw Ho Hsub Hd Hl]. destruct (record_completion_cases _ _ _ _ _ _ _ _ Hr) as ((b & Hb) & Hon & Hi).
  split; [|done]. split.
  - destruct Hb as [->|[-> Hb]]; auto using journal_wf_frame.
  - auto.
  - intros id j Hj. destruct Hb as [->|[-> Hb]]; [eauto|apply has_submitted_mono; eauto].
  - intros id j Hj Hp. destruct Hb as [->|[-> Hb]]; [eauto|apply durable_frame; [congruence|eauto]].
  - intros id (j & Hj & Hin)%Hl. exists j. split; [done|]. destruct Hb as [->|[-> Hb]]; auto using is_inserted_mono.
Qed.

(** ** The operation that holds the lock *)

Definition rows_ok (r : recorder) (ep : str) (js : gmap (list Z) job) (rows : list job_data) : Prop :=
  NoDup (map job_id rows) /\
  forall d, d ∈ rows ->
    has_submitted r ep (job_id d) /\
    (terminal (status d) = true -> durable r ep (job_id d) (status d) (job_result d)) /\
    (terminal (status d) = false -> forall j, js !! job_id d = Some j -> persisted j = false).

Definition oper_ok m : Prop :=
  match oper m with
  | Idle => True
  | Recovering rows =>
      recovered m = false /\ exists r d rows', rec m = Some r /\ rows = d :: rows' /\
        rows_ok r (m_epoch m) (jobs m) rows /\ terminal (status d) = false /\
        exists j, jobs m !! job_id d = Some j
  | Admitting d => recovered m = true /\ jobs m !! job_id d = None /\ status d = Queued
  | Retrying ids _ =>
      recovered m = true /\ forall id, id ∈ ids -> exists j, jobs m !! id = Some j /\ jtask j = Finished
  | Preparing _ | Reading _ | Closing => recovered m = true
  | Delivering _ ids => recovered m = true /\ NoDup ids /\ forall id, id ∈ ids -> id ∈ pending m
  | Committing _ id ids => recovered m = true /\ NoDup (id :: ids) /\ forall x, x ∈ id :: ids -> x ∈ pending m
  end.

Record inv m : Prop := mkInv {
  inv_core : core (jobs m) (pending m) (errors m) (live m) (recovered m);
  inv_rec : forall r, rec m = Some r -> durables r (m_epoch m) (jobs m) (live m);
  inv_oper : oper_ok m
}.

(** A job with a task shows that recovery is over. *)
Lemma core_running js pe er li rc id j : core js pe er li rc -> js !! id = Some j -> jtask j <> NoTask -> rc = true.
Proof. intros Hc Hj Hn. destruct rc; [done|]. destruct (core_fresh _ _ _ _ _ Hc eq_refl) as (_ & _ & Hf). apply Hf in Hj. done. Qed.

(** Once recovery is over, [oper_ok] only asks that the pending ids stay pending,
    that the admitted id stays free and that a finished task stays finished. *)
Definition finished_kept js js' : Prop :=
  forall id j, js !! id = Some j -> jtask j = Finished -> exists j', js' !! id = Some j' /\ jtask j' = Finished.

Lemma oper_ok_frame m m' :
  oper m' = oper m -> recovered m = true -> recovered m' = true ->
  (forall id, id ∈ pending m -> id ∈ pending m') -> (forall id, jobs m !! id = None -> jobs m' !! id = None) ->
  finished_kept (jobs m) (jobs m') -> oper_ok m -> oper_ok m'.
Proof.
  intros Ho Hr Hr' Hp Hj Hf. unfold oper_ok. rewrite Ho. destruct (oper m) as [| | |ids k| | | | |]; rewrite ?Hr, ?Hr';
    naive_solver.
Qed.

Lemma insert_free js id j id' : js !! id = Some j -> js !! id' = None -> forall y, <[id := y]> js !! id' = None.
Proof. intros Hj Hn y. rewrite lookup_insert_ne; [done|congruence]. Qed.

Lemma finished_kept_insert js id j' : (forall j, js !! id = Some j -> jtask j = Finished -> jtask j' = Finished) ->
  finished_kept js (<[id := j']> js).
Proof.
  intros Hf x j Hx Ht. destruct (decide (x = id)) as [->|]; [|exists j; by rewrite lookup_insert_ne].
  exists j'. rewrite lookup_insert_eq. eauto.
Qed.

(** Changing one job of a recovered manager, with any number of free slots. *)
Lemma inv_put m id j j' f :
  inv m -> jobs m !! id = Some j -> same_settlement j j' -> state_ok j' -> recovered m = true ->
  inv (set_slots f (put_job id j' m)).
Proof.
  intros [Hc Hr Ho] Hj Hs Hok Hrc. split; simpl.
  - by eapply core_put.
  - intros r Hr'. eapply durables_change; [by eapply pointwise_insert|]. by apply Hr.
  - eapply oper_ok_frame; [..|exact Ho]; try done; [intros id' Hn; by eapply insert_free|].
    apply finished_kept_insert. intros ? Hj0. simplify_eq. by apply same_finished.
Qed.

Lemma inv_put_only m id j j' :
  inv m -> jobs m !! id = Some j -> same_settlement j j' -> state_ok j' -> recovered m = true -> inv (put_job id j' m).
Proof. exact (fun Hi Hj Hs Hok Hr => inv_put m id j j' (free_slots m) Hi Hj Hs Hok Hr). Qed.

(** Writing an outcome. *)
Lemma persist_cases w id j m x m1 :
  persisted j = false -> _persist_outcome project_path w id j m = (x, m1) ->
  exists rc,
    m1 = match x with
         | Ok _ => set_pending (add_key id (pending m))
                     (put_job id (mkJob (data j) (jtask j) (started j) (cancel_requested j) true) (set_rec rc m))
         | Raise _ => set_rec rc m
         end /\
    (forall r', rc = Some r' -> exists r, rec m = Some r /\
       record_background_job_terminal project_path w r (data j) (m_epoch m) = (x, r')) /\
    (rec m <> None -> rc <> None).
Proof.
  unfold _persist_outcome, write_outcome. intros ->. destruct (rec m) as [r|] eqn:Er.
  - destruct (record_background_job_terminal _ _ _ _ _) as [y r'] eqn:Ew. intros Hp.
    exists (Some r'). destruct y as [[]|]; simplify_eq/=; (split; [done|]); (split; [|done]); intros ? [= <-]; eauto.
  - intros [= <- <-]. exists None. split; [|done]. destruct m; simpl in *. by subst.
Qed.

Lemma recover_rows_inv rows m :
  recovered m = false -> core (jobs m) (pending m) (errors m) (live m) false ->
  (forall r, rec m = Some r -> durables r (m_epoch m) (jobs m) (live m) /\ rows_ok r (m_epoch m) (jobs m) rows) ->
  (rec m = None -> rows = []) -> inv (recover_rows rows m).
Proof.
  revert m. induction rows as [|d rows IH]; intros m Hrc Hc Hr Hn; cbn [recover_rows].
  { split; [by apply core_recovered| |done]. intros r Hr'. by apply Hr. }
  destruct (rec m) as [r|] eqn:Er; [|by specialize (Hn eq_refl)]. destruct (Hr r eq_refl) as [Hdu [Hnd Hrow]].
  pose proof (Hrow d ltac:(left)) as (Hsub & Hdur & Hun). inversion Hnd as [|? ? Hnin Hnd']; subst.
  assert (core_li : live m = []) by (by destruct (core_fresh _ _ _ _ _ Hc eq_refl)).
  destruct (terminal (status d)) eqn:Et; cbn [negb].
  - assert (durables r (m_epoch m) (<[job_id d := mkJob d NoTask false false true]> (jobs m)) (live m)) as Hdu'.
    { destruct Hdu as [Hw Ho Hs Hd Hl]. rewrite core_li. split; auto.
      - intros x y. rewrite lookup_insert_Some. intros [[<- <-]|[? Hx]]; eauto.
      - intros x y. rewrite lookup_insert_Some. intros [[<- <-]|[? Hx]]; [by intros _; apply Hdur|eauto].
      - intros x Hx. inversion Hx. }
    assert (rows_ok r (m_epoch m) (<[job_id d := mkJob d NoTask false false true]> (jobs m)) rows) as Hrow'.
    { split; [done|]. intros d' Hd'. destruct (Hrow d' ltac:(by right)) as (? & ? & Hu). split_and!; auto.
      intros Ht j. rewrite lookup_insert_ne; [by apply Hu|]. intros He. apply Hnin. rewrite He. by apply list_elem_of_fmap_2. }
    destruct (delivered d) eqn:Edl; apply IH; simpl; rewrite ?Er; try done.
    + eapply core_restore; eauto.
    + intros ? [= <-]. done.
    + eapply core_restore; eauto.
    + intros ? [= <-]. done.
  - set (j' := mkJob _ _ _ _ _). split; simpl; rewrite ?Er, ?Hrc.
    + by eapply core_interrupt; eauto.
    + intros ? [= <-]. destruct Hdu as [Hw Ho Hs Hd Hl]. rewrite core_li. split; auto.
      * intros x y. rewrite lookup_insert_Some. intros [[<- <-]|[? Hx]]; eauto.
      * intros x y. rewrite lookup_insert_Some. intros [[<- <-]|[? Hx]]; [done|eauto].
      * intros x Hx. inversion Hx.
    + unfold oper_ok. simpl. split; [done|]. exists r, d, rows. split_and!; try done.
      * split; [done|]. intros d' Hd'. destruct (Hrow d' Hd') as (? & ? & Hu). split_and!; auto. intros Ht j.
        rewrite lookup_insert_Some. intros [[_ <-]|[? Hx]]; [done|]. by apply Hu.
      * exists j'. by rewrite lookup_insert_eq.
Qed.

Lemma map_job_id_rows dl ar (rs : list (str * @row metadata)) : keyed rs -> map job_id (map (close_row dl ar) rs) = map fst rs.
Proof.
  intros [Hf _]. induction rs as [|[k [d art]] rs IH]; [done|]. inversion Hf; subst. simpl in *. f_equal; [done|by apply IH].
Qed.

Lemma row_lookup (rs : list (str * @row metadata)) k d art :
  keyed rs -> (k, (d, art)) ∈ rs -> dict_get rs k = Some (d, art) /\ job_id d = k.
Proof.
  intros [Hf Hn] Hin. split; [|rewrite Forall_forall in Hf; apply (Hf (k, (d, art)) Hin)].
  clear Hf. induction rs as [|[k' rw'] rs IH]; [inversion Hin|].
  simpl in *. inversion Hn as [|? ? Hnin Hn']; subst. apply elem_of_cons in Hin as [[= -> ->]|Hin]; [by rewrite str_eqb_refl|].
  destruct (str_eqb_spec k' k) as [->|]; [|by apply IH]. exfalso. apply Hnin.
  by apply (list_elem_of_fmap_2 fst) in Hin.
Qed.

Lemma read_rows_ok r ep rows js li :
  read_background_jobs project_path r ep = Ok rows -> durables r ep js li -> settled_terminal js -> rows_ok r ep js rows.
Proof.
  unfold read_background_jobs. intros Hrd Hdu Hst. destruct (negb _); [done|]. simplify_eq.
  pose proof (rows_keyed ep (events r)) as Hk. split; [rewrite map_job_id_rows by done; apply Hk|].
  intros d Hd. apply list_elem_of_fmap in Hd as ([k [d0 art]] & -> & Hin).
  destruct (row_lookup _ _ _ _ Hk Hin) as [Hg <-].
  destruct (du_wf _ _ _ _ Hdu _ _ _ Hg) as [Hsub Hrow]. simpl. split_and!; [done| |].
  - intros _. exists d0, art. done.
  - intros Ht j Hj. destruct (persisted j) eqn:Hp; [|done]. exfalso.
    destruct (du_durable _ _ _ _ Hdu _ _ Hj Hp) as (d1 & art1 & Hg1 & Hs1 & _).
    pose proof (Hst _ _ Hj Hp) as Ht'. rewrite Hg in Hg1. simplify_eq. congruence.
Qed.

(** ** Every step keeps the invariant *)

Lemma inv_set_oper m o : inv m -> oper_ok (set_oper o m) -> inv (set_oper o m).
Proof. by intros [Hc Hr Ho] Ho'. Qed.

(** The recorder changes but for its events, or gains an event of the host. *)
Lemma inv_host m r r' :
  inv m -> rec m = Some r ->
  (events r' = events r \/ exists ep b, events r' = events (add_event r ep b) /\ job_of b = None /\ forall c, b <> ContextMessage (Some c)) ->
  inv (set_rec (Some r') m).
Proof.
  intros [Hc Hr Ho] Er Hev.
  assert (forall js li, durables r (m_epoch m) js li -> durables r' (m_epoch m) js li) as Hd.
  { intros js li Hd. destruct Hev as [He|(ep & b & He & Hb & Hcm)]; eapply durables_events; [exact He|done|exact He|].
    by apply durables_host. }
  split; simpl; [done| |].
  - intros ? [= <-]. apply Hd. by apply Hr.
  - unfold oper_ok in *. simpl. destruct (oper m); try done.
    destruct Ho as (Hrc & r0 & d & rows' & Hr0 & -> & (Hnd & Hrow) & Ht & Hj). rewrite Er in Hr0. injection Hr0 as <-. split; [done|].
    exists r', d, rows'. split_and!; try done. split; [done|]. intros d' Hd'. destruct (Hrow d' Hd') as (Hs & Hdu & Hp).
    assert (forall ep id, has_submitted r ep id -> has_submitted r' ep id) as Hs'.
    { intros ep id Hs0. destruct Hev as [He|(ep' & b & He & Hb)]; unfold has_submitted; rewrite He; [done|].
      by apply has_submitted_mono. }
    assert (forall ep id s res, durable r ep id s res -> durable r' ep id s res) as Hdu'.
    { intros ep id s res Hs0. destruct Hev as [He|(ep' & b & He & Hb & _)]; unfold durable; rewrite He; [done|].
      apply durable_frame; [congruence|done]. }
    split_and!; auto.
Qed.

Lemma settle_same j s res :
  persisted j = false -> jtask j <> Finished -> jtask j <> NoTask ->
  same_settlement j (mkJob (with_outcome s res (data j)) Persisting (started j) (cancel_requested j) (persisted j)).
Proof. intros Hp Hf Hn. split; simpl; naive_solver congruence. Qed.

Lemma inv_settle m id j j0 s res f :
  inv m -> jobs m !! id = Some j0 -> data j = data j0 -> persisted j = persisted j0 ->
  active (jtask j0) = true -> persisted j0 = false -> terminal s = true ->
  inv (set_slots f (settle id j s res m)).
Proof.
  intros Hi Hj Hd Hp Ha Hp0 Ht. pose proof (core_running _ _ _ _ _ _ _ (inv_core _ Hi) Hj) as Hrc.
  assert (jtask j0 <> NoTask) as Hn by (by destruct (jtask j0)). unfold settle. apply (inv_put m id j0); auto.
  - rewrite Hd, Hp. split; simpl; rewrite ?Hd; auto; try done; intros; destruct (jtask j0); naive_solver congruence.
  - unfold state_ok. simpl. split; congruence.
Qed.

Lemma request_cancel_same j : same_settlement j (_request_cancel j).
Proof.
  unfold _request_cancel. destruct (cancel_requested j); [apply same_settlement_refl|]. split; simpl; try done.
  all: destruct (started j && _), (jtask j); naive_solver.
Qed.

Lemma request_cancel_ok j : state_ok j -> state_ok (_request_cancel j).
Proof.
  unfold _request_cancel. destruct (cancel_requested j); [done|]. unfold state_ok. simpl.
  destruct (started j && _), (jtask j); naive_solver.
Qed.

Lemma inv_cancel_all m o :
  inv m -> recovered m = true -> oper_ok (set_oper o m) -> o = Closing ->
  inv (set_oper o (set_jobs (_request_cancel <$> jobs m) m)).
Proof.
  intros [Hc Hr Ho] Hrc Ho' ->.
  assert (pointwise same_settlement (jobs m) (_request_cancel <$> jobs m)) as Hpw.
  { intros id. rewrite lookup_fmap. destruct (jobs m !! id); simpl; [apply request_cancel_same|done]. }
  split; simpl; [eapply core_change; [done|done|]|intros r Hr'; eapply durables_change; eauto|done].
  intros id j' Hj'. rewrite lookup_fmap in Hj'. destruct (jobs m !! id) eqn:E; simplify_eq/=.
  apply request_cancel_ok. by eapply core_state.
Qed.

Lemma with_archived_same j :
  same_settlement j (mkJob (with_archived (data j)) (jtask j) (started j) (cancel_requested j) (persisted j)).
Proof. by split. Qed.

Lemma inv_archive m id j : inv m -> jobs m !! id = Some j -> recovered m = true -> inv (put_data id j (with_archived (data j)) m).
Proof.
  intros Hi Hj Hrc. apply (inv_put_only m id j); auto using with_archived_same.
  pose proof (core_state _ _ _ _ _ (inv_core _ Hi) _ _ Hj) as Hs. exact Hs.
Qed.

Lemma mark_archived_inv rows m :
  inv m -> recovered m = true ->
  inv (mark_archived rows m) /\ recovered (mark_archived rows m) = true /\ pending (mark_archived rows m) = pending m /\
  oper (mark_archived rows m) = oper m.
Proof.
  unfold mark_archived. revert m. induction rows as [|d rows IH]; intros m Hi Hrc; [done|]. simpl.
  destruct (archived d && str_in (job_id d) (pending m)); [|by apply IH].
  destruct (jobs m !! job_id d) as [j|] eqn:E; [|by apply IH].
  destruct (IH (put_data (job_id d) j (with_archived (data j)) m)) as (H1 & H2 & H3 & H4); [by apply inv_archive|done|].
  split_and!; done.
Qed.

(** The steps that write an outcome. *)
Lemma persist_inv w id j j0 m x m1 :
  inv m -> jobs m !! id = Some j0 -> persisted j0 = false -> recovered m = true ->
  data j = data j0 -> persisted j = false -> jtask j = Finished -> terminal (status (data j)) = true ->
  _persist_outcome project_path w id j m = (x, m1) ->
  match x with
  | Ok _ => inv (set_errors (remove_key id (errors m)) m1) /\ recovered m1 = true /\ oper m1 = oper m /\ errors m1 = errors m
              /\ (forall i, i ∈ pending m -> i ∈ pending m1)
  | Raise _ => inv (set_errors (add_key id (errors m)) (put_job id j m1)) /\ m1 = set_rec (rec m1) m
  end.
Proof.
  intros Hi Hj Hp0 Hrc Hd Hp Ht Htm Hper. destruct (persist_cases _ _ _ _ _ _ Hp Hper) as (rc & -> & Hw & _). clear Hper.
  destruct Hi as [Hc Hr Ho]. pose proof (core_id _ _ _ _ _ Hc _ _ Hj) as Hid. pose proof (core_terminal _ _ _ _ _ Hc) as Hst.
  destruct x as [[]|e]; simpl.
  - split; [|split_and!; try done; intros i Hin; rewrite elem_add_key; by right]. split; simpl.
    + eapply core_persist; eauto; simpl; try congruence. unfold state_ok. simpl. by rewrite Ht.
    + intros r' ->. destruct (Hw r' eq_refl) as (r & Er & Hrec).
      eapply durables_settle; eauto; simpl; congruence.
    + eapply oper_ok_frame; [..|exact Ho]; simpl; try done.
      * intros i Hin. rewrite elem_add_key. by right.
      * intros i Hn. by eapply insert_free.
      * by apply finished_kept_insert.
  - split; [|done]. split; simpl.
    + eapply core_fail; eauto; try congruence. unfold state_ok. by rewrite Ht.
    + intros r' ->. destruct (Hw r' eq_refl) as (r & Er & Hrec).
      assert (durables r' (m_epoch m) (jobs m) (live m)) as [Hwf Hon Hs Hdu Hl].
      { eapply durables_terminal; eauto. rewrite Hd, Hid. eapply du_submitted; [|done]. by apply Hr. }
      split; auto.
      * intros y z. rewrite lookup_insert_Some. intros [[<- <-]|[? Hx]]; eauto.
      * intros y z. rewrite lookup_insert_Some. intros [[<- <-]|[? Hx]]; [congruence|eauto].
      * intros y (z & Hz & Hin)%Hl. destruct (decide (y = id)) as [->|]; [|exists z; by rewrite lookup_insert_ne].
        exists j. rewrite lookup_insert_eq. split; [done|]. congruence.
    + eapply oper_ok_frame; [..|exact Ho]; simpl; try done; [intros i Hn; by eapply insert_free|].
      by apply finished_kept_insert.
Qed.

Lemma remove_key_absent id l : id ∉ l -> remove_key id l = l.
Proof.
  unfold remove_key. induction l as [|x l IH]; [done|]. rewrite not_elem_of_cons. intros [Hx Hl]. simpl.
  rewrite (proj2 (str_eqb_neq x id)) by done. simpl. by rewrite IH.
Qed.

Lemma add_key_present id l : id ∈ l -> add_key id l = l.
Proof. intros Hin. unfold add_key. by rewrite (proj2 (str_in_spec id l) Hin). Qed.

(** Facts about a job of a good state. *)
Lemma inv_active m id j :
  inv m -> jobs m !! id = Some j -> active (jtask j) = true -> persisted j = false /\ recovered m = true /\ state_ok j.
Proof.
  intros Hi Hj Ha. pose proof (core_state _ _ _ _ _ (inv_core _ Hi) _ _ Hj) as Hs. split; [|split; [|done]].
  - unfold state_ok in Hs. destruct (jtask j); naive_solver.
  - eapply core_running; [by apply inv_core|done|]. intros E. by rewrite E in Ha.
Qed.

Lemma start_inv m id m' : inv m -> step (Start id) m = Some m' -> inv m'.
Proof.
  intros Hi Hs. unfold_step Hs.
  destruct (jobs m !! id) as [j|] eqn:Ej; simplify_eq/=; destruct (jtask j) eqn:Et; simplify_eq/=.
  destruct (inv_active m id j Hi Ej ltac:(by rewrite Et)) as (Hp & Hrc & Hok).
  destruct (cancel_requested j).
  try (by apply (inv_settle m id _ j Cancelled CANCELLED (free_slots m)); rewrite ?Et).
  apply (inv_put_only m id j); [done|done| |unfold state_ok in *; simpl; by rewrite Et in Hok|done].
  split; simpl; rewrite ?Et; try done; congruence.
Qed.

Lemma acquire_inv m id m' : inv m -> step (Acquire id) m = Some m' -> inv m'.
Proof.
  intros Hi Hs. unfold_step Hs.
  destruct (jobs m !! id) as [j|] eqn:Ej; simplify_eq/=; destruct (jtask j) as [| |[]| | |] eqn:Et; simplify_eq/=.
  destruct (0 <? free_slots m); simplify_eq.
  destruct (inv_active m id j Hi Ej ltac:(by rewrite Et)) as (Hp & Hrc & Hok).
  apply (inv_put m id j); [done|done| |done|done].
  split; simpl; rewrite ?Et; try done; congruence.
Qed.

Lemma cancel_wait_inv m id m' : inv m -> step (CancelWait id) m = Some m' -> inv m'.
Proof.
  intros Hi Hs. unfold_step Hs.
  destruct (jobs m !! id) as [j|] eqn:Ej; simplify_eq/=; destruct (jtask j) as [| |[]| | |] eqn:Et; simplify_eq/=.
  destruct (inv_active m id j Hi Ej ltac:(by rewrite Et)) as (Hp & Hrc & Hok).
  by apply (inv_settle m id j j Cancelled CANCELLED (free_slots m)); rewrite ?Et.
Qed.

Lemma run_end_inv m id o m' : inv m -> step (RunEnd id o) m = Some m' -> inv m'.
Proof.
  intros Hi Hs. unfold_step Hs.
  destruct (jobs m !! id) as [j|] eqn:Ej; simplify_eq/=; destruct (jtask j) eqn:Et; simplify_eq/=.
  destruct (inv_active m id j Hi Ej ltac:(by rewrite Et)) as (Hp & Hrc & Hok).
  destruct (outcome_of o) as [s res] eqn:Eo; simplify_eq.
  apply (inv_settle m id j j); rewrite ?Et; try done; by destruct o; simplify_eq/=.
Qed.

Lemma persist_step_inv m id w m' : inv m -> step (Persist id w) m = Some m' -> inv m'.
Proof.
  intros Hi Hs. unfold_step Hs.
  destruct (jobs m !! id) as [j|] eqn:Ej; simplify_eq/=; destruct (jtask j) eqn:Et; simplify_eq/=.
  destruct (inv_active m id j Hi Ej ltac:(by rewrite Et)) as (Hp & Hrc & Hok).
  unfold state_ok in Hok; rewrite Et in Hok; destruct Hok as [Ht _].
  destruct (_persist_outcome _ _ _ _ _) as [x m1] eqn:Ex.
  pose proof (persist_inv w id (mkJob (data j) Finished (started j) (cancel_requested j) (persisted j)) j m x m1
    Hi Ej Hp Hrc eq_refl Hp eq_refl Ht Ex) as Hpi.
  injection Hs as <-; destruct x as [[]|e].
  try (destruct Hpi as (Hpi & _ & _ & He & _); rewrite remove_key_absent in Hpi;
            [rewrite <- He in Hpi; by destruct m1|
             intros (? & ? & ? & ?)%(core_errors _ _ _ _ _ (inv_core _ Hi)); congruence]).
  destruct Hpi as [Hpi Hm]; assert (errors m1 = errors m) as -> by (by rewrite Hm); done.
Qed.

Lemma retry_inv m w id ids k :
  inv m -> oper m = Retrying (id :: ids) k -> inv (retry_one project_path w id ids k m).
Proof.
  intros Hi Ho. pose proof (inv_oper _ Hi) as Hop. unfold oper_ok in Hop. rewrite Ho in Hop. destruct Hop as [Hrc Hids].
  assert (forall m', recovered m' = true -> finished_kept (jobs m) (jobs m') -> oper_ok (set_oper (Retrying ids k) m')) as Hnext.
  { intros m' Hr' Hf. split; [done|]. simpl. intros x Hx. destruct (Hids x ltac:(by right)) as (y & Hy & Ht). by eapply Hf. }
  assert (finished_kept (jobs m) (jobs m)) as Hid by (intros ? ? ? ?; eauto).
  unfold retry_one. destruct (Hids id ltac:(left)) as (j & Hj & Ht). rewrite Hj.
  destruct (negb (persisted j) && terminal (status (data j))) eqn:E; [|apply inv_set_oper; auto].
  apply andb_true_iff in E as [Hp%negb_true_iff Htm].
  destruct (_persist_outcome _ _ _ _ _) as [x m1] eqn:Ex.
  pose proof (persist_inv w id j j m x m1 Hi Hj Hp Hrc eq_refl Hp Ht Htm Ex) as Hpi. destruct x as [[]|e].
  - destruct Hpi as (Hpi & Hrc1 & _ & -> & _). apply (inv_set_oper _ (Retrying ids k)) in Hpi; [done|].
    apply Hnext; [done|]. destruct (persist_cases _ _ _ _ _ _ Hp Ex) as (rc & -> & _). by apply finished_kept_insert.
  - destruct Hpi as [Hpi Hm]. apply (inv_set_oper _ Idle) in Hpi; [|done].
    rewrite add_key_present in Hpi by (eapply core_failed; [by apply inv_core|done..]).
    assert (set_errors (errors m) (put_job id j m1) = m1) as Hm2; [|by rewrite Hm2 in Hpi].
    rewrite Hm. unfold put_job, set_errors, set_rec, set_jobs. simpl. by rewrite insert_id.
Qed.

Lemma recover_write_inv m w d rows m' :
  inv m -> oper m = Recovering (d :: rows) -> step (RecoverWrite w) m = Some m' -> inv m'.
Proof.
  intros [Hc Hr Ho] Hop Hs. unfold_step Hs. unfold oper_ok in Ho. rewrite Hop in *.
  destruct Ho as (Hrc & r & d0 & rows0 & Er & [= <- <-] & [Hnd Hrow] & Ht & j & Hj). rewrite Hj in Hs. simpl in Hs.
  destruct (Hrow d ltac:(left)) as (Hsub & _ & Hun). pose proof (Hun Ht j Hj) as Hp.
  pose proof (core_state _ _ _ _ _ Hc _ _ Hj) as Hok. pose proof (core_id _ _ _ _ _ Hc _ _ Hj) as Hid.
  pose proof (core_terminal _ _ _ _ _ Hc) as Hst. rewrite Hrc in Hc. destruct (core_fresh _ _ _ _ _ Hc eq_refl) as (Hli & Her & Hnt).
  pose proof (Hnt _ _ Hj) as Htk. unfold state_ok in Hok. rewrite Htk in Hok.
  destruct (_persist_outcome _ _ _ _ _) as [x m1] eqn:Ex.
  destruct (persist_cases _ _ _ _ _ _ Hp Ex) as (rc & -> & Hw & Hrn). clear Ex. inversion Hnd as [|? ? Hnin Hnd']; subst.
  assert (forall r', rc = Some r' -> forall d', d' ∈ rows -> has_submitted r' (m_epoch m) (job_id d') /\
    (terminal (status d') = true -> durable r' (m_epoch m) (job_id d') (status d') (job_result d'))) as Hrows.
  { intros r' -> d' Hd'. destruct (Hw r' eq_refl) as (r1 & Er1 & Hrec). rewrite Er in Er1. simplify_eq.
    destruct (Hrow d' ltac:(by right)) as (Hs' & Hdu & _). split.
    - eapply extends_submitted; [by eapply terminal_extends|done].
    - intros Ht'. eapply durable_terminal_keep; eauto. }
  destruct rc as [r'|]; [|by exfalso; apply Hrn; rewrite ?Er].
  destruct (Hw r' eq_refl) as (r1 & Er1 & Hrec). rewrite Er in Er1. injection Er1 as <-.
  assert (durables r' (m_epoch m) (jobs m) (live m)) as Hdu by (eapply durables_terminal; eauto; by rewrite Hid).
  destruct x as [[]|e]; simplify_eq.
  - apply recover_rows_inv; simpl; [done| | |done].
    + rewrite Her in *. change (@nil (list Z)) with (remove_key (job_id d) []).
      eapply core_persist; [exact Hc|exact Hj|done|done| |done|done]. unfold state_ok. simpl. by rewrite Htk.
    + intros ? [= <-]. split; [eapply durables_settle; eauto|]. split; [done|]. intros d' Hd'.
      destruct (Hrows r' eq_refl d' Hd'). split_and!; [done|done|]. intros Ht' z. rewrite lookup_insert_ne.
      * by apply (Hrow d' ltac:(by right)).
      * intros He. apply Hnin. rewrite He. by apply list_elem_of_fmap_2.
  - split; simpl; [by rewrite Hrc| |done]. by intros ? [= <-].
Qed.

Lemma commit_inv m w lr archive id ids :
  inv m -> oper m = Committing archive id ids -> inv (commit_one project_path w lr archive id ids m).
Proof.
  intros [Hc Hr Ho] Hop. unfold oper_ok in Ho. rewrite Hop in Ho. destruct Ho as (Hrc & Hnd & Hin).
  unfold commit_one. destruct (core_pending _ _ _ _ _ Hc _ (Hin id ltac:(left))) as (j & Hj & Hp). rewrite Hj.
  set (t := _completion_text (data j)). destruct (deliver_write _ _ _ _ _) as [x m1] eqn:Ed.
  assert (exists rc, m1 = set_rec rc m /\ forall r', rc = Some r' -> durables r' (m_epoch m) (jobs m) (live m) /\
    (x = Ok tt -> is_inserted r' (m_epoch m) (completion_id (data j)))) as (rc & -> & Hw).
  { unfold deliver_write in Ed. destruct (rec m) as [r|] eqn:Er.
    - destruct (record_background_completion _ _ _ _ _ _) as [y r'] eqn:Ey. injection Ed as <- <-. exists (Some r').
      split; [done|]. intros ? [= <-].
      destruct (durables_completion _ _ _ _ _ _ _ _ _ Ey (Hr r eq_refl)) as [Hd Hi]. split; [done|].
      intros Hy. destruct y as [v|]; [by apply (Hi v)|done].
    - injection Ed as <- <-. exists None. split; [|done]. destruct m; simpl in *. by subst. }
  assert (inv (set_oper Idle (set_rec rc m))) as Hidle.
  { split; simpl; [done| |done]. intros r' ->. by apply Hw. }
  destruct x as [[]|e]; [|done]. destruct (_ || _); [done|]. clear Hidle. inversion Hnd as [|? ? Hnin Hnd']; subst.
  pose proof (core_state _ _ _ _ _ Hc _ _ Hj) as Hst. pose proof (core_id _ _ _ _ _ Hc _ _ Hj) as Hid.
  set (m2 := if archived (data j) then _ else _).
  assert (exists li', live m2 = li' /\ (li' = live m \/ li' = live m ++ [(id, t)]) /\ jobs m2 = jobs m /\ pending m2 = pending m /\
    errors m2 = errors m /\ recovered m2 = true /\ rec m2 = rc /\ m_epoch m2 = m_epoch m) as (li' & Hli & Hl & Ej & Ep & Ee & Erc & Er & Em).
  { unfold m2. destruct (archived (data j)); eexists; split_and!; eauto. }
  split; simpl; rewrite ?Ej, ?Ep, ?Ee, ?Erc, ?Er, ?Em, ?Hli.
  - eapply core_deliver; rewrite <- ?Hrc; eauto; try done. by apply Hin; left.
  - intros r' ->. destruct (Hw r' eq_refl) as [[Hwf Hon Hs Hdu Hlv] Hi]. split; auto.
    + intros y z. rewrite lookup_insert_Some. intros [[<- <-]|[? Hx]]; eauto.
    + intros y z. rewrite lookup_insert_Some. intros [[<- <-]|[? Hx]]; simpl; eauto.
    + intros y Hy. assert (y ∈ map fst (live m) \/ y = id) as [Hy'| ->].
      { destruct Hl as [->| ->]; [by left|]. rewrite map_app, elem_of_app in Hy. simpl in Hy.
        rewrite list_elem_of_singleton in Hy. naive_solver. }
      * destruct (Hlv y Hy') as (z & Hz & Hzi). destruct (decide (y = id)) as [->|]; [|exists z; by rewrite lookup_insert_ne].
        eexists. rewrite lookup_insert_eq. split; [done|]. simpl. by apply Hi.
      * eexists. rewrite lookup_insert_eq. split; [done|]. simpl. by apply Hi.
  - unfold oper_ok. simpl. rewrite ?Ep, ?Erc. split_and!; [done|done|]. intros y Hy. rewrite elem_remove_key.
    split; [apply Hin; by right|]. intros ->. done.
Qed.

Lemma recover_inv m m' : inv m -> oper m = Idle -> recovered m = false -> m' = _recover project_path m -> inv m'.
Proof.
  intros Hi Ho Hrc ->. pose proof Hi as [Hc Hr Hop]. unfold _recover. rewrite Hrc in Hc. destruct (rec m) as [r|] eqn:Er.
  - destruct (read_background_jobs _ _ _) as [rows|] eqn:Erd; [|done].
    apply recover_rows_inv; try done; rewrite ?Er; try done. intros ? [= <-]. split; [by apply Hr|].
    eapply read_rows_ok; [done|by apply Hr|]. by eapply core_terminal.
  - by apply recover_rows_inv; try done; rewrite ?Er.
Qed.

Lemma admit_inv m w d m' : inv m -> oper m = Admitting d -> step (AdmitWrite w) m = Some m' -> inv m'.
Proof.
  intros [Hc Hr Ho] Hop Hs. unfold_step Hs. unfold oper_ok in Ho. rewrite Hop in *.
  destruct Ho as (Hrc & Hn & Hq). rewrite Hrc in Hc. destruct (rec m) as [r|] eqn:Er.
  - destruct (record_background_job_submitted _ _ _ _) as [x r'] eqn:Ex. injection Hs as <-.
    pose proof (durables_admit _ _ _ _ _ _ _ _ Ex Hq Hn (Hr r eq_refl)) as Hdu.
    destruct x as [[]|e]; (split; simpl; [rewrite Hrc| |done]).
    + by apply core_admit.
    + by intros ? [= <-].
    + done.
    + by intros ? [= <-].
  - injection Hs as <-. split; simpl; [rewrite Hrc; by apply core_admit| |done]. intros r. by rewrite Er.
Qed.

Lemma init_inv (rc : option recorder) a b : (forall r', rc = Some r' -> journal_wf r' /\ inserted_once r') -> inv (init rc a b).
Proof.
  intros Hr. split; simpl; [|intros r' Hr'; split; simpl; try done|done].
  - split; simpl; try done; try (by intros ? Hx; inversion Hx); by apply NoDup_nil_2.
  - by apply Hr.
  - by apply Hr.
  - intros x Hx. inversion Hx.
Qed.

Lemma start_epoch_events w turn_open r ep :
  events (snd (start_epoch w turn_open r ep)) = events r \/
  exists ep' b, events (snd (start_epoch w turn_open r ep)) = events (add_event r ep' b) /\ job_of b = None /\
    forall c, b <> ContextMessage (Some c).
Proof.
  unfold start_epoch. destruct (negb _); [by left|]. destruct (_ || _); [by left|].
  destruct w; simpl; [right; by exists ep, EpochStarted|by left|right; by exists ep, EpochStarted].
Qed.

Lemma host_inv m l m' :
  (match l with Host _ | HostEpoch _ _ _ | HostUnsettled | Rebind | Close | Restart _ _ => True | _ => False end) ->
  inv m -> step l m = Some m' -> inv m'.
Proof.
  intros Hl Hi Hs. destruct l; try done; unfold_step Hs.
  - injection Hs as <-. destruct Hi as [Hc Hr Ho]. by split.
  - destruct (rec m) as [r|] eqn:Er; [|done]. destruct (host_event b) eqn:Eb; [|done]. injection Hs as <-.
    apply (inv_host m r); [done|done|]. right. do 2 eexists. split; [done|]. by destruct b as [| | |[]| | | |].
  - destruct (rec m) as [r|] eqn:Er; [|done]. simpl in Hs. injection Hs as <-.
    apply (inv_host m r); [done|done|]. apply start_epoch_events.
  - destruct (rec m) as [r|] eqn:Er; [|done]. simpl in Hs. injection Hs as <-. apply (inv_host m r); auto.
  - injection Hs as <-. destruct Hi as [Hc Hr Ho]. by split.
  - destruct (_ || _); [done|]. injection Hs as <-. apply init_inv. intros r' Hr'.
    destruct (rec m) as [r|] eqn:Er; [|done]. injection Hr' as <-. destruct (inv_rec _ Hi r Er) as [Hw Ho _ _ _]. by split.
Qed.

Lemma deliver_step_inv m l m' :
  (match l with Deliver _ _ | Prepare _ _ | ReadRows | DeliverNext => True | _ => False end) ->
  inv m -> step l m = Some m' -> inv m'.
Proof.
  intros Hl Hi Hs. pose proof (inv_oper _ Hi) as Ho. unfold oper_ok in Ho.
  destruct l; try done; unfold_step Hs; destruct (oper m) as [| | |ids k| | |a ids|a x ids|] eqn:Eo; try done.
  - destruct (recovered m) eqn:Erc; [|done]. simpl in Hs. destruct (_ || _); injection Hs as <-; [done|].
    apply inv_set_oper; [done|]. split; [done|]. simpl. intros id (j & ? & ? & ?)%(core_errors _ _ _ _ _ (inv_core _ Hi)). eauto.
  - injection Hs as <-. set (m1 := match rec m with Some _ => _ | None => _ end).
    assert (inv m1 /\ recovered m1 = true) as [Hi1 Hr1].
    { unfold m1. destruct (rec m) as [r|] eqn:Er; [|done]. split; [apply (inv_host m r); auto|done]. }
    apply inv_set_oper; [done|]. destruct raised; done.
  - destruct (rec m) as [r|] eqn:Er.
    + destruct (read_background_jobs _ _ _) as [rows|]; injection Hs as <-; [|by apply inv_set_oper].
      destruct (mark_archived_inv rows m Hi Ho) as (H1 & H2 & H3 & H4). apply inv_set_oper; [done|].
      split_and!; [done|by apply (core_nodup _ _ _ _ _ (inv_core _ H1))|done].
    + injection Hs as <-. apply inv_set_oper; [done|].
      split_and!; [done|by apply (core_nodup _ _ _ _ _ (inv_core _ Hi))|done].
  - destruct Ho as (Hrc & Hnd & Hin). destruct ids as [|id ids]; [injection Hs as <-; by apply inv_set_oper|].
    destruct (epoch_error m); injection Hs as <-; [by apply inv_set_oper|].
    destruct (core_pending _ _ _ _ _ (inv_core _ Hi) _ (Hin id ltac:(left))) as (j & Hj & Hp). rewrite Hj.
    destruct a; (apply inv_set_oper; [|done]); [by apply inv_archive|done].
Qed.

Lemma step_inv l m m' : inv m -> step l m = Some m' -> inv m'.
Proof.
  intros Hi Hs. pose proof (inv_oper _ Hi) as Ho. unfold oper_ok in Ho.
  destruct l; try (eapply host_inv; [|exact Hi|exact Hs]; exact I); try (eapply deliver_step_inv; [|exact Hi|exact Hs]; exact I).
  - unfold_step Hs. destruct (oper m) eqn:Eo; try done. destruct (recovered m) eqn:Er; [done|]. injection Hs as <-.
    by eapply recover_inv.
  - destruct (oper m) as [|[|d rows]| | | | | | |] eqn:Eo; try (by unfold_step Hs; rewrite Eo in Hs).
    by eapply recover_write_inv.
  - unfold_step Hs. destruct (oper m) eqn:Eo; try done. destruct (recovered m) eqn:Er; [|done]. simpl in Hs.
    destruct (_ || _); [by injection Hs as <-|]. destruct (_ || _); [by injection Hs as <-|].
    destruct (jobs m !! jid) eqn:Ej; [by injection Hs as <-|]. destruct (_ <=? _); injection Hs as <-; [done|].
    apply inv_set_oper; [done|]. by split_and!.
  - destruct (oper m) eqn:Eo; try (by unfold_step Hs; rewrite Eo in Hs). by eapply admit_inv.
  - by eapply start_inv.
  - by eapply acquire_inv.
  - by eapply cancel_wait_inv.
  - by eapply run_end_inv.
  - by eapply persist_step_inv.
  - unfold_step Hs. assert (recovered m = true /\ (m' = m \/ exists j, jobs m !! id = Some j /\
      m' = put_job id (_request_cancel j) m)) as [Hrc [->|(j & Hj & ->)]]; [|done|].
    { destruct (oper m), (recovered m) eqn:Er; simpl in Hs; try discriminate Hs; (split; [done|]);
        destruct (jobs m !! id) as [j|] eqn:Ej; injection Hs as Hs; subst m'; eauto. }
    apply (inv_put_only m id j); auto using request_cancel_same.
    apply request_cancel_ok. eapply core_state; [by apply inv_core|done].
  - destruct (oper m) as [| | |[|id ids] k| | | | |] eqn:Eo; unfold_step Hs; rewrite Eo in Hs; try discriminate Hs;
      injection Hs as <-.
    + unfold retried. destruct (nonempty (errors m)), k; try destruct (nonempty (pending m)); apply inv_set_oper; naive_solver.
    + by apply retry_inv.
  - unfold_step Hs. destruct (oper m) eqn:Eo; try done; injection Hs as <-. by apply commit_inv.
  - unfold_step Hs. destruct (oper m) eqn:Eo; try done. destruct (closed m && recovered m) eqn:E; [|done].
    apply andb_true_iff in E as [_ Er]. injection Hs as <-. by apply inv_cancel_all.
  - unfold_step Hs. destruct (oper m) eqn:Eo; try done. destruct (_ =? _); [|done]. injection Hs as <-.
    apply inv_set_oper; [done|]. split; [done|]. simpl. intros id (j & ? & ? & ?)%(core_errors _ _ _ _ _ (inv_core _ Hi)). eauto.
Qed.

(** ** Capacity *)

Definition count (p : task_state -> bool) (js : gmap (list Z) job) : Z :=
  len (List.filter (fun kj => p (jtask kj.2)) (map_to_list js)).

Lemma len_filter_perm {A} (f : A -> bool) l1 l2 : l1 ≡ₚ l2 -> len (List.filter f l1) = len (List.filter f l2).
Proof.
  induction 1; simpl; [done| | |congruence].
  - destruct (f x); rewrite ?len_cons; congruence.
  - destruct (f x), (f y); done.
Qed.

Lemma count_new p js id j : js !! id = None -> count p (<[id := j]> js) = count p js + Z.b2z (p (jtask j)).
Proof.
  intros Hn. unfold count. rewrite (len_filter_perm _ _ ((id, j) :: map_to_list js)) by (by apply map_to_list_insert).
  simpl. destruct (p (jtask j)); rewrite ?len_cons; simpl; lia.
Qed.

Lemma count_old p js id j0 j :
  js !! id = Some j0 -> count p (<[id := j]> js) = count p js - Z.b2z (p (jtask j0)) + Z.b2z (p (jtask j)).
Proof.
  intros Hj. rewrite <- (insert_delete_id js id j0 Hj) at 2. rewrite <- insert_delete_eq.
  rewrite !count_new by apply lookup_delete_eq. lia.
Qed.

Lemma count_fmap p f js : (forall j, p (jtask (f j)) = p (jtask j)) -> count p (f <$> js) = count p js.
Proof.
  intros Hf. induction js as [|id j js Hn IH] using map_ind; [by rewrite fmap_empty|].
  rewrite fmap_insert, !count_new, Hf, IH; [done|done|by rewrite lookup_fmap, Hn].
Qed.

Lemma count_none p js : p NoTask = false -> (forall id j, js !! id = Some j -> jtask j = NoTask) -> count p js = 0.
Proof.
  intros Hp. induction js as [|id j js Hid IH] using map_ind; [done|]. intros Hn.
  rewrite count_new, IH, (Hn id j), Hp; [done|apply lookup_insert_eq| |done].
  intros x y Hx. apply (Hn x y). rewrite lookup_insert_ne; [done|congruence].
Qed.

Record cap m : Prop := mkCap {
  cap_pos : 1 <= max_running m;
  cap_free : 0 <= free_slots m;
  cap_slots : free_slots m + count holding (jobs m) = max_running m;
  cap_jobs : 0 <= max_jobs m /\ count active (jobs m) <= max_jobs m;
  cap_admit : forall d, oper m = Admitting d -> count active (jobs m) < max_jobs m
}.

Lemma cap_frame m m' :
  cap m -> max_running m' = max_running m -> max_jobs m' = max_jobs m -> 0 <= free_slots m' ->
  free_slots m' + count holding (jobs m') = free_slots m + count holding (jobs m) ->
  count active (jobs m') <= count active (jobs m) -> (oper m' = oper m \/ forall d, oper m' <> Admitting d) -> cap m'.
Proof.
  intros [Hp Hf Hs Hj Ha] Hr Hm Hf' Hc Hac Ho. split; rewrite ?Hr, ?Hm; try lia.
  intros d Hd. destruct Ho as [Ho|Ho]; [|by apply Ho in Hd]. rewrite Ho in Hd. specialize (Ha d Hd). lia.
Qed.

(** The steps of a task move it forward and trade a slot for the holding state. *)
Lemma cap_put m id j0 j f :
  cap m -> jobs m !! id = Some j0 -> (active (jtask j) = true -> active (jtask j0) = true) ->
  f + Z.b2z (holding (jtask j)) = free_slots m + Z.b2z (holding (jtask j0)) -> 0 <= f ->
  cap (set_slots f (put_job id j m)).
Proof.
  intros Hc Hj Ha Hf Hf0. apply (cap_frame m); simpl; auto.
  - rewrite (count_old _ _ _ j0) by done. lia.
  - rewrite (count_old _ _ _ j0) by done. destruct (active (jtask j)); [rewrite Ha by done|destruct (active (jtask j0))]; simpl; lia.
Qed.

Lemma cap_put_only m id j0 j :
  cap m -> jobs m !! id = Some j0 -> (active (jtask j) = true -> active (jtask j0) = true) ->
  holding (jtask j) = holding (jtask j0) -> cap (put_job id j m).
Proof. intros Hc Hj Ha Hh. apply (cap_put m id j0 j (free_slots m)); auto; [by rewrite Hh|apply Hc]. Qed.

(** Nothing that counts has changed. *)
Ltac cap_same m := apply (cap_frame m); simpl; auto using Z.le_refl, cap_free; by right.

Lemma cap_oper m o : cap m -> (forall d, o <> Admitting d) -> cap (set_oper o m).
Proof. intros Hc Ho. cap_same m. Qed.

Lemma recover_rows_cap rows m :
  cap m -> (forall id j, jobs m !! id = Some j -> jtask j = NoTask) -> cap (recover_rows rows m).
Proof.
  revert m. induction rows as [|d rows IH]; intros m Hc Hn; cbn [recover_rows].
  { cap_same m. }
  assert (forall j, jtask j = NoTask -> cap (put_job (job_id d) j m) /\
    forall id y, jobs (put_job (job_id d) j m) !! id = Some y -> jtask y = NoTask) as Hput.
  { intros j Hj. assert (forall id y, jobs (put_job (job_id d) j m) !! id = Some y -> jtask y = NoTask) as Hn'.
    { intros id y. simpl. rewrite lookup_insert_Some. intros [[_ <-]|[_ Hy]]; [done|by eapply Hn]. }
    split; [|done]. apply (cap_frame m); auto; [apply Hc| |]; rewrite !count_none; auto; try done; lia. }
  destruct (negb _).
  - edestruct Hput as [Hc' _]; [|apply cap_oper; [exact Hc'|done]]. done.
  - edestruct Hput as [Hc' Hn']; [|destruct (delivered d); apply IH; [exact Hc'|exact Hn'|..]]; [done| |done].
    apply (cap_frame _ _ Hc'); simpl; auto using Z.le_refl. apply Hc'.
Qed.

Lemma cap_rec m rc : cap m -> cap (set_rec rc m).
Proof. intros Hc. apply (cap_frame m); simpl; auto using Z.le_refl, cap_free. Qed.
Lemma cap_pending m pe : cap m -> cap (set_pending pe m).
Proof. intros Hc. apply (cap_frame m); simpl; auto using Z.le_refl, cap_free. Qed.
Lemma cap_errors m er : cap m -> cap (set_errors er m).
Proof. intros Hc. apply (cap_frame m); simpl; auto using Z.le_refl, cap_free. Qed.

Lemma persist_cap w id j j0 m x m1 :
  persisted j = false -> _persist_outcome project_path w id j m = (x, m1) -> cap m -> jobs m !! id = Some j0 ->
  active (jtask j) = false -> holding (jtask j0) = false -> cap m1 /\ cap (put_job id j m1).
Proof.
  intros Hp Ex Hc Hj Ha Hh. destruct (persist_cases _ _ _ _ _ _ Hp Ex) as (rc & -> & _).
  apply (cap_rec _ rc) in Hc.
  assert (forall y, jtask y = jtask j -> cap (put_job id y (set_rec rc m))) as Hput.
  { intros y Hy. apply (cap_put_only _ id j0); [done|done| |]; rewrite Hy; [by rewrite Ha|by destruct (jtask j)]. }
  destruct x as [[]|]; [|split; [done|by apply Hput]].
  assert (cap (put_job id (mkJob (data j) (jtask j) (started j) (cancel_requested j) true) (set_rec rc m))) as Hc1 by (by apply Hput).
  split; [by apply cap_pending|]. apply (cap_pending _ (add_key id (pending m))) in Hc1.
  apply (cap_put_only _ id (mkJob (data j) (jtask j) (started j) (cancel_requested j) true)); [done| | |done].
  - simpl. by rewrite lookup_insert_eq.
  - done.
Qed.

Lemma mark_archived_cap rows m : cap m -> cap (mark_archived rows m).
Proof.
  unfold mark_archived. revert m. induction rows as [|d rows IH]; intros m Hc; [done|]. simpl. apply IH.
  destruct (archived d && _); [|done]. destruct (jobs m !! job_id d) as [j|] eqn:E; [|done].
  by apply (cap_put_only m (job_id d) j).
Qed.

Lemma request_cancel_task j :
  active (jtask (_request_cancel j)) = active (jtask j) /\ holding (jtask (_request_cancel j)) = holding (jtask j).
Proof. unfold _request_cancel. destruct (cancel_requested j); [done|]. simpl. by destruct (started j && _), (jtask j). Qed.

Lemma task_cap l m m' :
  (match l with Start _ | Acquire _ | CancelWait _ | RunEnd _ _ | Persist _ _ | Cancel _ => True | _ => False end) ->
  inv m -> cap m -> step l m = Some m' -> cap m'.
Proof.
  intros Hl Hi Hc Hs. destruct l; try done; unfold_step Hs.
  1-5: destruct (jobs m !! id) as [j|] eqn:Ej; [|done]; simpl in Hs; destruct (jtask j) as [| |[]| | |] eqn:Et; try done.
  - injection Hs as <-. simpl. destruct (cancel_requested j); by apply (cap_put_only m id j); rewrite ?Et.
  - destruct (Z.ltb_spec 0 (free_slots m)); [|done]. injection Hs as <-. apply (cap_put m id j); rewrite ?Et; simpl; auto; lia.
  - injection Hs as <-. by apply (cap_put_only m id j); rewrite ?Et.
  - destruct (outcome_of o). injection Hs as <-. pose proof (cap_free _ Hc). apply (cap_put m id j); rewrite ?Et; simpl; auto; lia.
  - destruct (inv_active m id j Hi Ej ltac:(by rewrite Et)) as (Hp & _ & _).
    destruct (_persist_outcome _ _ _ _ _) as [x m1] eqn:Ex.
    destruct (persist_cap w id (mkJob (data j) Finished (started j) (cancel_requested j) (persisted j)) j m x m1 Hp Ex Hc Ej)
      as [H1 H2]; [done|by rewrite Et|]. injection Hs as <-.
    destruct x; [done|]. by apply cap_errors.
  - destruct (recovered m); [|done]. simpl in Hs. destruct (jobs m !! id) as [j|] eqn:Ej; injection Hs as <-; [|done].
    destruct (request_cancel_task j) as [Ha Hh]. apply (cap_put_only m id j); congruence.
Qed.

Lemma host_cap l m m' :
  (match l with Host _ | HostEpoch _ _ _ | HostUnsettled | Rebind | Close | Restart _ _ => True | _ => False end) ->
  cap m -> step l m = Some m' -> cap m'.
Proof.
  intros Hl Hc Hs. destruct l; try done; unfold_step Hs.
  - injection Hs as <-. cap_same m.
  - destruct (rec m); [|done]. destruct (host_event b); [|done]. injection Hs as <-. by apply cap_rec.
  - destruct (rec m); [|done]. injection Hs as <-. by apply cap_rec.
  - destruct (rec m); [|done]. injection Hs as <-. by apply cap_rec.
  - injection Hs as <-. cap_same m.
  - destruct (Z.ltb_spec running_limit 1), (Z.ltb_spec jobs_limit 1); try done. injection Hs as <-.
    split; simpl; rewrite ?count_none; try done; lia.
Qed.

Lemma step_cap l m m' : inv m -> cap m -> step l m = Some m' -> cap m'.
Proof.
  intros Hi Hc Hs. pose proof (inv_oper _ Hi) as Ho. unfold oper_ok in Ho.
  destruct l; try (eapply task_cap; [|exact Hi|exact Hc|exact Hs]; exact I);
    try (eapply host_cap; [|exact Hc|exact Hs]; exact I); unfold_step Hs.
  all: try (destruct (oper m) eqn:Eo; try discriminate Hs).
  - destruct (recovered m) eqn:Er; [done|]. injection Hs as <-.
    destruct (core_fresh _ _ _ _ _ (inv_core _ Hi) Er) as (_ & _ & Hn).
    unfold _recover. destruct (rec m); [destruct (read_background_jobs _ _ _); [|done]|]; by apply recover_rows_cap.
  - destruct Ho as (Hrc & r & d & rows' & Er & -> & [_ Hrow] & Ht & j & Hj). rewrite Hj in Hs. simpl in Hs.
    destruct (core_fresh _ _ _ _ _ (inv_core _ Hi) Hrc) as (_ & _ & Hn).
    destruct (Hrow d ltac:(left)) as (_ & _ & Hun). pose proof (Hun Ht j Hj) as Hp. pose proof (Hn _ _ Hj) as Hnt.
    destruct (_persist_outcome _ _ _ _ _) as [x m1] eqn:Ex.
    destruct (persist_cap _ _ _ j _ _ _ Hp Ex Hc Hj) as [H1 _]; [by rewrite Hnt|by rewrite Hnt|].
    injection Hs as <-. destruct x; [|by apply cap_oper]. apply recover_rows_cap; [done|].
    destruct (persist_cases _ _ _ _ _ _ Hp Ex) as (rc & -> & _). simpl. intros id y. rewrite lookup_insert_Some.
    intros [[_ <-]|[_ Hy]]; [done|by eapply Hn].
  - destruct (negb _); [done|]. destruct (_ || _); [by injection Hs as <-|]. destruct (_ || _); [by injection Hs as <-|].
    destruct (jobs m !! jid); [by injection Hs as <-|]. destruct (Z.leb_spec (max_jobs m) (active_count m)); injection Hs as <-; [done|].
    split; simpl; try apply Hc. done.
  - destruct Ho as (Hrc & Hn & Hq).
    destruct (match rec m with Some _ => _ | None => _ end) as [x m1] eqn:Ex. injection Hs as <-.
    assert (exists rc, m1 = set_rec rc m) as [rc ->].
    { destruct (rec m); [destruct (record_background_job_submitted _ _ _ _)|]; injection Ex as <- <-; [eauto|].
      exists (rec m). by destruct m. }
    destruct x; [|by apply cap_oper; [apply cap_rec|]]. pose proof (cap_admit _ Hc _ Eo). destruct Hc as [H1 H2 H3 H4 H5].
    split; simpl; try done; rewrite ?count_new by done; simpl; lia.
  - destruct (negb _); [done|]. destruct (_ || _); injection Hs as <-; [done|]. by apply cap_oper.
  - destruct ids as [|id ids]; injection Hs as <-.
    + unfold retried. destruct (nonempty (errors m)), k; try destruct (nonempty (pending m)); by apply cap_oper.
    + destruct Ho as [_ Hids]. destruct (Hids id ltac:(left)) as (j & Hj & Ht). unfold retry_one. rewrite Hj.
      destruct (persisted j) eqn:Hp; [by apply cap_oper|]. destruct (terminal _); [|by apply cap_oper]. cbn [negb andb].
      destruct (_persist_outcome _ _ _ _ _) as [x m1] eqn:Ex.
      destruct (persist_cap w id j j m x m1 Hp Ex Hc Hj) as [H1 _]; [by rewrite Ht|by rewrite Ht|].
      destruct x; apply cap_oper; try done. by apply cap_errors.
  - injection Hs as <-. destruct (rec m); (apply cap_oper; [|by destruct raised]); [by apply cap_rec|done].
  - destruct (rec m); [destruct (read_background_jobs _ _ _)|]; injection Hs as <-; apply cap_oper; auto using mark_archived_cap.
  - destruct ids as [|id ids]; [|destruct (epoch_error m)]; injection Hs as <-; apply cap_oper; try done.
    destruct (jobs m !! id) as [j|] eqn:Ej; [|done]. destruct archive; [|done]. by apply (cap_put_only m id j).
  - injection Hs as <-. unfold commit_one. destruct (jobs m !! id) as [j|] eqn:Ej; [|by apply cap_oper].
    destruct (deliver_write _ _ _ _ _) as [x m1] eqn:Ed.
    assert (exists rc, m1 = set_rec rc m) as [rc ->].
    { unfold deliver_write in Ed. destruct (rec m); [destruct (record_background_completion _ _ _ _ _ _)|];
        injection Ed as <- <-; [eauto|]. exists (rec m). by destruct m. }
    apply (cap_rec _ rc) in Hc. destruct x; [|by apply cap_oper]. destruct (_ || _); [by apply cap_oper|].
    apply cap_oper; [|done]. apply cap_pending. destruct (archived (data j)); [by apply (cap_put_only _ id j)|].
    apply (cap_put_only _ id j); [|done..]. apply (cap_frame _ _ Hc); simpl; auto using Z.le_refl, cap_free. apply Hc.
  - destruct (closed m && recovered m); [|done]. injection Hs as <-. apply cap_oper; [|done].
    apply (cap_frame m); simpl; auto using cap_free, Z.le_refl; rewrite !count_fmap; auto using Z.le_refl;
      intros j; apply request_cancel_task.
  - destruct (_ =? _); [|done]. injection Hs as <-. by apply cap_oper.
Qed.
End Facts.
