(* ===== verification/BackgroundSafety.v ===== *)
(** * Background jobs: the properties of the reachable states *)

From stdpp Require Import base list strings numbers gmap.
From Stdlib Require Import ZArith Lia.
From S2P Require Import Prelude PyStr PyVal BgJournal BgJournalFacts Background BackgroundFacts.

Section Safety.
Context {metadata : Type} `{EqDecision metadata}.
Variable project_path : metadata -> str.

Abbreviation job := (@job metadata).
Abbreviation manager := (@manager metadata).
Abbreviation recorder := (@recorder metadata).
Abbreviation job_data := (@job_data metadata).
Abbreviation label := (@label metadata).
Abbreviation step := (Background.step project_path).
Abbreviation run := (Background.run project_path).

Implicit Types (m : manager) (j : job) (r : recorder) (l : label).

(** A session without background jobs so far. *)
Definition no_jobs_yet r : Prop :=
  Forall (fun e => host_event (body e) = true \/ body e = EpochStarted) (events r).

Inductive reach : manager -> Prop :=
| reach_init rc a b :
    1 <= a -> 1 <= b -> (forall r, rc = Some r -> no_jobs_yet r) -> reach (init rc a b)
| reach_step m l m' : reach m -> step l m = Some m' -> reach m'.

Lemma no_jobs_wf r : no_jobs_yet r -> journal_wf r /\ inserted_once r.
Proof.
  intros Hn. split.
  - intros ep id rw. enough (foldl (row_step ep) [] (events r) = []) as -> by done.
    unfold no_jobs_yet in Hn. induction (events r) as [|e es IH] using rev_ind; [done|].
    apply Forall_app in Hn as [Hes He]. rewrite foldl_app, IH by done. simpl. unfold row_step.
    destruct (negb _); [done|]. inversion He as [|? ? Hb _]; subst. by destruct (body e); destruct Hb.
  - intros ep. enough (omap (inserted_cid ep) (events r) = []) as -> by apply NoDup_nil_2.
    unfold no_jobs_yet in Hn. induction Hn as [|e es Hb _ IH]; [done|]. simpl. unfold inserted_cid at 1.
    destruct (in_epoch ep e); [|done]. destruct (body e) as [| | |[]| | | |]; try done. by destruct Hb.
Qed.

Lemma reach_inv m : reach m -> inv m /\ cap m.
Proof.
  induction 1 as [rc a b Ha Hb Hr|m l m' _ [Hi Hc] Hs].
  - split; [by apply init_inv; intros r Hr'; apply no_jobs_wf, Hr|].
    split; simpl; rewrite ?count_none; try done; lia.
  - split; [by eapply step_inv|by eapply step_cap].
Qed.

Lemma reach_run ls m m' : reach m -> run ls m = Some m' -> reach m'.
Proof.
  unfold Background.run. revert m. induction ls as [|l ls IH]; intros m Hr Hs; simpl in Hs; [by injection Hs as <-|].
  destruct (step l m) as [m1|] eqn:E; [|exfalso; clear -Hs; by induction ls].
  eapply IH; [by eapply reach_step|exact Hs].
Qed.

Lemma run_cons l ls m m1 : step l m = Some m1 -> run (l :: ls) m = run ls m1.
Proof. intros Hs. unfold Background.run. simpl. by rewrite Hs. Qed.

(** ** Tasks run to their end *)

Definition rank m : Z :=
  4 * count (fun t => match t with Created => true | _ => false end) (jobs m)
  + 3 * count (fun t => match t with WaitSlot _ => true | _ => false end) (jobs m)
  + 2 * count holding (jobs m)
  + count (fun t => match t with Persisting => true | _ => false end) (jobs m).

Lemma count_nonneg (p : task_state -> bool) (js : gmap (list Z) job) : 0 <= count p js.
Proof. apply len_nonneg. Qed.

Lemma count_pos (p : task_state -> bool) (js : gmap (list Z) job) id j : js !! id = Some j -> p (jtask j) = true -> 0 < count p js.
Proof.
  intros Hj Hp. rewrite <- (insert_delete_id js id j Hj). rewrite count_new by apply lookup_delete_eq.
  pose proof (count_nonneg p (delete id js)). rewrite Hp. simpl. lia.
Qed.

Lemma count_witness (p : task_state -> bool) (js : gmap (list Z) job) : 0 < count p js -> exists id j, js !! id = Some j /\ p (jtask j) = true.
Proof.
  unfold count. intros Hc. destruct (List.filter _ _) as [|[id j] l] eqn:E; [done|].
  assert ((id, j) ∈ (id, j) :: l) as Hin by left. rewrite <- E, list_elem_of_In, filter_In, <- list_elem_of_In in Hin.
  destruct Hin as [Hin Hp]. apply elem_of_map_to_list in Hin. eauto.
Qed.

Lemma rank_nonneg m : 0 <= rank m.
Proof. unfold rank. pose proof (fun p => count_nonneg p (jobs m)) as H. pose proof (H holding).
  pose proof (H (fun t => match t with Created => true | _ => false end)).
  pose proof (H (fun t => match t with WaitSlot _ => true | _ => false end)).
  pose proof (H (fun t => match t with Persisting => true | _ => false end)). lia. Qed.

Lemma rank_active m : rank m <= 4 * active_count m.
Proof.
  unfold rank, active_count, count. induction (map_to_list (jobs m)) as [|[id j] l IH]; [done|].
  cbn [List.filter snd]. destruct (jtask j); cbn [active holding]; rewrite ?len_cons; lia.
Qed.

(** The steps of the tasks, with what the children do and which writes fail. *)
Inductive task_label (out : str -> run_outcome) (wr : str -> write) : label -> Prop :=
| task_start id : task_label out wr (Start id)
| task_acquire id : task_label out wr (Acquire id)
| task_cancelled id : task_label out wr (CancelWait id)
| task_run id : task_label out wr (RunEnd id (out id))
| task_persist id : task_label out wr (Persist id (wr id)).

Definition task_rank (t : task_state) : Z :=
  match t with Created => 4 | WaitSlot _ => 3 | Holding _ => 2 | Persisting => 1 | _ => 0 end.

Lemma rank_put m m' id j j' :
  jobs m !! id = Some j -> jobs m' = <[id := j']> (jobs m) -> rank m' = rank m - task_rank (jtask j) + task_rank (jtask j').
Proof.
  intros Hj Hm. unfold rank. rewrite Hm, !(count_old _ _ _ j) by done.
  destruct (jtask j), (jtask j'); simpl; lia.
Qed.

Lemma task_progress out wr m :
  inv m -> cap m -> 0 < active_count m -> exists l m', task_label out wr l /\ step l m = Some m' /\ rank m' < rank m.
Proof.
  intros Hi Hc Ha. destruct (count_witness active (jobs m) Ha) as (id & j & Hj & Hact).
  assert (forall id j l m' j', jobs m !! id = Some j -> task_label out wr l -> step l m = Some m' ->
    jobs m' = <[id := j']> (jobs m) -> task_rank (jtask j') < task_rank (jtask j) ->
    exists l m', task_label out wr l /\ step l m = Some m' /\ rank m' < rank m) as Hgo.
  { intros x y l m' j' Hx Hl Hs Hm Hrk. exists l, m'. split_and!; [done|done|]. rewrite (rank_put m m' x y j') by done. lia. }
  assert (forall x y b, jobs m !! x = Some y -> jtask y = Holding b ->
    exists l m', task_label out wr l /\ step l m = Some m' /\ rank m' < rank m) as Hhold.
  { intros x y b Hx Hy. destruct (outcome_of (out x)) as [s res] eqn:Eo.
    refine (Hgo x y _ _ _ Hx (task_run out wr x) _ _ _);
      [unfold_step_goal; rewrite Hx; simpl; rewrite Hy, Eo; reflexivity|reflexivity|by rewrite Hy]. }
  destruct (jtask j) as [| |[]|b| |] eqn:Et; try done.
  - destruct (cancel_requested j) eqn:Ecr;
      (refine (Hgo id j _ _ _ Hj (task_start out wr id) _ _ _);
       [unfold_step_goal; rewrite Hj; simpl; rewrite Et, Ecr; reflexivity|reflexivity|by rewrite Et]).
  - refine (Hgo id j _ _ _ Hj (task_cancelled out wr id) _ _ _);
      [unfold_step_goal; rewrite Hj; simpl; rewrite Et; reflexivity|reflexivity|by rewrite Et].
  - destruct (0 <? free_slots m) eqn:Ef.
    + refine (Hgo id j _ _ _ Hj (task_acquire out wr id) _ _ _);
        [unfold_step_goal; rewrite Hj; simpl; rewrite Et, Ef; reflexivity|reflexivity|by rewrite Et].
    + apply Z.ltb_ge in Ef. destruct Hc as [Hp _ Hs _ _].
      destruct (count_witness holding (jobs m)) as (x & y & Hx & Hy); [lia|].
      destruct (jtask y) eqn:Ety; try done. by eapply Hhold.
  - by eapply Hhold.
  - destruct (_persist_outcome project_path (wr id) id (mkJob (data j) Finished (started j) (cancel_requested j) (persisted j)) m)
      as [x m1] eqn:Ex.
    destruct (inv_active m id j Hi Hj ltac:(by rewrite Et)) as (Hp & _ & _).
    destruct (persist_cases project_path (wr id) id (mkJob (data j) Finished (started j) (cancel_requested j) (persisted j))
      m x m1 Hp Ex) as (rc & Hm1 & _).
    destruct x as [[]|e].
    + refine (Hgo id j _ _ _ Hj (task_persist out wr id) _ _ _);
        [unfold_step_goal; rewrite Hj; simpl; rewrite Et, Ex; reflexivity|rewrite Hm1; reflexivity|by rewrite Et].
    + refine (Hgo id j _ _ _ Hj (task_persist out wr id) _ _ _);
        [unfold_step_goal; rewrite Hj; simpl; rewrite Et, Ex; reflexivity|rewrite Hm1; reflexivity|by rewrite Et].
Qed.

Lemma tasks_quiesce out wr m :
  reach m -> exists ls m', Forall (task_label out wr) ls /\ run ls m = Some m' /\ active_count m' = 0 /\ len ls <= rank m.
Proof.
  remember (Z.to_nat (rank m)) as n eqn:Hn. revert m Hn. induction (lt_wf n) as [n _ IH]. intros m -> Hr.
  destruct (reach_inv m Hr) as [Hi Hc]. pose proof (rank_nonneg m) as Hrk.
  destruct (Z.eq_dec (active_count m) 0) as [Hz|Hz]; [exists [], m; split_and!; auto; by apply Forall_nil_2|].
  pose proof (count_nonneg active (jobs m)) as Hnn. change (count active (jobs m)) with (active_count m) in Hnn.
  destruct (task_progress out wr m Hi Hc ltac:(lia)) as (l & m1 & Hl & Hs & Hlt).
  pose proof (rank_nonneg m1).
  destruct (IH (Z.to_nat (rank m1)) ltac:(lia) m1 eq_refl ltac:(by eapply reach_step)) as (ls & m' & Hls & Hrun & Hz' & Hlen).
  exists (l :: ls), m'. split_and!; [by constructor|by rewrite (run_cons _ _ _ m1)|done|]. rewrite len_cons. lia.
Qed.

(** ** Recovery from the journal *)

Definition restored (d : job_data) : job_data := if terminal (status d) then d else with_outcome Interrupted INTERRUPTED d.
Definition undelivered (d : job_data) : bool := negb (terminal (status d) && delivered d).
Definition unsettled_row (d : job_data) : bool := negb (terminal (status d)).

(** The rows still to be processed are those of the journal. *)
Definition rows_pending r (ep : str) (rs : list job_data) : Prop :=
  stamp_depth r = 0 /\ NoDup (map job_id rs) /\
  forall d, d ∈ rs -> exists jd art, dict_get (foldl (row_step ep) [] (events r)) (job_id d) = Some (jd, art) /\
    status jd = status d /\ (terminal (status d) = false -> status d = Queued).

Lemma rows_pending_tail r ep d rs : rows_pending r ep (d :: rs) -> rows_pending r ep rs.
Proof. intros (Hd & Hn & Hr). inversion Hn; subst. split_and!; [done|done|]. intros d' Hd'. apply Hr. by right. Qed.

Lemma interrupt_written r ep d rs :
  rows_pending r ep (d :: rs) -> terminal (status d) = false ->
  exists r', record_background_job_terminal project_path Written r (with_outcome Interrupted INTERRUPTED d) ep = (Ok tt, r')
    /\ rows_pending r' ep rs.
Proof.
  intros (Hd & Hn & Hr) Ht. inversion Hn as [|? ? Hnin Hn']; subst.
  destruct (Hr d ltac:(left)) as (jd & art & Hg & Hs & Hq). specialize (Hq Ht).
  unfold record_background_job_terminal, read_background_jobs. rewrite Hd. cbn [negb Z.eqb].
  change (terminal (status (with_outcome Interrupted INTERRUPTED d))) with true. cbn [negb].
  rewrite find_row by apply rows_keyed. cbn [with_outcome job_id]. rewrite Hg, Hs, Hq.
  rewrite bool_decide_eq_true_2 by done. eexists. split; [reflexivity|].
  split_and!; [done|done|]. intros d' Hd'. destruct (Hr d' ltac:(by right)) as (jd' & art' & Hg' & ?).
  exists jd', art'. rewrite row_frame; [done|]. cbn [terminal_event job_of job_id]. intros [= He]. apply Hnin.
  rewrite He. by apply list_elem_of_fmap_2.
Qed.

(** What recovery makes of the state [m] and the rows [rs]. *)
Record recovers (rs : list job_data) m m' : Prop := mkRecovers {
  rv_recovered : recovered m' = true;
  rv_oper : oper m' = Idle;
  rv_pending : pending m' = pending m ++ map job_id (List.filter undelivered rs);
  rv_jobs : forall d, d ∈ rs -> jobs m' !! job_id d = Some (mkJob (restored d) NoTask false false true);
  rv_other : forall id, id ∉ map job_id rs -> jobs m' !! id = jobs m !! id;
  rv_live : live m' = live m
}.

Lemma recovers_cons d rs m m1 m' :
  NoDup (map job_id (d :: rs)) ->
  jobs m1 = <[job_id d := mkJob (restored d) NoTask false false true]> (jobs m) ->
  pending m1 = pending m ++ (if undelivered d then [job_id d] else []) -> live m1 = live m ->
  recovers rs m1 m' -> recovers (d :: rs) m m'.
Proof.
  intros Hnd Hj Hp Hl [H1 H2 H3 H4 H5 H6]. inversion Hnd; subst. split; [done|done| | | |congruence].
  - rewrite H3, Hp. simpl. rewrite <- app_assoc. by destruct (undelivered d).
  - intros d' [->|Hd']%elem_of_cons; [|by apply H4]. by rewrite H5, Hj, lookup_insert_eq by done.
  - intros id Hid. simpl in Hid. rewrite not_elem_of_cons in Hid. destruct Hid. by rewrite H5, Hj, lookup_insert_ne by done.
Qed.

Lemma recover_rows_run rs m r :
  rec m = Some r -> rows_pending r (m_epoch m) rs -> (forall d, d ∈ rs -> job_id d ∉ pending m) ->
  exists m', run (replicate (length (List.filter unsettled_row rs)) (RecoverWrite Written)) (recover_rows rs m) = Some m'
    /\ recovers rs m m'.
Proof.
  revert m r. induction rs as [|d rs IH]; intros m r Er Hrp Hnp.
  { eexists. split; [reflexivity|]. split; try done; [by rewrite app_nil_r|intros ? Hx; inversion Hx]. }
  pose proof Hrp as (_ & Hnd & _). inversion Hnd as [|? ? Hnin Hnd']; subst.
  assert (forall m1 (r1 : recorder), rec m1 = Some r1 -> rows_pending r1 (m_epoch m) rs -> m_epoch m1 = m_epoch m ->
    jobs m1 = <[job_id d := mkJob (restored d) NoTask false false true]> (jobs m) ->
    pending m1 = pending m ++ (if undelivered d then [job_id d] else []) -> live m1 = live m ->
    exists m', run (replicate (length (List.filter unsettled_row rs)) (RecoverWrite Written)) (recover_rows rs m1) = Some m'
      /\ recovers (d :: rs) m m') as Hnext.
  { intros m1 r1 Er1 Hrp1 Hep Hj Hp Hl. destruct (IH m1 r1 Er1) as (m' & Hrun & Hrec); [by rewrite Hep| |].
    - intros d' Hd'. rewrite Hp, elem_of_app. intros [Hin|Hin]; [by apply (Hnp d'); [right|]|].
      destruct (undelivered d); [|inversion Hin]. apply list_elem_of_singleton in Hin. apply Hnin. rewrite <- Hin.
      by apply list_elem_of_fmap_2.
    - exists m'. split; [done|]. by eapply recovers_cons. }
  assert (add_key (job_id d) (pending m) = pending m ++ [job_id d]) as Hadd.
  { unfold add_key. destruct (str_in (job_id d) (pending m)) eqn:E; [|done]. apply str_in_spec in E.
    by destruct (Hnp d ltac:(left)). }
  cbn [recover_rows List.filter]. unfold unsettled_row at 1. unfold restored, undelivered in Hnext.
  destruct (terminal (status d)) eqn:Et; cbn [negb].
  - destruct (delivered d) eqn:Ed; cbn [andb negb] in Hnext;
      (eapply Hnext; [exact Er|by eapply rows_pending_tail|reflexivity|reflexivity| |reflexivity]).
    + by rewrite app_nil_r.
    + exact Hadd.
  - cbn [length replicate]. destruct (interrupt_written _ _ _ _ Hrp Et) as (r' & Hw & Hrp').
    set (j := mkJob (with_outcome Interrupted INTERRUPTED d) NoTask false false false).
    set (m1 := set_pending (add_key (job_id d) (pending m))
      (put_job (job_id d) (mkJob (data j) (jtask j) (started j) (cancel_requested j) true)
         (set_rec (Some r') (set_oper (Recovering (d :: rs)) (put_job (job_id d) j m))))).
    destruct (Hnext m1 r') as (m' & Hrun & Hrec); try done.
    { simpl. by rewrite insert_insert_eq. }
    exists m'. split; [|done]. erewrite run_cons; [exact Hrun|]. unfold_step_goal.
    cbn [set_oper oper put_job set_jobs jobs]. rewrite lookup_insert_eq. cbn [mbind option_bind].
    unfold _persist_outcome, write_outcome. cbn [persisted j rec set_oper put_job set_jobs data]. rewrite Er.
    change (m_epoch (set_oper _ _)) with (m_epoch m). rewrite Hw. reflexivity.
Qed.

Lemma read_rows_pending r ep rs :
  journal_wf r -> read_background_jobs project_path r ep = Ok rs -> rows_pending r ep rs.
Proof.
  unfold read_background_jobs. intros Hw Hrd. destruct (stamp_depth r =? 0) eqn:Ed; [|done]. apply Z.eqb_eq in Ed.
  cbn [negb] in Hrd. injection Hrd as <-. pose proof (rows_keyed ep (events r)) as Hk.
  split_and!; [done|rewrite map_job_id_rows by done; apply Hk|]. intros d Hd.
  apply list_elem_of_fmap in Hd as ([k [d0 art]] & -> & Hin).
  destruct (row_lookup _ _ _ _ Hk Hin) as [Hg <-]. exists d0, art. split_and!; [exact Hg|done|].
  intros Ht. destruct (Hw _ _ _ Hg) as [_ [[? _]|Ht']]; [done|]. simpl in *. congruence.
Qed.

(** ** Properties *)

(** The limits of the manager hold at every moment, in every interleaving
    of its tasks and operations: no more than [max_running] children run at once
    (each holds one slot of the semaphore, and no slot is lost or made), and no
    more than [max_jobs] jobs are queued, running or settling. *)
Theorem background_capacity m :
  reach m ->
  0 <= free_slots m /\ free_slots m + count holding (jobs m) = max_running m /\
  count holding (jobs m) <= max_running m /\ active_count m <= max_jobs m.
Proof.
  intros Hr. destruct (reach_inv m Hr) as [_ [Hp Hf Hs [_ Hj] _]]. split_and!; [done|done|lia|exact Hj].
Qed.

(** No outcome is lost: in every reachable state a job whose task has ended
    is either reported as a failed commit and kept for a retry, or settled, and
    then its report is in the mailbox or delivered and the journal holds its
    status and its whole result; conversely the mailbox holds settled jobs only,
    each once. *)
Theorem background_no_outcome_lost m :
  reach m ->
  (forall id j, jobs m !! id = Some j -> jtask j = Finished ->
     terminal (status (data j)) = true /\
     ((persisted j = false /\ id ∈ errors m) \/
      (persisted j = true /\ (id ∈ pending m \/ delivered (data j) = true) /\
       forall r, rec m = Some r -> durable r (m_epoch m) id (status (data j)) (job_result (data j))))) /\
  NoDup (pending m) /\
  (forall id, id ∈ pending m -> exists j, jobs m !! id = Some j /\ persisted j = true /\ terminal (status (data j)) = true).
Proof.
  intros Hr. destruct (reach_inv m Hr) as [[Hc Hd _] _]. split_and!.
  - intros id j Hj Ht. pose proof (core_state _ _ _ _ _ Hc _ _ Hj) as Hok. unfold state_ok in Hok. rewrite Ht in Hok.
    split; [done|]. destruct (persisted j) eqn:Hp.
    + right. split_and!; [done|by eapply core_settled|]. intros r Hr'. eapply du_durable; eauto.
    + left. split; [done|]. by eapply core_failed.
  - apply Hc.
  - intros id (j & Hj & Hp)%(core_pending _ _ _ _ _ Hc). exists j. split_and!; [done|done|].
    by eapply core_terminal.
Qed.

(** C7: A report enters the live history of the agent at most once, never while
    it is still in the mailbox, and only after its insertion is in the journal;
    and the journal of an epoch never inserts the same completion twice, across
    any number of failed or half-failed writes, retries and restarts. *)
Theorem background_exactly_once m :
  reach m ->
  NoDup (map fst (live m)) /\
  (forall id, id ∈ map fst (live m) -> id ∉ pending m /\
     exists j, jobs m !! id = Some j /\ delivered (data j) = true /\
       forall r, rec m = Some r -> is_inserted r (m_epoch m) (completion_id (data j))) /\
  (forall r ep, rec m = Some r -> NoDup (omap (inserted_cid ep) (events r))).
Proof.
  intros Hr. destruct (reach_inv m Hr) as [[Hc Hd _] _]. split_and!; [apply Hc| |].
  - intros id Hid. destruct (core_live _ _ _ _ _ Hc _ Hid) as (Hn & j & Hj & _ & Hdl). split; [done|].
    exists j. split_and!; [done|done|]. intros r Hr'. destruct (du_live _ _ _ _ (Hd r Hr') _ Hid) as (j' & Hj' & Hi).
    by simplify_eq.
  - intros r ep Hr'. apply (du_once _ _ _ _ (Hd r Hr')).
Qed.

(** C8: Whatever has happened before, a process that dies and restarts over the
    same journal recovers when its writes succeed: after one write per
    unfinished job, every job of the epoch is back, an unfinished one as
    interrupted, and the mailbox holds, in order of admission, exactly those
    whose report was not inserted; a job that had been settled comes back with
    the same status and result. *)
Theorem background_recovery m r running_limit jobs_limit rs :
  reach m -> rec m = Some r -> 1 <= running_limit -> 1 <= jobs_limit ->
  read_background_jobs project_path r (journal_epoch r) = Ok rs ->
  exists m',
    run (Restart running_limit jobs_limit :: Recover
         :: replicate (length (List.filter unsettled_row rs)) (RecoverWrite Written)) m = Some m' /\
    recovered m' = true /\ oper m' = Idle /\ live m' = [] /\
    pending m' = map job_id (List.filter undelivered rs) /\
    (forall d, d ∈ rs -> jobs m' !! job_id d = Some (mkJob (restored d) NoTask false false true)) /\
    (forall id j, jobs m' !! id = Some j -> id ∈ map job_id rs) /\
    (m_epoch m = journal_epoch r -> forall id j, jobs m !! id = Some j -> persisted j = true ->
       exists j', jobs m' !! id = Some j' /\ status (data j') = status (data j) /\ job_result (data j') = job_result (data j)).
Proof.
  intros Hr Er Ha Hb Hrd. destruct (reach_inv m Hr) as [[Hc Hd _] _]. pose proof (Hd r Er) as Hdu.
  set (r0 := mkRecorder (stamp_depth r) (events r) (journal_epoch r) false).
  assert (read_background_jobs project_path r0 (journal_epoch r) = Ok rs) as Hrd0 by exact Hrd.
  assert (journal_wf r0) as Hw0 by (destruct Hdu as [Hw _ _ _ _]; exact Hw).
  destruct (recover_rows_run rs (init (Some r0) running_limit jobs_limit) r0) as (m' & Hrun & [H1 H2 H3 H4 H5 H6]);
    [done|by apply read_rows_pending|by intros d _ Hx; inversion Hx|].
  exists m'. split_and!; [|done|done|done|done|done| |].
  - rewrite (run_cons _ _ m (init (Some r0) running_limit jobs_limit)); [rewrite (run_cons _ _ _ (recover_rows rs (init (Some r0) running_limit jobs_limit))); [exact Hrun|]|].
    + change (step Recover (init (Some r0) running_limit jobs_limit)) with
        (Some match read_background_jobs project_path r0 (journal_epoch r) with
              | Ok rows => recover_rows rows (init (Some r0) running_limit jobs_limit)
              | Raise _ => init (Some r0) running_limit jobs_limit
              end). by rewrite Hrd0.
    + unfold_step_goal. rewrite Er. destruct (Z.ltb_spec running_limit 1), (Z.ltb_spec jobs_limit 1); (lia || reflexivity).
  - intros id j Hj. destruct (decide (id ∈ map job_id rs)) as [|Hn]; [done|]. rewrite H5 in Hj by done. done.
  - intros Hep id j Hj Hp. destruct (du_durable _ _ _ _ Hdu _ _ Hj Hp) as (jd & art & Hg & Hs & Hres). rewrite Hep in Hg.
    assert (exists d, d ∈ rs /\ job_id d = id /\ status d = status jd /\
      job_result d = match art with Some t => t | None => job_result jd end) as (d & Hin & Hid & Hsd & Hrd').
    { unfold read_background_jobs in Hrd. destruct (negb _); [done|]. injection Hrd as <-.
      apply dict_get_elem in Hg. eexists. split; [by apply list_elem_of_fmap_2|]. cbn.
      destruct (rows_keyed (journal_epoch r) (events r)) as [Hf _]. rewrite Forall_forall in Hf. split_and!; auto.
      by apply (Hf (id, (jd, art))). }
    subst id. exists (mkJob (restored d) NoTask false false true). split; [by apply H4|]. simpl. unfold restored.
    assert (terminal (status d) = true) as ->; [|split; congruence].
    rewrite Hsd, Hs. by eapply core_terminal.
Qed.

(** The tasks never block each other: from every reachable state, whatever
    the children return and whichever of the writes fail, the tasks have a
    schedule that ends all of them, of at most four steps per queued or running
    job. *)
Theorem background_quiesces m (out : str -> run_outcome) (wr : str -> write) :
  reach m ->
  exists ls m', Forall (task_label out wr) ls /\ run ls m = Some m' /\ active_count m' = 0 /\
    len ls <= rank m /\ rank m <= 4 * active_count m.
Proof.
  intros Hr. destruct (tasks_quiesce out wr m Hr) as (ls & m' & H1 & H2 & H3 & H4). exists ls, m'.
  split_and!; auto using rank_active.
Qed.
End Safety.

(** ** A concrete session

    Two jobs; the write of the first outcome fails after its event reached the
    file, a delivery retries it and inserts the report; the second job still
    runs. *)

Definition no_path (_ : unit) : str := [].
Definition job_a : str := lit "a".
Definition job_b : str := lit "b".
Definition sample_recorder : @recorder unit := mkRecorder 0 [mkEvent 1 (lit "e1") 0 EpochStarted] (lit "e1") false.
Definition sample_start : @manager unit := init (Some sample_recorder) 8 50.
Definition sample_labels : list (@label unit) :=
  [Recover; Submit job_a (lit "c1") (lit "coder") (lit "task") tt; AdmitWrite Written;
   Submit job_b (lit "c2") (lit "coder") (lit "task") tt; AdmitWrite Written;
   Start job_a; Acquire job_a; Start job_b; Acquire job_b;
   RunEnd job_a (Returned (lit "done")); Persist job_a WrittenThenRaised;
   Deliver false false; Retry Written; Retry Written; Prepare false false; ReadRows;
   DeliverNext; Commit Written false; DeliverNext].
Definition sample_session : @manager unit :=
  match Background.run no_path sample_labels sample_start with Some m => m | None => sample_start end.

Lemma sample_reach : reach no_path sample_session.
Proof.
  eapply (reach_run no_path sample_labels sample_start); [|by vm_compute].
  apply reach_init; [done|done|]. intros r [= <-]. constructor; [by right|constructor].
Qed.

Lemma background_capacity_witness :
  count holding (jobs sample_session) = 1 /\ active_count sample_session = 1 /\
  free_slots sample_session + count holding (jobs sample_session) = max_running sample_session.
Proof.
  split; [by vm_compute|]. split; [by vm_compute|].
  exact (proj1 (proj2 (background_capacity no_path sample_session sample_reach))).
Defined.

Lemma background_no_outcome_lost_witness :
  exists j, jobs sample_session !! job_a = Some j /\ jtask j = Finished /\ status (data j) = Completed /\
    terminal (status (data j)) = true.
Proof.
  destruct (jobs sample_session !! job_a) as [j|] eqn:E; [|by vm_compute in E].
  assert (jtask j = Finished /\ status (data j) = Completed) as [Ht Hs] by (vm_compute in E; by injection E as <-).
  exists j. split; [reflexivity|]. split; [exact Ht|]. split; [exact Hs|].
  exact (proj1 (proj1 (background_no_outcome_lost no_path sample_session sample_reach) job_a j E Ht)).
Defined.

Lemma background_exactly_once_witness :
  map fst (live sample_session) = [job_a] /\ job_a ∉ pending sample_session.
Proof.
  assert (map fst (live sample_session) = [job_a]) as Hl by (by vm_compute). split; [exact Hl|].
  apply (background_exactly_once no_path sample_session sample_reach). rewrite Hl. left.
Defined.

(** The process dies in this session: the second job comes back interrupted. *)
Lemma background_recovery_witness :
  exists m', Background.run no_path [Restart 8 50; Recover; RecoverWrite Written] sample_session = Some m' /\
    pending m' = [job_b] /\ recovered m' = true.
Proof.
  destruct (rec sample_session) as [r|] eqn:Er; [|by vm_compute in Er].
  destruct (read_background_jobs no_path r (journal_epoch r)) as [rs|] eqn:Erd;
    [|exfalso; vm_compute in Er; injection Er as <-; by vm_compute in Erd].
  assert (length (List.filter unsettled_row rs) = 1%nat /\ map job_id (List.filter undelivered rs) = [job_b]) as [H1 H2]
    by (vm_compute in Er; injection Er as <-; vm_compute in Erd; injection Erd as <-; by vm_compute).
  destruct (background_recovery no_path sample_session r 8 50 rs sample_reach Er ltac:(lia) ltac:(lia) Erd)
    as (m' & Hrun & Hrc & _ & _ & Hp & _).
  exists m'. rewrite H1 in Hrun. rewrite H2 in Hp. split; [exact Hrun|]. split; [exact Hp|exact Hrc].
Defined.

Lemma background_quiesces_witness :
  exists ls m', Background.run no_path ls sample_session = Some m' /\ active_count m' = 0.
Proof.
  destruct (background_quiesces no_path sample_session (fun _ => RaisedCancelled) (fun _ => Lost) sample_reach)
    as (ls & m' & _ & H1 & H2 & _). exists ls, m'. split; [exact H1|exact H2].
Defined.
