(* ===== verification/Framing.v ===== *)
(** * Native message framing

    Models [kolega_code/browser_extension/framing.py]: JSON objects behind a
    little-endian length, read from and written to byte streams.

    A stream to read from is the list of the pieces its [read] will return, each
    cut to the size asked for, an empty piece being the end of the stream; the
    stream reader of asyncio is the bytes that will arrive before the end.  A
    stream to write to is the list of the counts its [write] will return, and
    takes everything once the list is used up. *)

From stdpp Require Import base list strings numbers.
From Stdlib Require Import ZArith Lia.
From S2P Require Import Prelude PyStr Utf8 PyVal Json.

Definition MAX_NATIVE_MESSAGE_BYTES : Z := 1048576.
Definition MAX_NATIVE_INBOUND_MESSAGE_BYTES : Z := 67108864.

Inductive framing_error :=
| NotSerializable
| MessageTooLarge
| TruncatedMessage
| InvalidUtf8
| InvalidJson
| Rejected                (* a duplicate key or a non-finite number *)
| NotAnObject
| NotWritten
| StructError             (* struct.error: the length needs more than 32 bits *)
| ValueError.             (* a plain ValueError, not a framing failure *)

(** [struct.Struct("<I")]. *)
Definition pack (n : Z) : result framing_error bytes :=
  if n <? 2 ^ 32 then Ok [n mod 256; n / 256 mod 256; n / 65536 mod 256; n / 16777216 mod 256] else Raise StructError.
Definition unpack (b : bytes) : Z :=
  match b with [a; b; c; d] => a + 256 * b + 65536 * c + 16777216 * d | _ => 0 end.
Definition HEADER_SIZE : Z := 4.

Section Framing.
Variable float_repr : Z -> Z -> str.
Variable parse_float : str -> value.

(** ** JSON *)

Definition _reject_duplicate_keys (pairs : list (str * value)) : result json_error value :=
  d ← foldM (fun d kv => if dict_has d kv.1 then Raise HookRaised else Ok (dict_set d kv.1 kv.2)) pairs [];
  Ok (VDict d).
Definition _reject_constant (name : str) : result json_error value := Raise HookRaised.

Definition _decode_object (b : bytes) : result framing_error (list (str * value)) :=
  match decode_strict b with
  | None => Raise InvalidUtf8
  | Some text =>
      match loads parse_float _reject_duplicate_keys _reject_constant text with
      | Ok (VDict d) => Ok d
      | Ok _ => Raise NotAnObject
      | Raise HookRaised => Raise Rejected
      | Raise IntTooLong => Raise ValueError
      | Raise _ => Raise InvalidJson
      end
  end.

(** The interpreter prints no integer of more than 4300 digits. *)
Fixpoint ints_ok (v : value) : bool :=
  match v with
  | VInt n => int_digits (dec n) <=? 4300
  | VList l => forallb ints_ok l
  | VDict d => forallb (fun kv => ints_ok kv.2) d
  | _ => true
  end.

Definition encode_message (message : list (str * value)) (max_bytes : Z) : result framing_error bytes :=
  if max_bytes <=? 0 then Raise ValueError
  else if negb (ints_ok (VDict message)) then Raise NotSerializable
  else
    let text := dumps float_repr false [44] [58] (VDict message) in
    if negb (forallb scalar text) then Raise NotSerializable
    else
      let payload := utf8 text in
      if max_bytes <? len payload then Raise MessageTooLarge
      else header ← pack (len payload); Ok (header ++ payload).

(** ** Reading *)

(** [stream.read(n)]. *)
Definition read (stream : list bytes) (n : Z) : bytes * list bytes :=
  match stream with
  | [] => ([], [])
  | c :: rest => if len c <=? n then (c, rest) else (slice_to c n, slice_from c n :: rest)
  end.

(** The loop of [_read_exact] with [need] bytes to go: every round but the last
    brings at least one. *)
Fixpoint read_loop (fuel : nat) (stream : list bytes) (need : Z) (chunks : bytes) : option (bytes * list bytes) :=
  if need <=? 0 then Some (chunks, stream)
  else match fuel with
       | O => None
       | S fuel' =>
           let '(chunk, stream') := read stream need in
           if nonempty chunk then read_loop fuel' stream' (need - len chunk) (chunks ++ chunk) else None
       end.

(** [Ok None]: a clean end of the stream. *)
Definition _read_exact (stream : list bytes) (size : Z) (allow_clean_eof : bool)
    : result framing_error (option bytes * list bytes) :=
  match read_loop (Z.to_nat size) stream size [] with
  | Some (b, stream') => Ok (Some b, stream')
  | None =>
      if allow_clean_eof && negb (nonempty (fst (read stream size))) then Ok (None, snd (read stream size))
      else Raise TruncatedMessage
  end.

Definition read_message (stream : list bytes) (max_bytes : Z)
    : result framing_error (option (list (str * value)) * list bytes) :=
  if max_bytes <=? 0 then Raise ValueError
  else
    '(header, stream) ← _read_exact stream HEADER_SIZE true;
    match header with
    | None => Ok (None, stream)
    | Some header =>
        let length := unpack header in
        if max_bytes <? length then Raise MessageTooLarge
        else
          '(payload, stream) ← _read_exact stream length false;
          d ← _decode_object (default [] payload);
          Ok (Some d, stream)
    end.

(** A consumer: messages until the end of the stream. *)
Fixpoint read_all (fuel : nat) (stream : list bytes) (max_bytes : Z) : result framing_error (list (list (str * value))) :=
  match fuel with
  | O => Ok []
  | S fuel' =>
      '(m, stream) ← read_message stream max_bytes;
      match m with
      | None => Ok []
      | Some m => ms ← read_all fuel' stream max_bytes; Ok (m :: ms)
      end
  end.

(** [reader.readexactly(n)]: the bytes, or the partial rest at the end. *)
Definition readexactly (reader : bytes) (n : Z) : result bytes (bytes * bytes) :=
  if n <=? len reader then Ok (slice_to reader n, slice_from reader n) else Raise reader.

Definition read_message_async (reader : bytes) (max_bytes : Z)
    : result framing_error (option (list (str * value)) * bytes) :=
  if max_bytes <=? 0 then Raise ValueError
  else match readexactly reader HEADER_SIZE with
       | Raise partial => if nonempty partial then Raise TruncatedMessage else Ok (None, [])
       | Ok (header, reader) =>
           let length := unpack header in
           if max_bytes <? length then Raise MessageTooLarge
           else match readexactly reader length with
                | Raise _ => Raise TruncatedMessage
                | Ok (payload, reader) => d ← _decode_object payload; Ok (Some d, reader)
                end
       end.

(** The same consumer on the other reader. *)
Fixpoint read_all_async (fuel : nat) (reader : bytes) (max_bytes : Z) : result framing_error (list (list (str * value))) :=
  match fuel with
  | O => Ok []
  | S fuel' =>
      '(m, reader) ← read_message_async reader max_bytes;
      match m with
      | None => Ok []
      | Some m => ms ← read_all_async fuel' reader max_bytes; Ok (m :: ms)
      end
  end.

(** ** Writing *)

(** The loop of [_write_all]: what has reached the stream, and the counts that
    [write] has yet to return. *)
Fixpoint write_loop (fuel : nat) (counts : list (option Z)) (data sink : bytes) : result framing_error bytes :=
  match data with
  | [] => Ok sink
  | _ =>
      match fuel with
      | O => Ok sink
      | S fuel' =>
          match counts with
          | [] | None :: _ => Ok (sink ++ data)
          | Some n :: counts' =>
              if n <=? 0 then Raise NotWritten
              else write_loop fuel' counts' (slice_from data n) (sink ++ slice_to data n)
          end
      end
  end.
Definition _write_all (counts : list (option Z)) (data : bytes) : result framing_error bytes :=
  write_loop (length data) counts data [].

Definition write_message (counts : list (option Z)) (message : list (str * value)) (max_bytes : Z)
    : result framing_error bytes :=
  data ← encode_message message max_bytes; _write_all counts data.

(** What has reached the writer after [drain]. *)
Definition write_message_async (written : bytes) (message : list (str * value)) (max_bytes : Z)
    : result framing_error bytes :=
  data ← encode_message message max_bytes; Ok (written ++ data).

(** A stream to which messages are written by either writer: the blocking one
    with the counts its stream will return, or the asynchronous one. *)
Inductive writer := Blocking (counts : list (option Z)) | Async.
Definition send (max_bytes : Z) (written : bytes) (wm : writer * list (str * value)) : result framing_error bytes :=
  match wm.1 with
  | Blocking counts => frame ← write_message counts wm.2 max_bytes; Ok (written ++ frame)
  | Async => write_message_async written wm.2 max_bytes
  end.
End Framing.
