(* ===== verification/FramingFacts.v ===== *)
(** * Native message framing: the properties of the model in [Framing.v] *)

From stdpp Require Import base list strings numbers.
From Stdlib Require Import ZArith Lia.
From S2P Require Import Prelude PyStr Utf8 PyVal Json JsonFacts Framing.

(** ** The header *)

Lemma unpack_pack n h : 0 <= n -> pack n = Ok h -> unpack h = n /\ len h = HEADER_SIZE.
Proof.
  unfold pack. intros Hn Hp. destruct (Z.ltb_spec n (2 ^ 32)); [|done]. injection Hp as <-. split; [|done].
  unfold unpack. Z.to_euclidean_division_equations; lia.
Qed.

Lemma unpack_nonneg h : Forall (fun b => 0 <= b) h -> 0 <= unpack h.
Proof.
  intros Hf. unfold unpack. destruct h as [|a [|b [|c [|d [|]]]]]; try done.
  inversion Hf as [|? ? ? Hf1]; inversion Hf1 as [|? ? ? Hf2]; inversion Hf2 as [|? ? ? Hf3]; inversion Hf3; subst. lia.
Qed.

(** ** Streams cut in pieces *)

Abbreviation pieces := (Forall (fun c : bytes => c <> [])).

Lemma slice_split {A} (l : list A) n : 0 <= n -> slice_to l n ++ slice_from l n = l.
Proof. apply slice_to_from. Qed.

Lemma read_piece s need c s' :
  pieces s -> 0 < need -> read s need = (c, s') ->
  pieces s' /\ concat s = c ++ concat s' /\ len c <= need /\ (c = [] -> s = []).
Proof.
  intros Hp Hn. destruct s as [|x s]; simpl; [intros [= <- <-]; split_and!; auto; rewrite len_nil; lia|].
  inversion Hp as [|? ? Hx Hs]; subst. destruct (Z.leb_spec (len x) need); intros [= <- <-]; [done|].
  rewrite slice_from_pos, slice_to_pos by lia. split_and!.
  - constructor; [|done]. intros E. pose proof (len_drop (Z.to_nat need) x) as Hd. rewrite E in Hd. change (len (@nil Z)) with 0 in Hd. lia.
  - simpl. by rewrite app_assoc, take_drop.
  - rewrite len_take. lia.
  - intros E. pose proof (len_take (Z.to_nat need) x) as Hd. rewrite E in Hd. change (len (@nil Z)) with 0 in Hd. pose proof (len_nonneg x). lia.
Qed.

Lemma read_loop_content fuel s need chunks :
  pieces s -> 0 <= need <= Z.of_nat fuel ->
  match read_loop fuel s need chunks with
  | Some (b, s') => exists c, b = chunks ++ c /\ concat s = c ++ concat s' /\ len c = need /\ pieces s'
  | None => len (concat s) < need
  end.
Proof.
  revert s need chunks. induction fuel as [|fuel IH]; intros s need chunks Hp Hn; cbn [read_loop].
  - destruct (Z.leb_spec need 0); [|lia]. exists []. rewrite app_nil_r. split_and!; auto. rewrite len_nil. lia.
  - destruct (Z.leb_spec need 0); [exists []; rewrite app_nil_r; split_and!; auto; rewrite len_nil; lia|].
    destruct (read s need) as [c s'] eqn:E. destruct (read_piece s need c s' Hp ltac:(lia) E) as (Hp' & Hc & Hl & He).
    destruct (nonempty c) eqn:Ec; [|destruct c; [|done]; rewrite (He eq_refl); change (len (concat [])) with 0; lia].
    assert (1 <= len c) by (destruct c; [done|]; rewrite len_cons; pose proof (len_nonneg c); lia).
    specialize (IH s' (need - len c) (chunks ++ c) Hp' ltac:(lia)).
    destruct (read_loop _ _ _ _) as [[b s2]|].
    + destruct IH as (d & -> & Hd & Hld & Hp2). exists (c ++ d). rewrite Hc, Hd, len_app, <- !app_assoc. split_and!; auto. lia.
    + rewrite Hc, len_app. lia.
Qed.

(** [_read_exact] sees only the contents. *)
Lemma read_exact_content s size clean :
  pieces s -> 0 <= size ->
  match _read_exact s size clean with
  | Ok (Some b, s') => readexactly (concat s) size = Ok (b, concat s') /\ pieces s'
  | Ok (None, s') => clean = true /\ 0 < size /\ concat s = [] /\ s' = []
  | Raise e => e = TruncatedMessage /\ readexactly (concat s) size = Raise (concat s) /\ (clean = true -> concat s <> [])
  end.
Proof.
  intros Hp Hs. unfold _read_exact. pose proof (read_loop_content (Z.to_nat size) s size [] Hp ltac:(lia)) as Hl.
  destruct (read_loop _ _ _ _) as [[b s']|].
  - destruct Hl as (c & -> & Hc & Hlc & Hp'). split; [|done]. unfold readexactly. rewrite Hc, len_app.
    pose proof (len_nonneg (concat s')). destruct (Z.leb_spec size (len c + len (concat s'))); [|lia].
    rewrite slice_to_pos, slice_from_pos by done. subst size. unfold len. rewrite Nat2Z.id.
    by rewrite take_app_length, drop_app_length.
  - assert (readexactly (concat s) size = Raise (concat s)) as Hre.
    { unfold readexactly. destruct (Z.leb_spec size (len (concat s))); [lia|done]. }
    assert (0 < size) by (pose proof (len_nonneg (concat s)); lia).
    destruct (read s size) as [c s'] eqn:E. destruct (read_piece s size c s' Hp ltac:(lia) E) as (Hp' & Hc & _ & He). cbn [fst snd].
    destruct clean; cbn [andb]; [|done]. destruct c as [|x c]; cbn [nonempty negb].
    + specialize (He eq_refl). subst s. simpl in E. injection E as <-. done.
    + split_and!; auto. rewrite Hc. done.
Qed.

Section Facts.
Variable float_repr : Z -> Z -> str.
Variable parse_float : str -> value.

Abbreviation read_message := (Framing.read_message parse_float).
Abbreviation read_message_async := (Framing.read_message_async parse_float).

(** The two readers agree, whatever the pieces of the first. *)
Lemma read_message_content s max_bytes :
  pieces s -> Forall (fun b => 0 <= b) (concat s) ->
  match read_message s max_bytes, read_message_async (concat s) max_bytes with
  | Ok (x, s'), Ok (y, rest) => x = y /\ concat s' = rest /\ pieces s'
  | Raise e, Raise e' => e = e'
  | _, _ => False
  end.
Proof.
  intros Hp Hb0. unfold Framing.read_message, Framing.read_message_async. destruct (max_bytes <=? 0); [done|].
  pose proof (read_exact_content s HEADER_SIZE true Hp ltac:(done)) as Hh.
  destruct (_read_exact s HEADER_SIZE true) as [[[h|] s1]|e].
  - destruct Hh as [Hr Hp1]. rewrite Hr. cbn [mbind result_bind]. destruct (max_bytes <? unpack h); [done|].
    assert (0 <= unpack h) as Hpos.
    { apply unpack_nonneg. unfold readexactly in Hr. destruct (_ <=? _); [|done]. injection Hr as <- _.
      rewrite slice_to_pos by done. by apply Forall_take. }
    { pose proof (read_exact_content s1 (unpack h) false Hp1 Hpos) as Hb.
      destruct (_read_exact s1 (unpack h) false) as [[[b|] s2]|e].
      - destruct Hb as [-> Hp2]. cbn [mbind result_bind default]. by destruct (_decode_object _ _).
      - by destruct Hb.
      - by destruct Hb as (-> & -> & _). }
  - destruct Hh as (_ & _ & Hc & ->). rewrite Hc. done.
  - destruct Hh as (-> & -> & Hc). by destruct (concat s) eqn:E; [specialize (Hc eq_refl)|].
Qed.

(** ** What is written *)

Definition accepting (counts : list (option Z)) : Prop := Forall (fun c => match c with Some n => 0 < n | None => True end) counts.

Lemma write_loop_all fuel counts data sink :
  accepting counts -> (length data <= fuel)%nat -> write_loop fuel counts data sink = Ok (sink ++ data).
Proof.
  revert counts data sink. induction fuel as [|fuel IH]; intros counts data sink Hc Hf.
  - destruct data; [by rewrite app_nil_r|simpl in Hf; lia].
  - destruct data as [|x data]; [by rewrite app_nil_r|]. cbn [write_loop].
    destruct counts as [|[n|] counts]; [done| |done]. inversion Hc as [|? ? Hn Hc']; subst. cbn in Hn.
    destruct (Z.leb_spec n 0); [lia|]. rewrite IH; [|done|].
    + by rewrite <- app_assoc, slice_split by lia.
    + rewrite slice_from_pos, length_drop by lia. simpl in *. lia.
Qed.

Lemma write_message_encodes counts m max_bytes :
  accepting counts -> write_message float_repr counts m max_bytes = encode_message float_repr m max_bytes.
Proof.
  intros Hc. unfold write_message. destruct (encode_message _ _ _) as [data|]; [|done]. simpl.
  unfold _write_all. by rewrite write_loop_all.
Qed.

(** ** Printed messages *)

Lemma ints_ok_plain v : plain v -> ints_ok v = true.
Proof.
  induction v as [| | | | |l IH|d IH] using value_nested_ind; intros Hp; inversion Hp as [| |? Hi| |? Hl|? Hd Hn]; subst; try done; simpl.
  - by apply Z.leb_le.
  - apply forallb_forall. intros x Hx. rewrite Forall_forall in IH, Hl. auto.
  - apply forallb_forall. intros x Hx. rewrite Forall_forall in IH, Hd. apply IH; [done|]. by apply Hd.
Qed.

Lemma scalars_ascii s : Forall (fun c => 0 <= c < 128) s -> scalars s.
Proof. apply Forall_impl. intros c Hc. apply scalar_spec; lia. Qed.

Lemma json_char_scalars c : scalar c = true -> scalars (json_char false c).
Proof.
  intros Hc. unfold json_char. repeat (case_match; [apply scalars_ascii; repeat constructor; lia|]).
  destruct (Z.ltb_spec c 32); [|cbn; by constructor].
  assert (0 <= c) by (unfold scalar in Hc; lia). apply scalars_ascii. unfold u_escape, hex4, hex_digit. cbn [app].
  repeat constructor; try lia; repeat case_match; Z.to_euclidean_division_equations; lia.
Qed.

Lemma dumps_scalars v : plain v -> scalars (dumps float_repr false [44] [58] v).
Proof.
  apply dumps_chars; [|exact json_char_scalars|by repeat constructor|by repeat constructor].
  intros c Hc. apply scalar_spec; lia.
Qed.

Lemma reject_distinct d : NoDup (map fst d) -> _reject_duplicate_keys d = Ok (VDict d).
Proof.
  intros Hn. unfold _reject_duplicate_keys.
  enough (foldM (fun d kv => if dict_has d kv.1 then Raise HookRaised else Ok (dict_set d kv.1 kv.2)) d [] = Ok d) as -> by done.
  enough (forall acc, NoDup (map fst (acc ++ d)) ->
    foldM (fun d kv => if dict_has d kv.1 then Raise HookRaised else Ok (dict_set d kv.1 kv.2)) d acc
    = @Ok json_error _ (acc ++ d)) as H by exact (H [] Hn).
  clear Hn. induction d as [|[k v] d IH]; intros acc Hn; simpl; [by rewrite app_nil_r|].
  assert (k ∉ map fst acc) as Hk.
  { rewrite map_app in Hn. simpl in Hn. apply list.NoDup_app in Hn as (_ & Hd & _). intros Hk. apply (Hd k Hk). left. }
  assert (dict_has acc k = false) as ->.
  { unfold dict_has. clear -Hk. induction acc as [|[k' v'] acc IH]; [done|]. cbn [map fst] in Hk. apply not_elem_of_cons in Hk as [H1 H2].
    cbn [dict_get]. unfold str_eqb. rewrite bool_decide_eq_false_2 by congruence. by apply IH. }
  rewrite dict_set_new, IH; rewrite <- ?app_assoc; done.
Qed.

Lemma utf8_bytes s : scalars s -> Forall (fun b => 0 <= b) (utf8 s).
Proof.
  induction 1 as [|c s Hc _ IH]; [constructor|]. rewrite utf8_cons. apply Forall_app. split; [|done].
  assert (0 <= c) by (unfold scalar in Hc; lia). unfold utf8_char.
  repeat case_match; repeat constructor; Z.to_euclidean_division_equations; lia.
Qed.

Lemma pack_bytes n h : 0 <= n -> pack n = Ok h -> Forall (fun b => 0 <= b) h.
Proof.
  intros Hn Hp. unfold pack in Hp. destruct (_ <? _); [|done]. injection Hp as <-.
  repeat constructor; Z.to_euclidean_division_equations; lia.
Qed.

(** A frame, from the reader's side. *)
Lemma encode_frame m max_bytes frame :
  plain (VDict m) -> encode_message float_repr m max_bytes = Ok frame ->
  exists header payload, frame = header ++ payload /\ len header = HEADER_SIZE /\ unpack header = len payload /\
    0 < max_bytes /\ len payload <= max_bytes /\ _decode_object parse_float payload = Ok m /\ Forall (fun b => 0 <= b) frame.
Proof.
  intros Hp He. unfold encode_message in He. destruct (Z.leb_spec max_bytes 0); [done|].
  rewrite ints_ok_plain in He by done. cbn [negb] in He. pose proof (dumps_scalars _ Hp) as Hs.
  set (text := dumps _ _ _ _ _) in *. cbv zeta in He.
  assert (forallb scalar text = true) as Hf.
  { apply forallb_forall. intros c Hc. rewrite Forall_forall in Hs. auto. }
  rewrite Hf in He. cbn [negb] in He. destruct (Z.ltb_spec max_bytes (len (utf8 text))); [done|].
  destruct (pack (len (utf8 text))) as [h|] eqn:Eh; [|done]. simpl in He. injection He as <-.
  pose proof (len_nonneg (utf8 text)) as Hnn. destruct (unpack_pack _ _ Hnn Eh) as [Hu Hl].
  exists h, (utf8 text). split_and!; auto.
  - unfold _decode_object. rewrite decode_strict_encode by done. unfold text.
    by rewrite (loads_dumps float_repr false [] []) by (done || apply reject_distinct || constructor).
  - apply Forall_app. split; [by eapply pack_bytes|by apply utf8_bytes].
Qed.

Lemma readexactly_app a b : readexactly (a ++ b) (len a) = Ok (a, b).
Proof.
  unfold readexactly. pose proof (len_nonneg b). pose proof (len_nonneg a). rewrite len_app.
  destruct (Z.leb_spec (len a) (len a + len b)); [|lia]. rewrite slice_to_pos, slice_from_pos by lia.
  unfold len. rewrite Nat2Z.id. by rewrite take_app_length, drop_app_length.
Qed.

Lemma readexactly_short a n : len a < n -> readexactly a n = Raise a.
Proof. intros Hn. unfold readexactly. destruct (Z.leb_spec n (len a)); [lia|done]. Qed.

Lemma read_frame m max_bytes frame rest limit :
  plain (VDict m) -> encode_message float_repr m max_bytes = Ok frame -> max_bytes <= limit ->
  read_message_async (frame ++ rest) limit = Ok (Some m, rest).
Proof.
  intros Hp He Hl. destruct (encode_frame _ _ _ Hp He) as (h & p & -> & Hh & Hu & Hm & Hlen & Hd & _).
  unfold Framing.read_message_async. destruct (Z.leb_spec limit 0); [lia|]. rewrite <- Hh, <- app_assoc, readexactly_app, Hu.
  destruct (Z.ltb_spec limit (len p)); [lia|]. by rewrite readexactly_app, Hd.
Qed.

Lemma read_partial m max_bytes frame p q limit :
  plain (VDict m) -> encode_message float_repr m max_bytes = Ok frame -> max_bytes <= limit ->
  frame = p ++ q -> p <> [] -> q <> [] -> read_message_async p limit = Raise TruncatedMessage.
Proof.
  intros Hp He Hl Hf Hpn Hqn. destruct (encode_frame _ _ _ Hp He) as (h & b & -> & Hh & Hu & Hm & Hlen & Hd & _).
  unfold Framing.read_message_async. destruct (Z.leb_spec limit 0); [lia|].
  assert (0 < len q) by (destruct q; [done|]; rewrite len_cons; pose proof (len_nonneg q); lia).
  destruct (Z.lt_ge_cases (len p) HEADER_SIZE) as [Hs|Hs].
  - rewrite readexactly_short by done. by destruct p.
  - assert (exists p', p = h ++ p' /\ b = p' ++ q) as (p' & -> & ->).
    { apply app_eq_inv in Hf as [(z & -> & ->)|(z & -> & Hz)]; [|by exists z].
      rewrite len_app in Hh. assert (z = []) as -> by (apply len_zero_nil; pose proof (len_nonneg z); lia).
      exists []. by rewrite !app_nil_r. }
    rewrite <- Hh, readexactly_app, Hu. destruct (Z.ltb_spec limit (len (p' ++ q))); [lia|].
    rewrite readexactly_short; [done|]. rewrite len_app. lia.
Qed.

Lemma frames_bytes ms frames max_bytes :
  Forall (fun m => plain (VDict m)) ms -> mapR (fun m => encode_message float_repr m max_bytes) ms = Ok frames ->
  Forall (fun b => 0 <= b) (concat frames).
Proof.
  intros Hp. revert frames. induction Hp as [|m ms Hm _ IH]; intros frames He; simpl in He; [by injection He as <-|].
  destruct (encode_message float_repr m max_bytes) as [f|] eqn:Ef; [|done]. destruct (mapR _ ms) as [fs|]; [|done].
  injection He as <-. apply Forall_app. split; [|by apply IH].
  by destruct (encode_frame _ _ _ Hm Ef) as (? & ? & _ & _ & _ & _ & _ & _ & Hb).
Qed.

Definition payload_of (m : list (str * value)) : bytes := utf8 (dumps float_repr false [44] [58] (VDict m)).

Lemma encode_fits m max_bytes :
  plain (VDict m) -> len (payload_of m) <= max_bytes -> 0 < max_bytes < 2 ^ 32 ->
  exists frame, encode_message float_repr m max_bytes = Ok frame.
Proof.
  intros Hp Hf Hm. unfold encode_message, payload_of in *. destruct (Z.leb_spec max_bytes 0); [lia|].
  rewrite ints_ok_plain by done. cbn [negb]. pose proof (dumps_scalars _ Hp) as Hs. set (text := dumps _ _ _ _ _) in *.
  assert (forallb scalar text = true) as -> by (apply forallb_forall; intros c Hc; rewrite Forall_forall in Hs; auto).
  cbn [negb]. destruct (Z.ltb_spec max_bytes (len (utf8 text))); [lia|]. unfold pack.
  destruct (Z.ltb_spec (len (utf8 text)) (2 ^ 32)); [|lia]. simpl. eauto.
Qed.

Definition writer_ok (w : writer) : Prop := match w with Blocking counts => accepting counts | Async => True end.

Lemma send_encodes max_bytes written wm :
  writer_ok wm.1 -> send float_repr max_bytes written wm =
    (frame ← encode_message float_repr wm.2 max_bytes; Ok (written ++ frame)).
Proof.
  destruct wm as [[counts|] m]; simpl; intros Hw; unfold send; simpl; [by rewrite write_message_encodes|done].
Qed.

Lemma send_all max_bytes wms written :
  Forall (fun wm => writer_ok wm.1 /\ plain (VDict wm.2) /\ len (payload_of wm.2) <= max_bytes) wms ->
  0 < max_bytes < 2 ^ 32 ->
  exists frames, mapR (fun m => encode_message float_repr m max_bytes) (map snd wms) = Ok frames /\
    foldM (send float_repr max_bytes) wms written = Ok (written ++ concat frames).
Proof.
  intros Hall Hm. revert written. induction Hall as [|wm wms (Hw & Hp & Hl) _ IH]; intros written; simpl.
  - exists []. by rewrite app_nil_r.
  - destruct (encode_fits wm.2 max_bytes Hp Hl Hm) as [f Hf]. rewrite send_encodes, Hf by done. simpl.
    destruct (IH (written ++ f)) as (fs & Hfs & Hs). rewrite Hfs, Hs. exists (f :: fs). by rewrite <- app_assoc.
Qed.

Lemma read_all_async_frames ms frames max_bytes limit :
  Forall (fun m => plain (VDict m)) ms -> mapR (fun m => encode_message float_repr m max_bytes) ms = Ok frames ->
  max_bytes <= limit -> 0 < limit -> read_all_async parse_float (S (length ms)) (concat frames) limit = Ok ms.
Proof.
  intros Hp He Hl H0. revert frames He. induction Hp as [|m ms Hm Hms IH]; intros frames He; simpl in He.
  - injection He as <-. cbn [length read_all_async concat]. unfold Framing.read_message_async.
    by destruct (Z.leb_spec limit 0); [lia|].
  - destruct (encode_message float_repr m max_bytes) as [f|] eqn:Ef; [|done].
    destruct (mapR _ ms) as [fs|] eqn:Efs; [|done]. injection He as <-. cbn [concat].
    remember (length (m :: ms)) as n eqn:En. cbn [read_all_async].
    rewrite (read_frame m max_bytes f) by done. cbn [mbind result_bind]. subst n. cbn [length].
    by rewrite (IH fs).
Qed.

Lemma read_all_frames ms frames s max_bytes limit :
  Forall (fun m => plain (VDict m)) ms -> mapR (fun m => encode_message float_repr m max_bytes) ms = Ok frames ->
  max_bytes <= limit -> 0 < limit -> pieces s -> concat s = concat frames ->
  read_all parse_float (S (length ms)) s limit = Ok ms.
Proof.
  intros Hp. revert frames s. induction Hp as [|m ms Hm Hms IH]; intros frames s He Hl H0 Hs Hc.
  - simpl in He. injection He as <-. simpl in Hc. cbn [length read_all].
    pose proof (read_message_content s limit Hs ltac:(rewrite Hc; constructor)) as Hr. rewrite Hc in Hr.
    assert (read_message_async [] limit = Ok (None, [])) as Ha.
    { unfold Framing.read_message_async. by destruct (Z.leb_spec limit 0); [lia|]. }
    rewrite Ha in Hr. destruct (read_message s limit) as [[x s']|]; [|done]. by destruct Hr as (-> & _).
  - simpl in He. destruct (encode_message float_repr m max_bytes) as [f|] eqn:Ef; [|done].
    destruct (mapR _ ms) as [fs|] eqn:Efs; [|done]. injection He as <-. cbn [concat] in Hc.
    assert (Forall (fun b => 0 <= b) (concat s)) as Hb.
    { rewrite Hc. apply (frames_bytes (m :: ms) (f :: fs) max_bytes); [by constructor|]. simpl. by rewrite Ef, Efs. }
    change (read_all parse_float (S (length (m :: ms))) s limit) with
      ('(x, s1) ← read_message s limit;
       match x with None => Ok [] | Some x => xs ← read_all parse_float (S (length ms)) s1 limit; Ok (x :: xs) end).
    pose proof (read_message_content s limit Hs Hb) as Hr. rewrite Hc in Hr.
    rewrite (read_frame m max_bytes f) in Hr by done.
    destruct (read_message s limit) as [[x s']|]; [|done]. destruct Hr as (-> & Hc' & Hs').
    cbn [mbind result_bind]. by rewrite (IH fs).
Qed.

(** ** Properties *)

(** C9: Messages survive the wire.  JSON objects of texts, integers, truth
    values, null, lists and objects with distinct keys, each small enough for
    the limit, are written one after the other, each by the blocking writer (on
    a stream that takes any positive number of bytes at a time) or by the
    asynchronous one: no writing fails, and the blocking reader, however its
    stream cuts the bytes, and the asynchronous reader both read back the same
    messages, in order and equal, and then the end of the stream.  A frame of
    either writer that is cut short anywhere is reported as truncated by both
    readers, never read as a message. *)
Theorem framing_roundtrip wms max_bytes limit :
  Forall (fun wm => writer_ok wm.1 /\ plain (VDict wm.2) /\ len (payload_of wm.2) <= max_bytes) wms ->
  0 < max_bytes < 2 ^ 32 -> max_bytes <= limit ->
  exists stream, foldM (send float_repr max_bytes) wms [] = Ok stream /\
    (forall s, pieces s -> concat s = stream -> read_all parse_float (S (length wms)) s limit = Ok (map snd wms)) /\
    read_all_async parse_float (S (length wms)) stream limit = Ok (map snd wms) /\
    (forall wm frame p q, In wm wms -> send float_repr max_bytes [] wm = Ok frame -> frame = p ++ q -> p <> [] -> q <> [] ->
       read_message_async p limit = Raise TruncatedMessage /\
       forall s, pieces s -> concat s = p -> read_message s limit = Raise TruncatedMessage).
Proof.
  intros Hall Hm Hl. destruct (send_all max_bytes wms [] Hall Hm) as (frames & Hf & Hs).
  assert (Forall (fun m => plain (VDict m)) (map snd wms)) as Hp
    by (apply Forall_map; revert Hall; apply List.Forall_impl; intros wm (_ & ? & _); done).
  exists (concat frames). split; [exact Hs|]. split; [|split].
  - intros s Hpc Hc. rewrite <- (length_map snd wms). eapply read_all_frames; eauto; lia.
  - rewrite <- (length_map snd wms). eapply read_all_async_frames; eauto; lia.
  - intros wm frame p q Hin Hsend Hpq Hpn Hqn. rewrite List.Forall_forall in Hall.
    destruct (Hall wm Hin) as (Hw & Hpl & _). rewrite send_encodes in Hsend by done.
    destruct (encode_message float_repr wm.2 max_bytes) as [f|] eqn:Ef; [|done]. injection Hsend as <-. cbn [app] in Hpq.
    pose proof (read_partial wm.2 max_bytes f p q limit Hpl Ef Hl Hpq Hpn Hqn) as Hr. split; [exact Hr|].
    intros s Hpc Hc. destruct (encode_frame _ _ _ Hpl Ef) as (_ & _ & _ & _ & _ & _ & _ & _ & Hb).
    rewrite Hpq in Hb. apply Forall_app in Hb as [Hb _].
    pose proof (read_message_content s limit Hpc ltac:(by rewrite Hc)) as Hcon. rewrite Hc, Hr in Hcon.
    by destruct (read_message s limit) as [[]|]; [|subst].
Qed.

(** The blocking reader and the asynchronous reader are the same function of
    the bytes: whatever pieces the blocking stream returns, they read the same
    message or end, leave the same bytes, and fail with the same error. *)
Theorem framing_readers_agree s max_bytes :
  pieces s -> Forall (fun b => 0 <= b) (concat s) ->
  match read_message s max_bytes, read_message_async (concat s) max_bytes with
  | Ok (x, s'), Ok (y, rest) => x = y /\ concat s' = rest
  | Raise e, Raise e' => e = e'
  | _, _ => False
  end.
Proof.
  intros Hp Hb. pose proof (read_message_content s max_bytes Hp Hb) as Hr.
  destruct (read_message s max_bytes) as [[x s']|], (read_message_async (concat s) max_bytes) as [[y rest]|]; naive_solver.
Qed.
End Facts.

(** A session of two messages, the first written three bytes at a time at first
    by the blocking writer, the second by the asynchronous one, and read two
    bytes at a time. *)
Definition no_float (m e : Z) : str := [].
Definition read_no_float (s : str) : value := VNone.
Definition sample_messages : list (list (str * value)) :=
  [[(lit "id", VInt (-7)); (lit "text", VStr [233; 34; 128512])]; [(lit "l", VList [VNone; VBool true; VDict []])]].
Definition sample_writers : list writer := [Blocking [Some 3; Some 1; None]; Async].
Definition sample_stream : bytes :=
  match foldM (send no_float 64) (combine sample_writers sample_messages) [] with Ok b => b | Raise _ => [] end.
Fixpoint in_twos (b : bytes) : list bytes :=
  match b with x :: y :: r => [x; y] :: in_twos r | [x] => [[x]] | [] => [] end.

Lemma sample_plain : Forall (fun m => plain (VDict m)) sample_messages.
Proof.
  assert (forall s : str, forallb scalar s = true -> scalars s) as Hs
    by (intros s H; rewrite Forall_forall; apply forallb_forall; exact H).
  assert (forall d : list (str * value), bool_decide (NoDup (map fst d)) = true -> NoDup (map fst d)) as Hn
    by (intros d H; by apply bool_decide_eq_true in H).
  constructor; [|constructor; [|constructor]].
  - constructor; [|apply Hn; by vm_compute].
    constructor; [split; [apply Hs; by vm_compute|constructor; by vm_compute]|].
    constructor; [split; [apply Hs; by vm_compute|constructor; apply Hs; by vm_compute]|constructor].
  - constructor; [|apply Hn; by vm_compute]. constructor; [|constructor]. split; [apply Hs; by vm_compute|].
    constructor. constructor; [constructor|]. constructor; [constructor|]. constructor; [|constructor]. constructor; constructor.
Qed.

Lemma framing_roundtrip_witness :
  len sample_stream = 55 /\ read_all read_no_float 3 (in_twos sample_stream) 64 = Ok sample_messages /\
  read_all_async read_no_float 3 sample_stream 64 = Ok sample_messages.
Proof.
  split; [by vm_compute|].
  pose proof (Forall_inv sample_plain) as H1. pose proof (Forall_inv (Forall_inv_tail sample_plain)) as H2.
  destruct (framing_roundtrip no_float read_no_float (combine sample_writers sample_messages) 64 64) as (b & Hb & Hr & Ha & _).
  - constructor; [split; [repeat constructor|split; [exact H1|by vm_compute]]|].
    constructor; [split; [exact I|split; [exact H2|by vm_compute]]|constructor].
  - lia.
  - lia.
  - assert (b = sample_stream) as -> by (unfold sample_stream; rewrite Hb; reflexivity). split; [|exact Ha].
    apply Hr; [|by vm_compute]. vm_compute. repeat constructor; discriminate.
Defined.

Lemma framing_readers_agree_witness :
  match read_message read_no_float [[2; 0]; [0; 0; 123]; [125; 9]] 64, read_message_async read_no_float [2; 0; 0; 0; 123; 125; 9] 64 with
  | Ok (x, s'), Ok (y, rest) => x = y /\ concat s' = rest
  | Raise e, Raise e' => e = e'
  | _, _ => False
  end.
Proof.
  apply (framing_readers_agree no_float read_no_float [[2; 0]; [0; 0; 123]; [125; 9]] 64).
  - repeat constructor; discriminate.
  - cbn. repeat constructor; lia.
Defined.

(** An integer of more than 4300 digits in a message is not reported as a
    framing failure: the interpreter's limit on reading integers raises a plain
    [ValueError], which [_decode_object] does not translate as it does every
    other failure of the parser. *)
Theorem framing_long_integer_escapes :
  _decode_object read_no_float (lit "{" ++ [34; 97; 34; 58] ++ replicate (Z.to_nat 4301) 49 ++ lit "}") = Raise ValueError /\
  _decode_object read_no_float (lit "{" ++ [34; 97; 34; 58] ++ lit "01}") = Raise InvalidJson /\
  _decode_object read_no_float (lit "{" ++ [34; 97; 34; 58] ++ lit "NaN}") = Raise Rejected.
Proof. by vm_compute. Qed.
