(* ===== verification/WorkflowJournal.v ===== *)
(** * Workflow accounting, call identity and the resume journal

    Models [kolega_code/agent/orchestration/budget.py], [accounting.py],
    [types.py], the journal and the artifact names of [journal.py], and the
    shape check of a model override in [kolega_code/agent/model_routing.py].

    The one budget of a run and the tickets handed out against it are fields of
    the accounting; a ticket is its position.  A file is its text, [None] when it
    does not exist.  Values are JSON values, so that [default=str] of the dumps
    is never called; [lower] is [str.lower] and [sha1_hex] the hexadecimal SHA-1
    digest of [hashlib]. *)

From stdpp Require Import base list strings numbers.
From Stdlib Require Import ZArith Lia.
From S2P Require Import Prelude PyStr Utf8 PyVal Json.

Inductive override_error :=
| NotAMapping
| MissingFields (names : list str)
| UnsupportedFields (names : list str)
| BadProvider
| BadModel
| BadEffort.

Inductive workflow_error :=
| LegacyRouting (names : list str)
| UnexpectedKeywords (names : list str)
| EmptyPrompt
| BadBrowserTarget
| BrowserTargetWithoutBrowser
| InvalidOverride (e : override_error)
| WorkflowBudgetExceeded
| WorkflowAgentCapExceeded
| TooManyItems
| DispatchRaised
| TaskCancelled.

(** ** Budget and accounting *)

Record budget := mkBudget { total : option Z; _spent : Z }.

Definition budget_init (total : option Z) : budget := mkBudget total 0.
Definition add (b : budget) (tokens : option Z) : budget := mkBudget (total b) (_spent b + Z.max 0 (default 0 tokens)).
Definition spent (b : budget) : Z := _spent b.
(** [None] is infinity. *)
Definition remaining (b : budget) : option Z :=
  match total b with None => None | Some t => Some (Z.max 0 (t - _spent b)) end.
Definition check (b : budget) : result workflow_error unit :=
  match total b with
  | Some t => if t <=? _spent b then Raise WorkflowBudgetExceeded else Ok ()
  | None => Ok ()
  end.

(** [reported] holds [_reported_tokens] of every reservation. *)
Record accounting := mkAccounting { budget_of : budget; agent_cap : Z; agent_count : Z; reported : list Z }.

Definition accounting_init (b : budget) (cap : Z) : accounting := mkAccounting b cap 0 [].

Definition reserve_agent (a : accounting) : result workflow_error (nat * accounting) :=
  _ ← check (budget_of a);
  if agent_cap a <=? agent_count a then Raise WorkflowAgentCapExceeded
  else Ok (length (reported a), mkAccounting (budget_of a) (agent_cap a) (agent_count a + 1) (reported a ++ [0])).

(** Anything but an [int] is ignored; a [bool] is not one here. *)
Definition report_total (a : accounting) (ticket : nat) (tokens : value) : accounting :=
  match tokens, reported a !! ticket with
  | VInt n, Some r =>
      let delta := n - r in
      if delta <=? 0 then a
      else mkAccounting (add (budget_of a) (Some delta)) (agent_cap a) (agent_count a) (<[ticket := n]> (reported a))
  | _, _ => a
  end.

(** ** Calls and their identity *)

Record AtomicModelOverride := mkOverride { provider : str; model : str; effort : option str }.

Definition opt_str (s : option str) : value := match s with Some s => VStr s | None => VNone end.

Definition as_dict (o : AtomicModelOverride) : value :=
  VDict [(lit "provider", VStr (provider o)); (lit "model", VStr (model o)); (lit "effort", opt_str (effort o))].

Record AgentRunSpec := mkSpec {
  prompt : str;
  label : option str;
  phase : option str;
  schema : value;
  model_override : option AtomicModelOverride;
  agent_type : option str;
  browser_target : option str;
  routing_fingerprint : option str;
  actual_agent_type : option str;
  read_only_mode : bool;
  max_agent_depth : Z;
  call_index : Z
}.

Record AgentRunResult := mkResult {
  text : option str;
  structured : value;
  tokens : value;
  res_status : str;
  error : option str;
  transcript_path : option str;
  transcript_markdown_path : option str;
  requested_routing : value;
  effective_routing : value;
  res_actual_agent_type : option str
}.

Definition is_none (v : value) : bool := match v with VNone => true | _ => false end.
Definition completed : str := lit "completed".

Definition result_value (r : AgentRunResult) : value :=
  if negb (str_eqb (res_status r) completed) then VNone
  else if negb (is_none (structured r)) then structured r else opt_str (text r).

Section Journal.
Variable lower : str -> str.
Variable sha1_hex : bytes -> str.
Variable float_repr : Z -> Z -> str.
Variable parse_float : str -> value.

(** [{k for k in names if ...}], sorted. *)
Definition sorted_names (l : list str) : list str := sort_by str_leb l.

Definition nonblank (v : value) : option str :=
  match v with VStr s => if nonempty (strip s) then Some s else None | _ => None end.

Definition parse_atomic_model_override (v : value) (effort_key : str) : result override_error (option AtomicModelOverride) :=
  match v with
  | VNone => Ok None
  | VDict d =>
      let expected := [lit "provider"; lit "model"; effort_key] in
      let missing := sorted_names (List.filter (fun k => negb (dict_has d k)) expected) in
      let extra := sorted_names (List.filter (fun k => negb (str_in k expected)) (map fst d)) in
      if nonempty missing then Raise (MissingFields missing)
      else if nonempty extra then Raise (UnsupportedFields extra)
      else match nonblank (get d (lit "provider")) with
           | None => Raise BadProvider
           | Some provider =>
               match nonblank (get d (lit "model")) with
               | None => Raise BadModel
               | Some model =>
                   match get d effort_key, nonblank (get d effort_key) with
                   | VNone, _ => Ok (Some (mkOverride (lower (strip provider)) (strip model) None))
                   | _, None => Raise BadEffort
                   | _, Some effort =>
                       Ok (Some (mkOverride (lower (strip provider)) (strip model) (Some (lower (strip effort)))))
                   end
               end
           end
  | _ => Raise NotAMapping
  end.

Definition cache_payload (s : AgentRunSpec) : value :=
  VDict [(lit "prompt", VStr (prompt s));
         (lit "schema", schema s);
         (lit "model_override", match model_override s with Some o => as_dict o | None => VNone end);
         (lit "routing_fingerprint", match model_override s with None => opt_str (routing_fingerprint s) | Some _ => VNone end);
         (lit "agent_type", opt_str (agent_type s));
         (lit "browser_target", opt_str (browser_target s));
         (lit "actual_agent_type", opt_str (actual_agent_type s));
         (lit "read_only_mode", VBool (read_only_mode s));
         (lit "max_agent_depth", VInt (max_agent_depth s))].

(** [json.dumps] with its defaults. *)
Definition dumps_default (v : value) : str := dumps float_repr true [44; 32] [58; 32] v.

Definition cache_key (s : AgentRunSpec) : str := sha1_hex (utf8 (dumps_default (sort_keys (cache_payload s)))).

(** ** Artifact names *)

Definition slug_char (c : Z) : bool :=
  ((65 <=? c) && (c <=? 90)) || ((97 <=? c) && (c <=? 122)) || ((48 <=? c) && (c <=? 57)) || (c =? 46) || (c =? 95) || (c =? 45).

(** [re.sub] of every run of other characters, then of every run of dashes;
    [dash] says that the run has had its dash. *)
Fixpoint sub_other (dash : bool) (s : str) : str :=
  match s with
  | [] => []
  | c :: s' => if slug_char c then c :: sub_other false s' else if dash then sub_other true s' else 45 :: sub_other true s'
  end.
Fixpoint sub_dashes (dash : bool) (s : str) : str :=
  match s with
  | [] => []
  | c :: s' => if c =? 45 then if dash then sub_dashes true s' else 45 :: sub_dashes true s' else c :: sub_dashes false s'
  end.
Definition slug_edge (c : Z) : bool := (c =? 45) || (c =? 46) || (c =? 95).

Definition _slugify (s fallback : str) (max_length : Z) : str :=
  let slug := sub_other false (lower (strip s)) in
  let slug := strip_by slug_edge (sub_dashes false slug) in
  let slug := if nonempty slug then slug else fallback in
  let cut := rstrip_by slug_edge (slice_to slug max_length) in
  if nonempty cut then cut else fallback.

(** The name all the artifacts of a call share. *)
Definition agent_artifact_stem (index : Z) (label : option str) : str :=
  let label := match label with Some l => if nonempty l then l else lit "call-" ++ dec index | None => lit "call-" ++ dec index end in
  lit "agent-" ++ dec_pad 3 index ++ [45] ++ _slugify label (lit "agent") 64.

(** ** The journal *)

(** The payload of a row; [metadata] are the keyword arguments. *)
Definition payload (index : Z) (key : str) (label : option str) (status : str) (v : value) (metadata : list (str * value))
    : list (str * value) :=
  let payload := [(lit "index", VInt index); (lit "key", VStr key); (lit "label", opt_str label);
                  (lit "status", VStr status); (lit "value", v)] in
  let payload := dict_update payload (List.filter (fun kv => negb (is_none kv.2)) metadata) in
  if dict_has metadata (lit "requested_routing")
  then dict_set payload (lit "requested_routing") (get metadata (lit "requested_routing"))
  else payload.

Definition record (file : option str) (index : Z) (key : str) (label : option str) (v : value) (status : str)
    (metadata : list (str * value)) : option str :=
  Some (default [] file ++ dumps_default (VDict (payload index key label status v metadata)) ++ [NL]).

Definition append_transcript_event (file : option str) (e : list (str * value)) : option str :=
  Some (default [] file ++ dumps_default (VDict e) ++ [NL]).

(** [int(s)] of a string: digits of any script, single underscores between them. *)
Fixpoint digits_of (after_digit : bool) (s : str) : option str :=
  match s with
  | [] => if after_digit then Some [] else None
  | c :: s' =>
      if c =? 95 then if after_digit then digits_of false s' else None
      else if is_digit c then match digits_of true s' with Some ds => Some (c :: ds) | None => None end else None
  end.
Definition int_of_text (s : str) : option Z :=
  let s := strip s in
  let '(sign, body) := match s with c :: r => if c =? 45 then (-1, r) else if c =? 43 then (1, r) else (1, s) | [] => (1, s) end in
  match digits_of false body with
  | Some ds => if 4300 <? len ds then None else Some (sign * digits_value ds)
  | None => None
  end.

(** [int(v)]; [None] is one of the exceptions [load_cache] skips the row for. *)
Definition int_of (v : value) : option Z :=
  match v with
  | VInt n => Some n
  | VBool b => Some (Z.b2z b)
  | VFloat m e => Some (if 0 <=? e then m * 2 ^ e else Z.quot m (2 ^ (- e)))
  | VStr s => int_of_text s
  | _ => None
  end.

Definition row := list (str * value).

(** What the loop of [load_cache] makes of one line: a row with its index. *)
Definition cached_row (raw : str) : result json_error (option (Z * row)) :=
  let raw := strip raw in
  if negb (nonempty raw) then Ok None
  else match loads parse_float plain_object (fun name => Ok (parse_float name)) raw with
       | Raise BadJson => Ok None
       | Raise e => Raise e
       | Ok (VDict entry) =>
           match dict_get entry (lit "status") with
           | Some (VStr s) => if str_eqb s completed then Ok (Some entry) else Ok None
           | Some _ => Ok None
           | None => Ok (Some entry)
           end ≫= fun entry =>
           match entry with
           | None => Ok None
           | Some entry =>
               match dict_get entry (lit "index") ≫= int_of, dict_get entry (lit "key") with
               | Some index, Some (VStr key) => Ok (Some (index, entry))
               | _, _ => Ok None
               end
           end
       | Ok _ => Ok None
       end.

(** [by_index[index] = entry]. *)
Fixpoint index_set (d : list (Z * row)) (i : Z) (e : row) : list (Z * row) :=
  match d with
  | [] => [(i, e)]
  | (j, e') :: d' => if j =? i then (i, e) :: d' else (j, e') :: index_set d' i e
  end.

(** The rows of each key, in a FIFO. *)
Definition ResumeCache := list (str * list row).

Definition cache_rows (c : ResumeCache) (key : str) : list row := default [] (dict_get c key).
Definition row_key (e : row) : str := match get e (lit "key") with VStr k => k | _ => [] end.

Definition load_cache (file : option str) : result json_error ResumeCache :=
  match file with
  | None => Ok []
  | Some content =>
      by_index ← foldM (fun d raw => r ← cached_row raw; Ok (match r with Some (i, e) => index_set d i e | None => d end))
                   (splitlines content) [];
      Ok (foldl (fun c ie => dict_set c (row_key ie.2) (cache_rows c (row_key ie.2) ++ [ie.2])) []
            (sort_by (fun a b => a.1 <=? b.1) by_index))
  end.

Definition take_row (c : ResumeCache) (key : str) : option row * ResumeCache :=
  match cache_rows c key with
  | [] => (None, c)
  | r :: rows => (Some r, dict_set c key rows)
  end.

Definition cache_len (c : ResumeCache) : Z := foldr Z.add 0 (map (fun kr => len kr.2) c).
End Journal.
