(* ===== verification/WorkflowJournalFacts.v ===== *)
(** * The resume journal: what [load_cache] makes of the recorded rows *)

From stdpp Require Import base list strings numbers sorting.
From Stdlib Require Import ZArith Lia.
From S2P Require Import Prelude PyStr Utf8 PyVal Json JsonFacts WorkflowJournal.

(** ** Rows *)

Definition row_index (d : row) : Z := match get d (lit "index") with VInt i => i | _ => 0 end.
Definition row_status (d : row) : str := match get d (lit "status") with VStr s => s | _ => [] end.

(** Index, key, status and value. *)
Definition entry : Type := Z * (str * str * value).
Definition summary (d : row) : entry := (row_index d, (row_key d, row_status d, get d (lit "value"))).

Definition is_completed (e : entry) : bool := let '(_, (_, st, _)) := e in str_eqb st completed.
Definition has_key (k : str) (e : entry) : bool := let '(_, (k', _, _)) := e in str_eqb k' k.
Definition entry_value (e : entry) : value := let '(_, (_, _, v)) := e in v.

(** A row as the runtime records it. *)
Record good (d : row) : Prop := {
  good_plain : plain (VDict d);
  good_index : dict_get d (lit "index") = Some (VInt (row_index d));
  good_key : dict_get d (lit "key") = Some (VStr (row_key d));
  good_status : dict_get d (lit "status") = Some (VStr (row_status d))
}.

Section Facts.
Variable float_repr : Z -> Z -> str.
Variable parse_float : str -> value.

Abbreviation dumps_default := (dumps_default float_repr).
Abbreviation cached_row := (cached_row parse_float).
Abbreviation load_cache := (load_cache parse_float).

(** ** Lines *)

Lemma json_char_ascii c : scalar c = true -> Forall (fun c => 32 <= c < 127) (json_char true c).
Proof.
  intros Hc. assert (0 <= c < 1114112) as Hr by (unfold scalar in Hc; lia).
  assert (forall n, 0 <= n < 65536 -> Forall (fun c => 32 <= c < 127) (u_escape n)) as Hu.
  { intros n Hn. unfold u_escape, hex4, hex_digit. cbn [app].
    rewrite !Forall_cons. split_and!; try done; repeat case_match; Z.to_euclidean_division_equations; lia. }
  unfold json_char. repeat (case_match; [by repeat constructor|]).
  destruct (Z.ltb_spec c 32); [apply Hu; lia|]. simpl andb. destruct (Z.ltb_spec 126 c).
  - destruct (Z.ltb_spec c 65536); [apply Hu; lia|]. apply Forall_app.
    split; apply Hu; Z.to_euclidean_division_equations; lia.
  - constructor; [lia|constructor].
Qed.

Lemma line_ascii v : plain v -> Forall (fun c => 32 <= c < 127) (dumps_default v).
Proof. intros Hv. apply dumps_chars; [done|exact json_char_ascii|by repeat constructor|by repeat constructor|done]. Qed.

Lemma line_no_break v : plain v -> Forall (fun c => is_linebreak c = false) (dumps_default v).
Proof.
  intros Hv. eapply Forall_impl; [by apply line_ascii|]. intros c Hc. unfold is_linebreak. simpl in Hc. lia.
Qed.

Lemma line_strip d : strip (dumps_default (VDict d)) = dumps_default (VDict d).
Proof.
  apply strip_stripped. unfold WorkflowJournal.dumps_default. cbn [dumps]. split; [done|].
  cbn [rev]. rewrite rev_app_distr. done.
Qed.

Lemma loads_line d : plain (VDict d) ->
  loads parse_float plain_object (fun name => Ok (parse_float name)) (dumps_default (VDict d)) = Ok (VDict d).
Proof.
  intros Hd. apply (loads_dumps float_repr true [32] [32]); [by repeat constructor|by repeat constructor| |done].
  intros d' Hn. unfold plain_object. by rewrite dict_of_distinct.
Qed.

Lemma splitlines_lines ds : Forall (fun d => plain (VDict d)) ds ->
  splitlines (concat (map (fun d => dumps_default (VDict d) ++ [NL]) ds)) = map (fun d => dumps_default (VDict d)) ds.
Proof.
  unfold splitlines. induction 1 as [|d ds Hd _ IH]; [done|]. cbn [map concat]. rewrite <- app_assoc. cbn [app].
  rewrite splitlines_keep_line by by apply line_no_break. cbn [map]. by rewrite drop_eol_line, IH by by apply line_no_break.
Qed.

Lemma cached_row_line d : good d ->
  cached_row (dumps_default (VDict d)) = Ok (if is_completed (summary d) then Some (row_index d, d) else None).
Proof.
  intros [Hp Hi Hk Hs]. unfold WorkflowJournal.cached_row. rewrite line_strip.
  assert (nonempty (dumps_default (VDict d)) = true) as -> by done. cbn [negb]. rewrite loads_line by done.
  rewrite Hs. unfold is_completed, summary. destruct (str_eqb (row_status d) completed); [|done].
  unfold mbind, result_bind. by rewrite Hi, Hk.
Qed.

(** ** The three passes of [load_cache] *)

Lemma index_set_new d i e : i ∉ map fst d -> index_set d i e = d ++ [(i, e)].
Proof.
  induction d as [|[j e'] d IH]; [done|]. cbn [index_set map fst]. rewrite not_elem_of_cons. intros [Hj Hd].
  destruct (Z.eqb_spec j i); [congruence|]. by rewrite IH.
Qed.

Definition indexed (ds : list row) : list (Z * row) :=
  map (fun d => (row_index d, d)) (List.filter (fun d => is_completed (summary d)) ds).

Lemma by_index_rows ds acc : Forall good ds -> NoDup (map fst acc ++ map row_index ds) ->
  foldM (fun d raw => r ← cached_row raw; Ok (match r with Some (i, e) => index_set d i e | None => d end))
    (map (fun d => dumps_default (VDict d)) ds) acc = Ok (acc ++ indexed ds).
Proof.
  intros Hg. revert acc. induction Hg as [|d ds Hd _ IH]; intros acc Hn; [by rewrite app_nil_r|].
  cbn [map foldM]. rewrite cached_row_line by done. cbn [mbind result_bind]. unfold indexed. cbn [List.filter map].
  apply list.NoDup_app in Hn as (Ha & Hx & Hr). cbn [map] in Hx, Hr. apply list.NoDup_cons in Hr as [Hdx Hr].
  destruct (is_completed (summary d)); cbn [map].
  - rewrite index_set_new by (intros H; apply (Hx _ H); left). rewrite IH; [by rewrite <- app_assoc|].
    rewrite map_app, <- app_assoc. apply list.NoDup_app. split; [done|]. cbn [map app fst]. split; [done|by apply list.NoDup_cons].
  - rewrite IH; [done|]. apply list.NoDup_app. split; [done|]. split; [|done]. intros x H H'. apply (Hx x H). by right.
Qed.

Lemma grouped_rows (l : list (Z * row)) (c : ResumeCache) k :
  cache_rows (foldl (fun c ie => dict_set c (row_key ie.2) (cache_rows c (row_key ie.2) ++ [ie.2])) c l) k
  = cache_rows c k ++ List.filter (fun d => str_eqb (row_key d) k) (map snd l).
Proof.
  revert c. induction l as [|[i d] l IH]; intros c; [by rewrite app_nil_r|]. cbn [foldl map List.filter snd].
  rewrite IH. unfold cache_rows at 1. rewrite dict_get_set. unfold str_eqb. case_bool_decide as E; [|done].
  subst. simpl. by rewrite <- app_assoc.
Qed.

(** ** The cache in issue order *)

Abbreviation before := (fun a b : entry => a.1 < b.1).

Lemma sorted_entries_unique (l1 l2 : list entry) : StronglySorted before l1 -> StronglySorted before l2 -> l1 ≡ₚ l2 -> l1 = l2.
Proof. intros H1 H2 Hp. refine (StronglySorted_unique_strong _ _ _ _ H1 H2 Hp). intros x y _ _ Hxy Hyx. lia. Qed.

Lemma filter_sorted {A} (R : A -> A -> Prop) (f : A -> bool) l : StronglySorted R l -> StronglySorted R (List.filter f l).
Proof.
  induction 1 as [|x l Hs IH Hf]; [constructor|]. cbn [List.filter]. destruct (f x); [|done]. constructor; [done|].
  rewrite Forall_forall in *. intros y Hy. apply Hf. apply list_elem_of_In in Hy. apply filter_In in Hy as [Hy _]. by apply list_elem_of_In.
Qed.

#[local] Instance filter_permutation {A} (f : A -> bool) : Proper ((≡ₚ) ==> (≡ₚ)) (List.filter f).
Proof.
  intros ? ?. induction 1 as [|x l1 l2 _ IH|x y l|l1 l2 l3 _ IH1 _ IH2]; cbn [List.filter]; [done| | |by etrans].
  - destruct (f x); by rewrite ?IH.
  - destruct (f x), (f y); try done. by constructor.
Qed.

Lemma filter_map_comm {A B} (f : B -> bool) (g : A -> B) l : List.filter f (map g l) = map g (List.filter (fun x => f (g x)) l).
Proof. induction l as [|x l IH]; [done|]. cbn. rewrite IH. by destruct (f (g x)). Qed.

(** Rows sorted by their distinct indices, seen as entries. *)
Lemma sorted_rows ds es : map summary ds ≡ₚ es -> StronglySorted before es ->
  map summary (map snd (sort_by (fun a b => a.1 <=? b.1) (indexed ds))) = List.filter is_completed es.
Proof.
  intros Hp Hs. apply sorted_entries_unique; [|by apply filter_sorted|].
  - assert (StronglySorted (fun a b : Z * row => (a.1 <=? b.1) = true) (sort_by (fun a b => a.1 <=? b.1) (indexed ds))) as Hsort.
    { apply sort_by_sorted; [intros; lia|intros; lia]. }
    assert (NoDup (map fst (sort_by (fun a b => a.1 <=? b.1) (indexed ds)))) as Hn.
    { assert (map fst (indexed ds) = map fst (List.filter is_completed (map summary ds))) as E.
      { unfold indexed. rewrite filter_map_comm, !map_map. done. }
      rewrite (sort_by_perm _ (indexed ds)), E, Hp. clear - Hs. apply (filter_sorted _ is_completed) in Hs.
      induction Hs as [|x l _ IH Hf]; [constructor|]. cbn [map]. apply list.NoDup_cons. split; [|done].
      intros (y & Hy & Hin)%list_elem_of_fmap. rewrite Forall_forall in Hf. specialize (Hf y Hin). lia. }
    assert (Forall (fun a => a.1 = (summary a.2).1) (sort_by (fun a b => a.1 <=? b.1) (indexed ds))) as Hidx.
    { rewrite sort_by_perm. unfold indexed. apply Forall_map. rewrite Forall_forall. done. }
    clear - Hsort Hn Hidx. induction Hsort as [|x l Hs IH Hf]; [constructor|]. cbn [map] in *.
    apply list.NoDup_cons in Hn as [Hx Hn]. inversion Hidx as [|? ? Hxi Hl]; subst. constructor; [auto|].
    rewrite Forall_map, Forall_map. rewrite Forall_forall in *. intros y Hy. rewrite <- Hxi, <- (Hl y Hy).
    specialize (Hf y Hy). simpl in Hf. assert (x.1 <> y.1); [|lia]. intros E. apply Hx. rewrite E.
    apply list_elem_of_In, in_map, list_elem_of_In, Hy.
  - rewrite (sort_by_perm _ (indexed ds)). unfold indexed. rewrite !map_map. cbn [snd].
    rewrite <- Hp, filter_map_comm. done.
Qed.

(** The rows of a key, in the order their calls were issued in. *)
Lemma load_cache_rows ds es : Forall good ds -> map summary ds ≡ₚ es -> StronglySorted before es ->
  exists c, load_cache (Some (concat (map (fun d => dumps_default (VDict d) ++ [NL]) ds))) = Ok c /\
  forall k, Forall (fun d => In d ds) (cache_rows c k) /\
    map (fun d => get d (lit "value")) (cache_rows c k)
    = map entry_value (List.filter (fun e => is_completed e && has_key k e) es).
Proof.
  intros Hg Hp Hs. unfold WorkflowJournal.load_cache. rewrite splitlines_lines.
  2: { clear - Hg. induction Hg as [|d l Hd _ IH]; constructor; [by apply good_plain|done]. }
  rewrite by_index_rows.
  2: done.
  2: { cbn [map app]. replace (map row_index ds) with (map fst (map summary ds)) by by rewrite map_map.
       rewrite Hp. clear - Hs. induction Hs as [|x l _ IH Hf]; [constructor|]. cbn [map]. apply list.NoDup_cons. split; [|done].
       intros (y & Hy & Hin)%list_elem_of_fmap. rewrite Forall_forall in Hf. specialize (Hf y Hin). lia. }
  cbn [mbind result_bind app]. eexists. split; [done|]. intros k. rewrite grouped_rows. cbn [app].
  change (cache_rows [] k) with (@nil row). cbn [app]. split.
  - rewrite Forall_forall. intros d Hd. apply list_elem_of_In, filter_In in Hd as [Hd _]. apply in_map_iff in Hd as ([i d'] & <- & Hd). cbn [snd].
    assert (In (i, d') (indexed ds)) as Hin. { eapply Permutation_in; [apply sort_by_perm|exact Hd]. }
    unfold indexed in Hin. apply in_map_iff in Hin as (d'' & [= _ <-] & Hin). by apply filter_In in Hin as [? _].
  - pose proof (sorted_rows ds es Hp Hs) as E. set (ss := map snd _) in *. 
    transitivity (map entry_value (List.filter (has_key k) (map summary ss))).
    + rewrite filter_map_comm, map_map. done.
    + rewrite E. f_equal. clear. induction es as [|e es IH]; [done|]. cbn [List.filter].
      destruct (is_completed e); cbn [List.filter andb]; [|done]. by rewrite IH.
Qed.
End Facts.

(** ** What [record] appends *)

Definition base_keys : list str := [lit "index"; lit "key"; lit "label"; lit "status"; lit "value"].

(** Metadata of the runtime: JSON values, under keys of their own. *)
Definition metadata_ok (m : row) : Prop :=
  Forall (fun kv => scalars kv.1 /\ plain kv.2) m /\ forallb (fun k => negb (str_in k (map fst m))) base_keys = true.

Lemma metadata_key m k : metadata_ok m -> In k base_keys -> k ∉ map fst m.
Proof.
  intros [_ H] Hk. rewrite forallb_forall in H. specialize (H k Hk). intros Hin%str_in_spec. by rewrite Hin in H.
Qed.

Lemma payload_get index key label status v m k : metadata_ok m -> In k base_keys ->
  dict_get (payload index key label status v m) k
  = dict_get [(lit "index", VInt index); (lit "key", VStr key); (lit "label", opt_str label);
              (lit "status", VStr status); (lit "value", v)] k.
Proof.
  intros Hm Hk. unfold payload.
  assert (forall d : row, dict_get (dict_update d (List.filter (fun kv => negb (is_none kv.2)) m)) k = dict_get d k) as Hu.
  { intros d. apply dict_update_get. intros ([k' w] & E & Hin)%list_elem_of_fmap. simpl in E. subst k'.
    apply list_elem_of_In, filter_In in Hin as [Hin _]. apply (metadata_key m k Hm Hk). apply list_elem_of_In, in_map_iff. by exists (k, w). }
  destruct (dict_has m (lit "requested_routing")); [|apply Hu].
  rewrite dict_get_set. unfold str_eqb. rewrite bool_decide_eq_false_2; [apply Hu|].
  intros <-. simpl in Hk. decompose [or] Hk; done.
Qed.

Lemma small_int_plain n : 0 <= n < 2 ^ 64 -> plain (VInt n).
Proof.
  intros Hn. constructor. rewrite dec_nonneg by lia.
  assert (int_digits (dec_nat n) <= len (dec_nat n)) as H1.
  { unfold int_digits. destruct (dec_nat n) as [|c r]; [done|]. rewrite len_cons. destruct (c =? 45); lia. }
  pose proof (dec_nat_len_mono n (2 ^ 64) ltac:(lia)) as H2.
  assert (len (dec_nat (2 ^ 64)) = 20) as H3 by done. lia.
Qed.

Lemma opt_str_plain s : from_option (fun s => scalars s) True s -> plain (opt_str s).
Proof. destruct s; constructor; done. Qed.

Lemma payload_good index key label status v m :
  metadata_ok m -> 0 <= index < 2 ^ 64 -> scalars key -> from_option (fun s => scalars s) True label -> scalars status -> plain v ->
  good (payload index key label status v m) /\ summary (payload index key label status v m) = (index, (key, status, v)).
Proof.
  intros Hm Hi Hk Hl Hs Hv.
  assert (forall k, In k base_keys -> get (payload index key label status v m) k
    = get [(lit "index", VInt index); (lit "key", VStr key); (lit "label", opt_str label); (lit "status", VStr status); (lit "value", v)] k) as Hget.
  { intros k Hin. unfold get. by rewrite payload_get. }
  assert (summary (payload index key label status v m) = (index, (key, status, v))) as E.
  { unfold summary, row_index, row_key, row_status. rewrite !Hget by (simpl; tauto). done. }
  split; [|done]. unfold summary in E. injection E as E1 E2 E3 E4.
  split; rewrite ?E1, ?E2, ?E3, ?payload_get by (done || (simpl; tauto)); [|done..].
  assert (plain (VDict (dict_update [(lit "index", VInt index); (lit "key", VStr key); (lit "label", opt_str label);
    (lit "status", VStr status); (lit "value", v)] (List.filter (fun kv => negb (is_none kv.2)) m)))) as Hp.
  { apply dict_update_plain.
    - constructor; [|by apply (bool_decide_unpack _); vm_compute].
      repeat (constructor; [split; [by repeat constructor|]|]); try done; try by constructor.
      + by apply small_int_plain.
      + by apply opt_str_plain.
    - destruct Hm as [Hm _]. clear - Hm. induction Hm as [|x m Hx _ IH]; [constructor|]. cbn [List.filter].
      destruct (negb (is_none x.2)); by try constructor. }
  unfold payload. destruct (dict_has m (lit "requested_routing")); [|done].
  apply dict_set_plain; [done|by repeat constructor|]. destruct Hm as [Hm _]. unfold get. clear - Hm.
  induction Hm as [|[k w] m [_ Hw] _ IH]; [constructor|]. simpl. by destruct (str_eqb k _).
Qed.
