(* ===== verification/WorkflowRuntime.v ===== *)
(** * The workflow runtime

    Models [WorkflowRuntime] of [kolega_code/agent/orchestration/runtime.py]: the
    [agent] primitive with its admission, accounting, journal and replay,
    [phase], [log], and the fan-outs [parallel] and [pipeline].

    The runtime lives on one event loop, so the code of [agent] between two
    [await]s is atomic.  A call that waits is an element of [calls], at the
    position of its index, and [agent_state] is the place it has reached: on the
    semaphore, in the random delay, in the dispatch with its ticket, or ended.
    [step] is one such piece of code, with what the outside decides (the
    arguments, the result of the dispatch, a cancellation); the sub-agents of a
    run reserve and report through the same accounting at any time
    ([NestedReserve], [LiveReport]).  What [_emit_soon] schedules is the list
    [emitted], in order.  [repr] is the [repr] of a string. *)

From stdpp Require Import base list strings numbers.
From Stdlib Require Import ZArith Lia.
From S2P Require Import Prelude PyStr PyVal Json WorkflowJournal.

Definition MAX_FANOUT : Z := 4096.
Definition DEFAULT_AGENT_CAP : Z := 1000.
Definition DROPPED_ITEM_LOG_LIMIT : Z := 10.
Definition DEFAULT_WORKFLOW_CONCURRENCY : Z := 8.

(** [Returned] remembers the status the journal got. *)
Inductive agent_state :=
| Waiting                              (* on the semaphore *)
| Staggering                           (* in the delay, holding the semaphore *)
| Dispatching (ticket : nat)
| Replayed (v : value)
| Returned (status : str) (v : value)
| Failed (e : workflow_error).

Record call := mkCall { spec : AgentRunSpec; key : str; state : agent_state }.

Record runtime := mkRuntime {
  acct : accounting;
  journal : option str;
  transcript : option str;
  sem : Z;
  _call_index : Z;
  _current_phase : option str;
  _resume_cache : ResumeCache;
  emitted : list (str * row);
  _seen_labels : list str;
  _warned_duplicate_labels : list str;
  _dropped_items : list row;
  _budget_thresholds_warned : list Z;
  calls : list call
}.

Definition set_acct (v : accounting) (s : runtime) : runtime :=
  mkRuntime v (journal s) (transcript s) (sem s) (_call_index s) (_current_phase s) (_resume_cache s) (emitted s) (_seen_labels s) (_warned_duplicate_labels s) (_dropped_items s) (_budget_thresholds_warned s) (calls s).
Definition set_journal (v : option str) (s : runtime) : runtime :=
  mkRuntime (acct s) v (transcript s) (sem s) (_call_index s) (_current_phase s) (_resume_cache s) (emitted s) (_seen_labels s) (_warned_duplicate_labels s) (_dropped_items s) (_budget_thresholds_warned s) (calls s).
Definition set_transcript (v : option str) (s : runtime) : runtime :=
  mkRuntime (acct s) (journal s) v (sem s) (_call_index s) (_current_phase s) (_resume_cache s) (emitted s) (_seen_labels s) (_warned_duplicate_labels s) (_dropped_items s) (_budget_thresholds_warned s) (calls s).
Definition set_sem (v : Z) (s : runtime) : runtime :=
  mkRuntime (acct s) (journal s) (transcript s) v (_call_index s) (_current_phase s) (_resume_cache s) (emitted s) (_seen_labels s) (_warned_duplicate_labels s) (_dropped_items s) (_budget_thresholds_warned s) (calls s).
Definition set_call_index (v : Z) (s : runtime) : runtime :=
  mkRuntime (acct s) (journal s) (transcript s) (sem s) v (_current_phase s) (_resume_cache s) (emitted s) (_seen_labels s) (_warned_duplicate_labels s) (_dropped_items s) (_budget_thresholds_warned s) (calls s).
Definition set_current_phase (v : option str) (s : runtime) : runtime :=
  mkRuntime (acct s) (journal s) (transcript s) (sem s) (_call_index s) v (_resume_cache s) (emitted s) (_seen_labels s) (_warned_duplicate_labels s) (_dropped_items s) (_budget_thresholds_warned s) (calls s).
Definition set_resume_cache (v : ResumeCache) (s : runtime) : runtime :=
  mkRuntime (acct s) (journal s) (transcript s) (sem s) (_call_index s) (_current_phase s) v (emitted s) (_seen_labels s) (_warned_duplicate_labels s) (_dropped_items s) (_budget_thresholds_warned s) (calls s).
Definition set_emitted (v : list (str * row)) (s : runtime) : runtime :=
  mkRuntime (acct s) (journal s) (transcript s) (sem s) (_call_index s) (_current_phase s) (_resume_cache s) v (_seen_labels s) (_warned_duplicate_labels s) (_dropped_items s) (_budget_thresholds_warned s) (calls s).
Definition set_dropped_items (v : list row) (s : runtime) : runtime :=
  mkRuntime (acct s) (journal s) (transcript s) (sem s) (_call_index s) (_current_phase s) (_resume_cache s) (emitted s) (_seen_labels s) (_warned_duplicate_labels s) v (_budget_thresholds_warned s) (calls s).
Definition set_budget_thresholds_warned (v : list Z) (s : runtime) : runtime :=
  mkRuntime (acct s) (journal s) (transcript s) (sem s) (_call_index s) (_current_phase s) (_resume_cache s) (emitted s) (_seen_labels s) (_warned_duplicate_labels s) (_dropped_items s) v (calls s).
Definition set_calls (v : list call) (s : runtime) : runtime :=
  mkRuntime (acct s) (journal s) (transcript s) (sem s) (_call_index s) (_current_phase s) (_resume_cache s) (emitted s) (_seen_labels s) (_warned_duplicate_labels s) (_dropped_items s) (_budget_thresholds_warned s) v.
Definition set_labels (seen warned : list str) (s : runtime) : runtime :=
  mkRuntime (acct s) (journal s) (transcript s) (sem s) (_call_index s) (_current_phase s) (_resume_cache s) (emitted s) seen warned (_dropped_items s) (_budget_thresholds_warned s) (calls s).

Record agent_args := mkArgs {
  a_prompt : value;
  a_label : option str;
  a_phase : option str;
  a_schema : value;
  a_model_override : value;
  a_agent_type : option str;
  a_browser_target : value;
  a_legacy_kwargs : list str          (* the names of the other keyword arguments *)
}.

(** Exceptions of the authored script: the ones a fan-out lets through (budget,
    agent cap, cancellation), and the others, with the line of the script. *)
Inductive exc :=
| RunGlobal (e : workflow_error)
| Ordinary (type_name message : str) (script_line : option Z).
Inductive outcome := Value (v : value) | Threw (e : exc).

Section Runtime.
Variable lower : str -> str.
Variable sha1_hex : bytes -> str.
Variable float_repr : Z -> Z -> str.
Variable repr : str -> str.

(** The parameters of the constructor that never change. *)
Variable max_agent_depth : Z.
Variable routing_fingerprint : option str.
Variable actual_agent_type_resolver : option (option str -> str).
Variable read_only_mode : bool.

Definition init (total : option Z) (cap : Z) (concurrency : option Z) (resume_cache : option ResumeCache) : runtime :=
  mkRuntime (accounting_init (budget_init total) cap) None None
    (match concurrency with Some c => if c =? 0 then DEFAULT_WORKFLOW_CONCURRENCY else c | None => DEFAULT_WORKFLOW_CONCURRENCY end)
    0 None (default [] resume_cache) [] [] [] [] [] [].

(** ** Progress *)

Definition _emit_soon (event_type : str) (content : row) (s : runtime) : runtime :=
  set_emitted (emitted s ++ [(event_type, content)]) s.
Definition emit_log (message : str) (s : runtime) : runtime := _emit_soon (lit "workflow_log") [(lit "message", VStr message)] s.

Definition phase (title : str) (s : runtime) : runtime :=
  _emit_soon (lit "workflow_phase") [(lit "title", VStr title)] (set_current_phase (Some title) s).
Definition log (message : str) (s : runtime) : runtime := emit_log message s.

Definition budget_message (threshold spent total : Z) : str :=
  lit "token budget " ++ dec threshold ++ lit "% consumed (" ++ dec_comma spent ++ lit " of " ++ dec_comma total ++ lit ") " ++ [8212]
  ++ lit " the run stops hard at the cap; completed calls replay free on resume".

Definition warn_threshold (total : Z) (s : runtime) (threshold : Z) : runtime :=
  if existsb (Z.eqb threshold) (_budget_thresholds_warned s) then s
  else
    let spent := spent (budget_of (acct s)) in
    if total * threshold <=? spent * 100
    then emit_log (budget_message threshold spent total) (set_budget_thresholds_warned (threshold :: _budget_thresholds_warned s) s)
    else s.
Definition _maybe_warn_budget_threshold (s : runtime) : runtime :=
  match total (budget_of (acct s)) with
  | Some total => if total =? 0 then s else foldl (warn_threshold total) s [75; 90]
  | None => s
  end.

(** ** [agent] *)

(** The checks before the index is assigned, and the spec. *)
Definition agent_spec (s : runtime) (a : agent_args) : result workflow_error AgentRunSpec :=
  let legacy_routing := List.filter (fun n => str_in n (a_legacy_kwargs a)) [lit "effort"; lit "model"] in
  if nonempty legacy_routing then Raise (LegacyRouting legacy_routing)
  else if nonempty (a_legacy_kwargs a) then Raise (UnexpectedKeywords (sorted_names (a_legacy_kwargs a)))
  else match nonblank (a_prompt a) with
       | None => Raise EmptyPrompt
       | Some prompt =>
           browser_target ← match a_browser_target a with
                            | VNone => Ok None
                            | v => match nonblank v with Some t => Ok (Some t) | None => Raise BadBrowserTarget end
                            end;
           if match browser_target with Some _ => true | None => false end
              && negb (str_eqb (lower (default [] (a_agent_type a))) (lit "browser"))
           then Raise BrowserTargetWithoutBrowser
           else match parse_atomic_model_override lower (a_model_override a) (lit "effort") with
                | Raise e => Raise (InvalidOverride e)
                | Ok override =>
                    Ok (mkSpec prompt (a_label a)
                          (match a_phase a with Some p => if nonempty p then Some p else _current_phase s | None => _current_phase s end)
                          (a_schema a) override (a_agent_type a) browser_target routing_fingerprint
                          (match actual_agent_type_resolver with Some f => Some (f (a_agent_type a)) | None => None end)
                          read_only_mode max_agent_depth (_call_index s))
                end
       end.

Definition duplicate_message (l : str) : str :=
  lit "note: duplicate agent label " ++ repr l ++ [32; 8212; 32]
  ++ lit "labels name transcripts and progress lines; give fan-out seats unique labels".

Definition note_label (sp : AgentRunSpec) (s : runtime) : runtime :=
  match label sp with
  | None => s
  | Some l =>
      let seen := if str_in l (_seen_labels s) then _seen_labels s else l :: _seen_labels s in
      if str_in l (_seen_labels s) && negb (str_in l (_warned_duplicate_labels s))
      then emit_log (duplicate_message l) (set_labels seen (l :: _warned_duplicate_labels s) s)
      else set_labels seen (_warned_duplicate_labels s) s
  end.

(** The metadata of a replayed row. *)
Definition carried (replayed : row) : row :=
  let fields := [lit "actual_agent_type"; lit "effective_routing"; lit "transcript_path"; lit "transcript_markdown_path"] in
  let c := map (fun f => (f, get replayed f)) (List.filter (fun f => negb (is_none (get replayed f))) fields) in
  if dict_has replayed (lit "requested_routing") then c ++ [(lit "requested_routing", get replayed (lit "requested_routing"))] else c.

Definition replay_metadata (sp : AgentRunSpec) (replayed : row) : row :=
  [(lit "replayed", VBool true); (lit "phase", opt_str (WorkflowJournal.phase sp)); (lit "agent_type", opt_str (agent_type sp));
   (lit "max_agent_depth", VInt (WorkflowJournal.max_agent_depth sp))] ++ carried replayed.

Definition display_label (sp : AgentRunSpec) : str :=
  match label sp with Some l => if nonempty l then l else slice_to (prompt sp) 60 | None => slice_to (prompt sp) 60 end.

Definition replay (sp : AgentRunSpec) (k : str) (replayed : row) (s : runtime) : runtime :=
  let cached_value := get replayed (lit "value") in
  let s := set_journal (record float_repr (journal s) (call_index sp) k (label sp) cached_value completed (replay_metadata sp replayed)) s in
  let s := set_transcript (append_transcript_event float_repr (transcript s)
             [(lit "type", VStr (lit "agent_cached")); (lit "index", VInt (call_index sp)); (lit "label", VStr (display_label sp));
              (lit "phase", opt_str (WorkflowJournal.phase sp)); (lit "value", cached_value)]) s in
  let s := _emit_soon (lit "workflow_agent_cached")
             [(lit "label", VStr (display_label sp)); (lit "phase", opt_str (WorkflowJournal.phase sp))] s in
  set_calls (calls s ++ [mkCall sp k (Replayed cached_value)]) s.

(** [agent] up to its first [await]; an error leaves the runtime as it was. *)
Definition agent_begin (a : agent_args) (s : runtime) : result workflow_error runtime :=
  sp ← agent_spec s a;
  let k := cache_key sha1_hex float_repr sp in
  let s := note_label sp (set_call_index (_call_index s + 1) s) in
  let '(replayed, cache) := take_row (_resume_cache s) k in
  let s := set_resume_cache cache s in
  match replayed with
  | Some r => Ok (replay sp k r s)
  | None => Ok (set_calls (calls s ++ [mkCall sp k Waiting]) s)
  end.

Definition set_state (i : nat) (st : agent_state) (s : runtime) : runtime :=
  set_calls (alter (fun c => mkCall (spec c) (key c) st) i (calls s)) s.

(** The semaphore is taken. *)
Definition agent_acquire (i : nat) (s : runtime) : runtime := set_state i Staggering (set_sem (sem s - 1) s).

(** After the delay: the reservation, whose failure leaves the semaphore. *)
Definition agent_reserve (i : nat) (s : runtime) : runtime :=
  match reserve_agent (acct s) with
  | Ok (ticket, a) => set_state i (Dispatching ticket) (set_acct a s)
  | Raise e => set_state i (Failed e) (set_sem (sem s + 1) s)
  end.

Definition result_metadata (sp : AgentRunSpec) (r : AgentRunResult) : row :=
  [(lit "phase", opt_str (WorkflowJournal.phase sp)); (lit "agent_type", opt_str (agent_type sp));
   (lit "max_agent_depth", VInt (WorkflowJournal.max_agent_depth sp)); (lit "tokens", tokens r); (lit "error", opt_str (error r));
   (lit "transcript_path", opt_str (transcript_path r)); (lit "transcript_markdown_path", opt_str (transcript_markdown_path r));
   (lit "requested_routing", requested_routing r); (lit "effective_routing", effective_routing r);
   (lit "actual_agent_type", opt_str (res_actual_agent_type r))].

Definition call_event (sp : AgentRunSpec) (r : AgentRunResult) : row :=
  [(lit "type", VStr (lit "agent_call")); (lit "index", VInt (call_index sp)); (lit "label", opt_str (label sp));
   (lit "phase", opt_str (WorkflowJournal.phase sp)); (lit "agent_type", opt_str (agent_type sp));
   (lit "actual_agent_type", opt_str (res_actual_agent_type r)); (lit "requested_routing", requested_routing r);
   (lit "effective_routing", effective_routing r); (lit "max_agent_depth", VInt (WorkflowJournal.max_agent_depth sp));
   (lit "status", VStr (res_status r)); (lit "tokens", tokens r); (lit "error", opt_str (error r)); (lit "value", result_value r);
   (lit "transcript_path", opt_str (transcript_path r)); (lit "transcript_markdown_path", opt_str (transcript_markdown_path r))].

(** The [finally] of the dispatch, and the semaphore. *)
Definition agent_release (ticket : nat) (tokens : value) (s : runtime) : runtime :=
  set_sem (sem s + 1) (set_acct (report_total (acct s) ticket tokens) s).

(** The dispatch returned [r]. *)
Definition agent_finish (i : nat) (c : call) (ticket : nat) (r : AgentRunResult) (s : runtime) : runtime :=
  let s := _maybe_warn_budget_threshold (agent_release ticket (tokens r) s) in
  let s := set_journal (record float_repr (journal s) (call_index (spec c)) (key c) (label (spec c)) (result_value r)
                          (res_status r) (result_metadata (spec c) r)) s in
  let s := set_transcript (append_transcript_event float_repr (transcript s) (call_event (spec c) r)) s in
  set_state i (Returned (res_status r) (result_value r)) s.

(** An exception, or a cancellation, at the [await] the call has reached. *)
Definition agent_throw (i : nat) (c : call) (e : workflow_error) (s : runtime) : runtime :=
  match state c with
  | Waiting => set_state i (Failed e) s
  | Staggering => set_state i (Failed e) (set_sem (sem s + 1) s)
  | Dispatching ticket => set_state i (Failed e) (agent_release ticket VNone s)
  | _ => s
  end.

(** ** Steps *)

Inductive event :=
| Call (a : agent_args)
| Acquire (i : nat)
| Reserve (i : nat)
| Finish (i : nat) (r : AgentRunResult)
| DispatchError (i : nat)
| Cancel (i : nat)
| Phase (title : str)
| Log (message : str)
| NestedReserve
| LiveReport (ticket : nat) (tokens : value).

Inductive step (s : runtime) : event -> runtime -> Prop :=
| step_call a s' : agent_begin a s = Ok s' -> step s (Call a) s'
| step_call_error a e : agent_begin a s = Raise e -> step s (Call a) s
| step_acquire i c : calls s !! i = Some c -> state c = Waiting -> 0 < sem s -> step s (Acquire i) (agent_acquire i s)
| step_reserve i c : calls s !! i = Some c -> state c = Staggering -> step s (Reserve i) (agent_reserve i s)
| step_finish i c t r : calls s !! i = Some c -> state c = Dispatching t -> step s (Finish i r) (agent_finish i c t r s)
| step_dispatch_error i c t :
    calls s !! i = Some c -> state c = Dispatching t -> step s (DispatchError i) (agent_throw i c DispatchRaised s)
| step_cancel i c : calls s !! i = Some c -> step s (Cancel i) (agent_throw i c TaskCancelled s)
| step_phase t : step s (Phase t) (phase t s)
| step_log m : step s (Log m) (log m s)
| step_nested t a : reserve_agent (acct s) = Ok (t, a) -> step s NestedReserve (set_acct a s)
| step_report t v : step s (LiveReport t v) (set_acct (report_total (acct s) t v) s).

Inductive steps : runtime -> list event -> runtime -> Prop :=
| steps_refl s : steps s [] s
| steps_step s e s1 es s2 : step s e s1 -> steps s1 es s2 -> steps s (e :: es) s2.

(** The steps as a function. *)
Definition exec (s : runtime) (e : event) : option runtime :=
  match e with
  | Call a => Some (match agent_begin a s with Ok s' => s' | Raise _ => s end)
  | Acquire i =>
      c ← calls s !! i;
      match state c with Waiting => if 0 <? sem s then Some (agent_acquire i s) else None | _ => None end
  | Reserve i => c ← calls s !! i; match state c with Staggering => Some (agent_reserve i s) | _ => None end
  | Finish i r => c ← calls s !! i; match state c with Dispatching t => Some (agent_finish i c t r s) | _ => None end
  | DispatchError i => c ← calls s !! i; match state c with Dispatching _ => Some (agent_throw i c DispatchRaised s) | _ => None end
  | Cancel i => c ← calls s !! i; Some (agent_throw i c TaskCancelled s)
  | Phase t => Some (phase t s)
  | Log m => Some (log m s)
  | NestedReserve => match reserve_agent (acct s) with Ok (_, a) => Some (set_acct a s) | Raise _ => None end
  | LiveReport t v => Some (set_acct (report_total (acct s) t v) s)
  end.
Fixpoint run (s : runtime) (es : list event) : option runtime :=
  match es with [] => Some s | e :: es' => s' ← exec s e; run s' es' end.

(** ** Fan-outs *)

Definition dropped_error (type_name message : str) : str :=
  let e := type_name ++ lit ": " ++ message in if 200 <? len e then slice_to e 200 ++ [8230] else e.

Definition opt_int (n : option Z) : value := match n with Some n => VInt n | None => VNone end.

Definition dropped_message (where_ : str) (item : Z) (stage : option Z) (error : str) (script_line : option Z) : str :=
  where_ ++ lit " item " ++ dec item
  ++ match stage with Some j => lit " stage " ++ dec (j + 1) | None => [] end
  ++ lit " raised " ++ error
  ++ match script_line with Some l => if l =? 0 then [] else lit " at script line " ++ dec l | None => [] end
  ++ [32; 8212; 32] ++ lit "item dropped (None)".

Definition _record_dropped_item (where_ : str) (item : Z) (stage : option Z) (type_name message : str) (script_line : option Z)
    (s : runtime) : runtime :=
  let error := dropped_error type_name message in
  let record := [(lit "where", VStr where_); (lit "item", VInt item); (lit "stage", opt_int stage); (lit "error", VStr error);
                 (lit "script_line", opt_int script_line)] in
  let s := set_dropped_items (_dropped_items s ++ [record]) s in
  let s := set_transcript (append_transcript_event float_repr (transcript s)
             ((lit "type", VStr (lit "fanout_item_dropped")) :: record)) s in
  let shown := len (_dropped_items s) in
  if DROPPED_ITEM_LOG_LIMIT <? shown then s
  else
    let s := emit_log (dropped_message where_ item stage error script_line) s in
    if shown =? DROPPED_ITEM_LOG_LIMIT then emit_log (lit "further dropped-item reports go to the transcript only") s else s.

(** The end of [_invoke] and of [chain]. *)
Definition settle (where_ : str) (item : Z) (stage : option Z) (o : outcome) (s : runtime) : result workflow_error value * runtime :=
  match o with
  | Value v => (Ok v, s)
  | Threw (RunGlobal e) => (Raise e, s)
  | Threw (Ordinary type_name message line) => (Ok VNone, _record_dropped_item where_ item stage type_name message line s)
  end.

(** The stages of an item, each given the previous result, the item and its
    index: where it ends, and how. *)
Fixpoint chain (stages : list (value -> value -> Z -> outcome)) (stage_index : Z) (v original : value) (index : Z) : option Z * outcome :=
  match stages with
  | [] => (None, Value v)
  | stage :: stages' =>
      match stage v original index with
      | Value v' => chain stages' (stage_index + 1) v' original index
      | Threw e => (Some stage_index, Threw e)
      end
  end.

(** [asyncio.gather]: the items in the order they end; the first exception is
    that of the fan-out. *)
Fixpoint gather (where_ : str) (ends : list (nat * (option Z * outcome))) (results : list (option value)) (s : runtime)
    : result workflow_error (list (option value)) * runtime :=
  match ends with
  | [] => (Ok results, s)
  | (i, (stage, o)) :: ends' =>
      match settle where_ (Z.of_nat i) stage o s with
      | (Ok v, s) => gather where_ ends' (<[i := Some v]> results) s
      | (Raise e, s) => (Raise e, s)
      end
  end.

Definition all_dropped_message (where_ : str) (n drops : Z) : str :=
  where_ ++ lit ": all " ++ dec n ++ lit " items returned None (" ++ dec drops
  ++ lit " dropped by exceptions raised in the workflow script) " ++ [8212]
  ++ lit " this usually means a script bug, not agent failures".

Definition _maybe_warn_all_dropped (where_ : str) (results : list value) (drops_before : Z) (s : runtime) : runtime :=
  let drops := len (_dropped_items s) - drops_before in
  if negb (nonempty results) || (drops =? 0) || existsb (fun v => negb (is_none v)) results then s
  else emit_log (all_dropped_message where_ (len results) drops) s.

(** [ends] says where and how each item ends, [order] the order in which they do;
    [gather] returns when all have. *)
Definition fanout (where_ : str) (ends : list (option Z * outcome)) (order : list nat) (s : runtime)
    : option (result workflow_error (list value) * runtime) :=
  if MAX_FANOUT <? len ends then Some (Raise TooManyItems, s)
  else
    let drops_before := len (_dropped_items s) in
    match gather where_ (omap (fun i => o ← ends !! i; Some (i, o)) order) (replicate (length ends) None) s with
    | (Raise e, s) => Some (Raise e, s)
    | (Ok results, s) =>
        match mapM id results with
        | Some values => Some (Ok values, _maybe_warn_all_dropped where_ values drops_before s)
        | None => None
        end
    end.

Definition parallel (thunks : list outcome) (order : list nat) (s : runtime) : option (result workflow_error (list value) * runtime) :=
  fanout (lit "parallel") (map (fun o => (None, o)) thunks) order s.
Definition pipeline (items : list value) (stages : list (value -> value -> Z -> outcome)) (order : list nat) (s : runtime)
    : option (result workflow_error (list value) * runtime) :=
  fanout (lit "pipeline") (imap (fun i v => chain stages 0 v v (Z.of_nat i)) items) order s.
End Runtime.
