(* ===== verification/WorkflowRuntimeFacts.v ===== *)
(** * The workflow runtime: invariants of its steps *)

From stdpp Require Import base list strings numbers sorting.
From Stdlib Require Import ZArith Lia.
From S2P Require Import Prelude PyStr Utf8 PyVal Json JsonFacts WorkflowJournal WorkflowJournalFacts WorkflowRuntime.

(** ** Counting calls *)

Definition sumf {A} (f : A -> Z) (l : list A) : Z := foldr (fun x n => f x + n) 0 l.
Abbreviation count p := (sumf (fun x => Z.b2z (p x))).

Lemma sumf_cons {A} (f : A -> Z) x l : sumf f (x :: l) = f x + sumf f l.
Proof. done. Qed.
Lemma sumf_app {A} (f : A -> Z) l1 l2 : sumf f (l1 ++ l2) = sumf f l1 + sumf f l2.
Proof. induction l1 as [|x l1 IH]; [done|]. cbn [app]. rewrite !sumf_cons, IH. lia. Qed.
Lemma sumf_bounds {A} (f : A -> Z) m l : (forall x, 0 <= f x <= m) -> 0 <= sumf f l <= m * len l.
Proof. intros H. induction l as [|x l IH]; [change (len (@nil A)) with 0; change (sumf f []) with 0; lia|]. rewrite sumf_cons, len_cons. specialize (H x). lia. Qed.
Lemma sumf_alter {A} (f : A -> Z) g i l x : l !! i = Some x -> sumf f (alter g i l) = sumf f l - f x + f (g x).
Proof.
  revert i. induction l as [|y l IH]; intros [|i] H; try done.
  - injection H as ->. change (alter g 0%nat (x :: l)) with (g x :: l). rewrite !sumf_cons. lia.
  - change (alter g (S i) (y :: l)) with (y :: alter g i l). rewrite !sumf_cons, (IH i) by done. lia.
Qed.

Definition holds (st : agent_state) : bool := match st with Staggering | Dispatching _ => true | _ => false end.
Definition holding (c : call) : bool := holds (state c).
Definition over (c : call) : bool := match state c with Waiting | Staggering | Dispatching _ => false | _ => true end.

(** ** The sum of the reservations *)

Abbreviation sum := (foldr Z.add 0).

Lemma sum_insert (l : list Z) i x y : l !! i = Some x -> sum (<[i := y]> l) = sum l - x + y.
Proof.
  revert i. induction l as [|z l IH]; intros [|i] H; simpl in *; try done; [simplify_eq; lia|]. rewrite (IH i) by done. lia.
Qed.

Record accounting_ok (total : option Z) (cap : Z) (a : accounting) : Prop := {
  ok_total : WorkflowJournal.total (budget_of a) = total;
  ok_cap : agent_cap a = cap;
  ok_count : agent_count a = len (reported a);
  ok_limit : agent_count a <= Z.max 0 cap;
  ok_spent : _spent (budget_of a) = sum (reported a);
  ok_reported : Forall (fun n => 0 <= n) (reported a)
}.

Lemma accounting_init_ok total cap : accounting_ok total cap (accounting_init (budget_init total) cap).
Proof. split; [done..|cbn; lia|done|constructor]. Qed.

Lemma reserve_ok total cap a t a' : accounting_ok total cap a -> reserve_agent a = Ok (t, a') ->
  accounting_ok total cap a' /\ check (budget_of a) = Ok () /\ agent_count a < cap /\
  t = length (reported a) /\ budget_of a' = budget_of a /\ reported a' = reported a ++ [0].
Proof.
  intros [H1 H2 H3 H4 H5 H6] H. unfold reserve_agent in H. destruct (check (budget_of a)) as [[]|] eqn:Ec; [|done]. cbn in H.
  destruct (Z.leb_spec (agent_cap a) (agent_count a)); [done|]. simplify_eq. split_and!; try done.
  split; cbn; try done.
  - rewrite len_app, H3. done.
  - lia.
  - rewrite sum_list_Z_app, H5. simpl. lia.
  - apply Forall_app. split; [done|by repeat constructor].
Qed.

Lemma report_ok total cap a t v : accounting_ok total cap a ->
  accounting_ok total cap (report_total a t v) /\ length (reported (report_total a t v)) = length (reported a) /\
  _spent (budget_of a) <= _spent (budget_of (report_total a t v)).
Proof.
  intros Ha. pose proof Ha as [H1 H2 H3 H4 H5 H6]. unfold report_total. destruct v; try (by split_and!).
  destruct (reported a !! t) as [r|] eqn:Et; [|by split_and!].
  destruct (Z.leb_spec (n - r) 0); [by split_and!|]. cbn [budget_of reported].
  assert (0 <= r) by (rewrite Forall_lookup in H6; by apply (H6 t)).
  split_and!.
  - split; cbn; try done.
    + unfold len. by rewrite length_insert.
    + rewrite (sum_insert _ _ r) by done. lia.
    + apply Forall_insert; [done|lia].
  - by rewrite length_insert.
  - cbn. lia.
Qed.

(** Once the budget is spent, it stays so. *)
Definition exhausted (b : budget) : Prop := check b = Raise WorkflowBudgetExceeded.

Lemma exhausted_mono total cap a a' :
  accounting_ok total cap a -> accounting_ok total cap a' -> _spent (budget_of a) <= _spent (budget_of a') ->
  exhausted (budget_of a) -> exhausted (budget_of a').
Proof.
  intros [Ht _ _ _ _ _] [Ht' _ _ _ _ _] Hs. unfold exhausted, check. rewrite Ht, Ht'. destruct total as [t|]; [|done].
  destruct (Z.leb_spec t (_spent (budget_of a))); [|done]. intros _. destruct (Z.leb_spec t (_spent (budget_of a'))); [done|lia].
Qed.

Section Facts.
Variable lower : str -> str.
Variable sha1_hex : bytes -> str.
Variable float_repr : Z -> Z -> str.
Variable parse_float : str -> value.
Variable repr : str -> str.
Variable max_agent_depth : Z.
Variable routing_fingerprint : option str.
Variable actual_agent_type_resolver : option (option str -> str).
Variable read_only_mode : bool.

Abbreviation agent_spec := (agent_spec lower max_agent_depth routing_fingerprint actual_agent_type_resolver read_only_mode).
Abbreviation agent_begin :=
  (agent_begin lower sha1_hex float_repr repr max_agent_depth routing_fingerprint actual_agent_type_resolver read_only_mode).
Abbreviation step := (step lower sha1_hex float_repr repr max_agent_depth routing_fingerprint actual_agent_type_resolver read_only_mode).
Abbreviation steps := (steps lower sha1_hex float_repr repr max_agent_depth routing_fingerprint actual_agent_type_resolver read_only_mode).
Abbreviation cache_key := (cache_key sha1_hex float_repr).

Abbreviation run := (run lower sha1_hex float_repr repr max_agent_depth routing_fingerprint actual_agent_type_resolver read_only_mode).

Lemma run_steps s es s' : run s es = Some s' -> steps s es s'.
Proof.
  revert s. induction es as [|e es IH]; intros s H; cbn [WorkflowRuntime.run] in H; [injection H as <-; constructor|].
  apply bind_Some in H as (s1 & He & H). apply steps_step with s1; [|by apply IH]. clear IH H. destruct e; cbn [exec] in He.
  all: try (injection He as <-; by constructor).
  all: try (apply bind_Some in He as (c & Hc & He)).
  all: try (destruct (state c) eqn:Est; try done; injection He as <-; by econstructor).
  - destruct (agent_begin a s) as [s''|er] eqn:Eb; injection He as <-; [by constructor|by econstructor].
  - destruct (state c) eqn:Est; try done. destruct (Z.ltb_spec 0 (sem s)); [|done]. injection He as <-. by econstructor.
  - destruct (reserve_agent (acct s)) as [[t a]|] eqn:Er; [|done]. injection He as <-. by econstructor.
Qed.

(** ** What the operations leave alone *)

Lemma warn_frame s : exists e w, _maybe_warn_budget_threshold s = set_emitted e (set_budget_thresholds_warned w s).
Proof.
  assert (forall t n s, exists e w, warn_threshold t s n = set_emitted e (set_budget_thresholds_warned w s)) as H.
  { intros t n []. unfold warn_threshold. repeat case_match; eexists _, _; reflexivity. }
  unfold _maybe_warn_budget_threshold. destruct (total _) as [t|]; [|destruct s; by eexists _, _].
  destruct (t =? 0); [destruct s; by eexists _, _|]. cbn [foldl].
  destruct (H t 75 s) as (e & w & ->). destruct (H t 90 (set_emitted e (set_budget_thresholds_warned w s))) as (e' & w' & ->).
  destruct s. by eexists _, _.
Qed.

Lemma note_label_frame sp s : exists e x y, note_label repr sp s = set_emitted e (set_labels x y s).
Proof.
  exists (emitted (note_label repr sp s)), (_seen_labels (note_label repr sp s)), (_warned_duplicate_labels (note_label repr sp s)).
  destruct s. unfold note_label. destruct (label sp) as [l|]; [|done]. cbv zeta. by destruct (_ && _).
Qed.

(** The place a call starts in. *)
Definition begin_state (r : option row) : agent_state :=
  match r with Some r => Replayed (get r (lit "value")) | None => Waiting end.

Lemma agent_begin_effect a s s' : agent_begin a s = Ok s' ->
  exists sp, agent_spec s a = Ok sp /\
  let k := cache_key sp in
  let r := fst (take_row (_resume_cache s) k) in
  acct s' = acct s /\ sem s' = sem s /\ _call_index s' = _call_index s + 1 /\ _current_phase s' = _current_phase s /\
  _resume_cache s' = snd (take_row (_resume_cache s) k) /\ calls s' = calls s ++ [mkCall sp k (begin_state r)] /\
  journal s' = match r with
               | Some r => record float_repr (journal s) (call_index sp) k (label sp) (get r (lit "value")) completed
                             (replay_metadata sp r)
               | None => journal s
               end.
Proof.
  intros H. unfold WorkflowRuntime.agent_begin in H. destruct (agent_spec s a) as [sp|] eqn:Esp; [|done].
  exists sp. split; [done|]. cbn [mbind result_bind] in H.
  destruct (note_label_frame sp (set_call_index (_call_index s + 1) s)) as (e & x & y & E). rewrite E in H. clear E.
  cbn [_resume_cache set_emitted set_labels set_call_index] in H.
  cbv zeta. destruct (take_row (_resume_cache s) (cache_key sp)) as [[r|] c']; injection H as <-; destruct s; split_and!; reflexivity.
Qed.

Lemma agent_spec_fields s a sp : agent_spec s a = Ok sp ->
  call_index sp = _call_index s /\ label sp = a_label a /\ agent_type sp = a_agent_type a /\
  WorkflowJournal.max_agent_depth sp = max_agent_depth /\ WorkflowJournal.read_only_mode sp = read_only_mode /\
  (WorkflowJournal.phase sp = a_phase a \/ WorkflowJournal.phase sp = _current_phase s).
Proof.
  unfold WorkflowRuntime.agent_spec. intros H. repeat (case_match; try discriminate).
  all: try (apply bind_Ok in H as (? & _ & H)); repeat (case_match; try discriminate); injection H as <-; cbn; split_and!; auto.
Qed.

(** ** Limits *)

Record limits (total : option Z) (cap conc : Z) (s : runtime) : Prop := {
  lim_acct : accounting_ok total cap (acct s);
  lim_sem : sem s + count holding (calls s) = conc;
  lim_free : 0 <= sem s
}.

(** Counts the holders after the call [c], in the state [H] gives, changed. *)
Ltac recount c H :=
  cbn [sem calls agent_acquire set_state set_calls set_sem agent_release set_acct];
  rewrite (sumf_alter _ _ _ _ c) by done; cbv beta;
  change (holding c) with (holds (state c)); rewrite H;
  match goal with |- context [holding (mkCall ?a ?b ?st)] => change (holding (mkCall a b st)) with (holds st) end;
  cbn [Z.b2z holds]; lia.

Lemma limits_throw total cap conc s i c e : limits total cap conc s -> calls s !! i = Some c ->
  limits total cap conc (agent_throw i c e s).
Proof.
  intros [Ha Hs Hf] Hc. unfold agent_throw. destruct (state c) eqn:Est; try done.
  - split; [done| |done]. recount c Est.
  - split; [done| |cbn; lia]. recount c Est.
  - split; [by apply report_ok| |cbn; lia]. recount c Est.
Qed.

Lemma finish_frame i c t r s :
  let s' := agent_finish float_repr i c t r s in
  acct s' = report_total (acct s) t (tokens r) /\ sem s' = sem s + 1 /\ _call_index s' = _call_index s /\
  _current_phase s' = _current_phase s /\ _resume_cache s' = _resume_cache s /\
  calls s' = alter (fun c => mkCall (spec c) (key c) (Returned (res_status r) (result_value r))) i (calls s) /\
  journal s' = record float_repr (journal s) (call_index (spec c)) (key c) (label (spec c)) (result_value r) (res_status r)
                 (result_metadata (spec c) r).
Proof.
  unfold agent_finish. destruct (warn_frame (agent_release t (tokens r) s)) as (e & w & ->). destruct s. done.
Qed.

Lemma limits_step total cap conc s e s' : limits total cap conc s -> step s e s' -> limits total cap conc s'.
Proof.
  intros Hl H. destruct H as [a s' H|a er H|i c Hc Hst Hs|i c Hc Hst|i c t r Hc Hst|i c t Hc Hst|i c Hc|t|m|t a H|t v].
  - destruct (agent_begin_effect _ _ _ H) as (sp & _ & E1 & E2 & _ & _ & _ & E3 & _). destruct Hl as [Ha Hs Hf].
    split; rewrite ?E1, ?E2, ?E3; [done| |done]. rewrite sumf_app.
    assert (count holding [mkCall sp (cache_key sp) (begin_state (take_row (_resume_cache s) (cache_key sp)).1)] = 0) as -> by (by destruct (take_row _ _) as [[]]).
    lia.
  - done.
  - destruct Hl as [Ha Hm Hf]. split; [done| |cbn; lia]. recount c Hst.
  - destruct Hl as [Ha Hm Hf]. unfold agent_reserve. destruct (reserve_agent (acct s)) as [[t a]|] eqn:Er.
    + split; [cbn; by eapply reserve_ok| |done]. recount c Hst.
    + split; [done| |cbn; lia]. recount c Hst.
  - destruct Hl as [Ha Hm Hf]. destruct (finish_frame i c t r s) as (E1 & E2 & _ & _ & _ & E3 & _).
    split; rewrite ?E1, ?E2; [by apply report_ok| |lia]. rewrite E3. recount c Hst.
  - by apply limits_throw.
  - by apply limits_throw.
  - by destruct Hl.
  - by destruct Hl.
  - destruct Hl. split; [cbn; by eapply reserve_ok|done|done].
  - destruct Hl. split; [cbn; by apply report_ok|done|done].
Qed.

Lemma limits_steps total cap conc s es s' : limits total cap conc s -> steps s es s' -> limits total cap conc s'.
Proof. intros Hl H. induction H as [s|s e s1 es s2 H _ IH]; [done|]. by apply IH, (limits_step _ _ _ s e). Qed.

(** *** An exhausted budget starts nothing *)

Lemma stopped_step total cap conc s e s' : limits total cap conc s -> step s e s' -> exhausted (budget_of (acct s)) ->
  exhausted (budget_of (acct s')) /\ agent_count (acct s') = agent_count (acct s) /\
  forall i c' t, calls s' !! i = Some c' -> state c' = Dispatching t -> exists c, calls s !! i = Some c /\ state c = Dispatching t.
Proof.
  intros Hl H He. pose proof (limits_step _ _ _ _ _ _ Hl H) as Hl'.
  assert (forall st j c, calls s !! j = Some c -> (forall t, st <> Dispatching t) ->
    forall i c' t, alter (fun c => mkCall (spec c) (key c) st) j (calls s) !! i = Some c' -> state c' = Dispatching t ->
    exists c, calls s !! i = Some c /\ state c = Dispatching t) as Halt.
  { intros st j c Hj Hst i c' t Hi Ht. destruct (decide (i = j)) as [->|Hne].
    - rewrite list_lookup_alter_eq, Hj in Hi. injection Hi as <-. by apply Hst in Ht.
    - rewrite list_lookup_alter_ne in Hi by done. by exists c'. }
  assert (forall t v, exhausted (budget_of (report_total (acct s) t v)) /\ agent_count (report_total (acct s) t v) = agent_count (acct s)) as Hrep.
  { intros t v. destruct Hl as [Ha _ _]. destruct (report_ok _ _ _ t v Ha) as (Ha' & Hlen & Hsp). split; [exact (exhausted_mono _ _ _ _ Ha Ha' Hsp He)|].
    rewrite (ok_count _ _ _ Ha'), (ok_count _ _ _ Ha). unfold len. by rewrite Hlen. }
  assert (forall i c e, calls s !! i = Some c -> exhausted (budget_of (acct (agent_throw i c e s))) /\
    agent_count (acct (agent_throw i c e s)) = agent_count (acct s) /\
    forall j c' t, calls (agent_throw i c e s) !! j = Some c' -> state c' = Dispatching t ->
      exists c, calls s !! j = Some c /\ state c = Dispatching t) as Hthrow.
  { intros i c er Hc. unfold agent_throw. destruct (state c) eqn:Est; cbn [acct set_state set_calls calls set_sem agent_release set_acct].
    all: try (split_and!; [done|done|]; first [by eapply Halt|by intros; eexists]). }
  destruct H as [a s' H|a er H|i c Hc Hst Hs|i c Hc Hst|i c t r Hc Hst|i c t Hc Hst|i c Hc|t|m|t a H|t v].
  - destruct (agent_begin_effect _ _ _ H) as (sp & _ & E1 & _ & _ & _ & _ & E3 & _). rewrite E1, E3. split_and!; [done|done|].
    intros i c' t [Hi|[_ Hi]]%lookup_app_Some Ht; [by exists c'|]. apply list_lookup_singleton_Some in Hi as [_ <-].
    by destruct (take_row _ _) as [[]].
  - split_and!; [done|done|]. intros; by eexists.
  - split_and!; [done|done|]. by eapply Halt.
  - unfold agent_reserve. unfold reserve_agent. rewrite He. cbn. split_and!; [done|done|]. by eapply Halt.
  - destruct (finish_frame i c t r s) as (E1 & _ & _ & _ & _ & E3 & _). rewrite E1, E3. split_and!; [apply Hrep|apply Hrep|]. by eapply Halt.
  - by apply Hthrow.
  - by apply Hthrow.
  - split_and!; [done|done|]. intros; by eexists.
  - split_and!; [done|done|]. intros; by eexists.
  - destruct Hl as [Ha _ _]. destruct (reserve_ok _ _ _ _ _ Ha H) as (_ & Hok & _). unfold exhausted in He. congruence.
  - split_and!; [apply Hrep|apply Hrep|]. intros; by eexists.
Qed.

Lemma stopped_steps total cap conc s es s' : limits total cap conc s -> steps s es s' -> exhausted (budget_of (acct s)) ->
  agent_count (acct s') = agent_count (acct s) /\
  forall i c' t, calls s' !! i = Some c' -> state c' = Dispatching t -> exists c, calls s !! i = Some c /\ state c = Dispatching t.
Proof.
  intros Hl H. induction H as [s|s e s1 es s2 H Hs IH]; intros He; [split; [done|by intros; eexists]|].
  destruct (stopped_step _ _ _ _ _ _ Hl H He) as (He1 & Hc1 & Hd1).
  destruct (IH (limits_step _ _ _ _ _ _ Hl H) He1) as (Hc2 & Hd2). split; [congruence|].
  intros i c' t Hi Ht. destruct (Hd2 i c' t Hi Ht) as (c1 & Hi1 & Ht1). by apply (Hd1 i c1 t).
Qed.
End Facts.
