(* ===== verification/WorkflowResume.v ===== *)
(** * Resuming a workflow: the journal of a run answers the calls of the next *)

From stdpp Require Import base list strings numbers sorting.
From Stdlib Require Import ZArith Lia.
From S2P Require Import Prelude PyStr Utf8 PyVal Json JsonFacts WorkflowJournal WorkflowJournalFacts WorkflowRuntime WorkflowRuntimeFacts.

(** ** What the journal has to hold *)

(** The value a call left in the journal as completed. *)
Definition recorded_state (st : agent_state) : option value :=
  match st with Replayed v => Some v | Returned st v => if str_eqb st completed then Some v else None | _ => None end.
Definition calls_of (k : str) (cs : list call) : list call := List.filter (fun c => str_eqb (key c) k) cs.
Definition recorded (k : str) (cs : list call) : list value := omap (fun c => recorded_state (state c)) (calls_of k cs).

Definition opt_ok (s : option str) : Prop := from_option (fun s => scalars s) True s.
Definition args_ok (a : agent_args) : Prop := opt_ok (a_label a) /\ opt_ok (a_phase a) /\ opt_ok (a_agent_type a).
Record result_ok (r : AgentRunResult) : Prop := {
  ok_text : opt_ok (text r);
  ok_structured : plain (structured r);
  ok_tokens : plain (tokens r);
  ok_status : scalars (res_status r);
  ok_error : opt_ok (error r);
  ok_transcript : opt_ok (transcript_path r);
  ok_markdown : opt_ok (transcript_markdown_path r);
  ok_requested : plain (requested_routing r);
  ok_effective : plain (effective_routing r);
  ok_type : opt_ok (res_actual_agent_type r)
}.
(** The outside hands over JSON values that survive the journal. *)
Definition event_ok (e : event) : Prop :=
  match e with Call a => args_ok a | Finish _ r => result_ok r | Phase t => scalars t | _ => True end.
Definition cache_plain (c : ResumeCache) : Prop := forall k, Forall (fun d => plain (VDict d)) (cache_rows c k).

(** ** The ended calls, in issue order *)

Definition state_entry (i : Z) (k : str) (st : agent_state) : list entry :=
  match st with Replayed v => [(i, (k, completed, v))] | Returned st v => [(i, (k, st, v))] | _ => [] end.
Fixpoint ended_from (i : Z) (cs : list call) : list entry :=
  match cs with [] => [] | c :: cs' => state_entry i (key c) (state c) ++ ended_from (i + 1) cs' end.

Lemma ended_app i cs c : ended_from i (cs ++ [c]) = ended_from i cs ++ state_entry (i + len cs) (key c) (state c).
Proof.
  revert i. induction cs as [|x cs IH]; intros i; cbn [app ended_from].
  - rewrite app_nil_r. change (len (@nil call)) with 0. by rewrite Z.add_0_r.
  - rewrite IH, <- app_assoc, len_cons. do 3 f_equal. lia.
Qed.

Lemma ended_alter n i cs c st : cs !! i = Some c -> state_entry (n + Z.of_nat i) (key c) (state c) = [] ->
  ended_from n (alter (fun c => mkCall (spec c) (key c) st) i cs) ≡ₚ state_entry (n + Z.of_nat i) (key c) st ++ ended_from n cs.
Proof.
  revert n i. induction cs as [|x cs IH]; intros n [|i] Hc He; try done.
  - injection Hc as ->. change (alter ?f 0%nat (c :: cs)) with (f c :: cs). cbn [ended_from key state].
    change (Z.of_nat 0) with 0 in *. rewrite Z.add_0_r in *. by rewrite He.
  - change (alter ?f (S i) (x :: cs)) with (x :: alter f i cs). cbn [ended_from].
    replace (n + Z.of_nat (S i)) with (n + 1 + Z.of_nat i) in * by lia. rewrite (IH (n + 1) i) by done.
    rewrite !app_assoc. apply Permutation_app_tail, Permutation_app_comm.
Qed.

Lemma ended_bound i cs : Forall (fun e => i <= e.1) (ended_from i cs).
Proof.
  revert i. induction cs as [|c cs IH]; intros i; cbn [ended_from]; [constructor|]. apply Forall_app. split.
  - destruct (state c); cbn [state_entry]; repeat constructor; cbn; lia.
  - eapply Forall_impl; [apply (IH (i + 1))|]. simpl. lia.
Qed.

Lemma ended_sorted i cs : StronglySorted (fun a b : entry => a.1 < b.1) (ended_from i cs).
Proof.
  revert i. induction cs as [|c cs IH]; intros i; cbn [ended_from]; [constructor|].
  destruct (state c); cbn [state_entry app]; try apply IH; (constructor; [apply IH|]);
    (eapply Forall_impl; [apply (ended_bound (i + 1))|simpl; lia]).
Qed.

Lemma recorded_ended k i cs :
  map entry_value (List.filter (fun e => is_completed e && has_key k e) (ended_from i cs)) = recorded k cs.
Proof.
  unfold recorded, calls_of. revert i. induction cs as [|c cs IH]; intros i; [done|]. cbn [ended_from List.filter].
  rewrite List.filter_app, map_app, IH.
  destruct (str_eqb (key c) k) eqn:Ek; cbn [omap list_omap].
  - destruct (state c); cbn [state_entry List.filter is_completed has_key recorded_state]; rewrite ?Ek, ?andb_true_r; try done.
    by destruct (str_eqb status completed).
  - destruct (state c); cbn [state_entry List.filter is_completed has_key]; rewrite ?Ek, ?andb_false_r; done.
Qed.

(** ** The cache *)

Lemma take_row_rows c k k' :
  fst (take_row c k) = head (cache_rows c k) /\
  cache_rows (snd (take_row c k)) k' = if str_eqb k k' then tail (cache_rows c k) else cache_rows c k'.
Proof.
  unfold take_row. destruct (cache_rows c k) as [|r rows] eqn:E; cbn [fst snd head tail].
  - split; [done|]. unfold str_eqb. case_bool_decide; [by subst|done].
  - split; [done|]. unfold cache_rows. rewrite dict_get_set. by destruct (str_eqb k k').
Qed.

Lemma take_row_plain c k : cache_plain c ->
  cache_plain (snd (take_row c k)) /\ from_option (fun r => plain (VDict r)) True (fst (take_row c k)).
Proof.
  intros Hc. split.
  - intros k'. rewrite (proj2 (take_row_rows c k k')). destruct (str_eqb k k'); [|apply Hc].
    specialize (Hc k). by destruct Hc.
  - rewrite (proj1 (take_row_rows c k k)). specialize (Hc k). by destruct Hc.
Qed.

(** ** Metadata *)

Definition metadata_keys : list str :=
  map lit ["replayed"; "phase"; "agent_type"; "max_agent_depth"; "tokens"; "error"; "transcript_path"; "transcript_markdown_path";
           "requested_routing"; "effective_routing"; "actual_agent_type"]%string.

Lemma metadata_intro m : Forall (fun kv => In kv.1 metadata_keys /\ plain kv.2) m -> metadata_ok m.
Proof.
  intros Hm. split.
  - eapply Forall_impl; [exact Hm|]. intros [k v] [Hk Hv]. split; [|done]. cbn [fst] in *.
    assert (forallb (forallb scalar) metadata_keys = true) as H by done. rewrite forallb_forall in H. specialize (H k Hk).
    rewrite forallb_forall in H. rewrite Forall_forall. intros c Hc. apply H. by apply list_elem_of_In.
  - apply forallb_forall. intros k Hk. destruct (str_in k (map fst m)) eqn:E; [|done]. exfalso.
    apply str_in_spec in E. apply list_elem_of_fmap in E as (kv & -> & Hin). rewrite Forall_forall in Hm.
    destruct (Hm kv Hin) as [Hk' _].
    assert (forallb (fun k => negb (str_in k metadata_keys)) base_keys = true) as H by done. rewrite forallb_forall in H.
    specialize (H _ Hk). assert (str_in kv.1 metadata_keys = true) as Ht; [|by rewrite Ht in H].
    apply str_in_spec. by apply list_elem_of_In.
Qed.

Lemma carried_ok r : plain (VDict r) -> Forall (fun kv => In kv.1 metadata_keys /\ plain kv.2) (carried r).
Proof.
  intros Hr. unfold carried.
  set (fields := [lit "actual_agent_type"; lit "effective_routing"; lit "transcript_path"; lit "transcript_markdown_path"]).
  assert (Forall (fun kv => In kv.1 metadata_keys /\ plain kv.2)
    (map (fun f => (f, get r f)) (List.filter (fun f => negb (is_none (get r f))) fields))) as H.
  { apply Forall_map. rewrite Forall_forall. intros f Hf. apply list_elem_of_In, filter_In in Hf as [Hf _]. cbn [fst snd].
    split; [|by apply get_plain]. simpl in Hf. unfold metadata_keys. simpl. tauto. }
  destruct (dict_has r (lit "requested_routing")); [|done]. apply Forall_app. split; [done|]. constructor; [|constructor].
  split; [unfold metadata_keys; simpl; tauto|by apply get_plain].
Qed.

Ltac metadata_tac :=
  repeat (apply Forall_cons; split; [split; [unfold metadata_keys; simpl; tauto|cbn [snd]; try (by apply opt_str_plain); try done]|]).

Lemma result_value_plain r : result_ok r -> plain (result_value r).
Proof.
  intros [Ht Hs _ _ _ _ _ _ _ _]. unfold result_value. destruct (negb _); [constructor|]. destruct (negb _); [done|by apply opt_str_plain].
Qed.

(** ** Replays *)

Abbreviation row_value := (fun d : row => get d (lit "value")).

Lemma calls_of_alter k i cs c st : cs !! i = Some c ->
  calls_of k (alter (fun c => mkCall (spec c) (key c) st) i cs) = calls_of k cs \/
  exists l1 l2, calls_of k cs = l1 ++ c :: l2 /\
    calls_of k (alter (fun c => mkCall (spec c) (key c) st) i cs) = l1 ++ mkCall (spec c) (key c) st :: l2.
Proof.
  revert i. induction cs as [|x cs IH]; intros [|i] Hc; try done; unfold calls_of in *.
  - injection Hc as ->. change (alter ?f 0%nat (c :: cs)) with (f c :: cs). cbn [List.filter key].
    destruct (str_eqb (key c) k); [|by left]. right. by exists [], (List.filter (fun c => str_eqb (key c) k) cs).
  - change (alter ?f (S i) (x :: cs)) with (x :: alter f i cs). cbn [List.filter].
    destruct (IH i Hc) as [->|(l1 & l2 & E1 & E2)]; [by left|]. right. rewrite E1, E2.
    destruct (str_eqb (key x) k); [by exists (x :: l1), l2|by exists l1, l2].
Qed.

(** The calls of a key took its rows in order, and went live only when there
    were none left. *)
Definition replay_inv (c0 : ResumeCache) (s : runtime) : Prop :=
  forall k, exists p rest, cache_rows c0 k = p ++ cache_rows (_resume_cache s) k /\
    map state (calls_of k (calls s)) = map (fun d => Replayed (row_value d)) p ++ rest /\
    (rest = [] \/ cache_rows (_resume_cache s) k = []).

Lemma replay_set_state c0 s s' i c st : replay_inv c0 s -> calls s !! i = Some c -> (forall v, state c <> Replayed v) ->
  calls s' = alter (fun c => mkCall (spec c) (key c) st) i (calls s) -> _resume_cache s' = _resume_cache s -> replay_inv c0 s'.
Proof.
  intros Hi Hc Hst Hcs Hcache k. destruct (Hi k) as (p & rest & E1 & E2 & E3). rewrite Hcs, Hcache.
  destruct (calls_of_alter k i (calls s) c st Hc) as [->|(l1 & l2 & F1 & F2)]; [by exists p, rest|].
  rewrite F1, map_app in E2. cbn [map] in E2. rewrite F2, map_app. cbn [map state].
  apply app_eq_app in E2 as (m & [[E4 E5]|[E4 E5]]).
  - exists p, (m ++ st :: map state l2). split_and!; [done|by rewrite E4, <- app_assoc|]. right.
    destruct E3 as [->|E3]; [|done]. by destruct m.
  - destruct m as [|x m].
    + rewrite app_nil_r in E4. exists p, (st :: map state l2). split_and!; [done|by rewrite E4|]. right.
      destruct E3 as [->|E3]; [done|done].
    + assert (In x (map (fun d => Replayed (row_value d)) p)) as Hx by (rewrite E4; apply in_app_iff; right; by left).
      injection E5 as <- _. apply in_map_iff in Hx as (d & Hd & _). symmetry in Hd. by apply Hst in Hd.
Qed.

Section Resume.
Variable lower : str -> str.
Variable sha1_hex : bytes -> str.
Variable float_repr : Z -> Z -> str.
Variable parse_float : str -> value.
Variable repr : str -> str.
Variable max_agent_depth : Z.
Variable routing_fingerprint : option str.
Variable actual_agent_type_resolver : option (option str -> str).
Variable read_only_mode : bool.
Hypothesis sha1_hex_text : forall b, scalars (sha1_hex b).
Hypothesis depth_small : 0 <= max_agent_depth < 2 ^ 64.

Abbreviation agent_begin :=
  (agent_begin lower sha1_hex float_repr repr max_agent_depth routing_fingerprint actual_agent_type_resolver read_only_mode).
Abbreviation step := (step lower sha1_hex float_repr repr max_agent_depth routing_fingerprint actual_agent_type_resolver read_only_mode).
Abbreviation steps := (steps lower sha1_hex float_repr repr max_agent_depth routing_fingerprint actual_agent_type_resolver read_only_mode).
Abbreviation cache_key := (cache_key sha1_hex float_repr).
Abbreviation line := (fun d => dumps_default float_repr (VDict d) ++ [NL]).

(** ** The journal follows the calls *)

Record call_ok (i : nat) (c : call) : Prop := {
  call_position : call_index (spec c) = Z.of_nat i;
  call_key : key c = cache_key (spec c);
  call_label : opt_ok (label (spec c));
  call_phase : opt_ok (WorkflowJournal.phase (spec c));
  call_type : opt_ok (agent_type (spec c));
  call_depth : WorkflowJournal.max_agent_depth (spec c) = max_agent_depth
}.

Definition journaled (s : runtime) : Prop :=
  exists ds, default [] (journal s) = concat (map line ds) /\ Forall good ds /\ map summary ds ≡ₚ ended_from 0 (calls s).

Record journal_inv (s : runtime) : Prop := {
  inv_index : _call_index s = len (calls s);
  inv_calls : forall i c, calls s !! i = Some c -> call_ok i c;
  inv_phase : opt_ok (_current_phase s);
  inv_cache : cache_plain (_resume_cache s);
  inv_journal : _call_index s <= 2 ^ 64 -> journaled s
}.

Lemma journal_record s i k l st v m es : journaled s ->
  metadata_ok m -> 0 <= i < 2 ^ 64 -> scalars k -> opt_ok l -> scalars st -> plain v ->
  es ≡ₚ (i, (k, st, v)) :: ended_from 0 (calls s) ->
  exists ds, default [] (record float_repr (journal s) i k l v st m) = concat (map line ds) /\ Forall good ds /\ map summary ds ≡ₚ es.
Proof.
  intros (ds & Hj & Hg & Hp) Hm Hi Hk Hl Hs Hv He. destruct (payload_good i k l st v m Hm Hi Hk Hl Hs Hv) as [Hd Hsum].
  exists (ds ++ [payload i k l st v m]). split_and!.
  - unfold record. cbn [default]. rewrite Hj, map_app, concat_app. cbn. by rewrite app_nil_r.
  - apply Forall_app. split; [done|by constructor].
  - rewrite map_app, Hp, He. cbn [map]. rewrite Hsum. symmetry. apply Permutation_cons_append.
Qed.

(** A call that goes on, or ends outside the journal. *)
Lemma journal_set_state s s' i c st : journal_inv s -> calls s !! i = Some c ->
  calls s' = alter (fun c => mkCall (spec c) (key c) st) i (calls s) ->
  _call_index s' = _call_index s -> _current_phase s' = _current_phase s -> _resume_cache s' = _resume_cache s ->
  (_call_index s <= 2 ^ 64 -> journaled s -> journaled s') -> journal_inv s'.
Proof.
  intros [H1 H2 H3 H4 H5] Hc Hcs E1 E2 E3 Hj. split; rewrite ?E1, ?E2, ?E3; try done.
  - rewrite Hcs. unfold len. by rewrite length_alter.
  - intros j c' Hj'. rewrite Hcs, list_lookup_alter in Hj'. case_decide; [subst|by apply H2].
    rewrite Hc in Hj'. injection Hj' as <-. destruct (H2 _ _ Hc). by split.
  - intros Hle. apply Hj; auto.
Qed.

Lemma journal_quiet s s' i c st : journal_inv s -> calls s !! i = Some c ->
  calls s' = alter (fun c => mkCall (spec c) (key c) st) i (calls s) ->
  _call_index s' = _call_index s -> _current_phase s' = _current_phase s -> _resume_cache s' = _resume_cache s ->
  journal s' = journal s -> (forall n k, state_entry n k (state c) = []) -> (forall n k, state_entry n k st = []) -> journal_inv s'.
Proof.
  intros Hi Hc Hcs E1 E2 E3 E4 Hold Hnew. apply (journal_set_state s s' i c st); try done.
  intros _ (ds & Hj & Hg & Hp). exists ds. rewrite E4, Hcs, (ended_alter _ _ _ c) by (done || apply Hold). by rewrite Hnew.
Qed.

Lemma journal_call s a s' : journal_inv s -> args_ok a -> agent_begin a s = Ok s' -> journal_inv s'.
Proof.
  intros [H1 H2 H3 H4 H5] (Hl & Hp & Ht) H. destruct (agent_begin_effect _ _ _ _ _ _ _ _ _ _ _ H) as (sp & Hsp & H').
  destruct (agent_spec_fields _ _ _ _ _ _ _ _ Hsp) as (F1 & F2 & F3 & F4 & _ & F5).
  set (k := cache_key sp) in *. destruct H' as (_ & _ & E1 & E2 & E3 & E4 & E5).
  destruct (take_row_plain (_resume_cache s) k H4) as [Hplain Hr].
  assert (opt_ok (WorkflowJournal.phase sp)) as Hph by (by destruct F5 as [->| ->]).
  assert (opt_ok (agent_type sp)) as Hty by (by rewrite F3).
  assert (forall st, call_ok (length (calls s)) (mkCall sp k st)) as Hok.
  { intros st. split; cbn [spec key]; [by rewrite F1, H1|done|by rewrite F2|done|by rewrite F3|done]. }
  split.
  - rewrite E1, E4, len_app, H1. done.
  - intros i c. rewrite E4. intros [Hi|[Hge Hi]]%lookup_app_Some; [by apply H2|].
    apply list_lookup_singleton_Some in Hi as [Hi <-]. replace i with (length (calls s)) by lia. apply Hok.
  - by rewrite E2.
  - by rewrite E3.
  - intros Hle. unfold journaled. rewrite E5, E4, ended_app. cbn [key state]. rewrite Z.add_0_l.
    assert (journaled s) as Hj by (apply H5; lia). pose proof (len_nonneg (calls s)).
    destruct (fst (take_row (_resume_cache s) k)) as [r|]; cbn [begin_state state_entry]; [|by rewrite app_nil_r].
    rewrite F1, H1. apply (journal_record s); [done| |lia|apply sha1_hex_text|by rewrite F2|by repeat constructor| |].
    + apply metadata_intro. unfold replay_metadata. cbn [app]. metadata_tac; [constructor| |by apply carried_ok].
      rewrite F4. by apply small_int_plain.
    + by apply get_plain.
    + symmetry. apply Permutation_cons_append.
Qed.

Lemma journal_finish s i c t r : journal_inv s -> result_ok r -> calls s !! i = Some c -> state c = Dispatching t ->
  journal_inv (agent_finish float_repr i c t r s).
Proof.
  intros Hi Hr Hc Hst. destruct (finish_frame float_repr i c t r s) as (_ & _ & E1 & E2 & E3 & E4 & E5).
  pose proof (inv_calls _ Hi _ _ Hc) as Hok. pose proof (inv_index _ Hi) as Hidx.
  pose proof (lookup_lt_Some _ _ _ Hc) as Hlt.
  eapply journal_set_state; [done|done|exact E4|done|done|done|]. intros Hle Hj. unfold journaled. rewrite E5, E4.
  destruct Hok as [C1 C2 C3 C4 C5 C6]. destruct Hr as [? ? ? ? ? ? ? ? ? ?] eqn:Er. clear Er. unfold len in Hidx.
  apply (journal_record s); [done| |lia|rewrite C2; apply sha1_hex_text|done|done|by apply result_value_plain|].
  - apply metadata_intro. unfold result_metadata. metadata_tac; [|constructor]. rewrite C6. by apply small_int_plain.
  - rewrite (ended_alter _ _ _ c) by (done || by rewrite Hst). rewrite Z.add_0_l, C1. done.
Qed.

Lemma journal_throw s i c e : journal_inv s -> calls s !! i = Some c -> journal_inv (agent_throw i c e s).
Proof.
  intros Hi Hc. unfold agent_throw. destruct (state c) eqn:Est; try done.
  all: eapply (journal_quiet s); [done|done|reflexivity|done|done|done|done|intros; by rewrite Est|done].
Qed.

Lemma journal_step s e s' : journal_inv s -> event_ok e -> step s e s' -> journal_inv s'.
Proof.
  intros Hi He H. destruct H as [a s' H|a er H|i c Hc Hst Hs|i c Hc Hst|i c t r Hc Hst|i c t Hc Hst|i c Hc|t|m|t a H|t v].
  - by eapply journal_call.
  - done.
  - eapply (journal_quiet s); [done|done|reflexivity|done|done|done|done|intros; by rewrite Hst|done].
  - unfold agent_reserve. destruct (reserve_agent (acct s)) as [[t a]|].
    all: eapply (journal_quiet s); [done|done|reflexivity|done|done|done|done|intros; by rewrite Hst|done].
  - by eapply journal_finish.
  - by apply journal_throw.
  - by apply journal_throw.
  - by destruct Hi.
  - by destruct Hi.
  - by destruct Hi.
  - by destruct Hi.
Qed.

Lemma journal_steps s es s' : journal_inv s -> Forall event_ok es -> steps s es s' -> journal_inv s'.
Proof.
  intros Hi He H. induction H as [s|s e s1 es s2 H _ IH]; [done|]. inversion He; subst. apply IH; [by apply (journal_step s e)|done].
Qed.

Lemma journal_init total cap conc cache : cache_plain cache -> journal_inv (init total cap conc (Some cache)).
Proof.
  intros Hc. split; [done|done|done|done|]. intros _. exists []. done.
Qed.

(** ** Replays follow the cache *)

Lemma replay_throw c0 s i c e : replay_inv c0 s -> calls s !! i = Some c -> replay_inv c0 (agent_throw i c e s).
Proof.
  intros Hi Hc. unfold agent_throw. destruct (state c) eqn:Est; try done.
  all: eapply replay_set_state; [done|done|by rewrite Est|reflexivity|done].
Qed.

Lemma replay_step c0 s e s' : replay_inv c0 s -> step s e s' -> replay_inv c0 s'.
Proof.
  intros Hi H. destruct H as [a s' H|a er H|i c Hc Hst Hs|i c Hc Hst|i c t r Hc Hst|i c t Hc Hst|i c Hc|t|m|t a H|t v].
  - destruct (agent_begin_effect _ _ _ _ _ _ _ _ _ _ _ H) as (sp & _ & H').
    destruct H' as (_ & _ & _ & _ & E3 & E4 & _). intros k. destruct (Hi k) as (p & rest & F1 & F2 & F3).
    destruct (take_row_rows (_resume_cache s) (cache_key sp) k) as [G1 G2]. rewrite E3, E4, G1, G2.
    unfold calls_of. rewrite List.filter_app, map_app. fold (calls_of k (calls s)). cbn [List.filter key]. rewrite F2.
    destruct (str_eqb (cache_key sp) k) eqn:Ek; [|exists p, rest; by rewrite app_nil_r].
    apply str_eqb_eq in Ek. subst k. cbn [map state].
    destruct (cache_rows (_resume_cache s) (cache_key sp)) as [|r rows]; cbn [head tail begin_state].
    + exists p, (rest ++ [Waiting]). split_and!; [done|by rewrite app_assoc|by right].
    + destruct F3 as [->|F3]; [|done]. exists (p ++ [r]), []. split_and!; [by rewrite <- app_assoc| |by left].
      by rewrite map_app, !app_nil_r.
  - done.
  - eapply replay_set_state; [done|done|by rewrite Hst|reflexivity|done].
  - unfold agent_reserve. destruct (reserve_agent (acct s)) as [[t a]|].
    all: eapply replay_set_state; [done|done|by rewrite Hst|reflexivity|done].
  - destruct (finish_frame float_repr i c t r s) as (_ & _ & _ & _ & E3 & E4 & _).
    eapply replay_set_state; [done|done|by rewrite Hst|exact E4|done].
  - by apply replay_throw.
  - by apply replay_throw.
  - done.
  - done.
  - done.
  - done.
Qed.

Lemma replay_steps c0 s es s' : replay_inv c0 s -> steps s es s' -> replay_inv c0 s'.
Proof. intros Hi H. induction H as [s|s e s1 es s2 H _ IH]; [done|]. by apply IH, (replay_step c0 s e). Qed.

Lemma replay_init c0 total cap conc : replay_inv c0 (init total cap conc (Some c0)).
Proof. intros k. exists [], []. split_and!; [done|done|by left]. Qed.

Lemma recorded_replayed k cs vs : map state (calls_of k cs) = map Replayed vs -> recorded k cs = vs.
Proof.
  unfold recorded. revert vs. induction (calls_of k cs) as [|c l IH]; intros [|v vs] H; try done.
  injection H as Hc Hl. cbn. rewrite Hc. cbn. f_equal. by apply IH.
Qed.

(** The calls of a key take the values the cache holds for it. *)
Lemma replay_values c0 s k : replay_inv c0 s ->
  let vs := map row_value (cache_rows c0 k) in
  let cs := map state (calls_of k (calls s)) in
  take (length vs) cs = map Replayed (take (length cs) vs) /\
  ((length cs <= length vs)%nat -> recorded k (calls s) = take (length cs) vs).
Proof.
  intros Hi vs cs. destruct (Hi k) as (p & rest & E1 & E2 & E3).
  assert (vs = map row_value p ++ map row_value (cache_rows (_resume_cache s) k)) as Ev by (unfold vs; by rewrite E1, map_app).
  assert (cs = map Replayed (map row_value p) ++ rest) as Ec by (unfold cs; by rewrite E2, map_map).
  assert (take (length vs) cs = map Replayed (take (length cs) vs)) as H.
  { rewrite Ev, Ec, !length_app, !length_map. destruct E3 as [->|E3].
    - cbn [length]. rewrite app_nil_r, Nat.add_0_r, take_ge by (rewrite !length_map; lia).
      rewrite take_app_le, take_ge by (rewrite length_map; lia). done.
    - rewrite E3. cbn [map length]. rewrite app_nil_r, Nat.add_0_r, take_app_le by (rewrite !length_map; lia).
      rewrite !take_ge by (rewrite !length_map; lia). done. }
  split; [done|]. intros Hle. apply recorded_replayed. fold cs. rewrite <- H, take_ge by lia. done.
Qed.

Lemma load_journal s : journal_inv s -> _call_index s <= 2 ^ 64 ->
  exists c, load_cache parse_float (journal s) = Ok c /\ cache_plain c /\
  forall k, map (fun d => get d (lit "value")) (cache_rows c k) = recorded k (calls s).
Proof.
  intros Hi Hle. destruct (inv_journal _ Hi Hle) as (ds & Hj & Hg & Hp).
  destruct (load_cache_rows float_repr parse_float ds _ Hg Hp (ended_sorted 0 (calls s))) as (c & Hc & Hrows).
  exists c. split_and!.
  - rewrite <- Hc, <- Hj. by destruct (journal s).
  - intros k. destruct (Hrows k) as [Hin _]. eapply Forall_impl; [exact Hin|]. intros d Hd. rewrite Forall_forall in Hg.
    apply good_plain, Hg. by apply list_elem_of_In.
  - intros k. destruct (Hrows k) as [_ ->]. apply recorded_ended.
Qed.

(** C10: A workflow can be resumed exactly, and resumed again: in every run
    reached by any interleaving of calls, admissions, results, failures and
    cancellations, the journal loads into a cache that holds, for every content
    key, the values of the completed calls with that key, in the order the calls
    were issued in, whatever order they ended in.  A run resumed with that cache
    answers the calls of a key with exactly those values in that order, at once,
    and sends only later ones to a sub-agent; and as long as it makes no further
    call with the key, its own journal holds the same values again. *)
Theorem workflow_resume total cap conc cache es s total' cap' conc' :
  cache_plain cache -> Forall event_ok es -> steps (init total cap conc (Some cache)) es s -> _call_index s <= 2 ^ 64 ->
  exists cache', load_cache parse_float (journal s) = Ok cache' /\ cache_plain cache' /\
  (forall k, map row_value (cache_rows cache' k) = recorded k (calls s)) /\
  (forall es' s', steps (init total' cap' conc' (Some cache')) es' s' -> forall k,
     let vs := recorded k (calls s) in
     let cs := map state (calls_of k (calls s')) in
     take (length vs) cs = map Replayed (take (length cs) vs) /\
     ((length cs <= length vs)%nat -> recorded k (calls s') = take (length cs) vs)).
Proof.
  intros Hc He Hs Hle.
  assert (journal_inv s) as Hi by (eapply journal_steps; [by apply journal_init|done|done]).
  destruct (load_journal s Hi Hle) as (c & Hl & Hp & Hv). exists c. split_and!; [done|done|done|].
  intros es' s' Hs' k. rewrite <- Hv. apply replay_values. eapply replay_steps; [apply replay_init|done].
Qed.
End Resume.

(** ** A run of two calls with one key, ended in the other order, and its resumption *)

Module Sample.
Definition ascii_lower (s : str) : str := map (fun c => if (65 <=? c) && (c <=? 90) then c + 32 else c) s.
Definition digest (b : bytes) : str := if forallb scalar b then b else [].
Definition show_float (m e : Z) : str := [].
Definition read_float (s : str) : value := VNone.
Definition quote (s : str) : str := s.
Definition ask (label : string) : agent_args :=
  mkArgs (VStr (lit "Review the diff")) (Some (lit label)) None VNone VNone None VNone [].
Definition answer (text : string) (tokens : Z) : AgentRunResult :=
  mkResult (Some (lit text)) VNone (VInt tokens) completed None None None VNone VNone (Some (lit "Worker")).
Definition start cap cache : runtime := init (Some 1000) cap (Some 2) (Some cache).
Definition execute : runtime -> list event -> option runtime :=
  run ascii_lower digest show_float quote 1 None None false.
Definition events : list event :=
  [Call (ask "one"); Call (ask "two"); Acquire 0; Acquire 1; Reserve 1; Reserve 0; LiveReport 0 (VInt 5);
   Finish 1 (answer "second" 30); Finish 0 (answer "first" 20)].
Definition after_first : runtime := default (start 10 []) (execute (start 10 []) events).
Definition cache : ResumeCache := match load_cache read_float (journal after_first) with Ok c => c | Raise _ => [] end.
Definition after_second : runtime :=
  default (start 1 cache) (execute (start 1 cache) [Call (ask "two"); Call (ask "one"); Call (ask "three")]).

Lemma digest_text b : scalars (digest b).
Proof.
  unfold digest. destruct (forallb scalar b) eqn:E; [|constructor]. rewrite Forall_forall. rewrite forallb_forall in E.
  intros c Hc. apply E. by apply list_elem_of_In.
Qed.
Lemma text_ok (s : str) : forallb scalar s = true -> scalars s.
Proof. rewrite forallb_forall, Forall_forall. intros H c Hc. apply H. by apply list_elem_of_In. Qed.
Lemma answer_ok text tokens : forallb scalar (lit text) = true -> 0 <= tokens < 2 ^ 64 -> result_ok (answer text tokens).
Proof.
  intros Ht Hn. split; cbn; try done; try (by constructor); [by apply text_ok|by apply small_int_plain|by apply text_ok|by apply text_ok].
Qed.
Lemma events_ok : Forall event_ok events.
Proof.
  repeat (apply Forall_cons; split); try done; try (by split_and!; try done; apply text_ok);
    apply answer_ok; done.
Qed.
End Sample.

Lemma workflow_resume_witness :
  (exists c, load_cache Sample.read_float (journal Sample.after_first) = Ok c /\ cache_plain c /\
   (forall k, map row_value (cache_rows c k) = recorded k (calls Sample.after_first)) /\ c = Sample.cache) /\
  map state (calls Sample.after_second) = [Replayed (VStr (lit "first")); Replayed (VStr (lit "second")); Waiting].
Proof.
  split; [|by vm_compute].
  edestruct (workflow_resume Sample.ascii_lower Sample.digest Sample.show_float Sample.read_float Sample.quote 1 None None false
    Sample.digest_text ltac:(done) (Some 1000) 10 (Some 2) [] Sample.events Sample.after_first (Some 1000) 1 (Some 2))
    as (c & Hl & Hp & Hv & _).
  - intros k. constructor.
  - exact Sample.events_ok.
  - apply run_steps. by vm_compute.
  - by vm_compute.
  - exists c. split_and!; [done|done|done|]. unfold Sample.cache. by rewrite Hl.
Defined.
