(* ===== verification/WorkflowLimits.v ===== *)
(** * Workflow limits: accounting, concurrency, the end of every call, fan-outs, artifacts *)

From stdpp Require Import base list strings numbers sorting.
From Stdlib Require Import ZArith Lia.
From S2P Require Import Prelude PyStr Utf8 PyVal Json JsonFacts WorkflowJournal WorkflowJournalFacts WorkflowRuntime WorkflowRuntimeFacts WorkflowResume.

(** ** Accounting *)

Inductive acct_op := ReserveOp | ReportOp (ticket : nat) (tokens : value).
Definition run_op (a : accounting) (op : acct_op) : accounting :=
  match op with
  | ReserveOp => match reserve_agent a with Ok (_, a') => a' | Raise _ => a end
  | ReportOp t v => report_total a t v
  end.
Definition run_ops (a : accounting) (ops : list acct_op) : accounting := foldl run_op a ops.

(** Only tickets that were handed out report. *)
Fixpoint legal (a : accounting) (ops : list acct_op) : Prop :=
  match ops with
  | [] => True
  | op :: ops' => match op with ReportOp t _ => (t < length (reported a))%nat | ReserveOp => True end /\ legal (run_op a op) ops'
  end.

(** The totals a ticket reported, and the largest. *)
Definition totals_of (t : nat) (ops : list acct_op) : list Z :=
  omap (fun op => match op with ReportOp t' (VInt n) => if Nat.eqb t' t then Some n else None | _ => None end) ops.
Abbreviation maximum := (foldr Z.max 0).

Lemma maximum_nonneg l : 0 <= maximum l.
Proof. induction l as [|x l IH]; [done|]. simpl. lia. Qed.
Lemma maximum_snoc l n : maximum (l ++ [n]) = Z.max (maximum l) (Z.max n 0).
Proof. induction l as [|x l IH]; simpl in *; [lia|]. rewrite IH. lia. Qed.

Lemma totals_app t ops1 ops2 : totals_of t (ops1 ++ ops2) = totals_of t ops1 ++ totals_of t ops2.
Proof. unfold totals_of. apply omap_app. Qed.

Lemma run_ops_snoc a ops op : run_ops a (ops ++ [op]) = run_op (run_ops a ops) op.
Proof. unfold run_ops. by rewrite foldl_app. Qed.
Lemma legal_snoc a ops op : legal a (ops ++ [op]) <->
  legal a ops /\ match op with ReportOp t _ => (t < length (reported (run_ops a ops)))%nat | ReserveOp => True end.
Proof. revert a. induction ops as [|o ops IH]; intros a; cbn [app legal]; [cbn; tauto|]. rewrite IH. cbn. tauto. Qed.

Lemma run_ops_ok total cap ops : accounting_ok total cap (run_ops (accounting_init (budget_init total) cap) ops).
Proof.
  induction ops as [|op ops IH] using rev_ind; [apply accounting_init_ok|]. rewrite run_ops_snoc. destruct op as [|t v]; cbn [run_op].
  - destruct (reserve_agent _) as [[t a]|] eqn:E; [|done]. by eapply reserve_ok.
  - by apply report_ok.
Qed.

Lemma reported_totals total cap ops : let a0 := accounting_init (budget_init total) cap in legal a0 ops ->
  (forall t, (length (reported (run_ops a0 ops)) <= t)%nat -> totals_of t ops = []) /\
  forall t r, reported (run_ops a0 ops) !! t = Some r -> r = maximum (totals_of t ops).
Proof.
  intros a0. induction ops as [|op ops IH] using rev_ind; [done|]. rewrite legal_snoc, run_ops_snoc. intros [Hl Hop].
  destruct (IH Hl) as [Hnone Hsome]. pose proof (run_ops_ok total cap ops) as Hok. fold a0 in Hok.
  set (a := run_ops a0 ops) in *. destruct op as [|t v]; cbn [run_op].
  - assert (forall t, totals_of t (ops ++ [ReserveOp]) = totals_of t ops) as E by (intros; rewrite totals_app; by rewrite app_nil_r).
    destruct (reserve_agent a) as [[t a']|] eqn:Er; [|by split; intros; rewrite E; auto].
    destruct (reserve_ok _ _ _ _ _ Hok Er) as (_ & _ & _ & _ & _ & Hr). rewrite Hr. split.
    + intros u Hu. rewrite length_app in Hu. cbn in Hu. rewrite E. apply Hnone. lia.
    + intros u r [Hu|[Hge Hu]]%lookup_app_Some; rewrite E; [by apply Hsome|].
      apply list_lookup_singleton_Some in Hu as [? <-]. by rewrite Hnone by lia.
  - destruct (report_ok _ _ _ t v Hok) as (_ & Hlen & _). rewrite Hlen. split.
    + intros u Hu. rewrite totals_app, Hnone by done. unfold totals_of. cbn. destruct v; try done.
      destruct (Nat.eqb_spec t u); [lia|done].
    + intros u r Hu. rewrite totals_app. unfold totals_of at 2. cbn [omap list_omap]. unfold report_total in Hu.
      destruct v; cbn; rewrite ?app_nil_r; try (by apply Hsome).
      destruct (reported a !! t) as [r0|] eqn:Et; [|by apply lookup_ge_None in Et; lia].
      pose proof (Hsome t r0 Et) as Hr0. destruct (Nat.eqb_spec t u) as [->|Hne].
      * rewrite maximum_snoc, <- Hr0. pose proof (maximum_nonneg (totals_of u ops)).
        destruct (Z.leb_spec (n - r0) 0); cbn [reported] in Hu.
        -- rewrite Et in Hu. injection Hu as <-. lia.
        -- rewrite list_lookup_insert_eq in Hu by (by eapply lookup_lt_Some). injection Hu as <-. lia.
      * rewrite app_nil_r. apply Hsome. destruct (n - r0 <=? 0); [done|]. cbn [reported] in Hu.
        by rewrite list_lookup_insert_ne in Hu.
Qed.

(** The budget is exact whatever is reported, how often and in what order:
    the tokens spent are the sum, over the agents admitted, of the largest
    cumulative total each reported (nothing for a missing, smaller, repeated or
    malformed report); no more agents are admitted than the cap; and one more is
    admitted exactly when the budget has tokens left and the cap room. *)
Theorem workflow_accounting_exact total cap ops :
  let a0 := accounting_init (budget_init total) cap in
  let a := run_ops a0 ops in
  legal a0 ops ->
  _spent (budget_of a) = foldr Z.add 0 (map (fun t => maximum (totals_of t ops)) (seq 0 (length (reported a)))) /\
  agent_count a = len (reported a) /\ agent_count a <= Z.max 0 cap /\
  ((exists ticket, reserve_agent a = Ok ticket) <-> remaining (budget_of a) <> Some 0 /\ agent_count a < cap).
Proof.
  intros a0 a Hl. destruct (run_ops_ok total cap ops) as [H1 H2 H3 H4 H5 H6]. fold a0 a in H1, H2, H3, H4, H5, H6.
  destruct (reported_totals total cap ops Hl) as [_ Hr]. fold a0 a in Hr. split_and!; try done.
  - rewrite H5. f_equal. apply list_eq. intros i. rewrite list_lookup_fmap.
    destruct (decide (i < length (reported a))%nat) as [Hi|Hi].
    + rewrite lookup_seq_lt by done. destruct (lookup_lt_is_Some_2 _ _ Hi) as [r Hri]. rewrite Hri. cbn. f_equal. by apply Hr.
    + rewrite (lookup_ge_None_2 (reported a)), (lookup_ge_None_2 (seq _ _)) by (rewrite ?length_seq; lia). done.
  - assert ((exists ticket, reserve_agent a = Ok ticket) <-> check (budget_of a) = Ok () /\ agent_count a < cap) as ->.
    { unfold reserve_agent. rewrite H2. destruct (check (budget_of a)) as [[]|e]; cbn; [|by split; [intros []|intros []]].
      destruct (Z.leb_spec cap (agent_count a)); split; [by intros []|by intros [_ ?]; lia|done|by eexists]. }
    enough (check (budget_of a) = Ok () <-> remaining (budget_of a) <> Some 0) as -> by done.
    unfold check, remaining. rewrite H1. destruct total as [n|]; [|done].
    destruct (Z.leb_spec n (_spent (budget_of a))) as [Hn|Hn]; split; try done.
    + intros Hne. exfalso. apply Hne. f_equal. lia.
    + intros _ [= E]. lia.
Qed.

Lemma workflow_accounting_exact_witness :
  let ops := [ReserveOp; ReserveOp; ReportOp 1 (VInt 7); ReportOp 0 (VInt 5); ReportOp 1 (VInt 3); ReportOp 1 VNone;
              ReportOp 0 (VInt 6); ReserveOp] in
  let a := run_ops (accounting_init (budget_init (Some 13)) 5) ops in
  _spent (budget_of a) = 13 /\ agent_count a = 2.
Proof.
  intros ops a. destruct (workflow_accounting_exact (Some 13) 5 [ReserveOp; ReserveOp; ReportOp 1 (VInt 7); ReportOp 0 (VInt 5);
    ReportOp 1 (VInt 3); ReportOp 1 VNone; ReportOp 0 (VInt 6); ReserveOp]) as (H & _).
  - vm_compute. repeat (split; [lia|]). done.
  - unfold a, ops. rewrite H. by vm_compute.
Defined.

Section Limits.
Variable lower : str -> str.
Variable sha1_hex : bytes -> str.
Variable float_repr : Z -> Z -> str.
Variable repr : str -> str.
Variable max_agent_depth : Z.
Variable routing_fingerprint : option str.
Variable actual_agent_type_resolver : option (option str -> str).
Variable read_only_mode : bool.

Abbreviation steps := (steps lower sha1_hex float_repr repr max_agent_depth routing_fingerprint actual_agent_type_resolver read_only_mode).
Abbreviation run := (run lower sha1_hex float_repr repr max_agent_depth routing_fingerprint actual_agent_type_resolver read_only_mode).

Definition slots (concurrency : option Z) : Z :=
  match concurrency with Some c => if c =? 0 then 8 else c | None => 8 end.

Lemma init_limits total cap conc cache : 0 <= slots conc -> limits total cap (slots conc) (init total cap conc cache).
Proof. intros H. split; [apply accounting_init_ok|change (slots conc + 0 = slots conc); lia|exact H]. Qed.

(** C11: However the calls of a run interleave: the calls that hold the
    semaphore, in their delay or in a dispatch, are never more than the
    concurrency, and every slot is held or free; the agents ever admitted are
    never more than the cap; the tokens spent are the sum of what the admitted
    agents reported; and from the moment the budget is spent no agent is admitted
    and no further call reaches its dispatch, for the rest of the run. *)
Theorem workflow_limits total cap conc cache es s :
  0 <= slots conc -> steps (init total cap conc cache) es s ->
  count holding (calls s) + sem s = slots conc /\ 0 <= sem s /\
  agent_count (acct s) = len (reported (acct s)) /\ agent_count (acct s) <= Z.max 0 cap /\
  spent (budget_of (acct s)) = foldr Z.add 0 (reported (acct s)) /\
  (forall es' s', steps s es' s' -> check (budget_of (acct s)) = Raise WorkflowBudgetExceeded ->
     agent_count (acct s') = agent_count (acct s) /\
     forall i c' t, calls s' !! i = Some c' -> state c' = Dispatching t ->
       exists c, calls s !! i = Some c /\ state c = Dispatching t).
Proof.
  intros H0 Hs. pose proof (limits_steps _ _ _ _ _ _ _ _ _ _ _ _ _ _ (init_limits total cap conc cache H0) Hs) as Hl.
  pose proof Hl as [[H1 H2 H3 H4 H5 H6] Hsem Hfree]. split_and!; try done; [lia|].
  intros es' s' Hs' He. by eapply stopped_steps.
Qed.

(** *** Every call can end *)

Definition weight (st : agent_state) : Z := match st with Waiting => 3 | Staggering => 2 | Dispatching _ => 1 | _ => 0 end.
Definition work (s : runtime) : Z := sumf (fun c => weight (state c)) (calls s).

Lemma work_set_state s i c st : calls s !! i = Some c ->
  work (set_state i st s) = work s - weight (state c) + weight st.
Proof. intros H. unfold work. cbn [calls set_state set_calls]. by rewrite (sumf_alter _ _ _ _ c). Qed.

Lemma work_bounds s : 0 <= work s <= 3 * len (calls s).
Proof. apply sumf_bounds. intros c. destruct (state c); cbn; lia. Qed.

Lemma next_step total cap conc (r : AgentRunResult) s : 0 < conc -> limits total cap conc s -> Forall (fun c => over c = true) (calls s) \/
  exists e s', run s [e] = Some s' /\ work s' < work s /\ length (calls s') = length (calls s).
Proof.
  intros H0 Hl. destruct (decide (Exists (fun c => over c = false) (calls s))) as [He|Hne].
  2: { left. apply not_Exists_Forall in Hne; [|apply _]. eapply Forall_impl; [exact Hne|]. intros c Hc. cbn in Hc. by destruct (over c). }
  right. destruct (decide (Exists (fun c => holding c = true) (calls s))) as [Hh|Hnh].
  - apply Exists_exists in Hh as (c & [i Hi]%list_elem_of_lookup_1 & Hc). unfold holding in Hc.
    destruct (state c) as [| |t| | |] eqn:Est; try done.
    + exists (Reserve i). cbn [WorkflowRuntime.run exec]. rewrite Hi. cbn [mbind option_bind]. rewrite Est. eexists. split; [done|].
      unfold agent_reserve. destruct (reserve_agent (acct s)) as [[t a]|]; cbn [calls set_state set_calls].
      all: rewrite length_alter; split; [|done].
      * rewrite (work_set_state _ _ c) by done. rewrite Est. change (work (set_acct a s)) with (work s). cbn [weight]. lia.
      * rewrite (work_set_state _ _ c) by done. rewrite Est. change (work (set_sem (sem s + 1) s)) with (work s). cbn [weight]. lia.
    + exists (Finish i r). cbn [WorkflowRuntime.run exec]. rewrite Hi. cbn [mbind option_bind]. rewrite Est. eexists. split; [done|].
      destruct (finish_frame float_repr i c t r s) as (_ & _ & _ & _ & _ & E & _). unfold work. rewrite E.
      rewrite length_alter, (sumf_alter _ _ _ _ c) by done. cbn [state]. rewrite Est. cbn [weight]. lia.
  - apply Exists_exists in He as (c & [i Hi]%list_elem_of_lookup_1 & Hc). unfold over in Hc.
    assert (forall c, c ∈ calls s -> holding c = false) as Hq.
    { intros c' Hc'. apply not_Exists_Forall in Hnh; [|apply _]. rewrite Forall_forall in Hnh. specialize (Hnh c' Hc').
      cbn in Hnh. by destruct (holding c'). }
    assert (count holding (calls s) = 0) as Hcount.
    { clear - Hq. induction (calls s) as [|x l IH]; [done|]. rewrite sumf_cons, (Hq x) by left. rewrite IH; [done|].
      intros c Hc. apply Hq. by right. }
    pose proof (Hq c ltac:(by eapply list_elem_of_lookup_2)) as Hhc. unfold holding in Hhc.
    destruct (state c) eqn:Est; try done. destruct Hl as [_ Hsem _].
    exists (Acquire i). cbn [WorkflowRuntime.run exec]. rewrite Hi. cbn [mbind option_bind]. rewrite Est.
    destruct (Z.ltb_spec 0 (sem s)); [|lia]. eexists. split; [done|]. unfold agent_acquire. rewrite (work_set_state _ _ c) by done.
    rewrite Est. change (work (set_sem (sem s - 1) s)) with (work s). cbn [calls set_state set_calls set_sem]. rewrite length_alter. cbn [weight]. lia.
Qed.

(** C12: No call is stuck: with a semaphore of at least one slot, every state a
    run reaches, in whatever interleaving, has a continuation of at most three
    steps per call after which every call has ended, whatever the dispatches
    return; the agent cap and the budget end calls with an error instead of
    blocking them. *)
Theorem workflow_drains total cap conc cache es s (r : AgentRunResult) :
  0 < slots conc -> steps (init total cap conc cache) es s ->
  exists es' s', run s es' = Some s' /\ Forall (fun c => over c = true) (calls s') /\ length (calls s') = length (calls s) /\
    len es' <= 3 * len (calls s).
Proof.
  intros H0 Hs. assert (limits total cap (slots conc) s) as Hl.
  { eapply limits_steps; [apply init_limits; lia|done]. }
  clear Hs. enough (forall n, work s <= Z.of_nat n -> exists es' s', run s es' = Some s' /\ Forall (fun c => over c = true) (calls s') /\
    length (calls s') = length (calls s) /\ len es' <= Z.of_nat n) as H.
  { destruct (H (Z.to_nat (work s)) ltac:(lia)) as (es' & s' & H1 & H2 & H3 & H4). exists es', s'.
    pose proof (work_bounds s). split_and!; try done. lia. }
  intros n. revert s Hl. induction n as [|n IH]; intros s Hl Hw.
  all: destruct (next_step total cap (slots conc) r s H0 Hl) as [Hd|(e & s1 & He & Hlt & Hlen)];
    [exists [], s; split_and!; try done; unfold len; cbn; lia|].
  - pose proof (work_bounds s1). lia.
  - assert (limits total cap (slots conc) s1) as Hl1 by (eapply limits_steps; [exact Hl|by apply run_steps]).
    destruct (IH s1 Hl1 ltac:(lia)) as (es' & s' & H1 & H2 & H3 & H4).
    exists (e :: es'), s'. split_and!; [|done|congruence|rewrite len_cons; lia].
    cbn [WorkflowRuntime.run] in He |- *. destruct (exec _ _ _ _ _ _ _ _ s e) as [s1'|]; [|done]. cbn in He. by injection He as ->.
Qed.
End Limits.

Lemma workflow_limits_witness :
  exists s, Sample.execute (Sample.start 10 []) Sample.events = Some s /\ count holding (calls s) + sem s = 2 /\
  spent (budget_of (acct s)) = 50 /\ agent_count (acct s) <= 10.
Proof.
  exists Sample.after_first. split; [by vm_compute|].
  destruct (workflow_limits Sample.ascii_lower Sample.digest Sample.show_float Sample.quote 1 None None false
    (Some 1000) 10 (Some 2) (Some []) Sample.events Sample.after_first) as (H1 & _ & _ & H4 & H5 & _).
  - done.
  - apply run_steps. by vm_compute.
  - split; [exact H1|]. split; [|exact H4]. rewrite H5. by vm_compute.
Defined.

Lemma workflow_drains_witness :
  exists es s, Sample.execute Sample.after_second es = Some s /\ Forall (fun c => over c = true) (calls s) /\ len es <= 9.
Proof.
  destruct (workflow_drains Sample.ascii_lower Sample.digest Sample.show_float Sample.quote 1 None None false
    (Some 1000) 1 (Some 2) (Some Sample.cache) [Call (Sample.ask "two"); Call (Sample.ask "one"); Call (Sample.ask "three")]
    Sample.after_second (Sample.answer "third" 1)) as (es & s & H1 & H2 & _ & H4).
  - done.
  - apply run_steps. by vm_compute.
  - exists es, s. split; [exact H1|]. split; [exact H2|]. replace 9 with (3 * len (calls Sample.after_second)) by by vm_compute. exact H4.
Defined.
