(* ===== verification/WorkflowFanout.v ===== *)
(** * Workflow fan-outs and artifact names *)

From stdpp Require Import base list strings numbers.
From Stdlib Require Import ZArith Lia.
From S2P Require Import Prelude PyStr Utf8 PyVal Json JsonFacts WorkflowJournal WorkflowRuntime.

(** ** Fan-outs *)

Definition item_value (o : outcome) : value := match o with Value v => v | Threw _ => VNone end.
Definition run_global (o : outcome) : option workflow_error := match o with Threw (RunGlobal e) => Some e | _ => None end.
(** The report of an item the script dropped. *)
Definition drop_report (where_ : str) (e : nat * (option Z * outcome)) : option row :=
  match e with
  | (i, (stage, Threw (Ordinary t m line))) =>
      Some [(lit "where", VStr where_); (lit "item", VInt (Z.of_nat i)); (lit "stage", opt_int stage);
            (lit "error", VStr (dropped_error t m)); (lit "script_line", opt_int line)]
  | _ => None
  end.

Section Fanout.
Variable float_repr : Z -> Z -> str.
Abbreviation gather := (gather float_repr).
Abbreviation fanout := (fanout float_repr).

(** What a dropped item adds, and how many lines it logs. *)
Lemma record_dropped where_ i stage t m line s :
  let s' := _record_dropped_item float_repr where_ (Z.of_nat i) stage t m line s in
  _dropped_items s' = _dropped_items s ++ option_list (drop_report where_ (i, (stage, Threw (Ordinary t m line)))) /\
  calls s' = calls s /\ journal s' = journal s /\ acct s' = acct s /\
  len (emitted s') <= len (emitted s) + (if len (_dropped_items s) <? 9 then 1 else if len (_dropped_items s) <? 10 then 2 else 0).
Proof.
  unfold _record_dropped_item. cbv zeta. unfold DROPPED_ITEM_LOG_LIMIT.
  cbn [_dropped_items set_transcript set_dropped_items]. rewrite len_app. change (len [_]) with 1.
  destruct s as [f1 f2 f3 f4 f5 f6 f7 f8 f9 f10 dropped f12 f13]. cbn [_dropped_items].
  destruct (Z.ltb_spec 10 (len dropped + 1)); [|destruct (Z.eqb_spec (len dropped + 1) 10)]; cbn; split_and!; try done;
    rewrite ?len_app; change (len [_]) with 1; destruct (Z.ltb_spec (len dropped) 9), (Z.ltb_spec (len dropped) 10); lia.
Qed.

(** The lines still to be logged before the reports stop. *)
Definition log_room (n : Z) : Z := Z.max 0 (if n <? 10 then 11 - n else 0).

Lemma gather_spec where_ ends results s :
  let '(res, s') := gather where_ ends results s in
  calls s' = calls s /\ journal s' = journal s /\ acct s' = acct s /\
  len (emitted s') + log_room (len (_dropped_items s')) <= len (emitted s) + log_room (len (_dropped_items s)) /\
  match head (omap (fun e => run_global e.2.2) ends) with
  | Some e => res = Raise e
  | None => res = Ok (foldl (fun r e => <[e.1 := Some (item_value e.2.2)]> r) results ends) /\
            _dropped_items s' = _dropped_items s ++ omap (drop_report where_) ends
  end.
Proof.
  revert results s. induction ends as [|[i [stage o]] ends IH]; intros results s.
  - cbn. split_and!; try done. by rewrite app_nil_r.
  - cbn [WorkflowRuntime.gather]. destruct o as [v|[e|t m line]]; cbn [settle].
    + specialize (IH (<[i:=Some v]> results) s). destruct (gather where_ ends _ s) as [res s'].
      cbn [omap list_omap snd run_global head]. exact IH.
    + by cbn.
    + destruct (record_dropped where_ i stage t m line s) as (R1 & R2 & R3 & R4 & R5).
      set (s1 := _record_dropped_item _ _ _ _ _ _ _ s) in *.
      specialize (IH (<[i:=Some VNone]> results) s1). destruct (gather where_ ends _ s1) as [res s'].
      cbn [omap list_omap snd run_global head]. destruct IH as (I1 & I2 & I3 & I4 & I5).
      split_and!; [congruence|congruence|congruence| |].
      * assert (len (_dropped_items s1) = len (_dropped_items s) + 1) as Hlen by (rewrite R1, len_app; done).
        rewrite Hlen in I4. unfold log_room in I4 |- *. pose proof (len_nonneg (_dropped_items s)).
        repeat (case_match; try lia).
      * destruct (head _); [done|]. destruct I5 as [-> ->]. split; [done|]. rewrite R1, <- app_assoc. done.
Qed.

(** The items an order ends, in that order. *)
Abbreviation ended ends order := (omap (fun i => o ← ends !! i; Some (i, o)) order).
Abbreviation set_results := (foldl (fun (r : list (option value)) e => <[fst e := Some (item_value (snd (snd e)))]> r)).

Lemma set_results_length results (es : list (nat * (option Z * outcome))) : length (set_results results es) = length results.
Proof. revert results. induction es as [|e es IH]; intros results; [done|]. cbn [foldl]. by rewrite IH, length_insert. Qed.

Lemma set_results_lookup (ends : list (option Z * outcome)) order results i o : NoDup order -> length results = length ends ->
  ends !! i = Some o ->
  set_results results (ended ends order) !! i = (if decide (i ∈ order) then Some (Some (item_value (snd o))) else results !! i).
Proof.
  intros Hn Hlen Ho. revert results Hlen. induction order as [|j order IH]; intros results Hlen; [done|].
  apply list.NoDup_cons in Hn as [Hj Hn]. cbn [omap list_omap]. destruct (ends !! j) as [oj|] eqn:Ej; cbn [mbind option_bind foldl fst snd].
  - rewrite IH by (done || by rewrite length_insert). destruct (decide (i = j)) as [->|Hne].
    + rewrite decide_False by done. rewrite decide_True by left. rewrite list_lookup_insert_eq; [congruence|].
      rewrite Hlen. by eapply lookup_lt_Some.
    + rewrite list_lookup_insert_ne by done. destruct (decide (i ∈ order)); [by rewrite decide_True by by right|].
      rewrite decide_False; [done|]. by intros [->|?]%elem_of_cons.
  - rewrite IH by done. assert (i <> j) by congruence.
    destruct (decide (i ∈ order)); [by rewrite decide_True by by right|].
    rewrite decide_False; [done|]. by intros [->|?]%elem_of_cons.
Qed.

Lemma all_results (ends : list (option Z * outcome)) order : order ≡ₚ seq 0 (length ends) ->
  mapM id (set_results (replicate (length ends) None) (ended ends order)) = Some (map (fun o => item_value (snd o)) ends).
Proof.
  intros Hp. assert (set_results (replicate (length ends) None) (ended ends order) = map (fun o => Some (item_value (snd o))) ends) as ->.
  { apply list_eq. intros i. destruct (ends !! i) as [o|] eqn:Eo.
    - rewrite (set_results_lookup _ _ _ _ o); [|rewrite Hp; apply NoDup_seq|by rewrite length_replicate|done].
      rewrite decide_True; [|rewrite Hp; apply elem_of_seq; apply lookup_lt_Some in Eo; lia].
      change (map ?f ends) with (f <$> ends). by rewrite list_lookup_fmap, Eo.
    - apply lookup_ge_None in Eo. rewrite !lookup_ge_None_2; [done|by rewrite length_map|].
      by rewrite set_results_length, length_replicate. }
  clear. induction ends as [|o ends IH]; [done|]. cbn [map mapM id]. by rewrite IH.
Qed.

Lemma all_dropped_frame where_ results n s :
  let s' := _maybe_warn_all_dropped where_ results n s in
  calls s' = calls s /\ journal s' = journal s /\ acct s' = acct s /\ _dropped_items s' = _dropped_items s /\
  len (emitted s') <= len (emitted s) + 1.
Proof.
  unfold _maybe_warn_all_dropped. destruct (_ || _); [split_and!; try done; lia|]. destruct s. cbn. split_and!; try done. by rewrite len_app.
Qed.

(** A fan-out is a barrier that keeps the items apart: in whatever order its
    items end, it returns, in the order of the items, the value of each one,
    [None] exactly for the items whose script code raised, each reported once in
    the order they ended; an exhausted budget or agent cap (or a cancellation)
    in any item is the exception of the whole fan-out, the first one to occur;
    more items than the bound are refused before any starts; and however many
    items are dropped, at most twelve lines reach the progress log. *)
Theorem fanout_results where_ (ends : list (option Z * outcome)) order s : order ≡ₚ seq 0 (length ends) ->
  exists res s', fanout where_ ends order s = Some (res, s') /\
  calls s' = calls s /\ journal s' = journal s /\ acct s' = acct s /\ len (emitted s') <= len (emitted s) + 12 /\
  (if MAX_FANOUT <? len ends then res = Raise TooManyItems /\ s' = s
   else match head (omap (fun e => run_global e.2.2) (ended ends order)) with
        | Some e => res = Raise e
        | None => res = Ok (map (fun o => item_value o.2) ends) /\
                  _dropped_items s' = _dropped_items s ++ omap (drop_report where_) (ended ends order)
        end).
Proof.
  intros Hp. unfold WorkflowRuntime.fanout. destruct (MAX_FANOUT <? len ends).
  { eexists _, _. split_and!; try done. lia. }
  pose proof (gather_spec where_ (ended ends order) (replicate (length ends) None) s) as Hg.
  destruct (gather where_ _ _ s) as [res s1]. destruct Hg as (G1 & G2 & G3 & G4 & G5).
  assert (len (emitted s1) <= len (emitted s) + 11) as Hlog.
  { unfold log_room in G4. pose proof (len_nonneg (_dropped_items s)). repeat (case_match; try lia). }
  destruct (head _) as [e|].
  - subst res. eexists _, _. split_and!; try done. lia.
  - destruct G5 as [-> G5]. rewrite all_results by done.
    destruct (all_dropped_frame where_ (map (fun o => item_value o.2) ends) (len (_dropped_items s)) s1) as (F1 & F2 & F3 & F4 & F5).
    eexists _, _. split; [done|]. rewrite F1, F2, F3, F4. split_and!; try done. lia.
Qed.
End Fanout.

Definition sample_items : list value := [VInt 4; VInt 0; VInt 2].
(** A stage that raises on zero. *)
Definition halve (v original : value) (index : Z) : outcome :=
  match v with
  | VInt n => if n =? 0 then Threw (Ordinary (lit "ZeroDivisionError") (lit "division by zero") (Some 7)) else Value (VInt (8 / n))
  | _ => Value VNone
  end.
Definition sample_runtime : runtime := init None 10 None None.

Lemma fanout_results_witness :
  exists s', pipeline (fun _ _ => []) sample_items [halve; halve] [2; 0; 1]%nat sample_runtime
             = Some (Ok [VInt 4; VNone; VInt 2], s') /\ len (_dropped_items s') = 1.
Proof.
  destruct (fanout_results (fun _ _ => []) (lit "pipeline")
    (imap (fun i v => chain [halve; halve] 0 v v (Z.of_nat i)) sample_items) [2; 0; 1]%nat sample_runtime)
    as (res & s' & H & _ & _ & _ & _ & Hres).
  - apply (bool_decide_unpack _). by vm_compute.
  - assert (res = Ok [VInt 4; VNone; VInt 2] /\ len (_dropped_items s') = 1) as [E1 E2].
    { change (MAX_FANOUT <? _) with false in Hres. cbv iota in Hres.
      match type of Hres with context [head ?x] => change (head x) with (@None workflow_error) in Hres end.
      destruct Hres as [E1 E2]. split; [rewrite E1|rewrite E2]; by vm_compute. }
    exists s'. split; [|exact E2]. rewrite <- E1. exact H.
Defined.

(** ** Artifact names *)

Section Artifacts.
Variable lower : str -> str.

Abbreviation slug_text := (Forall (fun c => slug_char c = true)).

Lemma sub_other_text dash s : slug_text (sub_other dash s).
Proof.
  revert dash. induction s as [|c s IH]; intros dash; [constructor|]. cbn [sub_other]. destruct (slug_char c) eqn:E; [by constructor|].
  destruct dash; [done|by constructor].
Qed.
Lemma sub_dashes_text dash s : slug_text s -> slug_text (sub_dashes dash s).
Proof.
  intros H. revert dash. induction H as [|c s Hc _ IH]; intros dash; [constructor|]. cbn [sub_dashes].
  destruct (c =? 45); [destruct dash|]; try (by constructor); done.
Qed.

Lemma drop_while_suffix {A} (f : A -> bool) l : exists p, l = p ++ drop_while f l.
Proof. exists (take_while f l). symmetry. apply take_drop_while. Qed.
Lemma rstrip_prefix f s : exists r, s = rstrip_by f s ++ r.
Proof.
  destruct (drop_while_suffix f (rev s)) as [p Hp]. exists (rev p). unfold rstrip_by. rewrite <- rev_app_distr, <- Hp.
  by rewrite rev_involutive.
Qed.
Lemma prefix_head {A} (f : A -> bool) (p s : list A) r : s = p ++ r ->
  match s with [] => True | x :: _ => f x = false end -> match p with [] => True | x :: _ => f x = false end.
Proof. intros ->. by destruct p. Qed.

(** A text that can name a file. *)
Definition clean (s : str) : Prop :=
  slug_text s /\ s <> [] /\ match s with [] => True | c :: _ => slug_edge c = false end /\
  match rev s with [] => True | c :: _ => slug_edge c = false end.

Lemma slugify_clean s fallback n : clean fallback -> 0 <= n ->
  clean (_slugify lower s fallback n) /\ (len fallback <= n -> len (_slugify lower s fallback n) <= n).
Proof.
  intros Hf Hn. unfold _slugify. set (base := sub_dashes false (sub_other false (lower (strip s)))).
  assert (slug_text base) as Hb by apply sub_dashes_text, sub_other_text.
  set (edged := strip_by slug_edge base). set (slug := if nonempty edged then edged else fallback).
  assert (slug_text slug /\ match slug with [] => True | c :: _ => slug_edge c = false end) as [Hs Hh].
  { unfold slug. destruct (nonempty edged) eqn:Ee; [|by destruct Hf as (? & ? & ? & ?)].
    unfold edged, strip_by. destruct (rstrip_prefix slug_edge (lstrip_by slug_edge base)) as [r Hr]. split.
    - destruct (drop_while_suffix slug_edge base) as [p Hp]. unfold lstrip_by in *. rewrite Hp, Hr in Hb.
      by apply Forall_app in Hb as [_ [Hb _]%Forall_app].
    - eapply prefix_head; [exact Hr|apply drop_while_head]. }
  destruct (rstrip_prefix slug_edge (slice_to slug n)) as [r Hr].
  pose proof (slice_to_from slug n Hn) as Hcut. rewrite Hr, <- app_assoc in Hcut. symmetry in Hcut.
  set (cut := rstrip_by slug_edge (slice_to slug n)) in *.
  destruct (nonempty cut) eqn:Ec; [|done]. split.
  - split_and!.
    + rewrite Hcut in Hs. by apply Forall_app in Hs as [Hs _].
    + by destruct cut.
    + by eapply prefix_head.
    + unfold cut, rstrip_by. rewrite rev_involutive. apply drop_while_head.
  - intros _. pose proof (len_slice_to_pos slug n Hn) as Hl. rewrite Hr, len_app in Hl. pose proof (len_nonneg r). lia.
Qed.

(** Every call gets artifact files of its own, under a safe name: the name is
    [agent-], the index, a dash and a slug of the label that is not empty, has at
    most 64 characters, all of them ASCII letters, digits, dots, underscores or
    dashes (so no separator of paths), and neither begins nor ends with a dot,
    a dash or an underscore, whatever the label holds; and two calls of a run
    never share a name, whatever their labels. *)
Theorem artifact_names index label :
  0 <= index ->
  (exists slug, agent_artifact_stem lower index label = lit "agent-" ++ dec_pad 3 index ++ [45] ++ slug /\ clean slug /\ len slug <= 64) /\
  (forall index' label', 0 <= index' -> agent_artifact_stem lower index label = agent_artifact_stem lower index' label' -> index = index').
Proof.
  intros Hi. assert (clean (lit "agent")) as Hf by (split_and!; [by repeat constructor|done|done|done]). split.
  - eexists. split; [reflexivity|]. destruct (slugify_clean (match label with Some l => if nonempty l then l else lit "call-" ++ dec index
      | None => lit "call-" ++ dec index end) (lit "agent") 64 Hf ltac:(lia)) as [H1 H2]. split; [exact H1|]. by apply H2.
  - intros index' label' Hi' E. unfold agent_artifact_stem in E. apply app_inv_head in E.
    assert (forall n rest, 0 <= n -> take_while ascii_digit (dec_pad 3 n ++ 45 :: rest) = dec_pad 3 n) as Htw.
    { intros n rest Hn. apply take_while_app; [by apply dec_pad_digits|]. by intros x r' [= <- _]. }
    apply (f_equal (take_while ascii_digit)) in E. cbn [app] in E. rewrite !Htw in E by done.
    apply (f_equal digits_value) in E. by rewrite !dec_pad_value in E.
Qed.
End Artifacts.

Lemma artifact_names_witness :
  agent_artifact_stem (fun s => s) 7 (Some (lit " ../a b/c\\d.-")) = lit "agent-007-a-b-c-d" /\
  (forall label', agent_artifact_stem (fun s => s) 7 None <> agent_artifact_stem (fun s => s) 1007 label').
Proof.
  split; [by vm_compute|]. intros label' E.
  destruct (artifact_names (fun s => s) 7 None) as [_ H]; [lia|]. specialize (H 1007 label' ltac:(lia) E). discriminate H.
Defined.
