(* ===== verification/Conversation.v ===== *)
(** * The conversation

    Models [Conversation] of [kolega_code/agent/conversation.py]: appending,
    the repair of tool calls and results, the view sent to the provider, and the
    compaction boundary; and the correlation of calls and results of
    [kolega_code/llm/models.py].

    A content block is a text, a tool call, a tool result or one of the other
    kinds (images, reasoning, searches), which these operations only carry along
    and which are a type of the model's own.  The markers of the prompt cache are
    request-shaping state outside the history and are left out.  The loop of
    [repaired] has the messages from its index on, each with a flag for
    [processed_indices]: it never looks back. *)

From stdpp Require Import base list strings numbers.
From Stdlib Require Import ZArith Lia.
From S2P Require Import Prelude PyStr PyVal.

Inductive role := System | User | Assistant.
#[global] Instance role_eq_dec : EqDecision role.
Proof. solve_decision. Defined.

Section Conversation.
Context {other : Type}.

(** ** Messages *)

Record ToolCall := mkCall {
  id : str;
  call_name : str;
  input : value;
  call_execution_id : option str;
  call_input_kind : str
}.

Inductive result_content := ResultText (s : str) | ResultBlocks (l : list other).
Record ToolResult := mkResult {
  tool_use_id : str;
  result_content_of : result_content;
  result_name : str;
  is_error : bool;
  result_execution_id : option str;
  result_input_kind : str;
  error_kind : option str
}.

Inductive block := TextBlock (text : str) | CallBlock (c : ToolCall) | ResultBlock (r : ToolResult) | OtherBlock (o : other).
Inductive content := Plain (s : str) | Blocks (l : list block).

(** [usage] stands for the two usage attributes, which no operation reads. *)
Record Message := mkMessage {
  role_of : role;
  content_of : content;
  stop_reason : option str;
  tool_calls : list ToolCall;
  usage_metadata : list (str * value);
  usage : option other
}.

Definition text_message (r : role) (text : str) : Message := mkMessage r (Blocks [TextBlock text]) None [] [] None.

(** [Message(role, content, stop_reason, tool_calls, usage_metadata)]. *)
Definition rebuilt (r : role) (c : list block) (m : option Message) : Message :=
  match m with
  | Some m => mkMessage r (Blocks c) (stop_reason m) (tool_calls m) (usage_metadata m) None
  | None => mkMessage r (Blocks c) None [] [] None
  end.

(** [same_tool_execution] of a call and a result, and of two results. *)
Definition same_execution (left_execution : option str) (left_id : str) (right_execution : option str) (right_id : str) : bool :=
  match left_execution, right_execution with
  | Some l, Some r => str_eqb l r
  | _, _ => str_eqb left_id right_id
  end.
Definition same_tool_execution (c : ToolCall) (r : ToolResult) : bool :=
  same_execution (call_execution_id c) (id c) (result_execution_id r) (tool_use_id r).
Definition same_result_execution (r1 r2 : ToolResult) : bool :=
  same_execution (result_execution_id r1) (tool_use_id r1) (result_execution_id r2) (tool_use_id r2).

Definition block_call (b : block) : option ToolCall := match b with CallBlock c => Some c | _ => None end.
Definition block_result (b : block) : option ToolResult := match b with ResultBlock r => Some r | _ => None end.
Definition blocks_of (m : Message) : list block := match content_of m with Blocks l => l | Plain _ => [] end.

(** The tool calls of an assistant message with a list of blocks. *)
Definition calls_of (m : Message) : list ToolCall :=
  match role_of m with Assistant => omap block_call (blocks_of m) | _ => [] end.

(** ** The conversation *)

Record Conversation := mkConversation {
  _history : list Message;
  summary : option Message;
  compacted_through : Z;
  compacted_history_length : Z;
  max_tool_result_chars : Z
}.

Definition init (messages : list Message) (cap : Z) : Conversation := mkConversation messages None 0 0 cap.
(** The setter of [history]: any compaction is forgotten. *)
Definition set_history (h : list Message) (c : Conversation) : Conversation := mkConversation h None 0 0 (max_tool_result_chars c).
Definition clear (c : Conversation) : Conversation := set_history [] c.
(** Assignments to [_history] itself. *)
Definition with_history (h : list Message) (c : Conversation) : Conversation :=
  mkConversation h (summary c) (compacted_through c) (compacted_history_length c) (max_tool_result_chars c).

Definition last_compression_index (c : Conversation) : option Z :=
  match summary c with Some _ => if 0 <? compacted_through c then Some (compacted_through c - 1) else None | None => None end.

(** ** Appending *)

(** [l[i] = x] at the first element that satisfies [f]. *)
Fixpoint replace_first {A} (f : A -> bool) (x : A) (l : list A) : option (list A) :=
  match l with
  | [] => None
  | y :: l' => if f y then Some (x :: l') else match replace_first f x l' with Some l'' => Some (y :: l'') | None => None end
  end.

(** The results of the new content, a later one in the place of an earlier one
    of the same execution, and the other blocks. *)
Definition split_results (blocks : list block) : list ToolResult * list block :=
  fold_left (fun acc b =>
    match b with
    | ResultBlock r =>
        match replace_first (fun existing => same_result_execution existing r) r (fst acc) with
        | Some l => (l, snd acc)
        | None => (fst acc ++ [r], snd acc)
        end
    | _ => (fst acc, snd acc ++ [b])
    end) blocks ([], []).

Fixpoint extract_first {A} (f : A -> bool) (l : list A) : option (A * list A) :=
  match l with
  | [] => None
  | y :: l' => if f y then Some (y, l') else match extract_first f l' with Some (x, l'') => Some (x, y :: l'') | None => None end
  end.

Definition interrupted_marker : str := lit "Operation was interrupted".
Definition should_replace (old new_result : ToolResult) : bool :=
  (is_error old && match result_content_of old with ResultText s => 0 <? count_sub interrupted_marker s | ResultBlocks _ => false end)
  || (negb (is_error new_result) && is_error old).

(** The blocks of one earlier message against the new results: the updated
    blocks, whether one was replaced, and the results left. *)
Fixpoint reconcile_blocks (blocks : list block) (new_results : list ToolResult) : list block * bool * list ToolResult :=
  match blocks with
  | [] => ([], false, new_results)
  | b :: blocks' =>
      match b with
      | ResultBlock old =>
          match extract_first (fun candidate => same_result_execution old candidate) new_results with
          | Some (new_result, rest) =>
              let '(bs, replaced, unmatched) := reconcile_blocks blocks' rest in
              if should_replace old new_result then (ResultBlock new_result :: bs, true, unmatched) else (b :: bs, replaced, unmatched)
          | None => let '(bs, replaced, unmatched) := reconcile_blocks blocks' new_results in (b :: bs, replaced, unmatched)
          end
      | _ => let '(bs, replaced, unmatched) := reconcile_blocks blocks' new_results in (b :: bs, replaced, unmatched)
      end
  end.

Fixpoint reconcile (history : list Message) (new_results : list ToolResult) : list Message * list ToolResult :=
  match history with
  | [] => ([], new_results)
  | m :: history' =>
      match role_of m, content_of m with
      | User, Blocks l =>
          let '(bs, replaced, unmatched) := reconcile_blocks l new_results in
          let '(ms, unmatched) := reconcile history' unmatched in
          ((if replaced then rebuilt User bs (Some m) else m) :: ms, unmatched)
      | _, _ => let '(ms, unmatched) := reconcile history' new_results in (m :: ms, unmatched)
      end
  end.

Definition NO_USER_CONTENT : str := lit "[User provided no message content]".
Definition NO_ASSISTANT_CONTENT : str := lit "[Assistant returned no message content]".

Definition append_blocks (blocks : list block) (c : Conversation) : Conversation :=
  let blocks := if nonempty blocks then blocks else [TextBlock NO_USER_CONTENT] in
  with_history (_history c ++ [mkMessage User (Blocks blocks) None [] [] None]) c.

Definition append_user (cont : content) (c : Conversation) : Conversation :=
  let blocks := match cont with Plain s => [TextBlock s] | Blocks l => l end in
  let '(new_results, others) := split_results blocks in
  if nonempty new_results then
    let '(h, unmatched) := reconcile (_history c) new_results in
    let c := with_history h c in
    let blocks := map ResultBlock unmatched ++ others in
    if nonempty blocks then append_blocks blocks c else c
  else append_blocks blocks c.

Definition append_assistant (m : Message) (c : Conversation) : Conversation :=
  let empty := match content_of m with Plain s => negb (nonempty s) | Blocks l => negb (nonempty l) end in
  let m := if empty
           then mkMessage (role_of m) (Blocks [TextBlock NO_ASSISTANT_CONTENT]) (stop_reason m) (tool_calls m) (usage_metadata m) (usage m)
           else m in
  with_history (_history c ++ [m]) c.

(** ** Validity and repair *)

Fixpoint is_valid_for_anthropic (messages : list Message) : bool :=
  match messages with
  | [] => true
  | m :: messages' =>
      let calls := calls_of m in
      (if nonempty calls then
         match messages' with
         | [] => false
         | next :: _ =>
             match role_of next, content_of next with
             | User, Blocks l => forallb (fun c => str_in (id c) (map tool_use_id (omap block_result l))) calls
             | _, _ => false
             end
         end
       else true)
      && is_valid_for_anthropic messages'
  end.

Definition needs_tool_call_fix (c : Conversation) : bool :=
  match rev (_history c) with m :: _ => nonempty (calls_of m) | [] => false end.

(** [all_tool_results]: every call with its result, once found. *)
Definition slots := list (ToolCall * option ToolResult).

(** The first call without a result that the result belongs to. *)
Fixpoint place (r : ToolResult) (s : slots) : option slots :=
  match s with
  | [] => None
  | (c, None) :: s' =>
      if same_tool_execution c r then Some ((c, Some r) :: s')
      else match place r s' with Some s'' => Some ((c, None) :: s'') | None => None end
  | (c, Some x) :: s' => match place r s' with Some s'' => Some ((c, Some x) :: s'') | None => None end
  end.

(** The blocks of a message that stay, and whether one was taken. *)
Fixpoint collect (blocks : list block) (s : slots) : list block * bool * slots :=
  match blocks with
  | [] => ([], false, s)
  | b :: blocks' =>
      match match b with ResultBlock r => place r s | _ => None end with
      | Some s' => let '(rest, _, s'') := collect blocks' s' in (rest, true, s'')
      | None => let '(rest, found, s'') := collect blocks' s in (b :: rest, found, s'')
      end
  end.

(** A message with its membership in [processed_indices]. *)
Definition pending := (bool * Message)%type.

(** The following message, when it is one of the user: it, the blocks it keeps
    and the calls; its list is processed whether or not it was before. *)
Definition take_next (rest : list pending) (s : slots) : option Message * list block * slots * list pending :=
  match rest with
  | (p, m) :: rest' =>
      match role_of m, content_of m with
      | User, Blocks l => let '(others, _, s') := collect l s in (Some m, others, s', (true, m) :: rest')
      | User, Plain _ => (Some m, [], s, rest)
      | _, _ => (None, [], s, rest)
      end
  | [] => (None, [], s, rest)
  end.

Definition missing (s : slots) : bool := existsb (fun co => match snd co with None => true | Some _ => false end) s.

(** The search in the rest of the conversation. *)
Definition search_message (pm : pending) (s : slots) : pending * slots :=
  let '(p, m) := pm in
  match p, role_of m, content_of m with
  | false, User, Blocks l =>
      let '(remaining, found, s') := collect l s in
      ((if found then if nonempty remaining then (false, rebuilt User remaining (Some m)) else (true, m) else (p, m)), s')
  | _, _, _ => (pm, s)
  end.
Fixpoint search (rest : list pending) (s : slots) : list pending * slots :=
  match rest with
  | [] => ([], s)
  | pm :: rest' =>
      let '(pm', s') := search_message pm s in
      let '(rest'', s'') := search rest' s' in
      (pm' :: rest'', s'')
  end.

Definition INTERRUPTED : str := lit "Operation was interrupted. Please retry if needed.".
Definition placeholder (c : ToolCall) : ToolResult :=
  mkResult (id c) (ResultText INTERRUPTED) (call_name c) true (call_execution_id c) (call_input_kind c) None.
Definition complete (s : slots) : list ToolResult :=
  map (fun co => match snd co with Some r => r | None => placeholder (fst co) end) s.

(** One round per message. *)
Fixpoint repair_loop (fuel : nat) (rest : list pending) : list Message :=
  match fuel, rest with
  | S fuel', (p, m) :: rest' =>
      if p then repair_loop fuel' rest'
      else
        let calls := calls_of m in
        if nonempty calls then
          let '(next_user, others, s, rest1) := take_next rest' (map (fun c => (c, None)) calls) in
          let '(rest2, s) := if missing s then search rest1 s else (rest1, s) in
          m :: rebuilt User (map ResultBlock (complete s) ++ others) next_user :: repair_loop fuel' rest2
        else m :: repair_loop fuel' rest'
  | _, _ => []
  end.

Definition repaired (messages : list Message) : list Message :=
  repair_loop (length messages) (map (fun m => (false, m)) messages).

Definition extend (messages : list Message) (c : Conversation) : Conversation :=
  with_history (repaired (_history c ++ messages)) c.

(** ** The view sent to the provider *)

(** [skill_content_pattern.search]. *)
Definition skill_open : str := lit "<skill_content name=" ++ [34].
Definition skill_at (s : str) : bool :=
  startswith skill_open s &&
  (let name := slice_from s (len skill_open) in
   nonempty (take_while (fun c => negb (c =? 34)) name) && startswith [34; 62] (drop_while (fun c => negb (c =? 34)) name)).
Fixpoint skill_search (s : str) : bool := skill_at s || match s with [] => false | _ :: s' => skill_search s' end.

Definition is_protected (m : Message) : bool :=
  match role_of m with
  | User =>
      match content_of m with
      | Plain s => skill_search s
      | Blocks l => existsb (fun b => match b with TextBlock t => skill_search t | _ => false end) l
      end
  | _ => false
  end.

Definition effective_history (c : Conversation) : list Message :=
  match summary c with
  | Some s =>
      if (0 <? compacted_through c) && nonempty (_history c) then
        let cut := Z.min (compacted_through c) (len (_history c)) in
        List.filter is_protected (slice_to (_history c) cut) ++ [s] ++ slice_from (_history c) cut
      else _history c
  | None => _history c
  end.

(** ** Maintenance *)

Definition omitted_message (n cap : Z) (name : str) : str :=
  lit "[Tool result omitted from history because it was " ++ dec_comma n ++ lit " characters, exceeding the " ++ dec_comma cap
  ++ lit " character safety cap. Re-run `" ++ name ++ lit "` with narrower inputs if the content is still needed.]".

Definition sanitize_block (cap : Z) (b : block) : block :=
  match b with
  | ResultBlock r =>
      match result_content_of r with
      | ResultText s =>
          if len s <=? cap then b
          else ResultBlock (mkResult (tool_use_id r) (ResultText (omitted_message (len s) cap (result_name r))) (result_name r)
                              (is_error r) (result_execution_id r) (result_input_kind r) (error_kind r))
      | ResultBlocks _ => b
      end
  | _ => b
  end.
Definition sanitize_message (cap : Z) (m : Message) : Message :=
  match content_of m with
  | Blocks l => mkMessage (role_of m) (Blocks (map (sanitize_block cap) l)) (stop_reason m) (tool_calls m) (usage_metadata m) (usage m)
  | Plain _ => m
  end.
Definition sanitize_oversized_tool_results (c : Conversation) : Conversation :=
  with_history (map (sanitize_message (max_tool_result_chars c)) (_history c)) c.

Definition record_compression (s : Message) (c : Conversation) : Conversation :=
  mkConversation (_history c) (Some s) (len (_history c)) (len (_history c)) (max_tool_result_chars c).

Definition apply_compaction (summary_text : str) (split_point : Z) (c : Conversation) : Conversation :=
  mkConversation (_history c) (Some (text_message User summary_text)) (Z.max 0 (Z.min split_point (len (_history c))))
    (len (_history c)) (max_tool_result_chars c).

(** [idx] messages from the start, the last one first. *)
Fixpoint snap (reversed_prefix : list Message) : nat :=
  match reversed_prefix with
  | prev :: before => if nonempty (calls_of prev) then snap before else length reversed_prefix
  | [] => O
  end.
Definition _snap_to_safe_boundary (c : Conversation) (idx : Z) : Z := Z.of_nat (snap (rev (take (Z.to_nat idx) (_history c)))).

Definition compaction_split_point (c : Conversation) (keep_recent min_prefix : Z) : option Z :=
  let n := len (_history c) in
  if n <=? min_prefix then None
  else
    let candidate := _snap_to_safe_boundary c (Z.max 0 (n - keep_recent)) in
    if candidate <? min_prefix then None else Some candidate.

Definition snap_split_point (c : Conversation) (idx : Z) : Z :=
  _snap_to_safe_boundary c (Z.max 0 (Z.min idx (len (_history c)))).

(** ** The boundary in a saved session *)

(** [get_text_content]: the texts of the blocks that have one; an other kind of
    block may have a text too, which is [other_text]. *)
Variable other_text : other -> option str.
Definition get_text_content (m : Message) : str :=
  match content_of m with
  | Plain s => s
  | Blocks l => join [NL] (omap (fun b => match b with TextBlock t => Some t | OtherBlock o => other_text o | _ => None end) l)
  end.

Definition dump_compaction (c : Conversation) : str * Z * Z :=
  (match summary c with Some s => get_text_content s | None => [] end, compacted_through c, compacted_history_length c).

Definition restore_compaction (data : str * Z * Z) (c : Conversation) : Conversation :=
  let '(text, through, saved_length) := data in
  let text := strip text in
  if nonempty text && (0 <? through)
  then mkConversation (_history c) (Some (text_message User text)) (Z.min through (len (_history c))) saved_length (max_tool_result_chars c)
  else mkConversation (_history c) None 0 0 (max_tool_result_chars c).

(** [restore], after the messages have been parsed. *)
Definition restore (messages : list Message) (c : Conversation) : Conversation :=
  sanitize_oversized_tool_results (set_history messages c).
End Conversation.
Arguments Message : clear implicits.
Arguments block : clear implicits.
Arguments content : clear implicits.
Arguments ToolResult : clear implicits.
Arguments Conversation : clear implicits.
Arguments slots : clear implicits.
Arguments pending : clear implicits.
