(* ===== verification/ConversationFacts.v ===== *)
(** * The conversation: repair and compaction keep it valid *)

From stdpp Require Import base list strings numbers.
From Stdlib Require Import ZArith Lia.
From S2P Require Import Prelude PyStr PyVal Conversation.

Section Facts.
Context {other : Type}.

Abbreviation Message := (Message other).
Abbreviation block := (block other).
Abbreviation ToolResult := (ToolResult other).
Abbreviation Conversation := (Conversation other).
Abbreviation slots := (slots other).
Abbreviation pending := (pending other).

(** ** What a history holds *)

Definition is_result (b : block) : bool := match b with ResultBlock _ => true | _ => false end.
(** The blocks of a message with its role, a plain string as one text. *)
Definition items (m : Message) : list (role * block) :=
  map (pair (role_of m)) (match content_of m with Blocks l => l | Plain s => [TextBlock s] end).
(** Everything but the tool results, in order. *)
Definition spoken (m : Message) : list (role * block) := List.filter (fun rb => negb (is_result rb.2)) (items m).
Definition transcript (ms : list Message) : list (role * block) := concat (map spoken ms).
Definition results_of (m : Message) : list ToolResult := omap block_result (blocks_of m).
Definition results (ms : list Message) : list ToolResult := concat (map results_of ms).

Lemma results_cons m ms : results (m :: ms) = results_of m ++ results ms.
Proof. done. Qed.
Lemma transcript_cons m ms : transcript (m :: ms) = spoken m ++ transcript ms.
Proof. done. Qed.

(** A result answers a call: it is a known one of the same execution, or the
    placeholder of an interrupted call. *)
Definition answers (P : ToolResult -> Prop) (c : ToolCall) (r : ToolResult) : Prop :=
  r = placeholder c \/ (P r /\ same_tool_execution c r = true).

(** The message after a message with calls begins with one answer to each, in
    their order. *)
Definition answered (P : ToolResult -> Prop) (calls : list ToolCall) (u : Message) : Prop :=
  role_of u = User /\ usage u = None /\ exists rs others, content_of u = Blocks (map ResultBlock rs ++ others) /\
    Forall2 (answers P) calls rs.
Fixpoint settled (P : ToolResult -> Prop) (ms : list Message) : Prop :=
  match ms with
  | [] => True
  | m :: ms' => (calls_of m <> [] -> match ms' with u :: _ => answered P (calls_of m) u | [] => False end) /\ settled P ms'
  end.

(** ** Correlating calls and results *)

Lemma same_execution_refl e i : same_execution e i e i = true.
Proof. unfold same_execution. destruct e; apply str_eqb_refl. Qed.

Lemma placeholder_same (c : ToolCall) : same_tool_execution c (placeholder (other := other) c) = true.
Proof. apply same_execution_refl. Qed.

Lemma answers_same P c r : answers P c r -> same_tool_execution c r = true.
Proof. intros [->|[_ H]]; [apply placeholder_same|done]. Qed.

Definition filled (s : slots) : list ToolResult := omap snd s.
Definition slots_ok (P : ToolResult -> Prop) (s : slots) : Prop :=
  Forall (fun co => match snd co with Some r => P r /\ same_tool_execution (fst co) r = true | None => True end) s.

Lemma place_spec P r (s s' : slots) : place r s = Some s' -> P r ->
  map fst s' = map fst s /\ (slots_ok P s -> slots_ok P s') /\ filled s' ≡ₚ r :: filled s.
Proof.
  intros H Hr. revert s' H. induction s as [|[c [x|]] s IH]; intros s' H; cbn [place] in H; [done| |].
  - destruct (place r s) as [s''|] eqn:E; [|done]. injection H as <-. destruct (IH s'' eq_refl) as (H1 & H2 & H3).
    split_and!; [cbn; by rewrite H1| |].
    + intros Hs. inversion Hs; subst. constructor; [done|]. by apply H2.
    + change (x :: filled s'' ≡ₚ r :: x :: filled s). rewrite H3. constructor.
  - destruct (same_tool_execution c r) eqn:Ec.
    + injection H as <-. split_and!; [done| |done]. intros Hs. inversion Hs; subst. by constructor.
    + destruct (place r s) as [s''|] eqn:E; [|done]. injection H as <-. destruct (IH s'' eq_refl) as (H1 & H2 & H3).
      split_and!; [cbn; by rewrite H1| |done]. intros Hs. inversion Hs; subst. constructor; [done|]. by apply H2.
Qed.

(** What [collect] does: the calls stay, results move into their slots, the
    rest keeps its order. *)
Lemma collect_spec P bs (s : slots) : Forall P (omap block_result bs) ->
  let '(rest, found, s') := collect bs s in
  map fst s' = map fst s /\ (slots_ok P s -> slots_ok P s') /\
  filled s' ++ omap block_result rest ≡ₚ filled s ++ omap block_result bs /\
  List.filter (fun b => negb (is_result b)) rest = List.filter (fun b => negb (is_result b)) bs /\
  (found = false -> rest = bs /\ s' = s) /\ Forall P (omap block_result rest).
Proof.
  revert s. induction bs as [|b bs IH]; intros s Hp; cbn [collect]; [by split_and!|].
  destruct b as [t|c|r|o].
  all: try (specialize (IH s Hp); destruct (collect bs s) as [[rest found] s']; destruct IH as (H1 & H2 & H3 & H4 & H5 & H6);
    cbn [omap list_omap block_result List.filter negb is_result]; split_and!; [done|done|done|by rewrite H4|by intros [-> ->]%H5|done]).
  cbn [omap list_omap block_result] in Hp. inversion Hp as [|? ? Hr Hp']; subst. destruct (place r s) as [s1|] eqn:E.
  - destruct (place_spec P r s s1 E Hr) as (G1 & G2 & G3). specialize (IH s1 Hp'). destruct (collect bs s1) as [[rest found] s'].
    destruct IH as (H1 & H2 & H3 & H4 & _ & H6). cbn [omap list_omap block_result List.filter negb is_result].
    split_and!; [congruence|auto| |done|done|done]. rewrite H3, G3. cbn [app]. apply Permutation_middle.
  - specialize (IH s Hp'). destruct (collect bs s) as [[rest found] s']. destruct IH as (H1 & H2 & H3 & H4 & H5 & H6).
    cbn [omap list_omap block_result List.filter negb is_result]. split_and!; [done|done| |done|by intros [-> ->]%H5|by constructor].
    rewrite <- !Permutation_middle. by constructor.
Qed.

Lemma complete_answers P (s : slots) : slots_ok P s -> Forall2 (answers P) (map fst s) (complete s).
Proof. induction 1 as [|[c [r|]] s Hr _ IH]; cbn; constructor; try done; [by right|by left]. Qed.

Lemma complete_filled (s : slots) : filled s ⊆+ complete s.
Proof. induction s as [|[c [r|]] s IH]; cbn; [done|by apply submseteq_skip|by apply submseteq_cons]. Qed.

(** ** What the loop still has before it *)

Definition live (rest : list pending) : list Message := map snd (List.filter (fun pm => negb (fst pm)) rest).

Lemma live_cons p m rest : live ((p, m) :: rest) = (if p then [] else [m]) ++ live rest.
Proof. by destruct p. Qed.

(** A processed message has nothing but results left to say. *)
Definition spent (pm : pending) : Prop := fst pm = true -> spoken (snd pm) = [].

Lemma spoken_user (bs : list block) (u : Message) : role_of u = User -> content_of u = Blocks bs ->
  spoken u = map (pair User) (List.filter (fun b => negb (is_result b)) bs).
Proof.
  intros Hr Hc. unfold spoken, items. rewrite Hr, Hc. clear. induction bs as [|b bs IH]; [done|]. cbn [map List.filter snd].
  destruct (negb (is_result b)); cbn [map]; by rewrite IH.
Qed.

Lemma rebuilt_spoken (bs : list block) (m : option Message) :
  spoken (rebuilt User bs m) = map (pair User) (List.filter (fun b => negb (is_result b)) bs).
Proof. by destruct m; apply spoken_user. Qed.
Lemma rebuilt_results (bs : list block) (m : option Message) : results_of (rebuilt User bs m) = omap block_result bs.
Proof. by destruct m. Qed.
Lemma rebuilt_calls (bs : list block) (m : option Message) : calls_of (rebuilt User bs m) = [].
Proof. by destruct m. Qed.

Lemma results_of_blocks (m : Message) l : content_of m = Blocks l -> results_of m = omap block_result l.
Proof. unfold results_of, blocks_of. by intros ->. Qed.

(** Results that went from the messages to the slots, and nothing else changed. *)
Record moved (P : ToolResult -> Prop) (s : slots) (rest : list pending) (s' : slots) (rest' : list pending) : Prop := {
  mv_calls : map fst s' = map fst s;
  mv_ok : slots_ok P s -> slots_ok P s';
  mv_results : filled s' ++ results (live rest') ≡ₚ filled s ++ results (live rest);
  mv_said : transcript (live rest') = transcript (live rest);
  mv_spent : Forall2 (fun pm pm' => spent pm -> spent pm') rest rest';
  mv_known : Forall (fun pm => Forall P (results_of pm.2)) rest'
}.

Lemma moved_none P s rest : Forall (fun pm => Forall P (results_of pm.2)) rest -> moved P s rest s rest.
Proof. intros Hk. split; try done. by apply Forall_Forall2_diag, Forall_true. Qed.

Lemma moved_cons P s pm s1 pm' rest s' rest' :
  moved P s [pm] s1 [pm'] -> moved P s1 rest s' rest' -> moved P s (pm :: rest) s' (pm' :: rest').
Proof.
  intros [A1 A2 A3 A4 A5 A6] [B1 B2 B3 B4 B5 B6].
  assert (forall pm (l : list pending), live (pm :: l) = live [pm] ++ live l) as Hlive.
  { intros [[] m] l; done. }
  assert (forall l1 l2 : list Message, results (l1 ++ l2) = results l1 ++ results l2) as Hres.
  { intros l1 l2. unfold results. by rewrite map_app, concat_app. }
  assert (forall l1 l2 : list Message, transcript (l1 ++ l2) = transcript l1 ++ transcript l2) as Htr.
  { intros l1 l2. unfold transcript. by rewrite map_app, concat_app. }
  split; rewrite ?(Hlive pm rest), ?(Hlive pm' rest').
  - congruence.
  - auto.
  - rewrite !Hres, (Permutation_app_swap_app (filled s')), B3, (Permutation_app_swap_app (results _)), app_assoc, A3.
    by rewrite <- app_assoc.
  - by rewrite !Htr, A4, B4.
  - inversion A5; subst. by constructor.
  - inversion A6; subst. by constructor.
Qed.

Lemma search_message_spec P pm (s : slots) : Forall P (results_of pm.2) ->
  let '(pm', s') := search_message pm s in moved P s [pm] s' [pm'].
Proof.
  destruct pm as [p m]. intros Hk. cbn [snd] in Hk. unfold search_message.
  assert (moved P s [(p, m)] s [(p, m)]) as Hsame by (apply moved_none; by constructor).
  destruct p; [exact Hsame|]. destruct (role_of m) eqn:Er; try exact Hsame. destruct (content_of m) as [tx|l] eqn:Ec; [exact Hsame|].
  rewrite (results_of_blocks m l) in Hk by done. pose proof (collect_spec P l s Hk) as Hcol.
  destruct (collect l s) as [[remaining found] s1]. destruct Hcol as (G1 & G2 & G3 & G4 & G5 & G6).
  destruct found; [|destruct (G5 eq_refl) as [_ ->]; exact Hsame]. clear G5.
  assert (results [m] = omap block_result l) as Hrm by (cbn; by rewrite app_nil_r, (results_of_blocks m l)).
  assert (transcript [m] = map (pair User) (List.filter (fun b => negb (is_result b)) l)) as Htm
    by (cbn; by rewrite app_nil_r, (spoken_user l)).
  destruct (nonempty remaining) eqn:En.
  - split; cbn [live List.filter fst negb map snd].
    + done.
    + done.
    + rewrite Hrm. unfold results. cbn [map concat]. by rewrite app_nil_r, rebuilt_results.
    + rewrite Htm. unfold transcript. cbn [map concat]. by rewrite app_nil_r, rebuilt_spoken, G4.
    + by repeat constructor.
    + constructor; [|constructor]. cbn [snd]. by rewrite rebuilt_results.
  - destruct remaining; [|done]. cbn [omap list_omap List.filter] in G3, G4.
    split; cbn [live List.filter fst negb map snd].
    + done.
    + done.
    + rewrite Hrm. unfold results. cbn [map concat]. done.
    + rewrite Htm, <- G4. done.
    + constructor; [|constructor]. intros _ _. cbn [snd]. by rewrite (spoken_user l), <- G4.
    + constructor; [|constructor]. cbn [snd]. by rewrite (results_of_blocks m l).
Qed.

Lemma search_spec P rest (s : slots) : Forall (fun pm => Forall P (results_of pm.2)) rest ->
  let '(rest', s') := search rest s in moved P s rest s' rest'.
Proof.
  intros Hk. revert s. induction Hk as [|pm rest Hm _ IH]; intros s; cbn [search]; [by apply moved_none|].
  pose proof (search_message_spec P pm s Hm) as H1. destruct (search_message pm s) as [pm' s1].
  specialize (IH s1). destruct (search rest s1) as [rest' s']. by apply (moved_cons P s pm s1).
Qed.

(** ** The loop *)

(** One round at a message with calls: the answers, the blocks the following
    message keeps, and what is left. *)
Definition gather (calls : list ToolCall) (rest : list pending) : option Message * list block * slots * list pending :=
  let '(next_user, others, s, rest1) := take_next rest (map (fun c => (c, None)) calls) in
  let '(rest2, s) := if missing s then search rest1 s else (rest1, s) in
  (next_user, others, s, rest2).

Lemma repair_loop_calls fuel m rest : calls_of m <> [] ->
  repair_loop (S fuel) ((false, m) :: rest) =
  let '(next_user, others, s, rest2) := gather (calls_of m) rest in
  m :: rebuilt User (map ResultBlock (complete s) ++ others) next_user :: repair_loop fuel rest2.
Proof.
  intros Hc. cbn [repair_loop]. unfold gather. destruct (calls_of m) as [|c cs] eqn:E; [done|]. cbn [nonempty].
  destruct (take_next _ _) as [[[nu others] s] rest1]. by destruct (if missing s then _ else _) as [rest2 s2].
Qed.

(** [next_spoken]: what the following message says beside its results, when the
    round takes it over. *)
Lemma search_gather_spec P calls rest :
  Forall (fun pm => Forall P (results_of pm.2)) rest -> Forall spent rest ->
  let '(next_user, others, s, rest2) := gather calls rest in
  map fst s = calls /\ slots_ok P s /\ Forall P (omap block_result others) /\
  results (live rest) ⊆+ complete s ++ omap block_result others ++ results (live rest2) /\
  transcript (live rest) = map (pair User) (List.filter (fun b => negb (is_result b)) others) ++ transcript (live rest2) /\
  Forall spent (tail rest2) /\ Forall (fun pm => Forall P (results_of pm.2)) rest2 /\ length rest2 = length rest.
Proof.
  intros Hk Hs. unfold gather. set (s0 := map (fun c => (c, None)) calls : slots).
  assert (map fst s0 = calls) as Hs0 by (unfold s0; rewrite map_map; apply map_id).
  assert (slots_ok P s0 /\ filled s0 = []) as [Hok0 Hf0].
  { unfold s0. clear. induction calls as [|c cs [IH1 IH2]]; [by split; [constructor|]|]. split; [by constructor|done]. }
  clearbody s0.
  assert (let '(nu, others, s, rest1) := take_next rest s0 in
    map fst s = calls /\ slots_ok P s /\ Forall P (omap block_result others) /\
    results (live rest) ⊆+ filled s ++ omap block_result others ++ results (live rest1) /\
    transcript (live rest) = map (pair User) (List.filter (fun b => negb (is_result b)) others) ++ transcript (live rest1) /\
    Forall spent (tail rest1) /\ Forall (fun pm => Forall P (results_of pm.2)) rest1 /\ length rest1 = length rest) as Hnext.
  { assert (Forall spent (tail rest)) as Hst by (destruct Hs; [constructor|done]).
    unfold take_next. destruct rest as [|[p u] rest]; [by rewrite Hf0; split_and!|].
    destruct (role_of u) eqn:Er; try (by rewrite Hf0; split_and!).
    destruct (content_of u) as [tx|l] eqn:Ec; [by rewrite Hf0; split_and!|].
    inversion Hk as [|? ? Hu Hk']; subst. inversion Hs as [|? ? Hsp Hs']; subst. cbn [snd] in Hu.
    rewrite (results_of_blocks u l) in Hu by done. pose proof (collect_spec P l s0 Hu) as Hcol.
    destruct (collect l s0) as [[others found] s1]. destruct Hcol as (G1 & G2 & G3 & G4 & _ & G6). rewrite Hf0 in G3. cbn [app] in G3.
    rewrite !live_cons. cbn [app tail]. split_and!; [congruence|auto|done| | |done| |done].
    - rewrite app_assoc, G3. destruct p; cbn [app]; [by apply submseteq_inserts_l|].
      by rewrite results_cons, (results_of_blocks u l).
    - rewrite G4. destruct p; cbn [app].
      + unfold spent in Hsp. cbn [fst snd] in Hsp. rewrite (spoken_user l) in Hsp by done. by rewrite Hsp.
      + by rewrite transcript_cons, (spoken_user l).
    - constructor; [cbn [snd]; by rewrite (results_of_blocks u l)|done]. }
  destruct (take_next rest s0) as [[[nu others] s] rest1]. destruct Hnext as (N1 & N2 & N3 & N4 & N5 & N6 & N7 & N8).
  destruct (missing s).
  - pose proof (search_spec P rest1 s N7) as Hse. destruct (search rest1 s) as [rest2 s2]. destruct Hse as [M1 M2 M3 M4 M5 M6].
    split_and!; [congruence|auto|done| |by rewrite M4| |done|].
    + rewrite N4, (Permutation_app_swap_app (filled s)), <- M3, (Permutation_app_swap_app (complete s2)).
      apply submseteq_skips_l, submseteq_skips_r, complete_filled.
    + destruct M5 as [|? ? ? ? _ M5]; [constructor|]. cbn [tail] in *. clear - N6 M5.
      induction M5 as [|x y l l' Hxy _ IH]; [constructor|]. inversion N6; subst. constructor; auto.
    + by rewrite <- (Forall2_length M5).
  - split_and!; try done. rewrite N4. apply submseteq_skips_r, complete_filled.
Qed.

Lemma loop_spec P fuel rest : (length rest <= fuel)%nat ->
  Forall (fun pm => Forall P (results_of pm.2)) rest -> Forall spent (tail rest) ->
  let out := repair_loop fuel rest in
  settled P out /\ transcript out = transcript (live rest) /\ results (live rest) ⊆+ results out /\
  Forall (fun r => P r \/ exists c, r = placeholder c) (results out).
Proof.
  revert rest. induction fuel as [|fuel IH]; intros [|[p m] rest] Hl Hk Hs; try (cbn in Hl; lia); try (by split_and!).
  cbn [length tail] in Hl, Hs. inversion Hk as [|? ? Hm Hk']; subst. cbn [snd] in Hm.
  assert (Forall spent (tail rest)) as Hst by (destruct Hs; [constructor|done]).
  destruct p; [by apply IH; [lia|..]|]. rewrite live_cons. cbn [app].
  destruct (decide (calls_of m = [])) as [Hc|Hc].
  - cbn [repair_loop]. rewrite Hc. cbn [nonempty]. destruct (IH rest ltac:(lia) Hk' Hst) as (I1 & I2 & I3 & I4).
    rewrite !results_cons, !transcript_cons. split_and!; [by split|by rewrite I2|by apply submseteq_skips_l|].
    apply Forall_app. split; [|done]. eapply Forall_impl; [|exact Hm]. auto.
  - rewrite repair_loop_calls by done. pose proof (search_gather_spec P (calls_of m) rest Hk' Hs) as Hg.
    destruct (gather (calls_of m) rest) as [[[nu others] s] rest2]. destruct Hg as (G1 & G2 & G3 & G4 & G5 & G6 & G7 & G8).
    destruct (IH rest2 (Nat.le_trans _ _ _ (Nat.eq_le_incl _ _ G8) (le_S_n _ _ Hl)) G7 G6) as (I1 & I2 & I3 & I4).
    set (u := rebuilt User (map ResultBlock (complete s) ++ others) nu).
    assert (omap block_result (map ResultBlock (complete s) ++ others) = complete s ++ omap block_result others) as Hres.
    { rewrite omap_app. f_equal. clear. induction (complete s) as [|r l IH]; [done|]. cbn. by rewrite IH. }
    rewrite !results_cons, !transcript_cons. split_and!.
    + split; [|split; [intros Hu; unfold u in Hu; by rewrite rebuilt_calls in Hu|done]]. intros _.
      split_and!; [by destruct nu|by destruct nu|]. exists (complete s), others. split; [by destruct nu|].
      rewrite <- G1 at 1. by apply complete_answers.
    + f_equal. rewrite I2, G5. f_equal. unfold u. rewrite rebuilt_spoken. f_equal. rewrite List.filter_app.
      assert (List.filter (fun b => negb (is_result b)) (map ResultBlock (complete s)) = []) as ->; [|done].
      clear. by induction (complete s).
    + apply submseteq_skips_l. rewrite G4. unfold u. rewrite rebuilt_results, Hres, <- app_assoc.
      by apply submseteq_skips_l, submseteq_skips_l.
    + apply Forall_app. split; [eapply Forall_impl; [|exact Hm]; auto|]. apply Forall_app. split; [|done].
      unfold u. rewrite rebuilt_results, Hres. apply Forall_app. split; [|eapply Forall_impl; [|exact G3]; auto].
      clear - G2. induction G2 as [|[c [r|]] s Hr _ IHs]; cbn; constructor; try done; [left; apply Hr|right; by exists c].
Qed.

Lemma live_all (ms : list Message) : live (map (fun m => (false, m)) ms) = ms.
Proof. unfold live. induction ms as [|m ms IH]; [done|]. cbn. by rewrite IH. Qed.

Lemma repaired_spec ms : let out := repaired ms in
  settled (fun r => r ∈ results ms) out /\ transcript out = transcript ms /\ results ms ⊆+ results out /\
  Forall (fun r => r ∈ results ms \/ exists c, r = placeholder c) (results out).
Proof.
  assert (Forall spent (map (fun m : Message => (false, m)) ms)) as Hs by (apply Forall_map, Forall_true; done).
  pose proof (loop_spec (fun r => r ∈ results ms) (length ms) (map (fun m => (false, m)) ms)) as H. rewrite live_all in H.
  apply H; [by rewrite length_map| |by destruct ms; [|inversion Hs]].
  apply Forall_map. rewrite Forall_forall. intros m Hm. cbn [snd]. rewrite Forall_forall. intros r Hr.
  unfold results. apply list_elem_of_In, in_concat. exists (results_of m). split; [by apply in_map|exact Hr].
Qed.

(** ** The calls are those of the messages *)

Definition called (Q : ToolCall -> Prop) (rest : list pending) : Prop := Forall (fun pm => Forall Q (calls_of pm.2)) rest.

Lemma search_called Q rest (s : slots) : called Q rest -> called Q (fst (search rest s)).
Proof.
  intros Hq. revert s. induction Hq as [|[p m] rest Hm _ IH]; intros s; cbn [search]; [constructor|].
  assert (Forall Q (calls_of (fst (search_message (p, m) s)).2)) as H1.
  { unfold search_message. destruct p; [done|]. destruct (role_of m), (content_of m) as [|l]; try done.
    destruct (collect l s) as [[[|b remaining] []] s']; try done. }
  destruct (search_message (p, m) s) as [pm' s1]. specialize (IH s1). destruct (search rest s1). by constructor.
Qed.

Lemma gather_called Q calls rest : called Q rest -> called Q (snd (gather calls rest)).
Proof.
  intros Hq. unfold gather.
  assert (called Q (snd (take_next rest (map (fun c => (c, None)) calls)))) as H1.
  { unfold take_next. destruct rest as [|[p u] rest]; [done|]. destruct (role_of u), (content_of u) as [|l]; try done.
    destruct (collect l _) as [[others found] s]. inversion Hq; subst. by constructor. }
  destruct (take_next _ _) as [[[nu others] s] rest1]. cbn [snd] in H1. destruct (missing s); [|done].
  pose proof (search_called Q rest1 s H1). by destruct (search rest1 s).
Qed.

Lemma loop_called Q fuel rest : called Q rest -> Forall (fun m => Forall Q (calls_of m)) (repair_loop fuel rest).
Proof.
  revert rest. induction fuel as [|fuel IH]; intros [|[p m] rest] Hq; try (by constructor).
  inversion Hq as [|? ? Hm Hq']; subst. destruct p; [by apply IH|].
  destruct (decide (calls_of m = [])) as [Hc|Hc].
  - cbn [repair_loop]. rewrite Hc. constructor; [done|by apply IH].
  - rewrite repair_loop_calls by done. pose proof (gather_called Q (calls_of m) rest Hq') as Hg.
    destruct (gather (calls_of m) rest) as [[[nu others] s] rest2]. constructor; [done|]. constructor; [|by apply IH].
    by rewrite rebuilt_calls.
Qed.

(** ** A settled history is left alone *)

Definition full (s : slots) : Prop := Forall (fun co => snd co <> None) s.

Lemma place_full r (s : slots) : full s -> place r s = None.
Proof. induction 1 as [|[c [x|]] s Hx _ IH]; cbn [place]; [done|by rewrite IH|done]. Qed.
Lemma place_next r (pre : slots) c s : full pre -> same_tool_execution c r = true ->
  place r (pre ++ (c, None) :: s) = Some (pre ++ (c, Some r) :: s).
Proof.
  intros Hp Hr. induction Hp as [|[c' [x|]] pre Hx _ IH]; cbn [app place]; [by rewrite Hr|by rewrite IH|done].
Qed.
Lemma collect_full bs (s : slots) : full s -> collect bs s = (bs, false, s).
Proof.
  intros Hs. induction bs as [|b bs IH]; [done|]. cbn [collect]. rewrite IH. by destruct b; rewrite ?place_full by done.
Qed.

Lemma collect_answers P calls rs others (pre : slots) : full pre -> Forall2 (answers P) calls rs ->
  let s' := pre ++ combine calls (map Some rs) in
  (exists found, collect (map ResultBlock rs ++ others) (pre ++ map (fun c => (c, None)) calls) = (others, found, s')) /\ full s'.
Proof.
  intros Hp Ha. revert pre Hp. induction Ha as [|c r calls rs Hr _ IH]; intros pre Hp; cbn [map combine app].
  - rewrite !app_nil_r. split; [|done]. eexists. by apply collect_full.
  - cbn [collect]. rewrite place_next by (done || by eapply answers_same).
    destruct (IH (pre ++ [(c, Some r)])) as [[found E] Hf].
    { apply Forall_app. split; [done|by repeat constructor]. }
    rewrite <- !app_assoc in E, Hf. cbn [app] in E, Hf. rewrite E. split; [exists true; by rewrite <- app_assoc|exact Hf].
Qed.

Lemma complete_combine P calls (rs : list ToolResult) : Forall2 (answers P) calls rs ->
  complete (combine calls (map Some rs)) = rs /\ missing (combine calls (map Some rs)) = false.
Proof.
  induction 1 as [|c r calls rs _ _ [IH1 IH2]]; [done|]. split; [|exact IH2].
  change (r :: complete (combine calls (map Some rs)) = r :: rs). by rewrite IH1.
Qed.

Lemma rebuilt_same (u : Message) bs : role_of u = User -> usage u = None -> content_of u = Blocks bs -> rebuilt User bs (Some u) = u.
Proof. destruct u. cbn. by intros -> -> ->. Qed.

Lemma settled_repaired P fuel ms : settled P ms -> (length ms <= fuel)%nat -> repair_loop fuel (map (fun m => (false, m)) ms) = ms.
Proof.
  revert ms. induction fuel as [fuel IH] using lt_wf_ind. intros [|m ms] Hset Hl; [by destruct fuel|]. destruct Hset as [Hm Hs].
  destruct fuel as [|fuel]; [cbn in Hl; lia|]. cbn [length] in Hl. cbn [map].
  destruct (decide (calls_of m = [])) as [Hc|Hc].
  - cbn [repair_loop]. rewrite Hc. cbn [nonempty]. by rewrite (IH fuel) by (done || lia).
  - rewrite repair_loop_calls by done. specialize (Hm Hc). destruct ms as [|u ms]; [done|].
    destruct Hm as (Hr & Hu & rs & others & Hcont & Ha).
    destruct (collect_answers P (calls_of m) rs others [] ltac:(constructor) Ha) as [[found E] _]. cbn [app] in E.
    destruct (complete_combine P _ _ Ha) as [Hcomp Hmiss].
    unfold gather. cbn [map take_next]. rewrite Hr, Hcont, E, Hmiss, Hcomp, (rebuilt_same u) by done.
    f_equal. f_equal. destruct fuel as [|fuel]; [cbn in Hl; lia|]. cbn [repair_loop]. destruct Hs as [_ Hs]. apply IH; [lia|done|cbn in Hl; lia].
Qed.

(** ** Validity *)

Lemma settled_valid P ms : settled P ms ->
  (forall m c r, m ∈ ms -> c ∈ calls_of m -> answers P c r -> tool_use_id r = id c) -> is_valid_for_anthropic ms = true.
Proof.
  induction ms as [|m ms IH]; intros Hs Hid; [done|]. destruct Hs as [Hm Hs]. cbn [is_valid_for_anthropic].
  rewrite IH; [|done|intros m' c r Hm'; apply Hid; by right]. rewrite andb_true_r.
  destruct (nonempty (calls_of m)) eqn:En; [|done]. assert (calls_of m <> []) as Hc by (by destruct (calls_of m)). specialize (Hm Hc).
  destruct ms as [|u ms]; [done|]. destruct Hm as (-> & _ & rs & others & -> & Ha). apply forallb_forall. intros c Hin.
  apply list_elem_of_In in Hin. apply str_in_spec. assert (exists r, r ∈ rs /\ answers P c r) as (r & Hr & Hcr).
  { clear - Ha Hin. induction Ha as [|c' r' calls rs H _ IH]; [by apply not_elem_of_nil in Hin|].
    apply elem_of_cons in Hin as [->|Hin]; [exists r'; split; [left|done]|].
    destruct (IH Hin) as (r & Hr & Hc). exists r. split; [by right|done]. }
  rewrite <- (Hid m c r) by (done || left). apply list_elem_of_fmap. exists r. split; [done|].
  rewrite omap_app. apply elem_of_app. left. clear - Hr. induction rs as [|x rs IHr]; [done|]. cbn.
  apply elem_of_cons in Hr as [->|Hr]; [left|right; auto].
Qed.

(** ** Compaction *)

Lemma valid_drop n (ms : list Message) : is_valid_for_anthropic ms = true -> is_valid_for_anthropic (drop n ms) = true.
Proof.
  revert ms. induction n as [|n IH]; intros [|m ms] H; try done. cbn [is_valid_for_anthropic] in H. apply andb_true_iff in H as [_ H].
  by apply IH.
Qed.

Lemma valid_users (us ms : list Message) : Forall (fun m => calls_of m = []) us ->
  is_valid_for_anthropic (us ++ ms) = is_valid_for_anthropic ms.
Proof. induction 1 as [|u us Hu _ IH]; [done|]. cbn [app is_valid_for_anthropic]. rewrite Hu. exact IH. Qed.

Lemma protected_calls (m : Message) : is_protected m = true -> calls_of m = [].
Proof. unfold is_protected, calls_of. by destruct (role_of m). Qed.

Lemma snap_spec (l : list Message) : let k := snap (rev l) in
  (k <= length l)%nat /\ Forall (fun m => calls_of m <> []) (drop k l) /\
  forall j m, k = S j -> l !! j = Some m -> calls_of m = [].
Proof.
  induction l as [|x l (H1 & H2 & H3)] using rev_ind; [by split_and!|]. rewrite rev_app_distr. cbn [rev app snap].
  rewrite length_app. cbn [length]. destruct (nonempty (calls_of x)) eqn:En.
  - split_and!; [lia| |].
    + rewrite drop_app_le by done. apply Forall_app. split; [done|]. constructor; [by destruct (calls_of x)|constructor].
    + intros j m Hj. rewrite lookup_app_l by lia. by apply H3.
  - rewrite length_rev. split_and!; [lia| |].
    + rewrite drop_ge by (rewrite length_app; cbn; lia). constructor.
    + intros j m [= <-]. rewrite lookup_app_r, Nat.sub_diag by lia. intros [= <-]. by destruct (calls_of x).
Qed.

Lemma snap_split_spec (c : Conversation) idx : let k := snap_split_point c idx in
  let bound := Z.max 0 (Z.min idx (len (_history c))) in
  0 <= k <= bound /\
  (forall i m, k <= i < bound -> _history c !! Z.to_nat i = Some m -> calls_of m <> []) /\
  (forall m, 0 < k -> _history c !! Z.to_nat (k - 1) = Some m -> calls_of m = []).
Proof.
  cbv zeta. unfold snap_split_point, _snap_to_safe_boundary. set (b := Z.max 0 _).
  assert (0 <= b <= len (_history c)) as Hb by (pose proof (len_nonneg (_history c)); lia).
  destruct (snap_spec (take (Z.to_nat b) (_history c))) as (H1 & H2 & H3). set (k := snap _) in *.
  rewrite length_take in H1. split_and!; [lia|lia| |].
  - intros i m Hi Hm. rewrite Forall_lookup in H2. apply (H2 (Z.to_nat i - k)%nat). rewrite lookup_drop, lookup_take_lt by lia.
    rewrite <- Hm. f_equal. lia.
  - intros m Hk Hm. apply (H3 (Z.to_nat (Z.of_nat k - 1))); [lia|]. rewrite lookup_take_lt by lia. exact Hm.
Qed.

(** ** Properties *)

(** C13: [repaired] makes any history sendable without changing what was said:
    after every assistant message with tool calls comes a user message that
    begins with one answer to each call, in their order, a result of the history
    that belongs to the call or else the placeholder of an interrupted call; the
    sequence of everything but tool results is unchanged, roles included; no
    tool result is lost and none but placeholders is made up; and repairing once
    more changes nothing. *)
Theorem repaired_sound (ms : list Message) :
  settled (fun r => r ∈ results ms) (repaired ms) /\
  transcript (repaired ms) = transcript ms /\
  results ms ⊆+ results (repaired ms) /\
  Forall (fun r => r ∈ results ms \/ exists c, r = placeholder c) (results (repaired ms)) /\
  repaired (repaired ms) = repaired ms.
Proof.
  destruct (repaired_spec ms) as (H1 & H2 & H3 & H4). split_and!; try done.
  unfold repaired at 1. by eapply settled_repaired.
Qed.

(** C14: When the execution identifiers of calls and results do not contradict the
    identifiers of the provider, a repaired history passes the check the code has
    for the API: every tool call is followed by a result with its identifier. *)
Theorem repaired_valid (ms : list Message) :
  (forall m c r, m ∈ ms -> c ∈ calls_of m -> r ∈ results ms -> same_tool_execution c r = true -> tool_use_id r = id c) ->
  is_valid_for_anthropic (repaired ms) = true.
Proof.
  intros Hid. destruct (repaired_spec ms) as (Hs & _). eapply settled_valid; [exact Hs|].
  assert (Forall (fun m => Forall (fun c => exists m, m ∈ ms /\ c ∈ calls_of m) (calls_of m)) (repaired ms)) as Hc.
  { apply loop_called. apply Forall_map. rewrite Forall_forall. intros m Hm. cbn [snd]. rewrite Forall_forall. intros c Hc.
    exists m. by split; apply list_elem_of_In. }
  intros m c r Hm Hin [->|[Hr Hsame]]; [done|]. rewrite Forall_forall in Hc. apply list_elem_of_In in Hm. specialize (Hc m Hm).
  rewrite Forall_forall in Hc. apply list_elem_of_In in Hin. destruct (Hc c Hin) as (m' & Hm' & Hc'). by apply (Hid m' c r).
Qed.

(** C15: Compaction never breaks a valid history: at the split point the code
    snaps to, for any wanted index, the full history is kept, the view sent to
    the provider is the protected messages before the point, the summary and the
    messages from the point on, and it is valid; the message before the point
    has no tool calls, so no result is cut from its call; and the point is moved
    back only past messages with calls, and by the threshold of a compaction
    never below the least prefix. *)
Theorem compaction_safe (c : Conversation) idx text :
  is_valid_for_anthropic (_history c) = true ->
  let k := snap_split_point c idx in
  let bound := Z.max 0 (Z.min idx (len (_history c))) in
  let c' := apply_compaction text k c in
  _history c' = _history c /\ is_valid_for_anthropic (effective_history c') = true /\ 0 <= k <= bound /\
  (0 < k -> effective_history c' = List.filter is_protected (slice_to (_history c) k) ++ [text_message User text]
                                   ++ slice_from (_history c) k) /\
  (forall m, 0 < k -> _history c !! Z.to_nat (k - 1) = Some m -> calls_of m = []) /\
  (forall i m, k <= i < bound -> _history c !! Z.to_nat i = Some m -> calls_of m <> []) /\
  (forall keep_recent min_prefix p, 0 <= keep_recent -> compaction_split_point c keep_recent min_prefix = Some p ->
     p = snap_split_point c (len (_history c) - keep_recent) /\ min_prefix <= p).
Proof.
  intros Hv k bound c'. destruct (snap_split_spec c idx) as (Hk & Hskip & Hprev). fold k bound in Hk, Hskip, Hprev.
  assert (0 <= k <= len (_history c)) as Hkl by (pose proof (len_nonneg (_history c)); lia).
  assert (0 < k -> effective_history c' = List.filter is_protected (slice_to (_history c) k) ++ [text_message User text]
    ++ slice_from (_history c) k) as Heff.
  { intros H0. unfold effective_history, c', apply_compaction. cbn [summary compacted_through _history].
    rewrite (Z.min_l k), (Z.max_r 0 k), Z.min_l by lia. destruct (Z.ltb_spec 0 k); [|lia].
    destruct (_history c) eqn:Eh; [change (len (@nil Message)) with 0 in Hkl; lia|]. done. }
  split_and!; try done.
  - destruct (Z.ltb_spec 0 k) as [H0|H0].
    + rewrite Heff by done. rewrite valid_users.
      * cbn [app is_valid_for_anthropic]. change (calls_of (text_message User text)) with (@nil ToolCall). cbn [nonempty andb].
        rewrite slice_from_pos by lia. by apply valid_drop.
      * rewrite Forall_forall. intros m Hm. apply filter_In in Hm as [_ Hm]. by apply protected_calls.
    + assert (k = 0) as E by lia. unfold effective_history, c', apply_compaction. cbn [summary compacted_through _history].
      rewrite E. by rewrite Z.min_l, Z.max_r by (try lia; apply len_nonneg).
  - lia.
  - lia.
  - intros keep min p Hkeep Hp. unfold compaction_split_point in Hp. destruct (_ <=? min); [done|].
    assert (_snap_to_safe_boundary c (Z.max 0 (len (_history c) - keep)) = snap_split_point c (len (_history c) - keep)) as E.
    { unfold snap_split_point. f_equal. lia. }
    rewrite E in Hp. destruct (Z.ltb_spec (snap_split_point c (len (_history c) - keep)) min); [done|]. injection Hp as <-. by split.
Qed.
End Facts.

(** ** Samples: a call answered late, a call never answered *)

Definition call (n : string) : ToolCall := mkCall (lit n) (lit "read_file") VNone (Some (lit n)) (lit "json").
Definition answer (n : string) : ToolResult Z := mkResult (lit n) (ResultText (lit "ok")) (lit "read_file") false (Some (lit n)) (lit "json") None.
Definition says (r : role) (bs : list (block Z)) : Message Z := mkMessage r (Blocks bs) None [] [] None.
Definition late : list (Message Z) :=
  [says User [TextBlock (lit "go")]; says Assistant [CallBlock (call "a"); CallBlock (call "b")]; says User [TextBlock (lit "wait")];
   says Assistant [TextBlock (lit "waiting")]; says User [ResultBlock (answer "a"); TextBlock (lit "there")]].

Lemma repaired_valid_witness : is_valid_for_anthropic late = false /\ is_valid_for_anthropic (repaired late) = true.
Proof.
  split; [by vm_compute|]. apply (repaired_valid late). intros m c r Hm Hc Hr Hs.
  assert (r = answer "a") as -> by (by apply list_elem_of_singleton in Hr).
  unfold late in Hm. repeat (apply elem_of_cons in Hm as [->|Hm]); try (by apply not_elem_of_nil in Hm); cbn in Hc;
    try (by apply not_elem_of_nil in Hc).
  apply elem_of_cons in Hc as [->|Hc]; [done|]. apply list_elem_of_singleton in Hc as ->. discriminate Hs.
Defined.

Definition long : Conversation Z :=
  init [says User [TextBlock (lit "go")]; says Assistant [CallBlock (call "a")]; says User [ResultBlock (answer "a")];
        says Assistant [TextBlock (lit "done")]] 1000.

Lemma compaction_safe_witness :
  let k := snap_split_point long 2 in
  k = 1 /\ is_valid_for_anthropic (effective_history (apply_compaction (lit "summary") k long)) = true.
Proof.
  intros k. split; [by vm_compute|].
  destruct (compaction_safe long 2 (lit "summary")) as (_ & H & _); [by vm_compute|]. exact H.
Defined.

(** A displaced result can be sent twice: the message that held it, taken over by
    the call it answers, is taken again as the message that follows a later call. *)
Theorem repaired_duplicates_result :
  results (repaired [says Assistant [CallBlock (call "a")]; says Assistant [CallBlock (call "b")];
                     says User [ResultBlock (answer "a")]; says User [ResultBlock (answer "b")]])
  = [answer "a"; answer "b"; answer "a"].
Proof. by vm_compute. Qed.
