(* ===== verification/InboxFacts.v ===== *)
(** * Addressing and socket names: what a recipient and a file name mean *)

From stdpp Require Import base gmap list strings numbers sorting.
From Stdlib Require Import ZArith Lia.
From S2P Require Import Prelude PyStr Utf8 PyVal Json JsonFacts Framing Inbox.

(** ** The ladder *)

Section Ladder.
Variable casefold : str -> str.

Definition rung (k : nat) : str -> str * str -> bool :=
  match k with
  | O => named casefold
  | 1%nat => name_starts casefold
  | 2%nat => identified
  | _ => id_starts
  end.

(** No entry answers to [cleaned] on a rung below [k]. *)
Definition none_below (k : nat) (cleaned : str) (entries : list (str * str)) : Prop :=
  forall j e, (j < k)%nat -> e ∈ entries -> rung j cleaned e = false.

Lemma filter_nil_none {A} (f : A -> bool) (l : list A) : List.filter f l = [] -> forall e, e ∈ l -> f e = false.
Proof.
  intros H e He. destruct (f e) eqn:E; [|done]. exfalso.
  assert (In e (List.filter f l)) as Hi by (apply filter_In; split; [by apply list_elem_of_In|done]). by rewrite H in Hi.
Qed.

Lemma filter_single {A} (f : A -> bool) (l : list A) e :
  List.filter f l = [e] -> e ∈ l /\ f e = true /\ forall e', e' ∈ l -> f e' = true -> e' = e.
Proof.
  intros H. assert (In e (List.filter f l)) as Hi by (rewrite H; by left). apply filter_In in Hi as [Hi Hf].
  split_and!; [by apply list_elem_of_In|done|]. intros e' He' Hf'.
  assert (In e' (List.filter f l)) as Hi' by (apply filter_In; split; [by apply list_elem_of_In|done]).
  rewrite H in Hi'. by destruct Hi' as [->|[]].
Qed.

Lemma find_none_all {A} (f : A -> bool) (l : list A) : List.find f l = None -> forall e, e ∈ l -> f e = false.
Proof. intros H e He. apply (List.find_none f l H). by apply list_elem_of_In. Qed.

Lemma none_below_S k cleaned entries :
  none_below k cleaned entries -> (forall e, e ∈ entries -> rung k cleaned e = false) -> none_below (S k) cleaned entries.
Proof. intros H1 H2 j e Hj He. destruct (decide (j = k)) as [->|]; [auto|]. apply H1; [lia|done]. Qed.

(** What an answer of the ladder means. *)
Definition answers (entries : list (str * str)) (query : str) (r : result peer_error (str * str)) : Prop :=
  let cleaned := strip query in
  match r with
  | Ok e =>
      exists k, (k < 4)%nat /\ none_below k cleaned entries /\ e ∈ entries /\ rung k cleaned e = true /\
                forall e', e' ∈ entries -> rung k cleaned e' = true -> e' = e
  | Raise NoRecipient => cleaned = []
  | Raise (SameName c l) => c = cleaned /\ l = List.filter (rung 0 cleaned) entries /\ (2 <= length l)%nat
  | Raise (ManyMatches c l) =>
      exists k, k <> 0%nat /\ none_below k cleaned entries /\ c = cleaned /\ l = List.filter (rung k cleaned) entries /\
                (2 <= length l)%nat
  | Raise (NoMatch q) => q = query /\ none_below 4 cleaned entries
  | Raise _ => False
  end.

Lemma ladder_answers entries query : NoDup (map snd entries) -> answers entries query (_resolve_addressing casefold entries query).
Proof.
  intros Hd. unfold _resolve_addressing, _normalize_query. destruct (nonempty (strip query)) eqn:Hq; [|by cbn; destruct (strip query)].
  cbn [mbind result_bind]. set (c := strip query).
  assert (none_below 0 c entries) as H0 by (intros j e Hj; lia).
  destruct (List.filter (named casefold c) entries) as [|e [|e2 l]] eqn:E0.
  2: { apply filter_single in E0 as (? & ? & ?). exists 0%nat. by split_and!; [lia|..]. }
  2: { cbn. split_and!; [done|by rewrite <- E0|simpl; lia]. }
  apply (none_below_S 0) in H0; [|by apply filter_nil_none].
  destruct (List.filter (name_starts casefold c) entries) as [|e [|e2 l]] eqn:E1.
  2: { apply filter_single in E1 as (? & ? & ?). exists 1%nat. by split_and!; [lia|..]. }
  2: { exists 1%nat. split_and!; [done|done|done|by rewrite <- E1|simpl; lia]. }
  apply (none_below_S 1) in H0; [|by apply filter_nil_none].
  destruct (List.find (identified c) entries) as [e|] eqn:E2.
  { apply List.find_some in E2 as [He Hi]. exists 2%nat. split_and!; [lia|done|by apply list_elem_of_In|done|].
    intros e' He' Hi'. unfold identified in *. cbn in Hi'. apply str_eqb_eq in Hi, Hi'.
    apply list_elem_of_lookup in He' as (i & Hi1). apply list_elem_of_In, list_elem_of_lookup in He as (i2 & Hi2).
    assert (i = i2) as ->; [|congruence]. apply (NoDup_lookup (snd <$> entries) i i2 c); [done|..];
      rewrite list_lookup_fmap, ?Hi1, ?Hi2; cbn; by f_equal. }
  apply (none_below_S 2) in H0; [|by apply find_none_all].
  destruct (List.filter (id_starts c) entries) as [|e [|e2 l]] eqn:E3.
  - apply (none_below_S 3) in H0; [|by apply filter_nil_none]. done.
  - apply filter_single in E3 as (? & ? & ?). exists 3%nat. by split_and!; [lia|..].
  - exists 3%nat. split_and!; [done|done|done|by rewrite <- E3|simpl; lia].
Qed.
End Ladder.

(** ** Addressing a registration *)

Lemma NoDup_map_filter {A B} (f : A -> B) (p : A -> bool) (l : list A) : NoDup (map f l) -> NoDup (map f (List.filter p l)).
Proof.
  induction l as [|x l IH]; intros H; [done|]. cbn in *. apply list.NoDup_cons in H as [Hx Hl]. destruct (p x); [|auto].
  cbn. apply list.NoDup_cons. split; [|auto]. intros Hin. apply Hx. apply list_elem_of_fmap in Hin as (y & -> & Hy).
  apply list_elem_of_fmap_2. apply list_elem_of_In, filter_In in Hy as [Hy _]. by apply list_elem_of_In.
Qed.

Section Resolution.
Context {W : Type}.
Variable casefold : str -> str.

(** What the ladder is given: the title at this moment and the id of every
    session but the excluded one. *)
Definition addressable (w : W) (r : registry W) (exclude : option str) : list (str * str) :=
  map (fun kv => (kv.2.(describe_title) w, kv.1)) (List.filter (fun kv => included exclude kv.1) r).

Lemma addressable_spec w r exclude t sid :
  (t, sid) ∈ addressable w r exclude <->
  exists reg, (sid, reg) ∈ r /\ included exclude sid = true /\ t = reg.(describe_title) w.
Proof.
  unfold addressable. rewrite list_elem_of_fmap. split.
  - intros ([sid' reg] & [= -> ->] & Hi). apply list_elem_of_In, filter_In in Hi as [Hi He]. exists reg.
    by rewrite list_elem_of_In.
  - intros (reg & Hi & He & ->). exists (sid, reg). split; [done|]. apply list_elem_of_In, filter_In. by rewrite <- list_elem_of_In.
Qed.

Lemma addressable_distinct w r exclude : NoDup (map fst r) -> NoDup (map snd (addressable w r exclude)).
Proof. intros H. unfold addressable. rewrite map_map. cbn. by apply NoDup_map_filter. Qed.

(** A recipient is resolved on the first rung of the ladder (exact name,
    name prefix, id, id prefix) on which any visible session answers, and only
    when it is the one that answers there; the excluded session never is.  An
    ambiguity names every session of that rung, and a query fails only when no
    session answers on any rung. *)
Theorem recipient_resolution w (r : registry W) query exclude :
  NoDup (map fst r) ->
  match resolve_recipient casefold w r query exclude with
  | Ok reg =>
      exists sid, (sid, reg) ∈ r /\ exclude <> Some sid /\
        answers casefold (addressable w r exclude) query (Ok (reg.(describe_title) w, sid))
  | Raise e => answers casefold (addressable w r exclude) query (Raise e)
  end.
Proof.
  intros Hd. unfold resolve_recipient. fold (addressable w r exclude).
  pose proof (ladder_answers casefold _ query (addressable_distinct w r exclude Hd)) as Ha.
  destruct (_resolve_addressing casefold (addressable w r exclude) query) as [[t sid]|e]; [|done]. cbn [mbind result_bind].
  pose proof Ha as (k & _ & _ & Hin & _). apply addressable_spec in Hin as (reg & Hreg & Hinc & ->).
  rewrite (dict_get_In r sid reg) by done. exists sid. split_and!; [done| |done].
  intros ->. cbn in Hinc. by rewrite str_eqb_refl in Hinc.
Qed.
End Resolution.

(** ** Socket names *)

Lemma b64_value_char n : 0 <= n < 64 -> b64_value (b64_char n) = Some n.
Proof.
  intros Hn. assert (forallb (fun k => bool_decide (b64_value (b64_char (Z.of_nat k)) = Some (Z.of_nat k))) (seq 0 64) = true) as H by (by vm_compute).
  rewrite forallb_forall in H. specialize (H (Z.to_nat n)). rewrite Z2Nat.id in H by lia. eapply bool_decide_eq_true_1, H, in_seq. lia.
Qed.

Lemma b64_char_id n : 0 <= n < 64 -> b64_id_char (b64_char n) = true.
Proof. intros Hn. unfold b64_char, b64_id_char, ascii_digit. repeat case_match; lia. Qed.

Lemma b64_char_no_pad n : 0 <= n < 64 -> b64_char n <> 61.
Proof. intros Hn E. pose proof (b64_value_char n Hn) as H. rewrite E in H. discriminate. Qed.

Lemma b64_loop_char q c p n s :
  0 <= n < 64 ->
  b64_loop q c p (b64_char n :: s) =
    if q =? 0 then b64_loop 1 n 0 s
    else if q =? 1 then cons (c * 4 + n / 16) <$> b64_loop 2 (n mod 16) 0 s
    else if q =? 2 then cons (c * 16 + n / 4) <$> b64_loop 3 (n mod 4) 0 s
    else cons (c * 64 + n) <$> b64_loop 0 0 0 s.
Proof.
  intros Hn. cbn [b64_loop]. pose proof (b64_char_no_pad n Hn). destruct (Z.eqb_spec (b64_char n) 61); [done|].
  by rewrite b64_value_char.
Qed.

Definition byte (x : Z) : Prop := 0 <= x < 256.

Lemma b64_triple x y z c p s :
  byte x -> byte y -> byte z ->
  b64_loop 0 c p (b64_char (x / 4) :: b64_char (x mod 4 * 16 + y / 16) :: b64_char (y mod 16 * 4 + z / 64) :: b64_char (z mod 64) :: s)
  = (fun r => x :: y :: z :: r) <$> b64_loop 0 0 0 s.
Proof.
  unfold byte. intros Hx Hy Hz. do 4 (rewrite b64_loop_char by (Z.div_mod_to_equations; lia); cbn [Z.eqb Pos.eqb]).
  replace (x / 4 * 4 + (x mod 4 * 16 + y / 16) / 16) with x by (Z.div_mod_to_equations; lia).
  replace ((x mod 4 * 16 + y / 16) mod 16 * 16 + (y mod 16 * 4 + z / 64) / 4) with y by (Z.div_mod_to_equations; lia).
  replace ((y mod 16 * 4 + z / 64) mod 4 * 64 + z mod 64) with z by (Z.div_mod_to_equations; lia).
  by destruct (b64_loop 0 0 0 s).
Qed.

Lemma b64_last x c p : byte x -> b64_loop 0 c p [b64_char (x / 4); b64_char (x mod 4 * 16); 61; 61] = Some [x].
Proof.
  unfold byte. intros Hx. do 2 (rewrite b64_loop_char by (Z.div_mod_to_equations; lia); cbn [Z.eqb Pos.eqb]).
  replace (x / 4 * 4 + x mod 4 * 16 / 16) with x by (Z.div_mod_to_equations; lia). done.
Qed.

(** An id of [3 k + 1] bytes: two characters after the groups, and the padding
    that is cut off and put back. *)
Lemma b64_id k : forall b, length b = (3 * k + 1)%nat -> Forall byte b ->
  exists p c, urlsafe_b64encode b = (p ++ [c]) ++ [61; 61] /\ c <> 61 /\ length p = (4 * k + 1)%nat /\
    Forall (fun x => b64_id_char x = true) (p ++ [c]) /\ b64_loop 0 0 0 (urlsafe_b64encode b) = Some b.
Proof.
  induction k as [|k IH]; intros b Hl Hb.
  - destruct b as [|x [|]]; try (simpl in Hl; lia). apply Forall_cons in Hb as [Hx _]. pose proof Hx as Hx'. unfold byte in Hx'.
    exists [b64_char (x / 4)], (b64_char (x mod 4 * 16)). split_and!; [done|apply b64_char_no_pad; Z.div_mod_to_equations; lia|done| |].
    + repeat constructor; apply b64_char_id; Z.div_mod_to_equations; lia.
    + by apply b64_last.
  - destruct b as [|x [|y [|z b]]]; try (simpl in Hl; lia).
    apply Forall_cons in Hb as [Hx Hb]. apply Forall_cons in Hb as [Hy Hb]. apply Forall_cons in Hb as [Hz Hb].
    destruct (IH b) as (p & c & He & Hc & Hp & Hi & Hd); [simpl in Hl; lia|done|].
    assert (urlsafe_b64encode (x :: y :: z :: b) =
      [b64_char (x / 4); b64_char (x mod 4 * 16 + y / 16); b64_char (y mod 16 * 4 + z / 64); b64_char (z mod 64)]
        ++ urlsafe_b64encode b) as -> by (by destruct b).
    eexists (_ :: _ :: _ :: _ :: p), c. split_and!.
    + rewrite He. reflexivity.
    + done.
    + simpl. lia.
    + unfold byte in *. repeat (apply Forall_cons; split; [apply b64_char_id; Z.div_mod_to_equations; lia|]). done.
    + cbn [app]. rewrite b64_triple by done. by rewrite Hd.
Qed.

Lemma lower_hex_spec c : lower_hex c = true ->
  exists v, hex_value c = Some v /\ 0 <= v < 16 /\ hex_digit v = c /\ ascii_space c = false.
Proof.
  intros H. unfold lower_hex in H. unfold hex_value, hex_digit, ascii_space.
  destruct (decide (48 <= c <= 57)).
  - exists (c - 48). split_and!; zbool; try (f_equal; lia).
  - exists (c - 87). split_and!; zbool; try (f_equal; lia).
Qed.

Lemma fromhex_hex k : forall s, length s = (2 * k)%nat -> forallb lower_hex s = true ->
  exists b, fromhex s = Some b /\ hex b = s /\ length b = k /\ Forall byte b.
Proof.
  induction k as [|k IH]; intros s Hl Hs.
  - destruct s; [|simpl in Hl; lia]. by exists [].
  - destruct s as [|c [|d s]]; try (simpl in Hl; lia). cbn in Hs. apply andb_true_iff in Hs as [Hc Hs].
    apply andb_true_iff in Hs as [Hd Hs]. destruct (IH s) as (b & Hb & Hh & Hn & Hr); [simpl in Hl; lia|done|].
    destruct (lower_hex_spec c Hc) as (v & Hv & Hv16 & Hvc & Hsp), (lower_hex_spec d Hd) as (w & Hw & Hw16 & Hwd & _).
    exists (v * 16 + w :: b). cbn [fromhex]. rewrite Hsp, Hv, Hw, Hb. split_and!; [done| |by cbn; rewrite Hn|].
    + unfold hex in *. cbn [map concat]. rewrite Hh. replace ((v * 16 + w) / 16) with v by (Z.div_mod_to_equations; lia).
      replace ((v * 16 + w) mod 16) with w by (Z.div_mod_to_equations; lia). by rewrite Hvc, Hwd.
    + constructor; [unfold byte; lia|done].
Qed.

Lemma socket_pid_dec pid : 0 <= pid -> socket_pid ([46] ++ dec pid ++ lit ".sock") = Some pid.
Proof.
  intros Hp. rewrite dec_nonneg by done. cbn [app socket_pid].
  assert (Forall (fun c => is_digit c = true) (dec_nat pid)) as Hd.
  { eapply Forall_impl; [by apply dec_nat_digits|]. intros c. apply ascii_digit_is_digit. }
  destruct (take_while_app is_digit (dec_nat pid) (lit ".sock") Hd) as [-> ->]; [by intros y r [= <- _]|].
  pose proof (dec_nat_nonempty pid). destruct (nonempty (dec_nat pid)) eqn:E; [|by destruct (dec_nat pid)].
  rewrite str_eqb_refl. cbn [andb orb]. by rewrite dec_nat_value.
Qed.

Lemma slice_app {A} (a b : list A) n : n = len a -> slice_to (a ++ b) n = a /\ slice_from (a ++ b) n = b.
Proof.
  intros ->. pose proof (len_nonneg a). rewrite slice_to_pos, slice_from_pos by done. unfold len. rewrite Nat2Z.id.
  by rewrite take_app_length, drop_app_length.
Qed.

Lemma rstrip_pads p c : c <> 61 -> rstrip_by (fun c => c =? 61) ((p ++ [c]) ++ [61; 61]) = p ++ [c].
Proof.
  intros Hc. unfold rstrip_by. rewrite rev_app_distr. cbn [rev app drop_while]. rewrite !Z.eqb_refl.
  rewrite rev_app_distr. cbn [rev app drop_while]. destruct (Z.eqb_spec c 61); [done|]. cbn [rev]. by rewrite rev_involutive.
Qed.

Lemma socket_sid_roundtrip sid : len sid = 32 -> forallb lower_hex sid = true ->
  exists s, _encode_socket_sid sid = Some s /\ _decode_socket_sid s = Some sid /\ len s = 22 /\
    forallb b64_id_char s = true.
Proof.
  intros Hl Hs. destruct (fromhex_hex 16 sid) as (b & Hb & Hh & Hn & Hr); [unfold len in Hl; lia|done|].
  destruct (b64_id 5 b) as (p & c & He & Hc & Hp & Hi & Hd); [lia|done|]. exists (p ++ [c]).
  assert (len (p ++ [c]) = 22) as Hlen by (unfold len; rewrite length_app; simpl; lia).
  unfold _encode_socket_sid, _decode_socket_sid, legacy_sid. rewrite Hb. cbn [mbind option_bind].
  rewrite He, rstrip_pads by done. rewrite Hlen. cbn [Z.eqb Pos.eqb andb]. unfold urlsafe_b64decode. rewrite <- He, Hd.
  cbn. rewrite Hh. split_and!; [done..|]. apply forallb_forall. intros x Hx. rewrite Forall_forall in Hi. apply Hi. by apply list_elem_of_In.
Qed.

(** The socket file of a session is found again from its name alone: its
    name reads back as the session id and the process id, so sessions have
    different names.  Sweeping a directory keeps that file exactly as long as
    the process lives (or the file cannot be removed), and removes no file whose
    name is not a socket name. *)
Theorem socket_name_roundtrip sid pid kill0 unlink_ok entries :
  len sid = 32 -> forallb lower_hex sid = true -> 0 <= pid ->
  exists name, socket_path_for sid pid = Some name /\ parse_socket_name name = Some (sid, pid) /\
    (forall sid' pid', socket_path_for sid' pid' = Some name -> len sid' = 32 -> forallb lower_hex sid' = true -> 0 <= pid' ->
       sid' = sid /\ pid' = pid) /\
    let '(kept, removed) := sweep_stale_sockets kill0 unlink_ok entries in
    kept ++ removed ≡ₚ entries /\
    (name ∈ entries -> name ∈ kept <-> is_pid_alive kill0 pid = true \/ unlink_ok name = false) /\
    (forall x, x ∈ entries -> parse_socket_name x = None -> x ∈ kept).
Proof.
  intros Hl Hs Hp.
  assert (forall sid pid, len sid = 32 -> forallb lower_hex sid = true -> 0 <= pid ->
    exists name, socket_path_for sid pid = Some name /\ parse_socket_name name = Some (sid, pid)) as Hrt.
  { clear. intros sid pid Hl Hs Hp. destruct (socket_sid_roundtrip sid Hl Hs) as (s & He & Hd & Hn & Hc).
    unfold socket_path_for. rewrite He. cbn [mbind option_bind]. eexists. split; [done|].
    unfold parse_socket_name, _SOCKET_NAME_RE.
    destruct (slice_app s ([46] ++ dec pid ++ lit ".sock") 22) as [-> ->]; [done|]. rewrite Hc, socket_pid_dec by done.
    destruct (Z.leb_spec 22 (len (s ++ [46] ++ dec pid ++ lit ".sock"))) as [|H]; [|rewrite len_app, Hn in H; len_lia].
    cbn. by rewrite Hd. }
  destruct (Hrt sid pid) as (name & Hname & Hparse); [done..|]. exists name. split_and!; [done|done| |].
  - intros sid' pid' H1 H2 H3 H4. destruct (Hrt sid' pid') as (name' & Hn' & Hp'); [done..|].
    rewrite H1 in Hn'. injection Hn' as <-. rewrite Hparse in Hp'. by injection Hp' as -> ->.
  - unfold sweep_stale_sockets. split_and!.
    + induction entries as [|x entries IH]; [done|]. cbn. destruct (stale kill0 x && unlink_ok x); cbn;
        [rewrite <- Permutation_middle|]; by apply Permutation_cons.
    + intros Hin. rewrite (list_elem_of_In (List.filter _ _) name), filter_In, <- list_elem_of_In. unfold stale. rewrite Hparse.
      destruct (is_pid_alive kill0 pid), (unlink_ok name); cbn; intuition congruence.
    + intros x Hx Hnone. rewrite list_elem_of_In, filter_In, <- list_elem_of_In. unfold stale. by rewrite Hnone.
Qed.

Lemma socket_name_roundtrip_witness :
  exists name, socket_path_for (lit "00ff10a2b3c4d5e6f708192a3b4c5d6e") 4242 = Some name /\ len name = 32 /\
    parse_socket_name name = Some (lit "00ff10a2b3c4d5e6f708192a3b4c5d6e", 4242) /\
    snd (sweep_stale_sockets (fun _ => NoProcess) (fun _ => true) [name; lit "notes.sock"]) = [name].
Proof.
  destruct (socket_name_roundtrip (lit "00ff10a2b3c4d5e6f708192a3b4c5d6e") 4242 (fun _ => NoProcess) (fun _ => true) [])
    as (name & H1 & H2 & _); [by vm_compute|by vm_compute|lia|].
  exists name. split; [done|]. split; [|split; [done|]]; vm_compute in H1; injection H1 as <-; by vm_compute.
Defined.

(** ** Instances *)

Definition named_session (name : str) : InboxRegistration unit :=
  {| session_id := []; describe_title := fun _ => name; describe_project_path := fun _ => [];
     describe_status := fun _ => []; deliver_message := fun w _ => (w, ACCEPTED) |}.
Definition sample_registry : registry unit :=
  [(lit "a1", named_session (lit "Build")); (lit "a2", named_session (lit "Builder")); (lit "b3", named_session (lit "docs"))].

Lemma recipient_resolution_witness :
  NoDup (map fst sample_registry) /\
  (exists reg, resolve_recipient (fun s => s) tt sample_registry (lit " Build ") None = Ok reg /\ reg.(describe_title) tt = lit "Build") /\
  resolve_recipient (fun s => s) tt sample_registry (lit "Bui") None =
    Raise (ManyMatches (lit "Bui") [(lit "Build", lit "a1"); (lit "Builder", lit "a2")]) /\
  answers (fun s => s) (addressable tt sample_registry (Some (lit "b3"))) (lit "b3") (Raise (NoMatch (lit "b3"))).
Proof.
  assert (NoDup (map fst sample_registry)) as Hd by (apply (bool_decide_unpack _); by vm_compute).
  split_and!; [done|eexists; split; by vm_compute|by vm_compute|].
  exact (recipient_resolution (fun s => s) tt sample_registry (lit "b3") (Some (lit "b3")) Hd).
Defined.
