(* ===== verification/InboxDelivery.v ===== *)
(** * Delivery between processes agrees with delivery inside one *)

From stdpp Require Import base gmap list strings numbers sorting.
From Stdlib Require Import ZArith Lia.
From S2P Require Import Prelude PyStr Utf8 PyVal Json JsonFacts Framing FramingFacts Inbox InboxFacts.

(** ** One line of JSON *)

Section Wire.
Variable float_repr : Z -> Z -> str.
Variable parse_float : str -> value.

Abbreviation compact := (dumps float_repr false [44] [58]).

Lemma compact_no_newline v : plain v -> Forall (fun c => c <> NL) (compact v).
Proof.
  apply dumps_chars; unfold NL; [intros; lia| |by repeat constructor|by repeat constructor].
  intros c Hc. unfold json_char. repeat (case_match; [repeat constructor; lia|]).
  destruct (Z.ltb_spec c 32); [|cbn; repeat constructor; lia].
  unfold u_escape, hex4, hex_digit. cbn [app]. assert (0 <= c) by (unfold scalar in Hc; lia).
  repeat constructor; try lia; repeat case_match; Z.to_euclidean_division_equations; lia.
Qed.

Lemma utf8_no_newline s : scalars s -> Forall (fun c => c <> NL) s -> Forall (fun b => b <> NL) (utf8 s).
Proof.
  unfold NL. induction 1 as [|c s Hc _ IH]; intros Hs; [constructor|]. apply Forall_cons in Hs as [Hn Hs].
  rewrite utf8_cons. apply Forall_app. split; [|auto]. assert (0 <= c) by (unfold scalar in Hc; lia).
  unfold utf8_char. repeat case_match; repeat constructor; try lia; Z.to_euclidean_division_equations; lia.
Qed.

Lemma up_to_newline_line l r : Forall (fun b => b <> NL) l -> up_to_newline (l ++ NL :: r) = (l ++ [NL], true).
Proof.
  induction 1 as [|c l Hc _ IH]; [done|]. cbn [app up_to_newline]. rewrite IH. by destruct (Z.eqb_spec c NL).
Qed.

(** A line that [encode_envelope] wrote is read by [readline]. *)
Lemma encode_line overrun encode_text d data :
  plain (VDict d) -> encode_envelope float_repr encode_text d = Ok data ->
  data = utf8 (compact (VDict d)) ++ [NL] /\ len (utf8 (compact (VDict d))) <= ENVELOPE_MAX_BYTES /\
  readline overrun data = Ok data.
Proof.
  intros Hp. assert (scalars (compact (VDict d))) as Hs by by apply dumps_scalars.
  pose proof (utf8_no_newline _ Hs (compact_no_newline _ Hp)) as Hn. unfold encode_envelope.
  remember (compact (VDict d)) as s eqn:E. clear E Hp.
  assert (forallb scalar s = true) as ->.
  { apply forallb_forall. intros c Hc. rewrite Forall_forall in Hs. apply Hs. by apply list_elem_of_In. }
  cbn [negb]. destruct (Z.ltb_spec ENVELOPE_MAX_BYTES (len (utf8 s))); [done|]. intros [= <-].
  split_and!; [done|done|]. unfold readline. rewrite (up_to_newline_line (utf8 s) []) by done.
  rewrite len_app. change (len [NL]) with 1. cbn [Z.b2z].
  destruct (Z.ltb_spec _STREAM_LIMIT_BYTES (len (utf8 s) + 1 - 1)); [|done]. unfold _STREAM_LIMIT_BYTES in *. lia.
Qed.

Lemma loads_envelope_line d : plain (VDict d) ->
  loads parse_float plain_object (fun name => Ok (parse_float name)) (compact (VDict d) ++ [NL]) = Ok (VDict d).
Proof.
  intros Hp.
  assert (forall d, NoDup (map fst d) -> plain_object d = Ok (VDict d)) as Hh.
  { intros d' Hd'. unfold plain_object. by rewrite dict_of_distinct. }
  unfold loads. rewrite skip_ws_opens by (by apply opens_app; apply (printed_opens float_repr false [] [])).
  rewrite (scans_plain float_repr false [] []); [|by constructor|by constructor|done|done| |done].
  - done.
  - rewrite length_app. simpl. lia.
Qed.

Lemma decode_line d : plain (VDict d) -> decode_strict (utf8 (compact (VDict d)) ++ [NL]) = Some (compact (VDict d) ++ [NL]).
Proof.
  intros Hp. change [NL] with (utf8 [NL]) at 1. rewrite <- utf8_app. apply decode_strict_encode.
  apply Forall_app. split; [by apply dumps_scalars|by repeat constructor].
Qed.
End Wire.

(** ** A message over a socket *)

Section Delivery.
Variable casefold : str -> str.
Variable float_repr : Z -> Z -> str.
Variable parse_float : str -> value.
Variable repr : value -> str.
Variable json_text : json_error -> str.
Variable decode_text encode_text overrun_text : str.

Context {W : Type}.
Variable describe_status : W -> str.
Variable deliver_message : W -> PeerMessage -> W * DeliveryOutcome.
Variable new_id now_iso : str.
(** [uuid4().hex]. *)
Hypothesis new_id_len : len new_id = 32.
Hypothesis new_id_hex : forallb lower_hex new_id = true.

Abbreviation compact := (dumps float_repr false [44] [58]).
Abbreviation encode := (encode_envelope float_repr encode_text).
Abbreviation server :=
  (served float_repr parse_float repr json_text decode_text encode_text overrun_text describe_status deliver_message new_id now_iso).
Abbreviation remote := (deliver_to_discovered_peer float_repr parse_float repr json_text decode_text encode_text overrun_text).

(** The message that the recipient creates from an envelope. *)
Definition received (m : PeerMessage) : PeerMessage :=
  create new_id now_iso (strip m.(sender_session_id))
    (if nonempty m.(sender_title) then m.(sender_title) else m.(sender_session_id)) m.(text)
    (match m.(reply_to) with Some (c :: r) => Some (c :: r) | _ => None end).

Definition encodable (m : PeerMessage) (sender_project : str) : Prop :=
  scalars m.(sender_session_id) /\ scalars m.(sender_title) /\ scalars sender_project /\ scalars m.(text) /\
  match m.(reply_to) with Some r => scalars r | None => True end.

Lemma envelope_plain m sender_project : encodable m sender_project -> plain (VDict (message_envelope m sender_project)).
Proof.
  intros (H1 & H2 & H3 & H4 & H5). unfold message_envelope.
  assert (plain (VInt MESSAGING_PROTOCOL_VERSION)) by (constructor; by vm_compute).
  assert (plain (VStr (lit "message"))) by (constructor; by repeat constructor).
  assert (plain (opt_str (reply_to m))) by (unfold opt_str; destruct (reply_to m); by constructor).
  assert (forall s, scalars s -> plain (VStr s)) by by constructor. constructor.
  - repeat (apply Forall_cons_2; [split; [by repeat constructor|by cbn [snd]; auto]|]). constructor.
  - cbn [map fst]. apply (bool_decide_unpack _). by vm_compute.
Qed.

Definition envelope_size (m : PeerMessage) (sender_project : str) : Z :=
  len (utf8 (compact (VDict (message_envelope m sender_project)))).

(** The newline at the end of a line counts against the limit of the reader. *)
Lemma payload_line d : plain (VDict d) ->
  envelope_payload parse_float json_text decode_text (utf8 (compact (VDict d)) ++ [NL]) =
    if ENVELOPE_MAX_BYTES <=? len (utf8 (compact (VDict d))) then Raise (Peer EnvelopeTooLarge) else Ok (VDict d).
Proof.
  intros Hp. unfold envelope_payload. rewrite decode_line, loads_envelope_line by done.
  rewrite len_app. change (len [NL]) with 1.
  destruct (Z.leb_spec ENVELOPE_MAX_BYTES (len (utf8 (compact (VDict d))))), (Z.ltb_spec ENVELOPE_MAX_BYTES (len (utf8 (compact (VDict d))) + 1));
    try lia; done.
Qed.

(** *** The answer of the server *)

Lemma hex_unescaped s : forallb lower_hex s = true -> concat (map (json_char false) s) = s.
Proof.
  induction s as [|c s IH]; [done|]. cbn [forallb map concat]. intros [Hc Hs]%andb_true_iff. rewrite IH by done.
  enough (json_char false c = [c]) as -> by done. unfold lower_hex in Hc. unfold json_char. cbn [andb].
  repeat case_match; (lia || done).
Qed.

Lemma hex_scalars s : forallb lower_hex s = true -> scalars s.
Proof.
  intros H. apply scalars_ascii. rewrite Forall_forall. intros c Hc. rewrite forallb_forall in H.
  specialize (H c (proj1 (list_elem_of_In _ _) Hc)). unfold lower_hex in H. lia.
Qed.

Definition receipt (o : DeliveryOutcome) : list (str * value) :=
  ok_response [(lit "message_id", VStr new_id); (lit "outcome", VStr (outcome_value o))].

Lemma receipt_plain o : plain (VDict (receipt o)).
Proof.
  assert (plain (VStr new_id)) by (constructor; by apply hex_scalars).
  assert (plain (VStr (outcome_value o))) by (constructor; destruct o; by repeat constructor). unfold receipt, ok_response. constructor.
  - repeat (apply Forall_cons_2; [split; [by repeat constructor|by cbn [snd]; auto using plain_bool]|]). constructor.
  - cbn [map fst]. apply (bool_decide_unpack _). by vm_compute.
Qed.

Lemma receipt_size o : len (utf8 (compact (VDict (receipt o)))) <= ENVELOPE_MAX_BYTES.
Proof.
  pose proof (len_utf8_le (compact (VDict (receipt o)))) as H.
  assert (len (compact (VDict (receipt o))) <= 200); [|unfold ENVELOPE_MAX_BYTES; lia].
  assert (compact (VDict (receipt o)) =
    (123 :: json_string false (lit "ok") ++ [58] ++ lit "true" ++ [44] ++ json_string false (lit "message_id") ++ [58]) ++
    (json_string false new_id ++ [44] ++ json_string false (lit "outcome") ++ [58] ++ json_string false (outcome_value o)) ++ [125])
    as -> by by destruct o.
  unfold json_string at 3. rewrite (hex_unescaped new_id) by done. rewrite !len_app, !len_cons, !len_app, new_id_len. destruct o; vm_compute; congruence.
Qed.

Lemma encode_spec d : plain (VDict d) ->
  encode d = if ENVELOPE_MAX_BYTES <? len (utf8 (compact (VDict d))) then Raise (Peer EnvelopeTooLarge)
             else Ok (utf8 (compact (VDict d)) ++ [NL]).
Proof.
  intros Hp. unfold encode_envelope. assert (scalars (compact (VDict d))) as Hs by by apply dumps_scalars.
  assert (forallb scalar (compact (VDict d)) = true) as ->; [|done].
  apply forallb_forall. intros c Hc. rewrite Forall_forall in Hs. apply Hs. by apply list_elem_of_In.
Qed.

Lemma encode_plain d : plain (VDict d) -> len (utf8 (compact (VDict d))) <= ENVELOPE_MAX_BYTES ->
  encode d = Ok (utf8 (compact (VDict d)) ++ [NL]).
Proof.
  intros Hp Hl. rewrite encode_spec by done.
  by destruct (Z.ltb_spec ENVELOPE_MAX_BYTES (len (utf8 (compact (VDict d))))); [lia|].
Qed.

(** A client reads the response that a server encodes. *)
Lemma answer_read path (ep : endpoint W) w w' d data d' b answer :
  encode d = Ok data -> ep w data = (w', Ok answer) -> plain (VDict d') -> encode d' = Ok answer ->
  get d' (lit "ok") = VBool b ->
  send_over_socket float_repr parse_float json_text decode_text encode_text overrun_text path (Ok ep) w d = (w', Ok d').
Proof.
  intros Hd Hep Hp Ha Hok. unfold send_over_socket. rewrite Hd, Hep.
  destruct (encode_line float_repr parse_float overrun_text encode_text d' answer) as (-> & _ & Hl); [done..|].
  rewrite Hl. cbn [mbind result_bind]. rewrite decode_line, loads_envelope_line by done. rewrite Hok.
  by destruct (nonempty _) eqn:E; [|destruct (utf8 (compact (VDict d')))].
Qed.

Lemma respond_message w m sender_project t :
  encodable m sender_project -> strip m.(sender_session_id) <> [] -> validate_peer_text m.(text) = Ok t ->
  envelope_size m sender_project < ENVELOPE_MAX_BYTES ->
  respond parse_float repr json_text decode_text encode_text overrun_text describe_status deliver_message new_id now_iso w
    (Some (utf8 (compact (VDict (message_envelope m sender_project))) ++ [NL])) =
  let '(w', o) := deliver_message w (received m) in (w', receipt o).
Proof.
  intros He Hs Ht Hl. pose proof (envelope_plain _ _ He) as Hp. unfold envelope_size in Hl. unfold respond.
  destruct (encode_line float_repr parse_float overrun_text encode_text (message_envelope m sender_project) _ Hp (encode_plain _ Hp ltac:(lia)))
    as (_ & _ & ->).
  cbn [mbind result_bind]. unfold parse_envelope. rewrite payload_line by done.
  destruct (Z.leb_spec ENVELOPE_MAX_BYTES (len (utf8 (compact (VDict (message_envelope m sender_project)))))); [lia|].
  cbn [mbind result_bind].
  change (get (message_envelope m sender_project) (lit "v")) with (VInt 1).
  change (get (message_envelope m sender_project) (lit "kind")) with (VStr (lit "message")).
  change (get (message_envelope m sender_project) (lit "sender_id")) with (VStr m.(sender_session_id)).
  change (get (message_envelope m sender_project) (lit "sender_title")) with (VStr m.(sender_title)).
  change (get (message_envelope m sender_project) (lit "text")) with (VStr m.(text)).
  change (get (message_envelope m sender_project) (lit "reply_to")) with (opt_str m.(reply_to)).
  cbv beta iota. rewrite Ht. cbv zeta.
  change (negb (eq_int (VInt 1) MESSAGING_PROTOCOL_VERSION)) with false.
  change (is_str (VStr (lit "message")) (lit "message")) with true.
  change (is_str (VStr (lit "message")) (lit "status")) with false. cbn [negb orb].
  destruct (nonempty (strip (sender_session_id m))) eqn:E; [|by destruct (strip (sender_session_id m))].
  cbn [negb truthy py_str].
  enough (forall d, d = received m ->
    (let '(w', o) := deliver_message w d in (w', ok_response [(lit "message_id", VStr d.(message_id)); (lit "outcome", VStr (outcome_value o))]))
    = (let '(w', o) := deliver_message w (received m) in (w', receipt o))) as Hx.
  - apply Hx. unfold received. f_equal. by destruct (reply_to m) as [[|c r]|].
  - intros d ->. done.
Qed.

(** The two refusals that a message of the limit meets. *)
Definition too_large_response : list (str * value) := error_response (error_text repr EnvelopeTooLarge).

Lemma too_large_plain : plain (VDict too_large_response).
Proof.
  assert (plain (VStr (error_text repr EnvelopeTooLarge))) by (constructor; by repeat constructor).
  unfold too_large_response, error_response. constructor.
  - repeat (apply Forall_cons_2; [split; [by repeat constructor|by cbn [snd]; auto using plain_bool]|]). constructor.
  - cbn [map fst]. apply (bool_decide_unpack _). by vm_compute.
Qed.

Lemma respond_too_large w m sender_project :
  encodable m sender_project -> envelope_size m sender_project = ENVELOPE_MAX_BYTES ->
  respond parse_float repr json_text decode_text encode_text overrun_text describe_status deliver_message new_id now_iso w
    (Some (utf8 (compact (VDict (message_envelope m sender_project))) ++ [NL])) = (w, too_large_response).
Proof.
  intros He Hl. pose proof (envelope_plain _ _ He) as Hp. unfold envelope_size in Hl. unfold respond.
  destruct (encode_line float_repr parse_float overrun_text encode_text (message_envelope m sender_project) _ Hp
    (encode_plain _ Hp ltac:(lia))) as (_ & _ & ->).
  cbn [mbind result_bind]. unfold parse_envelope. rewrite payload_line by done.
  destruct (Z.leb_spec ENVELOPE_MAX_BYTES (len (utf8 (compact (VDict (message_envelope m sender_project)))))); [done|lia].
Qed.

(** a message sent over the socket of a session meets the same gate as one
    delivered inside the process.  When its envelope is below the limit, the
    recipient handles exactly the message that [received] describes, once, and
    the sender learns its new id and the recipient's own outcome, whatever the
    recipient does; otherwise nothing is delivered and the sender gets an error,
    from its own side above the limit and from the recipient's at the limit,
    where the newline makes the difference. *)
Theorem socket_delivery_agrees eps w (r : registry W) reg sid summary path m sender_project t :
  summary.(socket_path) = Some path -> eps path = Ok server ->
  dict_get r sid = Some reg -> reg.(Inbox.deliver_message) = deliver_message ->
  strip m.(sender_session_id) <> [] -> strip m.(sender_session_id) <> sid ->
  validate_peer_text m.(text) = Ok t -> encodable m sender_project ->
  remote eps w summary m sender_project =
    if ENVELOPE_MAX_BYTES <? envelope_size m sender_project then (w, Raise (Peer EnvelopeTooLarge))
    else if envelope_size m sender_project =? ENVELOPE_MAX_BYTES
    then (w, Raise (Peer (RejectedBy summary.(title) (error_text repr EnvelopeTooLarge))))
    else
      let '(w', o) := deliver w r sid (received m) (Some (strip m.(sender_session_id))) in
      (w', match o with Ok o => Ok (new_id, outcome_value o) | Raise e => Raise (Peer e) end).
Proof.
  intros Hpath Heps Hreg Hdel Hs Hself Ht He. pose proof (envelope_plain _ _ He) as Hp.
  unfold deliver_to_discovered_peer. rewrite Hpath, Heps.
  destruct (Z.ltb_spec ENVELOPE_MAX_BYTES (envelope_size m sender_project)) as [Hbig|Hfit].
  { unfold send_over_socket. rewrite encode_spec by done. unfold envelope_size in Hbig.
    by destruct (Z.ltb_spec ENVELOPE_MAX_BYTES (len (utf8 (compact (VDict (message_envelope m sender_project)))))); [|lia]. }
  destruct (Z.eqb_spec (envelope_size m sender_project) ENVELOPE_MAX_BYTES) as [Heq|Hne].
  - rewrite (answer_read path server w w _ _ too_large_response false
      (utf8 (compact (VDict too_large_response)) ++ [NL]) (encode_plain _ Hp Hfit)).
    + done.
    + unfold served, _handle_connection. rewrite respond_too_large by done. by rewrite encode_plain by (apply too_large_plain || by vm_compute).
    + apply too_large_plain.
    + apply encode_plain; [apply too_large_plain|by vm_compute].
    + done.
  - unfold deliver. rewrite Hreg, Hdel. unfold str_eqb. rewrite bool_decide_eq_false_2 by done. cbn [text received create]. rewrite Ht.
    destruct (deliver_message w (received m)) as [w' o] eqn:Eo.
    rewrite (answer_read path server w w' _ _ (receipt o) true (utf8 (compact (VDict (receipt o))) ++ [NL]) (encode_plain _ Hp Hfit)).
    + cbn [mbind result_bind]. change (is_ok (receipt o)) with true. cbn [negb].
      change (get (receipt o) (lit "message_id")) with (VStr new_id).
      change (get (receipt o) (lit "outcome")) with (VStr (outcome_value o)).
      unfold str_or_empty. cbn [truthy py_str]. destruct (nonempty new_id) eqn:En; [|by destruct new_id]. by destruct o.
    + unfold served, _handle_connection. rewrite (respond_message w m sender_project t), Eo by (done || lia).
      by rewrite encode_plain by (apply receipt_plain || apply receipt_size).
    + apply receipt_plain.
    + apply encode_plain; [apply receipt_plain|apply receipt_size].
    + done.
Qed.
End Delivery.

(** *** Instances *)

Definition sample_id : str := lit "0123456789abcdef0123456789abcdef".
Definition sample_message : PeerMessage :=
  {| message_id := lit "x"; sender_session_id := lit " ab12 "; sender_title := []; text := lit "build is green" ++ [NL];
     reply_to := Some []; created_at := [] |}.
Definition sample_deliver : HeadlessPeerInbox -> PeerMessage -> HeadlessPeerInbox * DeliveryOutcome :=
  deliver_inbound (fun t => len t) (true, true) 7.
Definition sample_registration : InboxRegistration HeadlessPeerInbox :=
  {| session_id := sample_id; describe_title := fun _ => lit "Peer"; describe_project_path := fun _ => [];
     describe_status := host_status; Inbox.deliver_message := sample_deliver |}.
Definition sample_summary : AgentSummary :=
  {| summary_id := sample_id; title := lit "Peer"; project_path := []; status := lit "idle"; summary_source := socket;
     socket_path := Some (lit "s.sock") |}.

Lemma socket_delivery_agrees_witness :
  exists h,
    deliver_to_discovered_peer (fun _ _ => []) (fun _ => VNone) (fun _ => []) (fun _ => []) [] [] []
      (fun _ => Ok (served (fun _ _ => []) (fun _ => VNone) (fun _ => []) (fun _ => []) [] [] [] host_status sample_deliver
                      sample_id []))
      new_inbox sample_summary sample_message (lit "/p") = (h, Ok (sample_id, lit "accepted")) /\
    map text h.(_queue) = [lit "build is green" ++ [NL]] /\ map sender_session_id h.(_queue) = [lit "ab12"].
Proof.
  eexists. split.
  - rewrite (socket_delivery_agrees (fun _ _ => []) (fun _ => VNone) (fun _ => []) (fun _ => []) [] [] [] host_status
      sample_deliver sample_id [] eq_refl eq_refl _ new_inbox [(sample_id, sample_registration)] sample_registration sample_id
      sample_summary (lit "s.sock") sample_message (lit "/p") (lit "build is green"));
      [by vm_compute|done..|by vm_compute| |by vm_compute|by vm_compute|].
    + by vm_compute.
    + unfold encodable. split_and!; by repeat constructor.
  - by vm_compute.
Defined.

(** The limit of [validate_peer_text] counts characters: a text of three-byte
    characters passes it and fits in no envelope. *)
Definition wide_message : PeerMessage :=
  {| message_id := []; sender_session_id := sample_id; sender_title := lit "Peer"; text := replicate (Z.to_nat 25000) 28040;
     reply_to := None; created_at := [] |}.

Lemma wide_text n : concat (map (json_char false) (replicate n 28040)) = replicate n 28040.
Proof. induction n as [|n IH]; [done|]. cbn [replicate map concat]. by rewrite IH. Qed.

Lemma unspaced_strip s : Forall (fun c => is_space c = false) s -> strip s = s.
Proof.
  intros Hs. apply strip_stripped. split; [by destruct Hs|].
  destruct (rev s) as [|c r] eqn:E; [done|]. rewrite Forall_forall in Hs. apply Hs, list_elem_of_In, in_rev. rewrite E. by left.
Qed.

Theorem validated_text_does_not_fit float_repr encode_text :
  validate_peer_text wide_message.(text) = Ok wide_message.(text) /\
  encode_envelope float_repr encode_text (message_envelope wide_message []) = Raise (Peer EnvelopeTooLarge).
Proof.
  split; [|by vm_compute]. unfold validate_peer_text. cbn [text wide_message].
  rewrite unspaced_strip by by apply Forall_replicate.
  unfold json_string. rewrite wide_text, len_cons, len_app, len_replicate, Z2Nat.id by lia.
  change (nonempty (replicate (Z.to_nat 25000) 28040)) with true. done.
Qed.

(** ** The tool *)

Section Tool.
Context {W : Type}.
Variable casefold : str -> str.
Variable discover : W -> W * result exn (list AgentSummary).
Variable deliver_remote : W -> AgentSummary -> PeerMessage -> W * result exn (str * str).
Variable new_id now_iso : str.

(** The tool reports a delivery whatever the recipient decided. *)
Theorem refusal_reported_as_delivery w (r : registry W) self name recipient t cleaned reg w' o :
  nonempty (strip recipient) = true -> validate_peer_text t = Ok cleaned ->
  resolve_recipient casefold w r (strip recipient) (Some self) = Ok reg ->
  deliver w r reg.(session_id) (create new_id now_iso self name cleaned None) (Some self) = (w', Ok o) ->
  send_message casefold discover deliver_remote new_id now_iso w r self name recipient t =
    (w', Ok (delivered (reg.(describe_title) w') reg.(session_id))).
Proof. intros Hr Ht Hres Hd. unfold send_message. by rewrite Hr, Ht, Hres, Hd. Qed.
End Tool.

(** A session of another process that bears exactly the name asked for is not
    looked at when the name is a prefix of one in this process. *)
Theorem exact_remote_name_shadowed discover deliver_remote :
  let other := {| session_id := lit "0a"; describe_title := fun _ => lit "buildbot"; describe_project_path := fun _ => [];
                  describe_status := fun _ => []; Inbox.deliver_message := fun w m => (m :: w, ACCEPTED) |} in
  exists m, send_message (fun s => s) discover deliver_remote sample_id [] [] [(lit "0a", other)] (lit "me") (lit "Me")
              (lit "build") (lit "hi") = ([m], Ok (lit "Message delivered to buildbot (0a).")).
Proof. by eexists. Qed.
