(* ===== verification/InboxDiscovery.v ===== *)
(** * Discovery: the peers a session sees *)

From stdpp Require Import base gmap list strings numbers sorting.
From Stdlib Require Import ZArith Lia.
From S2P Require Import Prelude PyStr PyVal Json JsonFacts Inbox InboxFacts.

(** ** The order of strings *)

Lemma str_leb_total a : forall b, str_leb a b = false -> str_leb b a = true.
Proof.
  induction a as [|x a IH]; intros [|y b]; cbn; try done.
  destruct (Z.ltb_spec x y), (Z.ltb_spec y x); try done; try lia. auto.
Qed.
Lemma str_leb_antisym a : forall b, str_leb a b = true -> str_leb b a = true -> a = b.
Proof.
  induction a as [|x a IH]; intros [|y b]; cbn; try done.
  destruct (Z.ltb_spec x y), (Z.ltb_spec y x); try done; try lia. intros. f_equal; [lia|auto].
Qed.
Lemma str_leb_trans a : forall b c, str_leb a b = true -> str_leb b c = true -> str_leb a c = true.
Proof.
  induction a as [|x a IH]; intros [|y b] [|z c]; cbn; try done.
  destruct (Z.ltb_spec x y), (Z.ltb_spec y x), (Z.ltb_spec y z), (Z.ltb_spec z y), (Z.ltb_spec x z), (Z.ltb_spec z x);
    try done; try lia. eauto.
Qed.

Lemma by_title_total casefold a b : by_title_then_id casefold a b = false -> by_title_then_id casefold b a = true.
Proof.
  unfold by_title_then_id, str_eqb. repeat case_bool_decide; try congruence; try apply str_leb_total.
Qed.
Lemma by_title_trans casefold a b c :
  by_title_then_id casefold a b = true -> by_title_then_id casefold b c = true -> by_title_then_id casefold a c = true.
Proof.
  unfold by_title_then_id, str_eqb. repeat case_bool_decide; try congruence; try apply str_leb_trans.
  intros Hab Hbc. exfalso. assert (casefold (title b) = casefold (title a)); [|congruence].
  apply str_leb_antisym; congruence.
Qed.

(** ** Discovery *)

Section Discovery.
Context {W : Type}.
Variable casefold : str -> str.
Variable kill0 : Z -> kill_result.
Variable unlink_ok : str -> bool.
Variable send : str -> W -> list (str * value) -> W * result exn (list (str * value)).
Variable title_lookup : str -> option str.

Abbreviation discover := (discover_peers casefold kill0 unlink_ok send title_lookup).

(** The answers of the probes, one for each target. *)
Lemma probe_all_targets targets : forall w w' found,
  probe_all send title_lookup w targets = (w', Ok found) ->
  Forall2 (fun t s => s.(summary_id) = t.2 /\ s.(summary_source) = socket /\ s.(socket_path) = Some t.1) targets found.
Proof.
  induction targets as [|[name sid] targets IH]; intros w w' found; cbn [probe_all]; [by intros [= <- <-]|].
  unfold probe. destruct (send name w status_request) as [w1 response].
  destruct (probe_all send title_lookup w1 targets) as [w2 rest] eqn:E. intros [= <- H].
  ok_inv H. ok_inv H. injection H as <-. subst. constructor; [|by eapply IH]. cbn.
  destruct response as [d|[]]; try done; [destruct (get d (lit "status"))|]; by simplify_eq.
Qed.

Definition process_summary (w : W) (sid : str) (reg : InboxRegistration W) : AgentSummary :=
  {| summary_id := sid; title := reg.(describe_title) w; project_path := reg.(describe_project_path) w;
     status := reg.(describe_status) w; summary_source := process; socket_path := None |}.

Lemma list_agents_elem (w : W) (r : registry W) exclude s :
  s ∈ list_agents casefold w r exclude <->
  exists sid reg, (sid, reg) ∈ r /\ included exclude sid = true /\ s = process_summary w sid reg.
Proof.
  unfold list_agents. rewrite (sort_by_perm _ _), list_elem_of_fmap. split.
  - intros ([sid reg] & -> & H). apply list_elem_of_In, filter_In in H as [H He]. exists sid, reg. by rewrite list_elem_of_In.
  - intros (sid & reg & H & He & ->). exists (sid, reg). split; [done|]. apply list_elem_of_In, filter_In.
    by rewrite <- list_elem_of_In.
Qed.

Lemma list_agents_ids (w : W) (r : registry W) exclude : NoDup (map fst r) -> NoDup (map summary_id (list_agents casefold w r exclude)).
Proof.
  intros H. unfold list_agents. rewrite (Permutation_map summary_id (sort_by_perm _ _)), map_map. by apply NoDup_map_filter.
Qed.

Lemma by_summary_id_keys l : map fst (by_summary_id l) = map summary_id l.
Proof. unfold by_summary_id. by rewrite map_map. Qed.
Lemma by_summary_id_elem l k s : (k, s) ∈ by_summary_id l <-> k = s.(summary_id) /\ s ∈ l.
Proof. unfold by_summary_id. rewrite list_elem_of_fmap. split; [intros (x & [= -> ->] & H); done|intros [-> H]; eauto]. Qed.

Lemma probed_elem exclude known entries name sid :
  (name, sid) ∈ probed exclude known entries <->
  name ∈ entries /\ (exists pid, parse_socket_name name = Some (sid, pid)) /\ included exclude sid = true /\ dict_has known sid = false.
Proof.
  unfold probed. rewrite list_elem_of_omap. split.
  - intros (x & Hx & H). destruct (parse_socket_name x) as [[sid' pid]|] eqn:E; [|done].
    destruct (included exclude sid') eqn:E1, (dict_has known sid') eqn:E2; cbn in H; simplify_eq. eauto.
  - intros (Hx & (pid & Hp) & Hi & Hk). exists name. split; [done|]. by rewrite Hp, Hi, Hk.
Qed.

Lemma known_has (w : W) (r : registry W) exclude sid : included exclude sid = true ->
  dict_has (by_summary_id (list_agents casefold w r exclude)) sid = dict_has r sid.
Proof.
  intros Hi. apply eq_true_iff_eq. rewrite !dict_has_elem, by_summary_id_keys, !list_elem_of_fmap. split.
  - intros (s & -> & (y & reg & Hr & _ & ->)%list_agents_elem). by exists (y, reg).
  - intros ([sid' reg] & -> & Hr). exists (process_summary w sid' reg). split; [done|]. apply list_agents_elem. eauto.
Qed.

(** The targets and the answers. *)
Lemma probed_found exclude known entries w w' found :
  probe_all send title_lookup w (probed exclude known entries) = (w', Ok found) ->
  (forall s, s ∈ found -> s.(summary_source) = socket /\ exists name, s.(socket_path) = Some name /\ (name, s.(summary_id)) ∈ probed exclude known entries) /\
  (forall name sid, (name, sid) ∈ probed exclude known entries -> sid ∈ map summary_id found).
Proof.
  intros H%probe_all_targets. split.
  - intros s Hs. apply list_elem_of_lookup in Hs as (i & Hs). destruct (Forall2_lookup_r _ _ _ _ _ H Hs) as ([name sid] & Ht & H1 & H2 & H3).
    split; [done|]. exists name. split; [done|]. cbn in H1. rewrite H1. by eapply list_elem_of_lookup_2.
  - intros name sid Ht. apply list_elem_of_lookup in Ht as (i & Ht). destruct (Forall2_lookup_l _ _ _ _ _ H Ht) as (s & Hs & H1 & _).
    cbn in H1. rewrite <- H1. apply list_elem_of_fmap_2. by eapply list_elem_of_lookup_2.
Qed.

Lemma swept_file entries name sid pid :
  name ∈ fst (sweep_stale_sockets kill0 unlink_ok entries) -> parse_socket_name name = Some (sid, pid) ->
  is_pid_alive kill0 pid = true \/ unlink_ok name = false.
Proof.
  intros H Hp. cbn in H. apply list_elem_of_In, filter_In in H as [_ H]. unfold stale in H. rewrite Hp in H.
  destruct (is_pid_alive kill0 pid), (unlink_ok name); auto.
Qed.

(** What discovery reports: every session once, in the order of names; never
    the session that asks; every other session of this process, with what its
    registration says now and never as a socket, and for each socket file that
    the sweep leaves and whose session is not of this process, that session.
    Nothing else is reported: a socket entry names a file that is still there and
    whose process lives (or whose file cannot be removed). *)
Theorem discovery_complete w (r : registry W) directory exclude w' files peers :
  NoDup (map fst r) -> discover w r directory exclude = (w', files, Ok peers) ->
  NoDup (map summary_id peers) /\
  StronglySorted (fun a b => by_title_then_id casefold a b = true) peers /\
  (forall s, s ∈ peers -> included exclude s.(summary_id) = true) /\
  (forall sid reg, (sid, reg) ∈ r -> included exclude sid = true -> process_summary w sid reg ∈ peers) /\
  (forall name sid pid, name ∈ default [] files -> parse_socket_name name = Some (sid, pid) -> included exclude sid = true ->
     is_registered r sid = false -> exists s, s ∈ peers /\ s.(summary_id) = sid /\ s.(summary_source) = socket) /\
  (forall s, s ∈ peers ->
     (exists reg, (s.(summary_id), reg) ∈ r /\ s = process_summary w s.(summary_id) reg) \/
     (is_registered r s.(summary_id) = false /\ exists name pid, s.(socket_path) = Some name /\ name ∈ default [] files /\
        parse_socket_name name = Some (s.(summary_id), pid) /\ (is_pid_alive kill0 pid = true \/ unlink_ok name = false))).
Proof.
  intros Hd. unfold discover_peers. rewrite dict_of_distinct by (rewrite by_summary_id_keys; by apply list_agents_ids).
  set (known := by_summary_id (list_agents casefold w r exclude)).
  set (left := (fun entries => fst (sweep_stale_sockets kill0 unlink_ok entries)) <$> directory).
  destruct (probe_all _ _ w _) as [w1 res] eqn:E. intros [= <- <- H]. ok_inv H. injection H as <-. subst res.
  rename v into found. destruct (probed_found _ _ _ _ _ _ E) as [Hfound Hall]. set (M := dict_update known (by_summary_id found)).
  assert (forall s, s ∈ sort_by (by_title_then_id casefold) (map snd M) <-> (s.(summary_id), s) ∈ M) as Hpeers.
  { intros s. rewrite (sort_by_perm _ _), list_elem_of_fmap. split; [|intros H; by exists (summary_id s, s)].
    intros ([k s'] & -> & Hm). cbn in Hm |- *.
    destruct (dict_update_elem _ _ _ Hm) as [Hm'|Hm']; apply by_summary_id_elem in Hm' as [-> _]; done. }
  assert (NoDup (map fst M)) as Hn.
  { apply dict_update_nodup. unfold known. rewrite by_summary_id_keys. by apply list_agents_ids. }
  assert (forall s, s ∈ found -> included exclude s.(summary_id) = true /\ is_registered r s.(summary_id) = false /\
    exists name pid, s.(socket_path) = Some name /\ name ∈ default [] left /\ parse_socket_name name = Some (s.(summary_id), pid)) as Hsock.
  { intros s Hs. destruct (Hfound s Hs) as (_ & name & Hp & (Hin & (pid & Hpid) & Hi & Hk)%probed_elem).
    unfold known in Hk. rewrite known_has in Hk by done. rewrite (sort_by_perm _ _) in Hin. eauto 10. }
  assert (forall s, s ∈ sort_by (by_title_then_id casefold) (map snd M) -> s ∈ list_agents casefold w r exclude \/ s ∈ found) as Hcase.
  { intros s [(_ & H)%by_summary_id_elem|(_ & H)%by_summary_id_elem]%Hpeers%dict_update_elem; auto. }
  split_and!.
  - rewrite (Permutation_map summary_id (sort_by_perm _ _)), map_map.
    rewrite (map_ext_in _ fst); [done|]. intros [k s] Hm. apply list_elem_of_In, dict_update_elem in Hm.
    by destruct Hm as [(-> & _)%by_summary_id_elem|(-> & _)%by_summary_id_elem].
  - apply sort_by_sorted; [apply by_title_total|apply by_title_trans].
  - intros s [(sid & reg & _ & Hi & ->)%list_agents_elem|Hs]%Hcase; [done|by apply Hsock].
  - intros sid reg Hr Hi. apply Hpeers, dict_get_elem. cbn [process_summary summary_id]. unfold M. rewrite dict_update_get.
    + apply dict_get_In; unfold known; [by rewrite by_summary_id_keys; apply list_agents_ids|].
      apply by_summary_id_elem. split; [done|]. apply list_agents_elem. eauto.
    + rewrite by_summary_id_keys. intros (s & -> & Hs)%list_elem_of_fmap. destruct (Hsock s Hs) as (_ & Hr' & _).
      assert (is_registered r (summary_id s) = true) as Ht by (apply dict_has_elem; by apply (list_elem_of_fmap_2 fst) in Hr). congruence.
  - intros name sid pid Hn' Hp Hi Hr. assert (sid ∈ map summary_id found) as Hs.
    { apply (Hall name), probed_elem. rewrite (sort_by_perm _ _). split_and!; [done|by eexists|done|by unfold known; rewrite known_has]. }
    destruct (dict_get_update_some (by_summary_id found) sid known) as (s & Hg); [right; by rewrite by_summary_id_keys|].
    apply dict_get_elem in Hg. exists s. pose proof Hg as [(-> & (y & reg & Hr' & _ & ->)%list_agents_elem)%by_summary_id_elem|(-> & Hf)%by_summary_id_elem]%dict_update_elem.
    + exfalso. cbn in Hr. assert (is_registered r y = true) as Ht by (apply dict_has_elem; by apply (list_elem_of_fmap_2 fst) in Hr'). congruence.
    + split; [by apply Hpeers|]. split; [done|]. by apply Hfound.
  - intros s [(sid & reg & Hr & Hi & ->)%list_agents_elem|Hs]%Hcase; [left; eauto|right].
    destruct (Hsock s Hs) as (_ & Hr & name & pid & H1 & H2 & H3). split; [done|]. exists name, pid. split_and!; try done.
    destruct directory as [entries|]; cbn [left fmap option_fmap option_map default] in H2; [by eapply swept_file|by apply not_elem_of_nil in H2].
Qed.
End Discovery.

(** ** Instances *)

Definition id_here : str := lit "00000000000000000000000000000001".
Definition id_there : str := lit "00000000000000000000000000000002".
Definition here : InboxRegistration unit :=
  {| session_id := id_here; describe_title := fun _ => lit "Here"; describe_project_path := fun _ => [];
     describe_status := fun _ => lit "busy"; deliver_message := fun w _ => (w, ACCEPTED) |}.
(** The sockets of a live process, of a dead one and of this session, and a foreign file. *)
Definition sample_directory : list str :=
  omap id [socket_path_for id_there 7; socket_path_for id_there 8; socket_path_for id_here 7] ++ [lit "notes"].

Lemma discovery_complete_witness :
  exists files peers,
    discover_peers (fun s => s) (fun pid => if pid =? 8 then NoProcess else KillOk) (fun _ => true)
      (fun _ w _ => (w, Ok [(lit "ok", VBool true); (lit "status", VStr (lit "idle"))])) (fun _ => None)
      tt [(id_here, here)] (Some sample_directory) None = (tt, Some files, Ok peers) /\
    length files = 3%nat /\ map status peers = [lit "idle"; lit "busy"] /\ NoDup (map summary_id peers).
Proof.
  eexists _, _. split; [by vm_compute|]. split; [by vm_compute|]. split; [by vm_compute|].
  eapply (discovery_complete (fun s => s) (fun pid => if pid =? 8 then NoProcess else KillOk) (fun _ => true)
      (fun _ w _ => (w, Ok [(lit "ok", VBool true); (lit "status", VStr (lit "idle"))])) (fun _ => None)
      tt [(id_here, here)] (Some sample_directory) None); [|by vm_compute].
  apply NoDup_singleton.
Defined.
