(* ===== verification/InboxQueue.v ===== *)
(** * The gates of a recipient, with deliveries that interleave

    [deliver_inbound] awaits the journal before and after its gates; between the
    awaits other deliveries, and the turns that take the queue over, run.  A step
    is what runs between two awaits. *)

From stdpp Require Import base gmap list strings numbers sorting.
From Stdlib Require Import ZArith Lia.
From S2P Require Import Prelude PyStr PyVal Inbox.

Inductive phase :=
| Arriving                          (* before the gates *)
| Enqueued                          (* in the queue, the second event to record *)
| Answered (o : DeliveryOutcome).

(** One host, its clock, its deliveries in the order of their start; and for the
    record: what each delivery met at the gates and when, what was queued and
    what the turns took over. *)
Record system := {
  host : HeadlessPeerInbox;
  clock : Z;
  tasks : list (PeerMessage * phase);
  attempts : list (Z * PeerMessage);
  accepted : list (nat * Z * PeerMessage);
  handed : list PeerMessage
}.

Definition start : system :=
  {| host := new_inbox; clock := 0; tasks := []; attempts := []; accepted := []; handed := [] |}.

Section Steps.
Variable hash : str -> Z.

Definition verdict (r : option DeliveryOutcome) : phase := match r with Some o => Answered o | None => Enqueued end.

Inductive step : system -> system -> Prop :=
| step_clock s t : s.(clock) <= t ->
    step s {| host := s.(host); clock := t; tasks := s.(tasks); attempts := s.(attempts); accepted := s.(accepted);
              handed := s.(handed) |}
| step_arrive s m ok :
    step s {| host := _record ok PEER_MESSAGE_RECEIVED m s.(host); clock := s.(clock); tasks := s.(tasks) ++ [(m, Arriving)];
              attempts := s.(attempts); accepted := s.(accepted); handed := s.(handed) |}
| step_gate s i m h r : s.(tasks) !! i = Some (m, Arriving) -> gate hash s.(clock) m s.(host) = (h, r) ->
    step s {| host := h; clock := s.(clock); tasks := <[i := (m, verdict r)]> s.(tasks);
              attempts := s.(attempts) ++ [(s.(clock), m)];
              accepted := s.(accepted) ++ (match r with None => [(i, s.(clock), m)] | Some _ => [] end); handed := s.(handed) |}
| step_finish s i m ok : s.(tasks) !! i = Some (m, Enqueued) ->
    step s {| host := _record ok PEER_MESSAGE_DELIVERED m s.(host); clock := s.(clock);
              tasks := <[i := (m, Answered ACCEPTED)]> s.(tasks); attempts := s.(attempts); accepted := s.(accepted);
              handed := s.(handed) |}
| step_pop s :
    step s {| host := fst (pop_all s.(host)); clock := s.(clock); tasks := s.(tasks); attempts := s.(attempts);
              accepted := s.(accepted); handed := s.(handed) ++ s.(host).(_queue) |}
| step_provide s :
    step s {| host := fst (_provide_queued_inputs s.(host)); clock := s.(clock); tasks := s.(tasks); attempts := s.(attempts);
              accepted := s.(accepted); handed := s.(handed) ++ s.(host).(_queue) |}
| step_turn s b :
    step s {| host := with_turn s.(host) b; clock := s.(clock); tasks := s.(tasks); attempts := s.(attempts);
              accepted := s.(accepted); handed := s.(handed) |}.

Inductive reachable : system -> Prop :=
| reach_start : reachable start
| reach_step s s' : reachable s -> step s s' -> reachable s'.

(** ** The invariant *)

Definition key (m : PeerMessage) : str * Z := (m.(sender_session_id), hash m.(text)).
Definition accepted_task (a : nat * Z * PeerMessage) : nat := a.1.1.

(** A delivery at [t] that the guard drops: an attempt with the same sender and
    the same hash lies less than a window before it. *)
Definition repeat_of (s : system) (m : PeerMessage) : Prop :=
  exists t t' m', (t, m) ∈ s.(attempts) /\ (t', m') ∈ s.(attempts) /\ key m' = key m /\ 0 <= t - t' < PEER_REPEAT_WINDOW_SECONDS.

Definition honest (s : system) (i : nat) (m : PeerMessage) (p : phase) : Prop :=
  let queued := i ∈ map accepted_task s.(accepted) in
  match p with
  | Arriving | Answered REFUSED => ~ queued
  | Enqueued => queued
  | Answered ACCEPTED => queued \/ repeat_of s m
  end.

(** Two accepted messages of one sender with one text lie a window apart. *)
Definition spaced (l : list (nat * Z * PeerMessage)) : Prop :=
  forall i j a b, (i < j)%nat -> l !! i = Some a -> l !! j = Some b ->
    a.2.(sender_session_id) = b.2.(sender_session_id) -> a.2.(text) = b.2.(text) ->
    PEER_REPEAT_WINDOW_SECONDS <= b.1.2 - a.1.2.

Record invariant (s : system) : Prop := {
  inv_window : s.(host).(_repeat_guard).(window_seconds) = PEER_REPEAT_WINDOW_SECONDS;
  inv_capacity : len s.(host).(_queue) <= MAX_QUEUED_PEER_MESSAGES;
  inv_queue : s.(handed) ++ s.(host).(_queue) = map snd s.(accepted);
  inv_past : forall t m, (t, m) ∈ s.(attempts) -> t <= s.(clock);
  inv_seen : forall k t, s.(host).(_repeat_guard).(_last_seen) !! k = Some t ->
     exists m, (t, m) ∈ s.(attempts) /\ key m = k;
  inv_last : forall t m, (t, m) ∈ s.(attempts) ->
     exists t', s.(host).(_repeat_guard).(_last_seen) !! key m = Some t' /\ t <= t';
  inv_attempted : forall i t m, (i, t, m) ∈ s.(accepted) -> (t, m) ∈ s.(attempts);
  inv_spaced : spaced s.(accepted);
  inv_once : NoDup (map accepted_task s.(accepted));
  inv_tasks : forall i t m, (i, t, m) ∈ s.(accepted) -> exists p, s.(tasks) !! i = Some (m, p);
  inv_honest : forall i m p, s.(tasks) !! i = Some (m, p) -> honest s i m p;
  inv_journal : forall m, (PEER_MESSAGE_DELIVERED, m) ∈ s.(host).(journal) -> m ∈ map snd s.(accepted)
}.

Lemma gate_spec now m h h' r : gate hash now m h = (h', r) ->
  h'.(_repeat_guard) = {| window_seconds := h.(_repeat_guard).(window_seconds);
                          _last_seen := <[key m := now]> h.(_repeat_guard).(_last_seen) |} /\
  h'.(journal) = h.(journal) /\
  h'.(_queue) = h.(_queue) ++ (match r with None => [m] | Some _ => [] end) /\
  match r with
  | Some ACCEPTED => exists last, h.(_repeat_guard).(_last_seen) !! key m = Some last /\
                                  now - last < h.(_repeat_guard).(window_seconds)
  | Some REFUSED => MAX_QUEUED_PEER_MESSAGES <= len h.(_queue)
  | None => len h.(_queue) < MAX_QUEUED_PEER_MESSAGES /\
            forall last, h.(_repeat_guard).(_last_seen) !! key m = Some last -> h.(_repeat_guard).(window_seconds) <= now - last
  end.
Proof.
  unfold gate, allow, recipient_queue_full. fold (key m). cbv zeta.
  destruct (_last_seen _ !! key m) as [last|] eqn:E; [destruct (Z.ltb_spec (now - last) (window_seconds (_repeat_guard h)))|];
    cbn [negb]; cbn [_queue with_guard]; try destruct (Z.leb_spec MAX_QUEUED_PEER_MESSAGES (len (_queue h)));
    intros [= <- <-]; cbn; rewrite ?app_nil_r; split_and!; eauto; intros ? [= ->]; lia.
Qed.

Lemma honest_mono s s' i m p :
  (forall x, x ∈ s.(attempts) -> x ∈ s'.(attempts)) ->
  (i ∈ map accepted_task s'.(accepted) <-> i ∈ map accepted_task s.(accepted)) ->
  honest s i m p -> honest s' i m p.
Proof.
  intros Ha Hi. destruct p as [| |[]]; cbn; rewrite Hi; try done. intros [?|(t & t' & m' & H1 & H2 & H3)]; [by left|].
  right. exists t, t', m'. auto.
Qed.

(** A step that leaves the gates alone: it may record events, hand the queue
    over, move the clock and answer deliveries that are queued. *)
Lemma invariant_quiet s s' :
  invariant s ->
  s'.(host).(_repeat_guard) = s.(host).(_repeat_guard) -> s.(clock) <= s'.(clock) ->
  s'.(attempts) = s.(attempts) -> s'.(accepted) = s.(accepted) ->
  s'.(handed) ++ s'.(host).(_queue) = s.(handed) ++ s.(host).(_queue) ->
  len s'.(host).(_queue) <= len s.(host).(_queue) ->
  (forall i m p, s.(tasks) !! i = Some (m, p) -> exists p', s'.(tasks) !! i = Some (m, p')) ->
  (forall i m p, s'.(tasks) !! i = Some (m, p) -> honest s i m p) ->
  (forall m, (PEER_MESSAGE_DELIVERED, m) ∈ s'.(host).(journal) -> m ∈ map snd s.(accepted)) ->
  invariant s'.
Proof.
  intros [] Hg Hc Ha Hacc Hq Hl Ht Hh Hj. split; rewrite ?Hg, ?Hacc, ?Ha; try done.
  - lia.
  - congruence.
  - intros t m Hm. specialize (inv_past0 t m Hm). lia.
  - intros i t m Hm. destruct (inv_tasks0 i t m Hm) as (p & Hp). by eapply Ht.
  - intros i m p Hp. apply (honest_mono s); [by rewrite Ha|by rewrite Hacc|auto].
Qed.

Lemma lookup_snoc_tasks {A} (l : list A) x i y : (l ++ [x]) !! i = Some y -> l !! i = Some y \/ i = length l /\ y = x.
Proof.
  destruct (decide (i < length l)%nat); [rewrite lookup_app_l by done; auto|].
  rewrite lookup_app_r by lia. intros H. apply list_lookup_singleton_Some in H as [H ->]. right. split; [lia|done].
Qed.

Lemma accepted_fresh s i m : invariant s -> s.(tasks) !! i = None \/ s.(tasks) !! i = Some (m, Arriving) ->
  i ∉ map accepted_task s.(accepted).
Proof.
  intros Hi [H|H] Hin.
  - apply list_elem_of_fmap in Hin as ([[i' t] m'] & -> & Hin). destruct (inv_tasks _ Hi _ _ _ Hin) as (p & Hp). cbn in *. congruence.
  - by apply (inv_honest _ Hi i m Arriving).
Qed.

Lemma record_quiet ok e m h :
  (_record ok e m h).(_repeat_guard) = h.(_repeat_guard) /\ (_record ok e m h).(_queue) = h.(_queue) /\
  forall m', (PEER_MESSAGE_DELIVERED, m') ∈ (_record ok e m h).(journal) ->
    (PEER_MESSAGE_DELIVERED, m') ∈ h.(journal) \/ e = PEER_MESSAGE_DELIVERED /\ m' = m.
Proof.
  destruct ok; cbn; split_and!; auto. intros m' [H|H]%elem_of_app; [auto|]. apply list_elem_of_singleton in H as [= -> ->]. auto.
Qed.

Lemma invariant_start : invariant start.
Proof.
  split; cbn; try done; try (intros; set_solver). constructor.
Qed.

(** The queue, the spacing and the record of a delivery that passes the gates. *)
Lemma spaced_snoc s i m :
  invariant s ->
  (forall last, s.(host).(_repeat_guard).(_last_seen) !! key m = Some last -> PEER_REPEAT_WINDOW_SECONDS <= s.(clock) - last) ->
  spaced (s.(accepted) ++ [(i, s.(clock), m)]).
Proof.
  intros Hi Hw j k a b Hjk Ha Hb Hs Ht.
  apply lookup_snoc_tasks in Hb as [Hb|[-> ->]].
  - apply lookup_snoc_tasks in Ha as [Ha|[-> ->]]; [by eapply (inv_spaced _ Hi j k)|]. apply lookup_lt_Some in Hb. lia.
  - apply lookup_snoc_tasks in Ha as [Ha|[-> _]]; [|lia]. destruct a as [[ia ta] ma]. cbn in *.
    apply list_elem_of_lookup_2 in Ha. apply (inv_attempted _ Hi) in Ha. destruct (inv_last _ Hi _ _ Ha) as (t' & Hl & Hle).
    assert (key ma = key m) as E by (unfold key; congruence). rewrite E in Hl. specialize (Hw _ Hl). lia.
Qed.

(** Every answer stays honest when a delivery passes the gates. *)
Lemma honest_gate s i m h r :
  invariant s -> s.(tasks) !! i = Some (m, Arriving) -> gate hash s.(clock) m s.(host) = (h, r) ->
  let s' := {| host := h; clock := s.(clock); tasks := <[i := (m, verdict r)]> s.(tasks);
               attempts := s.(attempts) ++ [(s.(clock), m)];
               accepted := s.(accepted) ++ (match r with None => [(i, s.(clock), m)] | Some _ => [] end); handed := s.(handed) |} in
  forall j m' p, s'.(tasks) !! j = Some (m', p) -> honest s' j m' p.
Proof.
  intros Hi Ht Hg. destruct (gate_spec _ _ _ _ _ Hg) as (_ & _ & _ & Hr).
  pose proof (accepted_fresh s i m Hi (or_intror Ht)) as Hfresh. pose proof (lookup_lt_Some _ _ _ Ht) as Hlt.
  cbn [host clock tasks attempts accepted handed].
  intros j m' p Hp. destruct (decide (i = j)) as [<-|Hne].
  - rewrite list_lookup_insert_eq in Hp by done. injection Hp as <- <-. unfold honest. cbn [accepted].
    destruct r as [[]|]; cbn; rewrite ?app_nil_r.
    + right. destruct Hr as (last & Hl & Hw). destruct (inv_seen _ Hi _ _ Hl) as (m0 & Ha & Hk).
      pose proof (inv_past _ Hi _ _ Ha). rewrite (inv_window _ Hi) in Hw. exists (clock s), last, m0. cbn.
      split_and!; [set_solver|set_solver|done|lia|lia].
    + done.
    + rewrite map_app. set_solver.
  - rewrite list_lookup_insert_ne in Hp by done. apply (honest_mono s); [set_solver| |by apply Hi].
    cbn [accepted]. rewrite map_app, elem_of_app. destruct r; cbn; [rewrite elem_of_nil|rewrite list_elem_of_singleton]; naive_solver.
Qed.

Lemma invariant_gate s i m h r :
  invariant s -> s.(tasks) !! i = Some (m, Arriving) -> gate hash s.(clock) m s.(host) = (h, r) ->
  invariant {| host := h; clock := s.(clock); tasks := <[i := (m, verdict r)]> s.(tasks);
               attempts := s.(attempts) ++ [(s.(clock), m)];
               accepted := s.(accepted) ++ (match r with None => [(i, s.(clock), m)] | Some _ => [] end); handed := s.(handed) |}.
Proof.
  intros Hi Ht Hg. destruct (gate_spec _ _ _ _ _ Hg) as (Hguard & Hjournal & Hqueue & Hr).
  pose proof (accepted_fresh s i m Hi (or_intror Ht)) as Hfresh. pose proof (lookup_lt_Some _ _ _ Ht) as Hlt.
  split; cbn [host clock tasks attempts accepted handed]; rewrite ?Hguard, ?Hjournal, ?Hqueue; cbn [window_seconds _last_seen].
  - apply Hi.
  - pose proof (inv_capacity _ Hi). destruct r; [by rewrite app_nil_r|]. destruct Hr as [Hr _]. rewrite len_app. change (len [m]) with 1. lia.
  - rewrite map_app, <- (inv_queue _ Hi), <- app_assoc. by destruct r.
  - intros t m' [H|H]%elem_of_app; [by eapply inv_past|]. apply list_elem_of_singleton in H as [= -> ->]. lia.
  - intros k t [[<- <-]|[_ H]]%lookup_insert_Some; [exists m; set_solver|].
    destruct (inv_seen _ Hi k t H) as (m' & H1 & H2). exists m'. set_solver.
  - intros t m' H. destruct (decide (key m = key m')) as [E|E].
    + rewrite E, lookup_insert_eq. eexists. split; [done|]. apply elem_of_app in H as [H|H]; [by eapply inv_past|].
      apply list_elem_of_singleton in H as [= -> ->]. lia.
    + rewrite lookup_insert_ne by done. apply elem_of_app in H as [H|H]; [by apply (inv_last _ Hi)|].
      apply list_elem_of_singleton in H as [= -> ->]. done.
  - intros j t m' [H|H]%elem_of_app; [apply elem_of_app; left; by eapply inv_attempted|].
    destruct r; [by apply not_elem_of_nil in H|]. apply list_elem_of_singleton in H as [= -> -> ->]. set_solver.
  - destruct r; [rewrite app_nil_r; apply Hi|]. apply spaced_snoc; [done|]. intros last Hlast.
    destruct Hr as [_ Hr]. rewrite <- (inv_window _ Hi). auto.
  - rewrite map_app. destruct r; [rewrite app_nil_r; apply Hi|]. apply list.NoDup_app. split_and!; [apply Hi| |apply NoDup_singleton].
    intros x Hx Hx'. cbn in Hx'. apply list_elem_of_singleton in Hx' as ->. done.
  - intros j t m' [H|H]%elem_of_app.
    + destruct (inv_tasks _ Hi j t m' H) as (p & Hp). destruct (decide (i = j)) as [<-|]; [|by rewrite list_lookup_insert_ne by done; eauto].
      rewrite list_lookup_insert_eq by done. rewrite Ht in Hp. simplify_eq. eauto.
    + destruct r; [by apply not_elem_of_nil in H|]. apply list_elem_of_singleton in H as [= -> -> ->].
      rewrite list_lookup_insert_eq by done. eauto.
  - by apply honest_gate.
  - intros m' H. rewrite map_app, elem_of_app. left. by apply (inv_journal _ Hi).
Qed.

Ltac quiet s0 :=
  apply (invariant_quiet s0); cbn; rewrite ?app_nil_r; eauto using inv_honest, inv_journal; try lia; try done.

Lemma invariant_step s s' : invariant s -> step s s' -> invariant s'.
Proof.
  intros Hi Hstep. revert Hi. destruct Hstep as [s0 t Ht|s0 m ok|s0 i m h r Ht Hg|s0 i m ok Ht|s0|s0|s0 b]; intros Hi.
  - quiet s0.
  - destruct (record_quiet ok PEER_MESSAGE_RECEIVED m (host s0)) as (H1 & H2 & H3).
    apply (invariant_quiet s0); cbn; rewrite ?H2; eauto; try lia.
    + intros j m' p Hp. exists p. by apply lookup_app_l_Some.
    + intros j m' p [Hp|[-> [= -> ->]]]%lookup_snoc_tasks; [by apply Hi|].
      apply (accepted_fresh s0 _ m Hi). left. by apply lookup_ge_None.
    + intros m' [H|[? _]]%H3; [by apply (inv_journal _ Hi)|done].
  - by apply invariant_gate.
  - destruct (record_quiet ok PEER_MESSAGE_DELIVERED m (host s0)) as (H1 & H2 & H3).
    pose proof (inv_honest _ Hi _ _ _ Ht) as Hq. pose proof (lookup_lt_Some _ _ _ Ht) as Hlt.
    apply (invariant_quiet s0); cbn; rewrite ?H2; eauto; try lia.
    + intros j m' p Hp. destruct (decide (i = j)) as [<-|]; [|rewrite list_lookup_insert_ne by done; eauto].
      rewrite list_lookup_insert_eq by done. simplify_eq. eauto.
    + intros j m' p Hp. destruct (decide (i = j)) as [<-|]; [|rewrite list_lookup_insert_ne in Hp by done; by apply Hi].
      rewrite list_lookup_insert_eq in Hp by done. simplify_eq. by left.
    + intros m' [H|[_ ->]]%H3; [by apply (inv_journal _ Hi)|]. cbn in Hq.
      apply list_elem_of_fmap in Hq as ([[i' t] m'] & -> & Hq). destruct (inv_tasks _ Hi _ _ _ Hq) as (p & Hp). cbn in *.
      simplify_eq. by apply (list_elem_of_fmap_2 snd) in Hq.
  - quiet s0. len_lia.
  - unfold _provide_queued_inputs. destruct (nonempty (_queue (host s0))) eqn:E.
    + quiet s0. len_lia.
    + quiet s0. by destruct (_queue (host s0)); rewrite ?app_nil_r.
  - quiet s0.
Qed.

Lemma invariant_reachable s : reachable s -> invariant s.
Proof. induction 1; [apply invariant_start|by eapply invariant_step]. Qed.

(** C16: however deliveries, turns and the clock interleave, at most fifty
    messages wait; what was accepted is exactly what the turns took over and
    what still waits, in order and each once; one sender's identical texts are
    accepted at least a window apart; and the answers are honest up to the
    documented exception: a refused message is not queued, and a message
    answered as accepted is queued unless the same sender and hash was seen less
    than a window before.  Only accepted messages are recorded as delivered. *)
Theorem inbox_gates_hold s : reachable s ->
  len s.(host).(_queue) <= MAX_QUEUED_PEER_MESSAGES /\
  s.(handed) ++ s.(host).(_queue) = map snd s.(accepted) /\ NoDup (map accepted_task s.(accepted)) /\
  spaced s.(accepted) /\
  (forall i m p, s.(tasks) !! i = Some (m, p) -> honest s i m p) /\
  (forall m, (PEER_MESSAGE_DELIVERED, m) ∈ s.(host).(journal) -> m ∈ map snd s.(accepted)).
Proof. intros Hs. destruct (invariant_reachable s Hs). by split_and!. Qed.
End Steps.

(** ** Instances *)

Definition hello (t : str) : PeerMessage :=
  {| message_id := lit "m"; sender_session_id := lit "s1"; sender_title := lit "One"; text := t; reply_to := None; created_at := [] |}.

(** Schedules: an action that cannot be taken is skipped. *)
Inductive action := Arrive (m : PeerMessage) | Gate (i : nat) | Finish (i : nat) | Clock (t : Z) | Pop.
Definition act (hash : str -> Z) (s : system) (a : action) : system :=
  match a with
  | Arrive m =>
      {| host := _record true PEER_MESSAGE_RECEIVED m s.(host); clock := s.(clock); tasks := s.(tasks) ++ [(m, Arriving)];
         attempts := s.(attempts); accepted := s.(accepted); handed := s.(handed) |}
  | Gate i =>
      match s.(tasks) !! i with
      | Some (m, Arriving) =>
          let '(h, r) := gate hash s.(clock) m s.(host) in
          {| host := h; clock := s.(clock); tasks := <[i := (m, verdict r)]> s.(tasks);
             attempts := s.(attempts) ++ [(s.(clock), m)];
             accepted := s.(accepted) ++ (match r with None => [(i, s.(clock), m)] | Some _ => [] end); handed := s.(handed) |}
      | _ => s
      end
  | Finish i =>
      match s.(tasks) !! i with
      | Some (m, Enqueued) =>
          {| host := _record true PEER_MESSAGE_DELIVERED m s.(host); clock := s.(clock);
             tasks := <[i := (m, Answered ACCEPTED)]> s.(tasks); attempts := s.(attempts); accepted := s.(accepted);
             handed := s.(handed) |}
      | _ => s
      end
  | Clock t =>
      if s.(clock) <=? t then
        {| host := s.(host); clock := t; tasks := s.(tasks); attempts := s.(attempts); accepted := s.(accepted);
           handed := s.(handed) |}
      else s
  | Pop =>
      {| host := fst (pop_all s.(host)); clock := s.(clock); tasks := s.(tasks); attempts := s.(attempts);
         accepted := s.(accepted); handed := s.(handed) ++ s.(host).(_queue) |}
  end.

Lemma schedule_reachable hash l : forall s, reachable hash s -> reachable hash (foldl (act hash) s l).
Proof.
  induction l as [|a l IH]; intros s Hs; [done|]. apply IH. destruct a as [m|i|i|t|]; cbn [act].
  - eapply reach_step; [done|]. apply step_arrive.
  - destruct (tasks s !! i) as [[m []]|] eqn:E; [|done..]. destruct (gate hash (clock s) m (host s)) as [h r] eqn:Eg.
    eapply reach_step; [done|]. by apply step_gate.
  - destruct (tasks s !! i) as [[m []]|] eqn:E; [done| |done..]. eapply reach_step; [done|]. by eapply step_finish.
  - destruct (Z.leb_spec (clock s) t); [|done]. eapply reach_step; [done|]. by apply step_clock.
  - eapply reach_step; [done|]. apply step_pop.
Qed.

(** The same text twice: the second one is dropped, and answered as accepted. *)
Lemma inbox_gates_hold_witness :
  let s := foldl (act len) start [Arrive (hello (lit "a")); Arrive (hello (lit "a")); Gate 0; Clock 5; Gate 1; Finish 0; Pop] in
  reachable len s /\ map snd s.(tasks) = [Answered ACCEPTED; Answered ACCEPTED] /\ map text s.(handed) = [lit "a"] /\
  s.(handed) ++ s.(host).(_queue) = map snd s.(accepted).
Proof.
  intros s. assert (reachable len s) as H by (apply schedule_reachable, reach_start).
  split; [exact H|]. split; [by vm_compute|]. split; [by vm_compute|]. apply (inbox_gates_hold len s H).
Defined.

(** A message refused because the queue is full is remembered by the guard: the
    sender that tries again within the window, once there is room, is told that
    it was accepted, and it is queued nowhere. *)
Theorem retry_after_refusal_lost hash t0 t1 h m :
  50 <= len h.(_queue) -> h.(_repeat_guard).(_last_seen) !! (m.(sender_session_id), hash m.(text)) = None ->
  t1 - t0 < h.(_repeat_guard).(window_seconds) ->
  let '(h1, o1) := deliver_inbound hash (true, true) t0 h m in
  let '(h2, _) := pop_all h1 in
  let '(h3, o3) := deliver_inbound hash (true, true) t1 h2 m in
  o1 = REFUSED /\ o3 = ACCEPTED /\ h1.(_queue) = h.(_queue) /\ h3.(_queue) = [].
Proof.
  intros Hq Hs Ht. unfold deliver_inbound, gate, allow, recipient_queue_full. cbn. rewrite Hs. cbn.
  destruct (Z.leb_spec MAX_QUEUED_PEER_MESSAGES (len (_queue h))); [|unfold MAX_QUEUED_PEER_MESSAGES in *; lia]. cbn.
  rewrite lookup_insert_eq. destruct (Z.ltb_spec (t1 - t0) (window_seconds (_repeat_guard h))); [|lia]. done.
Qed.
