(* ===== verification/Projection.v ===== *)
(** * The presentation projection

    Models [kolega_code/session/projection.py]: the fold that turns the events of
    a session into what a frontend shows.  The state of the source is one object;
    here its fields are in three records, the transcript with its lookups, the
    terminal, and the rest.  An item that a handler changes in place is changed at
    its position.

    The conversions [int] and [float] of a text, and of a number to a float, are
    parameters, and so are the references to artifacts. *)

From stdpp Require Import base gmap list strings numbers.
From Stdlib Require Import ZArith Lia.
From S2P Require Import Prelude PyStr PyVal Json.

Definition TERMINAL_BUFFER_CHARS : Z := 2000000.
Definition LOG_BUFFER_LINES : Z := 2000.
Definition TERMINAL_MAX_PARTS : Z := 1024.
Definition TERMINAL_MAX_DROPPED_PREFIX : Z := 512 * 1024.

Inductive event_kind :=
| SYSTEM_MESSAGE | CHAT_MESSAGE | LOG_MESSAGE | TERMINAL_COMMAND | TERMINAL_OUTPUT | TERMINAL_LAUNCHED | TERMINAL_CLOSED
| BROWSER_LAUNCHED | BROWSER_CLOSED | STATUS_UPDATE | LLM_STATUS_UPDATE | LLM_ERROR | LLM_REQUEST | CREDIT_ALERT
| LLM_CONTEXT_UPDATE | COMPACTION_STATUS | TOOL_STREAMING_UPDATE | FILE_EDIT_PREVIEW | MEMORY_SUGGESTIONS
| ASSISTANT_DELTA | THINKING_DELTA | TURN_STARTED | TURN_ENDED | STREAM_TRUNCATED | CONTROL_REQUESTED | CONTROL_RESOLVED
| PEER_MESSAGE_RECEIVED | PEER_MESSAGE_DELIVERED
| Unknown (event_type : str).

Inductive item_kind := user | peer_message | assistant | thinking | tool | system | workflow.
#[global] Instance item_kind_eq_dec : EqDecision item_kind.
Proof. solve_decision. Defined.

Inductive display := DisplayCommand (command : str) | DisplayPaths (paths : list str).

Inductive projection_error :=
| OutOfOrder (seq last_seq : Z)       (* ProjectionError *)
| ValueError                          (* a conversion of a malformed field *)
| IndexError.

Abbreviation dict := (list (str * value)).

Section Projection.
Context {artifact : Type}.
Variable repr : value -> str.
Variable int_of_text : str -> option Z.
Variable to_float : value -> option value.
Variable dict_of_other : value -> option dict.

Record AgentEvent := {
  uuid : str;
  event_type : event_kind;
  content : dict;
  is_streaming : bool;
  sub_agent_info : option dict;
  seq : option Z;
  event_ms : Z;
  event_artifacts : list artifact
}.

Record ConversationItem := {
  kind : item_kind;
  text : str;
  complete : bool;
  stream_id : option str;
  tool_name : option str;
  tool_call_id : option str;
  status : option str;
  tone : option str;
  sub_agent : option str;
  item_seq : option Z;
  item_ms : Z;
  artifacts : list artifact;
  edit_preview : option dict;
  tool_subject : option str;
  tool_display : option display
}.
(** [ConversationItem(kind=..., text=...)] with the other fields as declared. *)
Definition item (k : item_kind) (t : str) : ConversationItem :=
  {| kind := k; text := t; complete := true; stream_id := None; tool_name := None; tool_call_id := None; status := None;
     tone := None; sub_agent := None; item_seq := None; item_ms := 0; artifacts := []; edit_preview := None;
     tool_subject := None; tool_display := None |}.

Record SubAgentActivity := {
  key : str;
  name : str;
  task : str;
  agent_status : str;
  notice : str;
  steps : list ConversationItem;
  last_text : str;
  agent_context : option dict;
  label : str;
  agent_phase : str;
  workflow_run_id : str
}.

Record TurnMarker := {
  turn_id : str;
  turn_status : str;
  user_text : str;
  started_seq : option Z;
  started_ms : Z;
  ended_ms : option Z
}.

Record PendingPrompt := {
  request_id : str;
  prompt_kind : str;
  payload : dict;
  response : option dict;
  reason : option str;
  prompt_seq : option Z;
  prompt_ms : Z
}.
Definition resolved (p : PendingPrompt) : bool := match p.(reason) with Some _ => true | None => false end.

Record ContextStatus := {
  input_tokens : Z;
  max_tokens : Z;
  usage_percentage : value;
  alert_level : str;
  message : value;
  will_compress_at : Z
}.

Record _PeerMessageRecord := {
  index : nat;
  sender_id : str;
  sender : str;
  body : str;
  delivered : bool
}.

Record Transcript := {
  conversation : list ConversationItem;
  sub_agents : list (str * SubAgentActivity);
  _streams : gmap str nat;
  _tools : gmap str nat;
  _peer_messages : gmap str _PeerMessageRecord;
  _pending_peer_turns : list str
}.

Record Terminal := {
  _terminal_parts : list str;
  _terminal_offset : Z;
  _terminal_chars : Z;
  terminal_truncated : bool
}.

Record PresentationState := {
  transcript : Transcript;
  terminal_state : Terminal;
  turns : list TurnMarker;
  logs : list (str * str);
  edit_previews : list dict;
  context : option ContextStatus;
  compaction : option dict;
  prompts : list PendingPrompt;
  status_line : str;
  activity : str;
  open_browsers : gset str;
  last_seq : Z;
  elapsed_ms : Z;
  recording_truncated : bool;
  unknown_event_types : gset str
}.

Definition empty_state : PresentationState :=
  {| transcript := {| conversation := []; sub_agents := []; _streams := ∅; _tools := ∅; _peer_messages := ∅; _pending_peer_turns := [] |};
     terminal_state := {| _terminal_parts := []; _terminal_offset := 0; _terminal_chars := 0; terminal_truncated := false |};
     turns := []; logs := []; edit_previews := []; context := None; compaction := None; prompts := []; status_line := [];
     activity := lit "idle"; open_browsers := ∅; last_seq := 0; elapsed_ms := 0; recording_truncated := false;
     unknown_event_types := ∅ |}.

(** Assignments to one field. *)
Definition set_transcript (s : PresentationState) t := Build_PresentationState t (terminal_state s) (turns s) (logs s) (edit_previews s) (context s) (compaction s) (prompts s) (status_line s) (activity s) (open_browsers s) (last_seq s) (elapsed_ms s) (recording_truncated s) (unknown_event_types s).
Definition set_terminal (s : PresentationState) t := Build_PresentationState (transcript s) t (turns s) (logs s) (edit_previews s) (context s) (compaction s) (prompts s) (status_line s) (activity s) (open_browsers s) (last_seq s) (elapsed_ms s) (recording_truncated s) (unknown_event_types s).
Definition set_turns (s : PresentationState) t := Build_PresentationState (transcript s) (terminal_state s) t (logs s) (edit_previews s) (context s) (compaction s) (prompts s) (status_line s) (activity s) (open_browsers s) (last_seq s) (elapsed_ms s) (recording_truncated s) (unknown_event_types s).
Definition set_logs (s : PresentationState) l := Build_PresentationState (transcript s) (terminal_state s) (turns s) l (edit_previews s) (context s) (compaction s) (prompts s) (status_line s) (activity s) (open_browsers s) (last_seq s) (elapsed_ms s) (recording_truncated s) (unknown_event_types s).
Definition set_edit_previews (s : PresentationState) l := Build_PresentationState (transcript s) (terminal_state s) (turns s) (logs s) l (context s) (compaction s) (prompts s) (status_line s) (activity s) (open_browsers s) (last_seq s) (elapsed_ms s) (recording_truncated s) (unknown_event_types s).
Definition set_context (s : PresentationState) c := Build_PresentationState (transcript s) (terminal_state s) (turns s) (logs s) (edit_previews s) c (compaction s) (prompts s) (status_line s) (activity s) (open_browsers s) (last_seq s) (elapsed_ms s) (recording_truncated s) (unknown_event_types s).
Definition set_compaction (s : PresentationState) c := Build_PresentationState (transcript s) (terminal_state s) (turns s) (logs s) (edit_previews s) (context s) c (prompts s) (status_line s) (activity s) (open_browsers s) (last_seq s) (elapsed_ms s) (recording_truncated s) (unknown_event_types s).
Definition set_prompts (s : PresentationState) p := Build_PresentationState (transcript s) (terminal_state s) (turns s) (logs s) (edit_previews s) (context s) (compaction s) p (status_line s) (activity s) (open_browsers s) (last_seq s) (elapsed_ms s) (recording_truncated s) (unknown_event_types s).
Definition set_status_line (s : PresentationState) t := Build_PresentationState (transcript s) (terminal_state s) (turns s) (logs s) (edit_previews s) (context s) (compaction s) (prompts s) t (activity s) (open_browsers s) (last_seq s) (elapsed_ms s) (recording_truncated s) (unknown_event_types s).
Definition set_activity (s : PresentationState) t := Build_PresentationState (transcript s) (terminal_state s) (turns s) (logs s) (edit_previews s) (context s) (compaction s) (prompts s) (status_line s) t (open_browsers s) (last_seq s) (elapsed_ms s) (recording_truncated s) (unknown_event_types s).
Definition set_browsers (s : PresentationState) b := Build_PresentationState (transcript s) (terminal_state s) (turns s) (logs s) (edit_previews s) (context s) (compaction s) (prompts s) (status_line s) (activity s) b (last_seq s) (elapsed_ms s) (recording_truncated s) (unknown_event_types s).
Definition set_clock (s : PresentationState) q ms := Build_PresentationState (transcript s) (terminal_state s) (turns s) (logs s) (edit_previews s) (context s) (compaction s) (prompts s) (status_line s) (activity s) (open_browsers s) q ms (recording_truncated s) (unknown_event_types s).
Definition set_recording_truncated (s : PresentationState) b := Build_PresentationState (transcript s) (terminal_state s) (turns s) (logs s) (edit_previews s) (context s) (compaction s) (prompts s) (status_line s) (activity s) (open_browsers s) (last_seq s) (elapsed_ms s) b (unknown_event_types s).
Definition set_unknown (s : PresentationState) u := Build_PresentationState (transcript s) (terminal_state s) (turns s) (logs s) (edit_previews s) (context s) (compaction s) (prompts s) (status_line s) (activity s) (open_browsers s) (last_seq s) (elapsed_ms s) (recording_truncated s) u.

Definition set_conversation (t : Transcript) c := Build_Transcript c (sub_agents t) (_streams t) (_tools t) (_peer_messages t) (_pending_peer_turns t).
Definition set_sub_agents (t : Transcript) a := Build_Transcript (conversation t) a (_streams t) (_tools t) (_peer_messages t) (_pending_peer_turns t).
Definition set_streams (t : Transcript) m := Build_Transcript (conversation t) (sub_agents t) m (_tools t) (_peer_messages t) (_pending_peer_turns t).
Definition set_tools (t : Transcript) m := Build_Transcript (conversation t) (sub_agents t) (_streams t) m (_peer_messages t) (_pending_peer_turns t).
Definition set_peers (t : Transcript) m p := Build_Transcript (conversation t) (sub_agents t) (_streams t) (_tools t) m p.

(** ** Helpers *)

Definition _text_of (e : AgentEvent) (keys : list str) : str :=
  match List.find (fun k => match get e.(content) k with VStr v => nonempty v | _ => false end) keys with
  | Some k => match get e.(content) k with VStr v => v | _ => [] end
  | None => []
  end.
Definition _string_content (e : AgentEvent) (k : str) : str := match get e.(content) k with VStr v => v | _ => [] end.
(** [str(event.content.get(k) or "")], and with another default. *)
Definition text_field (e : AgentEvent) (k : str) : str := str_or_empty repr (get e.(content) k).
Definition str_or (v : value) (d : str) : str := if truthy v then py_str repr v else d.

Definition sub_agent_key (info : option dict) : option str :=
  match info with
  | None | Some [] => None
  | Some d =>
      Some (if truthy (get d (lit "dispatch_id")) then py_str repr (get d (lit "dispatch_id"))
            else if truthy (get d (lit "agent_id")) then py_str repr (get d (lit "agent_id"))
            else str_or (get d (lit "agent_name")) (lit "sub-agent"))
  end.
Definition _sub_agent_key (e : AgentEvent) : option str := sub_agent_key e.(sub_agent_info).

Definition new_activity (k : str) (info : dict) : SubAgentActivity :=
  {| key := k; name := str_or (get info (lit "agent_name")) k; task := str_or_empty repr (get info (lit "task"));
     agent_status := lit "running"; notice := []; steps := []; last_text := []; agent_context := None;
     label := str_or_empty repr (get info (lit "label")); agent_phase := str_or_empty repr (get info (lit "phase"));
     workflow_run_id := str_or_empty repr (get info (lit "workflow_run_id")) |}.
(** The activity of a key, added when there is none. *)
Definition _sub_agent (t : Transcript) (k : str) (e : AgentEvent) : SubAgentActivity :=
  match dict_get t.(sub_agents) k with Some a => a | None => new_activity k (default [] e.(sub_agent_info)) end.
Definition store_agent (t : Transcript) (k : str) (a : SubAgentActivity) : Transcript :=
  set_sub_agents t (dict_set t.(sub_agents) k a).

Definition agent_with (a : SubAgentActivity) (st nt : str) (ss : list ConversationItem) (lt : str) (ctx : option dict) : SubAgentActivity :=
  {| key := a.(key); name := a.(name); task := a.(task); agent_status := st; notice := nt; steps := ss; last_text := lt;
     agent_context := ctx; label := a.(label); agent_phase := a.(agent_phase); workflow_run_id := a.(workflow_run_id) |}.
Definition set_steps (a : SubAgentActivity) ss lt : SubAgentActivity :=
  agent_with a a.(agent_status) a.(notice) ss lt a.(agent_context).

Definition item_with (i : ConversationItem) (t : str) (c : bool) (tn : option str) (st : option str) (arts : list artifact)
    (ep : option dict) (ts : option str) (td : option display) : ConversationItem :=
  {| kind := i.(kind); text := t; complete := c; stream_id := i.(stream_id); tool_name := tn; tool_call_id := i.(tool_call_id);
     status := st; tone := i.(tone); sub_agent := i.(sub_agent); item_seq := i.(item_seq); item_ms := i.(item_ms);
     artifacts := arts; edit_preview := ep; tool_subject := ts; tool_display := td |}.
Definition stamped (i : ConversationItem) (e : AgentEvent) (k : option str) : ConversationItem :=
  {| kind := i.(kind); text := i.(text); complete := i.(complete); stream_id := i.(stream_id); tool_name := i.(tool_name);
     tool_call_id := i.(tool_call_id); status := i.(status); tone := i.(tone);
     sub_agent := match k with Some _ => k | None => i.(sub_agent) end; item_seq := e.(seq); item_ms := e.(event_ms);
     artifacts := i.(artifacts); edit_preview := i.(edit_preview); tool_subject := i.(tool_subject);
     tool_display := i.(tool_display) |}.

Definition _append (t : Transcript) (i : ConversationItem) (e : AgentEvent) : Transcript :=
  let k := _sub_agent_key e in
  match k with
  | Some a =>
      let act := _sub_agent t a e in
      store_agent t a (set_steps act (act.(steps) ++ [stamped i e k]) (if nonempty i.(text) then i.(text) else act.(last_text)))
  | None => set_conversation t (t.(conversation) ++ [stamped i e k])
  end.

(** The sequence that [_index_of] and [_resolve] work on. *)
Definition sequence (t : Transcript) (k : option str) : list ConversationItem :=
  match k with
  | Some a => match dict_get t.(sub_agents) a with Some act => act.(steps) | None => t.(conversation) end
  | None => t.(conversation)
  end.
Definition _index_of (t : Transcript) (e : AgentEvent) : nat := pred (length (sequence t (_sub_agent_key e))).
Definition _resolve (t : Transcript) (e : AgentEvent) (i : nat) : option ConversationItem := sequence t (_sub_agent_key e) !! i.
Definition resolve_key (t : Transcript) (e : AgentEvent) (i : option nat) : option ConversationItem := i ← i; _resolve t e i.
(** An assignment to the fields of the item at an index. *)
Definition mutate (t : Transcript) (k : option str) (i : nat) (f : ConversationItem -> ConversationItem) : Transcript :=
  match k with
  | Some a =>
      match dict_get t.(sub_agents) a with
      | Some act => store_agent t a (set_steps act (alter f i act.(steps)) act.(last_text))
      | None => set_conversation t (alter f i t.(conversation))
      end
  | None => set_conversation t (alter f i t.(conversation))
  end.

(** ** The transcript *)

Definition kind_name (k : item_kind) : str :=
  match k with
  | user => lit "user" | peer_message => lit "peer_message" | assistant => lit "assistant" | thinking => lit "thinking"
  | tool => lit "tool" | system => lit "system" | workflow => lit "workflow"
  end.
(** The item of a streamed segment. *)
Definition segment (k : item_kind) (txt : str) (done : bool) (u : str) : ConversationItem :=
  {| kind := k; text := txt; complete := done; stream_id := Some u; tool_name := None; tool_call_id := None; status := None;
     tone := None; sub_agent := None; item_seq := None; item_ms := 0; artifacts := []; edit_preview := None;
     tool_subject := None; tool_display := None |}.
Definition stream_key (k : item_kind) (a : option str) (u : str) : str := kind_name k ++ [58] ++ default [] a ++ [58] ++ u.

Definition _on_assistant_delta (k : item_kind) (t : Transcript) (e : AgentEvent) : Transcript :=
  let txt := _text_of e [lit "text"] in
  let done := truthy (get e.(content) (lit "complete")) in
  let a := _sub_agent_key e in
  let skey := stream_key k a e.(uuid) in
  let closed t := if done then set_streams t (delete skey t.(_streams)) else t in
  match resolve_key t e (t.(_streams) !! skey) with
  | Some _ =>
      closed (mutate t a (default O (t.(_streams) !! skey)) (fun target =>
        item_with target (target.(text) ++ txt) done target.(tool_name) target.(status) target.(artifacts)
          target.(edit_preview) target.(tool_subject) target.(tool_display)))
  | None =>
      if nonempty txt then
        let t := _append t (segment k txt done e.(uuid)) e in
        closed (set_streams t (<[skey := _index_of t e]> t.(_streams)))
      else t
  end.

Definition lifecycle_status (v : str) : str :=
  if str_eqb v (lit "STOPPED") then lit "completed" else if str_eqb v (lit "ERROR") then lit "failed" else lit "running".

Definition tone_item (k : item_kind) (txt : str) (tn st cid : option str) : ConversationItem :=
  {| kind := k; text := txt; complete := true; stream_id := None; tool_name := None; tool_call_id := cid; status := st;
     tone := tn; sub_agent := None; item_seq := None; item_ms := 0; artifacts := []; edit_preview := None;
     tool_subject := None; tool_display := None |}.
(** [x or None]. *)
Definition or_none (s : str) : option str := if nonempty s then Some s else None.

Definition _on_workflow_message (t : Transcript) (e : AgentEvent) (message_type : str) : Transcript :=
  let run := or_none (text_field e (lit "workflow_run_id")) in
  if str_eqb message_type (lit "workflow_start") then
    let name := str_or (get e.(content) (lit "name")) (lit "workflow") in
    let description := text_field e (lit "description") in
    let txt := if nonempty description then name ++ [32; 8212; 32] ++ description else name in
    _append t (tone_item workflow txt (Some (lit "start")) (Some (lit "running")) run) e
  else if str_eqb message_type (lit "workflow_end") then
    let st := str_or (get e.(content) (lit "status")) (lit "completed") in
    let err := text_field e (lit "error") in
    _append t (tone_item workflow (if nonempty err then st ++ lit ": " ++ err else st) (Some (lit "end")) (Some st) run) e
  else
    let txt := _text_of e [lit "text"] in
    if nonempty txt then _append t (tone_item workflow txt (Some (lit "phase")) None run) e else t.

Definition _tool_subject_of (e : AgentEvent) : option str := or_none (_string_content e (lit "tool_subject")).
Definition bounded_path (v : value) : bool := match v with VStr s => (0 <? len s) && (len s <=? 16384) | _ => false end.
Definition _tool_display_of (e : AgentEvent) : option display :=
  match get e.(content) (lit "tool_display") with
  | VDict [(k, v)] =>
      if str_eqb k (lit "command") then
        match v with VStr c => if bounded_path v then Some (DisplayCommand c) else None | _ => None end
      else if str_eqb k (lit "paths") then
        match v with
        | VList l =>
            if (0 <? len l) && (len l <=? 8) && forallb bounded_path l
            then Some (DisplayPaths (map (fun v => match v with VStr s => s | _ => [] end) l)) else None
        | _ => None
        end
      else None
  | _ => None
  end.

Definition tool_key (a : option str) (id : str) : str := default [] a ++ [58] ++ id.
Definition tool_item (txt nm : str) (subj : option str) (disp : option display) (id : str) (st : str) (arts : list artifact)
    : ConversationItem :=
  {| kind := tool; text := txt; complete := true; stream_id := None; tool_name := Some nm; tool_call_id := or_none id;
     status := Some st; tone := None; sub_agent := None; item_seq := None; item_ms := 0; artifacts := arts;
     edit_preview := None; tool_subject := subj; tool_display := disp |}.
(** [x if x is not None else y] and [x or y]. *)
Definition or_else {A} (x y : option A) : option A := match x with Some _ => x | None => y end.
Definition name_or (n : option str) (d : str) : option str := match n with Some (c :: r) => n | _ => Some d end.

(** The transcript, and whether the activity becomes ["running_tool"]. *)
Definition _on_tool_message (t : Transcript) (e : AgentEvent) (st : str) : Transcript * bool :=
  let id := text_field e (lit "tool_call_id") in
  let nm := text_field e (lit "tool_description") in
  let subj := _tool_subject_of e in
  let disp := _tool_display_of e in
  let txt := _text_of e [lit "text"] in
  let a := _sub_agent_key e in
  let tkey := tool_key a id in
  let i := if nonempty id then t.(_tools) !! tkey else None in
  let running := str_eqb st (lit "running") in
  match resolve_key t e i with
  | Some {| kind := tool |} =>
      let t := mutate t a (default O i) (fun x =>
        item_with x (if nonempty txt then txt else x.(text)) x.(complete) (name_or x.(tool_name) nm) (Some st)
          (if nonempty e.(event_artifacts) then e.(event_artifacts) else x.(artifacts)) x.(edit_preview)
          (or_else subj x.(tool_subject)) (or_else disp x.(tool_display))) in
      (if running then t else set_tools t (delete tkey t.(_tools)), false)
  | _ =>
      let t := _append t (tool_item txt nm subj disp id st e.(event_artifacts)) e in
      (if nonempty id && running then set_tools t (<[tkey := _index_of t e]> t.(_tools)) else t, true)
  end.

Definition _on_tool_streaming_update (t : Transcript) (e : AgentEvent) : Transcript :=
  let id := text_field e (lit "tool_call_id") in
  let subj := _tool_subject_of e in
  let disp := _tool_display_of e in
  let a := _sub_agent_key e in
  let tkey := tool_key a id in
  let i := t.(_tools) !! tkey in
  let txt := _text_of e [lit "text"] in
  match resolve_key t e i with
  | None =>
      let t := _append t (tool_item txt (text_field e (lit "tool_name")) subj disp id (lit "running") []) e in
      if nonempty id then set_tools t (<[tkey := _index_of t e]> t.(_tools)) else t
  | Some _ =>
      mutate t a (default O i) (fun x =>
        item_with x (if str_eqb (text_field e (lit "stream_mode")) (lit "replace") then txt else x.(text) ++ txt) x.(complete)
          x.(tool_name) (if truthy (get e.(content) (lit "is_complete")) then Some (lit "done") else x.(status))
          x.(artifacts) x.(edit_preview) (or_else subj x.(tool_subject)) (or_else disp x.(tool_display)))
  end.

(** [_TOOL_STATUS] and [_WORKFLOW_TONES]. *)
Definition _TOOL_STATUS (message_type : str) : option str :=
  if str_eqb message_type (lit "tool_call") then Some (lit "running")
  else if str_eqb message_type (lit "tool_result") then Some (lit "done")
  else if str_eqb message_type (lit "tool_error") then Some (lit "failed") else None.
Definition workflow_type (message_type : str) : bool :=
  str_in message_type [lit "workflow_start"; lit "workflow_phase"; lit "workflow_end"].

Definition message_item (k : item_kind) (txt : str) (arts : list artifact) : ConversationItem :=
  {| kind := k; text := txt; complete := true; stream_id := None; tool_name := None; tool_call_id := None; status := None;
     tone := None; sub_agent := None; item_seq := None; item_ms := 0; artifacts := arts; edit_preview := None;
     tool_subject := None; tool_display := None |}.

Definition _on_chat_message (t : Transcript) (e : AgentEvent) : Transcript * bool :=
  let message_type := str_or (get e.(content) (lit "message_type")) (lit "message") in
  match _TOOL_STATUS message_type with
  | Some st => _on_tool_message t e st
  | None =>
      if workflow_type message_type then (_on_workflow_message t e message_type, false)
      else
        let append_text :=
          let txt := _text_of e [lit "text"] in
          if nonempty txt then
            (_append t (message_item (if str_eqb message_type (lit "message") then assistant else system) txt e.(event_artifacts)) e,
             false)
          else (t, false) in
        match get e.(content) (lit "status"), _sub_agent_key e with
        | VNone, _ | _, None => append_text
        | v, Some a =>
            let act := _sub_agent t a e in
            (store_agent t a (agent_with act (lifecycle_status (py_str repr v)) act.(notice) act.(steps) act.(last_text) act.(agent_context)),
             false)
        end
  end.

(** ** Peer messages *)

Definition _peer_display_text (sender body : str) : str :=
  if nonempty body then [8592; 32] ++ sender ++ [NL] ++ body else [8592; 32] ++ sender.

Definition peer_prefix (r : _PeerMessageRecord) : str :=
  lit "[Peer message from session '" ++ r.(sender) ++ lit "' (id " ++ slice_to r.(sender_id) 8 ++ lit ")]".
(** Whether a turn's text is the wrapper of a record. *)
Definition wraps (r : _PeerMessageRecord) (user_text : str) : bool :=
  nonempty r.(sender_id) && nonempty r.(body) && startswith (peer_prefix r) user_text && endswith ([NL; NL] ++ r.(body)) user_text.
(** The first pending message whose wrapper the text is: what is shown for it,
    and the messages that stay pending. *)
Fixpoint consume (peers : gmap str _PeerMessageRecord) (pending : list str) (user_text : str) : option (str * list str) :=
  match pending with
  | [] => None
  | id :: pending' =>
      match peers !! id with
      | Some r =>
          if wraps r user_text then Some (_peer_display_text r.(sender) r.(body), pending')
          else '(x, p) ← consume peers pending' user_text; Some (x, id :: p)
      | None => '(x, p) ← consume peers pending' user_text; Some (x, id :: p)
      end
  end.
Definition _consume_peer_turn (t : Transcript) (user_text : str) : Transcript * option str :=
  match consume t.(_peer_messages) t.(_pending_peer_turns) user_text with
  | Some (x, p) => (set_peers t t.(_peer_messages) p, Some x)
  | None => (t, None)
  end.

Definition peer_status (b : bool) : str := if b then lit "delivered" else lit "received".

Definition peer_append (t : Transcript) (e : AgentEvent) (id sender_id sender body : str) (is_delivered : bool) : Transcript :=
  let c := t.(conversation) ++ [{| kind := peer_message; text := _peer_display_text sender body; complete := true;
                                   stream_id := None; tool_name := Some sender; tool_call_id := or_none id;
                                   status := Some (peer_status is_delivered); tone := None; sub_agent := None; item_seq := e.(seq);
                                   item_ms := e.(event_ms); artifacts := []; edit_preview := None; tool_subject := None;
                                   tool_display := None |}] in
  let t := set_conversation t c in
  if nonempty id then
    set_peers t (<[id := {| index := pred (length c); sender_id := sender_id; sender := sender; body := body;
                            delivered := is_delivered |}]> t.(_peer_messages))
      (if is_delivered then t.(_pending_peer_turns) ++ [id] else t.(_pending_peer_turns))
  else t.

Definition _on_peer_message (t : Transcript) (e : AgentEvent) (is_delivered : bool) : Transcript :=
  let id := _string_content e (lit "message_id") in
  let sid := _string_content e (lit "sender_id") in
  let title := _string_content e (lit "sender_title") in
  let bd := _text_of e [lit "text"] in
  let new t := peer_append t e id sid (if nonempty title then title else if nonempty sid then sid else lit "peer") bd is_delivered in
  match (if nonempty id then t.(_peer_messages) !! id else None) with
  | None => new t
  | Some r =>
      let r' := {| index := r.(index);
                   sender_id := if nonempty sid then sid else r.(sender_id);
                   sender := if nonempty title then title
                             else if nonempty sid && str_eqb r.(sender) (lit "peer") then sid else r.(sender);
                   body := if nonempty bd then bd else r.(body);
                   delivered := r.(delivered) || is_delivered |} in
      let t := set_peers t (<[id := r']> t.(_peer_messages)) t.(_pending_peer_turns) in
      match t.(conversation) !! r.(index) with
      | Some {| kind := peer_message |} =>
          let t := set_conversation t (alter (fun x =>
            item_with x (_peer_display_text r'.(sender) r'.(body)) x.(complete) (Some r'.(sender)) (Some (peer_status r'.(delivered)))
              x.(artifacts) x.(edit_preview) x.(tool_subject) x.(tool_display)) r.(index) t.(conversation)) in
          if r'.(delivered) && negb r.(delivered) then set_peers t t.(_peer_messages) (t.(_pending_peer_turns) ++ [id]) else t
      | _ => new t
      end
  end.

(** ** The terminal *)

Definition join_parts (parts : list str) : str := concat parts.
Definition terminal (t : Terminal) : str :=
  let txt := join_parts t.(_terminal_parts) in if t.(_terminal_offset) =? 0 then txt else slice_from txt t.(_terminal_offset).

(** [None]: [parts[0]] of an empty deque. *)
Fixpoint _drop_terminal_prefix (parts : list str) (offset chars excess : Z) : option (list str * Z * Z) :=
  if excess <=? 0 then Some (parts, offset, chars)
  else match parts with
       | [] => None
       | p :: parts' =>
           let available := len p - offset in
           if available <=? excess then _drop_terminal_prefix parts' 0 (chars - available) (excess - available)
           else Some (parts, offset + excess, chars - excess)
       end.

Definition _compact_terminal (parts : list str) (offset : Z) : list str :=
  let txt := join_parts parts in
  let txt := if offset =? 0 then txt else slice_from txt offset in
  if nonempty txt then [txt] else [].

Definition _append_terminal (t : Terminal) (txt : str) : result projection_error Terminal :=
  if negb (nonempty txt) then Ok t
  else
    let parts := t.(_terminal_parts) ++ [txt] in
    let chars := t.(_terminal_chars) + len txt in
    '(parts, offset, chars, truncated) ←
      (if TERMINAL_BUFFER_CHARS <? chars then
         match _drop_terminal_prefix parts t.(_terminal_offset) chars (chars - TERMINAL_BUFFER_CHARS) with
         | Some (p, o, c) => Ok (p, o, c, true)
         | None => Raise IndexError
         end
       else Ok (parts, t.(_terminal_offset), chars, t.(terminal_truncated)));
    let compact := (TERMINAL_MAX_PARTS <? len parts) || (TERMINAL_MAX_DROPPED_PREFIX <? offset) in
    Ok {| _terminal_parts := if compact then _compact_terminal parts offset else parts;
          _terminal_offset := if compact then 0 else offset;
          _terminal_chars := chars;
          terminal_truncated := truncated |}.

(** ** The other handlers *)

Definition int_of (v : value) : result projection_error Z :=
  if negb (truthy v) then Ok 0
  else match v with
       | VInt n => Ok n
       | VBool b => Ok (Z.b2z b)
       | VFloat m x => Ok (if 0 <=? x then m * 2 ^ x else Z.quot m (2 ^ (- x)))
       | VStr s => match int_of_text s with Some n => Ok n | None => Raise ValueError end
       | _ => Raise ValueError
       end.
Definition float_of (v : value) : result projection_error value :=
  if truthy v then match to_float v with Some f => Ok f | None => Raise ValueError end else Ok (VFloat 0 0).
Definition dict_or_empty (v : value) : result projection_error dict :=
  if negb (truthy v) then Ok []
  else match v with VDict d => Ok d | _ => match dict_of_other v with Some d => Ok d | None => Raise ValueError end end.

Definition _on_log_message (s : PresentationState) (e : AgentEvent) : PresentationState :=
  let txt := _text_of e [lit "text"; lit "message"] in
  if nonempty txt then
    let l := s.(logs) ++ [(str_or (get e.(content) (lit "level")) (lit "info"), txt)] in
    set_logs s (if LOG_BUFFER_LINES <? len l then slice_from l (len l - LOG_BUFFER_LINES) else l)
  else s.

Definition opt_int (o : option Z) : value := match o with Some n => VInt n | None => VNone end.
Definition _on_file_edit_preview (s : PresentationState) (e : AgentEvent) : PresentationState :=
  let preview := dict_set (dict_set e.(content) (lit "seq") (opt_int e.(seq))) (lit "elapsed_ms") (VInt e.(event_ms)) in
  let a := _sub_agent_key e in
  let preview := match a with Some k => dict_set preview (lit "sub_agent") (VStr k) | None => preview end in
  let s := set_edit_previews s (s.(edit_previews) ++ [preview]) in
  let id := text_field e (lit "tool_call_id") in
  let t := s.(transcript) in
  if nonempty id then
    let i := t.(_tools) !! tool_key a id in
    match resolve_key t e i with
    | Some _ => set_transcript s (mutate t a (default O i) (fun x =>
        item_with x x.(text) x.(complete) x.(tool_name) x.(status) x.(artifacts) (Some preview) x.(tool_subject) x.(tool_display)))
    | None => s
    end
  else s.

Definition _on_context_update (s : PresentationState) (e : AgentEvent) : result projection_error PresentationState :=
  let c := e.(content) in
  it ← int_of (get c (lit "input_tokens"));
  mt ← int_of (get c (lit "max_tokens"));
  up ← float_of (get c (lit "usage_percentage"));
  wc ← int_of (get c (lit "will_compress_at"));
  match _sub_agent_key e with
  | Some a =>
      let act := _sub_agent s.(transcript) a e in
      Ok (set_transcript s (store_agent s.(transcript) a
        (agent_with act act.(agent_status) act.(notice) act.(steps) act.(last_text) (Some c))))
  | None =>
      Ok (set_context s (Some {| input_tokens := it; max_tokens := mt; usage_percentage := up;
                                 alert_level := text_field e (lit "alert_level"); message := get c (lit "message");
                                 will_compress_at := wc |}))
  end.

Definition _on_compaction_status (s : PresentationState) (e : AgentEvent) : PresentationState :=
  match _sub_agent_key e with Some _ => s | None => set_compaction s (Some e.(content)) end.

Definition _on_status_update (s : PresentationState) (e : AgentEvent) : PresentationState :=
  let txt := _text_of e [lit "message"; lit "status"; lit "text"] in
  match _sub_agent_key e with
  | Some a =>
      let act := _sub_agent s.(transcript) a e in
      set_transcript s (store_agent s.(transcript) a
        (agent_with act act.(agent_status) (if nonempty txt then txt else act.(notice)) act.(steps) act.(last_text) act.(agent_context)))
  | None => if nonempty txt then set_status_line s txt else s
  end.

Definition _on_turn_started (s : PresentationState) (e : AgentEvent) : PresentationState :=
  let id := text_field e (lit "turn_id") in
  let ut := text_field e (lit "user_text") in
  let add s := if nonempty ut then set_transcript s (_append s.(transcript) (item user ut) e) else s in
  match _sub_agent_key e with
  | Some _ => add s
  | None =>
      let '(t, peer) := _consume_peer_turn s.(transcript) ut in
      let s := set_transcript s t in
      let s := set_turns s (s.(turns) ++ [{| turn_id := id; turn_status := lit "open";
                                            user_text := match peer with Some (c :: r) => c :: r | _ => ut end;
                                            started_seq := e.(seq); started_ms := e.(event_ms); ended_ms := None |}]) in
      let s := set_activity s (lit "generating") in
      match peer with Some _ => s | None => add s end
  end.

(** The last element that satisfies [f], changed by [g]. *)
Fixpoint update_last {A} (f : A -> bool) (g : A -> A) (l : list A) : list A :=
  match l with
  | [] => []
  | x :: l' => if existsb f l' then x :: update_last f g l' else if f x then g x :: l' else x :: l'
  end.

Definition _on_turn_ended (s : PresentationState) (e : AgentEvent) : PresentationState :=
  match _sub_agent_key e with
  | Some _ => s
  | None =>
      let id := text_field e (lit "turn_id") in
      let st := str_or (get e.(content) (lit "status")) (lit "completed") in
      set_activity (set_turns s (update_last (fun m => str_eqb m.(turn_id) id) (fun m =>
        {| turn_id := m.(turn_id); turn_status := st; user_text := m.(user_text); started_seq := m.(started_seq);
           started_ms := m.(started_ms); ended_ms := Some e.(event_ms) |}) s.(turns))) (lit "idle")
  end.

Definition _on_stream_truncated (s : PresentationState) (e : AgentEvent) : PresentationState :=
  let s := set_recording_truncated s true in
  set_transcript s (_append s.(transcript)
    (tone_item system (lit "Recording stopped here because this session reached its retention limit.") (Some (lit "warning")) None None) e).

Definition _on_control_requested (s : PresentationState) (e : AgentEvent) : result projection_error PresentationState :=
  let id := text_field e (lit "request_id") in
  if negb (nonempty id) || existsb (fun p => str_eqb p.(request_id) id) s.(prompts) then Ok s
  else
    p ← dict_or_empty (get e.(content) (lit "payload"));
    Ok (set_activity (set_prompts s (s.(prompts) ++ [{| request_id := id;
        prompt_kind := str_or (get e.(content) (lit "kind")) (lit "prompt"); payload := p; response := None; reason := None;
        prompt_seq := e.(seq); prompt_ms := e.(event_ms) |}])) (lit "waiting_for_user")).

Definition _on_control_resolved (s : PresentationState) (e : AgentEvent) : PresentationState :=
  let id := text_field e (lit "request_id") in
  let s := set_prompts s (update_last (fun p => str_eqb p.(request_id) id) (fun p =>
    {| request_id := p.(request_id); prompt_kind := p.(prompt_kind); payload := p.(payload);
       response := match get e.(content) (lit "response") with VDict d => Some d | _ => None end;
       reason := Some (str_or (get e.(content) (lit "reason")) (lit "answered"));
       prompt_seq := p.(prompt_seq); prompt_ms := p.(prompt_ms) |}) s.(prompts)) in
  if existsb (fun p => negb (resolved p)) s.(prompts) then s else set_activity s (lit "generating").

Definition _on_system_message (s : PresentationState) (e : AgentEvent) : PresentationState :=
  let txt := _text_of e [lit "text"; lit "message"] in
  if nonempty txt then set_transcript s (_append s.(transcript) (item system txt) e) else s.

(** ** The fold *)

Definition on_transcript (s : PresentationState) (r : Transcript * bool) : PresentationState :=
  let s := set_transcript s r.1 in if r.2 then set_activity s (lit "running_tool") else s.
Definition on_terminal (s : PresentationState) (txt : str) : result projection_error PresentationState :=
  t ← _append_terminal s.(terminal_state) txt; Ok (set_terminal s t).

(** [_HANDLERS]. *)
Definition handle (s : PresentationState) (e : AgentEvent) : result projection_error PresentationState :=
  match e.(event_type) with
  | ASSISTANT_DELTA => Ok (set_transcript s (_on_assistant_delta assistant s.(transcript) e))
  | THINKING_DELTA => Ok (set_transcript s (_on_assistant_delta thinking s.(transcript) e))
  | CHAT_MESSAGE => Ok (on_transcript s (_on_chat_message s.(transcript) e))
  | TOOL_STREAMING_UPDATE => Ok (set_transcript s (_on_tool_streaming_update s.(transcript) e))
  | TERMINAL_COMMAND =>
      let command := _text_of e [lit "command"] in
      s ← (if nonempty command then on_terminal s (lit "$ " ++ command ++ [NL]) else Ok s);
      Ok (set_activity s (lit "running_tool"))
  | TERMINAL_OUTPUT => on_terminal s (_text_of e [lit "display_output"; lit "output"])
  | LOG_MESSAGE => Ok (_on_log_message s e)
  | FILE_EDIT_PREVIEW => Ok (_on_file_edit_preview s e)
  | LLM_CONTEXT_UPDATE => _on_context_update s e
  | COMPACTION_STATUS => Ok (_on_compaction_status s e)
  | LLM_STATUS_UPDATE | STATUS_UPDATE | CREDIT_ALERT => Ok (_on_status_update s e)
  | TURN_STARTED => Ok (_on_turn_started s e)
  | TURN_ENDED => Ok (_on_turn_ended s e)
  | BROWSER_LAUNCHED =>
      let id := text_field e (lit "browser_id") in
      Ok (if nonempty id then set_browsers s ({[id]} ∪ s.(open_browsers)) else s)
  | BROWSER_CLOSED => Ok (set_browsers s (s.(open_browsers) ∖ {[text_field e (lit "browser_id")]}))
  | STREAM_TRUNCATED => Ok (_on_stream_truncated s e)
  | CONTROL_REQUESTED => _on_control_requested s e
  | CONTROL_RESOLVED => Ok (_on_control_resolved s e)
  | SYSTEM_MESSAGE => Ok (_on_system_message s e)
  | PEER_MESSAGE_RECEIVED => Ok (set_transcript s (_on_peer_message s.(transcript) e false))
  | PEER_MESSAGE_DELIVERED => Ok (set_transcript s (_on_peer_message s.(transcript) e true))
  | TERMINAL_LAUNCHED | TERMINAL_CLOSED | MEMORY_SUGGESTIONS | LLM_ERROR | LLM_REQUEST => Ok s
  | Unknown ty => Ok (set_unknown s ({[ty]} ∪ s.(unknown_event_types)))
  end.

Definition fold (s : PresentationState) (e : AgentEvent) : result projection_error PresentationState :=
  let ms := Z.max s.(elapsed_ms) e.(event_ms) in
  match e.(seq) with
  | Some q => if q <=? s.(last_seq) then Raise (OutOfOrder q s.(last_seq)) else handle (set_clock s q ms) e
  | None => handle (set_clock s s.(last_seq) ms) e
  end.

Definition replay (events : list AgentEvent) : result projection_error PresentationState := foldM fold events empty_state.
End Projection.
