(* ===== verification/ProjectionTerminal.v ===== *)
(** * The terminal of the projection: a window on the output *)

From stdpp Require Import base gmap list strings numbers.
From Stdlib Require Import ZArith Lia.
From S2P Require Import Prelude PyStr PyVal Json Projection.

(** ** Dropping from the front of the chunks *)

(** Chunks are never empty, and the dropped prefix lies in the first one. *)
Definition chunked (parts : list str) (offset : Z) : Prop :=
  Forall (fun p => p <> []) parts /\ 0 <= offset /\ match parts with [] => offset = 0 | p :: _ => offset < len p end.

Definition retained (parts : list str) (offset : Z) : str := drop (Z.to_nat offset) (concat parts).

Lemma len_nonempty {A} (l : list A) : l <> [] -> 0 < len l.
Proof. destruct l; [done|]. intros _. len_lia. Qed.

Lemma drop_terminal_prefix parts : forall offset chars excess,
  chunked parts offset -> 0 <= excess <= len (concat parts) - offset ->
  exists parts' offset',
    _drop_terminal_prefix parts offset chars excess = Some (parts', offset', chars - excess) /\ chunked parts' offset' /\
    retained parts' offset' = drop (Z.to_nat excess) (retained parts offset) /\ len parts' <= len parts.
Proof.
  induction parts as [|p parts IH]; intros offset chars excess (Hne & Ho & Hh) He; cbn [_drop_terminal_prefix].
  - change (len (concat [])) with 0 in He. subst offset. assert (excess = 0) as -> by lia. exists [], 0.
    split_and!; try done. by rewrite Z.sub_0_r.
  - destruct (Z.leb_spec excess 0).
    { exists (p :: parts), offset. replace excess with 0 by lia. split_and!; try done. by rewrite Z.sub_0_r. }
    apply list.Forall_cons in Hne as [Hp Hne]. cbn [concat] in He. rewrite len_app in He.
    destruct (Z.leb_spec (len p - offset) excess).
    + destruct (IH 0 (chars - (len p - offset)) (excess - (len p - offset))) as (parts' & offset' & H1 & H2 & H3 & H4).
      { split_and!; [done|lia|]. destruct parts as [|q parts]; [done|]. apply list.Forall_cons in Hne as [Hq _]. by apply len_nonempty. }
      { lia. }
      exists parts', offset'. split_and!; [rewrite H1; do 2 f_equal; lia|exact H2| |len_lia].
      rewrite H3. unfold retained. cbn [concat]. rewrite !drop_drop, drop_app_ge by (unfold len in *; lia).
      f_equal. unfold len in *. lia.
    + exists (p :: parts), (offset + excess). split_and!; [done| | |done].
      { split_and!; [by constructor|lia|lia]. }
      unfold retained. rewrite drop_drop. f_equal. lia.
Qed.

(** ** The window *)

(** The last [TERMINAL_BUFFER_CHARS] characters. *)
Definition window (out : str) : str := drop (Z.to_nat (len out - TERMINAL_BUFFER_CHARS)) out.

Record shows (t : Terminal) (out : str) : Prop := {
  shows_text : terminal t = window out;
  shows_chars : t.(_terminal_chars) = Z.min (len out) TERMINAL_BUFFER_CHARS;
  shows_chunked : chunked t.(_terminal_parts) t.(_terminal_offset);
  shows_parts : len t.(_terminal_parts) <= TERMINAL_MAX_PARTS;
  shows_prefix : t.(_terminal_offset) <= TERMINAL_MAX_DROPPED_PREFIX;
  shows_truncated : t.(terminal_truncated) = (TERMINAL_BUFFER_CHARS <? len out)
}.

Lemma terminal_retained t : 0 <= t.(_terminal_offset) -> terminal t = retained t.(_terminal_parts) t.(_terminal_offset).
Proof.
  intros Ho. unfold terminal, retained, join_parts. destruct (Z.eqb_spec (_terminal_offset t) 0) as [->|]; [done|].
  by rewrite slice_from_pos.
Qed.

Lemma len_window out : len (window out) = Z.min (len out) TERMINAL_BUFFER_CHARS.
Proof. unfold window. rewrite len_drop. unfold TERMINAL_BUFFER_CHARS. len_lia. Qed.

Lemma window_app out txt :
  window (out ++ txt) = drop (Z.to_nat (len (window out) + len txt - TERMINAL_BUFFER_CHARS)) (window out ++ txt).
Proof.
  rewrite len_window. unfold window. rewrite len_app. pose proof (len_nonneg out). pose proof (len_nonneg txt).
  unfold TERMINAL_BUFFER_CHARS in *. destruct (Z.leb_spec (len out) 2000000).
  - replace (Z.to_nat (len out - 2000000)) with O by lia. rewrite drop_0. f_equal. lia.
  - rewrite <- (drop_app_le out txt) by (unfold len in *; lia). rewrite drop_drop. f_equal. lia.
Qed.

Lemma compact_retained parts offset : 0 <= offset ->
  concat (_compact_terminal parts offset) = retained parts offset /\ chunked (_compact_terminal parts offset) 0 /\
  len (_compact_terminal parts offset) <= 1.
Proof.
  intros Ho. unfold _compact_terminal, retained, join_parts.
  assert ((if offset =? 0 then concat parts else slice_from (concat parts) offset) = drop (Z.to_nat offset) (concat parts)) as ->.
  { destruct (Z.eqb_spec offset 0) as [->|]; [done|]. by rewrite slice_from_pos. }
  destruct (drop (Z.to_nat offset) (concat parts)) as [|c r]; cbn [nonempty concat].
  - split_and!; [done| |by cbn]. by split_and!; [constructor| |].
  - rewrite app_nil_r. split_and!; [done| |by cbn]. split_and!; [by repeat constructor|done|len_lia].
Qed.

Lemma shows_built parts offset out :
  chunked parts offset -> retained parts offset = window out -> len parts <= TERMINAL_MAX_PARTS ->
  offset <= TERMINAL_MAX_DROPPED_PREFIX ->
  shows {| _terminal_parts := parts; _terminal_offset := offset; _terminal_chars := Z.min (len out) TERMINAL_BUFFER_CHARS;
           terminal_truncated := TERMINAL_BUFFER_CHARS <? len out |} out.
Proof. intros Hc Hr Hp Ho. split; cbn; try done. rewrite terminal_retained; [done|apply Hc]. Qed.

Lemma append_terminal_shows t out txt : shows t out -> exists t', _append_terminal t txt = Ok t' /\ shows t' (out ++ txt).
Proof.
  intros [Ht Hc Hch Hp Hd Htr]. unfold _append_terminal. destruct txt as [|x txt']; [exists t; rewrite app_nil_r; by split|].
  set (txt := x :: txt'). cbn [nonempty negb]. assert (0 < len txt) by (unfold txt; len_lia).
  destruct Hch as (Hne & Ho & Hh). rewrite terminal_retained in Ht by done.
  assert (chunked (_terminal_parts t ++ [txt]) (_terminal_offset t)) as Hch.
  { split_and!; [apply Forall_app; by repeat constructor|done|]. destruct (_terminal_parts t); cbn in *; [lia|done]. }
  assert (retained (_terminal_parts t ++ [txt]) (_terminal_offset t) = window out ++ txt) as Hr.
  { rewrite <- Ht. unfold retained. rewrite concat_app. cbn [concat]. rewrite app_nil_r. apply drop_app_le.
    destruct (_terminal_parts t) as [|p ps]; cbn in *; [lia|]. rewrite length_app. unfold len in *. lia. }
  pose proof (len_window out) as Hw. pose proof (len_nonneg out). pose proof (len_nonneg (window out)).
  assert (len (concat (_terminal_parts t ++ [txt])) - _terminal_offset t = len (window out) + len txt) as Hlen.
  { apply (f_equal len) in Hr. unfold retained in Hr. rewrite len_drop, len_app in Hr. lia. }
  (* the front is dropped, or not *)
  assert (exists parts offset,
    (if TERMINAL_BUFFER_CHARS <? _terminal_chars t + len txt then
       match _drop_terminal_prefix (_terminal_parts t ++ [txt]) (_terminal_offset t) (_terminal_chars t + len txt)
               (_terminal_chars t + len txt - TERMINAL_BUFFER_CHARS) with
       | Some (p, o, c) => Ok (p, o, c, true)
       | None => Raise IndexError
       end
     else Ok (_terminal_parts t ++ [txt], _terminal_offset t, _terminal_chars t + len txt, terminal_truncated t))
    = Ok (parts, offset, Z.min (len (out ++ txt)) TERMINAL_BUFFER_CHARS, TERMINAL_BUFFER_CHARS <? len (out ++ txt)) /\
    chunked parts offset /\ retained parts offset = window (out ++ txt) /\ (len parts <= len (_terminal_parts t) + 1)) as (parts & offset & -> & Hch' & Hr' & _).
  { rewrite Hc, window_app, Hw, len_app, <- Hr. unfold TERMINAL_BUFFER_CHARS in *.
    destruct (Z.ltb_spec 2000000 (Z.min (len out) 2000000 + len txt)).
    - destruct (drop_terminal_prefix (_terminal_parts t ++ [txt]) (_terminal_offset t) (Z.min (len out) 2000000 + len txt)
        (Z.min (len out) 2000000 + len txt - 2000000)) as (parts & offset & -> & D1 & D2 & D3); [done|lia|].
      exists parts, offset. split_and!; [|exact D1|done|rewrite len_app in D3; change (len [txt]) with 1 in D3; lia].
      rewrite (proj2 (Z.ltb_lt 2000000 (len out + len txt))) by lia. do 3 f_equal; lia.
    - exists (_terminal_parts t ++ [txt]), (_terminal_offset t). split_and!; [|exact Hch| |rewrite len_app; by cbn].
      + rewrite Htr, !(proj2 (Z.ltb_ge 2000000 _)) by lia. do 3 f_equal; lia.
      + match goal with |- context [drop (Z.to_nat ?n)] => replace (Z.to_nat n) with O by lia end. by rewrite drop_0. }
  cbn [mbind result_bind]. eexists. split; [done|]. pose proof (proj1 (proj2 Hch')) as Ho'.
  destruct (compact_retained parts offset Ho') as (K1 & K2 & K3).
  destruct ((TERMINAL_MAX_PARTS <? len parts) || (TERMINAL_MAX_DROPPED_PREFIX <? offset)) eqn:E.
  - apply shows_built; [done| |by etransitivity; [exact K3|]|done]. rewrite <- Hr', <- K1. unfold retained. by rewrite drop_0.
  - apply orb_false_iff in E as [E1%Z.ltb_ge E2%Z.ltb_ge]. by apply shows_built.
Qed.

(** ** Through the fold *)

Section Fold.
Context {artifact : Type}.
Variable repr : value -> str.
Variable int_of_text : str -> option Z.
Variable to_float : value -> option value.
Variable dict_of_other : value -> option (list (str * value)).

Abbreviation event := (@AgentEvent artifact).
Abbreviation state := (@PresentationState artifact).
Abbreviation handle := (@handle artifact repr int_of_text to_float dict_of_other).
Abbreviation fold := (@fold artifact repr int_of_text to_float dict_of_other).
Abbreviation replay := (@replay artifact repr int_of_text to_float dict_of_other).

(** What an event writes to the terminal. *)
Definition output_of (e : event) : str :=
  match e.(event_type) with
  | TERMINAL_COMMAND => let c := _text_of e [lit "command"] in if nonempty c then lit "$ " ++ c ++ [NL] else []
  | TERMINAL_OUTPUT => _text_of e [lit "display_output"; lit "output"]
  | _ => []
  end.

(** A computation whose result satisfies [P], and that does not fail for want of
    chunks. *)
Definition post {A} (P : A -> Prop) (r : result projection_error A) : Prop :=
  match r with Ok a => P a | Raise e => e <> IndexError end.

Lemma post_bind {A B} (P : A -> Prop) (Q : B -> Prop) m (f : A -> result projection_error B) :
  post P m -> (forall a, P a -> post Q (f a)) -> post Q (m ≫= f).
Proof. destruct m; cbn; auto. Qed.

Definition quiet_terminal (s : state) : result projection_error state -> Prop :=
  post (fun s' => terminal_state s' = terminal_state s).

Lemma int_of_post v : post (fun _ => True) (int_of int_of_text v).
Proof. unfold int_of. by repeat case_match. Qed.
Lemma float_of_post v : post (fun _ => True) (float_of to_float v).
Proof. unfold float_of. by repeat case_match. Qed.
Lemma dict_or_empty_post v : post (fun _ => True) (dict_or_empty dict_of_other v).
Proof. unfold dict_or_empty. by repeat case_match. Qed.

Lemma control_requested_quiet (s : state) (e : event) : quiet_terminal s (_on_control_requested repr dict_of_other s e).
Proof.
  unfold _on_control_requested. case_match; [done|]. eapply post_bind; [apply dict_or_empty_post|]. done.
Qed.

Lemma context_update_quiet (s : state) (e : event) : quiet_terminal s (_on_context_update repr int_of_text to_float s e).
Proof.
  unfold _on_context_update. do 2 (eapply post_bind; [apply int_of_post|intros ? _]).
  eapply post_bind; [apply float_of_post|intros ? _]. eapply post_bind; [apply int_of_post|intros ? _]. by case_match.
Qed.

(** Every handler but the two of the terminal leaves it alone. *)
Lemma handle_quiet (s : state) e : output_of e = [] -> quiet_terminal s (handle s e).
Proof.
  intros Ho. unfold Projection.handle. unfold output_of in Ho.
  destruct (event_type e) eqn:E; try done; try apply control_requested_quiet; try apply context_update_quiet;
    unfold on_transcript, _on_log_message, _on_file_edit_preview, _on_compaction_status, _on_status_update, _on_turn_started,
      _on_turn_ended, _on_stream_truncated, _on_control_resolved, _on_system_message;
    try (cbn; repeat case_match; cbn; done).
  - cbv zeta in Ho. destruct (nonempty (_text_of e [lit "command"])); [|done]. by destruct (_text_of e [lit "command"]).
  - rewrite Ho. by cbn.
Qed.

Lemma handle_terminal (s : state) e out : shows (terminal_state s) out ->
  match handle s e with Ok s' => shows (terminal_state s') (out ++ output_of e) | Raise x => x <> IndexError end.
Proof.
  intros Hs. assert (output_of e = [] \/ output_of e <> []) as [Ho|Ho] by (destruct (output_of e); auto).
  - pose proof (handle_quiet s e Ho) as Hq. rewrite Ho, app_nil_r. destruct (handle s e); cbn in Hq; [by rewrite Hq|done].
  - destruct (append_terminal_shows _ out (output_of e) Hs) as (t' & Ht & Hs'). revert Ht Hs' Ho. unfold output_of, Projection.handle, on_terminal.
    destruct (event_type e); try done; intros Ht Hs' Ho.
    + cbv zeta in Ht, Hs', Ho. destruct (nonempty (_text_of e [lit "command"])); [|done]. rewrite Ht. done.
    + rewrite Ht. done.
Qed.

Lemma fold_terminal (s : state) e out : shows (terminal_state s) out ->
  match fold s e with Ok s' => shows (terminal_state s') (out ++ output_of e) | Raise x => x <> IndexError end.
Proof.
  intros Hs. unfold Projection.fold. destruct (seq e) as [q|]; [destruct (q <=? last_seq s); [done|]|]; by apply handle_terminal.
Qed.

(** the terminal of the projection is the last two million characters of
    everything the events wrote, in at most a bounded number of chunks with a
    bounded dropped prefix, and it says that it is truncated exactly when
    something was dropped; dropping never runs out of chunks. *)
Theorem terminal_window events :
  match replay events with
  | Ok s =>
      let out := concat (map output_of events) in
      terminal s.(terminal_state) = window out /\
      s.(terminal_state).(terminal_truncated) = (TERMINAL_BUFFER_CHARS <? len out) /\
      len s.(terminal_state).(_terminal_parts) <= TERMINAL_MAX_PARTS /\
      0 <= s.(terminal_state).(_terminal_offset) <= TERMINAL_MAX_DROPPED_PREFIX
  | Raise e => e <> IndexError
  end.
Proof.
  enough (forall (s : state) out, shows (terminal_state s) out ->
    match foldM fold events s with
    | Ok s' => shows (terminal_state s') (out ++ concat (map output_of events)) | Raise e => e <> IndexError end) as H.
  - specialize (H empty_state []). unfold Projection.replay.
    assert (shows (terminal_state (@empty_state artifact)) []) as H0.
    { split; by vm_compute || by split_and!; [constructor|..]. }
    specialize (H H0). destruct (foldM fold events empty_state) as [s|]; [|done].
    destruct H as [H1 H2 (_ & H3 & _) H4 H5 H6]. cbv zeta. rewrite app_nil_l in *. split_and!; done.
  - induction events as [|e events IH]; intros s out Hs; cbn [foldM map concat]; [by rewrite app_nil_r|].
    pose proof (fold_terminal s e out Hs) as H. destruct (fold s e) as [s'|]; [|done]. rewrite app_assoc. by apply IH.
Qed.
End Fold.
