(* ===== verification/ProjectionFacts.v ===== *)
(** * The transcript of the projection

    The lookups that the fold keeps beside the transcript always point where they
    should, whatever the order of the events: an event of one stream, tool call or
    peer message changes that item and no other. *)

From stdpp Require Import base gmap list strings numbers.
From Stdlib Require Import ZArith Lia.
From S2P Require Import Prelude PyStr PyVal Json JsonFacts Projection.

(** ** Keys *)

(** The key of an agent is not empty and holds no colon: ids are hexadecimal or
    dashed, and agents have simple names. *)
Definition agent_ok (a : option str) : Prop := match a with Some k => k <> [] /\ 58 ∉ k | None => True end.

Lemma colon_split p : forall p' (r r' : str), 58 ∉ p -> 58 ∉ p' -> p ++ 58 :: r = p' ++ 58 :: r' -> p = p' /\ r = r'.
Proof.
  induction p as [|c p IH]; intros [|c' p'] r r' Hp Hp' E; cbn in *; simplify_eq; try done.
  - by rewrite not_elem_of_cons in Hp'; destruct Hp'.
  - by rewrite not_elem_of_cons in Hp; destruct Hp.
  - rewrite not_elem_of_cons in Hp, Hp'. destruct (IH p' r r') as [-> ->]; tauto.
Qed.

Lemma agent_text a : agent_ok a -> 58 ∉ default [] a.
Proof. destruct a as [k|]; cbn; [tauto|]. intros _. apply not_elem_of_nil. Qed.
Lemma agent_inj a b : agent_ok a -> agent_ok b -> default [] a = default [] b -> a = b.
Proof. destruct a, b; cbn; intros; try congruence; exfalso; naive_solver. Qed.

Lemma tool_key_inj a b i j : agent_ok a -> agent_ok b -> tool_key a i = tool_key b j -> a = b /\ i = j.
Proof.
  intros Ha Hb E. destruct (colon_split _ _ i j (agent_text a Ha) (agent_text b Hb) E) as [H ->]. split; [|done]. by apply agent_inj.
Qed.

Lemma kind_name_colon k : 58 ∉ kind_name k.
Proof. destruct k; apply (bool_decide_unpack _); by vm_compute. Qed.
Lemma kind_name_inj k k' : kind_name k = kind_name k' -> k = k'.
Proof. by destruct k, k'. Qed.

Lemma stream_key_inj k k' a b u v : agent_ok a -> agent_ok b -> stream_key k a u = stream_key k' b v -> k = k' /\ a = b /\ u = v.
Proof.
  intros Ha Hb E. unfold stream_key in E. apply colon_split in E as [Hk E]; try apply kind_name_colon.
  apply kind_name_inj in Hk. destruct (tool_key_inj a b u v Ha Hb E) as [-> ->]. done.
Qed.

Section Facts.
Context {artifact : Type}.
Variable repr : value -> str.

Abbreviation entry := (@ConversationItem artifact).
Abbreviation event := (@AgentEvent artifact).
Abbreviation script := (@Transcript artifact).

(** ** Where items are *)

(** The items of the main transcript, and of one agent. *)
Definition items (t : script) (a : option str) : list entry :=
  match a with
  | None => t.(conversation)
  | Some k => match dict_get t.(sub_agents) k with Some act => act.(steps) | None => [] end
  end.
Definition upd (it : option str -> list entry) (a : option str) (l : list entry) : option str -> list entry :=
  fun b => if decide (b = a) then l else it b.

Definition is_stream (k : item_kind) : Prop := k = assistant \/ k = thinking.
Definition RUNNING : option str := Some (lit "running").

(** An open segment is the last of its stream, under its key; a tool call that can
    still change is under its key. *)
Record lookups (it : option str -> list entry) (st tl : gmap str nat) : Prop := {
  wf_stream : forall key i, st !! key = Some i -> exists k a u x,
     key = stream_key k a u /\ is_stream k /\ agent_ok a /\ it a !! i = Some x /\ x.(kind) = k /\ x.(stream_id) = Some u /\
     x.(complete) = false /\ forall j y, (i < j)%nat -> it a !! j = Some y -> y.(kind) = k -> y.(stream_id) <> Some u;
  wf_open : forall a i x, agent_ok a -> it a !! i = Some x -> is_stream x.(kind) -> x.(complete) = false ->
     exists u, x.(stream_id) = Some u /\ st !! stream_key x.(kind) a u = Some i;
  wf_tool : forall key i, tl !! key = Some i -> exists a id x,
     key = tool_key a id /\ agent_ok a /\ id <> [] /\ it a !! i = Some x /\ x.(kind) = tool /\ x.(tool_call_id) = Some id;
  wf_running : forall a i x id, agent_ok a -> it a !! i = Some x -> x.(kind) = tool -> x.(tool_call_id) = Some id -> x.(status) = RUNNING ->
     tl !! tool_key a id = Some i;
  wf_owner : forall a x, x ∈ it a -> x.(sub_agent) = a
}.

(** A peer message with an id has one item, which shows what is known of it; and
    what is pending was delivered. *)
Definition shows_record (x : entry) (id : str) (r : _PeerMessageRecord) : Prop :=
  x.(kind) = peer_message /\ x.(tool_call_id) = Some id /\ x.(text) = _peer_display_text r.(sender) r.(body) /\
  x.(tool_name) = Some r.(sender) /\ x.(status) = Some (peer_status r.(delivered)).
Record peers (it : option str -> list entry) (pm : gmap str _PeerMessageRecord) (pd : list str) : Prop := {
  wf_record : forall id r, pm !! id = Some r -> id <> [] /\ exists x, it None !! r.(index) = Some x /\ shows_record x id r;
  wf_peer : forall a i x id, it a !! i = Some x -> x.(kind) = peer_message -> x.(tool_call_id) = Some id ->
     a = None /\ exists r, pm !! id = Some r /\ r.(index) = i;
  wf_nodup : NoDup pd;
  wf_pending : forall id, id ∈ pd -> exists r, pm !! id = Some r /\ r.(delivered) = true
}.

Lemma lookups_ext it it' st tl : (forall a, it a = it' a) -> lookups it st tl -> lookups it' st tl.
Proof.
  intros E [H1 H2 H3 H4 H5]. split; intros *; try rewrite <- !E; eauto.
  - intros H. destruct (H1 _ _ H) as (k & a & u & x & ?). exists k, a, u, x. by rewrite <- E.
  - intros H. destruct (H3 _ _ H) as (a & id & x & ?). exists a, id, x. by rewrite <- E.
Qed.
Lemma peers_ext it it' pm pd : (forall a, it a = it' a) -> peers it pm pd -> peers it' pm pd.
Proof. intros E [H1 H2 H3 H4]. split; intros *; try rewrite <- !E; eauto. Qed.

Lemma upd_eq it a l : upd it a l a = l.
Proof. unfold upd. by rewrite decide_True. Qed.
Lemma upd_ne it a b l : b <> a -> upd it a l b = it b.
Proof. intros H. unfold upd. by rewrite decide_False. Qed.

Lemma upd_snoc_lookup it a x b i y :
  upd it a (it a ++ [x]) b !! i = Some y -> it b !! i = Some y \/ (b = a /\ i = length (it a) /\ y = x).
Proof.
  destruct (decide (b = a)) as [->|Hb]; [|rewrite upd_ne by done; auto]. rewrite upd_eq.
  destruct (decide (i < length (it a))%nat); [rewrite lookup_app_l by done; auto|].
  rewrite lookup_app_r by lia. intros H. apply list_lookup_singleton_Some in H as [? <-]. right. split_and!; [done|lia|done].
Qed.
Lemma upd_snoc_old it a x b i y : it b !! i = Some y -> upd it a (it a ++ [x]) b !! i = Some y.
Proof.
  intros H. destruct (decide (b = a)) as [->|Hb]; [rewrite upd_eq|by rewrite upd_ne]. by apply lookup_app_l_Some.
Qed.

Lemma upd_insert_lookup it a i x b j y :
  upd it a (<[i := x]> (it a)) b !! j = Some y -> (it b !! j = Some y /\ ~ (b = a /\ j = i)) \/ (b = a /\ j = i /\ y = x).
Proof.
  destruct (decide (b = a)) as [->|Hb]; [|rewrite upd_ne by done; naive_solver]. rewrite upd_eq.
  rewrite list_lookup_insert_Some. naive_solver.
Qed.
Lemma upd_insert_other it a i x b j y : it b !! j = Some y -> ~ (b = a /\ j = i) -> upd it a (<[i := x]> (it a)) b !! j = Some y.
Proof.
  intros H Hn. destruct (decide (b = a)) as [->|Hb]; [rewrite upd_eq|by rewrite upd_ne].
  rewrite list_lookup_insert_ne; [done|]. intros ->. by apply Hn.
Qed.
Lemma upd_insert_self it a i x y : it a !! i = Some y -> upd it a (<[i := x]> (it a)) a !! i = Some x.
Proof. intros H. rewrite upd_eq. apply list_lookup_insert_eq. by eapply lookup_lt_Some. Qed.

(** ** Changes that keep the lookups true *)

Section Keep.
Variables (it : option str -> list entry) (st tl : gmap str nat).
Hypothesis W : lookups it st tl.

(** An item at the end, which may be entered in the lookups. *)
Lemma wf_push_at st' tl' a x : agent_ok a -> x.(sub_agent) = a ->
  (forall u, is_stream x.(kind) -> x.(stream_id) = Some u -> st !! stream_key x.(kind) a u = None) ->
  (forall key i, st' !! key = Some i -> st !! key = Some i \/
     i = length (it a) /\ is_stream x.(kind) /\ x.(complete) = false /\ exists u, x.(stream_id) = Some u /\ key = stream_key x.(kind) a u) ->
  (forall key i, st !! key = Some i -> st' !! key = Some i) ->
  (is_stream x.(kind) -> x.(complete) = false ->
     exists u, x.(stream_id) = Some u /\ st' !! stream_key x.(kind) a u = Some (length (it a))) ->
  (forall key i, tl' !! key = Some i -> tl !! key = Some i \/
     i = length (it a) /\ x.(kind) = tool /\ exists id, id <> [] /\ x.(tool_call_id) = Some id /\ key = tool_key a id) ->
  (forall key i, tl !! key = Some i -> tl' !! key = Some i) ->
  (forall id, x.(kind) = tool -> x.(tool_call_id) = Some id -> x.(status) = RUNNING -> tl' !! tool_key a id = Some (length (it a))) ->
  lookups (upd it a (it a ++ [x])) st' tl'.
Proof.
  intros Ha Hx Hs S1 S2 S3 T1 T2 T3.
  assert (upd it a (it a ++ [x]) a !! length (it a) = Some x) as Hlast.
  { rewrite upd_eq, lookup_app_r by done. by rewrite Nat.sub_diag. }
  split.
  - intros key i [H|(-> & Hk & Hc & u & Hu & ->)]%S1.
    + destruct (wf_stream _ _ _ W _ _ H) as (k & b & u & y & -> & Hk & Hb & Hy & Hky & Hu & Hcy & Hl).
      exists k, b, u, y. split_and!; try done; [by apply upd_snoc_old|].
      intros j z Hj Hz Hkz Huz. apply upd_snoc_lookup in Hz as [Hz|(-> & -> & ->)]; [by eapply Hl|].
      rewrite <- Hkz in H. rewrite (Hs u) in H by congruence. done.
    + exists (kind x), a, u, x. split_and!; try done. intros j z Hj Hz. apply upd_snoc_lookup in Hz as [Hz|(_ & -> & ->)]; [|lia].
      apply lookup_lt_Some in Hz. lia.
  - intros b i y Hb H Hk Hcy. apply upd_snoc_lookup in H as [H|(-> & -> & ->)]; [|auto].
    destruct (wf_open _ _ _ W b i y) as (u & Hu & Hst); [done..|]. eauto.
  - intros key i [H|(-> & Hk & id & Hn & Hid & ->)]%T1.
    + destruct (wf_tool _ _ _ W _ _ H) as (b & id & y & -> & Hb & Hid & Hy & ?).
      exists b, id, y. split_and!; try tauto. by apply upd_snoc_old.
    + by exists a, id, x.
  - intros b i y id Hb H Hk Hid Hr. apply upd_snoc_lookup in H as [H|(-> & -> & ->)]; [|auto].
    apply T2. by eapply (wf_running _ _ _ W).
  - intros b y H. unfold upd in H. case_decide as E; [subst b|by apply (wf_owner _ _ _ W)].
    apply elem_of_app in H as [H|H]; [by apply (wf_owner _ _ _ W)|]. by apply list_elem_of_singleton in H as ->.
Qed.

(** A complete item that is in no lookup. *)
Lemma wf_push a x : agent_ok a -> x.(sub_agent) = a ->
  (is_stream x.(kind) -> x.(complete) = true) ->
  (forall u, is_stream x.(kind) -> x.(stream_id) = Some u -> st !! stream_key x.(kind) a u = None) ->
  (forall id, x.(kind) = tool -> x.(tool_call_id) = Some id -> x.(status) <> RUNNING) ->
  lookups (upd it a (it a ++ [x])) st tl.
Proof.
  intros Ha Hx Hc Hs Ht. apply wf_push_at; eauto; [intros Hk Hf|intros id Hk Hid Hr]; exfalso; [by rewrite Hc in Hf|by eapply Ht].
Qed.

(** A segment that stays open. *)
Lemma wf_push_open a x u : agent_ok a -> x.(sub_agent) = a -> is_stream x.(kind) -> x.(complete) = false ->
  x.(stream_id) = Some u -> st !! stream_key x.(kind) a u = None ->
  lookups (upd it a (it a ++ [x])) (<[stream_key x.(kind) a u := length (it a)]> st) tl.
Proof.
  intros Ha Hx Hk Hc Hu Hs. assert (x.(kind) <> tool /\ x.(kind) <> peer_message) as [Hnt Hnp] by (destruct Hk; split; congruence).
  apply wf_push_at; try done.
  - intros v _ Hv. congruence.
  - intros key i [[E1 E2]|[_ ?]]%lookup_insert_Some; [right; eauto 10|by left].
  - intros key i H. rewrite lookup_insert_ne; [done|]. intros E. rewrite E in Hs. congruence.
  - intros _ _. exists u. by rewrite lookup_insert_eq.
  - intros key i H. by left.
Qed.

(** A tool call that runs. *)
Lemma wf_push_running a x id : agent_ok a -> x.(sub_agent) = a -> x.(kind) = tool -> id <> [] ->
  x.(tool_call_id) = Some id -> tl !! tool_key a id = None ->
  lookups (upd it a (it a ++ [x])) st (<[tool_key a id := length (it a)]> tl).
Proof.
  intros Ha Hx Hk Hn Hid Ht. assert (~ is_stream x.(kind)) as Hs by (rewrite Hk; by intros []).
  apply wf_push_at; try done; try (intros; congruence).
  - intros key i H. by left.
  - intros key i [[E1 E2]|[_ ?]]%lookup_insert_Some; [right; eauto 10|by left].
  - intros key i H. rewrite lookup_insert_ne; [done|]. intros E. rewrite E in Ht. congruence.
  - intros id' _ Hid' _. replace id' with id by congruence. by rewrite lookup_insert_eq.
Qed.

(** A change of an item that leaves what it is found by. *)
Lemma wf_change a i x y : it a !! i = Some x ->
  y.(kind) = x.(kind) -> y.(stream_id) = x.(stream_id) -> y.(tool_call_id) = x.(tool_call_id) -> y.(sub_agent) = x.(sub_agent) ->
  (is_stream x.(kind) -> y.(complete) = x.(complete)) ->
  (forall id, agent_ok a -> x.(kind) = tool -> x.(tool_call_id) = Some id -> y.(status) = RUNNING -> tl !! tool_key a id = Some i) ->
  lookups (upd it a (<[i := y]> (it a))) st tl.
Proof.
  intros Hx Hk Hu Hid Ho Hc Ht.
  assert (forall b j z, it b !! j = Some z -> exists z', upd it a (<[i := y]> (it a)) b !! j = Some z' /\
    z'.(kind) = z.(kind) /\ z'.(stream_id) = z.(stream_id) /\ z'.(tool_call_id) = z.(tool_call_id) /\
    (is_stream z.(kind) -> z'.(complete) = z.(complete))) as Hold.
  { intros b j z Hz. destruct (decide (b = a /\ j = i)) as [[-> ->]|Hn].
    - exists y. split; [by eapply upd_insert_self|]. rewrite Hx in Hz. by simplify_eq.
    - exists z. split; [by apply upd_insert_other|done]. }
  assert (forall b j z, upd it a (<[i := y]> (it a)) b !! j = Some z -> exists z', it b !! j = Some z' /\
    z.(kind) = z'.(kind) /\ z.(stream_id) = z'.(stream_id) /\ z.(tool_call_id) = z'.(tool_call_id)) as Hnew.
  { intros b j z [[Hz _]|(-> & -> & ->)]%upd_insert_lookup; eauto 10. }
  split.
  - intros key j H. destruct (wf_stream _ _ _ W _ _ H) as (k & b & u & z & -> & Hs & Hb & Hz & Hkz & Huz & Hcz & Hl).
    destruct (Hold _ _ _ Hz) as (z' & Hz' & E1 & E2 & _ & E3). subst k. exists (kind z), b, u, z'.
    split_and!; try done; [congruence|rewrite E3; done|].
    intros j' w Hj Hw Hkw. destruct (Hnew _ _ _ Hw) as (w' & Hw' & F1 & F2 & _). rewrite F2. apply (Hl j' w'); congruence.
  - intros b j z Hb Hz Hs Hcz. apply upd_insert_lookup in Hz as [[Hz _]|(-> & -> & ->)]; [by apply (wf_open _ _ _ W)|].
    rewrite Hk in *. rewrite Hu. rewrite Hc in Hcz by done. by apply (wf_open _ _ _ W).
  - intros key j H. destruct (wf_tool _ _ _ W _ _ H) as (b & id & z & -> & Hb & Hn & Hz & Hkz & Hiz).
    destruct (Hold _ _ _ Hz) as (z' & Hz' & E1 & _ & E2 & _). exists b, id, z'. split_and!; try done; congruence.
  - intros b j z id Hb Hz Hkz Hiz Hr. apply upd_insert_lookup in Hz as [[Hz _]|(-> & -> & ->)]; [by eapply (wf_running _ _ _ W)|].
    apply Ht; congruence.
  - intros b z Hz. apply list_elem_of_lookup in Hz as (j & Hz). apply upd_insert_lookup in Hz as [[Hz _]|(-> & -> & ->)].
    + apply (wf_owner _ _ _ W). by eapply list_elem_of_lookup_2.
    + rewrite Ho. apply (wf_owner _ _ _ W). by eapply list_elem_of_lookup_2.
Qed.

(** The segment under a key is closed. *)
Lemma wf_close a i x y u : agent_ok a -> it a !! i = Some x -> is_stream x.(kind) -> x.(stream_id) = Some u ->
  st !! stream_key x.(kind) a u = Some i ->
  y.(kind) = x.(kind) -> y.(stream_id) = x.(stream_id) -> y.(tool_call_id) = x.(tool_call_id) -> y.(sub_agent) = x.(sub_agent) ->
  y.(complete) = true ->
  lookups (upd it a (<[i := y]> (it a))) (delete (stream_key x.(kind) a u) st) tl.
Proof.
  intros Ha Hx Hs Hu Hst Hk Hsu Hid Ho Hc.
  set (z := {| kind := y.(kind); text := y.(text); complete := x.(complete); stream_id := y.(stream_id); tool_name := y.(tool_name);
     tool_call_id := y.(tool_call_id); status := y.(status); tone := y.(tone); sub_agent := y.(sub_agent); item_seq := y.(item_seq);
     item_ms := y.(item_ms); artifacts := y.(artifacts); edit_preview := y.(edit_preview); tool_subject := y.(tool_subject);
     tool_display := y.(tool_display) |}).
  (* the same change with the segment left open, then closed *)
  assert (lookups (upd it a (<[i := z]> (it a))) st tl) as Z.
  { apply (wf_change a i x z); try done. intros; destruct Hs; congruence. }
  assert (forall b j w, upd it a (<[i := y]> (it a)) b !! j = Some w -> (b, j) <> (a, i) -> upd it a (<[i := z]> (it a)) b !! j = Some w) as Hsame.
  { intros b j w [[Hw Hn]|(-> & -> & _)]%upd_insert_lookup Hne; [by apply upd_insert_other|done]. }
  assert (forall b j w, upd it a (<[i := z]> (it a)) b !! j = Some w -> (b, j) <> (a, i) -> upd it a (<[i := y]> (it a)) b !! j = Some w) as Hback.
  { intros b j w [[Hw Hn]|(-> & -> & _)]%upd_insert_lookup Hne; [by apply upd_insert_other|done]. }
  assert (upd it a (<[i := y]> (it a)) a !! i = Some y) as Hy by (by eapply upd_insert_self).
  assert (upd it a (<[i := z]> (it a)) a !! i = Some z) as Hz by (by eapply upd_insert_self).
  assert (forall b j w, upd it a (<[i := y]> (it a)) b !! j = Some w -> (b, j) = (a, i) /\ w = y \/
    upd it a (<[i := z]> (it a)) b !! j = Some w /\ (b, j) <> (a, i)) as Hcase.
  { intros b j w Hw. destruct (decide ((b, j) = (a, i))) as [[= -> ->]|]; [left; split; congruence|right; auto]. }
  split.
  - intros key j [Hne H]%lookup_delete_Some. destruct (wf_stream _ _ _ Z _ _ H) as (k & b & v & w & -> & Hk' & Hb & Hw & Hkw & Hv & Hcw & Hl).
    assert ((b, j) <> (a, i)) as Hn. { intros [= -> ->]. rewrite Hz in Hw. injection Hw as <-. unfold z in Hkw, Hv. cbn in Hkw, Hv. apply Hne. f_equal; congruence. }
    exists k, b, v, w. split_and!; try done; [by apply Hback|]. intros j' w' Hj Hw' Hkw'.
    destruct (Hcase _ _ _ Hw') as [[[= -> ->] ->]|[Hw2 _]]; [|by eapply Hl]. by apply (Hl i z).
  - intros b j w Hb Hw Hkw Hcw. destruct (Hcase _ _ _ Hw) as [[_ ->]|[Hw2 Hn]]; [congruence|].
    destruct (wf_open _ _ _ Z b j w) as (v & Hv & Hs'); [done..|]. exists v. split; [done|].
    rewrite lookup_delete_ne; [done|]. intros E. apply stream_key_inj in E as (E1 & <- & <-); try done. rewrite E1, Hs' in Hst. congruence.
  - intros key j H. destruct (wf_tool _ _ _ Z _ _ H) as (b & id & w & -> & Hb & Hn & Hw & Hkw & Hiw).
    exists b, id, w. split_and!; try done. apply Hback; [done|]. intros [= -> ->]. rewrite Hz in Hw. injection Hw as <-. unfold z in Hkw. cbn in Hkw. destruct Hs; congruence.
  - intros b j w id Hb Hw Hkw Hiw Hr. destruct (Hcase _ _ _ Hw) as [[_ ->]|[Hw2 _]]; [destruct Hs; congruence|by eapply (wf_running _ _ _ Z)].
  - intros b w Hw. apply list_elem_of_lookup in Hw as (j & Hw). destruct (Hcase _ _ _ Hw) as [[[= -> ->] ->]|[Hw2 _]].
    + rewrite Ho. apply (wf_owner _ _ _ W). by eapply list_elem_of_lookup_2.
    + apply (wf_owner _ _ _ Z). by eapply list_elem_of_lookup_2.
Qed.

(** A tool call that does not run is forgotten. *)
Lemma wf_forget a id : agent_ok a ->
  (forall i x, tl !! tool_key a id = Some i -> it a !! i = Some x -> x.(status) <> RUNNING) ->
  lookups it st (delete (tool_key a id) tl).
Proof.
  intros Ha Hr. destruct W. split; auto.
  - intros key i [_ H]%lookup_delete_Some. eauto.
  - intros b i x id' Hb Hx Hk Hid Hs. rewrite lookup_delete_ne; [by eapply wf_running0|].
    intros E. apply tool_key_inj in E as [<- <-]; [|done..]. eapply Hr; [|done|done]. by eapply wf_running0.
Qed.
End Keep.

(** ** Peer messages *)

Section Peers.
Variables (it : option str -> list entry) (pm : gmap str _PeerMessageRecord) (pd : list str).
Hypothesis P : peers it pm pd.

(** A change of the items that leaves the peer messages. *)
Lemma peers_same it' :
  (forall a i x id, x.(kind) = peer_message -> x.(tool_call_id) = Some id -> it' a !! i = Some x <-> it a !! i = Some x) -> peers it' pm pd.
Proof.
  intros E. split.
  - intros id r H. destruct (wf_record _ _ _ P _ _ H) as (Hn & x & Hx & Hk & Hid & ?). split; [done|].
    exists x. split; [by apply (E None _ x id)|done].
  - intros a i x id H Hk Hid. apply (E a i x id) in H; [|done..]. by eapply (wf_peer _ _ _ P).
  - apply P.
  - apply P.
Qed.

Lemma peers_push a x : (forall id, x.(kind) = peer_message -> x.(tool_call_id) <> Some id) -> peers (upd it a (it a ++ [x])) pm pd.
Proof.
  intros Hn. apply peers_same. intros b i y id Hk Hid. split; [|by apply upd_snoc_old].
  intros [H|(-> & -> & ->)]%upd_snoc_lookup; [done|]. by destruct (Hn id).
Qed.
Lemma peers_change a i x y : it a !! i = Some x -> x.(kind) <> peer_message -> y.(kind) = x.(kind) ->
  peers (upd it a (<[i := y]> (it a))) pm pd.
Proof.
  intros Hx Hn Hk. apply peers_same. intros b j z id Hz Hid. split.
  - intros [[H _]|(-> & -> & ->)]%upd_insert_lookup; [done|congruence].
  - intros H. apply upd_insert_other; [done|]. intros [-> ->]. congruence.
Qed.

(** A message seen for the first time, with or without its id. *)
Lemma peers_new x id r : id <> [] -> pm !! id = None -> r.(index) = length (it None) -> shows_record x id r ->
  peers (upd it None (it None ++ [x])) (<[id := r]> pm) (if r.(delivered) then pd ++ [id] else pd).
Proof.
  intros Hid Hn Hi Hx.
  assert (id ∉ pd) as Hpd. { intros H. destruct (wf_pending _ _ _ P _ H) as (r' & E & _). congruence. }
  split.
  - intros id' r' [[<- <-]|[Hne H]]%lookup_insert_Some.
    + split; [done|]. exists x. split; [|done]. rewrite upd_eq, Hi, lookup_app_r by done. by rewrite Nat.sub_diag.
    + destruct (wf_record _ _ _ P _ _ H) as (? & y & Hy & ?). split; [done|]. exists y. split; [by apply upd_snoc_old|done].
  - intros a i y id' Hy Hk Hy'. apply upd_snoc_lookup in Hy as [Hy|(-> & -> & ->)].
    + destruct (wf_peer _ _ _ P _ _ _ _ Hy Hk Hy') as (-> & r' & Hr & <-). split; [done|]. exists r'.
      rewrite lookup_insert_ne; [done|]. intros ->. congruence.
    + split; [done|]. exists r. destruct Hx as (_ & E & _). replace id' with id by congruence. by rewrite lookup_insert_eq.
  - destruct (delivered r); [|by apply P]. apply list.NoDup_app. split_and!; [by apply P| |by apply NoDup_singleton].
    intros z Hz ->%list_elem_of_singleton. done.
  - intros id' H. assert (id' ∈ pd \/ (id' = id /\ delivered r = true)) as [H'|[-> Hd]].
    { destruct (delivered r); [|by left]. apply elem_of_app in H as [?| ->%list_elem_of_singleton]; auto. }
    + destruct (wf_pending _ _ _ P _ H') as (r' & Hr & ?). exists r'. rewrite lookup_insert_ne; [done|]. congruence.
    + exists r. by rewrite lookup_insert_eq.
Qed.

(** More is known of a message. *)
Lemma peers_update id r r' x y : pm !! id = Some r -> r'.(index) = r.(index) -> (r.(delivered) = true -> r'.(delivered) = true) ->
  it None !! r.(index) = Some x -> shows_record y id r' ->
  peers (upd it None (<[r.(index) := y]> (it None))) (<[id := r']> pm) (if r'.(delivered) && negb r.(delivered) then pd ++ [id] else pd).
Proof.
  intros Hr Hi Hd Hx Hy. destruct (wf_record _ _ _ P _ _ Hr) as (Hid & x' & Hx' & Hxr). assert (x' = x) as -> by congruence.
  split.
  - intros id' q [[<- <-]|[Hne H]]%lookup_insert_Some.
    + split; [done|]. exists y. split; [|done]. rewrite Hi. by eapply upd_insert_self.
    + destruct (wf_record _ _ _ P _ _ H) as (? & z & Hz & Hzr). split; [done|]. exists z. split; [|done].
      apply upd_insert_other; [done|]. intros [_ E]. rewrite E, Hx in Hz. destruct Hzr as (_ & E1 & _), Hxr as (_ & E2 & _). congruence.
  - intros a i z id' Hz Hk Hz'. apply upd_insert_lookup in Hz as [[Hz Hn]|(-> & -> & ->)].
    + destruct (wf_peer _ _ _ P _ _ _ _ Hz Hk Hz') as (-> & q & Hq & E). split; [done|].
      exists q. rewrite lookup_insert_ne; [done|]. intros ->. apply Hn. split; [done|congruence].
    + split; [done|]. exists r'. destruct Hy as (_ & E & _). replace id' with id by congruence. by rewrite lookup_insert_eq.
  - destruct (delivered r' && negb (delivered r)) eqn:E; [|by apply P]. apply andb_prop in E as [_ E].
    apply list.NoDup_app. split_and!; [by apply P| |by apply NoDup_singleton].
    intros z Hz ->%list_elem_of_singleton. destruct (wf_pending _ _ _ P _ Hz) as (q & Hq & Hq'). rewrite Hr in Hq. injection Hq as <-. by rewrite Hq' in E.
  - intros id' H. destruct (decide (id' = id)) as [->|Hne].
    + exists r'. rewrite lookup_insert_eq. split; [done|]. destruct (delivered r' && negb (delivered r)) eqn:E.
      * by apply andb_prop in E as [-> _].
      * destruct (wf_pending _ _ _ P _ H) as (q & Hq & Hq'). apply Hd. congruence.
    + assert (id' ∈ pd) as H'.
      { destruct (_ && _); [|done]. apply elem_of_app in H as [?|?%list_elem_of_singleton]; done. }
      destruct (wf_pending _ _ _ P _ H') as (q & Hq & ?). exists q. rewrite lookup_insert_ne; [done|]. congruence.
Qed.

Lemma peers_sublist pd' : sublist pd' pd -> peers it pm pd'.
Proof.
  intros H. destruct P as [H1 H2 H3 H4]. split; [done..| |]; [by eapply sublist_NoDup|].
  intros id Hid. apply H4. by eapply elem_of_sublist.
Qed.
End Peers.

(** ** The operations on the transcript *)

Abbreviation agent_of e := (_sub_agent_key repr e).

Definition good (t : script) : Prop :=
  lookups (items t) t.(_streams) t.(_tools) /\ peers (items t) t.(_peer_messages) t.(_pending_peer_turns).

Lemma items_store (t : script) k act b : items (store_agent t k act) b = upd (items t) (Some k) act.(steps) b.
Proof.
  unfold upd, items, store_agent. destruct b as [c|]; cbn; [|done]. rewrite dict_get_set. unfold str_eqb. case_bool_decide; case_decide; congruence.
Qed.
Lemma items_agent (t : script) k e : items t (Some k) = steps (_sub_agent repr t k e).
Proof. unfold items, _sub_agent. by destruct (dict_get _ k). Qed.

Lemma items_append (t : script) x e b :
  items (_append repr t x e) b = upd (items t) (agent_of e) (items t (agent_of e) ++ [stamped x e (agent_of e)]) b.
Proof.
  unfold _append. destruct (agent_of e) as [k|] eqn:E.
  - rewrite items_store. by rewrite (items_agent t k e).
  - unfold upd. by destruct b.
Qed.
Lemma append_rest (t : script) x e : let t' := _append repr t x e in
  t'.(_streams) = t.(_streams) /\ t'.(_tools) = t.(_tools) /\ t'.(_peer_messages) = t.(_peer_messages) /\
  t'.(_pending_peer_turns) = t.(_pending_peer_turns).
Proof. unfold _append. by destruct (agent_of e). Qed.

Lemma sequence_items (t : script) a i x : items t a !! i = Some x -> sequence t a = items t a.
Proof. destruct a as [k|]; cbn; [|done]. by destruct (dict_get _ k). Qed.
Lemma resolve_items (t : script) e i x : items t (agent_of e) !! i = Some x -> resolve_key repr t e (Some i) = Some x.
Proof. intros H. cbn. unfold _resolve. by rewrite (sequence_items _ _ _ _ H). Qed.

Lemma items_mutate (t : script) a i f x b : items t a !! i = Some x ->
  items (mutate t a i f) b = upd (items t) a (<[i := f x]> (items t a)) b.
Proof.
  intros H. assert (alter f i (items t a) = <[i := f x]> (items t a)) as <-.
  { apply list_eq. intros j. destruct (decide (j = i)) as [->|Hj].
    - rewrite list_lookup_alter_eq, H, list_lookup_insert_eq; [done|]. by eapply lookup_lt_Some.
    - by rewrite list_lookup_alter_ne, list_lookup_insert_ne. }
  destruct a as [k|]; cbn in H |- *.
  - destruct (dict_get _ k) eqn:E; [|done]. by rewrite items_store.
  - unfold upd. by destruct b.
Qed.
Lemma mutate_rest (t : script) a i f : let t' := mutate t a i f in
  t'.(_streams) = t.(_streams) /\ t'.(_tools) = t.(_tools) /\ t'.(_peer_messages) = t.(_peer_messages) /\
  t'.(_pending_peer_turns) = t.(_pending_peer_turns).
Proof. unfold mutate. destruct a as [k|]; [destruct (dict_get _ k)|]; done. Qed.

Lemma index_of_append (t : script) x e : _index_of repr (_append repr t x e) e = length (items t (agent_of e)).
Proof.
  unfold _index_of. set (n := length (items t (agent_of e))).
  assert (items (_append repr t x e) (agent_of e) !! n = Some (stamped x e (agent_of e))) as H.
  { rewrite items_append, upd_eq. unfold n. rewrite lookup_app_r by done. by rewrite Nat.sub_diag. }
  rewrite (sequence_items _ _ _ _ H), items_append, upd_eq, length_app. cbn. fold n. lia.
Qed.

(** Items that no lookup is about. *)
Definition quiet (x : entry) : Prop :=
  x.(sub_agent) = None /\ (is_stream x.(kind) -> x.(complete) = true /\ x.(stream_id) = None) /\
  (x.(kind) = tool -> x.(tool_call_id) = None \/ x.(status) <> RUNNING) /\ x.(kind) <> peer_message.

Lemma stamped_owner (x : entry) (e : event) a : x.(sub_agent) = None -> (stamped x e a).(sub_agent) = a.
Proof. intros H. by destruct a. Qed.

Lemma good_append (t : script) x e : agent_ok (agent_of e) -> quiet x -> good t -> good (_append repr t x e).
Proof.
  intros Ha (Ho & Hs & Ht & Hp) [L P]. unfold good. destruct (append_rest t x e) as (-> & -> & -> & ->). split.
  - eapply lookups_ext; [intros b; symmetry; apply items_append|]. apply wf_push; [done|done|by apply stamped_owner|..]; cbn.
    + intros H. by apply Hs.
    + intros u H E. by rewrite (proj2 (Hs H)) in E.
    + intros id H E. destruct (Ht H); congruence.
  - eapply peers_ext; [intros b; symmetry; apply items_append|].
    apply peers_push; [done|]. intros id E. by destruct Hp.
Qed.

Lemma good_agent (t : script) k e (f : SubAgentActivity -> SubAgentActivity) : (forall act, steps (f act) = steps act) ->
  good t -> good (store_agent t k (f (_sub_agent repr t k e))).
Proof.
  intros Hf [L P].
  assert (forall b, items t b = items (store_agent t k (f (_sub_agent repr t k e))) b) as E.
  { intros b. rewrite items_store, Hf, <- items_agent. unfold upd. by destruct (decide (b = Some k)) as [->|]. }
  split; [by eapply lookups_ext|by eapply peers_ext].
Qed.

(** ** Streams *)

Lemma stream_found (t : script) k a u i : good t -> agent_ok a -> t.(_streams) !! stream_key k a u = Some i ->
  exists x, items t a !! i = Some x /\ x.(kind) = k /\ is_stream k /\ x.(stream_id) = Some u /\ x.(complete) = false /\
    forall j y, (i < j)%nat -> items t a !! j = Some y -> y.(kind) = k -> y.(stream_id) <> Some u.
Proof.
  intros [L _] Ha H. destruct (wf_stream _ _ _ L _ _ H) as (k' & b & v & x & E & Hs & Hb & Hx & Hk & Hu & Hc & Hl).
  apply stream_key_inj in E as (<- & <- & <-); [|done..]. eauto 10.
Qed.

(** What a delta does to the items. *)
Definition delta_text (e : event) : str := _text_of e [lit "text"].
Definition delta_done (e : event) : bool := truthy (get e.(content) (lit "complete")).
Definition extended (x : entry) (e : event) : entry :=
  item_with x (x.(text) ++ delta_text e) (delta_done e) x.(tool_name) x.(status) x.(artifacts) x.(edit_preview) x.(tool_subject)
    x.(tool_display).
Definition first_segment (k : item_kind) (e : event) : entry :=
  stamped (segment k (delta_text e) (delta_done e) (uuid e)) e (agent_of e).

Lemma delta_cases k (t : script) (e : event) : let a := agent_of e in let key := stream_key k a (uuid e) in
  let t' := _on_assistant_delta repr k t e in
  good t -> agent_ok a -> is_stream k ->
  (exists i x, t.(_streams) !! key = Some i /\ items t a !! i = Some x /\ x.(kind) = k /\ x.(stream_id) = Some (uuid e) /\
     x.(complete) = false /\ (forall b, items t' b = upd (items t) a (<[i := extended x e]> (items t a)) b) /\
     t'.(_streams) = if delta_done e then delete key t.(_streams) else t.(_streams)) \/
  (t.(_streams) !! key = None /\ delta_text e = [] /\ t' = t) \/
  (t.(_streams) !! key = None /\ delta_text e <> [] /\
     (forall b, items t' b = upd (items t) a (items t a ++ [first_segment k e]) b) /\
     t'.(_streams) = if delta_done e then t.(_streams) else <[key := length (items t a)]> t.(_streams)).
Proof.
  intros a key t' G Ha Hk. subst t'. unfold _on_assistant_delta. fold a. fold key. fold (delta_text e) (delta_done e).
  destruct (_streams t !! key) as [i|] eqn:E.
  - left. destruct (stream_found t k a (uuid e) i G Ha E) as (x & Hx & Hkx & _ & Hu & Hc & _). exists i, x.
    rewrite (resolve_items t e i x Hx). cbn [default].
    split_and!; try done.
    + intros b. etransitivity; [|exact (items_mutate t a i (fun y => extended y e) x b Hx)]. unfold extended. by destruct (delta_done e).
    + destruct (mutate_rest t a i (fun y => extended y e)) as (Es & _). unfold extended in Es. by destruct (delta_done e); cbn; rewrite Es.
  - right. cbn [resolve_key mbind option_bind]. destruct (delta_text e) as [|c w] eqn:Et; [left; done|right]. cbn [nonempty].
    rewrite <- Et. split_and!; try done; [by rewrite Et| |].
    + intros b. etransitivity; [|exact (items_append t (segment k (delta_text e) (delta_done e) (uuid e)) e b)]. by destruct (delta_done e).
    + rewrite index_of_append. destruct (append_rest t (segment k (delta_text e) (delta_done e) (uuid e)) e) as (Es & _).
      destruct (delta_done e); cbn; rewrite Es; [|done]. by rewrite delete_insert_id.
Qed.

Lemma delta_rest k (t : script) (e : event) : let t' := _on_assistant_delta repr k t e in
  t'.(_tools) = t.(_tools) /\ t'.(_peer_messages) = t.(_peer_messages) /\ t'.(_pending_peer_turns) = t.(_pending_peer_turns).
Proof.
  intros t'. subst t'. unfold _on_assistant_delta. destruct (resolve_key _ _ _ _).
  - match goal with |- context [mutate t ?a ?i ?f] => destruct (mutate_rest t a i f) as (_ & ? & ? & ?) end. by destruct (truthy _).
  - destruct (nonempty _); [|done].
    match goal with |- context [_append repr t ?x e] => destruct (append_rest t x e) as (_ & ? & ? & ?) end. by destruct (truthy _).
Qed.

Lemma good_delta k (t : script) (e : event) : agent_ok (agent_of e) -> is_stream k -> good t -> good (_on_assistant_delta repr k t e).
Proof.
  intros Ha Hk G. destruct (delta_rest k t e) as (E1 & E2 & E3).
  destruct (delta_cases k t e G Ha Hk) as [(i & x & Hst & Hx & <- & Hu & Hc & Hi & Es)|[(_ & _ & ->)|(Hst & Ht & Hi & Es)]]; [| |].
  - destruct G as [L P]. unfold good. rewrite E1, E2, E3, Es. split.
    + eapply lookups_ext; [intros b; symmetry; apply Hi|]. destruct (delta_done e) eqn:Ed.
      * by eapply wf_close.
      * apply (wf_change _ _ _ L _ _ x (extended x e)); try done.
        -- intros _. cbn. by rewrite Hc, Ed.
        -- intros id _ E. destruct Hk; congruence.
    + eapply peers_ext; [intros b; symmetry; apply Hi|]. eapply peers_change; try done. destruct Hk; congruence.
  - done.
  - destruct G as [L P]. unfold good. rewrite E1, E2, E3, Es. split.
    + eapply lookups_ext; [intros b; symmetry; apply Hi|]. destruct (delta_done e) eqn:Ed.
      * apply wf_push; [done|done|by apply stamped_owner|intros _; exact Ed|intros u _ [= <-]; exact Hst|].
        cbn. intros id ->. by destruct Hk.
      * apply (wf_push_open _ _ _ L _ (first_segment k e)); try done. by apply stamped_owner.
    + eapply peers_ext; [intros b; symmetry; apply Hi|]. apply peers_push; [done|]. cbn. intros id ->. by destruct Hk.
Qed.

(** ** Tool calls *)

Lemma tool_found (t : script) a id i : good t -> agent_ok a -> t.(_tools) !! tool_key a id = Some i ->
  id <> [] /\ exists x, items t a !! i = Some x /\ x.(kind) = tool /\ x.(tool_call_id) = Some id.
Proof.
  intros [L _] Ha H. destruct (wf_tool _ _ _ L _ _ H) as (b & id' & x & E & Hb & Hn & Hx & Hk & Hid).
  apply tool_key_inj in E as (<- & <-); [|done..]. eauto.
Qed.

Lemma good_tool_change (t : script) a id i x f : good t -> agent_ok a -> t.(_tools) !! tool_key a id = Some i ->
  items t a !! i = Some x -> x.(tool_call_id) = Some id -> (f x).(kind) = x.(kind) -> (f x).(tool_call_id) = x.(tool_call_id) ->
  (f x).(stream_id) = x.(stream_id) -> (f x).(sub_agent) = x.(sub_agent) -> x.(kind) = tool -> good (mutate t a i f).
Proof.
  intros [L P] Ha Ht Hx Hid F1 F2 F3 F4 Hk. destruct (mutate_rest t a i f) as (E1 & E2 & E3 & E4). unfold good. rewrite E1, E2, E3, E4. split.
  - eapply lookups_ext; [intros b; symmetry; by apply items_mutate|]. eapply wf_change; try done.
    + rewrite Hk. by intros [].
    + intros id' _ _ Hid' _. by replace id' with id by congruence.
  - eapply peers_ext; [intros b; symmetry; by apply items_mutate|]. eapply peers_change; try done. congruence.
Qed.

Lemma good_tools_insert (t : script) x e id : agent_ok (agent_of e) -> good t -> id <> [] ->
  x.(sub_agent) = None -> x.(kind) = tool -> x.(tool_call_id) = Some id -> t.(_tools) !! tool_key (agent_of e) id = None ->
  good (let t' := _append repr t x e in set_tools t' (<[tool_key (agent_of e) id := _index_of repr t' e]> t'.(_tools))).
Proof.
  intros Ha [L P] Hid Ho Hk Hx Hn. cbn zeta. rewrite index_of_append. destruct (append_rest t x e) as (E1 & E2 & E3 & E4).
  split; cbn [_streams _tools _peer_messages _pending_peer_turns set_tools].
  - rewrite E1, E2. eapply lookups_ext; [intros b; symmetry; apply (items_append t x e b)|].
    apply wf_push_running; try done. by apply stamped_owner.
  - rewrite E3, E4. eapply peers_ext; [intros b; symmetry; apply (items_append t x e b)|]. apply peers_push; [done|].
    cbn. rewrite Hk. done.
Qed.

Lemma good_tools_delete (t : script) a id : agent_ok a -> good t ->
  (forall i x, t.(_tools) !! tool_key a id = Some i -> items t a !! i = Some x -> x.(status) <> RUNNING) ->
  good (set_tools t (delete (tool_key a id) t.(_tools))).
Proof. intros Ha [L P] H. split; [|done]. by apply wf_forget. Qed.

Lemma or_none_cases s : (s = [] /\ or_none s = None /\ nonempty s = false) \/ (s <> [] /\ or_none s = Some s /\ nonempty s = true).
Proof. destruct s; [left|right]; done. Qed.

Lemma quiet_tool (x : entry) : x.(kind) = tool -> x.(sub_agent) = None -> x.(tool_call_id) = None \/ x.(status) <> RUNNING -> quiet x.
Proof. intros Hk Ho H. unfold quiet, is_stream. rewrite Hk. naive_solver. Qed.

Definition final (st : str) : Prop := st = lit "done" \/ st = lit "failed".
Lemma good_tool_message (t : script) (e : event) st : agent_ok (agent_of e) -> st = lit "running" \/ final st -> good t ->
  good (fst (_on_tool_message repr t e st)).
Proof.
  intros Ha Hst G. unfold _on_tool_message. set (id := text_field repr e (lit "tool_call_id")). cbn zeta.
  assert (forall (x : entry), x.(kind) = tool -> x.(sub_agent) = None -> x.(tool_call_id) = or_none id -> x.(status) = Some st ->
    (nonempty id = true -> t.(_tools) !! tool_key (agent_of e) id = None) ->
    good (let t' := _append repr t x e in
          if nonempty id && str_eqb st (lit "running") then
            set_tools t' (<[tool_key (agent_of e) id := _index_of repr t' e]> t'.(_tools)) else t')) as Hpush.
  { intros x Hk Ho Hid Hs Hn. destruct (or_none_cases id) as [(Eid & E1 & E2)|(Hne & E1 & E2)]; rewrite E2; cbn [andb].
    - apply good_append; [done|apply quiet_tool; try done|done]. left. congruence.
    - unfold str_eqb. case_bool_decide as E.
      + apply good_tools_insert; try done; [congruence|auto].
      + apply good_append; [done|apply quiet_tool; try done|done]. right. rewrite Hs. intros [= E']. by apply E. }
  destruct (nonempty id) eqn:Eid; [|by apply (Hpush (tool_item _ _ _ _ id st _))].
  destruct (_tools t !! tool_key (agent_of e) id) as [i|] eqn:Et; [|by apply (Hpush (tool_item _ _ _ _ id st _))].
  destruct (tool_found t _ _ _ G Ha Et) as (Hid & x & Hx & Hk & Hx'). rewrite (resolve_items t e i x Hx). change (default O (Some i)) with i.
  destruct x as [k0 ? ? ? ? ? ? ? ? ? ? ? ? ? ?]. cbn in Hk. subst k0. cbn [fst].
  match goal with |- context [mutate t _ i ?f] => pose proof (good_tool_change t _ id i _ f G Ha Et Hx Hx' eq_refl eq_refl eq_refl eq_refl eq_refl) as M;
    destruct (mutate_rest t (agent_of e) i f) as (_ & E2 & _ & _); pose proof (items_mutate t (agent_of e) i f _ (agent_of e) Hx) as Hi end.
  destruct (str_eqb st (lit "running")) eqn:Er; [exact M|]. apply good_tools_delete; [done|done|].
  intros j y Hj Hy. rewrite E2, Et in Hj. injection Hj as <-. rewrite Hi, (upd_insert_self _ _ _ _ _ Hx) in Hy. injection Hy as <-.
  intros [= ->]. by vm_compute in Er.
Qed.

Lemma good_tool_streaming (t : script) (e : event) : agent_ok (agent_of e) -> good t -> good (_on_tool_streaming_update repr t e).
Proof.
  intros Ha G. unfold _on_tool_streaming_update. set (id := text_field repr e (lit "tool_call_id")).
  destruct (_tools t !! tool_key (agent_of e) id) as [i|] eqn:Et.
  - destruct (tool_found t _ _ _ G Ha Et) as (Hid & x & Hx & Hk & Hx'). rewrite (resolve_items t e i x Hx). change (default O (Some i)) with i.
    by apply (good_tool_change t _ id i x).
  - cbn [resolve_key mbind option_bind]. destruct (or_none_cases id) as [(Eid & E1 & E2)|(Hne & E1 & E2)]; rewrite E2.
    + apply good_append; [done|apply quiet_tool; try done|done]. by left.
    + by apply good_tools_insert.
Qed.

(** ** The other handlers of the transcript *)

Definition aside (k : item_kind) : Prop := k = user \/ k = system \/ k = workflow \/ k = assistant.
Lemma quiet_aside (x : entry) : aside x.(kind) -> x.(sub_agent) = None -> x.(complete) = true -> x.(stream_id) = None -> quiet x.
Proof. intros [E|[E|[E|E]]] Ho Hc Hs; repeat split; try done; congruence. Qed.
Lemma good_aside (t : script) (e : event) x : agent_ok (agent_of e) -> good t ->
  aside x.(kind) -> x.(sub_agent) = None -> x.(complete) = true -> x.(stream_id) = None -> good (_append repr t x e).
Proof. intros. apply good_append; [done|by apply quiet_aside|done]. Qed.

Lemma good_workflow (t : script) (e : event) ty : agent_ok (agent_of e) -> good t -> good (_on_workflow_message repr t e ty).
Proof.
  intros Ha G. unfold _on_workflow_message, aside. repeat case_match; try done; apply good_aside; unfold aside; cbn; auto.
Qed.

Lemma tool_status_cases ty st : _TOOL_STATUS ty = Some st -> st = lit "running" \/ final st.
Proof. unfold _TOOL_STATUS, final. repeat case_match; intros [= <-]; auto. Qed.

Lemma good_chat (t : script) (e : event) : agent_ok (agent_of e) -> good t -> good (_on_chat_message repr t e).1.
Proof.
  intros Ha G. unfold _on_chat_message. set (ty := str_or repr _ _).
  destruct (_TOOL_STATUS ty) as [st|] eqn:Es; [apply good_tool_message; try done; by eapply tool_status_cases|].
  destruct (workflow_type ty); [by apply good_workflow|]. cbn zeta.
  assert (good (let txt := _text_of e [lit "text"] in
    if nonempty txt then (_append repr t (message_item (if str_eqb ty (lit "message") then assistant else system) txt (event_artifacts e)) e, false)
    else (t, false)).1) as Hm.
  { cbn zeta. destruct (nonempty _); [|done]. apply good_aside; try done. unfold aside. cbn. destruct (str_eqb _ _); auto. }
  clearbody ty. destruct (get (content e) (lit "status")); [exact Hm|..]; (destruct (agent_of e) as [k|] eqn:Ek; [|exact Hm]); cbn [fst];
    by apply (good_agent t k e (fun act => agent_with act _ _ (steps act) _ _)).
Qed.

Lemma good_peer_append (t : script) (e : event) id sid sender body dl : good t ->
  (id <> [] -> t.(_peer_messages) !! id = None) -> good (peer_append t e id sid sender body dl).
Proof.
  intros [L P] Hn. unfold peer_append.
  set (x := {| kind := peer_message; text := _ |}). set (c := conversation t ++ [x]).
  assert (forall b, upd (items t) None (items t None ++ [x]) b = items (set_conversation t c) b) as E by (by intros []).
  assert (lookups (items (set_conversation t c)) (_streams t) (_tools t)) as L'.
  { eapply lookups_ext; [exact E|]. apply wf_push; try done; by intros []. }
  destruct (or_none_cases id) as [(Eid & E1 & E2)|(Hid & E1 & E2)]; rewrite E2.
  - split; [exact L'|]. eapply peers_ext; [exact E|]. apply peers_push; [done|]. intros id' _. cbn. rewrite E1. done.
  - split; [exact L'|]. eapply peers_ext; [exact E|]. 
    apply (peers_new _ _ _ P x id {| index := pred (length c); sender_id := sid; sender := sender; body := body; delivered := dl |} Hid (Hn Hid)).
    + cbn. unfold c. rewrite length_app. cbn. lia.
    + repeat split. cbn. by rewrite E1.
Qed.

Lemma good_peer (t : script) (e : event) dl : good t -> good (_on_peer_message t e dl).
Proof.
  intros G. unfold _on_peer_message. set (id := _string_content e (lit "message_id")). cbn zeta.
  destruct (or_none_cases id) as [(Eid & _ & E2)|(Hid & _ & E2)]; rewrite E2; [by apply good_peer_append|].
  destruct (_peer_messages t !! id) as [r|] eqn:Er; [|by apply good_peer_append].
  destruct G as [L P]. destruct (wf_record _ _ _ P _ _ Er) as (_ & x & Hx & Hk & Hid' & Htx & Hsx).
  set (r' := {| index := index r; sender_id := _ |}). cbn [conversation set_peers]. change (conversation t) with (items t None).
  rewrite Hx. destruct x as [k0 tx cx sx nx ix stx tox ox qx mx arx epx tsx tdx] eqn:Ex. cbn in Hk. subst k0.
  set (f := fun y : entry => item_with y _ _ _ _ _ _ _ _). set (t1 := set_conversation _ _).
  assert (forall b, upd (items t) None (<[index r := f x]> (items t None)) b = items t1 b) as E.
  { intros b. rewrite <- (items_mutate t None (index r) f x) by (by subst x). by destruct b. }
  assert (lookups (items t1) (_streams t) (_tools t)) as L'.
  { eapply lookups_ext; [exact E|]. eapply wf_change; try done; try (by subst x). }
  assert (peers (items t1) (<[id := r']> (_peer_messages t))
    (if delivered r' && negb (delivered r) then _pending_peer_turns t ++ [id] else _pending_peer_turns t)) as P'.
  { eapply peers_ext; [exact E|]. apply (peers_update _ _ _ P id r r' x); try done.
    - cbn. by intros ->.
    - by subst x.
    - subst x. repeat split. exact Hid'. }
  destruct (delivered r' && negb (delivered r)) eqn:Ed; by split.
Qed.

Lemma consume_sublist (pm : gmap str _PeerMessageRecord) pd ut x pd' : consume pm pd ut = Some (x, pd') -> sublist pd' pd.
Proof.
  revert x pd'. induction pd as [|id pd IH]; intros x pd'; [done|]. cbn.
  assert ((('(x, p) ← consume pm pd ut; Some (x, id :: p)) = Some (x, pd')) -> sublist pd' (id :: pd)) as Hrec.
  { destruct (consume pm pd ut) as [[y q]|]; [|done]. intros [= -> <-]. apply sublist_skip. by eapply IH. }
  destruct (pm !! id) as [r|]; [|exact Hrec]. destruct (wraps r ut); [|exact Hrec]. intros [= _ <-]. by apply sublist_cons.
Qed.
Lemma good_consume (t : script) ut : good t -> good (_consume_peer_turn t ut).1.
Proof.
  intros [L P]. unfold _consume_peer_turn. destruct (consume _ _ _) as [[x pd]|] eqn:E; [|done].
  split; [done|]. cbn. eapply peers_sublist; [done|by eapply consume_sublist].
Qed.

(** ** The whole state *)

Variable int_of_text : str -> option Z.
Variable to_float : value -> option value.
Variable dict_of_other : value -> option (list (str * value)).
Abbreviation state := (@PresentationState artifact).
Abbreviation handle := (@handle artifact repr int_of_text to_float dict_of_other).
Abbreviation fold := (@fold artifact repr int_of_text to_float dict_of_other).
Abbreviation replay := (@replay artifact repr int_of_text to_float dict_of_other).

Definition distinct_prompts (s : state) : Prop := NoDup (map request_id s.(prompts)).
Record sound (s : state) : Prop := {
  sound_transcript : good s.(transcript);
  sound_prompts : distinct_prompts s;
  sound_logs : len s.(logs) <= LOG_BUFFER_LINES
}.

Lemma sound_empty : sound empty_state.
Proof.
  split; [|constructor|done]. repeat split; cbn; try done; try (intros * H; rewrite lookup_empty in H; done).
  - intros a i x _ H. by destruct a.
  - intros a i x id _ H. by destruct a.
  - intros a x H. destruct a; by apply not_elem_of_nil in H.
  - intros. by destruct a.
  - intros. by destruct a.
  - constructor.
  - intros id H. by apply not_elem_of_nil in H.
Qed.

Lemma sound_set_transcript (s : state) t : sound s -> good t -> sound (set_transcript s t).
Proof. intros [_ ? ?] ?. by split. Qed.
(** The rest of the state has no bearing on it. *)
Lemma sound_same (s s' : state) : sound s -> transcript s' = transcript s -> prompts s' = prompts s -> logs s' = logs s -> sound s'.
Proof. intros [? H ?] E1 E2 E3. split; [|unfold distinct_prompts|]; rewrite ?E1, ?E2, ?E3; done. Qed.

Lemma update_last_keys {A B} (g : A -> B) f (h : A -> A) l : (forall x, g (h x) = g x) -> map g (update_last f h l) = map g l.
Proof. intros H. induction l as [|x l IH]; [done|]. cbn. repeat case_match; cbn; by rewrite ?IH, ?H. Qed.

Lemma sound_log (s : state) e : sound s -> sound (_on_log_message repr s e).
Proof.
  intros [H1 H2 H3]. unfold _on_log_message. destruct (nonempty _); [|done]. split; [done..|]. cbn [logs set_logs].
  set (l := logs s ++ _). destruct (Z.ltb_spec LOG_BUFFER_LINES (len l)); [|lia]. rewrite len_slice_from_pos by lia. unfold LOG_BUFFER_LINES in *. lia.
Qed.

Lemma sound_requested (s s' : state) e : sound s -> _on_control_requested repr dict_of_other s e = Ok s' -> sound s'.
Proof.
  intros S. unfold _on_control_requested. set (id := text_field repr e _). destruct (negb (nonempty id) || _) eqn:E; [by intros [= <-]|].
  destruct (dict_or_empty _ _) as [p|]; [|done]. intros [= <-]. destruct S as [H1 H2 H3]. split; [done| |done].
  unfold distinct_prompts in *. cbn. rewrite map_app. apply list.NoDup_app. split_and!; [done| |by apply NoDup_singleton].
  cbn. intros i Hi ->%list_elem_of_singleton. apply orb_false_iff in E as [_ E].
  apply list_elem_of_fmap in Hi as (q & Hq & Hin). apply not_true_iff_false in E. apply E. apply existsb_exists. exists q.
  split; [by apply list_elem_of_In|]. unfold str_eqb. by apply bool_decide_eq_true.
Qed.

Lemma sound_preview (s : state) e : agent_ok (agent_of e) -> sound s -> sound (_on_file_edit_preview repr s e).
Proof.
  intros Ha S. unfold _on_file_edit_preview. set (p := match agent_of e with Some _ => _ | None => _ end).
  set (s1 := set_edit_previews s _). set (id := text_field repr e _). assert (sound s1) as S1 by by eapply sound_same.
  destruct (nonempty id); [|done]. destruct (_tools (transcript s1) !! tool_key (agent_of e) id) as [i|] eqn:Et; [|done].
  destruct (tool_found _ _ _ _ (sound_transcript _ S1) Ha Et) as (_ & x & Hx & Hk & Hid). rewrite (resolve_items _ e i x Hx).
  apply sound_set_transcript; [done|]. change (default O (Some i)) with i. apply (good_tool_change _ (agent_of e) id i x); try done. apply S1.
Qed.

Lemma sound_turn (s : state) e : agent_ok (agent_of e) -> sound s -> sound (_on_turn_started repr s e).
Proof.
  intros Ha S. unfold _on_turn_started. set (ut := text_field repr e (lit "user_text")). cbn zeta.
  assert (forall s1 : state, sound s1 -> sound (if nonempty ut then set_transcript s1 (_append repr (transcript s1) (item user ut) e) else s1)) as Hadd.
  { intros s1 S1. destruct (nonempty ut); [|done]. apply sound_set_transcript; [done|].
    apply good_aside; try done; [apply S1|]. unfold aside. auto. }
  destruct (agent_of e) as [k|]; [by apply Hadd|].
  pose proof (good_consume (transcript s) ut (sound_transcript _ S)) as G. destruct (_consume_peer_turn _ _) as [t peer].
  assert (sound (set_activity (set_turns (set_transcript s t) (turns (set_transcript s t) ++ [{|
    turn_id := text_field repr e (lit "turn_id"); turn_status := lit "open"; user_text := match peer with Some (c :: r) => c :: r | _ => ut end;
    started_seq := seq e; started_ms := event_ms e; ended_ms := None |}])) (lit "generating"))) as S1.
  { eapply sound_same; [by apply (sound_set_transcript s t)|done..]. }
  destruct peer; [exact S1|by apply Hadd].
Qed.

Lemma sound_status (s : state) e : sound s -> sound (_on_status_update repr s e).
Proof.
  intros S. unfold _on_status_update. destruct (agent_of e) as [k|]; [|destruct (nonempty _); [by eapply sound_same|done]].
  apply sound_set_transcript; [done|]. apply (good_agent _ k e (fun act => agent_with act _ _ (steps act) _ _)); [done|apply S].
Qed.
Lemma sound_context (s s' : state) e : sound s -> _on_context_update repr int_of_text to_float s e = Ok s' -> sound s'.
Proof.
  intros S. unfold _on_context_update.
  intros (it & _ & (mt & _ & (up & _ & (wc & _ & E)%bind_Ok)%bind_Ok)%bind_Ok)%bind_Ok. revert E.
  destruct (agent_of e) as [k|]; intros [= <-]; [|by eapply sound_same].
  apply sound_set_transcript; [done|]. apply (good_agent _ k e (fun act => agent_with act _ _ (steps act) _ _)); [done|apply S].
Qed.
Lemma sound_resolved (s : state) e : sound s -> sound (_on_control_resolved repr s e).
Proof.
  intros [H1 H2 H3]. unfold _on_control_resolved. set (s1 := set_prompts s _).
  assert (sound s1) as S1. { split; [done| |done]. unfold distinct_prompts, s1. cbn. by rewrite update_last_keys. }
  destruct (existsb _ _); [done|by eapply sound_same].
Qed.

Lemma sound_terminal (s s' : state) txt : sound s -> on_terminal s txt = Ok s' -> sound s'.
Proof. intros S. unfold on_terminal. destruct (_append_terminal _ _); [|done]. intros [= <-]. by eapply sound_same. Qed.

Lemma handle_sound (s s' : state) e : agent_ok (agent_of e) -> sound s -> handle s e = Ok s' -> sound s'.
Proof.
  intros Ha S. unfold Projection.handle.
  destruct (event_type e); try (intros [= <-]; try (by eapply sound_same); try (apply sound_set_transcript; [done|])).
  all: try (apply good_delta; [done|by left|apply S]); try (apply good_delta; [done|by right|apply S]).
  all: try (apply good_tool_streaming; [done|apply S]); try (apply good_peer; apply S).
  all: try (by apply sound_log); try (by apply sound_preview); try (by apply sound_turn).
  - unfold _on_system_message. destruct (nonempty _); [|done]. apply sound_set_transcript; [done|].
    apply good_aside; try done; [apply S|]. unfold aside. auto.
  - unfold on_transcript. pose proof (good_chat (transcript s) e Ha (sound_transcript _ S)) as G.
    destruct (_on_chat_message _ _ _) as [t []]; cbn [snd fst]; [|by apply sound_set_transcript].
    eapply sound_same; [by apply (sound_set_transcript s t)|done..].
  - destruct (nonempty _); [|cbn; intros [= <-]; by eapply sound_same].
    destruct (on_terminal _ _) as [s1|] eqn:E; [|done]. cbn. intros [= <-]. eapply sound_same; [by eapply sound_terminal|done..].
  - by apply sound_terminal.
  - destruct (nonempty _); [by eapply sound_same|done].
  - by apply sound_status.
  - by apply sound_status.
  - by apply sound_status.
  - by apply sound_context.
  - unfold _on_compaction_status. destruct (agent_of e); [done|by eapply sound_same].
  - unfold _on_turn_ended. destruct (agent_of e); [done|by eapply sound_same].
  - unfold _on_stream_truncated. apply sound_set_transcript; [by eapply sound_same|].
    apply good_aside; try done; [apply S|]. unfold aside. auto.
  - by apply sound_requested.
  - by apply sound_resolved.
Qed.

Lemma fold_sound (s s' : state) e : agent_ok (agent_of e) -> sound s -> fold s e = Ok s' -> sound s'.
Proof.
  intros Ha S. unfold Projection.fold. destruct (seq e) as [q|]; [destruct (q <=? last_seq s); [done|]|];
    (apply handle_sound; [done|by eapply sound_same]).
Qed.
Lemma foldM_sound (events : list event) : forall s s' : state, Forall (fun e => agent_ok (agent_of e)) events -> sound s ->
  foldM fold events s = Ok s' -> sound s'.
Proof.
  induction events as [|e events IH]; intros s s' Hk S; cbn [foldM]; [by intros [= <-]|].
  apply list.Forall_cons in Hk as [Ha Hk]. destruct (fold s e) as [s1|] eqn:E; [|done]. apply IH; [done|by eapply fold_sound].
Qed.
End Facts.
