(* ===== verification/ProjectionStreams.v ===== *)
(** * The streams of the projection

    The events of a stream may come between those of any other: what the
    transcript shows of a stream is what its deltas say, in their order. *)

From stdpp Require Import base gmap list strings numbers.
From Stdlib Require Import ZArith Lia.
From S2P Require Import Prelude PyStr PyVal Json JsonFacts Projection ProjectionFacts.

Section Streams.
Context {artifact : Type}.
Variable repr : value -> str.

Abbreviation entry := (@ConversationItem artifact).
Abbreviation event := (@AgentEvent artifact).
Abbreviation script := (@Transcript artifact).
Abbreviation agent_of e := (_sub_agent_key repr e).

(** What a list of items shows of a stream. *)
Definition in_stream (k : item_kind) (u : str) (x : entry) : bool := bool_decide (x.(kind) = k) && bool_decide (x.(stream_id) = Some u).
Definition stream_of (l : list entry) (k : item_kind) (u : str) : str := concat (map text (List.filter (in_stream k u) l)).

Definition loose (x : entry) : Prop := is_stream x.(kind) -> x.(stream_id) = None.
Lemma loose_out (x : entry) k u : loose x -> is_stream k -> in_stream k u x = false.
Proof.
  intros H Hk. unfold in_stream. apply not_true_iff_false. intros [E1%bool_decide_eq_true E2%bool_decide_eq_true]%andb_prop.
  rewrite <- E1 in Hk. rewrite (H Hk) in E2. done.
Qed.

Lemma stream_of_app l1 l2 k u : stream_of (l1 ++ l2) k u = stream_of l1 k u ++ stream_of l2 k u.
Proof. unfold stream_of. by rewrite List.filter_app, map_app, concat_app. Qed.
Lemma stream_of_out (x : entry) k u : in_stream k u x = false -> stream_of [x] k u = [].
Proof. intros H. unfold stream_of. cbn. by rewrite H. Qed.
Lemma stream_of_in (x : entry) k u : in_stream k u x = true -> stream_of [x] k u = x.(text).
Proof. intros H. unfold stream_of. cbn. rewrite H. cbn. by rewrite app_nil_r. Qed.

(** A change of one item. *)
Lemma insert_split (l : list entry) i x y : l !! i = Some x -> exists l1 l2, length l1 = i /\ l = l1 ++ x :: l2 /\ <[i := y]> l = l1 ++ y :: l2.
Proof.
  intros H. exists (take i l), (drop (S i) l). assert (i < length l)%nat as Hi by by eapply lookup_lt_Some.
  split_and!; [rewrite length_take; lia|by rewrite take_drop_middle|by apply insert_take_drop].
Qed.
Lemma stream_of_same (l : list entry) i x y k u : l !! i = Some x -> in_stream k u x = false -> in_stream k u y = false ->
  stream_of (<[i := y]> l) k u = stream_of l k u.
Proof.
  intros H Hx Hy. destruct (insert_split l i x y H) as (l1 & l2 & _ & -> & ->).
  change (y :: l2) with ([y] ++ l2). change (x :: l2) with ([x] ++ l2).
  by rewrite !stream_of_app, (stream_of_out x), (stream_of_out y).
Qed.
(** The last segment of a stream grows. *)
Lemma stream_of_grows (l : list entry) i x y w k u : l !! i = Some x -> in_stream k u x = true -> in_stream k u y = true ->
  y.(text) = x.(text) ++ w -> (forall j z, (i < j)%nat -> l !! j = Some z -> in_stream k u z = false) ->
  stream_of (<[i := y]> l) k u = stream_of l k u ++ w.
Proof.
  intros H Hx Hy Ht Hl. destruct (insert_split l i x y H) as (l1 & l2 & <- & -> & ->).
  assert (stream_of l2 k u = []) as E2.
  { unfold stream_of. replace (List.filter _ l2) with (@nil entry); [done|]. symmetry. clear -Hl.
    assert (forall z, z ∈ l2 -> in_stream k u z = false) as H.
    { intros z (j & Hz)%list_elem_of_lookup. apply (Hl (length l1 + S j)%nat); [lia|]. by rewrite lookup_app_r, Nat.add_sub_swap, Nat.sub_diag by lia. }
    clear Hl. induction l2 as [|z l2 IH]; [done|]. cbn. rewrite H by set_solver. apply IH. intros; apply H. by right. }
  change (y :: l2) with ([y] ++ l2). change (x :: l2) with ([x] ++ l2).
  rewrite !stream_of_app, (stream_of_in x), (stream_of_in y), E2, Ht by done. by rewrite !app_nil_r, app_assoc.
Qed.

(** ** Handlers that leave every stream *)

Definition calm (t t' : script) : Prop :=
  forall a k u, is_stream k -> stream_of (items t' a) k u = stream_of (items t a) k u.

Lemma calm_refl t : calm t t.
Proof. done. Qed.
Lemma calm_items (t t' : script) : (forall a, items t' a = items t a) -> calm t t'.
Proof. intros H a k u _. by rewrite H. Qed.

Lemma calm_append (t : script) (e : event) x : loose x -> calm t (_append repr t x e).
Proof.
  intros Hx a k u Hk. rewrite items_append. unfold upd. case_decide as E; [|done]. subst a.
  rewrite stream_of_app, (stream_of_out (stamped _ _ _)); [by rewrite app_nil_r|]. by apply loose_out.
Qed.

Lemma calm_mutate (t : script) a i x f : sequence t a !! i = Some x -> loose x -> (f x).(kind) = x.(kind) ->
  (f x).(stream_id) = x.(stream_id) -> calm t (mutate t a i f).
Proof.
  intros Hx Hl F1 F2.
  assert (loose (f x)) as Hl' by (unfold loose; rewrite F1, F2; exact Hl).
  assert (forall b, items t b !! i = Some x -> calm t (mutate t b i f)) as Hm.
  { intros b Hb c k u Hk. rewrite (items_mutate t b i f x c Hb). unfold upd. case_decide as E; [|done]. subst c.
    eapply stream_of_same; [done|by apply loose_out..]. }
  destruct a as [k|]; [|by apply Hm]. cbn in Hx. destruct (dict_get (sub_agents t) k) eqn:E.
  - apply Hm. cbn. by rewrite E.
  - unfold mutate. rewrite E. by apply (Hm None).
Qed.

Lemma calm_resolved (t : script) (e : event) i x f : resolve_key repr t e i = Some x -> loose x ->
  (f x).(kind) = x.(kind) -> (f x).(stream_id) = x.(stream_id) -> calm t (mutate t (agent_of e) (default O i) f).
Proof. destruct i as [i|]; [|done]. intros Hx. by apply calm_mutate. Qed.

Lemma calm_agent (t : script) k (e : event) (f : SubAgentActivity -> SubAgentActivity) : (forall act, steps (f act) = steps act) ->
  calm t (store_agent t k (f (_sub_agent repr t k e))).
Proof.
  intros Hf. apply calm_items. intros a. rewrite items_store, Hf, <- items_agent. unfold upd. by case_decide; subst.
Qed.
Lemma calm_trans t1 t2 t3 : calm t1 t2 -> calm t2 t3 -> calm t1 t3.
Proof. intros H1 H2 a k u Hk. by rewrite H2, H1. Qed.

Lemma aside_loose (x : entry) : x.(stream_id) = None -> loose x.
Proof. by intros H _. Qed.
Lemma not_stream_loose (x : entry) : ~ is_stream x.(kind) -> loose x.
Proof. unfold loose. tauto. Qed.
Lemma tool_loose (x : entry) : x.(kind) = tool -> loose x.
Proof. intros H. apply not_stream_loose. rewrite H. by intros []. Qed.

Lemma calm_set_tools (t t' : script) m : calm t t' -> calm t (set_tools t' m).
Proof. intros H a k u Hk. exact (H a k u Hk). Qed.

Lemma calm_set_peers (t t' : script) m p : calm t t' -> calm t (set_peers t' m p).
Proof. intros H a k u Hk. exact (H a k u Hk). Qed.

Lemma calm_tool_message (t : script) (e : event) st : calm t (_on_tool_message repr t e st).1.
Proof.
  unfold _on_tool_message. cbn zeta. set (i := if nonempty _ then _ else _).
  assert (forall x m, loose x -> calm t (set_tools (_append repr t x e) m)) as Hp by (intros x m H; by apply calm_set_tools, calm_append).
  destruct (resolve_key repr t e i) as [x|] eqn:E.
  - destruct x as [[] ? ? ? ? ? ? ? ? ? ? ? ? ? ?]; cbn [fst];
      try (case_match; [by apply Hp|by apply calm_append]).
    case_match; [|apply calm_set_tools]; (eapply (calm_resolved _ _ _ _ _ E); [by apply tool_loose|done..]).
  - cbn [fst]. case_match; [by apply Hp|by apply calm_append].
Qed.

Lemma calm_tool_streaming (t : script) (e : event) : agent_ok (agent_of e) -> good t -> calm t (_on_tool_streaming_update repr t e).
Proof.
  intros Ha G. unfold _on_tool_streaming_update. set (id := text_field repr e (lit "tool_call_id")).
  destruct (_tools t !! tool_key (agent_of e) id) as [i|] eqn:Et.
  - destruct (tool_found t _ _ _ G Ha Et) as (_ & x & Hx & Hk & _). pose proof (resolve_items repr t e i x Hx) as E. rewrite E.
    eapply (calm_resolved _ _ _ _ _ E); [by apply tool_loose|done..].
  - cbn [resolve_key mbind option_bind]. case_match; [apply calm_set_tools|]; by apply calm_append.
Qed.

Lemma calm_chat (t : script) (e : event) : calm t (_on_chat_message repr t e).1.
Proof.
  unfold _on_chat_message. set (ty := str_or repr _ _).
  destruct (_TOOL_STATUS ty) as [st|]; [apply calm_tool_message|].
  destruct (workflow_type ty); [unfold _on_workflow_message; repeat case_match; cbn [fst]; try done; by apply calm_append|].
  clearbody ty. set (p := if nonempty _ then _ else _).
  assert (calm t p.1) as Hp by (unfold p; destruct (nonempty _); [by apply calm_append|done]). clearbody p.
  destruct (get (content e) (lit "status")); [exact Hp|..]; (destruct (agent_of e) as [k|]; [|exact Hp]);
    by apply (calm_agent t k e (fun act => agent_with act _ _ (steps act) _ _)).
Qed.

Lemma calm_peer_append (t : script) (e : event) id sid sender body dl : calm t (peer_append t e id sid sender body dl).
Proof.
  unfold peer_append. set (x := {| kind := peer_message; text := _ |}). intros a k u Hk.
  assert (forall m p, items (set_peers (set_conversation t (conversation t ++ [x])) m p) a = items (set_conversation t (conversation t ++ [x])) a) as E by done.
  assert (stream_of (items (set_conversation t (conversation t ++ [x])) a) k u = stream_of (items t a) k u) as H.
  { destruct a as [a|]; [done|]. cbn [items conversation set_conversation]. rewrite stream_of_app, (stream_of_out x); [by rewrite app_nil_r|].
    by apply loose_out. }
  by destruct (nonempty id).
Qed.
Lemma calm_peer (t : script) (e : event) dl : calm t (_on_peer_message t e dl).
Proof.
  unfold _on_peer_message. set (id := _string_content e (lit "message_id")). cbn zeta.
  destruct (if nonempty id then _ else None) as [r|]; [|apply calm_peer_append]. set (r' := {| index := index r |}).
  cbn [conversation set_peers]. set (t1 := set_peers t _ _). change (conversation t) with (conversation t1).
  assert (calm t t1) as H1 by done.
  destruct (conversation t1 !! index r) as [x|] eqn:E; [|eapply calm_trans; [exact H1|apply calm_peer_append]].
  destruct x as [[] ? ? ? ? ? ? ? ? ? ? ? ? ? ?]; try (eapply calm_trans; [exact H1|apply calm_peer_append]).
  match goal with |- context [alter ?f (index r) _] => set (g := f) end.
  assert (calm t (mutate t1 None (index r) g)) as H2.
  { eapply calm_trans; [exact H1|]. eapply (calm_mutate t1 None); [exact E|by apply not_stream_loose; intros []|done..]. }
  destruct (delivered r' && negb (delivered r)); [exact (calm_set_peers _ _ _ _ H2)|exact H2].
Qed.

(** ** The fold *)

Variable int_of_text : str -> option Z.
Variable to_float : value -> option value.
Variable dict_of_other : value -> option (list (str * value)).
Abbreviation state := (@PresentationState artifact).
Abbreviation handle := (@handle artifact repr int_of_text to_float dict_of_other).
Abbreviation fold := (@fold artifact repr int_of_text to_float dict_of_other).
Abbreviation replay := (@replay artifact repr int_of_text to_float dict_of_other).

Definition delta_kind (e : event) : option item_kind :=
  match e.(event_type) with ASSISTANT_DELTA => Some assistant | THINKING_DELTA => Some thinking | _ => None end.
(** What an event says in a stream. *)
Definition said (k : item_kind) (a : option str) (u : str) (e : event) : str :=
  if bool_decide (delta_kind e = Some k) && bool_decide (agent_of e = a) && bool_decide (uuid e = u) then delta_text e else [].

Lemma delta_said k (t : script) (e : event) k' a u : good t -> agent_ok (agent_of e) -> is_stream k -> is_stream k' -> delta_kind e = Some k ->
  stream_of (items (_on_assistant_delta repr k t e) a) k' u = stream_of (items t a) k' u ++ said k' a u e.
Proof.
  intros G Ha Hk Hk' Hd. unfold said. rewrite Hd.
  assert (forall x : entry, x.(kind) = k -> x.(stream_id) = Some (uuid e) ->
    in_stream k' u x = bool_decide (Some k = Some k') && bool_decide (uuid e = u)) as Hin.
  { intros x E1 E2. unfold in_stream. rewrite E1, E2. f_equal; apply bool_decide_ext; naive_solver. }
  destruct (delta_cases repr k t e G Ha Hk) as [(i & x & Hst & Hx & Hkx & Hu & Hc & Hi & _)|[(_ & Ht & ->)|(Hst & Ht & Hi & _)]].
  - rewrite Hi. unfold upd. destruct (decide (a = agent_of e)) as [->|Hne]; [|rewrite (bool_decide_false (agent_of e = a)) by congruence; by rewrite andb_false_r, app_nil_r].
    rewrite (bool_decide_true (agent_of e = agent_of e)), andb_true_r by done.
    assert (in_stream k' u (extended x e) = in_stream k' u x) as Ex by done. pose proof (Hin x Hkx Hu) as E. rewrite <- E.
    destruct (in_stream k' u x) eqn:Exx; [|rewrite app_nil_r; by eapply stream_of_same].
    eapply stream_of_grows; try done. intros j z Hj Hz. symmetry in E. apply andb_prop in E as [E1%bool_decide_eq_true E2%bool_decide_eq_true].
    injection E1 as <-. subst u. destruct (stream_found t k (agent_of e) (uuid e) i G Ha Hst) as (x' & _ & _ & _ & _ & _ & Hl).
    apply not_true_iff_false. intros [E3%bool_decide_eq_true E4%bool_decide_eq_true]%andb_prop. by apply (Hl j z).
  - rewrite Ht. by case_match; rewrite app_nil_r.
  - rewrite Hi. unfold upd. destruct (decide (a = agent_of e)) as [->|Hne]; [|rewrite (bool_decide_false (agent_of e = a)) by congruence; by rewrite andb_false_r, app_nil_r].
    rewrite (bool_decide_true (agent_of e = agent_of e)), andb_true_r, stream_of_app by done. f_equal.
    pose proof (Hin (first_segment repr k e) eq_refl eq_refl) as E. rewrite <- E.
    destruct (in_stream k' u (first_segment repr k e)) eqn:Ex; [by apply stream_of_in|by apply stream_of_out].
Qed.

Lemma calm_preview (s : state) (e : event) : agent_ok (agent_of e) -> sound s -> calm (transcript s) (transcript (_on_file_edit_preview repr s e)).
Proof.
  intros Ha S. unfold _on_file_edit_preview. set (p := match agent_of e with Some _ => _ | None => _ end). clearbody p.
  cbn [transcript set_edit_previews]. destruct (nonempty _); [|done].
  set (id := text_field repr e _). destruct (_tools (transcript s) !! tool_key (agent_of e) id) as [i|] eqn:Et; [|done].
  destruct (tool_found _ _ _ _ (sound_transcript _ S) Ha Et) as (_ & x & Hx & Hk & _). pose proof (resolve_items repr _ e i x Hx) as E. rewrite E.
  cbn [transcript set_transcript]. eapply (calm_resolved _ _ _ _ _ E); [by apply tool_loose|done..].
Qed.

Lemma calm_turn (s : state) (e : event) : calm (transcript s) (transcript (_on_turn_started repr s e)).
Proof.
  unfold _on_turn_started. set (ut := text_field repr e (lit "user_text")). cbn zeta.
  assert (forall s1 : state, calm (transcript s) (transcript s1) ->
    calm (transcript s) (transcript (if nonempty ut then set_transcript s1 (_append repr (transcript s1) (item user ut) e) else s1))) as Hadd.
  { intros s1 H. destruct (nonempty ut); [|done]. eapply calm_trans; [exact H|by apply calm_append]. }
  destruct (agent_of e); [by apply Hadd|].
  assert (calm (transcript s) (_consume_peer_turn (transcript s) ut).1) as Hc.
  { unfold _consume_peer_turn. destruct (consume _ _ _) as [[x p]|]; [by apply calm_set_peers|done]. }
  destruct (_consume_peer_turn _ _) as [t peer]. destruct peer; [exact Hc|by apply Hadd].
Qed.

Lemma calm_status (s : state) (e : event) : calm (transcript s) (transcript (_on_status_update repr s e)).
Proof.
  unfold _on_status_update. destruct (agent_of e) as [k|]; [|by destruct (nonempty _)].
  by apply (calm_agent _ k e (fun act => agent_with act _ _ (steps act) _ _)).
Qed.
Lemma calm_context (s s' : state) (e : event) : _on_context_update repr int_of_text to_float s e = Ok s' -> calm (transcript s) (transcript s').
Proof.
  unfold _on_context_update. intros (it & _ & (mt & _ & (up & _ & (wc & _ & E)%bind_Ok)%bind_Ok)%bind_Ok)%bind_Ok. revert E.
  destruct (agent_of e) as [k|]; intros [= <-]; [|done].
  by apply (calm_agent _ k e (fun act => agent_with act _ _ (steps act) _ _)).
Qed.
Lemma calm_terminal (s s' : state) txt : on_terminal s txt = Ok s' -> calm (transcript s) (transcript s').
Proof. unfold on_terminal. intros (t & _ & E)%bind_Ok. by injection E as <-. Qed.
Lemma calm_requested (s s' : state) (e : event) : _on_control_requested repr dict_of_other s e = Ok s' -> calm (transcript s) (transcript s').
Proof.
  unfold _on_control_requested. destruct (_ || _); [by intros [= <-]|]. intros (p & _ & E)%bind_Ok. by injection E as <-.
Qed.

Lemma handle_calm (s s' : state) e : delta_kind e = None -> agent_ok (agent_of e) -> sound s -> handle s e = Ok s' -> calm (transcript s) (transcript s').
Proof.
  intros Hd Ha S. unfold Projection.handle. unfold delta_kind in Hd.
  destruct (event_type e); try done; try (intros [= <-]; try (by apply calm_refl)).
  all: try (apply calm_peer); try (by apply calm_tool_streaming; [|apply S]).
  - unfold _on_system_message. destruct (nonempty _); [by apply calm_append|done].
  - unfold on_transcript. pose proof (calm_chat (transcript s) e) as G. by destruct (_on_chat_message _ _ _) as [t []].
  - unfold _on_log_message. by destruct (nonempty _).
  - intros (s1 & E & E')%bind_Ok. injection E' as <-. change (calm (transcript s) (transcript s1)). destruct (nonempty _); [by eapply calm_terminal|by injection E as <-].
  - by apply calm_terminal.
  - by destruct (nonempty _).
  - by apply calm_status.
  - by apply calm_status.
  - by apply calm_status.
  - by apply calm_context.
  - unfold _on_compaction_status. by destruct (agent_of e).
  - by apply calm_preview.
  - by apply calm_turn.
  - unfold _on_turn_ended. by destruct (agent_of e).
  - by apply calm_append.
  - by apply calm_requested.
  - unfold _on_control_resolved. by destruct (existsb _ _).
Qed.

Lemma handle_said (s s' : state) e : agent_ok (agent_of e) -> sound s -> handle s e = Ok s' ->
  forall k a u, is_stream k -> stream_of (items (transcript s') a) k u = stream_of (items (transcript s) a) k u ++ said k a u e.
Proof.
  intros Ha S H k a u Hk. destruct (delta_kind e) as [k'|] eqn:Hd.
  - assert (is_stream k' /\ s' = set_transcript s (_on_assistant_delta repr k' (transcript s) e)) as [Hk' ->].
    { revert H Hd. unfold Projection.handle, delta_kind. destruct (event_type e); try done; intros [= <-] [= <-]; split; try done; [by left|by right]. }
    by apply delta_said; [apply S|..].
  - rewrite (handle_calm s s' e Hd Ha S H) by done. unfold said. rewrite Hd. by rewrite app_nil_r.
Qed.

(** C18: the lookups that the fold keeps beside the transcript are right after any
    replay in which agents have plain names: an open segment is the last one of its
    stream and is found under its key, and so is every tool call that still runs;
    nothing else is found; a peer message with an id has exactly one item, in the
    main transcript, that shows all that is known of it; every item is in the
    transcript of its own agent; no decision point is there twice; and the log keeps
    at most two thousand lines. *)
Theorem projection_invariant (events : list event) s :
  Forall (fun e => agent_ok (agent_of e)) events -> replay events = Ok s -> sound s.
Proof. intros Hk. by apply foldM_sound; [|apply sound_empty]. Qed.

Lemma foldM_said (events : list event) : forall s0 s : state, Forall (fun e => agent_ok (agent_of e)) events -> sound s0 ->
  foldM fold events s0 = Ok s -> forall k a u, is_stream k ->
  stream_of (items (transcript s) a) k u = stream_of (items (transcript s0) a) k u ++ concat (map (said k a u) events).
Proof.
  induction events as [|e events IH]; intros s0 s Hk S H k a u Hs; cbn [foldM map concat] in *; [injection H as <-; by rewrite app_nil_r|].
  apply list.Forall_cons in Hk as [Ha Hk]. destruct (fold s0 e) as [s1|] eqn:E; [|done].
  rewrite (IH s1 s Hk), app_assoc; [|by eapply fold_sound|done|done]. f_equal.
  revert E. unfold Projection.fold. destruct (seq e) as [q|]; [destruct (q <=? last_seq s0); [done|]|]; intros E;
    (eapply handle_said in E; [exact E|done|by eapply sound_same|done]).
Qed.

(** C17: whatever the order in which the events of different streams, agents and
    kinds come, the items of a stream show exactly the text of its own deltas, in
    their order: nothing is lost, repeated or shown in another stream. *)
Theorem streams_faithful (events : list event) s :
  Forall (fun e => agent_ok (agent_of e)) events -> replay events = Ok s ->
  forall k a u, is_stream k -> stream_of (items (transcript s) a) k u = concat (map (said k a u) events).
Proof.
  intros Hk H k a u Hs. rewrite (foldM_said events empty_state s Hk sound_empty H k a u Hs). by destruct a.
Qed.
End Streams.

(** Two streams that alternate, and a tool call between them. *)
Definition sample_event (ty : event_kind) (u : str) (c : list (str * value)) : @AgentEvent unit :=
  {| uuid := u; event_type := ty; content := c; is_streaming := false; sub_agent_info := None; seq := None; event_ms := 0; event_artifacts := [] |}.
Definition sample_delta (ty : event_kind) (u t : str) (done : bool) : @AgentEvent unit :=
  sample_event ty u [(lit "text", VStr t); (lit "complete", VBool done)].
Definition sample_events : list (@AgentEvent unit) :=
  [sample_delta THINKING_DELTA (lit "u") (lit "h") false; sample_delta ASSISTANT_DELTA (lit "u") (lit "a") false;
   sample_event CHAT_MESSAGE (lit "v") [(lit "message_type", VStr (lit "tool_call")); (lit "tool_call_id", VStr (lit "t"))];
   sample_delta THINKING_DELTA (lit "u") (lit "m") true; sample_delta ASSISTANT_DELTA (lit "u") (lit "b") true;
   sample_delta ASSISTANT_DELTA (lit "u") (lit "c") false].
Abbreviation sample_replay := (replay (fun _ => []) (fun _ => None) (fun _ => None) (fun _ => None) sample_events).

Lemma projection_invariant_witness :
  match sample_replay with Ok s => sound s /\ len s.(transcript).(conversation) = 4 | Raise _ => False end.
Proof.
  destruct sample_replay as [s|] eqn:E; [|vm_compute in E; discriminate E]. split.
  - refine (projection_invariant _ _ _ _ _ s _ E). by repeat constructor.
  - vm_compute in E. injection E as <-. reflexivity.
Defined.

Lemma streams_faithful_witness :
  match sample_replay with
  | Ok s => stream_of (items s.(transcript) None) assistant (lit "u") = lit "abc" /\ stream_of (items s.(transcript) None) thinking (lit "u") = lit "hm"
  | Raise _ => False
  end.
Proof.
  destruct sample_replay as [s|] eqn:E; [|vm_compute in E; discriminate E].
  assert (Forall (fun e => agent_ok (_sub_agent_key (fun _ => []) e)) sample_events) as H by (by repeat constructor).
  split; [rewrite (streams_faithful _ _ _ _ _ s H E) by (by left)|rewrite (streams_faithful _ _ _ _ _ s H E) by (by right)]; reflexivity.
Defined.
