(* ===== verification/ProjectionPeers.v ===== *)
(** * Peer messages, from the inbox to the transcript

    The inbox puts the wrapper of a message before the model as the text of a turn,
    and records the arrival and the delivery of the message as events
    ([deliver_inbound] in [kolega_code/session/inbox.py]); the projection shows the
    message and keeps its wrapper out of the transcript
    ([_consume_peer_turn] in [kolega_code/session/projection.py]). *)

From stdpp Require Import base gmap list strings numbers.
From Stdlib Require Import ZArith Lia.
From S2P Require Import Prelude PyStr PyVal Json JsonFacts Inbox Projection ProjectionFacts ProjectionStreams.

Abbreviation ptext := Inbox.text.
Abbreviation pid := Inbox.message_id.

(** [PeerMessage.event_content]. *)
Definition event_content (m : PeerMessage) : list (str * value) :=
  [(lit "message_id", VStr (pid m)); (lit "sender_id", VStr (sender_session_id m)); (lit "sender_title", VStr (sender_title m));
   (lit "text", VStr (ptext m)); (lit "reply_to", match reply_to m with Some r => VStr r | None => VNone end)].

(** What the transcript shows of a message. *)
Definition shown (m : PeerMessage) : str := _peer_display_text (sender_title m) (ptext m).

Section Peers.
Context {artifact : Type}.
Variable repr : value -> str.
Variable int_of_text : str -> option Z.
Variable to_float : value -> option value.
Variable dict_of_other : value -> option (list (str * value)).

Abbreviation entry := (@ConversationItem artifact).
Abbreviation event := (@AgentEvent artifact).
Abbreviation script := (@Transcript artifact).
Abbreviation state := (@PresentationState artifact).
Abbreviation agent_of e := (_sub_agent_key repr e).
Abbreviation handle := (@handle artifact repr int_of_text to_float dict_of_other).
Abbreviation fold := (@Projection.fold artifact repr int_of_text to_float dict_of_other).
Abbreviation replay := (@replay artifact repr int_of_text to_float dict_of_other).

(** ** Events that are not about peer messages *)

Definition is_user (x : entry) : bool := match x.(kind) with user => true | _ => false end.
Definition users (t : script) : list str := map Projection.text (List.filter is_user t.(conversation)).

Definition silent (t t' : script) : Prop :=
  users t' = users t /\ t'.(_peer_messages) = t.(_peer_messages) /\ t'.(_pending_peer_turns) = t.(_pending_peer_turns).
Lemma silent_trans t1 t2 t3 : silent t1 t2 -> silent t2 t3 -> silent t1 t3.
Proof. intros (E1 & E2 & E3) (F1 & F2 & F3). split_and!; congruence. Qed.
Lemma silent_refl t : silent t t.
Proof. done. Qed.

Lemma silent_same (t t' : script) : conversation t' = conversation t -> t'.(_peer_messages) = t.(_peer_messages) ->
  t'.(_pending_peer_turns) = t.(_pending_peer_turns) -> silent t t'.
Proof. intros E1 E2 E3. split_and!; [unfold users; by rewrite E1|done..]. Qed.

Lemma silent_append (t : script) (e : event) x : is_user x = false \/ agent_of e <> None -> silent t (_append repr t x e).
Proof.
  intros H. unfold _append. destruct (agent_of e) as [k|]; [by apply silent_same|]. destruct H as [H|]; [|done].
  unfold silent, users. cbn [conversation set_conversation _peer_messages _pending_peer_turns].
  rewrite List.filter_app, map_app. change (is_user (stamped x e None)) with (is_user x). cbn. 
  replace (is_user (stamped x e None)) with (is_user x) by done. rewrite H. cbn. by rewrite app_nil_r.
Qed.

Lemma users_alter (l : list entry) i f x : l !! i = Some x -> is_user x = false -> is_user (f x) = false ->
  List.filter is_user (alter f i l) = List.filter is_user l.
Proof.
  revert i. induction l as [|y l IH]; intros [|i]; try done; cbn.
  - intros [= ->] -> ->. done.
  - intros H Hx Hf. destruct (is_user y); [f_equal|]; exact (IH i H Hx Hf).
Qed.
Lemma silent_mutate (t : script) a i x f : sequence t a !! i = Some x -> is_user x = false -> (f x).(kind) = x.(kind) ->
  silent t (mutate t a i f).
Proof.
  intros Hx Hu Hf. revert Hx. assert (is_user (f x) = false) as Hfu by (unfold is_user in *; rewrite Hf; exact Hu).
  assert (conversation t !! i = Some x -> silent t (set_conversation t (alter f i (conversation t)))) as Hc.
  { intros Hc. split; [|done]. unfold users. cbn. by rewrite (users_alter _ i f x). }
  unfold mutate. destruct a as [k|]; [|exact Hc]. cbn. destruct (dict_get (sub_agents t) k); [intros _; by apply silent_same|exact Hc].
Qed.
Lemma silent_resolved (t : script) (e : event) i x f : resolve_key repr t e i = Some x -> is_user x = false -> (f x).(kind) = x.(kind) ->
  silent t (mutate t (agent_of e) (default O i) f).
Proof. destruct i as [i|]; [|done]. intros Hx. by apply silent_mutate. Qed.
Lemma silent_set_tools (t t' : script) m : silent t t' -> silent t (set_tools t' m).
Proof. done. Qed.
Lemma silent_set_streams (t t' : script) m : silent t t' -> silent t (set_streams t' m).
Proof. done. Qed.

Lemma silent_delta k (t : script) (e : event) : is_stream k -> agent_ok (agent_of e) -> good t -> silent t (_on_assistant_delta repr k t e).
Proof.
  intros Hk Ha G. unfold _on_assistant_delta. set (u := uuid e).
  destruct (_streams t !! stream_key k (agent_of e) u) as [i|] eqn:Es.
  - destruct (stream_found t k _ _ i G Ha Es) as (x & Hx & Hkx & _). pose proof (resolve_items repr t e i x Hx) as E. rewrite E.
    assert (is_user x = false) as Hu by (unfold is_user; rewrite Hkx; by destruct Hk as [-> | ->]).
    destruct (truthy _); [apply silent_set_streams|]; by eapply (silent_resolved _ _ _ _ _ E).
  - cbn [resolve_key mbind option_bind]. destruct (nonempty _); [|done].
    destruct (truthy _); repeat apply silent_set_streams; apply silent_append; left; unfold is_user; cbn; by destruct Hk as [-> | ->].
Qed.

Lemma silent_tool_message (t : script) (e : event) st : silent t (_on_tool_message repr t e st).1.
Proof.
  unfold _on_tool_message. cbn zeta. set (i := if nonempty _ then _ else _).
  destruct (resolve_key repr t e i) as [x|] eqn:E.
  - destruct x as [[] ? ? ? ? ? ? ? ? ? ? ? ? ? ?]; cbn [fst];
      try (case_match; [apply silent_set_tools|]; apply silent_append; by left).
    case_match; [|apply silent_set_tools]; by eapply (silent_resolved _ _ _ _ _ E).
  - cbn [fst]. case_match; [apply silent_set_tools|]; apply silent_append; by left.
Qed.
Lemma silent_tool_streaming (t : script) (e : event) : agent_ok (agent_of e) -> good t -> silent t (_on_tool_streaming_update repr t e).
Proof.
  intros Ha G. unfold _on_tool_streaming_update. set (id := text_field repr e (lit "tool_call_id")).
  destruct (_tools t !! tool_key (agent_of e) id) as [i|] eqn:Et.
  - destruct (tool_found t _ _ _ G Ha Et) as (_ & x & Hx & Hk & _). pose proof (resolve_items repr t e i x Hx) as E. rewrite E.
    eapply (silent_resolved _ _ _ _ _ E); [unfold is_user; by rewrite Hk|done].
  - cbn [resolve_key mbind option_bind]. case_match; [apply silent_set_tools|]; apply silent_append; by left.
Qed.
Lemma silent_chat (t : script) (e : event) : silent t (_on_chat_message repr t e).1.
Proof.
  unfold _on_chat_message. set (ty := str_or repr _ _).
  destruct (_TOOL_STATUS ty) as [st|]; [apply silent_tool_message|].
  destruct (workflow_type ty); [unfold _on_workflow_message; repeat case_match; cbn [fst]; try done; apply silent_append; by left|].
  clearbody ty. set (p := if nonempty _ then _ else _).
  assert (silent t p.1) as Hp.
  { unfold p; destruct (nonempty _); [apply silent_append; left; unfold is_user; cbn; by destruct (str_eqb _ _)|done]. }
  clearbody p. destruct (get (content e) (lit "status")); [exact Hp|..]; (destruct (agent_of e) as [k|]; [by apply silent_same|exact Hp]).
Qed.

Definition still (s s' : state) : Prop := silent s.(transcript) s'.(transcript) /\ map user_text s'.(turns) = map user_text s.(turns).
Lemma still_same (s s' : state) : transcript s' = transcript s -> turns s' = turns s -> still s s'.
Proof. intros E1 E2. unfold still. by rewrite E1, E2. Qed.
Lemma still_transcript (s : state) t : silent (transcript s) t -> still s (set_transcript s t).
Proof. done. Qed.

(** Events other than those of peer messages and the turns of the session. *)
Definition aloof (e : event) : Prop :=
  match e.(event_type) with
  | PEER_MESSAGE_RECEIVED | PEER_MESSAGE_DELIVERED => False
  | TURN_STARTED => agent_of e <> None
  | _ => True
  end.

Lemma still_preview (s : state) (e : event) : agent_ok (agent_of e) -> sound s -> still s (_on_file_edit_preview repr s e).
Proof.
  intros Ha S. unfold _on_file_edit_preview. set (p := match agent_of e with Some _ => _ | None => _ end). clearbody p.
  cbn [transcript set_edit_previews]. destruct (nonempty _); [|by apply still_same].
  set (id := text_field repr e _). destruct (_tools (transcript s) !! tool_key (agent_of e) id) as [i|] eqn:Et; [|by apply still_same].
  destruct (tool_found _ _ _ _ (sound_transcript _ S) Ha Et) as (_ & x & Hx & Hk & _). pose proof (resolve_items repr _ e i x Hx) as E. rewrite E.
  split; [|done]. eapply (silent_resolved _ _ _ _ _ E); [unfold is_user; by rewrite Hk|done].
Qed.
Lemma still_status (s : state) (e : event) : still s (_on_status_update repr s e).
Proof. unfold _on_status_update. destruct (agent_of e) as [k|]; [|by destruct (nonempty _); apply still_same]. split; [by apply silent_same|done]. Qed.
Lemma still_context (s s' : state) (e : event) : _on_context_update repr int_of_text to_float s e = Ok s' -> still s s'.
Proof.
  unfold _on_context_update. intros (it & _ & (mt & _ & (up & _ & (wc & _ & E)%bind_Ok)%bind_Ok)%bind_Ok)%bind_Ok. revert E.
  destruct (agent_of e) as [k|]; intros [= <-]; [split; [by apply silent_same|done]|by apply still_same].
Qed.
Lemma still_terminal (s s' : state) txt : on_terminal s txt = Ok s' -> still s s'.
Proof. unfold on_terminal. intros (t & _ & E)%bind_Ok. injection E as <-. by apply still_same. Qed.
Lemma still_requested (s s' : state) (e : event) : _on_control_requested repr dict_of_other s e = Ok s' -> still s s'.
Proof.
  unfold _on_control_requested. destruct (_ || _); [intros [= <-]; by apply still_same|].
  intros (p & _ & E)%bind_Ok. injection E as <-. by apply still_same.
Qed.
Lemma still_ended (s : state) (e : event) : still s (_on_turn_ended repr s e).
Proof. unfold _on_turn_ended. destruct (agent_of e); [by apply still_same|]. split; [done|]. cbn. by apply update_last_keys. Qed.

Lemma handle_still (s s' : state) e : aloof e -> agent_ok (agent_of e) -> sound s -> handle s e = Ok s' -> still s s'.
Proof.
  intros Hd Ha S. unfold Projection.handle. unfold aloof in Hd.
  destruct (event_type e); try done; try (intros [= <-]; try (by apply still_same)).
  all: try (apply still_transcript; apply silent_delta; [first [by left|by right]|done|apply S]).
  all: try (by apply still_status); try (by apply still_preview); try (by apply still_ended).
  - unfold _on_system_message. destruct (nonempty _); [|by apply still_same]. apply still_transcript, silent_append. by left.
  - unfold on_transcript. pose proof (silent_chat (transcript s) e) as G. by destruct (_on_chat_message _ _ _) as [t []].
  - unfold _on_log_message. destruct (nonempty _); by apply still_same.
  - intros (s1 & E & E')%bind_Ok. injection E' as <-. change (still s s1).
    destruct (nonempty _); [by eapply still_terminal|injection E as <-; by apply still_same].
  - by apply still_terminal.
  - destruct (nonempty _); by apply still_same.
  - by apply still_context.
  - unfold _on_compaction_status. destruct (agent_of e); by apply still_same.
  - apply still_transcript, silent_tool_streaming; [done|apply S].
  - unfold _on_turn_started. destruct (agent_of e) eqn:Ea; [|done]. cbv zeta. destruct (nonempty _); [|by apply still_same].
    apply still_transcript, silent_append. right. by rewrite Ea.
  - split; [|done]. apply silent_append. by left.
  - by apply still_requested.
  - unfold _on_control_resolved. destruct (existsb _ _); by apply still_same.
Qed.

(** ** The queue of the inbox *)

Definition peer_header : str := lit "[Peer message from session '".
Definition well_formed (m : PeerMessage) : Prop :=
  pid m <> [] /\ sender_session_id m <> [] /\ sender_title m <> [] /\ ptext m <> [].
Definition carries (e : event) (ty : event_kind) (m : PeerMessage) : Prop := e.(event_type) = ty /\ e.(content) = event_content m.
Definition starts_turn (e : event) (t : str) : Prop :=
  e.(event_type) = TURN_STARTED /\ agent_of e = None /\ text_field repr e (lit "user_text") = t.

(** A session whose inbox holds the queue [q] at first: which messages arrive and
    are delivered, in the order of the queue the turns of delivered messages, the
    turns that are typed, and any other events; [out] is what its turns show, and
    the messages with an identifier are those of [table]. *)
Inductive session (table : str -> PeerMessage) : list str -> list PeerMessage -> list event -> list PeerMessage -> list (str * bool) -> Prop :=
| no_event seen q : session table seen q [] q []
| received seen q m e es q' out : carries e PEER_MESSAGE_RECEIVED m -> well_formed m -> table (pid m) = m ->
    session table seen q es q' out -> session table seen q (e :: es) q' out
| delivered_now seen q m e es q' out : carries e PEER_MESSAGE_DELIVERED m -> well_formed m -> table (pid m) = m -> pid m ∉ seen ->
    session table (pid m :: seen) (q ++ [m]) es q' out -> session table seen q (e :: es) q' out
| peer_turn seen q m e es q' out : starts_turn e (peer_model_text m) ->
    session table seen q es q' out -> session table seen (m :: q) (e :: es) q' ((shown m, false) :: out)
| typed_turn seen q t e es q' out : starts_turn e t -> t <> [] -> startswith peer_header t = false ->
    session table seen q es q' out -> session table seen q (e :: es) q' ((t, true) :: out)
| other_event seen q e es q' out : aloof e -> session table seen q es q' out -> session table seen q (e :: es) q' out.

(** The projection knows what the inbox holds. *)
Record tracks (table : str -> PeerMessage) (seen : list str) (q : list PeerMessage) (s : state) : Prop := {
  track_queue : (transcript s).(_pending_peer_turns) = map pid q;
  track_known : Forall (fun m => well_formed m /\ table (pid m) = m) q;
  track_record : forall id r, (transcript s).(_peer_messages) !! id = Some r ->
    r.(sender) = sender_title (table id) /\ Projection.sender_id r = sender_session_id (table id) /\ r.(body) = ptext (table id) /\
    (Projection.delivered r = true -> id ∈ seen)
}.

Lemma content_fields (e : event) ty m : carries e ty m ->
  _string_content e (lit "message_id") = pid m /\ _string_content e (lit "sender_id") = sender_session_id m /\
  _string_content e (lit "sender_title") = sender_title m /\ _text_of e [lit "text"] = ptext m.
Proof.
  intros [_ Hc]. unfold _string_content, _text_of. rewrite Hc. split_and!; try reflexivity.
  change (get (event_content m) (lit "text")) with (VStr (ptext m)). cbn [List.find].
  change (get (event_content m) (lit "text")) with (VStr (ptext m)).
  destruct (ptext m) eqn:E; [done|exact E].
Qed.

(** The wrapper of a message is recognised by its record. *)
Lemma wraps_model m r : r.(sender) = sender_title m -> Projection.sender_id r = sender_session_id m -> r.(body) = ptext m ->
  well_formed m -> wraps r (peer_model_text m) = true.
Proof.
  intros E1 E2 E3 (_ & H2 & _ & H4). unfold wraps. rewrite E2, E3.
  destruct (sender_session_id m) as [|c w] eqn:Es; [done|]. destruct (ptext m) as [|c' w'] eqn:Et; [done|]. cbn [nonempty andb].
  rewrite <- Et. apply andb_true_intro. split.
  - unfold peer_prefix, peer_model_text, provenance_preamble. rewrite E1, E2, Es.
    apply startswith_spec. eexists. rewrite <- !app_assoc. do 4 f_equal.
  - apply endswith_spec. eexists. reflexivity.
Qed.

Definition known_as (r : _PeerMessageRecord) (m : PeerMessage) : Prop :=
  r.(sender) = sender_title m /\ Projection.sender_id r = sender_session_id m /\ r.(body) = ptext m.
Definition was_delivered (t : script) (id : str) : bool :=
  match t.(_peer_messages) !! id with Some r => Projection.delivered r | None => false end.

Lemma users_push (t : script) x : is_user x = false -> users (set_conversation t (conversation t ++ [x])) = users t.
Proof. intros H. unfold users. cbn. rewrite List.filter_app, map_app. cbn. rewrite H. cbn. by rewrite app_nil_r. Qed.

Lemma nonempty_ne {A} (l : list A) : l <> [] -> nonempty l = true.
Proof. by destruct l. Qed.

Lemma peer_outcome (t : script) (e : event) dl m ty : good t -> carries e ty m -> well_formed m -> let t' := _on_peer_message t e dl in
  users t' = users t /\
  (exists r, t'.(_peer_messages) = <[pid m := r]> t.(_peer_messages) /\ known_as r m /\
     Projection.delivered r = was_delivered t (pid m) || dl) /\
  t'.(_pending_peer_turns) = if dl && negb (was_delivered t (pid m)) then t.(_pending_peer_turns) ++ [pid m] else t.(_pending_peer_turns).
Proof.
  intros [_ P] Hc (H1 & H2 & H3 & H4). cbn zeta. unfold _on_peer_message.
  destruct (content_fields e ty m Hc) as (-> & -> & -> & ->). cbv zeta. rewrite !nonempty_ne by done. cbn match. unfold was_delivered.
  destruct (_peer_messages t !! pid m) as [r|] eqn:Er.
  - destruct (wf_record _ _ _ P _ _ Er) as (_ & x & Hx & Hk & _). cbn [conversation set_peers]. change (conversation t) with (items t None).
    rewrite Hx. destruct x as [k0 ? ? ? ? ? ? ? ? ? ? ? ? ? ?] eqn:Ex. cbn in Hk. subst k0. rewrite <- Ex in Hx.
    cbn [index Projection.sender_id sender body Projection.delivered]. split_and!.
    + match goal with |- context [alter ?f _ _] => assert (users (set_conversation t (alter f (index r) (conversation t))) = users t) as Hu end.
      { unfold users. cbn. rewrite (users_alter _ (index r) _ x); [done|exact Hx|by subst x|by subst x]. }
      destruct (_ && _) in |- *; exact Hu.
    + eexists. split; [by destruct ((Projection.delivered r || dl) && negb (Projection.delivered r))|]. split; [by split_and!|done].
    + destruct (Projection.delivered r), dl; done.
  - unfold peer_append. rewrite nonempty_ne by done. cbn [users conversation set_peers _peer_messages _pending_peer_turns]. split_and!.
    + by apply users_push.
    + eexists. split; [done|]. split; [by split_and!|done].
    + by destruct dl.
Qed.

(** ** Each event *)

Definition keeps (s s' : state) : Prop := forall id, is_Some ((transcript s).(_peer_messages) !! id) -> is_Some ((transcript s').(_peer_messages) !! id).

Lemma tracks_peer table seen q (s : state) (e : event) dl m ty : sound s -> tracks table seen q s -> carries e ty m -> well_formed m -> table (pid m) = m ->
  (dl = true -> pid m ∉ seen) -> let s' := set_transcript s (_on_peer_message (transcript s) e dl) in
  tracks table (if dl then pid m :: seen else seen) (if dl then q ++ [m] else q) s' /\ users (transcript s') = users (transcript s) /\ turns s' = turns s /\ keeps s s' /\
  is_Some ((transcript s').(_peer_messages) !! pid m).
Proof.
  intros S T Hc Hw Ht Hs. cbn zeta. destruct (peer_outcome (transcript s) e dl m ty (sound_transcript _ S) Hc Hw) as (Hu & (r & Hr & Hk & Hd) & Hp).
  assert (dl = true -> was_delivered (transcript s) (pid m) = false) as Hnew.
  { intros E. unfold was_delivered. destruct (_ !! _) as [r0|] eqn:E0; [|done]. apply not_true_iff_false. intros Hd0. apply (Hs E).
    by apply (track_record _ _ _ _ T _ _ E0). }
  split_and!.
  - split; cbn [transcript set_transcript].
    + rewrite Hp, (track_queue _ _ _ _ T). destruct dl; [|done]. rewrite Hnew by done. cbn. by rewrite map_app.
    + destruct dl; [|by apply T]. apply Forall_app. split; [by apply T|]. constructor; [done|constructor].
    + intros id r0. rewrite Hr. intros [[<- <-]|[Hne H]]%lookup_insert_Some.
      * rewrite Ht. destruct Hk as (? & ? & ?). split_and!; [done..|]. rewrite Hd. intros [E|E]%orb_prop; [|rewrite E; by left].
        assert (pid m ∈ seen); [|destruct dl; [by right|done]]. unfold was_delivered in E. destruct (_ !! pid m) as [r1|] eqn:E1; [|done].
        by apply (track_record _ _ _ _ T _ _ E1).
      * destruct (track_record _ _ _ _ T _ _ H) as (? & ? & ? & Hi). split_and!; [done..|]. intros E%Hi. destruct dl; [by right|done].
  - done.
  - done.
  - intros id [r0 H]. cbn. rewrite Hr. destruct (decide (id = pid m)) as [->|Hne]; [rewrite lookup_insert_eq|rewrite lookup_insert_ne by done]; eauto.
  - cbn. rewrite Hr, lookup_insert_eq. eauto.
Qed.

Lemma consume_head (pm : gmap str _PeerMessageRecord) id r pd t : pm !! id = Some r -> wraps r t = true ->
  consume pm (id :: pd) t = Some (_peer_display_text r.(sender) r.(body), pd).
Proof. intros H Hw. cbn. by rewrite H, Hw. Qed.
Lemma consume_none (pm : gmap str _PeerMessageRecord) pd t : startswith peer_header t = false -> consume pm pd t = None.
Proof.
  intros H. induction pd as [|id pd IH]; [done|]. cbn. rewrite IH. destruct (pm !! id) as [r|]; [|done].
  destruct (wraps r t) eqn:E; [|done]. apply andb_prop in E as [[_ E]%andb_prop _]. apply startswith_spec in E as (w & ->).
  unfold peer_prefix in H. change (lit "[Peer message from session '") with peer_header in H. rewrite <- app_assoc in H. by rewrite startswith_app in H.
Qed.

Lemma handle_turn (s s' : state) (e : event) t : starts_turn e t -> handle s e = Ok s' ->
  match consume (transcript s).(_peer_messages) (transcript s).(_pending_peer_turns) t with
  | Some (c :: x, pd) => users (transcript s') = users (transcript s) /\ map user_text (turns s') = map user_text (turns s) ++ [c :: x] /\
      (transcript s').(_peer_messages) = (transcript s).(_peer_messages) /\ (transcript s').(_pending_peer_turns) = pd
  | Some ([], _) => True
  | None => t <> [] -> users (transcript s') = users (transcript s) ++ [t] /\ map user_text (turns s') = map user_text (turns s) ++ [t] /\
      (transcript s').(_peer_messages) = (transcript s).(_peer_messages) /\
      (transcript s').(_pending_peer_turns) = (transcript s).(_pending_peer_turns)
  end.
Proof.
  intros (Ht & Ha & Hu). unfold Projection.handle. rewrite Ht. unfold _on_turn_started. rewrite Ha, Hu. unfold _consume_peer_turn.
  destruct (consume _ _ _) as [[[|c x] pd]|] eqn:E; [done|intros [= <-]|].
  - cbn. by rewrite map_app.
  - cbv zeta. intros [= <-] Hne. rewrite nonempty_ne by done. unfold _append. cbn [transcript set_transcript set_activity set_turns turns]. rewrite Ha.
    cbn. rewrite map_app. split_and!; try done. unfold users. cbn. by rewrite List.filter_app, map_app.
Qed.

Lemma tracks_other table seen q (s s' : state) : still s s' -> tracks table seen q s ->
  tracks table seen q s' /\ users (transcript s') = users (transcript s) /\ map user_text (turns s') = map user_text (turns s) /\ keeps s s'.
Proof.
  intros ((Hu & Hp & Hd) & Ht) T. split_and!; [|done|done|intros id; by rewrite Hp].
  split; [rewrite Hd|..]; [apply T|apply T|]. intros id r. rewrite Hp. apply T.
Qed.

Lemma tracks_turn table seen q m (s s' : state) (e : event) : sound s -> tracks table seen (m :: q) s -> starts_turn e (peer_model_text m) ->
  handle s e = Ok s' ->
  tracks table seen q s' /\ users (transcript s') = users (transcript s) /\ map user_text (turns s') = map user_text (turns s) ++ [shown m] /\ keeps s s'.
Proof.
  intros S T He H. pose proof (track_queue _ _ _ _ T) as Hq. cbn in Hq.
  pose proof (track_known _ _ _ _ T) as Hk. apply list.Forall_cons in Hk as [[Hw Ht] Hk].
  destruct (sound_transcript _ S) as [_ P].
  destruct (wf_pending _ _ _ P (pid m)) as (r & Hr & _); [rewrite Hq; by left|].
  destruct (track_record _ _ _ _ T _ _ Hr) as (E1 & E2 & E3 & _). rewrite Ht in E1, E2, E3.
  pose proof (handle_turn s s' e _ He H) as G. rewrite Hq, (consume_head _ _ _ _ _ Hr (wraps_model m r E1 E2 E3 Hw)) in G.
  rewrite E1, E3 in G. fold (shown m) in G.
  destruct (shown m) as [|c x] eqn:Es; [unfold shown, _peer_display_text in Es; by destruct (nonempty _)|].
  destruct G as (G1 & G2 & G3 & G4). split_and!; [|done|done|intros id; by rewrite G3].
  split; [done|done|]. intros id r0. rewrite G3. apply T.
Qed.

Lemma tracks_typed table seen q t (s s' : state) (e : event) : tracks table seen q s -> starts_turn e t -> t <> [] ->
  startswith peer_header t = false -> handle s e = Ok s' ->
  tracks table seen q s' /\ users (transcript s') = users (transcript s) ++ [t] /\ map user_text (turns s') = map user_text (turns s) ++ [t] /\ keeps s s'.
Proof.
  intros T He Hne Hh H. pose proof (handle_turn s s' e _ He H) as G. rewrite (consume_none _ _ _ Hh) in G.
  destruct (G Hne) as (G1 & G2 & G3 & G4). split_and!; [|done|done|intros id; by rewrite G3].
  split; [by rewrite G4; apply T|apply T|]. intros id r0. rewrite G3. apply T.
Qed.

Definition about (m : PeerMessage) (e : event) : Prop := carries e PEER_MESSAGE_RECEIVED m \/ carries e PEER_MESSAGE_DELIVERED m.
Definition recorded (s : state) (m : PeerMessage) : Prop := is_Some ((transcript s).(_peer_messages) !! pid m).

Lemma carries_pid (e : event) ty ty' m m' : carries e ty m -> carries e ty' m' -> pid m = pid m'.
Proof. intros [_ E] [_ E']. rewrite E in E'. unfold event_content in E'. by simplify_eq. Qed.
Lemma about_recorded (e : event) m m' (s : state) : about m e -> about m' e -> recorded s m -> recorded s m'.
Proof. unfold recorded. intros [H|H] [H'|H'] HR; by rewrite <- (carries_pid _ _ _ _ _ H H'). Qed.

(** What a session makes of a state. *)
Definition follows (table : str -> PeerMessage) (s s' : state) (es : list event) (q' : list PeerMessage) (out : list (str * bool)) : Prop :=
  users (transcript s') = users (transcript s) ++ map fst (List.filter snd out) /\
  map user_text (turns s') = map user_text (turns s) ++ map fst out /\
  (exists seen, tracks table seen q' s') /\
  keeps s s' /\ forall e m, e ∈ es -> about m e -> recorded s' m.


(** One event of a session. *)
Record advance (table : str -> PeerMessage) (seen : list str) (q : list PeerMessage) (h : list (str * bool)) (e : event) (s s1 : state) : Prop := {
  adv_tracks : tracks table seen q s1;
  adv_users : users (transcript s1) = users (transcript s) ++ map fst (List.filter snd h);
  adv_turns : map user_text (turns s1) = map user_text (turns s) ++ map fst h;
  adv_keeps : keeps s s1;
  adv_about : forall m, about m e -> recorded s1 m
}.

Lemma advance_peer table seen q (s s1 : state) (e : event) (dl : bool) m : let ty := if dl then PEER_MESSAGE_DELIVERED else PEER_MESSAGE_RECEIVED in
  sound s -> tracks table seen q s -> carries e ty m -> well_formed m -> table (pid m) = m -> (dl = true -> pid m ∉ seen) -> handle s e = Ok s1 ->
  advance table (if dl then pid m :: seen else seen) (if dl then q ++ [m] else q) [] e s s1.
Proof.
  intros ty S T Hc Hw Ht Hs Eh. destruct (tracks_peer table seen q s e dl m ty S T Hc Hw Ht Hs) as (T1 & U & V & K & R).
  assert (s1 = set_transcript s (_on_peer_message (transcript s) e dl)) as ->.
  { unfold Projection.handle in Eh. rewrite (proj1 Hc) in Eh. subst ty. destruct dl; by injection Eh. }
  split; [done|by rewrite app_nil_r|by rewrite V, app_nil_r|done|].
  intros m' Hm'. apply (about_recorded e m m'); [|done|exact R]. destruct dl; [by right|by left].
Qed.

Lemma turn_not_about (e : event) t m : starts_turn e t -> ~ about m e.
Proof. intros [E _] [[E' _]|[E' _]]; rewrite E in E'; done. Qed.
Lemma aloof_not_about (e : event) m : aloof e -> ~ about m e.
Proof. intros H [[E' _]|[E' _]]; unfold aloof in H; by rewrite E' in H. Qed.

Lemma advance_turn table seen q m (s s1 : state) (e : event) : sound s -> tracks table seen (m :: q) s -> starts_turn e (peer_model_text m) ->
  handle s e = Ok s1 -> advance table seen q [(shown m, false)] e s s1.
Proof.
  intros S T He Eh. destruct (tracks_turn table seen q m s s1 e S T He Eh) as (T1 & U & V & K).
  split; [done|by rewrite app_nil_r|done|done|]. intros m' H. by destruct (turn_not_about _ _ _ He H).
Qed.
Lemma advance_typed table seen q t (s s1 : state) (e : event) : tracks table seen q s -> starts_turn e t -> t <> [] ->
  startswith peer_header t = false -> handle s e = Ok s1 -> advance table seen q [(t, true)] e s s1.
Proof.
  intros T He Hne Hh Eh. destruct (tracks_typed table seen q t s s1 e T He Hne Hh Eh) as (T1 & U & V & K).
  split; [done..|]. intros m' H. by destruct (turn_not_about _ _ _ He H).
Qed.
Lemma advance_other table seen q (s s1 : state) (e : event) : aloof e -> agent_ok (agent_of e) -> sound s -> tracks table seen q s ->
  handle s e = Ok s1 -> advance table seen q [] e s s1.
Proof.
  intros Hal Ha S T Eh. destruct (tracks_other table seen q s s1 (handle_still s s1 e Hal Ha S Eh) T) as (T1 & U & V & K).
  split; [done|by rewrite app_nil_r|by rewrite app_nil_r|done|]. intros m' H. by destruct (aloof_not_about _ _ Hal H).
Qed.

Lemma advance_follows table seen q h (s s1 s' : state) e es q' out : advance table seen q h e s s1 -> follows table s1 s' es q' out ->
  follows table s s' (e :: es) q' (h ++ out).
Proof.
  intros [_ E1 E2 E3 E4] (F1 & F2 & F3 & F4 & F5). split_and!; [| |done| |].
  - by rewrite F1, E1, <- app_assoc, List.filter_app, map_app.
  - by rewrite F2, E2, <- app_assoc, map_app.
  - intros id Hid. by apply F4, E3.
  - intros e' m [->|Hin]%elem_of_cons Ha; [|by eapply F5]. by apply F4, E4.
Qed.

(** Through the fold, which first moves the clock. *)
Lemma fold_step table seen q seen' q' h e es q'' out : (forall s s1 : state, sound s -> tracks table seen q s -> handle s e = Ok s1 -> advance table seen' q' h e s s1) ->
  (forall s s' : state, Forall (fun e => agent_ok (agent_of e)) es -> sound s -> tracks table seen' q' s -> foldM fold es s = Ok s' -> follows table s s' es q'' out) ->
  forall s s' : state, Forall (fun e => agent_ok (agent_of e)) (e :: es) -> sound s -> tracks table seen q s -> foldM fold (e :: es) s = Ok s' ->
    follows table s s' (e :: es) q'' (h ++ out).
Proof.
  intros Hstep IH s s' Hk S T H. apply list.Forall_cons in Hk as [Ha Hk]. cbn [foldM] in H. destruct (fold s e) as [s1|] eqn:Ef; [|done].
  assert (exists s0 : state, advance table seen' q' h e s0 s1 /\ transcript s0 = transcript s /\ turns s0 = turns s) as (s0 & A & Et & Er).
  { revert Ef. unfold Projection.fold. destruct (seq e) as [n|]; [destruct (n <=? last_seq s); [done|]|]; intros Eh;
      (eexists; split; [apply Hstep; [|  |exact Eh]|done]); solve [by eapply sound_same|destruct T; by split]. }
  assert (advance table seen' q' h e s s1) as A'.
  { destruct A as [A1 A2 A3 A4 A5]. rewrite Et in A2. rewrite Er in A3. split; try done. intros id Hid. apply A4. by rewrite Et. }
  eapply advance_follows; [exact A'|]. apply IH; [done|by eapply fold_sound|apply A|done].
Qed.

Lemma session_follows table seen q es q' out : session table seen q es q' out -> forall s s' : state,
  Forall (fun e => agent_ok (agent_of e)) es -> sound s -> tracks table seen q s -> foldM fold es s = Ok s' -> follows table s s' es q' out.
Proof.
  intros H. induction H as [seen q|seen q m e es q' out Hc Hw Ht _ IH|seen q m e es q' out Hc Hw Ht Hs _ IH|seen q m e es q' out He _ IH
    |seen q t e es q' out He Hne Hh _ IH|seen q e es q' out Hal _ IH].
  - intros s s' _ S T. cbn [foldM]. intros [= <-]. split_and!; [by rewrite app_nil_r|by rewrite app_nil_r|by exists seen|by intros id|]. by intros e m ?%not_elem_of_nil.
  - apply (fold_step table seen q seen q [] e es q' out); [|exact IH]. intros s s1 S T. by apply (advance_peer table seen q s s1 e false m).
  - apply (fold_step table seen q (pid m :: seen) (q ++ [m]) [] e es q' out); [|exact IH]. intros s s1 S T.
    by apply (advance_peer table seen q s s1 e true m).
  - apply (fold_step table seen (m :: q) seen q [(shown m, false)] e es q' out); [|exact IH]. intros s s1 S T. by apply advance_turn.
  - apply (fold_step table seen q seen q [(t, true)] e es q' out); [|exact IH]. intros s s1 S T. by apply advance_typed.
  - intros s s' Hk. apply list.Forall_cons in Hk as Hk'. destruct Hk' as [Ha _]. revert s s' Hk.
    apply (fold_step table seen q seen q [] e es q' out); [|exact IH]. intros s s1 S T. by apply advance_other.
Qed.

(** a message that arrives through the inbox is shown once, and its wrapper is
    kept out of the transcript: in a session in which the turns of delivered
    messages come in the order of the queue, with any other events between, the
    user items are the typed texts, the turns show the typed text or the message
    itself, what stays pending is what is still queued, and every message that
    arrived or was delivered has exactly one item, which shows its sender and its
    text. *)
Theorem peer_messages_shown table es q' out (s : state) :
  Forall (fun e => agent_ok (agent_of e)) es -> session table [] [] es q' out -> replay es = Ok s ->
  users (transcript s) = map fst (List.filter snd out) /\
  map user_text (turns s) = map fst out /\
  (transcript s).(_pending_peer_turns) = map pid q' /\
  forall e m, e ∈ es -> about m e -> exists i x,
    (transcript s).(conversation) !! i = Some x /\ Projection.text x = shown (table (pid m)) /\
    forall j y, (transcript s).(conversation) !! j = Some y /\ y.(kind) = peer_message /\ y.(tool_call_id) = Some (pid m) <-> j = i /\ y = x.
Proof.
  intros Hk H HR. pose proof (foldM_sound repr int_of_text to_float dict_of_other es empty_state s Hk sound_empty HR) as S.
  assert (tracks table [] [] (@empty_state artifact)) as T0.
  { split; [done|constructor|]. intros id r. cbn. by rewrite lookup_empty. }
  destruct (session_follows _ _ _ _ _ _ H _ s Hk sound_empty T0 HR) as (F1 & F2 & (seen & T) & _ & F5). split_and!; [done|done|apply T|].
  intros e m He Ha. destruct (F5 e m He Ha) as [r Hr]. destruct (sound_transcript _ S) as [_ P].
  destruct (wf_record _ _ _ P _ _ Hr) as (_ & x & Hx & Hs & Hid & Htx & _). exists (index r), x. split; [done|].
  destruct (track_record _ _ _ _ T _ _ Hr) as (E1 & _ & E3 & _). split; [by rewrite Htx, E1, E3|].
  intros j y. split; [|intros [-> ->]; done]. intros (Hy & Hyk & Hyid).
  destruct (wf_peer _ _ _ P None j y _ Hy Hyk Hyid) as (_ & r' & Hr' & <-). rewrite Hr in Hr'. injection Hr' as <-.
  split; [done|]. cbn in Hx. congruence.
Qed.
End Peers.

(** A message arrives, is delivered and has its turn; then something is typed. *)
Definition sample_peer : PeerMessage :=
  {| Inbox.message_id := lit "m1"; sender_session_id := lit "s1"; sender_title := lit "api"; Inbox.text := lit "ready";
     reply_to := None; created_at := [] |}.
Definition peer_event (ty : event_kind) : @AgentEvent unit := sample_event ty (lit "p") (event_content sample_peer).
Definition turn_event (t : str) : @AgentEvent unit := sample_event TURN_STARTED (lit "t") [(lit "user_text", VStr t)].
Definition peer_session : list (@AgentEvent unit) :=
  [peer_event PEER_MESSAGE_RECEIVED; peer_event PEER_MESSAGE_DELIVERED; turn_event (peer_model_text sample_peer); turn_event (lit "go on")].
Abbreviation plain_replay := (replay (fun _ => []) (fun _ => None) (fun _ => None) (fun _ => None)).

Lemma peer_session_ok : session (fun _ => []) (fun _ => sample_peer) [] [] peer_session [] [(shown sample_peer, false); (lit "go on", true)].
Proof.
  apply (received _ _ _ _ sample_peer); [done|done|done|]. apply (delivered_now _ _ _ _ sample_peer); [done|done|done|by apply not_elem_of_nil|].
  apply peer_turn; [done|]. apply typed_turn; [done|done|by vm_compute|]. constructor.
Qed.
Lemma peer_messages_shown_witness :
  match plain_replay peer_session with
  | Ok s => users s.(transcript) = [lit "go on"] /\ map user_text s.(turns) = [shown sample_peer; lit "go on"]
  | Raise _ => False
  end.
Proof.
  destruct (plain_replay peer_session) as [s|] eqn:E; [|vm_compute in E; discriminate E].
  assert (Forall (fun e => agent_ok (_sub_agent_key (fun _ => []) e)) peer_session) as Hk by (by repeat constructor).
  destruct (peer_messages_shown _ _ _ _ _ _ _ _ s Hk peer_session_ok E) as (U & V & _). by rewrite U, V.
Defined.

(** A worker joins the messages that wait into one turn
    ([kolega_code/cli/main.py], [_drain_pending_peer_turns]); the wrapper of a
    joined turn belongs to no message, so it is shown as if it had been typed. *)
Definition other_peer : PeerMessage :=
  {| Inbox.message_id := lit "m2"; sender_session_id := lit "s2"; sender_title := lit "web"; Inbox.text := lit "waiting";
     reply_to := None; created_at := [] |}.
Definition joined_turn : str := peer_model_text sample_peer ++ [NL; NL] ++ peer_model_text other_peer.
Definition joined_session : list (@AgentEvent unit) :=
  [peer_event PEER_MESSAGE_DELIVERED; sample_event PEER_MESSAGE_DELIVERED (lit "q") (event_content other_peer); turn_event joined_turn].
Lemma joined_turn_shown :
  match plain_replay joined_session with
  | Ok s => users s.(transcript) = [joined_turn] /\ s.(transcript).(_pending_peer_turns) = [lit "m1"; lit "m2"]
  | Raise _ => False
  end.
Proof. by vm_compute. Qed.
