(* ===== verification/Recording.v ===== *)
(** * The recording of a session

    Models [kolega_code/session/recording.py]: what is broadcast live is also
    written to a store, the fast streams of it in fewer and larger records.  The
    store is an interface ([session/store.py]) with the reference implementation
    of [session/inmemory.py].

    A method that may raise after it changed the object is a computation on the
    recorder that returns [None] when it raises.  The write lock makes every
    broadcast, tick and flush one step.  Parameters: the size of an event as JSON
    ([model_dump_json] of a third-party library), the decoder of base64, the
    artifact store, and the identifier of the truncation notice. *)

From stdpp Require Import base gmap list strings numbers.
From Stdlib Require Import ZArith Lia Sorted.
From S2P Require Import Prelude PyStr Utf8 PyVal Json Projection.

#[global] Instance event_kind_eq_dec : EqDecision event_kind.
Proof. solve_decision. Defined.

(** ** Events and artifacts *)

Record ArtifactRef := {
  sha256 : str;
  bytes_ : Z;
  media_type : str;
  purpose : str;
  encoding : str;
  chars : option Z
}.

Abbreviation event := (@AgentEvent ArtifactRef).

Definition with_seq (e : event) (q : option Z) : event :=
  {| uuid := e.(uuid); event_type := e.(event_type); content := e.(content); is_streaming := e.(is_streaming);
     sub_agent_info := e.(sub_agent_info); seq := q; event_ms := e.(event_ms); event_artifacts := e.(event_artifacts) |}.
Definition with_ms (e : event) (ms : Z) : event :=
  {| uuid := e.(uuid); event_type := e.(event_type); content := e.(content); is_streaming := e.(is_streaming);
     sub_agent_info := e.(sub_agent_info); seq := e.(seq); event_ms := ms; event_artifacts := e.(event_artifacts) |}.
Definition with_content (e : event) (c : list (str * value)) (arts : list ArtifactRef) : event :=
  {| uuid := e.(uuid); event_type := e.(event_type); content := c; is_streaming := e.(is_streaming);
     sub_agent_info := e.(sub_agent_info); seq := e.(seq); event_ms := e.(event_ms); event_artifacts := arts |}.

(** ** The store *)

(** [append] gives the event its [seq], or raises. *)
Class SessionEventStore (S : Type) := {
  stored : S -> list event;
  append : S -> event -> option (S * Z)
}.
(** What every implementation promises: later appends always receive a higher
    [seq], from 1 on. *)
Definition ascending (l : list event) : Prop := StronglySorted Z.lt (0 :: omap seq l) /\ Forall (fun e => e.(seq) <> None) l.
Class StoreLaws (S : Type) `{SessionEventStore S} := {
  valid : S -> Prop;
  append_stored : forall s e s' q, valid s -> append s e = Some (s', q) ->
    valid s' /\ stored s' = stored s ++ [with_seq e (Some q)];
  valid_ascending : forall s, valid s -> ascending (stored s)
}.

(** [InMemorySessionEventStore], for one session. *)
Definition in_memory_append (events : list event) (e : event) : option (list event * Z) :=
  let q := len events + 1 in Some (events ++ [with_seq e (Some q)], q).
#[global] Instance in_memory : SessionEventStore (list event) := {| stored := fun l => l; append := in_memory_append |}.

(** ** Policy *)

Record RetentionPolicy := {
  stream_checkpoint_chars : Z;
  stream_checkpoint_ms : Z;
  coalesce_types : list event_kind;
  inline_payload_chars : Z;
  max_events : Z;
  max_bytes : Z
}.
Definition default_policy : RetentionPolicy :=
  {| stream_checkpoint_chars := 8000; stream_checkpoint_ms := 2000; coalesce_types := [TERMINAL_OUTPUT; TOOL_STREAMING_UPDATE];
     inline_payload_chars := 16000; max_events := 200000; max_bytes := 256 * 1024 * 1024 |}.

Definition _TEXT_KEYS : list str := [lit "text"; lit "output"; lit "content"; lit "message"; lit "summary"; lit "diff"].
Definition IMAGE_PAYLOAD_KEY : str := lit "images".

Abbreviation key := (event_kind * str)%type.

Record _StreamState := {
  template : event;
  pending : list str;
  latest : option str;
  last_flush_ms : Z;
  streaming : bool;
  open_index : Z
}.

(** ** The recorder *)

Section Recording.
Context {S : Type} {Store : SessionEventStore S}.
Variable repr : value -> str.
Variable size : event -> Z.
Variable b64decode : str -> option (list Z).
(** [put data media_type purpose encoding chars] of the artifact store, if there
    is one; it may raise. *)
Variable artifact_store : option (list Z -> str -> str -> str -> option Z -> option ArtifactRef).
Variable notice_uuid : str.
Variable policy : RetentionPolicy.

Record recorder := {
  store : S;
  _streams : list (key * _StreamState);       (* in the order of insertion *)
  _events_written : Z;
  _bytes_written : Z;
  _open_counter : Z;
  _last_persisted_elapsed_ms : Z;
  _retention_exceeded : bool;
  live : list event                           (* what [inner] was given *)
}.
Definition new_recorder (s : S) : recorder :=
  {| store := s; _streams := []; _events_written := 0; _bytes_written := 0; _open_counter := 0;
     _last_persisted_elapsed_ms := 0; _retention_exceeded := false; live := [] |}.

Definition set_store (r : recorder) s := Build_recorder s (_streams r) (_events_written r) (_bytes_written r) (_open_counter r) (_last_persisted_elapsed_ms r) (_retention_exceeded r) (live r).
Definition set_streams (r : recorder) m := Build_recorder (store r) m (_events_written r) (_bytes_written r) (_open_counter r) (_last_persisted_elapsed_ms r) (_retention_exceeded r) (live r).
Definition set_written (r : recorder) n b := Build_recorder (store r) (_streams r) n b (_open_counter r) (_last_persisted_elapsed_ms r) (_retention_exceeded r) (live r).
Definition set_counter (r : recorder) n := Build_recorder (store r) (_streams r) (_events_written r) (_bytes_written r) n (_last_persisted_elapsed_ms r) (_retention_exceeded r) (live r).
Definition set_elapsed (r : recorder) ms := Build_recorder (store r) (_streams r) (_events_written r) (_bytes_written r) (_open_counter r) ms (_retention_exceeded r) (live r).
Definition set_exceeded (r : recorder) := Build_recorder (store r) (_streams r) (_events_written r) (_bytes_written r) (_open_counter r) (_last_persisted_elapsed_ms r) true (live r).
Definition set_live (r : recorder) l := Build_recorder (store r) (_streams r) (_events_written r) (_bytes_written r) (_open_counter r) (_last_persisted_elapsed_ms r) (_retention_exceeded r) l.

(** Computations that may raise. *)
Definition M (A : Type) : Type := recorder -> recorder * option A.
#[global] Instance M_ret : MRet M := fun A a r => (r, Some a).
#[global] Instance M_bind : MBind M := fun A B f m r => match m r with (r', Some a) => f a r' | (r', None) => (r', None) end.
Definition modify (f : recorder -> recorder) : M unit := fun r => (f r, Some tt).
Definition ask {A} (f : recorder -> A) : M A := fun r => (r, Some (f r)).
Definition raise {A} : M A := fun r => (r, None).

(** ** Buffers by key *)

Definition key_eqb (a b : key) : bool := bool_decide (a = b).
Fixpoint slot (m : list (key * _StreamState)) (k : key) : option _StreamState :=
  match m with [] => None | (k', s) :: m' => if key_eqb k' k then Some s else slot m' k end.
Fixpoint set_slot (m : list (key * _StreamState)) (k : key) (s : _StreamState) : list (key * _StreamState) :=
  match m with [] => [(k, s)] | (k', s') :: m' => if key_eqb k' k then (k, s) :: m' else (k', s') :: set_slot m' k s end.
Definition del_slot (m : list (key * _StreamState)) (k : key) : list (key * _StreamState) := List.filter (fun e => negb (key_eqb e.1 k)) m.

(** ** Texts and payloads *)

Definition text_key (e : event) : option str :=
  List.find (fun k => match get e.(content) k with VStr _ => true | _ => false end) _TEXT_KEYS.
Definition _event_text (e : event) : str :=
  match text_key e with Some k => match get e.(content) k with VStr v => v | _ => [] end | None => [] end.
Definition _with_text (e : event) (t : str) : event :=
  let c := match text_key e with Some k => dict_set e.(content) k (VStr t) | None => e.(content) end in
  with_seq (with_content e c e.(event_artifacts)) None.

Definition ellipsis : Z := 8230.
(** [None]: the reference has no count of characters. *)
Definition _preview (v : str) (budget : Z) (ref : ArtifactRef) : option str :=
  n ← ref.(chars);
  let marker := [NL; NL; 91; ellipsis; 32] ++ dec_comma n ++ lit " characters elided; full payload sha256 " ++ ref.(sha256)
                  ++ [32; ellipsis; 93; NL; NL] in
  let available := Z.max 0 (budget - len marker) in
  let head := available / 2 in
  let tail := available - head in
  Some (slice_to v head ++ marker ++ (if tail =? 0 then [] else slice_from v (- tail))).

Definition encode_utf8 (s : str) : option (list Z) := if forallb scalar s then Some (utf8 s) else None.

Definition oversized (e : event) : list (str * str) :=
  omap (fun kv => match kv.2 with VStr v => if policy.(inline_payload_chars) <? len v then Some (kv.1, v) else None | _ => None end)
    e.(content).

Section Artifacts.
Variable put : list Z -> str -> str -> str -> option Z -> option ArtifactRef.

Definition image_ref (item : value) : option ArtifactRef :=
  match item with
  | VDict d =>
      match get d (lit "data") with
      | VStr encoded =>
          if nonempty encoded then
            data ← b64decode encoded;
            put data (if truthy (get d (lit "media_type")) then py_str repr (get d (lit "media_type")) else lit "application/octet-stream")
              (lit "image") (lit "base64") None
          else None
      | _ => None
      end
  | _ => None
  end.
Definition _offload_images (e : event) : event :=
  let payload := get e.(content) IMAGE_PAYLOAD_KEY in
  let c := List.filter (fun kv => negb (str_eqb kv.1 IMAGE_PAYLOAD_KEY)) e.(content) in
  match payload with
  | VList items => with_content e c (e.(event_artifacts) ++ omap image_ref items)
  | _ => with_content e c e.(event_artifacts)
  end.

Definition text_ref (v : str) : option ArtifactRef :=
  data ← encode_utf8 v; put data (lit "text/plain; charset=utf-8") (lit "tool_result") (lit "utf-8") (Some (len v)).
Fixpoint offload_texts (texts : list (str * str)) (e : event) (refs : list ArtifactRef) : option (event * list ArtifactRef) :=
  match texts with
  | [] => Some (e, refs)
  | (k, v) :: texts' =>
      match text_ref v with
      | None => offload_texts texts' e refs
      | Some ref =>
          p ← _preview v policy.(inline_payload_chars) ref;
          offload_texts texts' (with_content e (dict_set e.(content) k (VStr p)) e.(event_artifacts)) (refs ++ [ref])
      end
  end.
End Artifacts.

(** The stored form of an event, and whether it is the same object. *)
Definition _offload_large_payloads (e : event) : option (event * bool) :=
  match artifact_store with
  | None => Some (e, true)
  | Some put =>
      let images := truthy (get e.(content) IMAGE_PAYLOAD_KEY) in
      let texts := oversized e in
      if negb (nonempty texts) && negb images then Some (e, true)
      else
        let clone := if images then _offload_images put e else e in
        '(clone, refs) ← offload_texts put texts clone clone.(event_artifacts);
        Some (with_content clone clone.(content) refs, false)
  end.

(** ** Persisting *)

(** [late] is the time of the notice. *)
Definition _record_truncation (late : Z) : M unit :=
  modify set_exceeded;;
  r ← ask id;
  let notice := {| uuid := notice_uuid; event_type := STREAM_TRUNCATED;
    content := [(lit "reason", VStr (lit "retention_limit")); (lit "events_written", VInt (_events_written r));
                (lit "bytes_written", VInt (_bytes_written r)); (lit "max_events", VInt policy.(max_events));
                (lit "max_bytes", VInt policy.(max_bytes))];
    is_streaming := false; sub_agent_info := None; seq := None; event_ms := late; event_artifacts := [] |} in
  match append r.(store) notice with Some (s, _) => modify (fun r => set_store r s) | None => mret tt end.

(** The live event afterwards. *)
Definition _persist (late : Z) (e : event) : M event :=
  match _offload_large_payloads e with
  | None => raise
  | Some (st, same) =>
      r ← ask id;
      let st := with_ms st (Z.max st.(event_ms) (_last_persisted_elapsed_ms r)) in
      modify (fun r => set_elapsed r st.(event_ms));;
      let n := size st in
      if (policy.(max_events) <? _events_written r + 1) || (policy.(max_bytes) <? _bytes_written r + n) then
        _record_truncation late;; mret (if same then st else e)
      else
        match append r.(store) st with
        | None => raise
        | Some (s, q) =>
            modify (fun r => set_written (set_store r s) (_events_written r + 1) (_bytes_written r + n));;
            mret (if same then with_seq st (Some q)
                  else match e.(seq) with
                       | None => if e.(is_streaming) then e else with_seq e (Some q)
                       | Some _ => e
                       end)
        end
  end.

(** ** Buffers *)

Definition buffered (s : _StreamState) : str := match s.(latest) with Some t => t | None => concat s.(pending) end.

Definition _write_checkpoint (late : Z) (k : key) (keep_open : bool) : M unit :=
  r ← ask id;
  match slot (_streams r) k with
  | None => mret tt
  | Some s =>
      let checkpoint := buffered s in
      let emptied := {| template := s.(template); pending := []; latest := None;
                        last_flush_ms := if nonempty checkpoint then s.(template).(event_ms) else s.(last_flush_ms);
                        streaming := s.(streaming); open_index := s.(open_index) |} in
      modify (fun r => set_streams r (if keep_open then set_slot (_streams r) k emptied else del_slot (_streams r) k));;
      if nonempty checkpoint then _persist late (_with_text s.(template) checkpoint);; mret tt else mret tt
  end.

Definition older (a b : key * _StreamState) : bool := a.2.(open_index) <=? b.2.(open_index).
Definition _keys_opened_before (m : list (key * _StreamState)) (i : Z) : list key :=
  map fst (sort_by older (List.filter (fun e => e.2.(open_index) <? i) m)).

Fixpoint write_all (late : Z) (ks : list key) (keep_open : bool) : M unit :=
  match ks with [] => mret tt | k :: ks' => _write_checkpoint late k keep_open;; write_all late ks' keep_open end.

Definition _flush (late : Z) (k : key) (keep_open : bool) : M unit :=
  r ← ask id;
  match slot (_streams r) k with
  | None => mret tt
  | Some s => write_all late (_keys_opened_before (_streams r) s.(open_index)) true;; _write_checkpoint late k keep_open
  end.
Definition _flush_all (late : Z) : M unit := r ← ask id; write_all late (map fst (_streams r)) false.

(** The scope of an event: the delegate it belongs to. *)
Definition coalesce_scope (info : option (list (str * value))) : str :=
  match info with
  | Some (_ :: _ as d) =>
      if truthy (get d (lit "dispatch_id")) then py_str repr (get d (lit "dispatch_id"))
      else str_or repr (get d (lit "agent_name")) (lit "sub")
  | _ => []
  end.
Definition _coalesce_key (m : list (key * _StreamState)) (e : event) : option key :=
  let scope := coalesce_scope e.(sub_agent_info) in
  if existsb (fun ty => bool_decide (ty = e.(event_type))) policy.(coalesce_types) then
    let v := _text_of e [lit "tool_call_id"; lit "terminal_id"; lit "browser_id"] in
    Some (e.(event_type), if nonempty v then scope ++ [124] ++ v else scope)
  else
    let k := (e.(event_type), scope ++ [124] ++ e.(uuid)) in
    if e.(is_streaming) then Some k else match slot m k with Some _ => Some k | None => None end.

Definition replace_mode (e : event) : bool := str_eqb (text_field repr e (lit "stream_mode")) (lit "replace").
(** The buffer with the text of the event. *)
Definition with_text_of (s : _StreamState) (e : event) : _StreamState :=
  let t := _event_text e in
  {| template := e;
     pending := if replace_mode e then s.(pending) else if nonempty t then s.(pending) ++ [t] else s.(pending);
     latest := if replace_mode e then Some t else s.(latest);
     last_flush_ms := s.(last_flush_ms); streaming := s.(streaming); open_index := s.(open_index) |}.

Definition _accumulate (late : Z) (k : key) (e : event) : M unit :=
  r ← ask id;
  let n := _open_counter r + 1 in
  s ← match slot (_streams r) k with
      | Some s => mret s
      | None => modify (fun r => set_counter r n);;
                mret {| template := e; pending := []; latest := None; last_flush_ms := e.(event_ms); streaming := e.(is_streaming);
                        open_index := n |}
      end;
  let s := with_text_of s e in
  modify (fun r => set_streams r (set_slot (_streams r) k s));;
  if s.(streaming) && negb e.(is_streaming) then _flush late k false
  else
    let pending_chars := if replace_mode e then match s.(latest) with Some t => len t | None => 0 end else len (concat s.(pending)) in
    if pending_chars =? 0 then mret tt
    else if (policy.(stream_checkpoint_chars) <=? pending_chars)
            || (policy.(stream_checkpoint_ms) <=? e.(event_ms) - s.(last_flush_ms))
         then _flush late k true else mret tt.

(** The live event afterwards. *)
Definition _record (late : Z) (e : event) : M event :=
  r ← ask id;
  if _retention_exceeded r then mret e
  else match _coalesce_key (_streams r) e with
       | None => _flush_all late;; _persist late e
       | Some k => _accumulate late k e;; mret e
       end.

(** ** Steps *)

(** What happens to a recorder: an event is broadcast at a time, the idle loop
    wakes up, or the recording is flushed; [late] is the time of a notice. *)
Inductive op := Broadcast (e : event) (now late : Z) | Tick (now late : Z) | Flush (late : Z).

Definition broadcast_event (e : event) (now late : Z) (r : recorder) : recorder * bool :=
  let e := with_ms e now in
  match _record late e r with
  | (r, Some e') => (set_live r (r.(live) ++ [e']), false)
  | (r, None) => (set_live r (r.(live) ++ [e]), true)
  end.
Fixpoint flush_stale (late : Z) (ks : list key) : M unit :=
  match ks with [] => mret tt | k :: ks' => _flush late k true;; flush_stale late ks' end.
Definition stale (now : Z) (s : _StreamState) : bool :=
  (nonempty s.(pending) || match s.(latest) with Some _ => true | None => false end)
  && (policy.(stream_checkpoint_ms) <=? now - s.(last_flush_ms)).
Definition _checkpoint_idle_buffers (now late : Z) : M unit :=
  r ← ask id; flush_stale late (map fst (List.filter (fun e => stale now e.2) (_streams r))).

(** The recorder afterwards, and whether something was raised on the way. *)
Definition run (o : op) (r : recorder) : recorder * bool :=
  match o with
  | Broadcast e now late => broadcast_event e now late r
  | Tick now late => let '(r, x) := _checkpoint_idle_buffers now late r in (r, match x with None => true | _ => false end)
  | Flush late => let '(r, x) := _flush_all late r in (r, match x with None => true | _ => false end)
  end.
Fixpoint runs (os : list op) (r : recorder) : recorder * bool :=
  match os with
  | [] => (r, false)
  | o :: os' => let '(r, x) := run o r in let '(r, y) := runs os' r in (r, x || y)
  end.
End Recording.
