(* ===== verification/RecordingFacts.v ===== *)
(** * What a recording keeps

    Every text that was streamed is in the records and the buffers, in its order,
    so that a recording that was flushed says the same as the session it is of. *)

From stdpp Require Import base gmap list strings numbers.
From Stdlib Require Import ZArith Lia Sorted.
From S2P Require Import Prelude PyStr Utf8 PyVal Json JsonFacts Projection ProjectionFacts ProjectionStreams Recording.

Lemma key_eqb_spec (a b : key) : key_eqb a b = true <-> a = b.
Proof. unfold key_eqb. apply bool_decide_eq_true. Qed.
Lemma key_eqb_refl (a : key) : key_eqb a a = true.
Proof. by apply key_eqb_spec. Qed.
Lemma key_eqb_false (a b : key) : a <> b -> key_eqb a b = false.
Proof. intros H. by apply bool_decide_eq_false. Qed.

(** ** Buffers *)

Abbreviation buffers := (list (key * _StreamState)).
Implicit Types m : buffers.

Lemma slot_set m k s k' : slot (set_slot m k s) k' = if key_eqb k k' then Some s else slot m k'.
Proof.
  induction m as [|[j t] m IH]; [done|]. cbn. destruct (key_eqb j k) eqn:E.
  - apply key_eqb_spec in E as ->. cbn. by destruct (key_eqb k k').
  - cbn. rewrite IH. destruct (key_eqb j k') eqn:E'; [|done]. destruct (key_eqb k k') eqn:E2; [|done].
    apply key_eqb_spec in E' as ->. apply key_eqb_spec in E2 as ->. by rewrite key_eqb_refl in E.
Qed.
Lemma slot_del m k k' : slot (del_slot m k) k' = if key_eqb k k' then None else slot m k'.
Proof.
  unfold del_slot in *. induction m as [|[j t] m IH]; [by destruct (key_eqb k k')|]. cbn. destruct (key_eqb j k) eqn:E; cbn.
  - rewrite IH. apply key_eqb_spec in E as ->. by destruct (key_eqb k k').
  - rewrite IH. destruct (key_eqb j k') eqn:E'; [|done]. apply key_eqb_spec in E' as ->.
    destruct (key_eqb k k') eqn:E2; [|done]. apply key_eqb_spec in E2 as ->. by rewrite key_eqb_refl in E.
Qed.
Lemma slot_elem m k s : slot m k = Some s -> (k, s) ∈ m.
Proof.
  induction m as [|[j t] m IH]; [done|]. cbn. destruct (key_eqb j k) eqn:E; [|intros H; right; by apply IH].
  apply key_eqb_spec in E as ->. intros [= ->]. by left.
Qed.
Lemma slot_none m k : slot m k = None <-> k ∉ map fst m.
Proof.
  induction m as [|[j t] m IH]; [split; [intros _; apply not_elem_of_nil|done]|]. cbn. rewrite not_elem_of_cons, <- IH.
  destruct (key_eqb j k) eqn:E; [apply key_eqb_spec in E as ->|apply bool_decide_eq_false in E]; naive_solver.
Qed.

Lemma map_set_slot m k s : map fst (set_slot m k s) = match slot m k with Some _ => map fst m | None => map fst m ++ [k] end.
Proof.
  induction m as [|[j t] m IH]; [done|]. cbn. destruct (key_eqb j k) eqn:E; cbn; [by apply key_eqb_spec in E as ->|].
  rewrite IH. by destruct (slot m k).
Qed.

(** ** Computations *)

Section Triples.
Context {S : Type} {Store : SessionEventStore S}.
Abbreviation rec := (@recorder S).
Abbreviation M := (@M S).

(** A computation that does not raise leads from [P] to [Q]. *)
Definition triple {A} (P : rec -> Prop) (c : M A) (Q : A -> rec -> Prop) : Prop :=
  forall r, P r -> match c r with (r', Some a) => Q a r' | (_, None) => True end.
(** A computation that keeps [P], raising or not. *)
Definition keeping {A} (P : rec -> Prop) (c : M A) : Prop := forall r, P r -> P (c r).1.

Lemma triple_ret {A} (P : rec -> Prop) (a : A) (Q : A -> rec -> Prop) : (forall r, P r -> Q a r) -> triple P (mret a) Q.
Proof. intros H r Hr. by apply H. Qed.
Lemma triple_bind {A B} P (c : M A) (f : A -> M B) R Q : triple P c R -> (forall a, triple (R a) (f a) Q) -> triple P (c ≫= f) Q.
Proof. intros H1 H2 r Hr. specialize (H1 r Hr). unfold mbind, M_bind. destruct (c r) as [r' [a|]]; [|done]. by apply H2. Qed.
Lemma triple_ask {A} P (g : rec -> A) B (f : A -> M B) Q :
  (forall r, P r -> triple (fun r' => r' = r) (f (g r)) Q) -> triple P (ask g ≫= f) Q.
Proof. intros H r Hr. unfold mbind, M_bind, ask. by apply (H r Hr r). Qed.
Lemma triple_modify P (g : rec -> rec) (Q : unit -> rec -> Prop) : (forall r, P r -> Q tt (g r)) -> triple P (modify g) Q.
Proof. intros H r Hr. by apply H. Qed.
Lemma triple_raise {A} P (Q : A -> rec -> Prop) : triple P raise Q.
Proof. done. Qed.
Lemma triple_pre {A} (P P' : rec -> Prop) (c : M A) Q : (forall r, P r -> P' r) -> triple P' c Q -> triple P c Q.
Proof. intros H1 H2 r Hr. by apply H2, H1. Qed.
Lemma triple_post {A} P (c : M A) (Q Q' : A -> rec -> Prop) : (forall a r, Q a r -> Q' a r) -> triple P c Q -> triple P c Q'.
Proof. intros H1 H2 r Hr. specialize (H2 r Hr). destruct (c r) as [r' [a|]]; [by apply H1|done]. Qed.

Lemma keeping_ret {A} P (a : A) : keeping P (mret a).
Proof. by intros r. Qed.
Lemma keeping_bind {A B} P (c : M A) (f : A -> M B) : keeping P c -> (forall a, keeping P (f a)) -> keeping P (c ≫= f).
Proof. intros H1 H2 r Hr. specialize (H1 r Hr). unfold mbind, M_bind. destruct (c r) as [r' [a|]]; [by apply H2|done]. Qed.
Lemma keeping_ask {A} P (g : rec -> A) : keeping P (ask g).
Proof. by intros r. Qed.
Lemma keeping_modify (P : rec -> Prop) (g : rec -> rec) : (forall r, P r -> P (g r)) -> keeping P (modify g).
Proof. intros H r Hr. by apply H. Qed.
Lemma keeping_raise {A} P : keeping P (raise (A := A)).
Proof. by intros r. Qed.
End Triples.

(** ** What no computation changes *)

(** A property that the bookkeeping of the recorder cannot break. *)
Record robust {S : Type} {Store : SessionEventStore S} (P : @recorder S -> Prop) : Prop := {
  robust_store : forall r s, P r -> P (set_store r s);
  robust_streams : forall r m, P r -> P (set_streams r m);
  robust_written : forall r n b, P r -> P (set_written r n b);
  robust_counter : forall r n, P r -> P (set_counter r n);
  robust_elapsed : forall r ms, P r -> P (set_elapsed r ms);
  robust_exceeded : forall r, P r -> P (set_exceeded r)
}.

Ltac case_append := cbv zeta; match goal with |- context [append ?a ?b] => destruct (append a b) as [[? ?]|] end.

Section Robust.
Context {S : Type} {Store : SessionEventStore S}.
Variable repr : value -> str.
Variable size : event -> Z.
Variable b64decode : str -> option (list Z).
Variable artifact_store : option (list Z -> str -> str -> str -> option Z -> option ArtifactRef).
Variable notice_uuid : str.
Variable policy : RetentionPolicy.
Variable P : @recorder S -> Prop.
Hypothesis R : robust P.

Lemma keeping_truncation late : keeping P (_record_truncation notice_uuid policy late).
Proof.
  apply keeping_bind; [apply keeping_modify; intros; by apply (robust_exceeded _ R)|intros _]. apply keeping_bind; [apply keeping_ask|intros r].
  case_append; [apply keeping_modify; intros; by apply (robust_store _ R)|apply keeping_ret].
Qed.
Lemma keeping_persist late e : keeping P (_persist repr size b64decode artifact_store notice_uuid policy late e).
Proof.
  unfold _persist. destruct (_offload_large_payloads _ _ _ _ _) as [[st same]|]; [|apply keeping_raise].
  apply keeping_bind; [apply keeping_ask|intros r]. apply keeping_bind; [apply keeping_modify; intros; by apply (robust_elapsed _ R)|intros _].
  destruct (_ || _).
  - apply keeping_bind; [apply keeping_truncation|intros _; apply keeping_ret].
  - case_append; [|apply keeping_raise].
    apply keeping_bind; [apply keeping_modify; intros; by apply (robust_written _ R), (robust_store _ R)|intros _; apply keeping_ret].
Qed.
End Robust.

(** A property that concerns the store and the counters alone has to be looked
    after only where events are persisted. *)
Section Kept.
Context {S : Type} {Store : SessionEventStore S}.
Variable repr : value -> str.
Variable size : event -> Z.
Variable b64decode : str -> option (list Z).
Variable artifact_store : option (list Z -> str -> str -> str -> option Z -> option ArtifactRef).
Variable notice_uuid : str.
Variable policy : RetentionPolicy.
Variable P : @recorder S -> Prop.
Hypothesis P_streams : forall r m, P r -> P (set_streams r m).
Hypothesis P_counter : forall r n, P r -> P (set_counter r n).
Hypothesis P_persist : forall late e, keeping P (_persist repr size b64decode artifact_store notice_uuid policy late e).

Lemma keeping_checkpoint late k b : keeping P (_write_checkpoint repr size b64decode artifact_store notice_uuid policy late k b).
Proof.
  apply keeping_bind; [apply keeping_ask|intros r]. destruct (slot _ k); [|apply keeping_ret].
  apply keeping_bind; [apply keeping_modify; intros; by apply P_streams|intros _]. destruct (nonempty _); [|apply keeping_ret].
  apply keeping_bind; [apply P_persist|intros _; apply keeping_ret].
Qed.
Lemma keeping_write_all late ks b : keeping P (write_all repr size b64decode artifact_store notice_uuid policy late ks b).
Proof.
  induction ks as [|k ks IH]; [apply keeping_ret|]. apply keeping_bind; [apply keeping_checkpoint|intros _; apply IH].
Qed.
Lemma keeping_flush late k b : keeping P (_flush repr size b64decode artifact_store notice_uuid policy late k b).
Proof.
  apply keeping_bind; [apply keeping_ask|intros r]. destruct (slot _ k); [|apply keeping_ret].
  apply keeping_bind; [apply keeping_write_all|intros _; apply keeping_checkpoint].
Qed.
Lemma keeping_flush_all late : keeping P (_flush_all repr size b64decode artifact_store notice_uuid policy late).
Proof. apply keeping_bind; [apply keeping_ask|intros r; apply keeping_write_all]. Qed.
Lemma keeping_stale late ks : keeping P (flush_stale repr size b64decode artifact_store notice_uuid policy late ks).
Proof. induction ks as [|k ks IH]; [apply keeping_ret|]. apply keeping_bind; [apply keeping_flush|intros _; apply IH]. Qed.
Lemma keeping_idle now late : keeping P (_checkpoint_idle_buffers repr size b64decode artifact_store notice_uuid policy now late).
Proof. apply keeping_bind; [apply keeping_ask|intros r; apply keeping_stale]. Qed.
Lemma keeping_accumulate late k e : keeping P (_accumulate repr size b64decode artifact_store notice_uuid policy late k e).
Proof.
  apply keeping_bind; [apply keeping_ask|intros r]. apply keeping_bind.
  { destruct (slot _ k); [apply keeping_ret|]. apply keeping_bind; [apply keeping_modify; intros; by apply P_counter|intros _; apply keeping_ret]. }
  intros s. apply keeping_bind; [apply keeping_modify; intros; by apply P_streams|intros _].
  cbv zeta. repeat case_match; (apply keeping_flush || apply keeping_ret).
Qed.
Lemma keeping_record late e : keeping P (_record repr size b64decode artifact_store notice_uuid policy late e).
Proof.
  apply keeping_bind; [apply keeping_ask|intros r]. destruct (_retention_exceeded _); [apply keeping_ret|].
  destruct (_coalesce_key _ _ _ _) as [k|].
  - apply keeping_bind; [apply keeping_accumulate|intros _; apply keeping_ret].
  - apply keeping_bind; [apply keeping_flush_all|intros _; apply P_persist].
Qed.
End Kept.

Ltac keep R :=
  first [ apply (keeping_persist _ _ _ _ _ _ _ R)
        | first [apply keeping_checkpoint|apply keeping_flush_all|apply keeping_idle|apply keeping_accumulate|apply keeping_record];
          first [apply (robust_streams _ R)|apply (robust_counter _ R)|intros; apply (keeping_persist _ _ _ _ _ _ _ R)] ].

(** ** Deltas *)

(** [AgentEventEmitter.assistant_delta] in [kolega_code/events.py]. *)
Definition delta_content (t : str) (complete : bool) : list (str * value) := [(lit "text", VStr t); (lit "complete", VBool complete)].

Lemma delta_event_text (e : event) t c : content e = delta_content t c -> text_key e = Some (lit "text") /\ _event_text e = t /\ delta_text e = t.
Proof.
  intros E. unfold _event_text, delta_text, _text_of, text_key. rewrite E. split_and!; [done|done|].
  cbn. by destruct t.
Qed.
Lemma with_text_content (e : event) t c t' : content e = delta_content t c -> content (_with_text e t') = delta_content t' c.
Proof. intros E. unfold _with_text. destruct (delta_event_text e t c E) as (-> & _). cbn. by rewrite E. Qed.

Definition delta_type (k : item_kind) : event_kind := match k with thinking => THINKING_DELTA | _ => ASSISTANT_DELTA end.
Lemma delta_kind_type (e : event) k : delta_kind e = Some k <-> is_stream k /\ event_type e = delta_type k.
Proof.
  unfold delta_kind, is_stream. split.
  - destruct (event_type e) eqn:E; intros [= <-]; auto.
  - intros [[-> | ->] E]; by rewrite E.
Qed.
Lemma delta_type_inj k k' : is_stream k -> is_stream k' -> delta_type k = delta_type k' -> k = k'.
Proof. by intros [-> | ->] [-> | ->]. Qed.

Section Conservation.
Context {S : Type} {Store : SessionEventStore S} {Laws : StoreLaws S}.
Variable repr : value -> str.
Variable size : event -> Z.
Variable b64decode : str -> option (list Z).
Variable artifact_store : option (list Z -> str -> str -> str -> option Z -> option ArtifactRef).
Variable notice_uuid : str.
Variable policy : RetentionPolicy.
(** The delegate that each stream belongs to, and the length of a delta. *)
Variable owner : item_kind -> str -> option (list (str * value)).
Variable longest : Z.

Abbreviation rec := (@recorder S).
Abbreviation persist := (_persist repr size b64decode artifact_store notice_uuid policy).
Abbreviation offload := (_offload_large_payloads repr b64decode artifact_store policy).

Hypothesis plain_policy : Forall (fun ty => ty <> ASSISTANT_DELTA /\ ty <> THINKING_DELTA) policy.(coalesce_types).
Hypothesis some_chars : 0 < policy.(stream_checkpoint_chars).
Hypothesis some_length : 0 <= longest.
Hypothesis short_deltas : policy.(stream_checkpoint_chars) + longest <= policy.(inline_payload_chars).

(** A delta as the agents send it. *)
Definition fluent (e : event) : Prop :=
  match delta_kind e with
  | Some k => (exists t c, content e = delta_content t c /\ is_streaming e = negb c /\ len t <= longest) /\ 124 ∉ uuid e /\
              sub_agent_info e = owner k (uuid e)
  | None => True
  end.

Definition skey (k : item_kind) (u : str) : key := (delta_type k, coalesce_scope repr (owner k u) ++ [124] ++ u).
Definition agent (k : item_kind) (u : str) : option str := sub_agent_key repr (owner k u).

Lemma bar_inj (p p' u u' : str) : 124 ∉ u -> 124 ∉ u' -> p ++ [124] ++ u = p' ++ [124] ++ u' -> u = u'.
Proof.
  intros Hu Hu' E. apply (f_equal (@rev Z)) in E. rewrite !rev_app_distr in E. cbn in E. rewrite <- !app_assoc in E. cbn in E.
  assert (forall a b c d : list Z, 124 ∉ a -> 124 ∉ b -> a ++ 124 :: c = b ++ 124 :: d -> a = b) as H.
  { induction a as [|x a IH]; intros [|y b] c d Ha Hb Eq; cbn in Eq; simplify_eq; [done|set_solver|set_solver|].
    f_equal. eapply IH; [set_solver|set_solver|done]. }
  apply H in E; [|by rewrite list_elem_of_In, <- in_rev, <- list_elem_of_In|by rewrite list_elem_of_In, <- in_rev, <- list_elem_of_In].
  by rewrite <- (rev_involutive u), E, rev_involutive.
Qed.
Lemma skey_inj k k' u u' : is_stream k -> is_stream k' -> 124 ∉ u -> 124 ∉ u' -> skey k u = skey k' u' -> k = k' /\ u = u'.
Proof. intros Hk Hk' Hu Hu' [= E1 E2]. split; [by apply delta_type_inj|by eapply bar_inj]. Qed.

(** ** Texts in the records and in the buffers *)

Definition log_text (r : rec) k a u : str := concat (map (said repr k a u) (stored r.(store))).
Definition buffer_text (m : buffers) k a u : str :=
  if bool_decide (agent k u = a) then match slot m (skey k u) with Some s => buffered s | None => [] end else [].

(** Buffers of deltas hold few characters, but for one that may be longer. *)
Record slot_ok (x : option key) (k : key) (s : _StreamState) : Prop := {
  slot_type : event_type s.(template) = k.1;
  slot_fluent : fluent s.(template);
  slot_agent : agent_ok (_sub_agent_key repr s.(template));
  slot_key : forall j, delta_kind s.(template) = Some j -> k = skey j (uuid s.(template)) /\ s.(latest) = None /\
    len (concat s.(pending)) <= policy.(inline_payload_chars) /\
    (x <> Some k -> s.(pending) <> [] -> len (concat s.(pending)) < policy.(stream_checkpoint_chars))
}.
Definition buffers_ok (x : option key) (m : buffers) : Prop := forall k s, slot m k = Some s -> slot_ok x k s.

Lemma said_other k a u (e : event) : delta_kind e <> Some k \/ uuid e <> u \/ _sub_agent_key repr e <> a -> said repr k a u e = [].
Proof.
  intros H. unfold said. destruct (_ && _) eqn:E; [|done]. apply andb_prop in E as [[E1 E2]%andb_prop E3].
  apply bool_decide_eq_true in E1, E2, E3. naive_solver.
Qed.
Lemma said_own k u (e : event) : delta_kind e = Some k -> sub_agent_info e = owner k u -> uuid e = u ->
  forall a, said repr k a u e = if bool_decide (agent k u = a) then delta_text e else [].
Proof.
  intros Hk Ho Hu a. unfold said, agent, _sub_agent_key. rewrite Hk, Ho, (bool_decide_true (Some k = Some k)), (bool_decide_true (uuid e = u)) by done.
  by destruct (bool_decide (sub_agent_key repr (owner k u) = a)).
Qed.

(** ** Persisting *)

Lemma offload_texts_type put texts : forall (e : event) refs e' refs',
  offload_texts policy put texts e refs = Some (e', refs') -> event_type e' = event_type e /\ sub_agent_info e' = sub_agent_info e.
Proof.
  induction texts as [|[k v] texts IH]; intros e refs e' refs'; cbn [offload_texts]; [by intros [= <- _]|].
  destruct (text_ref put v) as [ref|]; [|apply IH]. destruct (_preview v _ ref) as [p|]; [|done]. cbn [mbind option_bind].
  intros H. by apply IH in H.
Qed.
Lemma offload_type (e st : event) same : offload e = Some (st, same) -> event_type st = event_type e /\ sub_agent_info st = sub_agent_info e.
Proof.
  unfold _offload_large_payloads. destruct artifact_store as [put|]; [|by intros [= <- _]].
  destruct (_ && _); [by intros [= <- _]|]. set (clone := if truthy _ then _ else _).
  assert (event_type clone = event_type e /\ sub_agent_info clone = sub_agent_info e) as [<- <-].
  { unfold clone. destruct (truthy _); [|done]. unfold _offload_images. by destruct (get _ _). }
  destruct (offload_texts _ _ _ _ _) as [[e' refs]|] eqn:Ht; [|done]. intros [= <- _].
  exact (offload_texts_type _ _ _ _ _ _ Ht).
Qed.

(** An event whose text stays in it. *)
Definition inline (e : event) : Prop :=
  delta_kind e = None \/ exists t c, content e = delta_content t c /\ len t <= policy.(inline_payload_chars).
Lemma offload_inline (e : event) t c : content e = delta_content t c -> len t <= policy.(inline_payload_chars) -> offload e = Some (e, true).
Proof.
  intros E Hl. unfold _offload_large_payloads. destruct artifact_store as [put|]; [|done].
  assert (oversized policy e = []) as ->.
  { unfold oversized. rewrite E. cbn. by rewrite (proj2 (Z.ltb_ge _ _) Hl). }
  by rewrite E.
Qed.

Definition same_words (e e' : event) : Prop := forall k a u, is_stream k -> said repr k a u e = said repr k a u e'.
Lemma silent_words (e e' : event) : delta_kind e = None -> event_type e' = event_type e -> same_words e' e.
Proof.
  intros H E k a u _. rewrite !said_other; [done|left; by rewrite H|left]. intros H'%delta_kind_type. rewrite E in H'.
  apply delta_kind_type in H'. congruence.
Qed.

Lemma offload_words (e st : event) same : inline e -> offload e = Some (st, same) -> same_words st e /\ sub_agent_info st = sub_agent_info e.
Proof.
  intros Hi Eo. destruct (offload_type e st same Eo) as [Hty Hsub]. split; [|done].
  destruct Hi as [Hk|(t & c & Ec & Hl)]; [by apply silent_words|]. rewrite (offload_inline e t c Ec Hl) in Eo. by injection Eo as <- _.
Qed.

(** The live event. *)
Lemma persist_live late (e : event) (r r' : rec) e' : inline e -> persist late e r = (r', Some e') ->
  same_words e' e /\ sub_agent_info e' = sub_agent_info e.
Proof.
  intros Hi. unfold _persist. destruct (offload e) as [[st same]|] eqn:Eo; [|done].
  destruct (offload_words e st same Hi Eo) as [Hw Hsub]. unfold id, raise, ask, modify, mbind, M_bind, mret, M_ret. cbn beta iota.
  set (st1 := with_ms st _). assert (same_words st1 e /\ sub_agent_info st1 = sub_agent_info e) as [Hw1 Hs1] by done.
  destruct (_ || _).
  - unfold _record_truncation, id, ask, modify, mbind, M_bind, mret, M_ret. cbn beta iota.
    case_append; intros [= _ <-]; by destruct same.
  - case_append; [|done]. intros [= _ <-]. destruct same; [done|]. by destruct (seq e), (is_streaming e).
Qed.

Lemma persist_spec late (e : event) (r r' : rec) e' : inline e -> valid r.(store) -> persist late e r = (r', Some e') ->
  _streams r' = _streams r /\
  (_retention_exceeded r' = true \/
   _retention_exceeded r' = _retention_exceeded r /\ valid r'.(store) /\
   exists st, stored r'.(store) = stored r.(store) ++ [st] /\ same_words st e /\ sub_agent_info st = sub_agent_info e).
Proof.
  intros Hi Hv. unfold _persist. destruct (offload e) as [[st same]|] eqn:Eo; [|done].
  destruct (offload_words e st same Hi Eo) as [Hw Hsub]. unfold id, raise, ask, modify, mbind, M_bind, mret, M_ret. cbn beta iota.
  set (st1 := with_ms st _). destruct (_ || _).
  - unfold _record_truncation, id, ask, modify, mbind, M_bind, mret, M_ret. cbn beta iota.
    case_append; intros [= <- _]; (split; [done|by left]).
  - cbn [store set_elapsed]. destruct (append (store r) st1) as [[s q]|] eqn:Ea; [|done]. intros [= <- _].
    split; [done|]. right. split; [done|]. destruct (append_stored _ _ _ _ Hv Ea) as [Hv' Es]. split; [exact Hv'|].
    by exists (with_seq st1 (Some q)).
Qed.

(** ** Checkpoints *)

Abbreviation write_checkpoint := (_write_checkpoint repr size b64decode artifact_store notice_uuid policy).

(** All that was said is in the records or in the buffers. *)
Record kept (x : option key) (T : item_kind -> option str -> str -> str) (r : rec) : Prop := {
  kept_valid : valid r.(store);
  kept_buffers : buffers_ok x (_streams r);
  kept_agents : Forall (fun e => agent_ok (_sub_agent_key repr e)) (stored r.(store));
  kept_total : forall k a u, is_stream k -> 124 ∉ u -> log_text r k a u ++ buffer_text (_streams r) k a u = T k a u
}.
Definition lost (r : rec) : Prop := _retention_exceeded r = true.
Definition conserves (x : option key) (T : item_kind -> option str -> str -> str) (r : rec) : Prop := lost r \/ kept x T r.

Definition rest (x : option key) (k : key) : option key := if bool_decide (x = Some k) then None else x.
Definition emptied (s : _StreamState) : _StreamState :=
  {| template := s.(template); pending := []; latest := None;
     last_flush_ms := if nonempty (buffered s) then s.(template).(event_ms) else s.(last_flush_ms);
     streaming := s.(streaming); open_index := s.(open_index) |}.
Definition closed (m : buffers) (k : key) (s : _StreamState) (keep_open : bool) : buffers :=
  if keep_open then set_slot m k (emptied s) else del_slot m k.

Lemma closed_slot m k s b k' : slot (closed m k s b) k' = if key_eqb k k' then (if b then Some (emptied s) else None) else slot m k'.
Proof. unfold closed. destruct b; [apply slot_set|]. rewrite slot_del. done. Qed.

Lemma closed_ok x m k s b : buffers_ok x m -> slot m k = Some s -> buffers_ok (rest x k) (closed m k s b).
Proof.
  intros H Hs k' s'. rewrite closed_slot. destruct (key_eqb k k') eqn:E.
  - apply key_eqb_spec in E as <-. destruct b; [|done]. intros [= <-]. destruct (H k s Hs) as [H1 H2 H0 H3].
    split; [done|done|done|]. cbn. intros j Hj. destruct (H3 j Hj) as (-> & _). split_and!; try done.
    change (len []) with 0. lia.
  - intros Hs'. destruct (H k' s' Hs') as [H1 H2 H0 H3]. split; [done|done|done|]. intros j Hj. destruct (H3 j Hj) as (Ek & El & Ei & Ec).
    split_and!; try done. intros Hx. apply Ec. intros ->. apply Hx. unfold rest. rewrite bool_decide_false; [done|].
    intros [= ->]. by rewrite key_eqb_refl in E.
Qed.

(** What a buffer says. *)
Lemma closed_text m k s b k0 a u : slot m k = Some s ->
  buffer_text m k0 a u = (if key_eqb k (skey k0 u) && bool_decide (agent k0 u = a) then buffered s else []) ++ buffer_text (closed m k s b) k0 a u.
Proof.
  intros Hs. unfold buffer_text. rewrite closed_slot. destruct (key_eqb k (skey k0 u)) eqn:E; [|done].
  apply key_eqb_spec in E as <-. rewrite Hs. destruct (bool_decide _); [|done]. destruct b; by rewrite app_nil_r.
Qed.
Lemma template_said x m k s k0 a u : buffers_ok x m -> slot m k = Some s -> is_stream k0 -> 124 ∉ u ->
  said repr k0 a u (_with_text s.(template) (buffered s)) = if key_eqb k (skey k0 u) && bool_decide (agent k0 u = a) then buffered s else [].
Proof.
  intros H Hs Hk Hu. destruct (H k s Hs) as [H1 H2 H0 H3].
  assert (delta_kind (_with_text (template s) (buffered s)) = delta_kind (template s)) as Ed by done.
  destruct (decide (delta_kind (template s) = Some k0 /\ uuid (template s) = u)) as [[Hd Hu']|Hn].
  - destruct (H3 k0 Hd) as (-> & _). rewrite Hu', key_eqb_refl. cbn [andb]. unfold fluent in H2. rewrite Hd, Hu' in H2.
    destruct H2 as ((t & c & Ec & _) & _ & Ho). rewrite (said_own k0 u); [|by rewrite Ed|done|done].
    by destruct (delta_event_text _ _ _ (with_text_content _ _ _ (buffered s) Ec)) as (_ & _ & ->).
  - rewrite said_other.
    + destruct (key_eqb k (skey k0 u)) eqn:E; [|done]. exfalso. apply key_eqb_spec in E. apply Hn.
      assert (delta_kind (template s) = Some k0) as Hd. { apply delta_kind_type. split; [done|]. by rewrite H1, E. }
      split; [done|]. destruct (H3 k0 Hd) as (E' & _). unfold fluent in H2. rewrite Hd in H2. destruct H2 as (_ & Hb & _).
      rewrite E in E'. by apply skey_inj in E' as [_ ->].
    + rewrite Ed. destruct (decide (delta_kind (template s) = Some k0)); [right; left; naive_solver|by left].
Qed.
Lemma template_inline x m k s : buffers_ok x m -> slot m k = Some s -> inline (_with_text s.(template) (buffered s)).
Proof.
  intros H Hs. destruct (H k s Hs) as [H1 H2 H0 H3]. destruct (delta_kind (template s)) as [j|] eqn:Hd; [|by left]. right.
  destruct (H3 j eq_refl) as (_ & El & Ei & _). unfold fluent in H2. rewrite Hd in H2. destruct H2 as ((t & c & Ec & _) & _).
  exists (buffered s), c. split; [by eapply with_text_content|]. unfold buffered. by rewrite El.
Qed.

Lemma kept_absent x T k (r : rec) : kept x T r -> slot (_streams r) k = None -> kept (rest x k) T r.
Proof.
  intros [Hv Hb Ha Ht] Hs. split; [done| |done|done]. intros k' s' Hs'. destruct (Hb k' s' Hs') as [H1 H2 H0 H3]. split; [done|done|done|].
  intros j Hj. destruct (H3 j Hj) as (Ek & El & Ei & Ec). split_and!; try done. intros Hx. apply Ec. intros ->. apply Hx.
  unfold rest. rewrite bool_decide_false; [done|]. intros [= ->]. congruence.
Qed.

Lemma checkpoint_kept late k b x T (r r' : rec) : kept x T r -> write_checkpoint late k b r = (r', Some tt) -> conserves (rest x k) T r'.
Proof.
  intros W. pose proof W as [Hv Hb Ha Ht]. unfold _write_checkpoint, id, ask, modify, mbind, M_bind, mret, M_ret. cbn beta iota.
  destruct (slot (_streams r) k) as [s|] eqn:Es; [|intros [= <-]; right; by apply kept_absent].
  fold (emptied s). change (if b then set_slot (_streams r) k (emptied s) else del_slot (_streams r) k) with (closed (_streams r) k s b).
  set (r1 := set_streams r (closed (_streams r) k s b)).
  destruct (nonempty (buffered s)) eqn:En.
  - destruct (persist late _ r1) as [r2 [e'|]] eqn:Ep; [|done]. intros [= <-].
    destruct (persist_spec late _ r1 r2 e' (template_inline x _ k s Hb Es) Hv Ep) as (Em & [Hl|(_ & Hv' & st & Est & Hw & Hsub)]); [by left|].
    right. split; [done|rewrite Em; by apply closed_ok| |].
    + rewrite Est. apply Forall_app. split; [done|]. constructor; [|constructor]. unfold _sub_agent_key. rewrite Hsub. apply (Hb k s Es).
    + intros k0 a u Hk Hu. rewrite <- Ht by done. unfold log_text. rewrite Est, Em.
      rewrite map_app, concat_app. cbn. rewrite app_nil_r, (Hw k0 a u Hk), (template_said x _ k s k0 a u Hb Es Hk Hu), <- app_assoc.
      by rewrite <- closed_text.
  - intros [= <-]. right. split; [done|by apply closed_ok|done|]. intros k0 a u Hk Hu. rewrite <- Ht by done.
    rewrite (closed_text (_streams r) k s b k0 a u Es). destruct (buffered s); [|done]. by destruct (_ && _).
Qed.

Lemma lost_robust : robust lost.
Proof. by split. Qed.
Lemma kept_weaken x T (r : rec) : kept None T r -> kept x T r.
Proof.
  intros [Hv Hb Ha Ht]. split; [done| |done|done]. intros k s Hs. destruct (Hb k s Hs) as [H1 H2 H0 H3]. split; [done|done|done|].
  intros j Hj. destruct (H3 j Hj) as (? & ? & ? & Hc). split_and!; try done. intros _. by apply Hc.
Qed.
Lemma conserves_rest x k T (r : rec) : conserves (rest x k) T r -> conserves x T r.
Proof. intros [H|H]; [by left|right]. revert H. unfold rest. case_bool_decide; [apply kept_weaken|done]. Qed.

Lemma checkpoint_conserves late k b x T : triple (conserves x T) (write_checkpoint late k b) (fun _ => conserves (rest x k) T).
Proof.
  intros r H. destruct (write_checkpoint late k b r) as [r' [[]|]] eqn:E; [|done]. destruct H as [H|H]; [left|by eapply checkpoint_kept].
  change r' with ((r', Some tt).1). rewrite <- E. by (assert (keeping lost (write_checkpoint late k b)) as K by keep lost_robust; apply K).
Qed.
Abbreviation write_all := (write_all repr size b64decode artifact_store notice_uuid policy).
Abbreviation flush := (_flush repr size b64decode artifact_store notice_uuid policy).
Abbreviation flush_all := (_flush_all repr size b64decode artifact_store notice_uuid policy).
Abbreviation accumulate := (_accumulate repr size b64decode artifact_store notice_uuid policy).

Lemma write_all_conserves late ks b x T : triple (conserves x T) (write_all late ks b) (fun _ => conserves x T).
Proof.
  induction ks as [|k ks IH]; [by apply triple_ret|]. eapply triple_bind; [apply checkpoint_conserves|intros []; cbn beta].
  eapply triple_pre; [|exact IH]. intros r. apply conserves_rest.
Qed.

Lemma flush_conserves late k b T : triple (conserves (Some k) T) (flush late k b) (fun _ => conserves None T).
Proof.
  apply triple_ask. intros r H. unfold id. destruct (slot (_streams r) k) as [s|] eqn:Es.
  - apply (triple_pre _ (conserves (Some k) T)); [by intros r' ->|]. eapply triple_bind; [apply write_all_conserves|intros []; cbn beta].
    eapply triple_post; [|apply checkpoint_conserves]. intros [] r'. unfold rest. by rewrite bool_decide_true.
  - apply triple_ret. intros r' ->. destruct H as [H|H]; [by left|right]. apply (kept_absent _ _ k) in H; [|done].
    unfold rest in H. by rewrite bool_decide_true in H.
Qed.

(** After a flush of everything the buffers are gone. *)
Definition drained (r : rec) : Prop := lost r \/ forall k, slot (_streams r) k = None.
Lemma checkpoint_removes late k x T (r r' : rec) k' : kept x T r -> write_checkpoint late k false r = (r', Some tt) ->
  k' = k \/ slot (_streams r) k' = None -> slot (_streams r') k' = None.
Proof.
  intros [Hv Hb _ _]. unfold _write_checkpoint, id, ask, modify, mbind, M_bind, mret, M_ret. cbn beta iota.
  destruct (slot (_streams r) k) as [s|] eqn:Es; [|intros E [Ek|Hk]; injection E as <-; [by rewrite Ek|done]].
  intros H Hk. assert (_streams r' = del_slot (_streams r) k) as ->.
  { revert H. set (r1 := set_streams r _). destruct (nonempty (buffered s)); [|by intros [= <-]].
    destruct (persist late _ r1) as [r2 [e'|]] eqn:Ep; [|done]. intros [= <-].
    by destruct (persist_spec late _ r1 r2 e' (template_inline x _ k s Hb Es) Hv Ep) as (-> & _). }
  rewrite slot_del. destruct (key_eqb k k') eqn:E; [done|]. destruct Hk as [->|Hk]; [by rewrite key_eqb_refl in E|done].
Qed.
Lemma write_all_drains late ks T : triple (fun r => conserves None T r /\ (lost r \/ forall k, k ∉ ks -> slot (_streams r) k = None)) (write_all late ks false)
  (fun _ r => conserves None T r /\ drained r).
Proof.
  induction ks as [|k ks IH]; [apply triple_ret; intros r [H [Hl|Hn]]; split; [done|by left|done|right; intros k; apply Hn, not_elem_of_nil]|].
  intros r [H Hn]. cbn. unfold mbind, M_bind. pose proof (checkpoint_conserves late k false None T r H) as Hc.
  destruct (write_checkpoint late k false r) as [r1 [[]|]] eqn:E; [|done].
  apply (IH r1). split; [eapply conserves_rest; exact Hc|]. destruct H as [Hl|Hw].
  - left. change r1 with ((r1, Some tt).1). rewrite <- E. by (assert (keeping lost (write_checkpoint late k false)) as K by keep lost_robust; apply K).
  - destruct Hn as [Hl|Hn]; [left; change r1 with ((r1, Some tt).1); rewrite <- E; by (assert (keeping lost (write_checkpoint late k false)) as K by keep lost_robust; apply K)|].
    right. intros k' Hk'. eapply checkpoint_removes; [exact Hw|exact E|]. destruct (decide (k' = k)) as [->|Hne]; [by left|right].
    apply Hn. by rewrite not_elem_of_cons.
Qed.
Lemma flush_all_drains late T : triple (conserves None T) (flush_all late) (fun _ r => conserves None T r /\ drained r).
Proof.
  apply triple_ask. intros r H. unfold id. eapply triple_pre; [|apply write_all_drains]. intros r' ->. split; [done|right].
  intros k Hk. by apply slot_none.
Qed.

(** ** Events *)

Definition plus (T : item_kind -> option str -> str -> str) (e : event) : item_kind -> option str -> str -> str :=
  fun k a u => T k a u ++ said repr k a u e.

Lemma delta_not_coalesced (e : event) j : delta_kind e = Some j ->
  existsb (fun ty => bool_decide (ty = e.(event_type))) policy.(coalesce_types) = false.
Proof.
  intros Hj. apply not_true_iff_false. intros (ty & Hin & E)%existsb_exists. apply bool_decide_eq_true in E. subst ty.
  rewrite Forall_forall in plain_policy. destruct (plain_policy _ Hin) as [H1 H2].
  apply delta_kind_type in Hj as [[-> | ->] Hty]; cbn in Hty; congruence.
Qed.
Lemma coalesce_key_spec m (e : event) k : fluent e -> _coalesce_key repr policy m e = Some k ->
  k.1 = event_type e /\ forall j, delta_kind e = Some j -> k = skey j (uuid e).
Proof.
  unfold _coalesce_key. intros Hf H. split.
  - destruct (existsb _ _); [injection H as <-; by destruct (nonempty _)|]. destruct (is_streaming e); [by injection H as <-|].
    destruct (slot m _); [by injection H as <-|done].
  - intros j Hj. rewrite (delta_not_coalesced e j Hj) in H. unfold fluent in Hf. rewrite Hj in Hf. destruct Hf as (_ & _ & Ho).
    unfold skey. rewrite <- Ho. apply delta_kind_type in Hj as [_ <-].
    destruct (is_streaming e); [by injection H as <-|]. destruct (slot m _); [by injection H as <-|done].
Qed.

Lemma delta_plain_mode (e : event) t c : content e = delta_content t c -> replace_mode repr e = false.
Proof. intros E. unfold replace_mode, text_field. by rewrite E. Qed.

(** The buffer of an event, before and after its text. *)
Definition opened (m : buffers) (k : key) (e : event) (n : Z) : _StreamState :=
  match slot m k with
  | Some s => s
  | None => {| template := e; pending := []; latest := None; last_flush_ms := e.(event_ms); streaming := e.(is_streaming); open_index := n |}
  end.

Lemma buffer_text_set m k s k0 a u : buffer_text (set_slot m k s) k0 a u =
  if key_eqb k (skey k0 u) then (if bool_decide (agent k0 u = a) then buffered s else []) else buffer_text m k0 a u.
Proof. unfold buffer_text. rewrite slot_set. by destruct (key_eqb k (skey k0 u)), (bool_decide _). Qed.

Lemma accumulate_text T (r : rec) (e : event) k n : fluent e -> agent_ok (_sub_agent_key repr e) -> kept None T r ->
  _coalesce_key repr policy (_streams r) e = Some k -> let s := with_text_of repr (opened (_streams r) k e n) e in
  kept (Some k) (plus T e) (set_streams r (set_slot (_streams r) k s)) /\
  ((replace_mode repr e = false -> len (concat s.(pending)) = 0 \/ len (concat s.(pending)) < policy.(stream_checkpoint_chars)) ->
   kept None (plus T e) (set_streams r (set_slot (_streams r) k s))).
Proof.
  intros Hf Hag [Hv Hb Ha Ht] Hk. cbn zeta. set (s0 := opened (_streams r) k e n). set (s := with_text_of repr s0 e).
  destruct (coalesce_key_spec _ _ _ Hf Hk) as [Hty Hkey].
  assert (forall j, delta_kind e = Some j -> exists t c, content e = delta_content t c /\ len t <= longest /\
     latest s = None /\ pending s = (if nonempty t then pending s0 ++ [t] else pending s0) /\ latest s0 = None /\
     (pending s0 <> [] -> len (concat (pending s0)) < stream_checkpoint_chars policy) /\
     concat (pending s0) = match slot (_streams r) k with Some s1 => buffered s1 | None => [] end) as Hd.
  { intros j Hj. unfold fluent in Hf. rewrite Hj in Hf. destruct Hf as ((t & c & Ec & _ & Hl) & _). exists t, c.
    destruct (delta_event_text e t c Ec) as (_ & Et & _). unfold s, with_text_of. rewrite (delta_plain_mode e t c Ec), Et. cbn.
    assert (latest s0 = None /\ (pending s0 <> [] -> len (concat (pending s0)) < stream_checkpoint_chars policy) /\
      concat (pending s0) = match slot (_streams r) k with Some s1 => buffered s1 | None => [] end) as (E1 & E2 & E3); [|by split_and!].
    unfold s0, opened. destruct (slot (_streams r) k) as [s1|] eqn:Es; [|done]. destruct (Hb k s1 Es) as [H1 H2 H0 H3].
    destruct (H3 j) as (_ & El & _ & Ei); [apply delta_kind_type; rewrite H1, Hty; by apply delta_kind_type|].
    split_and!; [done|by apply Ei|]. unfold buffered. by rewrite El. }
  assert (forall x, (forall j, delta_kind e = Some j -> x <> Some k -> pending s <> [] -> len (concat (pending s)) < stream_checkpoint_chars policy) ->
    kept x (plus T e) (set_streams r (set_slot (_streams r) k s))) as Hgen.
  { intros x Hx. split; [done| |done|].
    - intros k' s'. cbn. rewrite slot_set. destruct (key_eqb k k') eqn:E.
      + apply key_eqb_spec in E as <-. intros [= <-]. split; [done|done|done|]. intros j Hj. split; [by apply Hkey|].
        destruct (Hd j Hj) as (t & c & _ & Hl & El & Ep & _ & Hs0 & _). split_and!; [done| |by apply (Hx j)].
        rewrite Ep. destruct (pending s0) as [|p ps] eqn:E0; [destruct (nonempty t); cbn [concat app]; rewrite ?app_nil_r; [lia|change (len []) with 0; lia]|].
        specialize (Hs0 ltac:(done)). destruct (nonempty t); [|lia]. rewrite concat_app, len_app. cbn [concat] in *. rewrite app_nil_r. lia.
      + intros Hs'. destruct (Hb k' s' Hs') as [H1 H2 H0 H3]. split; [done|done|done|]. intros j Hj. destruct (H3 j Hj) as (? & ? & ? & Hc).
        split_and!; try done. intros _. by apply Hc.
    - intros k0 a u Hk0 Hu. unfold plus. rewrite <- Ht by done. unfold log_text. cbn [store set_streams _streams]. rewrite buffer_text_set, <- app_assoc. f_equal.
      destruct (key_eqb k (skey k0 u)) eqn:E.
      + apply key_eqb_spec in E. assert (delta_kind e = Some k0) as Hj by (apply delta_kind_type; split; [done|by rewrite <- Hty, E]).
        destruct (Hd k0 Hj) as (t & c & Ec & _ & El & Ep & _ & _ & Eb). pose proof Hf as Hf'. unfold fluent in Hf'. rewrite Hj in Hf'.
        destruct Hf' as (_ & Hbar & Ho). pose proof (Hkey k0 Hj) as Ek. rewrite E in Ek. apply skey_inj in Ek as [_ Eu]; [|done..].
        rewrite (said_own k0 u e Hj) by (by rewrite ?Eu). destruct (delta_event_text e t c Ec) as (_ & _ & ->).
        unfold buffer_text. rewrite <- E, <- Eb. destruct (bool_decide _); [|done]. unfold buffered. rewrite El, Ep.
        destruct t as [|c0 w]; cbn [nonempty]; [by rewrite app_nil_r|]. rewrite concat_app. cbn [concat]. by rewrite app_nil_r.
      + rewrite said_other; [by rewrite app_nil_r|]. destruct (decide (delta_kind e = Some k0)) as [Hj|]; [right; left|by left].
        intros <-. rewrite (Hkey k0 Hj), key_eqb_refl in E. done. }
  split; [apply Hgen; by intros|]. intros Hs. apply Hgen. intros j Hj _ Hne. destruct (Hd j Hj) as (t & c & Ec & _).
  destruct (Hs (delta_plain_mode e t c Ec)) as [H0|]; [rewrite H0; lia|done].
Qed.

Lemma lost_stays {A} (c : M A) (r r' : rec) (x : option A) : keeping lost c -> lost r -> c r = (r', x) -> lost r'.
Proof. intros Hc Hl E. change r' with ((r', x).1). rewrite <- E. by apply Hc. Qed.

(** What [_accumulate] does once the text is in the buffer. *)
Definition settle_buffer (late : Z) (k : key) (e : event) (s : _StreamState) : M unit :=
  if s.(streaming) && negb e.(is_streaming) then flush late k false
  else
    let pending_chars := if replace_mode repr e then match s.(latest) with Some t => len t | None => 0 end else len (concat s.(pending)) in
    if pending_chars =? 0 then mret tt
    else if (policy.(stream_checkpoint_chars) <=? pending_chars)
            || (policy.(stream_checkpoint_ms) <=? e.(event_ms) - s.(last_flush_ms))
         then flush late k true else mret tt.

Lemma settle_conserves late k (e : event) s T (r : rec) : kept (Some k) T r ->
  ((replace_mode repr e = false -> len (concat s.(pending)) = 0 \/ len (concat s.(pending)) < policy.(stream_checkpoint_chars)) -> kept None T r) ->
  match settle_buffer late k e s r with (r', Some _) => conserves None T r' | _ => True end.
Proof.
  intros H1 H2. unfold settle_buffer. cbv zeta.
  assert (forall b, match flush late k b r with (r', Some _) => conserves None T r' | _ => True end) as Hfl.
  { intros b. apply (flush_conserves late k b T r). by right. }
  destruct (streaming s && negb (is_streaming e)); [apply Hfl|].
  set (n := if replace_mode repr e then _ else _). destruct (n =? 0) eqn:E0.
  { right. apply H2. intros Hr. left. unfold n in E0. rewrite Hr in E0. by apply Z.eqb_eq. }
  destruct (stream_checkpoint_chars policy <=? n) eqn:E1; cbn [orb]; [apply Hfl|].
  destruct (stream_checkpoint_ms policy <=? event_ms e - last_flush_ms s); [apply Hfl|]. right. apply H2. intros Hr. right. unfold n in E1. rewrite Hr in E1. by apply Z.leb_gt.
Qed.

Lemma accumulate_conserves late k (e : event) T : fluent e -> agent_ok (_sub_agent_key repr e) ->
  triple (fun r => conserves None T r /\ _coalesce_key repr policy (_streams r) e = Some k) (accumulate late k e) (fun _ => conserves None (plus T e)).
Proof.
  intros Hf Hag r [[Hl|Hw] Hk].
  { destruct (accumulate late k e r) as [r' [a|]] eqn:E; [|done]. left. eapply lost_stays; [|exact Hl|exact E].
    keep lost_robust. }
  pose proof (accumulate_text T r e k (_open_counter r + 1) Hf Hag Hw Hk) as [A1 A2]. revert A1 A2. cbn zeta.
  unfold _accumulate, id, ask, modify, mbind, M_bind, mret, M_ret. cbn beta iota zeta. unfold opened.
  destruct (slot (_streams r) k) as [s0|] eqn:Es; intros A1 A2; [|].
  - apply (settle_conserves late k e _ (plus T e) _ A1 A2).
  - set (s := with_text_of repr _ e) in *. cbn [_streams set_counter].
    apply (settle_conserves late k e s (plus T e) (set_streams (set_counter r (_open_counter r + 1)) (set_slot (_streams r) k s))).
    + by destruct A1.
    + intros H. by destruct (A2 H).
Qed.

Abbreviation record := (_record repr size b64decode artifact_store notice_uuid policy).
Lemma fluent_inline (e : event) : fluent e -> inline e.
Proof.
  unfold fluent. destruct (delta_kind e) as [j|] eqn:Hj; [|intros _; by left]. intros ((t & c & Ec & _ & Hl) & _). right.
  exists t, c. split; [done|lia].
Qed.

Lemma record_conserves late (e : event) T : fluent e -> agent_ok (_sub_agent_key repr e) ->
  triple (conserves None T) (record late e) (fun e' r => conserves None (plus T e) r /\ same_words e' e /\ sub_agent_info e' = sub_agent_info e).
Proof.
  intros Hf Hag. apply triple_ask. intros r H. unfold id. destruct (_retention_exceeded r) eqn:El.
  { apply triple_ret. intros r' ->. split; [by left|done]. }
  destruct (_coalesce_key repr policy (_streams r) e) as [k|] eqn:Ek.
  - eapply triple_bind; [apply (triple_pre _ (fun r => conserves None T r /\ _coalesce_key repr policy (_streams r) e = Some k));
      [by intros r' ->|by apply accumulate_conserves]|]. intros []. by apply triple_ret.
  - eapply triple_bind; [apply (triple_pre _ (conserves None T)); [by intros r' ->|apply flush_all_drains]|]. intros [].
    intros r1 [Hc Hd]. destruct (persist late e r1) as [r2 [e'|]] eqn:Ep; [|done].
    destruct (persist_live late e r1 r2 e' (fluent_inline e Hf) Ep) as [W1 W2]. split; [|done].
    assert (lost r1 -> conserves None (plus T e) r2) as Hlost.
    { intros Hl. left. eapply lost_stays; [|exact Hl|exact Ep]. keep lost_robust. }
    destruct Hc as [Hl|[Hv Hb Ha Ht]]; [by apply Hlost|]. destruct Hd as [Hl|Hd]; [by apply Hlost|].
    destruct (persist_spec late e r1 r2 e' (fluent_inline e Hf) Hv Ep) as (Em & [Hl|(_ & Hv' & st & Est & Hw & Hsub)]); [by left|].
    right. split; [done|by rewrite Em| |].
    + rewrite Est. apply Forall_app. split; [done|]. constructor; [|constructor]. unfold _sub_agent_key. by rewrite Hsub.
    + intros k a u Hk Hu. unfold plus. rewrite <- Ht by done. unfold log_text. rewrite Est, Em, map_app, concat_app. cbn. rewrite app_nil_r, (Hw k a u Hk).
      unfold buffer_text. rewrite !Hd. destruct (bool_decide _); by rewrite !app_nil_r.
Qed.

(** ** Sessions *)

Abbreviation run := (run repr size b64decode artifact_store notice_uuid policy).
Abbreviation runs := (runs repr size b64decode artifact_store notice_uuid policy).

(** What is broadcast is as the agents send it. *)
Definition proper (o : op) : Prop :=
  match o with Broadcast e _ _ => fluent e /\ agent_ok (_sub_agent_key repr e) | _ => True end.
Definition live_text (r : rec) k a u : str := concat (map (said repr k a u) r.(live)).
(** The records and the buffers say what was broadcast. *)
Definition faithful (r : rec) : Prop :=
  Forall (fun e => agent_ok (_sub_agent_key repr e)) r.(live) /\ conserves None (live_text r) r.

Lemma kept_live x T (r : rec) l : kept x T r -> kept x T (set_live r l).
Proof. by intros []. Qed.
Lemma live_robust l : robust (fun r : rec => r.(live) = l).
Proof. by split. Qed.

Lemma stale_conserves late ks T : triple (conserves None T) (flush_stale repr size b64decode artifact_store notice_uuid policy late ks) (fun _ => conserves None T).
Proof.
  induction ks as [|k ks IH]; [by apply triple_ret|]. eapply (triple_bind _ _ _ (fun _ => conserves None T)); [|intros []; exact IH].
  eapply triple_pre; [|apply flush_conserves]. intros r [H|H]; [by left|right; by apply kept_weaken].
Qed.

Lemma faithful_quiet (c : M unit) (r r' : rec) : (forall T, triple (conserves None T) c (fun _ => conserves None T)) ->
  (forall l, keeping (fun r : rec => r.(live) = l) c) -> faithful r -> c r = (r', Some tt) -> faithful r'.
Proof.
  intros Hc Hl [Ha H] E. assert (live r' = live r) as El. { change r' with ((r', Some tt).1). rewrite <- E. by apply (Hl (live r)). }
  unfold faithful, live_text. rewrite El. split; [done|]. specialize (Hc _ r H). by rewrite E in Hc.
Qed.

Lemma run_faithful o (r r' : rec) : proper o -> faithful r -> run o r = (r', false) -> faithful r'.
Proof.
  intros Ho F. destruct o as [e now late|now late|late]; cbn [Recording.run].
  - destruct Ho as [Hf Hag]. destruct F as [Ha H]. unfold broadcast_event. set (e0 := with_ms e now).
    destruct (record late e0 r) as [r1 [e1|]] eqn:E; [|done]. intros [= <-].
    pose proof (record_conserves late e0 (live_text r) Hf Hag r H) as Hc. rewrite E in Hc. destruct Hc as (Hc & Hw & Hs).
    assert (live r1 = live r) as El. { change r1 with ((r1, Some e1).1). rewrite <- E. assert (keeping (fun r0 : rec => live r0 = live r) (record late e0)) as K by keep (live_robust (live r)). by apply K. }
    rewrite El. split.
    + cbn. apply Forall_app. split; [done|]. constructor; [|constructor]. unfold _sub_agent_key. by rewrite Hs.
    + destruct Hc as [Hl|[Hv Hb Hg Ht]]; [by left|right]. split; [done|done|done|]. intros k a u Hk Hu.
      unfold live_text. cbn [live set_live]. rewrite map_app, concat_app. cbn. rewrite app_nil_r, (Hw k a u Hk). by apply Ht.
  - destruct (_checkpoint_idle_buffers _ _ _ _ _ _ now late r) as [r1 [[]|]] eqn:E; [|done]. intros [= <-].
    eapply faithful_quiet; [| |exact F|exact E]; [intros T; apply triple_ask; intros r0 H; eapply triple_pre; [|apply stale_conserves]; by intros r' ->|].
    intros l. keep (live_robust l).
  - destruct (flush_all late r) as [r1 [[]|]] eqn:E; [|done]. intros [= <-].
    eapply faithful_quiet; [| |exact F|exact E]; [intros T; eapply triple_post; [|apply flush_all_drains]; by intros [] r' []|].
    intros l. keep (live_robust l).
Qed.

Lemma runs_faithful os : forall r r' : rec, Forall proper os -> faithful r -> runs os r = (r', false) -> faithful r'.
Proof.
  induction os as [|o os IH]; intros r r' Ho F; cbn [Recording.runs]; [by intros [= <-]|].
  apply list.Forall_cons in Ho as [Ho Hos]. destruct (run o r) as [r1 x] eqn:E1. destruct (runs os r1) as [r2 y] eqn:E2.
  intros [= <- Hx]. apply orb_false_iff in Hx as [-> ->]. eapply IH; [done| |exact E2]. by eapply run_faithful.
Qed.

Lemma runs_app os1 os2 (r r' : rec) : runs (os1 ++ os2) r = (r', false) -> exists r1, runs os1 r = (r1, false) /\ runs os2 r1 = (r', false).
Proof.
  revert r. induction os1 as [|o os1 IH]; intros r; cbn [app Recording.runs]; [by exists r|].
  destruct (run o r) as [r1 x]. destruct (runs (os1 ++ os2) r1) as [r2 y] eqn:E. intros [= <- Hx]. apply orb_false_iff in Hx as [-> ->].
  apply IH in E as (r3 & E1 & E2). exists r3. by rewrite E1, E2.
Qed.

Lemma new_faithful s : valid s -> stored s = [] -> faithful (new_recorder s).
Proof.
  intros Hv Hs. split; [constructor|]. right. split; cbn; [done|done|by rewrite Hs|]. intros k a u _ _. unfold log_text, live_text, buffer_text.
  cbn. rewrite Hs. by destruct (bool_decide _).
Qed.

(** A recording that was flushed and did not stop says what was broadcast. *)
Lemma flushed_says os late s (r : rec) : valid s -> stored s = [] -> Forall proper os ->
  runs (os ++ [Flush late]) (new_recorder s) = (r, false) -> _retention_exceeded r = false ->
  Forall (fun e => agent_ok (_sub_agent_key repr e)) (stored r.(store)) /\ Forall (fun e => agent_ok (_sub_agent_key repr e)) r.(live) /\
  forall k a u, is_stream k -> 124 ∉ u -> log_text r k a u = live_text r k a u.
Proof.
  intros Hv Hs Ho H Hr. apply runs_app in H as (r1 & H1 & H2).
  destruct (runs_faithful os _ _ Ho (new_faithful s Hv Hs) H1) as [Ha1 F1].
  cbn [Recording.runs Recording.run] in H2. destruct (flush_all late r1) as [r2 [[]|]] eqn:E; [|done]. cbn in H2. injection H2 as <-.
  pose proof (flush_all_drains late (live_text r1) r1 F1) as Hd. rewrite E in Hd. destruct Hd as [Hc Hd].
  assert (live r2 = live r1) as El.
  { change r2 with ((r2, Some tt).1). rewrite <- E. assert (keeping (fun r0 : rec => live r0 = live r1) (flush_all late)) as K by keep (live_robust (live r1)). by apply K. }
  destruct Hc as [Hl|[_ _ Hg Ht]]; [unfold lost in Hl; congruence|]. destruct Hd as [Hl|Hd]; [unfold lost in Hl; congruence|].
  split_and!; [done|by rewrite El|]. intros k a u Hk Hu. unfold live_text. rewrite El. change (concat _) with (live_text r1 k a u). rewrite <- (Ht k a u Hk Hu).
  unfold buffer_text. rewrite Hd. destruct (bool_decide _); by rewrite app_nil_r.
Qed.
End Conservation.
