(* ===== verification/RecordingReplay.v ===== *)
(** * Replaying a recording

    The recorder and the projection together: a recording shows the streams of the
    session it is of, within the bounds of its policy and in an order that the
    projection accepts; and where a recording says less than the session did. *)

From stdpp Require Import base gmap list strings numbers sorting.
From Stdlib Require Import ZArith Lia Sorted.
From S2P Require Import Prelude PyStr Utf8 PyVal Json JsonFacts Projection ProjectionFacts ProjectionStreams Recording RecordingFacts.

(** ** The store in memory *)

Definition numbered (l : list event) : Prop := forall i e, l !! i = Some e -> seq e = Some (Z.of_nat i + 1).

Lemma numbered_ascending l : numbered l -> ascending l.
Proof.
  intros H. split.
  - apply StronglySorted_cons. split.
    { apply list.Forall_forall. intros q (x & (i & Hx)%list_elem_of_lookup & Ex)%list_elem_of_omap. rewrite (H i x Hx) in Ex. injection Ex as <-. lia. }
    induction l as [|e l IH] using rev_ind; [constructor|].
    assert (numbered l) as Hl. { intros i x Hx. apply H. by apply lookup_app_l_Some. }
    assert (seq e = Some (Z.of_nat (length l) + 1)) as He. { apply H. rewrite lookup_app_r by done. by rewrite Nat.sub_diag. }
    rewrite omap_app. cbn. rewrite He. apply StronglySorted_app_2; [|by apply IH|repeat constructor].
    intros q q' Hq ->%list_elem_of_singleton. apply list_elem_of_omap in Hq as (x & (i & Hx)%list_elem_of_lookup & Ex).
    rewrite (Hl i x Hx) in Ex. injection Ex as <-. apply lookup_lt_Some in Hx. lia.
  - apply list.Forall_forall. intros e (i & He)%list_elem_of_lookup. by rewrite (H i e He).
Qed.

#[global] Program Instance in_memory_laws : StoreLaws (list event) := {| valid := numbered |}.
Next Obligation.
  intros s e s' q H. unfold append, stored, in_memory, in_memory_append. intros [= <- <-]. split; [|done].
  intros i x Hx. apply lookup_app_Some in Hx as [Hx|[Hi Hx]]; [by apply H|]. apply list_lookup_singleton_Some in Hx as [E <-].
  cbn. f_equal. unfold len. lia.
Qed.
Next Obligation. apply numbered_ascending. Qed.

(** ** Bounds and order *)

Section Bounds.
Context {S : Type} {Store : SessionEventStore S} {Laws : StoreLaws S}.
Variable repr : value -> str.
Variable size : event -> Z.
Variable b64decode : str -> option (list Z).
Variable artifact_store : option (list Z -> str -> str -> str -> option Z -> option ArtifactRef).
Variable notice_uuid : str.
Variable policy : RetentionPolicy.
Abbreviation rec := (@recorder S).
Abbreviation persist := (_persist repr size b64decode artifact_store notice_uuid policy).
Abbreviation run := (run repr size b64decode artifact_store notice_uuid policy).
Abbreviation runs := (runs repr size b64decode artifact_store notice_uuid policy).

Definition on_time (l : list event) : Prop := StronglySorted Z.le (map event_ms l).
(** The counters are those of the records, until the recording stops. *)
Record bounded (r : rec) : Prop := {
  bounded_valid : valid r.(store);
  bounded_events : _events_written r <= policy.(max_events);
  bounded_bytes : _bytes_written r <= policy.(max_bytes);
  bounded_count : _events_written r <= len (stored r.(store));
  bounded_exact : _retention_exceeded r = false ->
    len (stored r.(store)) = _events_written r /\ on_time (stored r.(store)) /\
    Forall (fun e => e.(event_ms) <= _last_persisted_elapsed_ms r) (stored r.(store))
}.

Lemma bounded_persist late (e : event) : keeping bounded (persist late e).
Proof.
  intros r B. pose proof B as [Hv He Hb Hc Hx]. unfold _persist. destruct (_offload_large_payloads _ _ _ _ _) as [[st same]|]; [|done].
  unfold id, raise, ask, modify, mbind, M_bind, mret, M_ret. cbn beta iota.
  set (st1 := with_ms st _). set (r1 := set_elapsed r (event_ms st1)).
  assert (_last_persisted_elapsed_ms r <= event_ms st1) as Hms by (cbn; lia).
  assert (Forall (fun x => event_ms x <= _last_persisted_elapsed_ms r) (stored (store r)) ->
    Forall (fun x => event_ms x <= event_ms st1) (stored (store r))) as Hle.
  { intros H. eapply list.Forall_impl; [exact H|]. intros x Hx'. cbn in Hx' |- *. lia. }
  assert (bounded r1) as B1.
  { split; try done. cbn. intros Hr. destruct (Hx Hr) as (H1 & H2 & H3). split_and!; [done|done|by apply Hle]. }
  destruct (_ || _) eqn:Eb.
  - unfold _record_truncation, id, ask, modify, mbind, M_bind, mret, M_ret. cbn beta iota zeta.
    match goal with |- context [append ?a ?n] => destruct (append a n) as [[s q]|] eqn:Ea end; cbn [fst].
    + destruct (append_stored _ _ _ _ Hv Ea) as [Hv' Es]. split; try done; cbn in Es |- *. rewrite Es, len_app. change (len [_]) with 1. lia.
    + by split.
  - destruct (append (store r) st1) as [[s q]|] eqn:Ea; [|exact B1]. cbn [fst].
    destruct (append_stored _ _ _ _ Hv Ea) as [Hv' Es]. apply orb_false_iff in Eb as [E1%Z.ltb_ge E2%Z.ltb_ge].
    split; cbn in E1, E2, Es |- *; [done|done|done|rewrite Es, len_app; change (len [_]) with 1; lia|].
    intros Hr. destruct (Hx Hr) as (H1 & H2 & H3). rewrite Es. split_and!.
    + rewrite len_app. change (len [_]) with 1. lia.
    + unfold on_time. rewrite map_app. apply StronglySorted_app_2; [|done|repeat constructor].
      intros a b (x & -> & Hin)%list_elem_of_fmap ->%list_elem_of_singleton. apply Hle in H3. rewrite list.Forall_forall in H3. by apply H3.
    + apply Forall_app. split; [by apply Hle|]. constructor; [cbn; lia|constructor].
Qed.

Lemma bounded_run o : forall r, bounded r -> bounded (run o r).1.
Proof.
  assert (forall r m, bounded r -> bounded (set_streams r m)) as H1 by (by intros r m []).
  assert (forall r n, bounded r -> bounded (set_counter r n)) as H2 by (by intros r n []).
  assert (forall late e, keeping bounded (persist late e)) as H3 by exact bounded_persist.
  intros r B. destruct o as [e now late|now late|late]; cbn [Recording.run].
  - unfold broadcast_event. pose proof (keeping_record repr size b64decode artifact_store notice_uuid policy bounded H1 H2 H3 late (with_ms e now) r B) as K.
    destruct (_record _ _ _ _ _ _ late (with_ms e now) r) as [r1 [e1|]]; by destruct K.
  - pose proof (keeping_idle repr size b64decode artifact_store notice_uuid policy bounded H1 H3 now late r B) as K.
    by destruct (_checkpoint_idle_buffers _ _ _ _ _ _ now late r).
  - pose proof (keeping_flush_all repr size b64decode artifact_store notice_uuid policy bounded H1 H3 late r B) as K.
    by destruct (_flush_all _ _ _ _ _ _ late r).
Qed.
Lemma bounded_runs os : forall r, bounded r -> bounded (runs os r).1.
Proof.
  induction os as [|o os IH]; intros r B; cbn [Recording.runs]; [done|]. pose proof (bounded_run o r B) as B1.
  destruct (run o r) as [r1 x]. specialize (IH r1 B1). by destruct (runs os r1).
Qed.
Lemma bounded_new s : valid s -> stored s = [] -> 0 <= policy.(max_events) -> 0 <= policy.(max_bytes) -> bounded (new_recorder s).
Proof. intros Hv Hs He Hb. split; cbn; rewrite ?Hs; try done. intros _. split_and!; [done|constructor|constructor]. Qed.

(** ** The projection accepts what the store holds *)

Variable int_of_text : str -> option Z.
Variable to_float : value -> option value.
Variable dict_of_other : value -> option (list (str * value)).
Abbreviation state := (@PresentationState ArtifactRef).
Abbreviation handle := (@handle ArtifactRef repr int_of_text to_float dict_of_other).
Abbreviation fold := (@Projection.fold ArtifactRef repr int_of_text to_float dict_of_other).
Abbreviation replay := (@replay ArtifactRef repr int_of_text to_float dict_of_other).

Definition in_turn (s : state) (x : result projection_error state) : Prop :=
  match x with Ok s' => last_seq s' = last_seq s | Raise (OutOfOrder _ _) => False | Raise _ => True end.
Lemma in_turn_bind {A} (s : state) (m : result projection_error A) (f : A -> result projection_error state) :
  match m with Raise (OutOfOrder _ _) => False | _ => True end -> (forall a, m = Ok a -> in_turn s (f a)) -> in_turn s (m ≫= f).
Proof. destruct m as [a|e]; cbn; intros H1 H2; [by apply H2|done]. Qed.
Lemma int_of_in_turn v : match int_of int_of_text v with Raise (OutOfOrder _ _) => False | _ => True end.
Proof. unfold int_of. by repeat case_match. Qed.
Lemma float_of_in_turn v : match float_of to_float v with Raise (OutOfOrder _ _) => False | _ => True end.
Proof. unfold float_of. by repeat case_match. Qed.
Lemma dict_in_turn v : match dict_or_empty dict_of_other v with Raise (OutOfOrder _ _) => False | _ => True end.
Proof. unfold dict_or_empty. by repeat case_match. Qed.
Lemma append_in_turn t txt : match _append_terminal t txt with Raise (OutOfOrder _ _) => False | _ => True end.
Proof.
  unfold _append_terminal. destruct (negb _); [done|]. destruct (_ <? _); [|done]. by destruct (_drop_terminal_prefix _ _ _ _) as [[[??]?]|].
Qed.

Lemma terminal_in_turn (s : state) txt : in_turn s (on_terminal s txt).
Proof. apply in_turn_bind; [apply append_in_turn|done]. Qed.
Lemma requested_in_turn (s : state) (e : event) : in_turn s (_on_control_requested repr dict_of_other s e).
Proof. unfold _on_control_requested. destruct (_ || _); [done|]. apply in_turn_bind; [apply dict_in_turn|done]. Qed.
Lemma context_in_turn (s : state) (e : event) : in_turn s (_on_context_update repr int_of_text to_float s e).
Proof.
  unfold _on_context_update. do 2 (apply in_turn_bind; [apply int_of_in_turn|intros ? _]). apply in_turn_bind; [apply float_of_in_turn|intros ? _].
  apply in_turn_bind; [apply int_of_in_turn|intros ? _]. by destruct (_sub_agent_key _ _).
Qed.
Lemma command_in_turn (s : state) (e : event) c : in_turn s (s ← (if nonempty c then on_terminal s (lit "$ " ++ c ++ [NL]) else Ok s);
  Ok (set_activity s (lit "running_tool"))).
Proof.
  destruct (nonempty c); [|done]. pose proof (terminal_in_turn s (lit "$ " ++ c ++ [NL])) as H. by destruct (on_terminal _ _) as [|[]].
Qed.

Lemma handle_in_turn (s : state) (e : event) : in_turn s (handle s e).
Proof.
  unfold Projection.handle. destruct (event_type e); try done.
  all: try apply command_in_turn; try apply terminal_in_turn; try apply requested_in_turn; try apply context_in_turn.
  all: unfold on_transcript, _on_log_message, _on_file_edit_preview, _on_compaction_status, _on_status_update, _on_turn_started,
      _on_turn_ended, _on_stream_truncated, _on_control_resolved, _on_system_message; cbn; repeat case_match; cbn; done.
Qed.

Lemma fold_in_turn (l : list event) : forall s : state, StronglySorted Z.lt (omap seq l) -> Forall (fun x => seq x <> None) l -> Forall (fun q => last_seq s < q) (omap seq l) ->
  match foldM fold l s with Raise (OutOfOrder _ _) => False | _ => True end.
Proof.
  induction l as [|e l IH]; intros s Hs Hn Hl; cbn [foldM]; [done|]. apply list.Forall_cons in Hn as [He Hn].
  destruct (seq e) as [q|] eqn:Eq; [|done]. cbn in Hs, Hl. rewrite Eq in Hs, Hl. apply StronglySorted_cons in Hs as [Hq Hs].
  apply list.Forall_cons in Hl as [Hlq _]. unfold Projection.fold at 1. rewrite Eq, (proj2 (Z.leb_gt q (last_seq s))) by done.
  pose proof (handle_in_turn (set_clock s q (Z.max (elapsed_ms s) (event_ms e))) e) as H.
  destruct (handle _ e) as [s1|x]; [|by destruct x]. apply IH; [done|done|]. cbn in H. by rewrite H.
Qed.

(** whatever is broadcast and whenever the idle loop wakes up, and even if the
    store raises, the recorder keeps the ceilings of its policy; until the
    recording stops its counter is the number of records, and their times never
    run backwards; and the projection never refuses the records as out of order. *)
Theorem recording_bounded os s :
  valid s -> stored s = [] -> 0 <= policy.(max_events) -> 0 <= policy.(max_bytes) ->
  let r := (runs os (new_recorder s)).1 in
  _events_written r <= policy.(max_events) /\ _bytes_written r <= policy.(max_bytes) /\
  (_retention_exceeded r = false -> len (stored r.(store)) = _events_written r /\ on_time (stored r.(store))) /\
  match replay (stored r.(store)) with Raise (OutOfOrder _ _) => False | _ => True end.
Proof.
  intros Hv Hs He Hb. cbn zeta. destruct (bounded_runs os _ (bounded_new s Hv Hs He Hb)) as [B1 B2 B3 _ B5].
  split_and!; [done|done|intros Hr; by destruct (B5 Hr) as (? & ? & ?)|].
  destruct (valid_ascending _ B1) as [Hasc Hn]. apply StronglySorted_cons in Hasc as [Hpos Hasc]. by apply fold_in_turn.
Qed.
End Bounds.

(** ** The streams of a recording *)

(** C19: a recording shows what the session showed, in fewer and larger steps:
    whatever the agents stream, however their events are interleaved with others
    and with the idle loop, once the recording is flushed and unless it stopped at
    its ceiling, every stream of assistant text and of thinking has the same text
    in the projection of the records as in that of the live events.  (Deltas are
    as [assistant_delta] sends them, of at most [longest] characters, and a stream
    belongs to one delegate.) *)
Theorem recording_same_streams {S : Type} {Store : SessionEventStore S} {Laws : StoreLaws S} repr size b64decode artifact_store notice_uuid
    policy owner longest int_of_text to_float dict_of_other os late (s : S) r recorded shown :
  Forall (fun ty => ty <> ASSISTANT_DELTA /\ ty <> THINKING_DELTA) policy.(coalesce_types) ->
  0 < policy.(stream_checkpoint_chars) -> 0 <= longest -> policy.(stream_checkpoint_chars) + longest <= policy.(inline_payload_chars) ->
  valid s -> stored s = [] -> Forall (proper repr owner longest) os ->
  runs repr size b64decode artifact_store notice_uuid policy (os ++ [Flush late]) (new_recorder s) = (r, false) ->
  _retention_exceeded r = false ->
  replay repr int_of_text to_float dict_of_other (stored r.(store)) = Ok recorded ->
  replay repr int_of_text to_float dict_of_other r.(live) = Ok shown ->
  forall k a u, is_stream k -> 124 ∉ u ->
  stream_of (items (transcript recorded) a) k u = stream_of (items (transcript shown) a) k u.
Proof.
  intros H1 H2 H3 H4 Hv Hs Ho H Hr E1 E2 k a u Hk Hu.
  destruct (flushed_says repr size b64decode artifact_store notice_uuid policy owner longest H1 H2 H3 H4 os late s r Hv Hs Ho H Hr) as (A1 & A2 & Ht).
  rewrite (foldM_said _ _ _ _ _ _ recorded A1 sound_empty E1 k a u Hk), (foldM_said _ _ _ _ _ _ shown A2 sound_empty E2 k a u Hk).
  f_equal. by apply Ht.
Qed.

(** ** Examples *)

Definition no_repr (v : value) : str := [].
Definition flat_size (e : event) : Z := 100.
Definition sample_live (ty : event_kind) (u : str) (c : list (str * value)) (s : bool) : event :=
  {| uuid := u; event_type := ty; content := c; is_streaming := s; sub_agent_info := None; seq := None; event_ms := 0; event_artifacts := [] |}.
Definition live_delta (ty : event_kind) (u t : str) (done : bool) : event := sample_live ty u (delta_content t done) (negb done).
Abbreviation record_with p os := (runs no_repr flat_size (fun _ => None) None (lit "n") p os (new_recorder ([] : list event))).
Abbreviation show l := (replay no_repr (fun _ => None) (fun _ => None) (fun _ => None) l).

Definition two_streams : list op :=
  [Broadcast (live_delta THINKING_DELTA (lit "t") (lit "so ") false) 0 0; Broadcast (live_delta ASSISTANT_DELTA (lit "a") (lit "an") false) 10 10;
   Tick 3000 3000; Broadcast (live_delta THINKING_DELTA (lit "t") (lit "what") true) 3100 3100;
   Broadcast (live_delta ASSISTANT_DELTA (lit "a") (lit "swer") true) 3200 3200].

Lemma live_delta_proper ty u t b now late : ty = ASSISTANT_DELTA \/ ty = THINKING_DELTA -> len t <= 8000 -> 124 ∉ u ->
  proper no_repr (fun _ _ => None) 8000 (Broadcast (live_delta ty u t b) now late).
Proof.
  intros [-> | ->] Hl Hu; (split; [|done]); cbn; (split_and!; [exists t, b; split_and!; [done|done|exact Hl]|exact Hu|done]).
Qed.
Lemma recording_same_streams_witness :
  let r := (record_with default_policy (two_streams ++ [Flush 4000])).1 in
  match show r.(store), show r.(live) with
  | Ok recorded, Ok shown =>
      stream_of (items (transcript recorded) None) thinking (lit "t") = stream_of (items (transcript shown) None) thinking (lit "t") /\
      len r.(store) = 4
  | _, _ => False
  end.
Proof.
  destruct (record_with default_policy (two_streams ++ [Flush 4000])) as [r x] eqn:E. cbn [fst].
  assert (x = false) as -> by (vm_compute in E; by injection E).
  destruct (show r.(store)) as [recorded|] eqn:E1; [|vm_compute in E; injection E as <-; vm_compute in E1; discriminate E1].
  destruct (show r.(live)) as [shown|] eqn:E2; [|vm_compute in E; injection E as <-; vm_compute in E2; discriminate E2].
  split; [|vm_compute in E; by injection E as <-].
  assert (_retention_exceeded r = false) as Hr by (vm_compute in E; by injection E as <-).
  assert (Forall (proper no_repr (fun _ _ => None) 8000) two_streams) as Ho.
  { assert (forall l : list Z, bool_decide (124 ∉ l) = true -> 124 ∉ l) as Hb by (intros l; by rewrite bool_decide_eq_true).
    repeat (apply list.Forall_cons; split); try exact I; [..|by apply list.Forall_nil];
      (apply live_delta_proper; [by (left + right)|by vm_compute|apply Hb; by vm_compute]). }
  assert (Forall (fun ty => ty <> ASSISTANT_DELTA /\ ty <> THINKING_DELTA) default_policy.(coalesce_types)) as Hc.
  { assert (forall l : list event_kind, bool_decide (ASSISTANT_DELTA ∉ l) && bool_decide (THINKING_DELTA ∉ l) = true ->
      Forall (fun ty => ty <> ASSISTANT_DELTA /\ ty <> THINKING_DELTA) l) as Hb.
    { intros l [H1%bool_decide_eq_true H2%bool_decide_eq_true]%andb_true_iff. apply list.Forall_forall. intros y Hy. by split; intros ->. }
    apply Hb. by vm_compute. }
  assert (124 ∉ lit "t") as Hu by (apply (bool_decide_unpack _); by vm_compute).
  assert (valid ([] : list event)) as Hv by (by intros i e H).
  assert (0 < stream_checkpoint_chars default_policy) as P1 by (by vm_compute).
  assert (0 <= 8000) as P2 by (by vm_compute).
  assert (stream_checkpoint_chars default_policy + 8000 <= inline_payload_chars default_policy) as P3 by (by vm_compute).
  assert (is_stream thinking) as Hk by (by right).
  exact (recording_same_streams no_repr flat_size (fun _ => None) None (lit "n") default_policy (fun _ _ => None) 8000 _ _ _ two_streams 4000
    ([] : list event) r recorded shown Hc P1 P2 P3 Hv eq_refl Ho E Hr E1 E2 thinking None (lit "t") Hk Hu).
Defined.

Lemma recording_bounded_witness :
  let r := (record_with default_policy two_streams).1 in _events_written r <= 200000 /\ len r.(store) = 4.
Proof.
  destruct (recording_bounded no_repr flat_size (fun _ => None) None (lit "n") default_policy (fun _ => None) (fun _ => None) (fun _ => None)
    two_streams ([] : list event)) as (H & _); [by intros i e H|done|done|done|]. split; [exact H|by vm_compute].
Defined.

(** ** Where a recording says less *)

(** Terminal output carries the raw and the displayed text
    ([services/terminal.py]); only the raw one is collected, and the projection
    shows the other: of two chunks in one record the first is lost. *)
Definition chunk (t : str) : event :=
  sample_live TERMINAL_OUTPUT t [(lit "output", VStr t); (lit "display_output", VStr t); (lit "terminal_id", VStr (lit "1"))] false.
Lemma terminal_display_lost :
  let r := (record_with default_policy [Broadcast (chunk (lit "ab")) 0 0; Broadcast (chunk (lit "cd")) 1 1; Flush 2]).1 in
  match show r.(store), show r.(live) with
  | Ok recorded, Ok shown =>
      terminal recorded.(terminal_state) = lit "cd" /\ terminal shown.(terminal_state) = lit "abcd"
  | _, _ => False
  end.
Proof. by vm_compute. Qed.

(** The last delta of a segment has no text; when the rest of it was already
    written, there is no record that completes it. *)
Lemma completion_lost :
  let r := (record_with default_policy [Broadcast (live_delta ASSISTANT_DELTA (lit "a") (lit "x") false) 0 0; Tick 3000 3000;
              Broadcast (live_delta ASSISTANT_DELTA (lit "a") [] true) 4000 4000; Flush 5000]).1 in
  match show r.(store), show r.(live) with
  | Ok recorded, Ok shown =>
      map complete recorded.(transcript).(conversation) = [false] /\ map complete shown.(transcript).(conversation) = [true]
  | _, _ => False
  end.
Proof. by vm_compute. Qed.

(** The ceiling is met in the middle of a flush: what follows in the same flush
    meets it again, and each time a notice is written. *)
Definition one_event : RetentionPolicy :=
  {| stream_checkpoint_chars := 8000; stream_checkpoint_ms := 2000; coalesce_types := []; inline_payload_chars := 16000; max_events := 0;
     max_bytes := 1000 |}.
Lemma truncation_repeated :
  map event_type (record_with one_event [Broadcast (live_delta ASSISTANT_DELTA (lit "a") (lit "x") false) 0 0;
    Broadcast (sample_live TURN_ENDED (lit "e") [] false) 1 1]).1.(store) = [STREAM_TRUNCATED; STREAM_TRUNCATED].
Proof. by vm_compute. Qed.
