(* ===== verification/Control.v ===== *)
(** * The control channel

    Models [kolega_code/session/control.py]: the questions of an agent, the lease
    of the client that may answer, the timeout, and the announcements on the event
    stream.

    Everything runs on one event loop, so a step is what runs between two awaits:
    a call of a client, or a part of the coroutine [request].  A request exists
    once, shared between the table of pending requests and the coroutine that
    waits for its future; [requests] is that shared store.  The identifiers are
    those of [uuid4], and a step that would use one twice is not a step. *)

From stdpp Require Import base gmap list strings numbers.
From Stdlib Require Import ZArith Lia.
From S2P Require Import Prelude PyStr PyVal Projection Recording.

Abbreviation dict := (list (str * value)).

(** ** Requests *)

Record ControlRequest := {
  rid : str;
  rkind : str;
  rpayload : dict;
  rdefault : dict;
  delivered : bool;
  future : option dict           (* the result, once it is set *)
}.
Definition describe (r : ControlRequest) : dict :=
  [(lit "request_id", VStr r.(rid)); (lit "kind", VStr r.(rkind)); (lit "payload", VDict r.(rpayload))].
Definition done (r : ControlRequest) : bool := match r.(future) with Some _ => true | None => false end.

(** Where the coroutine of a request is. *)
Inductive phase :=
| Announcing                     (* awaits the emission of [control_requested] *)
| Waiting                        (* awaits the future, shielded, with a timeout *)
| Returned (v : dict)
| Cancelled.

Record ControlChannel := {
  requests : gmap str (ControlRequest * phase);
  _pending : list str;           (* the keys of the dict, in the order of insertion *)
  _lease : option str;
  resolutions : list dict;       (* contents of the [control_resolved] tasks that have not started *)
  emitted : list event           (* what [_emit] was called with *)
}.
Definition new_channel : ControlChannel := {| requests := ∅; _pending := []; _lease := None; resolutions := []; emitted := [] |}.
Definition has_controller (c : ControlChannel) : bool := match c.(_lease) with Some _ => true | None => false end.

Definition set_lease (c : ControlChannel) l :=
  {| requests := c.(requests); _pending := c.(_pending); _lease := l; resolutions := c.(resolutions); emitted := c.(emitted) |}.
Definition set_request (c : ControlChannel) (i : str) (x : ControlRequest * phase) :=
  {| requests := <[i := x]> c.(requests); _pending := c.(_pending); _lease := c.(_lease); resolutions := c.(resolutions);
     emitted := c.(emitted) |}.

(** ** Settling and announcing *)

Definition _announce (ty : event_kind) (body : dict) (u : str) : event :=
  {| uuid := u; event_type := ty; content := body; is_streaming := false; sub_agent_info := None; seq := None; event_ms := 0;
     event_artifacts := [] |}.

Definition resolve (r : ControlRequest) (v : dict) : ControlRequest :=
  {| rid := r.(rid); rkind := r.(rkind); rpayload := r.(rpayload); rdefault := r.(rdefault); delivered := r.(delivered);
     future := if done r then r.(future) else Some v |}.
(** [p] is where the coroutine of the request is. *)
Definition _settle (c : ControlChannel) (r : ControlRequest) (p : phase) (v : dict) (reason : str) : ControlChannel :=
  {| requests := <[r.(rid) := (resolve r v, p)]> c.(requests);
     _pending := List.filter (fun i => negb (str_eqb i r.(rid))) c.(_pending);
     _lease := c.(_lease);
     resolutions := c.(resolutions) ++ [describe r ++ [(lit "response", VDict v); (lit "reason", VStr reason)]];
     emitted := c.(emitted) |}.

(** ** The lease *)

Inductive reply :=
| Done
| ControlLeaseError
| Answer (accepted : bool)
| Marked (r : option ControlRequest).

Definition acquire (c : ControlChannel) (client_id : str) : ControlChannel * reply :=
  match c.(_lease) with
  | Some l => if str_eqb l client_id then (set_lease c (Some client_id), Done) else (c, ControlLeaseError)
  | None => (set_lease c (Some client_id), Done)
  end.
Fixpoint settle_all (c : ControlChannel) (ids : list str) : ControlChannel :=
  match ids with
  | [] => c
  | i :: ids' =>
      match c.(requests) !! i with
      | Some (r, p) => settle_all (_settle c r p r.(rdefault) (lit "controller_left")) ids'
      | None => settle_all c ids'
      end
  end.
Definition release (c : ControlChannel) (client_id : str) : ControlChannel :=
  if bool_decide (c.(_lease) = Some client_id) then settle_all (set_lease c None) c.(_pending) else c.

(** ** The agent *)

(** [request], up to its first await. *)
Definition ask (c : ControlChannel) (i kind : str) (payload default : dict) (u : str) : ControlChannel :=
  let r := {| rid := i; rkind := kind; rpayload := payload; rdefault := default; delivered := false; future := None |} in
  {| requests := <[i := (r, Announcing)]> c.(requests); _pending := c.(_pending) ++ [i]; _lease := c.(_lease);
     resolutions := c.(resolutions);
     emitted := c.(emitted) ++ [_announce CONTROL_REQUESTED (describe r ++ [(lit "has_controller", VBool (has_controller c))]) u] |}.
(** The phase of a coroutine that awaits a future that is done. *)
Definition returned (r : ControlRequest) : phase := match r.(future) with Some v => Returned v | None => Waiting end.
(** [request], from the end of the announcement. *)
Definition announced (c : ControlChannel) (r : ControlRequest) : ControlChannel :=
  if has_controller c then set_request c r.(rid) (r, Waiting)
  else _settle c r (returned (resolve r r.(rdefault))) r.(rdefault) (lit "no_controller").
Definition timed_out (c : ControlChannel) (r : ControlRequest) : ControlChannel :=
  _settle c r (Returned r.(rdefault)) r.(rdefault) (lit "timeout").
Definition cancelled (c : ControlChannel) (r : ControlRequest) : ControlChannel :=
  _settle c r Cancelled r.(rdefault) (lit "cancelled").

(** ** The clients *)

Definition pending (c : ControlChannel) : list ControlRequest := omap (fun i => fst <$> c.(requests) !! i) c.(_pending).
Definition is_pending (c : ControlChannel) (i : str) : bool := str_in i c.(_pending).
Definition lookup_pending (c : ControlChannel) (i : str) : option (ControlRequest * phase) :=
  if is_pending c i then c.(requests) !! i else None.

Definition mark_delivered (c : ControlChannel) (i : str) : ControlChannel * option ControlRequest :=
  match lookup_pending c i with
  | Some (r, p) =>
      if negb (has_controller c) || r.(delivered) || done r then (c, None)
      else
        let r := {| rid := r.(rid); rkind := r.(rkind); rpayload := r.(rpayload); rdefault := r.(rdefault); delivered := true;
                    future := r.(future) |} in
        (set_request c i (r, p), Some r)
  | None => (c, None)
  end.
Definition respond (c : ControlChannel) (i : str) (response : dict) (client_id : option str) : ControlChannel * reply :=
  if match client_id, c.(_lease) with Some who, Some l => negb (str_eqb who l) | _, _ => false end then (c, ControlLeaseError)
  else match lookup_pending c i with
       | Some (r, p) => if has_controller c then (_settle c r p response (lit "answered"), Answer true) else (c, Answer false)
       | None => (c, Answer false)
       end.

(** ** Steps *)

Inductive op :=
| Acquire (client_id : str)
| Release (client_id : str)
| Ask (i kind : str) (payload default : dict) (u : str)
| Announced (i : str)             (* the emission of the announcement ends *)
| Wake (i : str)                  (* the coroutine resumes with its future's result *)
| Timeout (i : str)
| Cancel (i : str)
| Announce (u : str)              (* the oldest task of a resolution starts *)
| MarkDelivered (i : str)
| Respond (i : str) (response : dict) (client_id : option str).

(** [None]: not possible in this state.  A timeout can meet a future that is done:
    the coroutine resumes some rounds of the loop after its future is set. *)
Definition step (o : op) (c : ControlChannel) : option (ControlChannel * reply) :=
  match o with
  | Acquire who => Some (acquire c who)
  | Release who => Some (release c who, Done)
  | Ask i k p d u => if nonempty i && bool_decide (c.(requests) !! i = None) then Some (ask c i k p d u, Done) else None
  | Announced i => match c.(requests) !! i with Some (r, Announcing) => Some (announced c r, Done) | _ => None end
  | Wake i =>
      match c.(requests) !! i with
      | Some (r, Waiting) => match r.(future) with Some v => Some (set_request c i (r, Returned v), Done) | None => None end
      | _ => None
      end
  | Timeout i => match c.(requests) !! i with Some (r, Waiting) => Some (timed_out c r, Done) | _ => None end
  | Cancel i =>
      match c.(requests) !! i with Some (r, Announcing) | Some (r, Waiting) => Some (cancelled c r, Done) | _ => None end
  | Announce u =>
      match c.(resolutions) with
      | body :: rest =>
          Some ({| requests := c.(requests); _pending := c.(_pending); _lease := c.(_lease); resolutions := rest;
                   emitted := c.(emitted) ++ [_announce CONTROL_RESOLVED body u] |}, Done)
      | [] => None
      end
  | MarkDelivered i => let '(c, r) := mark_delivered c i in Some (c, Marked r)
  | Respond i v who => Some (respond c i v who)
  end.

(** The steps taken so far, with their replies. *)
Inductive history : list (op * reply) -> ControlChannel -> Prop :=
| history_start : history [] new_channel
| history_step h c o c' x : history h c -> step o c = Some (c', x) -> history (h ++ [(o, x)]) c'.
