(* ===== verification/ControlFacts.v ===== *)
(** * What the control channel promises

    A question has one answer: the first that [respond] accepts, which is the lease
    holder's or that of a caller without a name, or the default; nobody waits when
    nobody can answer. *)

From stdpp Require Import base gmap list strings numbers.
From Stdlib Require Import ZArith Lia.
From S2P Require Import Prelude PyStr PyVal Projection Recording Control.

(** The answers that [respond] accepted. *)
Definition accepted (h : list (op * reply)) : list (str * dict) :=
  omap (fun x => match x with (Respond i v _, Answer true) => Some (i, v) | _ => None end) h.
Lemma accepted_app h x : accepted (h ++ x) = accepted h ++ accepted x.
Proof. apply omap_app. Qed.

(** What holds after any history; [W] are the requests that [release] has still to
    settle. *)
Record settled (W : list str) (h : list (op * reply)) (c : ControlChannel) : Prop := {
  settled_id : forall i r p, c.(requests) !! i = Some (r, p) -> r.(rid) = i /\ nonempty i = true;
  settled_pending : forall i, i ∈ c.(_pending) <-> exists r p, c.(requests) !! i = Some (r, p) /\ r.(future) = None;
  settled_waits : forall i r, c.(requests) !! i = Some (r, Waiting) -> r.(future) = None -> has_controller c = true \/ i ∈ W;
  settled_over : forall i r p, c.(requests) !! i = Some (r, p) -> r.(future) = None -> p = Announcing \/ p = Waiting;
  settled_given : forall i v, (i, v) ∈ accepted h -> exists r p, c.(requests) !! i = Some (r, p) /\ r.(future) = Some v;
  settled_once : NoDup (map fst (accepted h));
  settled_source : forall i r p v, c.(requests) !! i = Some (r, p) -> r.(future) = Some v -> (i, v) ∈ accepted h \/ v = r.(rdefault);
  settled_result : forall i r v, c.(requests) !! i = Some (r, Returned v) ->
    r.(future) = Some v \/ (v = r.(rdefault) /\ (Timeout i, Done) ∈ h)
}.

Lemma settled_new : settled [] [] new_channel.
Proof.
  split; cbn; try (intros * H; rewrite lookup_empty in H; done); try (intros * H; by apply not_elem_of_nil in H); [|constructor].
  intros i. split; [by intros ?%not_elem_of_nil|]. intros (r & p & H & _). by rewrite lookup_empty in H.
Qed.

Lemma settled_more W h x c : accepted [x] = [] -> settled W h c -> settled W (h ++ [x]) c.
Proof.
  intros E [H1 H2 H3 H4 H5 H6 H7 H8]. assert (accepted (h ++ [x]) = accepted h) as Ea by (by rewrite accepted_app, E, app_nil_r).
  split; rewrite ?Ea; try done. intros i r v Hi. destruct (H8 i r v Hi) as [|[? ?]]; [by left|right]. split; [done|]. apply elem_of_app. by left.
Qed.

Lemma resolve_future r v : exists w, (resolve r v).(future) = Some w /\ (r.(future) = Some w \/ r.(future) = None /\ w = v).
Proof. unfold resolve, done. cbn. destruct (future r) as [w|]; eauto. Qed.

Lemma filter_ne_elem i j (l : list str) : j ∈ List.filter (fun x => negb (str_eqb x i)) l <-> j ∈ l /\ j <> i.
Proof.
  rewrite !list_elem_of_In, filter_In, negb_true_iff. split; intros [H1 H2]; (split; [done|]).
  - intros ->. by rewrite str_eqb_refl in H2.
  - apply not_true_iff_false. by intros ->%str_eqb_eq.
Qed.

(** Settling by default: the coroutine stays where it is, is cancelled, or returns
    what its future then holds, unless it timed out. *)
Definition continues (h : list (op * reply)) (r : ControlRequest) (p0 p : phase) : Prop :=
  p = p0 \/ p = Cancelled \/ p = returned (resolve r r.(rdefault)) \/ (p = Returned r.(rdefault) /\ (Timeout r.(rid), Done) ∈ h).

Lemma settled_default W h c r p0 p reason :
  settled (r.(rid) :: W) h c -> c.(requests) !! r.(rid) = Some (r, p0) -> continues h r p0 p ->
  settled W h (_settle c r p r.(rdefault) reason).
Proof.
  intros [H1 H2 H3 H4 H5 H6 H7 H8] Hr Hp. destruct (resolve_future r r.(rdefault)) as (w & Ew & Hw).
  assert (forall i x q, <[r.(rid) := (resolve r r.(rdefault), p)]> c.(requests) !! i = Some (x, q) ->
    (i = r.(rid) /\ x = resolve r r.(rdefault) /\ q = p) \/ (i <> r.(rid) /\ c.(requests) !! i = Some (x, q))) as Hc.
  { intros i x q [[<- [= <- <-]]|[Hn Hi]]%lookup_insert_Some; [by left|right]. by split. }
  unfold _settle. split; cbn.
  - intros i x q [(-> & -> & ->)|[_ Hi]]%Hc; [cbn; split; [done|by eapply H1]|by eapply H1].
  - intros i. rewrite filter_ne_elem, H2. split.
    + intros [(x & q & Hx & Hf) Hi]. exists x, q. by rewrite lookup_insert_ne by congruence.
    + intros (x & q & [(-> & -> & ->)|[Hi Hx]]%Hc & Hf); [by rewrite Ew in Hf|]. split; [by exists x, q|done].
  - intros i x [(-> & -> & _)|[Hi Hx]]%Hc Hf; [by rewrite Ew in Hf|]. destruct (H3 i x Hx Hf) as [|[|]%elem_of_cons]; [by left|done|by right].
  - intros i x q [(-> & -> & ->)|[Hi Hx]]%Hc Hf; [by rewrite Ew in Hf|by eapply H4].
  - intros i v Hv. destruct (H5 i v Hv) as (x & q & Hx & Hf). destruct (decide (i = rid r)) as [->|Hn].
    + rewrite Hr in Hx. injection Hx as <- <-. exists (resolve r r.(rdefault)), p. rewrite lookup_insert_eq. split; [done|].
      rewrite Ew. destruct Hw as [Hw|[Hw _]]; congruence.
    + exists x, q. by rewrite lookup_insert_ne by congruence.
  - done.
  - intros i x q v [(-> & -> & ->)|[Hi Hx]]%Hc Hf; [|by eapply H7]. rewrite Ew in Hf. injection Hf as <-.
    destruct Hw as [Hw|[_ ->]]; [by eapply (H7 _ _ _ _ Hr)|by right].
  - intros i x v [(-> & -> & E)|[Hi Hx]]%Hc; [|by eapply H8]. cbn [rdefault resolve]. destruct Hp as [->|[->|[->|[-> Ht]]]].
    + subst p0. destruct (H8 _ _ _ Hr) as [Hf|Hf]; [|by right]. left. rewrite Ew. destruct Hw as [Hw|[Hw _]]; congruence.
    + done.
    + unfold returned in E. rewrite Ew in E. left. by injection E as ->.
    + injection E as ->. by right.
Qed.
Lemma settled_weaken W h c i : settled W h c -> settled (i :: W) h c.
Proof. intros [H1 H2 H3 H4 H5 H6 H7 H8]. split; try done. intros j r Hj Hf. destruct (H3 j r Hj Hf); [by left|right; by right]. Qed.

Lemma settled_all h ids : forall c, settled ids h c -> settled [] h (settle_all c ids).
Proof.
  induction ids as [|i ids IH]; intros c H; cbn [settle_all]; [done|]. destruct (requests c !! i) as [[r p]|] eqn:E.
  - apply IH. destruct (settled_id _ _ _ H i r p E) as [<- _]. eapply settled_default; [done..|by left].
  - apply IH. destruct H as [H1 H2 H3 H4 H5 H6 H7 H8]. split; try done. intros j r Hj Hf.
    destruct (H3 j r Hj Hf) as [|[->|]%elem_of_cons]; [by left|congruence|by right].
Qed.

Lemma settled_answered h c r p v who : settled [] h c -> c.(requests) !! r.(rid) = Some (r, p) -> r.(future) = None ->
  settled [] (h ++ [(Respond r.(rid) v who, Answer true)]) (_settle c r p v (lit "answered")).
Proof.
  intros [H1 H2 H3 H4 H5 H6 H7 H8] Hr Hn. assert (resolve r v = {| rid := rid r; rkind := rkind r; rpayload := rpayload r;
    rdefault := rdefault r; delivered := delivered r; future := Some v |}) as Er by (unfold resolve, done; by rewrite Hn).
  assert (forall i x q, <[r.(rid) := (resolve r v, p)]> c.(requests) !! i = Some (x, q) ->
    (i = r.(rid) /\ x = resolve r v /\ q = p) \/ (i <> r.(rid) /\ c.(requests) !! i = Some (x, q))) as Hc.
  { intros i x q [[<- [= <- <-]]|[Hi Hi']]%lookup_insert_Some; [by left|right]. by split. }
  unfold _settle. split; rewrite ?accepted_app; cbn.
  - intros i x q [(-> & -> & ->)|[_ Hi]]%Hc; [rewrite Er; cbn; split; [done|by eapply H1]|by eapply H1].
  - intros i. rewrite filter_ne_elem, H2. split.
    + intros [(x & q & Hx & Hf) Hi]. exists x, q. by rewrite lookup_insert_ne by congruence.
    + intros (x & q & [(-> & -> & ->)|[Hi Hx]]%Hc & Hf); [by rewrite Er in Hf|]. split; [by exists x, q|done].
  - intros i x [(-> & -> & _)|[Hi Hx]]%Hc Hf; [by rewrite Er in Hf|by eapply H3].
  - intros i x q [(-> & -> & ->)|[Hi Hx]]%Hc Hf; [by rewrite Er in Hf|by eapply H4].
  - intros i w [Hv|[= -> ->]%list_elem_of_singleton]%elem_of_app.
    + destruct (H5 i w Hv) as (x & q & Hx & Hf). exists x, q. rewrite lookup_insert_ne; [done|]. intros <-. congruence.
    + exists (resolve r v), p. rewrite lookup_insert_eq, Er. done.
  - rewrite map_app. apply list.NoDup_app. split_and!; [done| |by apply NoDup_singleton].
    cbn. intros i ([j w] & -> & Hw)%list_elem_of_fmap Hi%list_elem_of_singleton. cbn in Hi. subst j. apply H5 in Hw as (x & q & Hx & Hf). congruence.
  - intros i x q w [(-> & -> & ->)|[Hi Hx]]%Hc Hf.
    + rewrite Er in Hf. injection Hf as <-. left. apply elem_of_app. right. by left.
    + destruct (H7 i x q w Hx Hf); [left|by right]. apply elem_of_app. by left.
  - intros i x w [(-> & -> & E)|[Hi Hx]]%Hc.
    + subst p. exfalso. by destruct (H4 _ _ _ Hr Hn).
    + destruct (H8 i x w Hx) as [|[? ?]]; [by left|right]. split; [done|]. apply elem_of_app. by left.
Qed.

Lemma settled_set W h c i r p0 r' p : settled W h c -> c.(requests) !! i = Some (r, p0) ->
  r'.(rid) = r.(rid) -> r'.(future) = r.(future) -> r'.(rdefault) = r.(rdefault) ->
  p = p0 \/ (p = Waiting /\ has_controller c = true) \/ (exists v, p = Returned v /\ r.(future) = Some v) ->
  settled W h (set_request c i (r', p)).
Proof.
  intros [H1 H2 H3 H4 H5 H6 H7 H8] Hr Ei Ef Ed Hp.
  assert (forall j x q, <[i := (r', p)]> c.(requests) !! j = Some (x, q) ->
    (j = i /\ x = r' /\ q = p) \/ (j <> i /\ c.(requests) !! j = Some (x, q))) as Hc.
  { intros j x q [[<- [= <- <-]]|[Hi Hi']]%lookup_insert_Some; [by left|right]. by split. }
  unfold set_request. split; cbn; try done.
  - intros j x q [(-> & -> & _)|[_ Hi]]%Hc; [rewrite Ei|]; by eapply H1.
  - intros j. rewrite H2. split.
    + intros (x & q & Hx & Hf). destruct (decide (j = i)) as [->|Hn].
      * rewrite Hr in Hx. injection Hx as <- <-. exists r', p. by rewrite lookup_insert_eq, Ef.
      * exists x, q. by rewrite lookup_insert_ne by congruence.
    + intros (x & q & [(-> & -> & _)|[Hi Hx]]%Hc & Hf); [exists r, p0; by rewrite <- Ef|by exists x, q].
  - intros j x [(-> & -> & E)|[Hi Hx]]%Hc Hf; [|by eapply H3]. rewrite Ef in Hf. destruct Hp as [->|[[_ Hp]|(v & -> & _)]]; [subst p0; by eapply H3|by left|done].
  - intros j x q [(-> & -> & ->)|[Hi Hx]]%Hc Hf; [|by eapply H4]. rewrite Ef in Hf.
    destruct Hp as [->|[[-> _]|(v & -> & E)]]; [by eapply H4|by right|congruence].
  - intros j v Hv. destruct (H5 j v Hv) as (x & q & Hx & Hf). destruct (decide (j = i)) as [->|Hn].
    + rewrite Hr in Hx. injection Hx as <- <-. exists r', p. by rewrite lookup_insert_eq, Ef.
    + exists x, q. by rewrite lookup_insert_ne by congruence.
  - intros j x q v [(-> & -> & _)|[Hi Hx]]%Hc Hf; [|by eapply H7]. rewrite Ef in Hf. rewrite Ed. by eapply H7.
  - intros j x v [(-> & -> & E)|[Hi Hx]]%Hc; [|by eapply H8]. rewrite Ef, Ed.
    destruct Hp as [->|[[-> _]|(w & -> & Ew)]]; [subst p0; by apply H8|done|]. injection E as ->. by left.
Qed.

Lemma lookup_pending_Some c i x : lookup_pending c i = Some x -> i ∈ c.(_pending) /\ c.(requests) !! i = Some x.
Proof. unfold lookup_pending, is_pending. destruct (str_in i _) eqn:E; [|done]. by apply str_in_spec in E. Qed.

Lemma settled_step h c o c' x : settled [] h c -> step o c = Some (c', x) -> settled [] (h ++ [(o, x)]) c'.
Proof.
  intros H. destruct o as [who|who|i k p d u|i|i|i|i|u|i|i v who]; cbn [step].
  - intros [= E]. unfold acquire in E. assert (c' = c \/ c' = set_lease c (Some who)) as Hc by (by repeat case_match; injection E as <- _; auto).
    apply settled_more; [done|]. destruct Hc as [->| ->]; [done|]. destruct H. split; try done. by left.
  - intros [= <- <-]. apply settled_more; [done|]. unfold release. case_bool_decide as El; [|done].
    apply settled_all. destruct H as [H1 H2 H3 H4 H5 H6 H7 H8]. split; try done. intros i r Hi Hf. right. apply H2. by exists r, Waiting.
  - destruct (nonempty i) eqn:Hi; [|done]. case_bool_decide as Hn; [|done]. intros [= <- <-]. apply settled_more; [done|].
    destruct H as [H1 H2 H3 H4 H5 H6 H7 H8]. unfold ask. split; cbn; try done.
    + intros j r q [[<- [= <- <-]]|[Hj Hr]]%lookup_insert_Some; [done|by eapply H1].
    + intros j. rewrite elem_of_app, list_elem_of_singleton, H2. split.
      * intros [(r & q & Hr & Hf)| ->]; [exists r, q; rewrite lookup_insert_ne by congruence; done|].
        eexists _, _. rewrite lookup_insert_eq. done.
      * intros (r & q & [[<- [= <- <-]]|[Hj Hr]]%lookup_insert_Some & Hf); [by right|left]. by exists r, q.
    + intros j r [[<- [= <-]]|[Hj Hr]]%lookup_insert_Some Hf; by eapply H3.
    + intros j r q [[<- [= <- <-]]|[Hj Hr]]%lookup_insert_Some Hf; [by left|by eapply H4].
    + intros j v Hv. destruct (H5 j v Hv) as (r & q & Hr & Hf). exists r, q. rewrite lookup_insert_ne by congruence. done.
    + intros j r q v [[<- [= <- <-]]|[Hj Hr]]%lookup_insert_Some Hf; [done|by eapply H7].
    + intros j r v [[<- [= <-]]|[Hj Hr]]%lookup_insert_Some; by eapply H8.
  - destruct (requests c !! i) as [[r []]|] eqn:Er; try done. intros [= <- <-]. apply settled_more; [done|].
    destruct (settled_id _ _ _ H _ _ _ Er) as [<- _]. unfold announced. destruct (has_controller c) eqn:Ec.
    + eapply settled_set; [done..|]. right. by left.
    + eapply settled_default; [by apply settled_weaken|done|]. right. right. by left.
  - destruct (requests c !! i) as [[r []]|] eqn:Er; try done. destruct (future r) as [v|] eqn:Ef; [|done]. intros [= <- <-].
    apply settled_more; [done|]. eapply settled_set; [done..|]. right. right. by exists v.
  - destruct (requests c !! i) as [[r []]|] eqn:Er; try done. intros [= <- <-]. destruct (settled_id _ _ _ H _ _ _ Er) as [<- _].
    eapply settled_default; [by apply settled_more, settled_weaken|done|]. right. right. right. split; [done|]. apply elem_of_app. right. by left.
  - assert (forall r p, requests c !! i = Some (r, p) -> settled [] (h ++ [(Cancel i, Done)]) (cancelled c r)) as Hc.
    { intros r p Er. destruct (settled_id _ _ _ H _ _ _ Er) as [<- _].
      eapply settled_default; [by apply settled_more, settled_weaken|done|]. right. by left. }
    destruct (requests c !! i) as [[r []]|] eqn:Er; try done; intros [= <- <-]; by eapply Hc.
  - destruct (resolutions c) as [|b l]; [done|]. intros [= <- <-]. apply settled_more; [done|]. by destruct H; split.
  - unfold mark_delivered. destruct (lookup_pending c i) as [[r p]|] eqn:E; [|intros [= <- <-]; by apply settled_more].
    apply lookup_pending_Some in E as [_ E]. destruct (_ || _); intros [= <- <-]; apply settled_more; try done.
    eapply settled_set; [done..|by left].
  - unfold respond. destruct (match who with Some _ => _ | None => false end); [intros [= <- <-]; by apply settled_more|].
    destruct (lookup_pending c i) as [[r p]|] eqn:E; [|intros [= <- <-]; by apply settled_more].
    apply lookup_pending_Some in E as [Hi E]. destruct (has_controller c); [|intros [= <- <-]; by apply settled_more].
    intros [= <- <-]. destruct (settled_id _ _ _ H _ _ _ E) as [<- _]. apply settled_answered; [done..|].
    apply (settled_pending _ _ _ H) in Hi as (r' & q & Hr & Hf). rewrite E in Hr. by injection Hr as <- <-.
Qed.

Lemma history_settled h c : history h c -> settled [] h c.
Proof. induction 1 as [|h c o c' x Hh IH Hs]; [apply settled_new|by eapply settled_step]. Qed.

(** ** One answer *)

(** The client [who] responded to the pending question, was accepted, and some
    client, the [holder], had the lease. *)
Definition responded (h : list (op * reply)) (i : str) (v : dict) (who : option str) (holder : str) : Prop :=
  exists h1 h2 c, h = h1 ++ (Respond i v who, Answer true) :: h2 /\ history h1 c /\
    c.(_lease) = Some holder /\ i ∈ c.(_pending).
(** The answer is that of the holder of the lease, who said who it is. *)
Definition consent (h : list (op * reply)) (i : str) (v : dict) : Prop := exists holder, responded h i v (Some holder) holder.
(** The answer is that of a call that named no client. *)
Definition unnamed (h : list (op * reply)) (i : str) (v : dict) : Prop := exists holder, responded h i v None holder.
(** Every call of [respond] names its client. *)
Definition all_named (h : list (op * reply)) : Prop := forall i v x, (Respond i v None, x) ∉ h.

Definition names_client (x : op * reply) : bool := match x.1 with Respond _ _ None => false | _ => true end.
Lemma named_check h : forallb names_client h = true -> all_named h.
Proof. intros Hb i v x Hx%list_elem_of_In. by pose proof (proj1 (forallb_forall _ _) Hb _ Hx). Qed.

Lemma responded_more h x i v who l : responded h i v who l -> responded (h ++ [x]) i v who l.
Proof. intros (h1 & h2 & c & -> & H). exists h1, (h2 ++ [x]), c. by rewrite <- app_assoc. Qed.
Lemma named_consent h i v : all_named h -> consent h i v \/ unnamed h i v -> consent h i v.
Proof.
  intros Hn [H|(l & h1 & h2 & c & -> & _)]; [done|]. exfalso. apply (Hn i v (Answer true)), elem_of_app. right. by left.
Qed.
Lemma accepted_consent h c i v : history h c -> (i, v) ∈ accepted h -> consent h i v \/ unnamed h i v.
Proof.
  induction 1 as [|h c o c' x Hh IH Hs]; [by intros ?%not_elem_of_nil|]. rewrite accepted_app. intros [Hv|Hv]%elem_of_app.
  { destruct (IH Hv) as [[l H]|[l H]]; [left|right]; exists l; by apply responded_more. }
  destruct o; try (by apply not_elem_of_nil in Hv). destruct x as [| |[]|]; try (by apply not_elem_of_nil in Hv). cbn in Hv.
  apply list_elem_of_singleton in Hv as [= -> ->]. cbn in Hs. unfold respond in Hs. injection Hs as Hs.
  destruct (match client_id with Some _ => _ | None => false end) eqn:Ew; [by injection Hs|].
  destruct (lookup_pending c i0) as [[r p]|] eqn:E; [|by injection Hs]. unfold has_controller in Hs.
  destruct (_lease c) as [l|] eqn:El; [|by injection Hs]. apply lookup_pending_Some in E as [Hi0 _].
  assert (responded (h ++ [(Respond i0 response client_id, Answer true)]) i0 response client_id l) as Hr by (by exists h, [], c).
  destruct client_id as [w|]; [left|by right; exists l]. apply negb_false_iff, str_eqb_eq in Ew. subst w. by exists l.
Qed.

Lemma control_answers_default h c i r v : history h c -> c.(requests) !! i = Some (r, Returned v) -> v = r.(rdefault) \/ consent h i v \/ unnamed h i v.
Proof.
  intros Hh Hr. pose proof (history_settled h c Hh) as S. destruct (settled_result _ _ _ S i r v Hr) as [Hw|[Hw _]]; [|by left].
  destruct (settled_source _ _ _ S i r _ v Hr Hw); [right; by eapply accepted_consent|by left].
Qed.

(** C20: however the calls of clients, the turns of coroutines, timeouts,
    cancellations and announcements interleave, a question has one answer: at most
    one response is accepted, while the question is pending and some client holds
    the lease, and it is the response of that client, or of a caller that named no
    client, which [respond] does not refuse (so it is always the response of the
    holder when every caller names itself); what the agent gets is that response,
    or the default that it supplied, and the default although a response was
    accepted only when it timed out; and as long as an agent waits for an answer
    that is not there, somebody holds the lease. *)
Theorem control_answers h c i r p :
  history h c -> c.(requests) !! i = Some (r, p) ->
  NoDup (map fst (accepted h)) /\
  (forall v, (i, v) ∈ accepted h -> (consent h i v \/ unnamed h i v) /\ i ∉ c.(_pending) /\
    forall w, p = Returned w -> w = v \/ (w = r.(rdefault) /\ (Timeout i, Done) ∈ h)) /\
  (forall v, p = Returned v -> v = r.(rdefault) \/ consent h i v \/ unnamed h i v) /\
  (all_named h -> forall v, (i, v) ∈ accepted h \/ (p = Returned v /\ v <> r.(rdefault)) -> consent h i v) /\
  (p = Waiting -> i ∈ c.(_pending) -> exists holder, c.(_lease) = Some holder).
Proof.
  intros Hh Hr. pose proof (history_settled h c Hh) as S. split_and!; [apply S|..].
  - intros v Hv. destruct (settled_given _ _ _ S i v Hv) as (r' & q & E & Hf). rewrite Hr in E. injection E as <- <-.
    split_and!; [by eapply accepted_consent| |].
    + intros (r' & q & E & Hn)%(settled_pending _ _ _ S). congruence.
    + intros w ->. destruct (settled_result _ _ _ S i r w Hr) as [Hw|]; [left; congruence|by right].
  - intros v ->. by eapply control_answers_default.
  - intros Hn v Hv. apply (named_consent h i v Hn). destruct Hv as [Hv|[-> Hd]]; [by eapply accepted_consent|].
    by destruct (control_answers_default h c i r v Hh Hr) as [|?].
  - intros -> (r' & q & E & Hn)%(settled_pending _ _ _ S). rewrite Hr in E. injection E as <- <-.
    destruct (settled_waits _ _ _ S i r Hr Hn) as [Hc|[]%not_elem_of_nil]. unfold has_controller in Hc. destruct (_lease c); [by eexists|done].
Qed.

(** ** No question hangs *)

Lemma settle_back c r p v s : (_settle c r p v s).(requests) !! r.(rid) = Some (resolve r v, p).
Proof. by apply lookup_insert_eq. Qed.

(** an agent that asked can always go on without anybody's help: from every
    reachable state the rest of its coroutine takes at most two steps, and when
    nobody holds the lease it does not even wait for its timeout. *)
Theorem control_returns h c i r p :
  history h c -> c.(requests) !! i = Some (r, p) -> p = Announcing \/ p = Waiting ->
  exists h' c' r' v, history (h ++ h') c' /\ c'.(requests) !! i = Some (r', Returned v) /\ (length h' <= 2)%nat /\
    Forall (fun x => x.1 = Announced i \/ x.1 = Wake i \/ (x.1 = Timeout i /\ has_controller c = true)) h' /\
    (r.(future) = None -> v = r.(rdefault)).
Proof.
  intros Hh Hr Hp. pose proof (history_settled h c Hh) as S. destruct (settled_id _ _ _ S _ _ _ Hr) as [Hi _].
  assert (forall (Hc : has_controller c = true \/ r.(future) <> None) h0 c0, history h0 c0 -> c0.(requests) !! i = Some (r, Waiting) ->
    exists x c1 r1 v, history (h0 ++ [x]) c1 /\ c1.(requests) !! i = Some (r1, Returned v) /\
      (x.1 = Announced i \/ x.1 = Wake i \/ (x.1 = Timeout i /\ has_controller c = true)) /\ (r.(future) = None -> v = r.(rdefault))) as Hw.
  { intros Hc h0 c0 H0 E. destruct (future r) as [v|] eqn:Ef.
    - exists (Wake i, Done), (set_request c0 i (r, Returned v)), r, v. split_and!; [|by apply lookup_insert_eq|cbn; auto|done].
      eapply history_step; [done|]. cbn. by rewrite E, Ef.
    - exists (Timeout i, Done), (timed_out c0 r), (resolve r r.(rdefault)), r.(rdefault). split_and!; [|rewrite <- Hi; apply settle_back| |done].
      + eapply history_step; [done|]. cbn. by rewrite E.
      + right. right. destruct Hc as [Hc|Hc]; [done|congruence]. }
  destruct Hp as [-> | ->].
  - assert (history (h ++ [(Announced i, Done)]) (announced c r)) as H1 by (eapply history_step; [done|]; cbn; by rewrite Hr).
    unfold announced in H1. destruct (has_controller c) eqn:Ec.
    + destruct (Hw (or_introl eq_refl) _ _ H1) as (x & c1 & r1 & v & A & B & C & D); [cbn; by rewrite Hi, lookup_insert_eq|].
      exists [(Announced i, Done); x], c1, r1, v. rewrite <- app_assoc in A. split_and!; [done..| |done].
      apply list.Forall_cons. split; [by left|]. apply list.Forall_cons. by split; [|apply list.Forall_nil].
    + destruct (resolve_future r r.(rdefault)) as (w & Ew & Hww). eexists [_], _, _, w. split_and!; [exact H1| |cbn; lia| |].
      * rewrite <- Hi, settle_back. unfold returned. by rewrite Ew.
      * apply list.Forall_cons. split; [by left|by apply list.Forall_nil].
      * intros Hn. destruct Hww as [|[_ ->]]; [congruence|done].
  - assert (has_controller c = true \/ r.(future) <> None) as Hc.
    { destruct (future r) eqn:Ef; [by right|]. destruct (settled_waits _ _ _ S i r Hr Ef) as [|[]%not_elem_of_nil]. by left. }
    destruct (Hw Hc _ _ Hh Hr) as (x & c1 & r1 & v & A & B & C & D). exists [x], c1, r1, v. split_and!; [done..|cbn; lia| |done].
    apply list.Forall_cons. by split; [|apply list.Forall_nil].
Qed.

(** ** Examples *)

Fixpoint run_ops (os : list op) (c : ControlChannel) : option (list (op * reply) * ControlChannel) :=
  match os with
  | [] => Some ([], c)
  | o :: os' => '(c', x) ← step o c; '(h, c'') ← run_ops os' c'; Some ((o, x) :: h, c'')
  end.
Lemma run_ops_history os : forall h0 c h c', history h0 c -> run_ops os c = Some (h, c') -> history (h0 ++ h) c'.
Proof.
  induction os as [|o os IH]; intros h0 c h c' H0 H; cbn in H; [injection H as <- <-; by rewrite app_nil_r|].
  destruct (step o c) as [[c1 x]|] eqn:E; [|done]. cbn in H. destruct (run_ops os c1) as [[h1 c2]|] eqn:E1; [|done]. injection H as <- <-.
  rewrite (assoc_L _ h0 [(o, x)] h1 : h0 ++ (o, x) :: h1 = _). eapply IH; [by eapply history_step|done].
Qed.

Definition yes : dict := [(lit "allowed", VBool true)].
Definition no : dict := [(lit "allowed", VBool false)].
Definition may_run : op := Ask (lit "q1") (lit "permission") [] no (lit "u1").
Definition answered_once : list op :=
  [Acquire (lit "a"); may_run; Announced (lit "q1"); Acquire (lit "b"); Respond (lit "q1") no (Some (lit "b"));
   Respond (lit "q1") yes (Some (lit "a")); Respond (lit "q1") no (Some (lit "a")); Wake (lit "q1")].

Lemma control_answers_witness :
  match run_ops answered_once new_channel with
  | Some (h, c) =>
      all_named h /\ consent h (lit "q1") yes /\ snd <$> c.(requests) !! lit "q1" = Some (Returned yes) /\
      map snd h = [Done; Done; Done; ControlLeaseError; ControlLeaseError; Answer true; Answer false; Done]
  | None => False
  end.
Proof.
  destruct (run_ops answered_once new_channel) as [[h c]|] eqn:E; [|vm_compute in E; discriminate E].
  assert (exists r, requests c !! lit "q1" = Some (r, Returned yes) /\ rdefault r = no) as (r & Hr & Hd).
  { vm_compute in E. injection E as <- <-. eexists. split; by vm_compute. }
  assert (all_named h) as Hn.
  { apply named_check. vm_compute in E. by injection E as <- <-. }
  destruct (control_answers h c (lit "q1") r (Returned yes) (run_ops_history _ [] _ _ _ history_start E) Hr) as (_ & _ & _ & H & _).
  split_and!; [exact Hn|apply (H Hn); right; split; [reflexivity|rewrite Hd; discriminate]|by rewrite Hr|].
  vm_compute in E. by injection E as <- <-.
Defined.

(** A response that names no client is accepted while another client holds the
    lease; the documentation refuses every response but that of the holder. *)
Lemma unnamed_accepted :
  match run_ops [Acquire (lit "a"); may_run; Announced (lit "q1"); Respond (lit "q1") yes None; Wake (lit "q1")] new_channel with
  | Some (h, c) => map snd h = [Done; Done; Done; Answer true; Done] /\ snd <$> c.(requests) !! lit "q1" = Some (Returned yes)
  | None => False
  end.
Proof. by vm_compute. Qed.

Lemma control_returns_witness :
  match run_ops [may_run] new_channel with
  | Some (h, c) => exists h' c' r', history (h ++ h') c' /\ c'.(requests) !! lit "q1" = Some (r', Returned no) /\ (length h' <= 2)%nat
  | None => False
  end.
Proof.
  destruct (run_ops [may_run] new_channel) as [[h c]|] eqn:E; [|vm_compute in E; discriminate E].
  assert (exists r, requests c !! lit "q1" = Some (r, Announcing) /\ rdefault r = no /\ future r = None) as (r & Hr & Hd & Hf).
  { vm_compute in E. injection E as <- <-. eexists. split; by vm_compute. }
  destruct (control_returns h c (lit "q1") r Announcing (run_ops_history _ [] _ _ _ history_start E) Hr (or_introl eq_refl))
    as (h' & c' & r' & v & A & B & C & _ & D).
  exists h', c', r'. split_and!; [exact A|rewrite B, (D Hf), Hd; reflexivity|exact C].
Defined.

