(* ===== verification/ControlPrompts.v ===== *)
(** * The prompts that a session shows

    What the projection shows of the questions of the control channel, read from
    the announcements in the event stream, whatever other events lie between. *)

From stdpp Require Import base gmap list strings numbers.
From Stdlib Require Import ZArith Lia.
From S2P Require Import Prelude PyStr PyVal Projection ProjectionFacts Recording Control ControlFacts.

(** ** What the announcements say *)

Definition body_id (b : dict) : str := match get b (lit "request_id") with VStr i => i | _ => [] end.
Definition event_id (e : event) : str := body_id e.(content).

Definition known (l : list event) : list str :=
  omap (fun e => match e.(event_type) with CONTROL_REQUESTED => Some (event_id e) | _ => None end) l.
Definition without (l : list str) (i : str) : list str := List.filter (fun j => negb (str_eqb j i)) l.
Definition note (o : list str) (e : event) : list str :=
  match e.(event_type) with CONTROL_REQUESTED => o ++ [event_id e] | CONTROL_RESOLVED => without o (event_id e) | _ => o end.
(** The questions that were announced and not yet resolved. *)
Definition open_after (l : list event) : list str := fold_left note l [].

Lemma known_app l l' : known (l ++ l') = known l ++ known l'.
Proof. apply omap_app. Qed.
Lemma body_id_describe r x : body_id (describe r ++ x) = r.(rid).
Proof. reflexivity. Qed.

(** The questions with no resolution in the queue [q]. *)
Definition unqueued (q : list dict) (o : list str) : list str := List.filter (fun i => negb (str_in i (map body_id q))) o.

Lemma without_elem o i j : j ∈ without o i <-> j ∈ o /\ j <> i.
Proof. apply filter_ne_elem. Qed.
Lemma unqueued_snoc q b o : unqueued (q ++ [b]) o = without (unqueued q o) (body_id b).
Proof.
  assert (forall i, str_in i (map body_id (q ++ [b])) = str_in i (map body_id q) || str_eqb i (body_id b)) as E.
  { intros i. unfold str_in. rewrite map_app, existsb_app. cbn. by rewrite orb_false_r. }
  unfold unqueued, without. induction o as [|j o IH]; [done|]. cbn [List.filter]. rewrite E, negb_orb, IH.
  destruct (negb (str_in j (map body_id q))); cbn; [|done]. by destruct (negb (str_eqb j (body_id b))).
Qed.
Lemma unqueued_cons b q o : unqueued (b :: q) o = unqueued q (without o (body_id b)).
Proof.
  assert (forall i, str_in i (map body_id (b :: q)) = str_eqb i (body_id b) || str_in i (map body_id q)) as E by done.
  unfold unqueued, without. induction o as [|j o IH]; [done|]. cbn [List.filter]. rewrite E, negb_orb, IH.
  destruct (str_eqb j (body_id b)); cbn [negb andb]; [done|]. cbn [List.filter]. by destruct (negb (str_in j (map body_id q))).
Qed.
Lemma unqueued_new q o i : i ∉ map body_id q -> unqueued q (o ++ [i]) = unqueued q o ++ [i].
Proof.
  intros H. unfold unqueued. rewrite filter_app. cbn. destruct (str_in i _) eqn:E; [by apply str_in_spec in E|done].
Qed.
Lemma open_after_snoc l e : open_after (l ++ [e]) = note (open_after l) e.
Proof. unfold open_after. by rewrite fold_left_app. Qed.

Arguments open_after : simpl never.
Arguments unqueued : simpl never.
Arguments without : simpl never.

(** ** What the channel announces *)

Definition question (r : ControlRequest) : dict * dict := (describe r, r.(rdefault)).
(** The resolution of a question of the channel: its response is the default, or
    one that was accepted. *)
Definition told (h : list (op * reply)) (c : ControlChannel) (b : dict) : Prop :=
  exists i r p v s, c.(requests) !! i = Some (r, p) /\ r.(rid) = i /\
    b = describe r ++ [(lit "response", VDict v); (lit "reason", VStr s)] /\ ((i, v) ∈ accepted h \/ v = r.(rdefault)).
Definition asked (c : ControlChannel) (e : event) : Prop :=
  exists i r p b, c.(requests) !! i = Some (r, p) /\ r.(rid) = i /\ e.(content) = describe r ++ [(lit "has_controller", VBool b)].
Definition form (h : list (op * reply)) (c : ControlChannel) (e : event) : Prop :=
  match e.(event_type) with CONTROL_REQUESTED => asked c e | CONTROL_RESOLVED => told h c e.(content) | _ => False end.

Record announces (h : list (op * reply)) (c : ControlChannel) : Prop := {
  announces_open : c.(_pending) = unqueued c.(resolutions) (open_after c.(emitted));
  announces_once : NoDup (known c.(emitted));
  announces_all : forall i, i ∈ known c.(emitted) <-> is_Some (c.(requests) !! i);
  announces_queue : Forall (told h c) c.(resolutions);
  announces_form : Forall (form h c) c.(emitted)
}.

(** The questions stay what they are. *)
Definition keeps (c c' : ControlChannel) : Prop := forall i r p, c.(requests) !! i = Some (r, p) ->
  exists r' p', c'.(requests) !! i = Some (r', p') /\ r'.(rid) = r.(rid) /\ question r' = question r.
Lemma told_more h h' c c' b : keeps c c' -> told h c b -> told (h ++ h') c' b.
Proof.
  intros K (i & r & p & v & s & Hr & Hi & -> & Hv). destruct (K i r p Hr) as (r' & p' & Hr' & E & [= Eid Ek Ep Ed]).
  exists i, r', p', v, s. split_and!; [done|congruence| |].
  - unfold describe. by rewrite Eid, Ek, Ep.
  - destruct Hv as [Hv|Hv]; [left; rewrite accepted_app; apply elem_of_app; by left|right; congruence].
Qed.
Lemma asked_more c c' e : keeps c c' -> asked c e -> asked c' e.
Proof.
  intros K (i & r & p & b & Hr & Hi & E). destruct (K i r p Hr) as (r' & p' & Hr' & E' & [= Eid Ek Ep Ed]).
  exists i, r', p', b. split_and!; [done|congruence|]. rewrite E. unfold describe. by rewrite Eid, Ek, Ep.
Qed.
Lemma form_more h h' c c' e : keeps c c' -> form h c e -> form (h ++ h') c' e.
Proof. intros K. unfold form. destruct (event_type e); try done; [by apply asked_more|by apply told_more]. Qed.
Lemma keeps_refl c : keeps c c.
Proof. intros i r p H. by exists r, p. Qed.
Lemma keeps_set c i r p r' p' : c.(requests) !! i = Some (r, p) -> r'.(rid) = r.(rid) -> question r' = question r ->
  keeps c (set_request c i (r', p')).
Proof.
  intros H E1 E2 j x q Hx. cbn. destruct (decide (j = i)) as [->|Hn].
  - exists r', p'. rewrite lookup_insert_eq. rewrite H in Hx. by injection Hx as <- <-.
  - exists x, q. by rewrite lookup_insert_ne by congruence.
Qed.

Lemma announces_same h h' c c' : keeps c c' -> (forall i, is_Some (c'.(requests) !! i) -> is_Some (c.(requests) !! i)) ->
  c'.(_pending) = c.(_pending) -> c'.(resolutions) = c.(resolutions) -> c'.(emitted) = c.(emitted) ->
  announces h c -> announces (h ++ h') c'.
Proof.
  intros K Kb E1 E2 E3 [H1 H2 H3 H4 H5]. split; rewrite ?E1, ?E2, ?E3; try done.
  - intros i. rewrite H3. split; [|by apply Kb]. intros [[r p] Hr]. destruct (K i r p Hr) as (r' & p' & Hr' & _). by eexists.
  - eapply list.Forall_impl; [exact H4|]. intros b. by apply told_more.
  - eapply list.Forall_impl; [exact H5|]. intros b. by apply form_more.
Qed.
Lemma announces_more h x c : announces h c -> announces (h ++ x) c.
Proof. by apply announces_same; [apply keeps_refl|..]. Qed.
Lemma announces_set h x c i r p r' p' : c.(requests) !! i = Some (r, p) -> r'.(rid) = r.(rid) -> question r' = question r ->
  announces h c -> announces (h ++ x) (set_request c i (r', p')).
Proof.
  intros H E1 E2. apply announces_same; try done; [by eapply keeps_set|].
  intros j. cbn. destruct (decide (j = i)) as [->|Hn]; [by intros _; eexists|by rewrite lookup_insert_ne by congruence].
Qed.

Lemma announces_settle h c r p0 p v s : c.(requests) !! r.(rid) = Some (r, p0) -> ((r.(rid), v) ∈ accepted h \/ v = r.(rdefault)) ->
  announces h c -> announces h (_settle c r p v s).
Proof.
  intros Hr Hv A. pose proof (announces_set h [] c r.(rid) r p0 (resolve r v) p Hr eq_refl eq_refl A) as A'. rewrite app_nil_r in A'.
  destruct A' as [H1 H2 H3 H4 H5]. change (_pending c = unqueued (resolutions c) (open_after (emitted c))) in H1.
  unfold _settle. split; cbn; try done.
  - etransitivity; [|symmetry; apply unqueued_snoc]. change (without (_pending c) (rid r) =
      without (unqueued (resolutions c) (open_after (emitted c))) (rid r)). by rewrite <- H1.
  - apply Forall_app. split; [done|]. apply list.Forall_cons. split; [|by apply list.Forall_nil].
    exists r.(rid), (resolve r v), p, v, s. split_and!; [by apply lookup_insert_eq|done..].
Qed.
Lemma announces_all_settled h ids : forall c, (forall i r p, c.(requests) !! i = Some (r, p) -> r.(rid) = i) ->
  announces h c -> announces h (settle_all c ids).
Proof.
  induction ids as [|i ids IH]; intros c Hid A; cbn [settle_all]; [done|]. destruct (requests c !! i) as [[r p]|] eqn:E; [|by apply IH].
  pose proof (Hid i r p E) as <-. apply IH; [|by eapply announces_settle; [done|right|done]].
  cbn. intros j x q [[<- [= <- <-]]|[_ Hx]]%lookup_insert_Some; [done|by eapply Hid].
Qed.

Lemma body_id_told h c b : told h c b -> is_Some (c.(requests) !! body_id b).
Proof. intros (i & r & p & v & s & Hr & Hi & -> & _). rewrite body_id_describe, Hi. by eexists. Qed.

Lemma announces_step h c o c' x : settled [] h c -> announces h c -> step o c = Some (c', x) -> announces (h ++ [(o, x)]) c'.
Proof.
  intros S A. assert (forall i r p, requests c !! i = Some (r, p) -> rid r = i) as Hid by (intros i r p H; by apply (settled_id _ _ _ S i r p)).
  assert (forall i r p0 p v s, requests c !! i = Some (r, p0) -> v = rdefault r -> announces (h ++ [(o, x)]) (_settle c r p v s)) as Hset.
  { intros i r p0 p v s Hr ->. apply (announces_settle _ _ _ p0); [by rewrite (Hid i r p0 Hr)|by right|by apply announces_more]. }
  destruct o as [who|who|i k p d u|i|i|i|i|u|i|i v who]; cbn [step].
  - intros [= E]. unfold acquire in E. assert (c' = c \/ c' = set_lease c (Some who)) as Hc by (by repeat case_match; injection E as <- _; auto).
    destruct Hc as [->| ->]; [by apply announces_more|]. apply (announces_same h _ c); [exact (keeps_refl c)|done..].
  - intros [= <- <-]. unfold release. case_bool_decide; [|by apply announces_more].
    apply announces_all_settled; [done|]. apply (announces_same h _ c); [exact (keeps_refl c)|done..].
  - destruct (nonempty i) eqn:Hi; [|done]. case_bool_decide as Hn; [|done]. intros [= <- <-]. set (r := {| rid := i; rkind := k; rpayload := p; rdefault := d; delivered := false; future := None |}).
    assert (keeps c (ask c i k p d u)) as K.
    { intros j y q Hy. exists y, q. cbn. by rewrite lookup_insert_ne by congruence. }
    destruct A as [H1 H2 H3 H4 H5]. set (e := _announce CONTROL_REQUESTED (describe r ++ [(lit "has_controller", VBool (has_controller c))]) u). assert (event_id e = i) as Ee by done.
    assert (known [e] = [i]) as Ek by done. assert (i ∉ known (emitted c)) as Hk by (rewrite H3, Hn; by intros []).
    split; unfold ask; cbn [requests _pending resolutions emitted]; fold r; fold e.
    + rewrite open_after_snoc. change (note (open_after (emitted c)) e) with (open_after (emitted c) ++ [event_id e]).
      rewrite Ee, unqueued_new, H1; [done|]. intros (b & -> & Hb)%list_elem_of_fmap.
      rewrite list.Forall_forall in H4. destruct (body_id_told _ _ _ (H4 b Hb)) as [y Hy]. congruence.
    + rewrite known_app, Ek. apply list.NoDup_app. split_and!; [done| |by apply NoDup_singleton]. by intros j Hj ->%list_elem_of_singleton.
    + intros j. rewrite known_app, Ek, elem_of_app, H3, list_elem_of_singleton. split.
      * intros [Hj| ->]; [rewrite lookup_insert_ne by (intros ->; rewrite Hn in Hj; by destruct Hj); done|rewrite lookup_insert_eq; by eexists].
      * intros [y [[<- _]|[_ Hy]]%lookup_insert_Some]; [by right|left; by eexists].
    + eapply list.Forall_impl; [exact H4|]. intros b. by apply told_more.
    + apply Forall_app. split; [eapply list.Forall_impl; [exact H5|]; intros b; by apply form_more|].
      apply list.Forall_cons. split; [|by apply list.Forall_nil]. exists i, r, Announcing, (has_controller c). split_and!; [apply lookup_insert_eq|done|done].
  - destruct (requests c !! i) as [[r []]|] eqn:Er; try done. intros [= <- <-]. unfold announced. destruct (has_controller c) eqn:Ec.
    + rewrite (Hid _ _ _ Er). by eapply announces_set.
    + by eapply Hset.
  - destruct (requests c !! i) as [[r []]|] eqn:Er; try done. destruct (future r) as [v|] eqn:Ef; [|done]. intros [= <- <-].
    by eapply announces_set.
  - destruct (requests c !! i) as [[r []]|] eqn:Er; try done. intros [= <- <-]. by eapply Hset.
  - destruct (requests c !! i) as [[r []]|] eqn:Er; try done; intros [= <- <-]; by eapply Hset.
  - destruct (resolutions c) as [|b l] eqn:Eq; [done|]. intros [= <- <-]. destruct A as [H1 H2 H3 H4 H5].
    rewrite Eq in H1, H4. apply list.Forall_cons in H4 as [Hb H4].
    assert (forall b, told h c b -> told (h ++ [(Announce u, Done)]) c b) as Ht by (intros b'; apply told_more, keeps_refl).
    split; cbn; [|by rewrite known_app; cbn; rewrite app_nil_r|by intros i; rewrite known_app; cbn; rewrite app_nil_r| |].
    + rewrite open_after_snoc. by rewrite H1, unqueued_cons.
    + by eapply list.Forall_impl.
    + apply Forall_app. split; [eapply list.Forall_impl; [exact H5|]; intros e; apply form_more; exact (keeps_refl c)|].
      apply list.Forall_cons. split; [exact (Ht b Hb)|by apply list.Forall_nil].
  - unfold mark_delivered. destruct (lookup_pending c i) as [[r p]|] eqn:E; [|intros [= <- <-]; by apply announces_more].
    apply lookup_pending_Some in E as [_ E]. destruct (_ || _); intros [= <- <-]; [by apply announces_more|by eapply announces_set].
  - unfold respond. destruct (match who with Some _ => _ | None => false end); [intros [= <- <-]; by apply announces_more|].
    destruct (lookup_pending c i) as [[r p]|] eqn:E; [|intros [= <- <-]; by apply announces_more].
    apply lookup_pending_Some in E as [Hi E]. destruct (has_controller c); [|intros [= <- <-]; by apply announces_more].
    intros [= <- <-]. pose proof (Hid _ _ _ E) as <-. eapply announces_settle; [done| |by apply announces_more].
    left. rewrite accepted_app. apply elem_of_app. right. by left.
Qed.

Lemma history_announces h c : history h c -> announces h c.
Proof.
  induction 1 as [|h c o c' x Hh IH Hs]; [|by eapply announces_step; [apply history_settled|..]].
  split; cbn; try done; try apply list.Forall_nil; [apply list.NoDup_nil; done|]. intros i. rewrite lookup_empty. split; [by intros ?%not_elem_of_nil|by intros []].
Qed.

(** ** What the projection shows of them *)

Section Shown.
Variable repr : value -> str.
Variable int_of_text : str -> option Z.
Variable to_float : value -> option value.
Variable dict_of_other : value -> option (list (str * value)).
Abbreviation state := (@PresentationState ArtifactRef).
Abbreviation handle := (@handle ArtifactRef repr int_of_text to_float dict_of_other).
Abbreviation fold := (@Projection.fold ArtifactRef repr int_of_text to_float dict_of_other).
Abbreviation replay := (@replay ArtifactRef repr int_of_text to_float dict_of_other).

Definition is_control (e : event) : bool := match e.(event_type) with CONTROL_REQUESTED | CONTROL_RESOLVED => true | _ => false end.
(** Up to what the transport stamps on it. *)
Definition same_body (e e' : event) : Prop := e.(event_type) = e'.(event_type) /\ e.(content) = e'.(content).

Definition open_prompts (s : state) : list str := map request_id (List.filter (fun q => negb (resolved q)) s.(prompts)).

Lemma terminal_prompts (s s' : state) txt : on_terminal s txt = Ok s' -> prompts s' = prompts s.
Proof. unfold on_terminal. intros (t & _ & E)%bind_Ok. by injection E as <-. Qed.
Lemma handle_prompts (s s' : state) (e : event) : is_control e = false -> handle s e = Ok s' -> prompts s' = prompts s.
Proof.
  unfold is_control, Projection.handle. destruct (event_type e); try done; intros _; try (intros [= <-]; done); try (apply terminal_prompts).
  all: try (unfold _on_context_update; intros (? & _ & (? & _ & (? & _ & (? & _ & E)%bind_Ok)%bind_Ok)%bind_Ok)%bind_Ok; destruct (_sub_agent_key _ _); by injection E as <-).
  all: try (intros (s1 & E & E')%bind_Ok; injection E' as <-; cbn; destruct (nonempty _); [by eapply terminal_prompts|by injection E as <-]).
  all: intros [= <-]; unfold on_transcript, _on_log_message, _on_file_edit_preview, _on_compaction_status, _on_status_update, _on_turn_started,
      _on_turn_ended, _on_stream_truncated, _on_system_message; cbn; repeat case_match; done.
Qed.

(** What the projection of [l] shows, where [l] are the announcements so far. *)
Record shown (h : list (op * reply)) (c : ControlChannel) (l : list event) (s : state) : Prop := {
  shown_all : map request_id s.(prompts) = known l;
  shown_open : open_prompts s = open_after l;
  shown_kind : forall q, q ∈ s.(prompts) -> exists r p, c.(requests) !! request_id q = Some (r, p) /\ payload q = r.(rpayload) /\
    forall v, response q = Some v -> (request_id q, v) ∈ accepted h \/ v = r.(rdefault)
}.

Lemma shown_prompts h c l (s s' : state) : prompts s' = prompts s -> shown h c l s -> shown h c l s'.
Proof. intros E [H1 H2 H3]. split; unfold open_prompts in *; by rewrite E. Qed.

Lemma shown_requested h c l (s s' : state) (e e' : event) : same_body e e' -> e'.(event_type) = CONTROL_REQUESTED -> asked c e' ->
  nonempty (event_id e') = true -> event_id e' ∉ known l -> shown h c l s -> handle s e = Ok s' -> shown h c (l ++ [e']) s'.
Proof.
  intros [Et Ec] Ht (i & r & p & b & Hr & Hi & Eb) Hn Hk [H1 H2 H3]. unfold Projection.handle. rewrite Et, Ht.
  unfold event_id in *. rewrite Eb, body_id_describe, Hi in *. unfold _on_control_requested.
  assert (text_field repr e (lit "request_id") = i) as ->.
  { unfold text_field. rewrite Ec. change (get _ _) with (VStr r.(rid)). rewrite Hi. unfold str_or_empty. cbn. by destruct i. }
  rewrite Hn. cbn [negb orb]. destruct (existsb _ (prompts s)) eqn:Ex.
  { apply existsb_exists in Ex as (q & Hq & E%str_eqb_eq). destruct Hk. rewrite <- H1, <- E. by apply list_elem_of_fmap_2, list_elem_of_In. }
  rewrite Ec. change (get (describe r ++ _) (lit "payload")) with (VDict r.(rpayload)).
  assert (dict_or_empty dict_of_other (VDict r.(rpayload)) = Ok r.(rpayload)) as -> by (unfold dict_or_empty; by destruct (rpayload r)).
  intros [= <-]. assert (event_id e' = i) as Ei by (unfold event_id; by rewrite Eb).
  split; cbn [prompts set_prompts set_activity].
  - rewrite map_app, H1, known_app. cbn. by rewrite Ht, Ei.
  - rewrite open_after_snoc. unfold note, open_prompts. rewrite Ht, Ei. cbn [prompts set_prompts set_activity].
    rewrite filter_app, map_app. by rewrite <- H2.
  - intros q [Hq| ->%list_elem_of_singleton]%elem_of_app; [by apply H3|]. cbn. exists r, p. split_and!; done.
Qed.

Lemma update_open (g : PendingPrompt -> PendingPrompt) i l : NoDup (map request_id l) ->
  (forall q, request_id (g q) = request_id q /\ resolved (g q) = true) ->
  map request_id (List.filter (fun q => negb (resolved q)) (update_last (fun q => str_eqb (request_id q) i) g l)) =
  without (map request_id (List.filter (fun q => negb (resolved q)) l)) i.
Proof.
  intros Hn Hg. unfold without. assert (forall l, i ∉ map request_id l ->
    List.filter (fun j => negb (str_eqb j i)) (map request_id (List.filter (fun q => negb (resolved q)) l)) =
    map request_id (List.filter (fun q => negb (resolved q)) l)) as Hno.
  { clear l Hn. induction l as [|q l IH]; [done|]. cbn. intros [H1 H2]%not_elem_of_cons. destruct (negb (resolved q)); cbn; [|by apply IH].
    destruct (str_eqb (request_id q) i) eqn:E; [by apply str_eqb_eq in E|]. cbn. by rewrite IH. }
  induction l as [|q l IH]; [done|]. cbn [map] in Hn. apply list.NoDup_cons in Hn as [Hq Hn]. cbn [update_last].
  destruct (existsb _ l) eqn:Ex.
  - apply existsb_exists in Ex as (q' & Hq' & E%str_eqb_eq). assert (str_eqb (request_id q) i = false) as En.
    { apply not_true_iff_false. intros Eq%str_eqb_eq. apply Hq. rewrite Eq, <- E. by apply list_elem_of_fmap_2, list_elem_of_In. }
    cbn [List.filter]. destruct (negb (resolved q)); cbn; [|by apply IH]. rewrite En. cbn. by rewrite IH.
  - assert (i ∉ map request_id l) as Hi.
    { intros (q' & -> & Hq')%list_elem_of_fmap. apply not_true_iff_false in Ex. apply Ex. apply existsb_exists. exists q'.
      split; [by apply list_elem_of_In|apply str_eqb_refl]. }
    destruct (str_eqb (request_id q) i) eqn:E; cbn [List.filter].
    + rewrite (proj2 (Hg q)). cbn. rewrite <- (Hno l Hi) at 1. destruct (negb (resolved q)); cbn; by rewrite ?E.
    + destruct (negb (resolved q)); cbn; rewrite ?E; cbn; by rewrite Hno.
Qed.

Lemma update_last_elem {A} f (g : A -> A) l x : x ∈ update_last f g l -> x ∈ l \/ exists y, y ∈ l /\ f y = true /\ x = g y.
Proof.
  induction l as [|y l IH]; cbn [update_last]; [by left|]. destruct (existsb f l).
  - intros [->|H]%elem_of_cons; [left; by left|]. destruct (IH H) as [|(z & ? & ? & ?)]; [left; by right|right]. exists z. split_and!; [by right|done..].
  - destruct (f y) eqn:E; intros [->|H]%elem_of_cons; [right|left; by right|left; by left|left; by right]. exists y. split_and!; [by left|done..].
Qed.

Lemma shown_resolved h c l (s s' : state) (e e' : event) : same_body e e' -> e'.(event_type) = CONTROL_RESOLVED -> told h c e'.(content) ->
  NoDup (known l) -> shown h c l s -> handle s e = Ok s' -> shown h c (l ++ [e']) s'.
Proof.
  intros [Et Ec] Ht (i & r & p & v & w & Hr & Hi & Eb & Hv) Hn [H1 H2 H3]. unfold Projection.handle. rewrite Et, Ht. intros [= <-].
  unfold _on_control_resolved. assert (event_id e' = i) as Ei by (unfold event_id; by rewrite Eb).
  assert (text_field repr e (lit "request_id") = i) as ->.
  { unfold text_field. rewrite Ec, Eb. change (get _ _) with (VStr r.(rid)). rewrite Hi. unfold str_or_empty. cbn. by destruct i. }
  rewrite Ec, Eb. change (get _ (lit "response")) with (VDict v). set (s1 := set_prompts s _).
  apply (shown_prompts h c _ s1); [by destruct (existsb _ _)|]. split; unfold s1; cbn [prompts set_prompts].
  - rewrite update_last_keys by done. rewrite H1, known_app. cbn. rewrite Ht. by rewrite app_nil_r.
  - unfold open_prompts. cbn [prompts set_prompts]. rewrite update_open; [|by rewrite H1|done]. fold (open_prompts s).
    rewrite H2, open_after_snoc. unfold note. by rewrite Ht, Ei.
  - intros q [Hq|(y & Hy & E%str_eqb_eq & ->)]%update_last_elem; [by apply H3|]. cbn. destruct (H3 y Hy) as (r' & q & Hr' & Hp & _).
    exists r', q. split_and!; [done..|]. intros v' [= <-]. rewrite E in Hr' |- *. rewrite Hr in Hr'. by injection Hr' as <- <-.
Qed.

Lemma fold_shown h c l (s s' : state) (e : event) es : Forall (form h c) es -> NoDup (known (l ++ es)) ->
  (forall i, i ∈ known (l ++ es) -> nonempty i = true) -> shown h c l s -> fold s e = Ok s' ->
  if is_control e then match es with e' :: _ => same_body e e' -> shown h c (l ++ [e']) s' | [] => True end else shown h c l s'.
Proof.
  intros Hf Hn Hne Hs H. assert (exists s0 : state, handle s0 e = Ok s' /\ prompts s0 = prompts s) as (s0 & H' & E0).
  { unfold Projection.fold in H. destruct (seq e); [destruct (_ <=? _); [done|]|]; by eexists. }
  apply (shown_prompts h c l s s0) in Hs; [|done]. destruct (is_control e) eqn:Ei; [|eapply shown_prompts; [by eapply handle_prompts|done]].
  destruct es as [|e' es]; [done|]. intros Hb. apply list.Forall_cons in Hf as [Hf _]. rewrite known_app in Hn, Hne. unfold form in Hf.
  assert (NoDup (known l)) as Hl by (by apply list.NoDup_app in Hn as (? & _ & _)).
  destruct (event_type e') eqn:Et; try done; [|by eapply shown_resolved].
  assert (known (e' :: es) = event_id e' :: known es) as Ek by (cbn; by rewrite Et). rewrite Ek in Hn, Hne.
  apply list.NoDup_app in Hn as (_ & Hd & _). eapply shown_requested; try done.
  - apply Hne, elem_of_app. right. by left.
  - intros Hi. apply (Hd _ Hi). by left.
Qed.

Lemma foldM_shown h c (events : list event) : forall (s s' : state) l es, Forall (form h c) es -> NoDup (known (l ++ es)) ->
  (forall i, i ∈ known (l ++ es) -> nonempty i = true) -> shown h c l s -> Forall2 same_body (List.filter is_control events) es ->
  foldM fold events s = Ok s' -> shown h c (l ++ es) s'.
Proof.
  induction events as [|e events IH]; intros s s' l es Hf Hn Hne Hs Hb H; cbn [foldM] in H.
  - injection H as <-. apply Forall2_nil_inv_l in Hb as ->. by rewrite app_nil_r.
  - destruct (fold s e) as [s1|] eqn:E; [|done]. pose proof (fold_shown h c l s s1 e es Hf Hn Hne Hs E) as Hs1. cbn [List.filter] in Hb.
    destruct (is_control e); [|by eapply IH]. apply Forall2_cons_inv_l in Hb as (e' & es' & Hee & Hb & ->).
    apply list.Forall_cons in Hf as [_ Hf]. rewrite (assoc_L _ l [e'] es' : l ++ e' :: es' = _) in *. eapply IH; [done..|by apply Hs1|done|done].
Qed.

(** what a session shows of the decisions of an agent is what its control
    channel knows.  In a stream that carries the announcements of the channel, in
    order, with any other events between, every question is shown once, the
    open ones are those that are pending and those whose resolution is still to be
    announced; and an answer that is shown is the default or one that was accepted. *)
Theorem prompts_follow_channel h c events (s : state) :
  history h c -> Forall2 same_body (List.filter is_control events) c.(emitted) -> replay events = Ok s ->
  (forall i, is_Some (c.(requests) !! i) <-> i ∈ map request_id s.(prompts)) /\ NoDup (map request_id s.(prompts)) /\
  c.(_pending) = unqueued c.(resolutions) (open_prompts s) /\
  forall q, q ∈ s.(prompts) -> exists r p, c.(requests) !! request_id q = Some (r, p) /\ payload q = r.(rpayload) /\
    forall v, response q = Some v -> consent h (request_id q) v \/ unnamed h (request_id q) v \/ v = r.(rdefault).
Proof.
  intros Hh Hb Hr. pose proof (history_announces h c Hh) as [H1 H2 H3 H4 H5]. pose proof (history_settled h c Hh) as S.
  assert (shown h c [] (empty_state : state)) as H0 by (split; try done; by intros q ?%not_elem_of_nil).
  destruct (foldM_shown h c events empty_state s [] c.(emitted) H5 H2) as [A B C]; try done.
  { intros i [[r p] Hi]%H3. by apply (settled_id _ _ _ S) in Hi as [_ ?]. }
  cbn in A, B. rewrite A. split_and!; [by intros i; rewrite H3|done|by rewrite B|].
  intros q Hq. destruct (C q Hq) as (r & p & Hx & Hp & Hv). exists r, p. split_and!; [done..|].
  intros v Ev. destruct (Hv v Ev); [|by right; right]. destruct (accepted_consent h c (request_id q) v Hh) as [|]; [done|by left|by right; left].
Qed.
End Shown.

(** ** Examples *)

Abbreviation show l := (@Projection.replay ArtifactRef (fun _ => []) (fun _ => None) (fun _ => None) (fun _ => None) l).
Definition two_questions : list op :=
  answered_once ++ [Announce (lit "u2"); Ask (lit "q2") (lit "question") [] no (lit "u3"); Announced (lit "q2")].
Lemma prompts_follow_channel_witness :
  match run_ops two_questions new_channel with
  | Some (_, c) => match show c.(emitted) with
                   | Ok s => c.(_pending) = open_prompts s /\ c.(_pending) = [lit "q2"] /\ map resolved s.(prompts) = [true; false]
                   | Raise _ => False
                   end
  | None => False
  end.
Proof.
  destruct (run_ops two_questions new_channel) as [[h c]|] eqn:E; [|vm_compute in E; discriminate E].
  destruct (show c.(emitted)) as [s|] eqn:Es; [|vm_compute in E; injection E as <- <-; vm_compute in Es; discriminate Es].
  assert (List.filter is_control c.(emitted) = c.(emitted)) as Ef by (vm_compute in E; by injection E as <- <-).
  assert (c.(resolutions) = []) as Eq by (vm_compute in E; by injection E as <- <-).
  assert (c.(_pending) = [lit "q2"]) as Ep by (vm_compute in E; by injection E as <- <-).
  assert (Forall2 same_body c.(emitted) c.(emitted)) as Hb by (clear; induction (emitted c); by constructor).
  destruct (prompts_follow_channel (fun _ => []) (fun _ => None) (fun _ => None) (fun _ => None) h c c.(emitted) s
    (run_ops_history _ [] _ _ _ history_start E) ltac:(rewrite Ef; exact Hb) Es) as (_ & _ & H & _).
  rewrite Eq in H. unfold unqueued in H. split_and!; [|exact Ep|].
  - rewrite H at 1. clear. induction (open_prompts s) as [|i l IH]; [done|]. cbn. f_equal. exact IH.
  - vm_compute in E. injection E as <- <-. vm_compute in Es. by injection Es as <-.
Defined.

(** ** Where an announcement says something else *)

(** The lease is given up between an answer and the end of the announcement: the
    agent gets the answer, and the session shows the default. *)
Lemma answer_misreported :
  match run_ops [Acquire (lit "a"); may_run; Respond (lit "q1") yes (Some (lit "a")); Release (lit "a"); Announced (lit "q1");
                 Announce (lit "u2"); Announce (lit "u3")] new_channel with
  | Some (_, c) => snd <$> c.(requests) !! lit "q1" = Some (Returned yes) /\
                   match show c.(emitted) with
                   | Ok s => map (fun q => (response q, reason q)) s.(prompts) = [(Some no, Some (lit "no_controller"))]
                   | Raise _ => False
                   end
  | None => False
  end.
Proof. by vm_compute. Qed.

(** A timeout between an answer and the turn of the coroutine: [respond] says that
    the answer was taken, and the agent gets the default. *)
Lemma answer_ignored :
  match run_ops [Acquire (lit "a"); may_run; Announced (lit "q1"); Respond (lit "q1") yes (Some (lit "a")); Timeout (lit "q1")] new_channel with
  | Some (h, c) => map snd h = [Done; Done; Done; Answer true; Done] /\ snd <$> c.(requests) !! lit "q1" = Some (Returned no)
  | None => False
  end.
Proof. by vm_compute. Qed.
