(* ===== verification/SessionRuntime.v ===== *)
(** * Permissions of a session

    Models the permission policy of [kolega_code/session/runtime.py]: a request of
    the agent is decided by the mode, then by the saved rules, and otherwise by an
    answer that comes through the control channel, which may also save a rule.

    The callback is a function of the file of rules when it is called and when the
    answer arrives, and of the answer.  [writable] says whether the file can be
    written.  Other parameters as in Permissions.v. *)

From stdpp Require Import base list strings numbers.
From Stdlib Require Import ZArith Lia.
From S2P Require Import Prelude PyStr PyVal Permissions.

Abbreviation dict := (list (str * value)).

Record PermissionDecision := { allowed : bool; because : str; decided_rule : option PermissionRule }.

Definition DENIED_BY_DEFAULT : dict :=
  [(lit "allowed", VBool false); (lit "reason", VStr (lit "No client was able to answer this permission request."))].

(** What the user is told. *)
Inductive store_notice := CouldNotLoad (e : store_error) | CouldNotWrite.

Section Runtime.
Variable casefold : str -> str.
Variable repr : value -> str.
Variable fresh : nat -> str * str.
(** [dict(v)] of a value that is not a dict; it may raise. *)
Variable dict_of_other : value -> option dict.

(** ** The wire form *)

Definition serialize_permission_request (r : PermissionRequest) : dict :=
  [(lit "kind", VStr (kind_value (req_kind r))); (lit "tool_name", VStr (req_tool r)); (lit "inputs", VDict (inputs r));
   (lit "command", VStr (command r)); (lit "path", VStr (req_path r)); (lit "mcp_server", VStr (mcp_server r));
   (lit "mcp_tool", VStr (mcp_tool r)); (lit "summary", VStr (summary r))].

Definition wire_kind (v : value) : option PermissionKind :=
  if truthy v then match v with VStr s => kind_of_value s | _ => None end else Some COMMAND.
Definition wire_dict (v : value) : option dict :=
  if truthy v then match v with VDict d => Some d | _ => dict_of_other v end else Some [].
(** [None]: raises. *)
Definition deserialize_permission_request (p : dict) : option PermissionRequest :=
  k ← wire_kind (get p (lit "kind"));
  ins ← wire_dict (get p (lit "inputs"));
  let text key := str_or_empty repr (get p key) in
  Some (mkRequest k (text (lit "tool_name")) ins (text (lit "command")) (text (lit "path")) (text (lit "mcp_server")) (text (lit "mcp_tool"))).

Definition option_dict (o : PermissionRuleOption) : value :=
  VDict [(lit "label", VStr (label o)); (lit "description", VStr (description o)); (lit "rule", to_dict (opt_rule o))].
Definition option_of_entry (v : value) : option PermissionRuleOption :=
  match v with
  | VDict d =>
      match get d (lit "rule") with
      | VDict _ as r =>
          match from_dict repr r with
          | Ok rule => Some (mkOption (str_or_empty repr (get d (lit "label"))) (str_or_empty repr (get d (lit "description"))) rule)
          | Raise _ => None
          end
      | _ => None
      end
  | _ => None
  end.
Definition deserialize_permission_rule_options (v : value) : list PermissionRuleOption :=
  match v with VList entries => omap option_of_entry entries | _ => [] end.

(** ** From an answer to a decision *)

Definition is_true (v : value) : bool := match v with VBool true => true | _ => false end.
Definition _permission_rule_from_response (response : dict) (options : list PermissionRuleOption) : option PermissionRule :=
  match get response (lit "rule") with
  | VDict _ as data =>
      if is_true (get response (lit "allowed")) then
        match from_dict repr data with
        | Ok rule => opt_rule <$> List.find (fun o => bool_decide (rule_key rule = rule_key (opt_rule o))) options
        | Raise _ => None
        end
      else None
  | _ => None
  end.

Definition permissions_state := (PermissionDecision * permissions_file * list store_notice)%type.
Definition _decision_from_response (response : dict) (options : list PermissionRuleOption) (f : permissions_file) (writable : bool)
    : result store_error permissions_state :=
  let once := {| allowed := true; because := lit "Allowed once because the rule could not be saved."; decided_rule := None |} in
  let decision rule := {| allowed := is_true (get response (lit "allowed")); because := str_or_empty repr (get response (lit "reason"));
                          decided_rule := rule |} in
  match _permission_rule_from_response response options with
  | None => Ok (decision None, f, [])
  | Some rule =>
      match add_rule repr f rule with
      | Raise e => if is_store_error e then Ok (once, f, [CouldNotLoad e]) else Raise e
      | Ok f' => if writable then Ok (decision (Some rule), f', []) else Ok (once, f, [CouldNotWrite])
      end
  end.

(** ** The callback *)

Definition _matching_rule (f : permissions_file) (r : PermissionRequest) : result store_error (option PermissionRule * list store_notice) :=
  match first_match casefold repr f r with
  | Ok rule => Ok (rule, [])
  | Raise e => if is_store_error e then Ok (None, [CouldNotLoad e]) else Raise e
  end.

Definition permission_payload (r : PermissionRequest) (options : list PermissionRuleOption) : dict :=
  [(lit "request", VDict (serialize_permission_request r)); (lit "rule_options", VList (map option_dict options))].

(** [ask payload default] is [control.request("permission", payload, default)];
    [later] is the file when it returns. *)
Definition permission_callback (mode : PermissionMode) (f : permissions_file) (r : PermissionRequest)
    (ask : dict -> dict -> dict) (later : permissions_file) (writable : bool) : result store_error permissions_state :=
  match mode with
  | AUTO => Ok ({| allowed := true; because := []; decided_rule := None |}, f, [])
  | ASK =>
      '(matched, notices) ← _matching_rule f r;
      match matched with
      | Some rule =>
          Ok ({| allowed := true; because := lit "Allowed by saved rule " ++ rule_id rule ++ lit "."; decided_rule := None |}, f, notices)
      | None =>
          let options := allow_rule_options repr fresh r in
          let response := ask (permission_payload r options) DENIED_BY_DEFAULT in
          '(d, f', notices') ← _decision_from_response response options later writable;
          Ok (d, f', notices ++ notices')
      end
  end.

(** ** The answer of a client *)

Definition answer_permission (d : PermissionDecision) : dict :=
  [(lit "allowed", VBool (allowed d)); (lit "reason", VStr (because d))]
  ++ match decided_rule d with Some rule => [(lit "rule", to_dict rule)] | None => [] end.
End Runtime.
