(* ===== verification/SessionRuntimeFacts.v ===== *)
(** * What the permission policy promises

    A call is allowed only by a saved rule or by a response that the control channel
    accepted, which is the lease holder's or that of a caller without a name;
    an answer that saves a rule is never asked for again; and what a client reads
    of a request is the request. *)

From stdpp Require Import base gmap list strings numbers.
From Stdlib Require Import ZArith Lia.
From S2P Require Import Prelude PyStr PyVal Shlex Permissions PermissionsFacts Control ControlFacts SessionRuntime.

Section Facts.
Variable casefold : str -> str.
Variable repr : value -> str.
Variable fresh : nat -> str * str.
Variable dict_of_other : value -> option dict.
Abbreviation callback := (permission_callback casefold repr fresh).
Abbreviation options := (allow_rule_options repr fresh).

(** ** The wire form *)

Lemma text_back s : str_or_empty repr (VStr s) = s.
Proof. by destruct s. Qed.

(** What a client decodes is what the runtime encoded: every permission request
    and every list of rule options comes back from its wire form unchanged. *)
Theorem permission_wire_roundtrip (r : PermissionRequest) (os : list PermissionRuleOption) :
  deserialize_permission_request repr dict_of_other (serialize_permission_request r) = Some r /\
  deserialize_permission_rule_options repr (VList (map option_dict os)) = os.
Proof.
  split.
  - unfold deserialize_permission_request, serialize_permission_request.
    change (get _ (lit "kind")) with (VStr (kind_value (req_kind r))). change (get _ (lit "inputs")) with (VDict (inputs r)).
    change (get _ (lit "tool_name")) with (VStr (req_tool r)). change (get _ (lit "command")) with (VStr (command r)).
    change (get _ (lit "path")) with (VStr (req_path r)). change (get _ (lit "mcp_server")) with (VStr (mcp_server r)).
    change (get _ (lit "mcp_tool")) with (VStr (mcp_tool r)).
    assert (wire_kind (VStr (kind_value (req_kind r))) = Some (req_kind r)) as -> by (by destruct (req_kind r)).
    assert (wire_dict dict_of_other (VDict (inputs r)) = Some (inputs r)) as -> by (unfold wire_dict; by destruct (inputs r)).
    cbn [mbind option_bind]. rewrite !text_back. by destruct r.
  - cbn. induction os as [|o os IH]; [done|]. cbn [map omap list_omap]. unfold option_of_entry at 1, option_dict at 1.
    change (get _ (lit "rule")) with (to_dict (opt_rule o)). change (get _ (lit "label")) with (VStr (label o)).
    change (get _ (lit "description")) with (VStr (description o)).
    pose proof (from_to_dict repr (opt_rule o)) as E. unfold to_dict at 1. unfold to_dict in E at 1. rewrite E, !text_back.
    f_equal; [by destruct o|exact IH].
Qed.

(** ** The options *)

Lemma dedupe_distinct os : forall seen, NoDup (map (fun o => rule_key (opt_rule o)) (dedupe_from seen os)) /\
  Forall (fun o => rule_key (opt_rule o) ∉ seen) (dedupe_from seen os).
Proof.
  induction os as [|o os IH]; intros seen; cbn [dedupe_from]; [split; constructor|]. case_bool_decide as Ho; [apply IH|].
  destruct (IH (rule_key (opt_rule o) :: seen)) as [H1 H2]. split.
  - cbn. apply list.NoDup_cons. split; [|done]. intros (x & E & Hx)%list_elem_of_fmap. rewrite list.Forall_forall in H2.
    apply (H2 x Hx). rewrite <- E. by left.
  - apply list.Forall_cons. split; [done|]. eapply list.Forall_impl; [exact H2|]. cbn. intros x Hx Hs. apply Hx. by right.
Qed.
Lemma options_distinct r : NoDup (map (fun o => rule_key (opt_rule o)) (options r)).
Proof.
  assert (forall k, NoDup [k : PermissionKind * str * str * str]) as H1 by (intros k; by apply NoDup_singleton).
  unfold allow_rule_options, _command_rule_options, _mcp_rule_options, _message_rule_options, _edit_rule_options. destruct (req_kind r).
  - destruct (negb _); [by constructor|apply dedupe_distinct].
  - destruct (nonempty (req_path r)); cbn; [|done]. apply list.NoDup_cons. split; [|done]. by intros [= ]%list_elem_of_singleton.
  - apply dedupe_distinct.
  - destruct (nonempty (recipient_of repr r)); cbn; [|done]. apply list.NoDup_cons. split; [|done]. by intros [= ]%list_elem_of_singleton.
Qed.
Lemma find_own {A B} `{EqDecision B} (f : A -> B) l o : NoDup (map f l) -> o ∈ l ->
  List.find (fun x => bool_decide (f o = f x)) l = Some o.
Proof.
  induction l as [|x l IH]; cbn; intros Hn Ho; [by apply not_elem_of_nil in Ho|]. apply list.NoDup_cons in Hn as [Hx Hn].
  apply elem_of_cons in Ho as [->|Ho]; [by rewrite bool_decide_eq_true_2|]. rewrite bool_decide_eq_false_2; [by apply IH|].
  intros E. apply Hx. rewrite <- E. by apply list_elem_of_fmap_2.
Qed.

Lemma rule_from_response v r rule : _permission_rule_from_response repr v (options r) = Some rule ->
  get v (lit "allowed") = VBool true /\ exists o, o ∈ options r /\ rule = opt_rule o.
Proof.
  unfold _permission_rule_from_response. destruct (get v (lit "rule")) as [| | | | | |d]; try done. unfold is_true.
  destruct (get v (lit "allowed")) as [|[]| | | | |]; try done. destruct (from_dict repr (VDict d)); [|done]. intros (o & Ho & ->)%fmap_Some.
  split; [done|]. exists o. split; [|done]. by apply List.find_some in Ho as [?%list_elem_of_In _].
Qed.

(** ** Consent *)

(** C21: when a session asks, no call is allowed without an answer: it is allowed
    by a rule that was saved, or by a response to this very request that says so in
    as many words and that was accepted while a client held the lease; the response
    is that of the holder, or of a caller that named no client, which the channel
    does not refuse (so it is that of the holder when every caller names itself); a
    timeout, a lease that is given up, a client that names itself and does not hold
    the lease, and a malformed answer deny it; and the only rule that can be saved
    on the way is one of those offered. *)
Theorem permission_needs_consent h c i q v f r later writable d f' notices :
  history h c -> c.(requests) !! i = Some (q, Returned v) -> q.(rdefault) = DENIED_BY_DEFAULT ->
  callback ASK f r (fun _ _ => v) later writable = Ok (d, f', notices) -> allowed d = true ->
  (exists rule, first_match casefold repr f r = Ok (Some rule) /\ f' = f) \/
  ((consent h i v \/ unnamed h i v) /\ (all_named h -> consent h i v) /\ get v (lit "allowed") = VBool true /\
   (f' = later \/ exists o, o ∈ options r /\ decided_rule d = Some (opt_rule o) /\ add_rule repr later (opt_rule o) = Ok f')).
Proof.
  intros Hh Hq Hd H Ha. cbn [permission_callback] in H. apply bind_Ok in H as ([matched n1] & Hm & H). destruct matched as [rule|].
  { left. exists rule. injection H as <- <- _. split; [|done]. unfold _matching_rule in Hm. destruct (first_match _ _ _ _) as [m|[]]; try done.
    by injection Hm as -> _. }
  right. apply bind_Ok in H as ([[d1 f1] n2] & H & E). injection E as <- <- _.
  assert (get v (lit "allowed") = VBool true /\
    (f1 = later \/ exists o, o ∈ options r /\ decided_rule d1 = Some (opt_rule o) /\ add_rule repr later (opt_rule o) = Ok f1)) as [Hv Hf].
  { unfold _decision_from_response in H. destruct (_permission_rule_from_response _ _ _) as [rule|] eqn:Er.
    - apply rule_from_response in Er as [Hv (o & Ho & ->)]. split; [done|].
      destruct (add_rule repr later (opt_rule o)) as [f2|[]] eqn:Ef; try done; try (injection H as _ <- _; by left).
      destruct writable; injection H as <- <- _; [right; by exists o|by left].
    - injection H as <- <- _. cbn in Ha. split; [|by left]. unfold is_true in Ha. by destruct (get v _) as [|[]| | | | |]. }
  destruct (control_answers_default h c i q v Hh Hq) as [->|Hc]; [rewrite Hd in Hv; by vm_compute in Hv|].
  split_and!; [exact Hc| |done..]. intros Hn. by apply named_consent.
Qed.

(** ** Always allow *)

(** "always allow" is asked once: when a client answers with one of the rules
    that were offered, the agent gets exactly that decision, the rule is saved, and
    from then on every request that the rule matches, the same one first of all, is
    allowed without a question. *)
Theorem always_allow_sticks f r o why later rules ask :
  first_match casefold repr f r = Ok None -> o ∈ options r -> load repr later = Ok rules ->
  (forall p d, ask p d = answer_permission {| allowed := true; because := why; decided_rule := Some (opt_rule o) |}) ->
  exists f', callback ASK f r ask later true = Ok ({| allowed := true; because := why; decided_rule := Some (opt_rule o) |}, f', []) /\
    forall r' ask' later' w, matches casefold repr (opt_rule o) r' = true ->
      exists id, callback ASK f' r' ask' later' w =
        Ok ({| allowed := true; because := lit "Allowed by saved rule " ++ id ++ lit "."; decided_rule := None |}, f', []).
Proof.
  intros Hf Ho Hl Hask. assert (exists f', add_rule repr later (opt_rule o) = Ok f') as [f' Hf'] by (unfold add_rule; rewrite Hl; by eexists).
  exists f'. split.
  - cbn [permission_callback]. unfold _matching_rule. rewrite Hf. cbn [mbind result_bind]. rewrite Hask. unfold answer_permission. cbn [allowed because decided_rule app].
    set (v := [_; _; _] : dict). unfold _decision_from_response. assert (_permission_rule_from_response repr v (options r) = Some (opt_rule o)) as ->.
    { unfold _permission_rule_from_response, v. change (get _ (lit "rule")) with (to_dict (opt_rule o)). change (get _ (lit "allowed")) with (VBool true).
      pose proof (from_to_dict repr (opt_rule o)) as E. unfold to_dict in E |- * at 1. cbn [is_true]. rewrite E.
      by rewrite (find_own (fun o => rule_key (opt_rule o)) _ o (options_distinct r) Ho). }
    rewrite Hf'. change (get v (lit "reason")) with (VStr why). rewrite text_back. done.
  - intros r' ask' later' w Hm. destruct (saved_rule_matches casefold repr later rules (opt_rule o) f' r' Hl Hf' Hm) as (rule & Hr).
    exists (rule_id rule). cbn [permission_callback]. unfold _matching_rule. by rewrite Hr.
Qed.
End Facts.

(** ** Examples *)

Definition always (o : PermissionRuleOption) : dict :=
  answer_permission {| allowed := true; because := []; decided_rule := Some (opt_rule o) |}.
Definition sample_options : list PermissionRuleOption := allow_rule_options no_repr no_fresh sample_request.
Definition sample_answer : dict := match sample_options with o :: _ => always o | [] => [] end.
Definition sample_ops : list op :=
  [Acquire (lit "a"); Ask (lit "q1") (lit "permission") (permission_payload sample_request sample_options) DENIED_BY_DEFAULT (lit "u1");
   Announced (lit "q1"); Respond (lit "q1") sample_answer (Some (lit "a")); Wake (lit "q1")].

Lemma permission_needs_consent_witness :
  match run_ops sample_ops new_channel, permission_callback id no_repr no_fresh ASK Absent sample_request (fun _ _ => sample_answer) Absent true with
  | Some (h, c), Ok (d, f', _) => allowed d = true /\ consent h (lit "q1") sample_answer /\ f' <> Absent
  | _, _ => False
  end.
Proof.
  destruct (run_ops sample_ops new_channel) as [[h c]|] eqn:E; [|vm_compute in E; discriminate E].
  destruct (permission_callback _ _ _ _ _ _ _ _ _) as [[[d f'] n]|] eqn:Ec; [|vm_compute in Ec; discriminate Ec].
  assert (exists q, c.(requests) !! lit "q1" = Some (q, Returned sample_answer) /\ q.(rdefault) = DENIED_BY_DEFAULT) as (q & Hq & Hd).
  { vm_compute in E. injection E as <- <-. eexists. split; by vm_compute. }
  assert (allowed d = true) as Ha by (vm_compute in Ec; by injection Ec as <- _ _).
  destruct (permission_needs_consent id no_repr no_fresh h c (lit "q1") q sample_answer Absent sample_request Absent true d f' n
    (run_ops_history _ [] _ _ _ history_start E) Hq Hd Ec Ha) as [(rule & Hr & _)|(_ & Hc & _ & _)]; [vm_compute in Hr; discriminate Hr|].
  assert (all_named h) as Hn.
  { apply named_check. clear -E. vm_compute in E. by injection E as <- <-. }
  split_and!; [exact Ha|exact (Hc Hn)|]. vm_compute in Ec. injection Ec as _ <- _. intros Hf. discriminate Hf.
Defined.

Lemma always_allow_sticks_witness :
  exists f' id1, permission_callback id no_repr no_fresh ASK f' sample_request (fun _ _ => []) Absent false =
    Ok ({| allowed := true; because := lit "Allowed by saved rule " ++ id1 ++ lit "."; decided_rule := None |}, f', []).
Proof.
  destruct sample_options as [|o os] eqn:E; [vm_compute in E; discriminate E|].
  destruct (always_allow_sticks id no_repr no_fresh Absent sample_request o [] Absent [] (fun _ _ => always o)) as (f' & _ & H);
    [by vm_compute|fold sample_options; rewrite E; by left|reflexivity|reflexivity|].
  exists f'. apply (H sample_request). vm_compute in E. injection E as <- _. by vm_compute.
Defined.

(** A file of rules that is JSON but not an object, or not UTF-8, is not among the
    errors that the callback is prepared for: it raises, where any other damage to
    the file falls through to asking. *)
Lemma odd_file_raises :
  permission_callback id no_repr no_fresh ASK NotText sample_request (fun _ _ => sample_answer) Absent true = Raise UnicodeDecodeError /\
  permission_callback id no_repr no_fresh ASK (Document (VList [])) sample_request (fun _ _ => sample_answer) Absent true = Raise AttributeError /\
  match permission_callback id no_repr no_fresh ASK BadJson sample_request (fun _ _ => sample_answer) Absent true with
  | Ok (d, _, notices) => allowed d = true /\ notices = [CouldNotLoad NotJson]
  | Raise _ => False
  end.
Proof. by vm_compute. Qed.
