(* ===== verification/MemoryStore.v ===== *)
(** * Project memory

    Models [kolega_code/memory/markdown.py]: the memory of a project as Markdown
    files in a private directory, with bounds on their size and number, the
    exact edit of one file and the part of the index that goes into the prompt.

    The directory is a tree; the entries of a directory are in the order in which
    [scandir] reports them, new ones last.  A call that may raise returns a
    [result]; one that changes the directory returns the new tree beside it, also
    when it fails.  [disk] says whether the file system carries a write or an
    unlink out; permissions are not modelled.  [casefold] stands for
    [str.casefold]. *)

From stdpp Require Import base list strings numbers sorting.
From Stdlib Require Import ZArith Lia.
From S2P Require Import Prelude PyStr Utf8 PyVal.

Definition MAX_FILES : Z := 100.
Definition MAX_FILE_BYTES : Z := 128 * 1024.
Definition MAX_TOTAL_BYTES : Z := 1024 * 1024.
Definition MAX_SCAN_ENTRIES : Z := 1000.
Definition MAX_SCAN_DIRECTORIES : Z := 100.
Definition MAX_DIRECTORY_DEPTH : Z := 32.
Definition PROMPT_MAX_LINES : Z := 200.
Definition PROMPT_MAX_BYTES : Z := 25 * 1024.
Definition INDEX_REFERENCE : str := lit "MEMORY.md".

(** ** Files *)

Inductive node :=
| File (data : bytes) (mtime : Z)
| Dir (entries : list (str * node))
| Link                              (* a symbolic link *)
| Special.                          (* neither file nor directory *)
Abbreviation entries_of := (list (str * node)).

(** The messages of [MemorySafetyError], and what is not one. *)
Inductive memory_error :=
| BadPath | BadSeparators | NotRelative | NotMarkdown | ReservedPath
| RootLink | RootNotDirectory | LinkBelowRoot | NotDirectory | NotRegular
| FileTooLarge | NotUtf8 | TooDeep | TooManyEntries | TooManyDirectories | TooManyFiles | TotalTooLarge
| NotPersisted | NotDeleted
| UnicodeEncodeError.

Definition set_child (d : entries_of) (name : str) (n : node) : entries_of :=
  if dict_has d name then map (fun e => if str_eqb e.1 name then (name, n) else e) d else d ++ [(name, n)].
Definition del_child (d : entries_of) (name : str) : entries_of := List.filter (fun e => negb (str_eqb e.1 name)) d.

(** ** References *)

(** The index of the last occurrence. *)
Fixpoint rfind (c : Z) (s : str) : option nat :=
  match s with
  | [] => None
  | x :: s' => match rfind c s' with Some i => Some (S i) | None => if x =? c then Some O else None end
  end.
(** [PurePath.suffix] of a name. *)
Definition suffix (name : str) : str :=
  match rfind 46 name with
  | Some i => if (0 <? i)%nat && (i <? length name - 1)%nat then drop i name else []
  | None => []
  end.
(** [PurePosixPath(s).parts] of a relative path. *)
Definition pure_parts (s : str) : list str :=
  List.filter (fun p => negb (str_eqb p [] || str_eqb p (lit "."))) (split_on 47 s).

Section Memory.
Variable casefold : str -> str.

Definition _reference (s : str) : result memory_error (list str) :=
  if negb (nonempty s) || member 0 s then Raise BadPath
  else if member 92 s then Raise BadSeparators
  else
    let parts := pure_parts s in
    if startswith (lit "/") s || existsb (str_eqb (lit "..")) parts then Raise NotRelative
    else
      let normalized := if nonempty parts then join (lit "/") parts else lit "." in
      if negb (str_eqb normalized s) || negb (str_eqb (casefold (suffix (List.last parts []))) (lit ".md")) then Raise NotMarkdown
      else if existsb (fun p => str_eqb (casefold p) (lit "manifest.json")) parts then Raise ReservedPath
      else Ok parts.

(** ** Reading *)

Abbreviation root := (option node).

(** The entries of the root, if it exists. *)
Definition _ensure_root (r : root) : result memory_error (option entries_of) :=
  match r with
  | None => Ok None
  | Some (Dir d) => Ok (Some d)
  | Some Link => Raise RootLink
  | Some _ => Raise RootNotDirectory
  end.

Definition _decode_utf8 (data : bytes) : result memory_error str :=
  match decode_strict data with Some s => Ok s | None => Raise NotUtf8 end.
Definition _encode_candidate (s : str) : result memory_error bytes :=
  if forallb scalar s then Ok (utf8 s) else Raise UnicodeEncodeError.

(** The directory [dirs] below [d]. *)
Fixpoint descend (d : entries_of) (dirs : list str) : result memory_error (option entries_of) :=
  match dirs with
  | [] => Ok (Some d)
  | p :: dirs' =>
      match dict_get d p with
      | None => Ok None
      | Some Link => Raise LinkBelowRoot
      | Some (Dir d') => descend d' dirs'
      | Some _ => Raise NotDirectory
      end
  end.
Definition _validate_file (data : bytes) : result memory_error bytes :=
  if MAX_FILE_BYTES <? len data then Raise FileTooLarge else _decode_utf8 data;; Ok data.
Definition read_target (d : entries_of) (name : str) : result memory_error (option bytes) :=
  match dict_get d name with
  | None => Ok None
  | Some (File data _) => Some <$> _validate_file data
  | Some _ => Raise NotRegular
  end.
Definition _read_path (r : root) (parts : list str) : result memory_error (option bytes) :=
  d ← _ensure_root r;
  match d with
  | None => Ok None
  | Some d =>
      d ← descend d (removelast parts);
      match d with None => Ok None | Some d => read_target d (List.last parts []) end
  end.

Record MemoryEntry := { reference : str; entry_content : option str; byte_count : Z; present : bool }.
Definition read_entry (r : root) (ref : str) : result memory_error MemoryEntry :=
  parts ← _reference ref;
  opened ← _read_path r parts;
  match opened with
  | None => Ok {| reference := ref; entry_content := None; byte_count := 0; present := false |}
  | Some data => t ← _decode_utf8 data; Ok {| reference := ref; entry_content := Some t; byte_count := len data; present := true |}
  end.

(** ** Scanning *)

Record scanned := { scan_ref : list str; scan_data : bytes; scan_mtime : Z }.
Record _ScanBudget := { b_entries : Z; b_directories : Z; b_total : Z; b_result : list scanned }.
Definition new_budget : _ScanBudget := {| b_entries := 0; b_directories := 1; b_total := 0; b_result := [] |}.

Definition is_markdown (name : str) : bool := endswith (lit ".md") (casefold name).
Definition _scan_file (data : bytes) (mtime : Z) (path : list str) (b : _ScanBudget) : result memory_error _ScanBudget :=
  if MAX_FILES <=? len b.(b_result) then Raise TooManyFiles
  else
    _validate_file data;;
    if MAX_TOTAL_BYTES <? b.(b_total) + len data then Raise TotalTooLarge
    else Ok {| b_entries := b.(b_entries); b_directories := b.(b_directories); b_total := b.(b_total) + len data;
               b_result := b.(b_result) ++ [{| scan_ref := path; scan_data := data; scan_mtime := mtime |}] |}.

Fixpoint _scan_directory (n : node) (prefix : list str) (b : _ScanBudget) : result memory_error _ScanBudget :=
  match n with
  | Dir es =>
      if MAX_DIRECTORY_DEPTH <? len prefix then Raise TooDeep
      else
        (fix go (es : list (str * node)) (b : _ScanBudget) : result memory_error _ScanBudget :=
           match es with
           | [] => Ok b
           | (name, e) :: es' =>
               let b := {| b_entries := b.(b_entries) + 1; b_directories := b.(b_directories); b_total := b.(b_total);
                           b_result := b.(b_result) |} in
               if MAX_SCAN_ENTRIES <? b.(b_entries) then Raise TooManyEntries
               else
                 b ← match e with
                     | Link => Raise LinkBelowRoot
                     | Dir _ =>
                         let b := {| b_entries := b.(b_entries); b_directories := b.(b_directories) + 1; b_total := b.(b_total);
                                     b_result := b.(b_result) |} in
                         if MAX_SCAN_DIRECTORIES <? b.(b_directories) then Raise TooManyDirectories
                         else _scan_directory e (prefix ++ [name]) b
                     | File data mtime => if is_markdown name then _scan_file data mtime (prefix ++ [name]) b else Ok b
                     | Special =>
                         if is_markdown name then
                           if MAX_FILES <=? len b.(b_result) then Raise TooManyFiles else Raise NotRegular
                         else Ok b
                     end;
                 go es' b
           end) es b
  | _ => Ok b
  end.
Definition _scan_markdown_files (r : root) : result memory_error (list scanned) :=
  d ← _ensure_root r;
  match d with
  | None => Ok []
  | Some d => b_result <$> _scan_directory (Dir d) [] new_budget
  end.

(** ** Writing *)

(** Creates the directories [dirs] below [d] that are missing. *)
Fixpoint make_dirs (d : entries_of) (dirs : list str) : entries_of * option memory_error :=
  match dirs with
  | [] => (d, None)
  | p :: dirs' =>
      match dict_get d p with
      | Some Link => (d, Some LinkBelowRoot)
      | Some (Dir d') => let '(d'', e) := make_dirs d' dirs' in (set_child d p (Dir d''), e)
      | Some _ => (d, Some NotDirectory)
      | None => let '(d'', e) := make_dirs [] dirs' in (set_child d p (Dir d''), e)
      end
  end.
Definition _ensure_parent (d : entries_of) (dirs : list str) : entries_of * option memory_error :=
  if MAX_DIRECTORY_DEPTH <? len dirs then (d, Some TooDeep) else make_dirs d dirs.

(** The tree with the entries of one directory changed. *)
Fixpoint at_dir (d : entries_of) (dirs : list str) (f : entries_of -> entries_of) : entries_of :=
  match dirs with
  | [] => f d
  | p :: dirs' => match dict_get d p with Some (Dir d') => set_child d p (Dir (at_dir d' dirs' f)) | _ => d end
  end.

Inductive refusal := EntryMissing | OldEmpty | OldNotFound | OldRepeated (n : Z) | FileLimit | CountLimit | TotalLimit.
Record MemoryWriteResult := { outcome : option refusal; result_ref : str; result_bytes : option Z; index_warning : bool }.
Definition refused (ref : str) (e : refusal) : MemoryWriteResult :=
  {| outcome := Some e; result_ref := ref; result_bytes := None; index_warning := false |}.
Definition written (w : MemoryWriteResult) : bool := match w.(outcome) with None => true | Some _ => false end.

(** The target, once its directory exists. *)
Definition safe_target (d : entries_of) (name : str) : bool :=
  match dict_get d name with None | Some (File _ _) => true | Some _ => false end.

Definition total_size (files : list scanned) : Z := foldr (fun f n => len f.(scan_data) + n) 0 files.

Definition _commit (disk : bool) (now : Z) (r : root) (parts : list str) (ref : str) (candidate : bytes)
    : root * result memory_error MemoryWriteResult :=
  match decode_strict candidate with
  | None => (r, Raise NotUtf8)
  | Some decoded =>
      if MAX_FILE_BYTES <? len candidate then (r, Ok (refused ref FileLimit))
      else match _scan_markdown_files r, _read_path r parts with
           | Raise e, _ => (r, Raise e)
           | Ok _, Raise e => (r, Raise e)
           | Ok files, Ok opened =>
               if match opened with None => MAX_FILES <=? len files | Some _ => false end then (r, Ok (refused ref CountLimit))
               else
                 let old_size := match opened with Some data => len data | None => 0 end in
                 if MAX_TOTAL_BYTES <? total_size files - old_size + len candidate then (r, Ok (refused ref TotalLimit))
                 else
                   let d := match r with Some (Dir d) => d | _ => [] end in
                   let dirs := removelast parts in
                   let name := List.last parts [] in
                   match _ensure_parent d dirs with
                   | (d', Some e) => (if nonempty d' then Some (Dir d') else r, Raise e)
                   | (d', None) =>
                       (* the root is created with its first directory, or with the file *)
                       if match descend d' dirs with Ok (Some p) => safe_target p name | _ => false end then
                         if disk then
                           (Some (Dir (at_dir d' dirs (fun p => set_child p name (File candidate now)))),
                            Ok {| outcome := None; result_ref := ref; result_bytes := Some (len candidate);
                                  index_warning := str_eqb ref INDEX_REFERENCE
                                    && ((PROMPT_MAX_LINES <? len (splitlines decoded)) || (PROMPT_MAX_BYTES <? len candidate)) |})
                         else (Some (Dir d'), Raise NotPersisted)
                       else (Some (Dir d'), Raise NotRegular)
                   end
           end
  end.

Definition write_entry (disk : bool) (now : Z) (r : root) (ref : str) (content : str) : root * result memory_error MemoryWriteResult :=
  match _encode_candidate content with
  | Raise e => (r, Raise e)
  | Ok candidate => match _reference ref with Raise e => (r, Raise e) | Ok parts => _commit disk now r parts ref candidate end
  end.

Definition delete_entry (disk : bool) (r : root) (ref : str) : root * result memory_error MemoryWriteResult :=
  match _reference ref with
  | Raise e => (r, Raise e)
  | Ok parts =>
      match _read_path r parts with
      | Raise e => (r, Raise e)
      | Ok None => (r, Ok (refused ref EntryMissing))
      | Ok (Some _) =>
          let d := match r with Some (Dir d) => d | _ => [] end in
          if disk then (Some (Dir (at_dir d (removelast parts) (fun p => del_child p (List.last parts [])))),
                        Ok {| outcome := None; result_ref := ref; result_bytes := Some 0; index_warning := false |})
          else (r, Raise NotDeleted)
      end
  end.

(** ** Editing *)

(** [s.find(p)]. *)
Fixpoint find_sub (p s : str) : option nat :=
  if startswith p s then Some O else match s with [] => None | _ :: s' => S <$> find_sub p s' end.
Fixpoint count_loop (fuel : nat) (old s : str) : Z :=
  match fuel with
  | O => 0
  | S fuel' => match find_sub old s with None => 0 | Some i => 1 + count_loop fuel' old (drop (S i) s) end
  end.
Definition _count_occurrences (content old : str) : Z := count_loop (S (length content)) old content.
(** [content.replace(old, new, 1)]. *)
Definition replace_once (content old new : str) : str :=
  match find_sub old content with Some i => take i content ++ new ++ drop (i + length old) content | None => content end.

Definition _edit_tool (disk : bool) (now : Z) (r : root) (old new ref : str) : root * result memory_error MemoryWriteResult :=
  match read_entry r ref with
  | Raise e => (r, Raise e)
  | Ok entry =>
      if negb (nonempty old) then (r, Ok (refused ref OldEmpty))
      else
        let content := default [] entry.(entry_content) in
        let occurrences := _count_occurrences content old in
        if occurrences =? 0 then (r, Ok (refused ref OldNotFound))
        else if 1 <? occurrences then (r, Ok (refused ref (OldRepeated occurrences)))
        else write_entry disk now r ref (replace_once content old new)
  end.

(** ** The prompt *)

(** The chunks, and whether the loop was left early. *)
Fixpoint bound_loop (lines : list str) (index used : Z) : list str * bool :=
  match lines with
  | [] => ([], false)
  | line :: lines' =>
      if PROMPT_MAX_LINES <=? index then ([], true)
      else
        let encoded := utf8 line in
        let remaining := PROMPT_MAX_BYTES - used in
        if remaining <? len encoded then
          let partial := decode_ignore (slice_to encoded remaining) in
          (if nonempty partial then [partial] else [], true)
        else let '(chunks, t) := bound_loop lines' (index + 1) (used + len encoded) in (line :: chunks, t)
  end.
Definition _bound_prompt (content : str) : str * Z * bool :=
  let source_lines := splitlines_keep content in
  let '(chunks, truncated) := bound_loop source_lines 0 0 in
  (concat chunks, len chunks, truncated || (len chunks <? len source_lines)).

Record MemoryPromptContext := { text : str; prompt_bytes : Z; prompt_lines : Z; prompt_truncated : bool; warnings : list str }.
(** Without the two texts of guidance, which are constants. *)
Definition prepare_prompt_context (r : root) : result memory_error MemoryPromptContext :=
  entry ← read_entry r INDEX_REFERENCE;
  if negb entry.(present) then
    Ok {| text := [NL] ++ lit "MEMORY.md is currently absent or empty."; prompt_bytes := 0; prompt_lines := 0; prompt_truncated := false;
          warnings := [] |}
  else
    let content := default [] entry.(entry_content) in
    let '(bounded, lines, truncated) := _bound_prompt content in
    let note := lit "Memory index truncated: showing the first " ++ dec lines ++ lit " of " ++ dec (len (splitlines content))
      ++ lit " lines (bounds: " ++ dec PROMPT_MAX_LINES ++ lit " lines / " ++ dec (PROMPT_MAX_BYTES / 1024)
      ++ lit " KiB). Restructure MEMORY.md into one-line topic links and move details into topic files." in
    Ok {| text := [NL] ++ lit "### MEMORY.md" ++ [NL] ++ bounded
                    ++ (if truncated then [NL; NL; 91] ++ note ++ [93] else []);
          prompt_bytes := len (utf8 bounded); prompt_lines := lines; prompt_truncated := truncated;
          warnings := if truncated then [note] else [] |}.

(** ** Listing *)

Record MemoryEntrySummary := { sum_ref : str; sum_bytes : Z; modified_ns : Z; display_name : str }.

Fixpoint contains (p s : str) : bool := startswith p s || match s with [] => false | _ :: s' => contains p s' end.
(** [str.lstrip("#")] and so on, of the first heading in the first five lines. *)
Definition heading (ref : str) (lines : list str) : str :=
  match List.find (fun l => startswith (lit "#") (lstrip l)) (take 5 lines) with
  | Some l => let t := slice_to (strip (lstrip_by (Z.eqb 35) (lstrip l))) 80 in if nonempty t then t else ref
  | None => ref
  end.
Definition summarise (f : scanned) : MemoryEntrySummary :=
  let ref := join (lit "/") f.(scan_ref) in
  {| sum_ref := ref; sum_bytes := len f.(scan_data); modified_ns := f.(scan_mtime);
     display_name := heading ref (splitlines (decode_ignore f.(scan_data))) |}.
Definition selected (query : option str) (f : scanned) : bool :=
  match query with
  | Some (_ :: _ as q) =>
      let q := casefold q in
      negb (nonempty q) || contains q (casefold (join (lit "/") f.(scan_ref))) || contains q (casefold (decode_ignore f.(scan_data)))
  | _ => true
  end.
Definition summary_leb (a b : MemoryEntrySummary) : bool :=
  let index s := str_eqb s.(sum_ref) INDEX_REFERENCE in
  if index a then true else if index b then false else str_leb (casefold a.(sum_ref)) (casefold b.(sum_ref)).
Definition list_entries (r : root) (query : option str) : result memory_error (list MemoryEntrySummary) :=
  files ← _scan_markdown_files r;
  Ok (sort_by summary_leb (map summarise (List.filter (selected query) files))).
End Memory.
