(* ===== verification/MemoryFacts.v ===== *)
(** * Reading back the memory of a project

    References stay below the root and name one file each; what a write changes is
    what it was asked to write. *)

From stdpp Require Import base list strings numbers sorting.
From Stdlib Require Import ZArith Lia.
From S2P Require Import Prelude PyStr Utf8 PyVal MemoryStore.

(** ** Directories *)

Lemma get_set d n x m : dict_get (set_child d n x) m = if str_eqb m n then Some x else dict_get d m.
Proof.
  unfold set_child. destruct (dict_has d n) eqn:E.
  - unfold dict_has in E. destruct (str_eqb m n) eqn:Em.
    + apply str_eqb_eq in Em as ->. induction d as [|[k v] d IH]; [done|]. cbn in E |- *. destruct (str_eqb k n) eqn:Ek; cbn.
      * by rewrite str_eqb_refl.
      * rewrite Ek. by apply IH.
    + clear E. induction d as [|[k v] d IH]; [done|]. cbn. destruct (str_eqb k n) eqn:Ek; cbn; [|by rewrite IH].
      apply str_eqb_eq in Ek as ->. destruct (str_eqb n m) eqn:En; [|done]. apply str_eqb_eq in En as ->. by rewrite str_eqb_refl in Em.
  - unfold dict_has in E. induction d as [|[k v] d IH]; cbn in *.
    + destruct (str_eqb m n) eqn:Em; [apply str_eqb_eq in Em as ->; by rewrite str_eqb_refl|].
      destruct (str_eqb n m) eqn:En; [apply str_eqb_eq in En as ->; by rewrite str_eqb_refl in Em|done].
    + destruct (str_eqb k n) eqn:Ek; [done|]. rewrite IH by done. destruct (str_eqb k m) eqn:Ekm; [|done].
      apply str_eqb_eq in Ekm as ->. by rewrite Ek.
Qed.
Lemma set_set d n x y : set_child (set_child d n x) n y = set_child d n y.
Proof.
  assert (forall d, map (fun e => if str_eqb e.1 n then (n, y) else e) (map (fun e : str * node => if str_eqb e.1 n then (n, x) else e) d) =
    map (fun e => if str_eqb e.1 n then (n, y) else e) d) as Hm.
  { clear d. intros d. rewrite map_map. apply map_ext. intros [k v]. cbn. destruct (str_eqb k n) eqn:E; cbn; [by rewrite str_eqb_refl|by rewrite E]. }
  assert (dict_has (set_child d n x) n = true) as E by (unfold dict_has; by rewrite get_set, str_eqb_refl).
  unfold set_child at 1. rewrite E. unfold set_child. destruct (dict_has d n) eqn:Ed; [by rewrite Hm|].
  rewrite map_app. cbn. rewrite str_eqb_refl. f_equal. unfold dict_has in Ed. clear E. induction d as [|[k v] d IH]; [done|]. cbn in Ed |- *.
  destruct (str_eqb k n); [done|]. f_equal. by apply IH.
Qed.
Lemma get_del d n m : dict_get (del_child d n) m = if str_eqb m n then None else dict_get d m.
Proof.
  unfold del_child. induction d as [|[k v] d IH]; cbn; [by destruct (str_eqb m n)|].
  destruct (str_eqb k n) eqn:Ek; cbn.
  - apply str_eqb_eq in Ek as ->. rewrite IH. destruct (str_eqb m n) eqn:Em; [done|]. destruct (str_eqb n m) eqn:En; [|done].
    apply str_eqb_eq in En as ->. by rewrite str_eqb_refl in Em.
  - rewrite IH. destruct (str_eqb m n) eqn:Em; [apply str_eqb_eq in Em as ->; by rewrite Ek|done].
Qed.

(** What is put at the end of a path, with the directories on the way. *)
Fixpoint put (d : entries_of) (dirs : list str) (f : entries_of -> entries_of) : entries_of :=
  match dirs with
  | [] => f d
  | p :: dirs' => set_child d p (Dir (put (match dict_get d p with Some (Dir d') => d' | _ => [] end) dirs' f))
  end.

Lemma make_put dirs f : forall d d', make_dirs d dirs = (d', None) -> at_dir d' dirs f = put d dirs f.
Proof.
  induction dirs as [|p dirs IH]; intros d d' H; cbn in H |- *; [by injection H as <-|].
  destruct (dict_get d p) as [[]|] eqn:E; try done.
  - destruct (make_dirs entries dirs) as [d2 e] eqn:E2. injection H as <- ->. rewrite get_set, str_eqb_refl, set_set. do 2 f_equal. by apply IH.
  - destruct (make_dirs [] dirs) as [d2 e] eqn:E2. injection H as <- ->. rewrite get_set, str_eqb_refl, set_set. do 2 f_equal. by apply IH.
Qed.
(** The directory at the end of a path, empty when it is missing. *)
Fixpoint dir_at (d : entries_of) (dirs : list str) : entries_of :=
  match dirs with [] => d | p :: dirs' => dir_at (match dict_get d p with Some (Dir d') => d' | _ => [] end) dirs' end.
Lemma make_descend dirs : forall d d', make_dirs d dirs = (d', None) -> descend d' dirs = Ok (Some (dir_at d dirs)).
Proof.
  induction dirs as [|p dirs IH]; intros d d' H; cbn in H |- *; [by injection H as <-|].
  destruct (dict_get d p) as [[]|] eqn:E; try done.
  - destruct (make_dirs entries dirs) as [d2 e] eqn:E2. injection H as <- ->. rewrite get_set, str_eqb_refl. by apply IH.
  - destruct (make_dirs [] dirs) as [d2 e] eqn:E2. injection H as <- ->. rewrite get_set, str_eqb_refl. by apply IH.
Qed.
(** The path can be walked: everything on it is a directory or missing. *)
Lemma descend_make dirs : forall d x, descend d dirs = Ok x -> exists d', make_dirs d dirs = (d', None) /\
  dir_at d dirs = default [] x.
Proof.
  assert (forall dirs, (exists d', make_dirs [] dirs = (d', None)) /\ dir_at [] dirs = []) as Hnil.
  { clear. induction dirs as [|p dirs [[d' IH] IH2]]; [by split; [eexists|]|]. cbn. rewrite IH. split; [by eexists|done]. }
  induction dirs as [|p dirs IH]; intros d x H; cbn in H |- *; [injection H as <-; by eexists|].
  destruct (dict_get d p) as [[]|] eqn:E; try done.
  - apply IH in H as (d' & -> & H). by eexists.
  - injection H as <-. destruct (Hnil dirs) as [[d' ->] ->]. by eexists.
Qed.
Lemma at_dir_put dirs f : forall d x, descend d dirs = Ok (Some x) -> at_dir d dirs f = put d dirs f.
Proof.
  induction dirs as [|p dirs IH]; intros d x H; cbn in H |- *; [done|]. destruct (dict_get d p) as [[]|]; try done. do 2 f_equal. by eapply IH.
Qed.

(** ** Reading what is there *)

Definition read_at (d : entries_of) (dirs : list str) (name : str) : result memory_error (option bytes) :=
  d ← descend d dirs; match d with None => Ok None | Some d => read_target d name end.

(** One path does not lead through the other. *)
Definition apart (p q : list str) : Prop := ~ p `prefix_of` q /\ ~ q `prefix_of` p.
Lemma apart_cons x p q : apart (x :: p) (x :: q) -> apart p q.
Proof. intros [H1 H2]. split; intros H; [apply H1|apply H2]; by apply prefix_cons. Qed.

Lemma read_put_other dirs name f : (forall d m, m <> name -> dict_get (f d) m = dict_get d m) -> forall d dirs' name',
  apart (dirs ++ [name]) (dirs' ++ [name']) -> (exists x, descend d dirs = Ok x) -> read_at (put d dirs f) dirs' name' = read_at d dirs' name'.
Proof.
  intros Hf. induction dirs as [|p dirs IH]; intros d dirs' name' Ha [x Hx]; cbn [put].
  - destruct dirs' as [|p' dirs']; unfold read_at; cbn.
    + unfold read_target. rewrite Hf; [done|]. intros ->. by destruct Ha.
    + rewrite Hf; [done|]. intros ->. destruct Ha as [Ha _]. apply Ha. by exists (dirs' ++ [name']).
  - cbn in Hx. destruct dirs' as [|p' dirs']; unfold read_at; cbn.
    + unfold read_target. rewrite get_set. destruct (str_eqb name' p) eqn:E; [|done]. apply str_eqb_eq in E as ->.
      destruct Ha as [_ Ha]. destruct Ha. by exists (dirs ++ [name]).
    + rewrite get_set. destruct (str_eqb p' p) eqn:E; [|done]. apply str_eqb_eq in E as ->. cbn [app] in Ha. apply apart_cons in Ha.
      destruct (dict_get d p) as [[]|] eqn:Ed; try done.
      * apply (IH _ _ _ Ha). by exists x.
      * assert (exists y, descend [] dirs = Ok y) as Hy by (destruct dirs; by eexists).
        pose proof (IH [] dirs' name' Ha Hy) as IH'. unfold read_at in IH'. rewrite IH'. by destruct dirs'.
Qed.
Lemma read_put_same dirs name f data : (forall d, read_target (f d) name = data) -> forall d,
  read_at (put d dirs f) dirs name = data.
Proof.
  intros Hf. unfold read_at. induction dirs as [|p dirs IH]; intros d; cbn; [apply Hf|]. rewrite get_set, str_eqb_refl. apply IH.
Qed.

(** ** References *)

Section Facts.
Variable casefold : str -> str.
(** Folding works character by character. *)
Hypothesis casefold_app : forall a b, casefold (a ++ b) = casefold a ++ casefold b.
Lemma casefold_nil : casefold [] = [].
Proof. pose proof (f_equal length (casefold_app [] [])) as H. rewrite length_app in H. cbn in H. destruct (casefold []); [done|cbn in H; lia]. Qed.

Abbreviation reference_of := (_reference casefold).
Abbreviation scan := (_scan_markdown_files casefold).
Abbreviation write := (write_entry casefold).
Abbreviation read := (read_entry casefold).

(** A reference stays below the root: its parts are plain names. *)
Definition component (p : str) : Prop := p <> [] /\ p <> lit "." /\ p <> lit ".." /\ member 47 p = false.

Lemma reference_parts s ps : reference_of s = Ok ps ->
  ps <> [] /\ join (lit "/") ps = s /\ Forall component ps /\ casefold (suffix (List.last ps [])) = lit ".md".
Proof.
  unfold _reference. destruct (negb (nonempty s) || member 0 s) eqn:E0; [done|]. destruct (member 92 s); [done|].
  destruct (startswith (lit "/") s || existsb (str_eqb (lit "..")) (pure_parts s)) eqn:E1; [done|].
  destruct (_ || negb (str_eqb (casefold _) _)) eqn:E2; [done|]. destruct (existsb (fun p => str_eqb (casefold p) (lit "manifest.json")) (pure_parts s)); [done|]. intros [= <-].
  apply orb_false_iff in E0 as [E0 _], E1 as [_ E1], E2 as [E2%negb_false_iff%str_eqb_eq Es%negb_false_iff%str_eqb_eq].
  assert (pure_parts s <> []) as Hne.
  { intros E. rewrite E in Es. cbn [List.last] in Es. change (suffix []) with ([] : str) in Es. by rewrite casefold_nil in Es. }
  split; [done|]. split; [destruct (pure_parts s); [done|exact E2]|]. split; [|done].
  apply list.Forall_forall. intros p Hp. assert (p <> lit "..") as Hdd.
  { intros ->. apply not_true_iff_false in E1. apply E1. apply existsb_exists. exists (lit ".."). split; [by apply list_elem_of_In|apply str_eqb_refl]. }
  unfold pure_parts in Hp. apply list_elem_of_In, filter_In in Hp as [Hp Hf]. apply negb_true_iff, orb_false_iff in Hf as [H1 H2].
  split_and!; [intros ->; by rewrite str_eqb_refl in H1|intros ->; by rewrite str_eqb_refl in H2|done|].
  pose proof (split_on_pieces 47 s) as Hs. rewrite list.Forall_forall in Hs. by apply Hs, list_elem_of_In.
Qed.
Lemma reference_injective s s' ps : reference_of s = Ok ps -> reference_of s' = Ok ps -> s = s'.
Proof. intros (_ & <- & _)%reference_parts (_ & <- & _)%reference_parts. done. Qed.

Lemma parts_split (ps : list str) : ps <> [] -> ps = removelast ps ++ [List.last ps []].
Proof. intros H. by apply app_removelast_last. Qed.

(** ** Writing *)

Definition entries (r : option node) : entries_of := match r with Some (Dir d) => d | _ => [] end.
Definition filed (data : bytes) (now : Z) (name : str) : entries_of -> entries_of := fun d => set_child d name (File data now).

Lemma read_path_at r parts x : _read_path r parts = Ok x ->
  (r = None \/ exists d, r = Some (Dir d)) /\ read_at (entries r) (removelast parts) (List.last parts []) = Ok x /\
  exists y, descend (entries r) (removelast parts) = Ok y.
Proof.
  unfold _read_path, _ensure_root. destruct r as [[]|]; try done; cbn.
  - intros H. split; [right; by eexists|]. split; [exact H|]. destruct (descend _ _); [by eexists|done].
  - intros [= <-]. split; [by left|]. split; [unfold read_at; by destruct (removelast parts)|destruct (removelast parts); by eexists].
Qed.

(** What became of a commit. *)
Inductive committed (now : Z) (r : option node) (parts : list str) (candidate : bytes) : option node -> result memory_error MemoryWriteResult -> Prop :=
| committed_not x : match x with Ok w => written w = false | Raise _ => True end -> committed now r parts candidate r x
| committed_dirs e : len (removelast parts) <= MAX_DIRECTORY_DEPTH -> (r = None \/ exists d, r = Some (Dir d)) ->
    (exists y, descend (entries r) (removelast parts) = Ok y) ->
    committed now r parts candidate (Some (Dir (put (entries r) (removelast parts) (fun d => d)))) (Raise e)
| committed_file w files opened : len (removelast parts) <= MAX_DIRECTORY_DEPTH -> (r = None \/ exists d, r = Some (Dir d)) ->
    len candidate <= MAX_FILE_BYTES -> (exists t, decode_strict candidate = Some t) ->
    scan r = Ok files -> read_at (entries r) (removelast parts) (List.last parts []) = Ok opened ->
    (exists y, descend (entries r) (removelast parts) = Ok y) ->
    (opened = None -> len files < MAX_FILES) ->
    total_size files - match opened with Some data => len data | None => 0 end + len candidate <= MAX_TOTAL_BYTES ->
    w.(outcome) = None -> w.(result_bytes) = Some (len candidate) ->
    committed now r parts candidate (Some (Dir (put (entries r) (removelast parts) (filed candidate now (List.last parts []))))) (Ok w).

Lemma make_dirs_put dirs : forall d d', make_dirs d dirs = (d', None) -> d' = put d dirs (fun d => d).
Proof.
  induction dirs as [|p dirs IH]; intros d d' H; cbn in H |- *; [by injection H|].
  destruct (dict_get d p) as [[]|] eqn:E; try done.
  - destruct (make_dirs entries0 dirs) as [d2 e] eqn:E2. injection H as <- ->. do 2 f_equal. by apply IH.
  - destruct (make_dirs [] dirs) as [d2 e] eqn:E2. injection H as <- ->. do 2 f_equal. by apply IH.
Qed.

Lemma commit_cases disk now r parts ref candidate r' x :
  _commit casefold disk now r parts ref candidate = (r', x) -> committed now r parts candidate r' x.
Proof.
  unfold _commit. destruct (decode_strict candidate) as [t|] eqn:Ed; [|intros [= <- <-]; by constructor].
  destruct (Z.ltb_spec MAX_FILE_BYTES (len candidate)) as [|Hl]; [intros [= <- <-]; by constructor|].
  destruct (scan r) as [files|] eqn:Es; [|intros [= <- <-]; by constructor].
  destruct (_read_path r parts) as [opened|] eqn:Er; [|intros [= <- <-]; by constructor].
  destruct (match opened with Some _ => false | None => MAX_FILES <=? len files end) eqn:Ec; [intros [= <- <-]; by constructor|].
  cbn zeta. destruct (Z.ltb_spec MAX_TOTAL_BYTES (total_size files - match opened with Some data => len data | None => 0 end + len candidate)) as [|Ht];
    [intros [= <- <-]; by constructor|].
  apply read_path_at in Er as (Hr & Hat & y & Hy). fold (entries r). unfold _ensure_parent.
  destruct (Z.ltb_spec MAX_DIRECTORY_DEPTH (len (removelast parts))) as [|Hdep].
  { destruct Hr as [-> |[d ->]]; cbn; [|destruct d]; intros [= <- <-]; by constructor. }
  destruct (descend_make _ _ _ Hy) as (d' & Hd' & _). rewrite Hd', (make_descend _ _ _ Hd').
  destruct (safe_target _ _).
  - destruct disk.
    + intros [= <- <-]. rewrite (make_put _ _ _ _ Hd'). eapply committed_file; try done; [by eexists|by eexists|].
      intros ->. apply Z.leb_gt in Ec. lia.
    + intros [= <- <-]. rewrite (make_dirs_put _ _ _ Hd'). apply committed_dirs; try done. by eexists.
  - intros [= <- <-]. rewrite (make_dirs_put _ _ _ Hd'). apply committed_dirs; try done. by eexists.
Qed.

Lemma read_entry_at r ref ps : reference_of ref = Ok ps -> (r = None \/ exists d, r = Some (Dir d)) ->
  read r ref = (opened ← read_at (entries r) (removelast ps) (List.last ps []);
    match opened with
    | None => Ok {| reference := ref; entry_content := None; byte_count := 0; present := false |}
    | Some data => t ← _decode_utf8 data; Ok {| reference := ref; entry_content := Some t; byte_count := len data; present := true |}
    end).
Proof.
  intros H Hr. unfold read_entry. rewrite H. cbn [mbind result_bind]. unfold _read_path, _ensure_root.
  destruct Hr as [-> |[d ->]]; cbn; [|done]. unfold read_at. by destruct (removelast ps).
Qed.

(** what was written is read back, and nothing else changes: after a write that
    says it succeeded, the reference reads as exactly the new content, and every
    reference that neither names a directory above it nor lies below it reads as
    before; a write that is refused leaves the memory as it was. *)
Theorem memory_write_read disk now r ref content r' w :
  write disk now r ref content = (r', Ok w) ->
  if written w then
    read r' ref = Ok {| reference := ref; entry_content := Some content; byte_count := len (utf8 content); present := true |} /\
    forall ref', (forall p q, reference_of ref = Ok p -> reference_of ref' = Ok q -> apart p q) -> read r' ref' = read r ref'
  else r' = r.
Proof.
  unfold write_entry, _encode_candidate. destruct (forallb scalar content) eqn:Hs; [|done]. destruct (reference_of ref) as [ps|] eqn:Hp; [|done].
  intros H. apply commit_cases in H. assert (scalars content) as Hsc by (apply list.Forall_forall; by intros c Hc; eapply forallb_forall in Hs; [|by apply list_elem_of_In]).
  destruct (reference_parts _ _ Hp) as (Hne & _). inversion H as [x Hx| |w' files opened Hdep Hr Hl Ht Hscan Hat Hdes Hc Htot Hw Hwb]; subst.
  { by rewrite Hx. }
  unfold written. rewrite Hw. split.
  - rewrite (read_entry_at _ _ ps Hp) by (right; by eexists). cbn [entries].
    rewrite (read_put_same _ _ _ (Ok (Some (utf8 content)))).
    + cbn [mbind result_bind]. unfold _decode_utf8. by rewrite (decode_strict_encode content Hsc).
    + intros d. unfold read_target, filed. rewrite get_set, str_eqb_refl. unfold _validate_file, _decode_utf8.
      destruct (Z.ltb_spec MAX_FILE_BYTES (len (utf8 content))); [lia|]. by rewrite (decode_strict_encode content Hsc).
  - intros ref' Ha. destruct (reference_of ref') as [qs|] eqn:Hq; [|unfold read_entry; by rewrite Hq].
    rewrite !(read_entry_at _ ref' qs Hq) by (done || (right; by eexists)). cbn [entries].
    rewrite (read_put_other (removelast ps) (List.last ps [])); [done| | |done].
    + intros d m Hm. unfold filed. rewrite get_set. destruct (str_eqb m _) eqn:E; [by apply str_eqb_eq in E|done].
    + destruct (reference_parts _ _ Hq) as (Hqne & _). rewrite <- !parts_split by done. by apply Ha.
Qed.
End Facts.

(** ** Examples *)

Lemma id_app (a b : str) : id (a ++ b) = id a ++ id b.
Proof. done. Qed.
Definition build_notes : str := lit "topics/build.md".

Lemma memory_write_read_witness :
  let '(r, x) := write_entry id true 7 None build_notes (lit "# Build") in
  read_entry id r build_notes = Ok {| reference := build_notes; entry_content := Some (lit "# Build"); byte_count := 7; present := true |} /\
  read_entry id r INDEX_REFERENCE = read_entry id None INDEX_REFERENCE.
Proof.
  destruct (write_entry id true 7 None build_notes (lit "# Build")) as [r [w|e]] eqn:E; [|vm_compute in E; discriminate E].
  pose proof (memory_write_read id id_app true 7 None build_notes (lit "# Build") r w E) as H.
  assert (written w = true) as Hw by (vm_compute in E; by injection E as _ <-). rewrite Hw in H. destruct H as [H1 H2]. split; [exact H1|].
  apply H2. intros p q Hp Hq. vm_compute in Hp, Hq. injection Hp as <-. injection Hq as <-.
  split; intros [k Hk]; discriminate Hk.
Defined.
