(* ===== verification/MemoryBounds.v ===== *)
(** * The bounds of the memory of a project

    What the trees that writes, edits and deletions leave have in common, and what a
    scan finds in them. *)

From stdpp Require Import base list strings numbers sorting.
From Stdlib Require Import ZArith Lia.
From S2P Require Import Prelude PyStr Utf8 PyVal MemoryStore MemoryFacts.

(** ** Trees within bounds *)

Fixpoint files_of (n : node) (prefix : list str) : list scanned :=
  match n with
  | Dir es =>
      (fix go (es : list (str * node)) : list scanned :=
         match es with
         | [] => []
         | (name, e) :: es' =>
             match e with
             | File data t => [{| scan_ref := prefix ++ [name]; scan_data := data; scan_mtime := t |}]
             | _ => files_of e (prefix ++ [name])
             end ++ go es'
         end) es
  | _ => []
  end.
Definition file_at (prefix : list str) (e : str * node) : list scanned :=
  match e.2 with
  | File data t => [{| scan_ref := prefix ++ [e.1]; scan_data := data; scan_mtime := t |}]
  | n => files_of n (prefix ++ [e.1])
  end.
Lemma files_of_Dir es prefix : files_of (Dir es) prefix = concat (map (file_at prefix) es).
Proof. cbn [files_of]. induction es as [|[name e] es IH]; [done|]. cbn [map concat]. rewrite <- IH. unfold file_at. cbn [fst snd]. by destruct e. Qed.

Section Bounds.
Variable casefold : str -> str.
Hypothesis casefold_app : forall a b, casefold (a ++ b) = casefold a ++ casefold b.
Abbreviation scan := (_scan_markdown_files casefold).
Abbreviation scan_directory := (_scan_directory casefold).

(** A file that can be read. *)
Definition sound (data : bytes) : Prop := len data <= MAX_FILE_BYTES /\ exists t, decode_strict data = Some t.
(** Files that can be read, in directories with distinct names, and nothing else. *)
Inductive tidy : Z -> entries_of -> Prop :=
| tidy_dir depth es : depth <= MAX_DIRECTORY_DEPTH -> NoDup (map fst es) ->
    (forall name data t, (name, File data t) ∈ es -> is_markdown casefold name = true /\ sound data) ->
    (forall name es', (name, Dir es') ∈ es -> tidy (depth + 1) es') ->
    (forall name e, (name, e) ∈ es -> e <> Link /\ e <> Special) ->
    tidy depth es.

Definition counted (b : _ScanBudget) : _ScanBudget :=
  {| b_entries := b.(b_entries) + 1; b_directories := b.(b_directories); b_total := b.(b_total); b_result := b.(b_result) |}.
Definition counted_dir (b : _ScanBudget) : _ScanBudget :=
  {| b_entries := b.(b_entries); b_directories := b.(b_directories) + 1; b_total := b.(b_total); b_result := b.(b_result) |}.
Definition scan_child (prefix : list str) (b : _ScanBudget) (x : str * node) : result memory_error _ScanBudget :=
  if MAX_SCAN_ENTRIES <? (counted b).(b_entries) then Raise TooManyEntries
  else match x.2 with
       | Link => Raise LinkBelowRoot
       | Dir _ => if MAX_SCAN_DIRECTORIES <? (counted_dir (counted b)).(b_directories) then Raise TooManyDirectories
                  else scan_directory x.2 (prefix ++ [x.1]) (counted_dir (counted b))
       | File data t => if is_markdown casefold x.1 then _scan_file data t (prefix ++ [x.1]) (counted b) else Ok (counted b)
       | Special => if is_markdown casefold x.1 then
                      if MAX_FILES <=? len (counted b).(b_result) then Raise TooManyFiles else Raise NotRegular
                    else Ok (counted b)
       end.
Lemma scan_Dir es prefix b : scan_directory (Dir es) prefix b =
  if MAX_DIRECTORY_DEPTH <? len prefix then Raise TooDeep else foldM (scan_child prefix) es b.
Proof.
  cbn [_scan_directory]. destruct (_ <? _); [done|]. revert b. induction es as [|[name e] es IH]; intros b; [done|].
  cbn [foldM]. unfold scan_child at 1. cbn [fst snd]. fold (counted b). destruct (_ <? _); [done|].
  destruct e as [data t|es'| |]; cbn [mbind result_bind].
  - destruct (is_markdown casefold name); [|apply IH]. destruct (_scan_file data t _ _); [apply IH|done].
  - fold (counted_dir (counted b)). destruct (_ <? _); [done|]. destruct (scan_directory (Dir es') _ _); [apply IH|done].
  - done.
  - destruct (is_markdown casefold name); [by destruct (_ <=? _)|apply IH].
Qed.

(** The two bounds that a write does not check. *)
Definition crowded (e : memory_error) : Prop := e = TooManyEntries \/ e = TooManyDirectories.
Definition collects (files : list scanned) (b b' : _ScanBudget) : Prop :=
  b'.(b_result) = b.(b_result) ++ files /\ b'.(b_total) = b.(b_total) + total_size files.
Lemma total_size_cons x l : total_size (x :: l) = len x.(scan_data) + total_size l.
Proof. done. Qed.
Lemma total_size_app l l' : total_size (l ++ l') = total_size l + total_size l'.
Proof. induction l as [|x l IH]; [done|]. cbn [app]. rewrite !total_size_cons, IH. lia. Qed.
Lemma total_size_nonneg l : 0 <= total_size l.
Proof. induction l as [|x l IH]; [done|]. rewrite total_size_cons. pose proof (len_nonneg (scan_data x)). lia. Qed.

Definition fits (b : _ScanBudget) (files : list scanned) : Prop :=
  len b.(b_result) + len files <= MAX_FILES /\ b.(b_total) + total_size files <= MAX_TOTAL_BYTES.
Definition collected (files : list scanned) (b : _ScanBudget) (x : result memory_error _ScanBudget) : Prop :=
  match x with Ok b' => collects files b b' | Raise e => crowded e end.

Lemma scan_all prefix es : (forall x, x ∈ es -> forall b, fits b (file_at prefix x) -> collected (file_at prefix x) b (scan_child prefix b x)) ->
  forall b, fits b (concat (map (file_at prefix) es)) -> collected (concat (map (file_at prefix) es)) b (foldM (scan_child prefix) es b).
Proof.
  induction es as [|x es IH]; intros Hx b Hf; cbn [foldM map concat].
  - split; [by rewrite app_nil_r|cbn; lia].
  - cbn [map concat] in Hf. destruct Hf as [Hf1 Hf2]. rewrite len_app, total_size_app in *.
    pose proof (len_nonneg (concat (map (file_at prefix) es))). pose proof (total_size_nonneg (concat (map (file_at prefix) es))).
    assert (fits b (file_at prefix x)) as F by (split; rewrite ?len_app, ?total_size_app in *; lia). pose proof (Hx x ltac:(by left) b F) as C.
    destruct (scan_child prefix b x) as [b1|e]; [|done]. destruct C as [C1 C2].
    assert (fits b1 (concat (map (file_at prefix) es))) as F1 by (split; rewrite ?C1, ?C2, ?len_app; lia).
    pose proof (IH ltac:(intros y Hy; apply Hx; by right) b1 F1) as C. destruct (foldM _ es b1) as [b2|e]; [|done].
    destruct C as [D1 D2]. split; [by rewrite D1, C1, app_assoc|rewrite total_size_app; lia].
Qed.

Lemma scan_tidy depth es : tidy depth es -> forall prefix b, len prefix = depth -> fits b (files_of (Dir es) prefix) ->
  collected (files_of (Dir es) prefix) b (scan_directory (Dir es) prefix b).
Proof.
  induction 1 as [depth es Hd Hn Hfile Hdir IH Hother]. intros prefix b Hp Hf. rewrite scan_Dir, files_of_Dir in *.
  destruct (Z.ltb_spec MAX_DIRECTORY_DEPTH (len prefix)); [lia|]. apply scan_all; [|done]. clear b Hf.
  intros [name e] Hx b Hf. unfold scan_child. cbn [fst snd]. destruct (Z.ltb_spec MAX_SCAN_ENTRIES (counted b).(b_entries)); [by left|].
  destruct e as [data t|es'| |]; unfold file_at in *; cbn [fst snd] in *.
  - destruct (Hfile name data t Hx) as [-> [Hl [s Hs]]]. destruct Hf as [H1 H2]. unfold _scan_file. cbn [counted b_result b_total].
    change (len [_]) with 1 in H1. destruct (Z.leb_spec MAX_FILES (len (b_result b))); [lia|]. unfold _validate_file, _decode_utf8.
    destruct (Z.ltb_spec MAX_FILE_BYTES (len data)); [lia|]. rewrite Hs. cbn [mbind result_bind].
    cbn in H2. destruct (Z.ltb_spec MAX_TOTAL_BYTES (b_total b + len data)); [lia|]. split; [done|cbn; lia].
  - destruct (_ <? _); [by right|]. apply (IH name es' Hx (prefix ++ [name]) (counted_dir (counted b))); [|done].
    rewrite len_app. change (len [name]) with 1. lia.
  - by destruct (Hother name Link Hx).
  - by destruct (Hother name Special Hx).
Qed.
End Bounds.

(** ** Changing a tree *)

Lemma set_child_cases d n x : NoDup (map fst d) ->
  (exists d1 y d2, d = d1 ++ (n, y) :: d2 /\ set_child d n x = d1 ++ (n, x) :: d2 /\ dict_get d n = Some y) \/
  (dict_get d n = None /\ set_child d n x = d ++ [(n, x)]).
Proof.
  intros Hd. unfold set_child, dict_has. destruct (dict_get d n) as [y|] eqn:E; [left|by right].
  apply dict_get_elem in E as Hi. apply list_elem_of_split in Hi as (d1 & d2 & ->). exists d1, y, d2. split_and!; [done| |done].
  rewrite map_app in Hd. cbn in Hd. apply list.NoDup_app in Hd as (_ & H1 & H2). apply list.NoDup_cons in H2 as [H2 _].
  assert (forall l : entries_of, n ∉ map fst l -> map (fun e => if str_eqb e.1 n then (n, x) else e) l = l) as Hid.
  { intros l Hl. induction l as [|[k v] l IH]; [done|]. cbn in Hl |- *. apply not_elem_of_cons in Hl as [Hk Hl].
    destruct (str_eqb k n) eqn:Ek; [by apply str_eqb_eq in Ek|]. by rewrite IH. }
  rewrite map_app. cbn. rewrite str_eqb_refl, !Hid; [done|done|]. intros Hn. apply (H1 n Hn). by left.
Qed.
Lemma set_child_elem d n x e : e ∈ set_child d n x -> e = (n, x) \/ e ∈ d.
Proof.
  unfold set_child. destruct (dict_has d n).
  - intros (y & -> & Hy)%list_elem_of_fmap. destruct (str_eqb y.1 n); [by left|by right].
  - intros [H|H%list_elem_of_singleton]%elem_of_app; [by right|by left].
Qed.
Lemma set_child_names d n x : NoDup (map fst d) -> NoDup (map fst (set_child d n x)).
Proof.
  intros Hd. destruct (set_child_cases d n x Hd) as [(d1 & y & d2 & -> & -> & _)|[E ->]].
  - rewrite map_app in *. done.
  - rewrite map_app. apply list.NoDup_app. split_and!; [done| |by apply NoDup_singleton].
    intros k Hk Ek%list_elem_of_singleton. cbn in Ek. subst k. apply dict_has_elem in Hk. unfold dict_has in Hk. by rewrite E in Hk.
Qed.

Section Changes.
Variable casefold : str -> str.
Hypothesis casefold_app : forall a b, casefold (a ++ b) = casefold a ++ casefold b.
Abbreviation tidy := (tidy casefold).

Lemma tidy_names k d : tidy k d -> NoDup (map fst d).
Proof. by destruct 1. Qed.
Lemma tidy_nil k : k <= MAX_DIRECTORY_DEPTH -> tidy k [].
Proof. intros H. constructor; [done|constructor|..]; intros * ?%not_elem_of_nil; done. Qed.
Lemma tidy_child k d p d' : tidy k d -> dict_get d p = Some (Dir d') -> tidy (k + 1) d'.
Proof. destruct 1 as [k d Hk Hn H1 H2 H3]. intros E%dict_get_elem. by eapply H2. Qed.

Lemma tidy_set_dir k d n es : tidy k d -> tidy (k + 1) es -> tidy k (set_child d n (Dir es)).
Proof.
  destruct 1 as [k d Hk Hn H1 H2 H3]. intros He. constructor; [done|by apply set_child_names|..].
  - intros name data t [[=]|H]%set_child_elem. by eapply H1.
  - intros name es' [[= -> ->]|H]%set_child_elem; [done|by eapply H2].
  - intros name e [[= -> ->]|H]%set_child_elem; [done|by eapply H3].
Qed.
Lemma tidy_filed k d n data now : is_markdown casefold n = true -> sound data -> tidy k d -> tidy k (filed data now n d).
Proof.
  intros Hm Hs. destruct 1 as [k d Hk Hn H1 H2 H3]. unfold filed. constructor; [done|by apply set_child_names|..].
  - intros name x t [[= -> -> ->]|H]%set_child_elem; [done|by eapply H1].
  - intros name es' [[=]|H]%set_child_elem. by eapply H2.
  - intros name e [[= -> ->]|H]%set_child_elem; [done|by eapply H3].
Qed.
Lemma tidy_del k d n : tidy k d -> tidy k (del_child d n).
Proof.
  destruct 1 as [k d Hk Hn H1 H2 H3]. assert (forall e, e ∈ del_child d n -> e ∈ d) as Hi.
  { intros e He. apply list_elem_of_In in He. apply filter_In in He as [He _]. by apply list_elem_of_In. }
  constructor; [done| |intros * H%Hi; by eapply H1|intros * H%Hi; by eapply H2|intros * H%Hi; by eapply H3].
  clear - Hn. unfold del_child. induction d as [|[x v] d IH]; [done|]. cbn in Hn |- *. apply list.NoDup_cons in Hn as [Hx Hn].
  destruct (negb _); [|by apply IH]. cbn. apply list.NoDup_cons. split; [|by apply IH].
  intros (y & -> & Hy)%list_elem_of_fmap. apply Hx. apply list_elem_of_fmap_2. apply list_elem_of_In in Hy. apply filter_In in Hy as [Hy _]. by apply list_elem_of_In.
Qed.
Lemma tidy_put f dirs : (forall k d, tidy k d -> tidy k (f d)) -> forall k d, k + len dirs <= MAX_DIRECTORY_DEPTH -> tidy k d -> tidy k (put d dirs f).
Proof.
  intros Hf. induction dirs as [|p dirs IH]; intros k d Hk H; cbn [put]; [by apply Hf|]. rewrite len_cons in Hk.
  pose proof (len_nonneg dirs). apply tidy_set_dir; [done|]. apply IH; [lia|].
  destruct (dict_get d p) as [[]|] eqn:E; try (apply tidy_nil; lia). by eapply tidy_child.
Qed.

(** How many files there are and how large they are, after a change of the
    directory at the end of a path. *)
Definition grows (d d' : entries_of) (prefix : list str) (dn dt : Z) : Prop :=
  len (files_of (Dir d') prefix) = len (files_of (Dir d) prefix) + dn /\
  total_size (files_of (Dir d') prefix) = total_size (files_of (Dir d) prefix) + dt.

Lemma grows_set d n x prefix dn dt : NoDup (map fst d) ->
  len (file_at prefix (n, x)) = match dict_get d n with Some y => len (file_at prefix (n, y)) | None => 0 end + dn ->
  total_size (file_at prefix (n, x)) = match dict_get d n with Some y => total_size (file_at prefix (n, y)) | None => 0 end + dt ->
  grows d (set_child d n x) prefix dn dt.
Proof.
  intros Hd H1 H2. unfold grows. rewrite !files_of_Dir. destruct (set_child_cases d n x Hd) as [(d1 & y & d2 & E & -> & Ey)|[Ey ->]].
  - rewrite Ey in H1, H2. rewrite E, !map_app, !concat_app. cbn [map concat]. rewrite !len_app, !total_size_app. lia.
  - rewrite Ey in H1, H2. rewrite map_app, concat_app. cbn [map concat]. rewrite app_nil_r, len_app, total_size_app. lia.
Qed.

Lemma grows_put f name opened dn dt : (forall prefix d, NoDup (map fst d) -> read_target d name = Ok opened -> grows d (f d) prefix dn dt) ->
  forall dirs d prefix, (exists k, tidy k d) \/ d = [] -> read_at d dirs name = Ok opened -> grows d (put d dirs f) prefix dn dt.
Proof.
  intros Hf. induction dirs as [|p dirs IH]; intros d prefix Hd Hr; cbn [put].
  - apply Hf; [|exact Hr]. destruct Hd as [[k Hk] | ->]; [by eapply tidy_names|constructor].
  - assert (NoDup (map fst d)) as Hn by (destruct Hd as [[k Hk] | ->]; [by eapply tidy_names|constructor]).
    unfold read_at in Hr. cbn [descend] in Hr. destruct (dict_get d p) as [[? ?|d0| |]|] eqn:E; try done.
    + destruct (IH d0 (prefix ++ [p])) as [H1 H2]; [|exact Hr|].
      { left. destruct Hd as [[k Hk] | ->]; [|done]. exists (k + 1). by eapply tidy_child. }
      apply grows_set; rewrite ?E; unfold file_at; cbn [fst snd]; done.
    + cbn in Hr. injection Hr as <-. destruct (IH [] (prefix ++ [p])) as [H1 H2]; [by right|by destruct dirs|].
      apply grows_set; rewrite ?E; unfold file_at; cbn [fst snd]; done.
Qed.

Lemma read_target_Ok d name opened : read_target d name = Ok opened ->
  match opened with Some data => exists t, dict_get d name = Some (File data t) | None => dict_get d name = None end.
Proof.
  unfold read_target. destruct (dict_get d name) as [[data t| | |]|] eqn:E; try done; [|by intros [= <-]].
  unfold _validate_file. destruct (_ <? _); [done|]. destruct (_decode_utf8 data); [|done]. cbn. intros [= <-]. by exists t.
Qed.
Definition old_count (opened : option bytes) : Z := match opened with Some _ => 1 | None => 0 end.
Definition old_size (opened : option bytes) : Z := match opened with Some data => len data | None => 0 end.
Lemma grows_filed data now name opened prefix d : NoDup (map fst d) -> read_target d name = Ok opened ->
  grows d (filed data now name d) prefix (1 - old_count opened) (len data - old_size opened).
Proof.
  intros Hn Hr%read_target_Ok. apply grows_set; [done|..]; unfold file_at; cbn [fst snd]; destruct opened as [x|];
    [destruct Hr as [t ->]|rewrite Hr|destruct Hr as [t ->]|rewrite Hr]; cbn [old_count old_size fst snd]; rewrite ?total_size_cons; cbn [scan_data total_size foldr]; try (change (len [_]) with 1); try lia.
Qed.
Lemma grows_del name x prefix d : NoDup (map fst d) -> read_target d name = Ok (Some x) ->
  grows d (del_child d name) prefix (-1) (- len x).
Proof.
  intros Hn [t E]%read_target_Ok. apply dict_get_elem in E. apply list_elem_of_split in E as (d1 & d2 & ->).
  rewrite map_app in Hn. cbn in Hn. apply list.NoDup_app in Hn as (_ & H1 & H2). apply list.NoDup_cons in H2 as [H2 _].
  assert (forall l : entries_of, name ∉ map fst l -> del_child l name = l) as Hid.
  { intros l Hl. unfold del_child. induction l as [|[k v] l IH]; [done|]. cbn in Hl |- *. apply not_elem_of_cons in Hl as [Hk Hl].
    destruct (str_eqb k name) eqn:Ek; [by apply str_eqb_eq in Ek|]. cbn. by rewrite IH. }
  assert (del_child (d1 ++ (name, File x t) :: d2) name = d1 ++ d2) as ->.
  { unfold del_child. rewrite List.filter_app. cbn. rewrite str_eqb_refl. cbn. fold (del_child d1 name) (del_child d2 name). rewrite !Hid; [done|done|].
    intros Hi. apply (H1 name Hi). by left. }
  unfold grows. rewrite !files_of_Dir, !map_app, !concat_app. cbn [map concat]. change (file_at prefix (name, File x t)) with [{| scan_ref := prefix ++ [name]; scan_data := x; scan_mtime := t |}].
  rewrite !len_app, !total_size_app, total_size_cons. cbn [scan_data total_size foldr]. change (len [_]) with 1. lia.
Qed.
Lemma grows_id prefix d : grows d d prefix 0 0.
Proof. split; lia. Qed.
End Changes.

(** ** The bounds *)

Inductive memory_op :=
| Write (disk : bool) (now : Z) (ref content : str)
| Edit (disk : bool) (now : Z) (old new ref : str)
| Delete (disk : bool) (ref : str).

Section Invariant.
Variable casefold : str -> str.
Hypothesis casefold_app : forall a b, casefold (a ++ b) = casefold a ++ casefold b.
Abbreviation scan := (_scan_markdown_files casefold).

Definition run (r : option node) (o : memory_op) : option node :=
  match o with
  | Write disk now ref content => (write_entry casefold disk now r ref content).1
  | Edit disk now old new ref => (_edit_tool casefold disk now r old new ref).1
  | Delete disk ref => (delete_entry casefold disk r ref).1
  end.

(** Absent, or a tidy tree with files within the limits. *)
Record memory_ok (r : option node) : Prop := {
  ok_root : r = None \/ exists d, r = Some (Dir d);
  ok_tidy : tidy casefold 0 (entries r);
  ok_count : len (files_of (Dir (entries r)) []) <= MAX_FILES;
  ok_total : total_size (files_of (Dir (entries r)) []) <= MAX_TOTAL_BYTES
}.

Lemma memory_ok_scan r : memory_ok r ->
  match scan r with Ok files => files = files_of (Dir (entries r)) [] | Raise e => crowded e end.
Proof.
  intros [Hr Ht Hc Hs]. unfold _scan_markdown_files, _ensure_root. destruct Hr as [-> |[d ->]]; cbn [mbind result_bind]; [done|].
  cbn [entries] in *. assert (fits new_budget (files_of (Dir d) [])) as F.
  { unfold fits, new_budget. cbn [b_result b_total]. change (len ([] : list scanned)) with 0. lia. }
  pose proof (scan_tidy casefold 0 d Ht [] new_budget eq_refl F) as H.
  unfold collected in H. destruct (_scan_directory _ _ _ _) as [b|e]; [|done]. cbn. by destruct H as [-> _].
Qed.

(** A tree that changed at the end of a path. *)
Lemma memory_ok_put r dirs name opened f dn dt : memory_ok r -> len dirs <= MAX_DIRECTORY_DEPTH ->
  (forall k d, tidy casefold k d -> tidy casefold k (f d)) ->
  (forall prefix d, NoDup (map fst d) -> read_target d name = Ok opened -> grows d (f d) prefix dn dt) ->
  read_at (entries r) dirs name = Ok opened ->
  len (files_of (Dir (entries r)) []) + dn <= MAX_FILES -> total_size (files_of (Dir (entries r)) []) + dt <= MAX_TOTAL_BYTES ->
  memory_ok (Some (Dir (put (entries r) dirs f))).
Proof.
  intros [Hr Ht Hc Hs] Hdep Hf Hg Hat H1 H2.
  destruct (grows_put casefold f name opened dn dt Hg dirs (entries r) []) as [E1 E2]; [left; by exists 0|done|].
  split; cbn [entries]; [right; by eexists| |lia|lia]. apply tidy_put; [done| |done]. lia.
Qed.

Lemma reference_markdown ref ps : _reference casefold ref = Ok ps -> is_markdown casefold (List.last ps []) = true.
Proof.
  intros (_ & _ & _ & H)%reference_parts; [|done]. unfold is_markdown. apply endswith_spec.
  assert (forall name, exists p, name = p ++ suffix name) as Hs.
  { intros name. unfold suffix. destruct (rfind 46 name) as [i|]; [|exists name; by rewrite app_nil_r].
    destruct (_ && _); [exists (take i name); by rewrite take_drop|exists name; by rewrite app_nil_r]. }
  destruct (Hs (List.last ps [])) as [p E]. exists (casefold p). rewrite E at 1. by rewrite casefold_app, H.
Qed.

Lemma read_at_raise_or d dirs name y : descend d dirs = Ok y -> read_at d dirs name = match y with None => Ok None | Some d => read_target d name end.
Proof. unfold read_at. by intros ->. Qed.

Lemma grows_put_id dirs : forall d prefix y, (exists k, tidy casefold k d) \/ d = [] -> descend d dirs = Ok y ->
  grows d (put d dirs (fun d => d)) prefix 0 0.
Proof.
  induction dirs as [|p dirs IH]; intros d prefix y Hd Hy; cbn [put]; [split; lia|].
  assert (NoDup (map fst d)) as Hn by (destruct Hd as [[k Hk] | ->]; [by eapply tidy_names|constructor]).
  cbn [descend] in Hy. destruct (dict_get d p) as [[? ?|d0| |]|] eqn:E; try done.
  - destruct (IH d0 (prefix ++ [p]) y) as [H1 H2]; [|exact Hy|].
    { left. destruct Hd as [[k Hk] | ->]; [|done]. exists (k + 1). by eapply tidy_child. }
    apply grows_set; rewrite ?E; unfold file_at; cbn [fst snd]; done.
  - destruct (IH [] (prefix ++ [p]) (match dirs with [] => Some [] | _ => None end)) as [H1 H2]; [by right|by destruct dirs|].
    apply grows_set; rewrite ?E; unfold file_at; cbn [fst snd]; done.
Qed.

Lemma commit_ok disk now r ps ref candidate : _reference casefold ref = Ok ps -> memory_ok r ->
  memory_ok (_commit casefold disk now r ps ref candidate).1.
Proof.
  intros Hp H. destruct (_commit _ _ _ _ _ _ _) as [r' x] eqn:E. cbn [fst]. apply commit_cases in E. pose proof H as [Hr Ht Hc Hs].
  destruct E as [x Hx|e Hdep _ [y Hy]|w files opened Hdep _ Hl Hd Hscan Hat _ Hcount Htot _ _]; [done| |].
  - destruct (grows_put_id (removelast ps) (entries r) [] y) as [E1 E2]; [left; by exists 0|done|].
    split; cbn [entries]; [right; by eexists| |lia|lia]. apply tidy_put; [done| |done]. lia.
  - pose proof (memory_ok_scan r H) as Hf. rewrite Hscan in Hf. subst files.
    eapply (memory_ok_put r _ (List.last ps []) opened); [done|done| | |done| |].
    + intros k d. apply tidy_filed; [by eapply reference_markdown|by split].
    + intros prefix d. apply grows_filed.
    + destruct opened; cbn [old_count]; [lia|]. specialize (Hcount eq_refl). lia.
    + destruct opened; cbn [old_size]; lia.
Qed.
Lemma write_ok disk now r ref content : memory_ok r -> memory_ok (write_entry casefold disk now r ref content).1.
Proof.
  intros H. unfold write_entry. destruct (_encode_candidate content); [|done]. destruct (_reference casefold ref) eqn:E; [|done]. by apply commit_ok.
Qed.
Lemma delete_ok disk r ref : memory_ok r -> memory_ok (delete_entry casefold disk r ref).1.
Proof.
  intros H. unfold delete_entry. destruct (_reference casefold ref) as [ps|] eqn:Hp; [|done]. destruct (_read_path r ps) as [[data|]|] eqn:Er; [|done|done].
  destruct disk; [|done]. cbn [fst]. fold (entries r). apply read_path_at in Er as (Hr & Hat & y & Hy).
  rewrite (read_at_raise_or _ _ _ _ Hy) in Hat. destruct y as [d|]; [|done].
  rewrite (at_dir_put _ _ _ _ Hy). pose proof H as [_ Ht Hc Hs]. pose proof (len_nonneg data).
  assert (len (removelast ps) <= MAX_DIRECTORY_DEPTH) as Hdep.
  { clear - Ht Hy. assert (forall dirs k e, tidy casefold k e -> descend e dirs = Ok (Some d) -> k + len dirs <= MAX_DIRECTORY_DEPTH) as Hgen.
    { induction dirs as [|p dirs IH]; intros k e He Hd; [destruct He; change (len []) with 0; lia|]. cbn in Hd.
      destruct (dict_get e p) as [[? ?|e'| |]|] eqn:E; try done. pose proof (IH (k + 1) e' (tidy_child _ _ _ _ _ He E) Hd). rewrite len_cons. lia. }
    pose proof (Hgen _ _ _ Ht Hy). lia. }
  eapply (memory_ok_put r _ (List.last ps []) (Some data) (fun d => del_child d (List.last ps []))); [done|done| | | |..].
  - intros k e. apply tidy_del.
  - intros prefix e. apply grows_del.
  - by rewrite (read_at_raise_or _ _ _ _ Hy).
  - lia.
  - lia.
Qed.

(** C22: whatever is written, edited and deleted, also when the disk fails, the memory
    of a project stays within its limits: at most a hundred files and a mebibyte,
    each file of at most 128 KiB and valid UTF-8, no deeper than 32 directories and
    nothing but files and directories; so that a scan finds exactly these files,
    unless there are too many directories or entries, which writes do not check. *)
Theorem memory_bounds ops :
  let r := fold_left run ops None in
  memory_ok r /\ match scan r with Ok files => files = files_of (Dir (entries r)) [] | Raise e => e = TooManyEntries \/ e = TooManyDirectories end.
Proof.
  cbn zeta. assert (forall r, memory_ok r -> memory_ok (fold_left run ops r)) as Hgen.
  { induction ops as [|o ops IH]; intros r H; [done|]. cbn. apply IH. destruct o as [disk now ref c|disk now old new ref|disk ref]; cbn [run].
    - by apply write_ok.
    - unfold _edit_tool. destruct (read_entry casefold r ref); [|done]. destruct (negb _); [done|]. destruct (_ =? 0); [done|].
      destruct (1 <? _); [done|]. by apply write_ok.
    - by apply delete_ok. }
  assert (memory_ok (fold_left run ops None)) as H.
  { apply Hgen. split; cbn; [by left|by apply tidy_nil|done|done]. }
  split; [done|by apply memory_ok_scan].
Qed.
End Invariant.

(** ** Examples *)

Definition some_edits : list memory_op :=
  [Write true 1 INDEX_REFERENCE (lit "- see topics/build.md"); Write false 2 build_notes (lit "x"); Write true 3 build_notes (lit "make");
   Edit true 4 (lit "make") (lit "make all") build_notes; Delete true INDEX_REFERENCE].
Lemma memory_bounds_witness :
  let r := fold_left (run id) some_edits None in memory_ok id r /\ length (files_of (Dir (entries r)) []) = 1%nat.
Proof. split; [exact (proj1 (memory_bounds id id_app some_edits))|by vm_compute]. Defined.

(** ** A memory that cannot be used any more *)

Definition deep (c : Z) : str := join (lit "/") (replicate 30 [c] ++ [lit "x.md"]).
(** Four notes, each thirty directories deep, are written without complaint, and
    then nothing can be listed or written any more; nor when they are deleted,
    because their directories stay. *)
Lemma directories_block_memory :
  let notes := [deep 97; deep 98; deep 99; deep 100] in
  let r := fold_left (run id) (map (fun n => Write true 1 n (lit "note")) notes) None in
  let r' := fold_left (run id) (map (Delete true) notes) r in
  map (fun n => read_entry id r n) notes =
    map (fun n => Ok {| reference := n; entry_content := Some (lit "note"); byte_count := 4; present := true |}) notes /\
  list_entries id r None = Raise TooManyDirectories /\
  (write_entry id true 2 r INDEX_REFERENCE []).2 = Raise TooManyDirectories /\
  files_of (Dir (entries r')) [] = [] /\ list_entries id r' None = Raise TooManyDirectories.
Proof. by vm_compute. Qed.
