(* ===== verification/MemoryEdit.v ===== *)
(** * Edits and the prompt

    The exact edit of one file, and the part of the index that is shown to the model. *)

From stdpp Require Import base list strings numbers sorting.
From Stdlib Require Import ZArith Lia.
From S2P Require Import Prelude PyStr Utf8 PyVal MemoryStore MemoryFacts MemoryBounds.

(** ** Editing *)

(** The places where [old] occurs, also overlapping ones. *)
Fixpoint places (old s : str) : list nat :=
  (if startswith old s then [O] else []) ++ match s with [] => [] | _ :: s' => map S (places old s') end.
Lemma places_spec old s i : i ∈ places old s <-> exists pre post, s = pre ++ old ++ post /\ length pre = i.
Proof.
  revert i. induction s as [|c s IH]; intros i; cbn [places].
  - rewrite app_nil_r. split.
    + destruct (startswith old []) eqn:E; [|by intros ?%not_elem_of_nil]. intros ->%list_elem_of_singleton.
      apply startswith_spec in E as [r E]. by exists [], r.
    + intros (pre & post & E & <-). symmetry in E. apply app_eq_nil in E as [-> E]. apply app_eq_nil in E as [-> ->]. by left.
  - rewrite elem_of_app. split.
    + intros [H|(j & -> & Hj)%list_elem_of_fmap].
      * destruct (startswith old (c :: s)) eqn:E; [|by apply not_elem_of_nil in H]. apply list_elem_of_singleton in H as ->.
        apply startswith_spec in E as [r E]. by exists [], r.
      * apply IH in Hj as (pre & post & -> & <-). by exists (c :: pre), post.
    + intros (pre & post & E & <-). destruct pre as [|c' pre].
      * left. cbn in E. rewrite E, startswith_app. by left.
      * right. injection E as <- ->. cbn [length]. apply (list_elem_of_fmap_2 S), IH. by exists pre, post.
Qed.

Lemma find_places old s : match find_sub old s with
  | None => places old s = []
  | Some i => startswith old (drop i s) = true /\ (i <= length s)%nat /\ (old <> [] -> (i < length s)%nat) /\
      places old s = i :: map (fun j => (S i + j)%nat) (if (i <? length s)%nat then places old (drop (S i) s) else [])
  end.
Proof.
  induction s as [|c s IH]; cbn [find_sub].
  - destruct (startswith old []) eqn:E; [|by cbn; rewrite E]. cbn. rewrite E. split_and!; [done|lia| |done].
    intros Hn. apply startswith_spec in E as [r E]. by destruct old.
  - destruct (startswith old (c :: s)) eqn:E.
    + cbn [drop]. split_and!; [done|cbn; lia|cbn; lia|]. cbn [places]. rewrite E. cbn. rewrite drop_0. done.
    + destruct (find_sub old s) as [i|]; cbn [fmap option_fmap option_map].
      * destruct IH as (H1 & H2 & H3 & H4). cbn [drop length]. split_and!; [done|lia|intros Hn; specialize (H3 Hn); lia|].
        cbn [places]. rewrite E, H4. cbn [app map]. f_equal. rewrite map_map.
        assert ((S i <? S (length s))%nat = (i <? length s)%nat) as -> by (by destruct (Nat.ltb_spec (S i) (S (length s))), (Nat.ltb_spec i (length s)); lia).
        cbn [drop]. by apply map_ext.
      * cbn [places]. by rewrite E, IH.
Qed.
Lemma count_places old : old <> [] -> forall fuel s, (length s < fuel)%nat -> count_loop fuel old s = len (places old s).
Proof.
  intros Hn. induction fuel as [|fuel IH]; intros s Hs; [lia|]. cbn [count_loop]. pose proof (find_places old s) as H.
  destruct (find_sub old s) as [i|]; [|by rewrite H]. destruct H as (_ & _ & H3 & ->). specialize (H3 Hn).
  rewrite IH by (rewrite length_drop; lia). destruct (Nat.ltb_spec i (length s)); [|lia]. rewrite len_cons. unfold len. by rewrite length_map.
Qed.
Lemma replace_once_place old new s i l : old <> [] -> places old s = i :: l ->
  exists pre post, s = pre ++ old ++ post /\ length pre = i /\ replace_once s old new = pre ++ new ++ post.
Proof.
  intros Hn E. pose proof (find_places old s) as H. unfold replace_once. destruct (find_sub old s) as [j|]; [|congruence].
  destruct H as (H1 & H2 & _ & H4). rewrite E in H4. injection H4 as -> _. apply startswith_spec in H1 as [r Hr].
  exists (take j s), r. split_and!; [by rewrite <- Hr, take_drop|rewrite length_take; lia|].
  do 2 f_equal. rewrite <- drop_drop, Hr. by rewrite drop_app_length.
Qed.

Section Edits.
Variable casefold : str -> str.

(** an edit changes one place or nothing: it is refused without a write unless
    the text occurs exactly once, counting occurrences that overlap, and otherwise
    it writes the content with that occurrence replaced. *)
Theorem memory_edit_exact disk now r old new ref entry :
  read_entry casefold r ref = Ok entry -> old <> [] ->
  let content := default [] entry.(entry_content) in
  let edited := _edit_tool casefold disk now r old new ref in
  match places old content with
  | [] => edited = (r, Ok (refused ref OldNotFound))
  | [i] => exists pre post, content = pre ++ old ++ post /\ edited = write_entry casefold disk now r ref (pre ++ new ++ post) /\
      forall pre' post', content = pre' ++ old ++ post' -> pre' = pre
  | many => edited = (r, Ok (refused ref (OldRepeated (len many))))
  end.
Proof.
  intros Hr Hn. cbn zeta. set (content := default [] _). unfold _edit_tool. rewrite Hr. fold content.
  assert (nonempty old = true) as -> by (by destruct old). cbn [negb].
  assert (_count_occurrences content old = len (places old content)) as -> by (by apply count_places; [|lia]).
  destruct (places old content) as [|i [|j l]] eqn:E; [done| |].
  - change (len [i]) with 1. cbn [Z.eqb Z.ltb]. destruct (replace_once_place old new content i [] Hn E) as (pre & post & Hc & Hl & ->).
    exists pre, post. split_and!; [done|done|]. intros pre' post' Hc'.
    assert (length pre' ∈ places old content) as Hi by (apply places_spec; by exists pre', post').
    rewrite E in Hi. apply list_elem_of_singleton in Hi. assert (length pre' = length pre) as Hll by congruence.
    rewrite Hc in Hc'. apply (f_equal (take (length pre))) in Hc'. rewrite take_app_length in Hc'. rewrite Hc', <- Hll, take_app_length. done.
  - rewrite len_cons, len_cons. pose proof (len_nonneg l). destruct (Z.eqb_spec (1 + (1 + len l)) 0); [lia|].
    destruct (Z.ltb_spec 1 (1 + (1 + len l))); [|lia]. done.
Qed.
End Edits.

(** ** The prompt *)

Lemma cut_line line k : scalars line -> 0 <= k -> k < len (utf8 line) ->
  exists s1 c s2, line = s1 ++ c :: s2 /\ decode_ignore (slice_to (utf8 line) k) = s1 /\ len (utf8 s1) <= k < len (utf8 (s1 ++ [c])).
Proof.
  intros Hs Hk Hl. rewrite slice_to_pos by done. unfold len in Hl.
  destruct (utf8_cut line (Z.to_nat k) Hs ltac:(lia)) as (s1 & s2 & p & q & -> & Ht & Hd & Hpq).
  assert (len (utf8 s1) + len p = k) as Hlen.
  { rewrite <- len_app, <- Ht. unfold len. rewrite length_take. lia. }
  apply Forall_app in Hs as [Hs1 Hs2]. destruct Hpq as [[-> ->]|(c & s3 & q' & -> & Hc & Hp & Hq & ->)].
  - destruct s2 as [|c s2].
    { exfalso. rewrite app_nil_r in Hl. change (len []) with 0 in Hlen. unfold len in Hlen. lia. }
    exists s1, c, s2. split; [done|]. rewrite Ht, app_nil_r. split; [by apply decode_with_encode|].
    rewrite utf8_app, len_app, utf8_cons, utf8_nil, app_nil_r. pose proof (utf8_char_len c). change (len []) with 0 in Hlen. lia.
  - exists s1, c, s3. split; [done|]. rewrite Ht. split.
    + unfold decode_ignore. rewrite decode_with_utf8 by done. apply list.Forall_cons in Hs2 as [Hc' _].
      fold (decode_ignore p). by rewrite (decode_ignore_partial c p q' Hc' Hc Hq), app_nil_r.
    + rewrite utf8_app, len_app, utf8_cons, utf8_nil, app_nil_r, Hc, len_app. pose proof (len_nonneg p).
      assert (0 < len q') by (destruct q'; [done|rewrite len_cons; pose proof (len_nonneg q'); lia]). lia.
Qed.

Lemma prefix_utf8 p s : p `prefix_of` s -> len (utf8 p) <= len (utf8 s).
Proof. intros [q ->]. rewrite utf8_app, len_app. pose proof (len_nonneg (utf8 q)). lia. Qed.
Lemma prefix_after (a b p : str) : p `prefix_of` a ++ b -> p `prefix_of` a \/ exists p', p = a ++ p' /\ p' `prefix_of` b.
Proof.
  revert p. induction a as [|x a IH]; intros p H; [right; by exists p|]. destruct p as [|y p]; [left; apply prefix_nil|].
  cbn in H. apply prefix_cons_inv_1 in H as Exy. subst y. apply prefix_cons_inv_2 in H. destruct (IH p H) as [?|(p' & -> & ?)].
  - left. by apply prefix_cons.
  - right. by exists p'.
Qed.
(** A prefix that is not longer than [k] bytes, where the next character after
    [s1] makes it longer. *)
Lemma prefix_cut s1 c s2 p k : p `prefix_of` s1 ++ c :: s2 -> k < len (utf8 (s1 ++ [c])) -> len (utf8 p) <= k -> p `prefix_of` s1.
Proof.
  intros H Hk Hp. apply prefix_after in H as [|(p' & -> & H)]; [done|]. destruct p' as [|x p']; [rewrite app_nil_r; by exists []; rewrite app_nil_r|].
  apply prefix_cons_inv_1 in H as ->. exfalso. rewrite utf8_app, len_app in Hp, Hk. rewrite utf8_cons in Hp. rewrite utf8_cons, utf8_nil, app_nil_r in Hk.
  rewrite len_app in Hp. pose proof (len_nonneg (utf8 p')). lia.
Qed.

(** What the loop takes of the lines that it may look at. *)
Record bounded_by (lines : list str) (index used : Z) (chunks : list str) (t : bool) : Prop := {
  bounded_prefix : concat chunks `prefix_of` concat (take (Z.to_nat (PROMPT_MAX_LINES - index)) lines);
  bounded_bytes : used + len (utf8 (concat chunks)) <= PROMPT_MAX_BYTES;
  bounded_lines : index + len chunks <= PROMPT_MAX_LINES;
  bounded_most : forall p, p `prefix_of` concat (take (Z.to_nat (PROMPT_MAX_LINES - index)) lines) ->
    used + len (utf8 p) <= PROMPT_MAX_BYTES -> p `prefix_of` concat chunks;
  bounded_all : t = false -> chunks = lines;
  bounded_less : t = true -> (length (concat chunks) < length (concat lines))%nat
}.

Lemma bound_loop_spec lines : Forall (fun l => scalars l /\ l <> []) lines -> forall index used, 0 <= index <= PROMPT_MAX_LINES -> 0 <= used <= PROMPT_MAX_BYTES ->
  let '(chunks, t) := bound_loop lines index used in bounded_by lines index used chunks t.
Proof.
  induction 1 as [|line lines [Hs Hne] _ IH]; intros index used Hi Hu; cbn [bound_loop].
  - split; cbn; rewrite ?take_nil; try done; try lia; change (len []) with 0; lia.
  - destruct (Z.leb_spec PROMPT_MAX_LINES index) as [Hmax|Hmax].
    { assert (index = PROMPT_MAX_LINES) as -> by lia. split; rewrite ?Z.sub_diag; cbn; try done; try (change (len ([] : list str)) with 0; lia); try (change (len ([] : bytes)) with 0; lia).
      intros _. rewrite length_app. destruct line; [done|cbn; lia]. }
    assert (Z.to_nat (PROMPT_MAX_LINES - index) = S (Z.to_nat (PROMPT_MAX_LINES - (index + 1)))) as En by lia.
    destruct (Z.ltb_spec (PROMPT_MAX_BYTES - used) (len (utf8 line))) as [Hlong|Hshort].
    + destruct (cut_line line (PROMPT_MAX_BYTES - used) Hs ltac:(lia) Hlong) as (s1 & c & s2 & El & -> & Hc).
      assert (concat (if nonempty s1 then [s1] else []) = s1) as Ec by (destruct s1; cbn; by rewrite ?app_nil_r).
      split; rewrite ?Ec, ?En; cbn [take concat].
      * rewrite El, <- app_assoc. by eexists.
      * lia.
      * destruct s1; cbn; [change (len []) with 0|change (len [_]) with 1]; lia.
      * intros p Hp Hl. rewrite El, <- app_assoc in Hp. cbn in Hp. eapply prefix_cut; [exact Hp|apply Hc|lia].
      * done.
      * intros _. rewrite El, !length_app. cbn. lia.
    + specialize (IH (index + 1) (used + len (utf8 line)) ltac:(lia) ltac:(pose proof (len_nonneg (utf8 line)); lia)).
      destruct (bound_loop lines (index + 1) _) as [chunks t]. destruct IH as [B1 B2 B3 B4 B5 B6].
      split; rewrite ?En; cbn [take concat].
      * by apply prefix_app.
      * rewrite utf8_app, len_app. lia.
      * rewrite len_cons. lia.
      * intros p Hp Hl. apply prefix_after in Hp as [Hp|(p' & -> & Hp)]; [by apply prefix_app_r|].
        apply prefix_app, B4; [done|]. rewrite utf8_app, len_app in Hl. lia.
      * intros Ht. by rewrite (B5 Ht).
      * intros Ht. rewrite !length_app. specialize (B6 Ht). lia.
Qed.

(** the part of the index that goes into a prompt is the longest beginning of it
    that has at most 200 lines and 25 KiB in whole characters, and it is said to be
    truncated exactly when something is left out. *)
Theorem prompt_bounded content : scalars content ->
  let '(bounded, lines, truncated) := _bound_prompt content in
  let most := concat (take (Z.to_nat PROMPT_MAX_LINES) (splitlines_keep content)) in
  bounded `prefix_of` content /\ bounded `prefix_of` most /\ len (utf8 bounded) <= PROMPT_MAX_BYTES /\ lines <= PROMPT_MAX_LINES /\
  (forall p, p `prefix_of` most -> len (utf8 p) <= PROMPT_MAX_BYTES -> p `prefix_of` bounded) /\
  (truncated = false <-> bounded = content).
Proof.
  intros Hs. unfold _bound_prompt. pose proof (concat_splitlines_keep content) as Ec.
  assert (Forall (fun l => scalars l /\ l <> []) (splitlines_keep content)) as Hl.
  { pose proof (splitlines_keep_nonempty content) as Hn. rewrite list.Forall_forall in Hn. apply list.Forall_forall. intros l Hi. split; [|by apply Hn].
    rewrite <- Ec in Hs. rewrite list.Forall_forall in Hs. apply list.Forall_forall. intros c Hc. apply Hs. apply list_elem_of_In, in_concat.
    exists l. by split; apply list_elem_of_In. }
  pose proof (bound_loop_spec _ Hl 0 0 ltac:(done) ltac:(done)) as B. destruct (bound_loop _ 0 0) as [chunks t]. destruct B as [B1 B2 B3 B4 B5 B6].
  rewrite Z.sub_0_r in B1, B4. cbn zeta. split_and!.
  - etrans; [exact B1|]. rewrite <- Ec at 2. exists (concat (drop (Z.to_nat PROMPT_MAX_LINES) (splitlines_keep content))).
    by rewrite <- concat_app, take_drop.
  - done.
  - lia.
  - lia.
  - intros p Hp Hb. by apply B4; [|lia].
  - destruct t; cbn [orb].
    + split; [done|]. intros E. specialize (B6 eq_refl). rewrite E, Ec in B6. lia.
    + rewrite (B5 eq_refl), Ec. split; [done|]. intros _. apply Z.ltb_irrefl.
Qed.

(** ** Examples *)

Lemma memory_edit_exact_witness :
  let r := fold_left (run id) some_edits None in
  exists pre post, lit "make all" = pre ++ lit "all" ++ post /\
    _edit_tool id true 9 r (lit "all") (lit "it") build_notes = write_entry id true 9 r build_notes (pre ++ lit "it" ++ post).
Proof.
  cbn zeta. set (r := fold_left _ _ _).
  destruct (memory_edit_exact id true 9 r (lit "all") (lit "it") build_notes
    {| reference := build_notes; entry_content := Some (lit "make all"); byte_count := 8; present := true |}) as (pre & post & H1 & H2 & _);
    [by vm_compute|done|]. exists pre, post. split; [exact H1|exact H2].
Defined.

Lemma prompt_bounded_witness :
  let '(bounded, lines, truncated) := _bound_prompt (concat (replicate 201 [120; NL])) in
  lines <= 200 /\ truncated = true /\ bounded <> concat (replicate 201 [120; NL]).
Proof.
  assert (scalars (concat (replicate 201 [120; NL]))) as Hs by (apply (bool_decide_unpack _); by vm_compute).
  pose proof (prompt_bounded _ Hs) as H. destruct (_bound_prompt (concat (replicate 201 [120; NL]))) as [[b l] t] eqn:E.
  destruct H as (_ & _ & _ & H1 & _ & H2). split_and!; [exact H1|vm_compute in E; by injection E as _ _ <-|].
  intros Eb. apply H2 in Eb. subst t. vm_compute in E. injection E as _ _ E. discriminate E.
Defined.
