(* ===== verification/Prog.v ===== *)
(** * Coroutines as trees of awaits

    A coroutine of the agent runs between two awaits without interruption; what
    it awaits is answered by the host, a hook, a tool or a person.  [prog] is such
    a coroutine: a tree whose nodes are awaits and whose branches are the answers.
    [runs] relates it to the traces it can leave and [wp] to what holds at its
    end; [exec] runs it against a concrete environment.  [pool_step] interleaves
    several coroutines at their awaits, as [asyncio.gather] does under a semaphore,
    and [pool_runs] shows that each of them still makes a run of its own. *)

From stdpp Require Import base list numbers.
From Stdlib Require Import ZArith Lia.
From S2P Require Import Prelude.

Section Prog.
(** [answer a] is what comes back from [a]; an await that may raise has an
    answer of type [result exn _]. *)
Context {action : Type} {answer : action -> Type} {exn : Type}.

Inductive prog (A : Type) : Type :=
| Ret (a : A)
| Throw (e : exn)
| Do (a : action) (k : answer a -> prog A).
Arguments Ret {A}.
Arguments Throw {A}.
Arguments Do {A}.

Fixpoint bind {A B} (m : prog A) (f : A -> prog B) : prog B :=
  match m with Ret a => f a | Throw e => Throw e | Do a k => Do a (fun r => bind (k r) f) end.

(** [try: m except: h], where [h] re-raises what it does not handle. *)
Fixpoint catch {A} (m : prog A) (h : exn -> prog A) : prog A :=
  match m with Ret a => Ret a | Throw e => h e | Do a k => Do a (fun r => catch (k r) h) end.

(** [try: m finally: last]. *)
Fixpoint finally {A} (m : prog A) (last : prog unit) : prog A :=
  match m with
  | Ret a => bind last (fun _ => Ret a)
  | Throw e => bind last (fun _ => Throw e)
  | Do a k => Do a (fun r => finally (k r) last)
  end.

(** [try: m except: h else: f], where [h] does not cover [f]. *)
Fixpoint try_else {A B} (m : prog A) (h : exn -> prog B) (f : A -> prog B) : prog B :=
  match m with Ret a => f a | Throw e => h e | Do a k => Do a (fun r => try_else (k r) h f) end.

Definition perform (a : action) : prog (answer a) := Do a Ret.
Definition of_result {A} (r : result exn A) : prog A := match r with Ok x => Ret x | Raise e => Throw e end.

(** [for x in l: await f(x)], collecting the results. *)
Fixpoint mapP {A B} (f : A -> prog B) (l : list A) : prog (list B) :=
  match l with [] => Ret [] | x :: l' => bind (f x) (fun y => bind (mapP f l') (fun ys => Ret (y :: ys))) end.

(** ** Traces *)

Inductive event := Ev (a : action) (r : answer a).
Inductive outcome (A : Type) := Done (a : A) | Threw (e : exn).
Arguments Done {A}.
Arguments Threw {A}.

Fixpoint runs {A} (p : prog A) (t : list event) (o : outcome A) : Prop :=
  match p with
  | Ret a => t = [] /\ o = Done a
  | Throw e => t = [] /\ o = Threw e
  | Do a k => exists r t', t = Ev a r :: t' /\ runs (k r) t' o
  end.

(** [wp p t Q]: from the trace [t], every run of [p] ends where [Q] holds. *)
Fixpoint wp {A} (p : prog A) (t : list event) (Q : list event -> outcome A -> Prop) : Prop :=
  match p with
  | Ret a => Q t (Done a)
  | Throw e => Q t (Threw e)
  | Do a k => forall r, wp (k r) (t ++ [Ev a r]) Q
  end.

Lemma wp_runs {A} (p : prog A) t Q : wp p t Q <-> forall t' o, runs p t' o -> Q (t ++ t') o.
Proof.
  revert t; induction p as [a|e|a k IH]; intros t; cbn.
  - split; [intros HQ t' o [-> ->]; by rewrite app_nil_r|intros H; specialize (H [] _ (conj eq_refl eq_refl)); by rewrite app_nil_r in H].
  - split; [intros HQ t' o [-> ->]; by rewrite app_nil_r|intros H; specialize (H [] _ (conj eq_refl eq_refl)); by rewrite app_nil_r in H].
  - split.
    + intros H t' o (r & t'' & -> & Hr). specialize (H r). rewrite IH in H. specialize (H _ _ Hr). by rewrite <- app_assoc in H.
    + intros H r. apply IH. intros t' o Hr. rewrite <- app_assoc. apply H. by exists r, t'.
Qed.

Lemma wp_mono {A} (p : prog A) t (Q Q' : list event -> outcome A -> Prop) :
  wp p t Q -> (forall t' o, Q t' o -> Q' t' o) -> wp p t Q'.
Proof. rewrite !wp_runs. eauto. Qed.

Lemma wp_bind {A B} (m : prog A) (f : A -> prog B) t Q :
  wp (bind m f) t Q <-> wp m t (fun t' o => match o with Done a => wp (f a) t' Q | Threw e => Q t' (Threw e) end).
Proof. revert t; induction m as [a|e|a k IH]; intros t; cbn; [done..|]. by setoid_rewrite IH. Qed.

Lemma wp_catch {A} (m : prog A) h t Q :
  wp (catch m h) t Q <-> wp m t (fun t' o => match o with Done a => Q t' (Done a) | Threw e => wp (h e) t' Q end).
Proof. revert t; induction m as [a|e|a k IH]; intros t; cbn; [done..|]. by setoid_rewrite IH. Qed.

Lemma wp_try_else {A B} (m : prog A) h (f : A -> prog B) t Q :
  wp (try_else m h f) t Q <-> wp m t (fun t' o => match o with Done a => wp (f a) t' Q | Threw e => wp (h e) t' Q end).
Proof. revert t; induction m as [a|e|a k IH]; intros t; cbn; [done..|]. by setoid_rewrite IH. Qed.

Lemma wp_finally {A} (m : prog A) last t Q :
  wp (finally m last) t Q
  <-> wp m t (fun t' o => wp last t' (fun t'' o' => Q t'' (match o' with Done _ => o | Threw e => Threw e end))).
Proof.
  revert t; induction m as [a|e|a k IH]; intros t; cbn.
  - rewrite wp_bind. split; intros H; (eapply wp_mono; [exact H|]); by intros t' [].
  - rewrite wp_bind. split; intros H; (eapply wp_mono; [exact H|]); by intros t' [].
  - by setoid_rewrite IH.
Qed.

Lemma wp_perform a t Q : wp (perform a) t Q <-> forall r, Q (t ++ [Ev a r]) (Done r).
Proof. done. Qed.
Lemma wp_of_result {A} (r : result exn A) t Q : wp (of_result r) t Q <-> Q t (match r with Ok x => Done x | Raise e => Threw e end).
Proof. by destruct r. Qed.

(** Two facts about the same program, together. *)
Lemma wp_and {A} (p : prog A) t Q Q' : wp p t Q -> wp p t Q' -> wp p t (fun t' o => Q t' o /\ Q' t' o).
Proof. rewrite !wp_runs. auto. Qed.

(** What was in the trace stays there. *)
Lemma wp_extends {A} (p : prog A) t : wp p t (fun t' _ => exists t'', t' = t ++ t'').
Proof. apply wp_runs. eauto. Qed.

(** A program only adds events that satisfy [P]. *)
Definition emits {A} (P : event -> Prop) (p : prog A) : Prop := forall t o, runs p t o -> Forall P t.

Lemma wp_emits {A} (P : event -> Prop) (p : prog A) t :
  wp p t (fun t' _ => exists t'', t' = t ++ t'' /\ Forall P t'') <-> emits P p.
Proof.
  rewrite wp_runs. split.
  - intros H t' o Hr. destruct (H _ _ Hr) as (t'' & E & HF). by apply (inj (app t)) in E as <-.
  - intros H t' o Hr. eexists; split; [done|]. eauto.
Qed.

Lemma runs_bind {A B} (m : prog A) (f : A -> prog B) t o :
  runs (bind m f) t o
  <-> (exists t1 t2 a, t = t1 ++ t2 /\ runs m t1 (Done a) /\ runs (f a) t2 o)
      \/ (exists e, runs m t (Threw e) /\ o = Threw e).
Proof.
  revert t; induction m as [a|e|a k IH]; intros t; cbn.
  - split; [intros H; left; by exists [], t, a|].
    intros [(t1 & t2 & a' & -> & [-> [= <-]] & Hf)|(e & [_ [=]] & _)]; done.
  - split; [intros [-> ->]; right; by exists e|].
    intros [(t1 & t2 & a' & -> & [_ [=]] & _)|(e' & [-> [= <-]] & ->)]; done.
  - setoid_rewrite IH. split.
    + intros (r & t' & -> & [(t1 & t2 & b & -> & H1 & H2)|(e & He & ->)]).
      * left. exists (Ev a r :: t1), t2, b. split_and!; [done|by exists r, t1|done].
      * right. exists e. split; [by exists r, t'|done].
    + intros [(t1 & t2 & b & -> & (r & t' & -> & H1) & H2)|(e & (r & t' & -> & He) & ->)].
      * exists r, (t' ++ t2). split; [done|]. left. by exists t', t2, b.
      * exists r, t'. split; [done|]. right. by exists e.
Qed.

Lemma runs_catch {A} (m : prog A) h t o :
  runs (catch m h) t o
  <-> (exists a, runs m t (Done a) /\ o = Done a)
      \/ (exists t1 t2 e, t = t1 ++ t2 /\ runs m t1 (Threw e) /\ runs (h e) t2 o).
Proof.
  revert t; induction m as [a|e|a k IH]; intros t; cbn.
  - split; [intros [-> ->]; eauto|]. intros [(a' & [-> [= <-]] & ->)|(t1 & t2 & e & -> & [_ [=]] & _)]; done.
  - split; [intros H; right; by exists [], t, e|]. intros [(a' & [_ [=]] & _)|(t1 & t2 & e' & -> & [-> [= <-]] & Hh)]; done.
  - setoid_rewrite IH. split.
    + intros (r & t' & -> & [(b & Hb & ->)|(t1 & t2 & e & -> & H1 & H2)]).
      * left. exists b. eauto.
      * right. exists (Ev a r :: t1), t2, e. split_and!; eauto.
    + intros [(b & (r & t' & -> & Hb) & ->)|(t1 & t2 & e & -> & (r & t' & -> & H1) & H2)].
      * exists r, t'. eauto.
      * exists r, (t' ++ t2). split; [done|]. right. by exists t', t2, e.
Qed.

Lemma runs_try_else {A B} (m : prog A) h (f : A -> prog B) t o :
  runs (try_else m h f) t o
  <-> (exists t1 t2 a, t = t1 ++ t2 /\ runs m t1 (Done a) /\ runs (f a) t2 o)
      \/ (exists t1 t2 e, t = t1 ++ t2 /\ runs m t1 (Threw e) /\ runs (h e) t2 o).
Proof.
  revert t; induction m as [a|e|a k IH]; intros t; cbn.
  - split; [intros H; left; by exists [], t, a|]. intros [(t1 & t2 & a' & -> & [-> [= <-]] & Hx)|(t1 & t2 & e & -> & [_ [=]] & _)]; done.
  - split; [intros H; right; by exists [], t, e|]. intros [(t1 & t2 & a' & -> & [_ [=]] & _)|(t1 & t2 & e' & -> & [-> [= <-]] & Hx)]; done.
  - setoid_rewrite IH. split.
    + intros (r & t' & -> & [(t1 & t2 & x & -> & H1 & H2)|(t1 & t2 & x & -> & H1 & H2)]); [left|right];
        exists (Ev a r :: t1), t2, x; split_and!; eauto.
    + intros [(t1 & t2 & x & -> & (r & t' & -> & H1) & H2)|(t1 & t2 & x & -> & (r & t' & -> & H1) & H2)];
        exists r, (t' ++ t2); (split; [done|]); [left|right]; by exists t', t2, x.
Qed.
Lemma runs_finally {A} (m : prog A) last t o :
  runs (finally m last) t o
  -> exists t1 t2 o1 o2, t = t1 ++ t2 /\ runs m t1 o1 /\ runs last t2 o2 /\ o = match o2 with Done _ => o1 | Threw e => Threw e end.
Proof.
  revert t; induction m as [a|e|a k IH]; intros t; cbn.
  - intros [(t1 & t2 & [] & -> & H1 & [-> ->])|(e & H & ->)]%runs_bind; [exists [], t1, (Done a), (Done tt)|exists [], t, (Done a), (Threw e)];
      rewrite ?app_nil_r; done.
  - intros [(t1 & t2 & [] & -> & H1 & [-> ->])|(e' & H & ->)]%runs_bind; [exists [], t1, (Threw e), (Done tt)|exists [], t, (Threw e), (Threw e')];
      rewrite ?app_nil_r; done.
  - intros (r & t' & -> & (t1 & t2 & o1 & o2 & -> & H1 & H2 & ->)%IH). exists (Ev a r :: t1), t2, o1, o2. split_and!; eauto.
Qed.
Lemma emits_bind {A B} P (m : prog A) (f : A -> prog B) : emits P m -> (forall a, emits P (f a)) -> emits P (bind m f).
Proof.
  intros Hm Hf t o [(t1 & t2 & a & -> & H1 & H2)|(e & He & _)]%runs_bind; [|by eapply Hm].
  apply Forall_app; split; [by eapply Hm|by eapply Hf].
Qed.

Lemma emits_Ret {A} P (a : A) : emits P (Ret a).
Proof. intros t o [-> _]. constructor. Qed.
Lemma emits_Throw {A} P (e : exn) : emits P (Throw (A := A) e).
Proof. intros t o [-> _]. constructor. Qed.
Lemma emits_Do {A} P a (k : answer a -> prog A) : (forall r, P (Ev a r)) -> (forall r, emits P (k r)) -> emits P (Do a k).
Proof. intros Ha Hk t o (r & t' & -> & Hr). constructor; [done|by eapply Hk]. Qed.
Lemma emits_perform P a : (forall r, P (Ev a r)) -> emits P (perform a).
Proof. intros H. apply emits_Do; [done|]. intros r. apply emits_Ret. Qed.
Lemma emits_of_result {A} P (r : result exn A) : emits P (of_result r).
Proof. destruct r; [apply emits_Ret|apply emits_Throw]. Qed.
Lemma emits_catch {A} P (m : prog A) h : emits P m -> (forall e, emits P (h e)) -> emits P (catch m h).
Proof.
  intros Hm Hh. apply (wp_emits P _ []). apply wp_catch. eapply wp_mono; [apply (wp_emits P m []); done|].
  intros t o (t' & -> & Ht). destruct o as [a|e]; [eauto|]. rewrite <- (app_nil_r t').
  eapply wp_mono; [by apply (wp_emits P (h e) _)|]. intros t2 o2 (t3 & -> & Ht3). rewrite app_nil_r. eexists; split; [done|].
  by apply Forall_app.
Qed.
Lemma emits_finally {A} P (m : prog A) last : emits P m -> emits P last -> emits P (finally m last).
Proof.
  intros Hm Hl. apply (wp_emits P _ []). apply wp_finally. eapply wp_mono; [apply (wp_emits P m []); done|].
  intros t o (t' & -> & Ht). eapply wp_mono; [by apply (wp_emits P last _)|]. intros t2 o2 (t3 & -> & Ht3).
  eexists; split; [done|]. by apply Forall_app.
Qed.
Lemma emits_mapP {A B} P (f : A -> prog B) l : (forall x, x ∈ l -> emits P (f x)) -> emits P (mapP f l).
Proof.
  induction l as [|x l IH]; intros H; cbn; [apply emits_Ret|].
  apply emits_bind; [apply H, list_elem_of_here|]. intros y. apply emits_bind; [|intros ys; apply emits_Ret].
  apply IH. intros z Hz. apply H. by apply list_elem_of_further.
Qed.

(** ** Running against an environment *)

Fixpoint exec {A W} (env : forall a : action, W -> answer a * W) (p : prog A) (w : W) : list event * outcome A * W :=
  match p with
  | Ret a => ([], Done a, w)
  | Throw e => ([], Threw e, w)
  | Do a k => let '(r, w') := env a w in let '(t, o, w'') := exec env (k r) w' in (Ev a r :: t, o, w'')
  end.

Lemma exec_runs {A W} (env : forall a : action, W -> answer a * W) (p : prog A) w :
  runs p (exec env p w).1.1 (exec env p w).1.2.
Proof.
  revert w; induction p as [a|e|a k IH]; intros w; cbn; [done..|].
  destruct (env a w) as [r w'] eqn:E. specialize (IH r w'). destruct (exec env (k r) w') as [[t o] w'']. by exists r, t.
Qed.

(** ** Interleaving

    [asyncio.gather] of tasks that first take a permit of a semaphore.  A task
    waits for its permit, then runs to its end, then gives the permit back; one
    that is cancelled while it waits ends without having run. *)

Inductive task (A : Type) := Waiting (p : prog A) | Running (p : prog A) | Ended (o : outcome A).
Arguments Waiting {A}.
Arguments Running {A}.
Arguments Ended {A}.

Definition running {A} (x : task A) : bool := match x with Running _ => true | _ => false end.
Definition count {A} (f : A -> bool) (l : list A) : nat := length (List.filter f l).

Definition ended_as {A} (p : prog A) : option (outcome A) :=
  match p with Ret a => Some (Done a) | Throw e => Some (Threw e) | Do _ _ => None end.

Inductive pool_step {A} (permits : nat) : list (task A) -> list (nat * event) -> list (task A) -> Prop :=
| pool_drop i p e ts : ts !! i = Some (Waiting p) ->
    pool_step permits ts [] (<[i := Ended (Threw e)]> ts)
| pool_start i p ts : ts !! i = Some (Waiting p) -> (count running ts < permits)%nat ->
    pool_step permits ts [] (<[i := Running p]> ts)
| pool_await i a k r ts : ts !! i = Some (Running (Do a k)) ->
    pool_step permits ts [(i, Ev a r)] (<[i := Running (k r)]> ts)
| pool_finish i p o ts : ts !! i = Some (Running p) -> ended_as p = Some o ->
    pool_step permits ts [] (<[i := Ended o]> ts).

Inductive pool_steps {A} (permits : nat) : list (task A) -> list (nat * event) -> list (task A) -> Prop :=
| pool_refl ts : pool_steps permits ts [] ts
| pool_trans ts l ts' l' ts'' : pool_step permits ts l ts' -> pool_steps permits ts' l' ts'' -> pool_steps permits ts (l ++ l') ts''.

(** The events of one task. *)
Definition own (i : nat) (l : list (nat * event)) : list event := omap (fun e => if decide (e.1 = i) then Some e.2 else None) l.

Definition task_runs {A} (x : task A) (t : list event) (y : task A) : Prop :=
  match y with
  | Ended o =>
      match x with
      | Waiting p => runs p t o \/ (t = [] /\ exists e, o = Threw e)
      | Running p => runs p t o
      | Ended o' => t = [] /\ o = o'
      end
  | _ => True
  end.

Lemma own_app i l l' : own i (l ++ l') = own i l ++ own i l'.
Proof. unfold own. by rewrite omap_app. Qed.

Lemma pool_step_length {A} n (ts ts' : list (task A)) l : pool_step n ts l ts' -> length ts' = length ts.
Proof. destruct 1; by rewrite length_insert. Qed.

(** At most [permits] tasks run at any time. *)
Lemma count_insert {A} (f : A -> bool) (l : list A) i x y :
  l !! i = Some x -> (count f (<[i := y]> l) + (if f x then 1 else 0) = count f l + (if f y then 1 else 0))%nat.
Proof.
  revert i; induction l as [|z l IH]; intros [|i] H; try done.
  - injection H as ->. change (<[O := y]> (x :: l)) with (y :: l). unfold count. cbn [List.filter].
    destruct (f x), (f y); cbn [length]; lia.
  - specialize (IH i H). change (<[S i := y]> (z :: l)) with (z :: <[i := y]> l). unfold count in *. cbn [List.filter].
    destruct (f z); cbn [length]; lia.
Qed.

Lemma pool_bounded_step {A} n (ts ts' : list (task A)) l :
  pool_step n ts l ts' -> (count running ts <= n)%nat -> (count running ts' <= n)%nat.
Proof.
  destruct 1 as [i p e ts H|i p ts H Hn|i a k r ts H|i p o ts H _]; intros Hc.
  - pose proof (count_insert running ts i _ (Ended (Threw e)) H) as E. cbn [running] in E. lia.
  - pose proof (count_insert running ts i _ (Running p) H) as E. cbn [running] in E. lia.
  - pose proof (count_insert running ts i _ (Running (k r)) H) as E. cbn [running] in E. lia.
  - pose proof (count_insert running ts i _ (Ended o) H) as E. cbn [running] in E. lia.
Qed.

Lemma pool_bounded {A} n (ts ts' : list (task A)) l :
  pool_steps n ts l ts' -> (count running ts <= n)%nat -> (count running ts' <= n)%nat.
Proof. induction 1; eauto using pool_bounded_step. Qed.

Lemma ended_as_runs {A} (p : prog A) o : ended_as p = Some o -> runs p [] o.
Proof. destruct p; cbn; intros H; inversion H; done. Qed.

Lemma pool_step_task {A} n (ts ts' : list (task A)) l i x :
  pool_step n ts l ts' -> ts !! i = Some x ->
  exists y, ts' !! i = Some y /\ forall t z, task_runs y t z -> task_runs x (own i l ++ t) z.
Proof.
  assert (Hi : forall (ts : list (task A)) j y x, ts !! i = Some x -> i <> j -> <[j := y]> ts !! i = Some x).
  { intros. by rewrite list_lookup_insert_ne by done. }
  assert (Hj : forall (ts : list (task A)) y x, ts !! i = Some x -> <[i := y]> ts !! i = Some y).
  { intros ? ? ? Hx. rewrite list_lookup_insert. by rewrite decide_True by (split; [done|by eapply lookup_lt_Some]). }
  destruct 1 as [j p e ts H|j p ts H Hn|j a k r ts H|j p o ts H Ho]; intros Hx.
  all: destruct (decide (i = j)) as [->|Hne];
    [rewrite H in Hx; injection Hx as <-; eexists; split; [by eapply Hj|]
    |eexists; split; [by eapply Hi|]; unfold own; cbn; try rewrite decide_False by congruence; done].
  - intros t [ | |o]; cbn; [done|done|]. intros [-> ->]. right. eauto.
  - intros t [ | |o]; cbn; auto.
  - unfold own; cbn. rewrite decide_True by done. intros t [ | |o]; cbn; [done|done|]. intros Hr. by exists r, t.
  - intros t [ | |o']; cbn; [done|done|]. intros [-> ->]. by apply ended_as_runs.
Qed.

(** What a task did is a run of its own coroutine, whatever ran between,
    unless it never started. *)
Lemma pool_runs {A} n (ts ts' : list (task A)) l i x y :
  pool_steps n ts l ts' -> ts !! i = Some x -> ts' !! i = Some y -> task_runs x (own i l) y.
Proof.
  intros Hs; revert x; induction Hs as [ts|ts l ts1 l' ts2 H1 _ IH]; intros x Hx Hy.
  - rewrite Hx in Hy. injection Hy as <-. by destruct x.
  - destruct (pool_step_task _ _ _ _ _ _ H1 Hx) as (z & Hz & Himp). rewrite own_app. apply Himp. by apply IH.
Qed.

Lemma pool_steps_length {A} n (ts ts' : list (task A)) l : pool_steps n ts l ts' -> length ts' = length ts.
Proof. induction 1 as [|ts l ts1 l' ts2 H1 _ IH]; [done|]. by rewrite IH; eapply pool_step_length. Qed.

(** A pool that has a permit and work left can move. *)
Lemma pool_progress {A} n (ts : list (task A)) :
  (0 < n)%nat -> (forall a : action, inhabited (answer a)) -> Exists (fun x => match x with Ended _ => False | _ => True end) ts ->
  exists l ts', pool_step n ts l ts'.
Proof.
  intros Hn Hinh Hex. destruct (decide (Exists (fun x => running x = true) ts)) as [Hr|Hr].
  - apply list.Exists_exists in Hr as (x & Hx & E). apply list_elem_of_lookup in Hx as [i Hi]. destruct x as [|[a|e|a k]|]; cbn in E; try done.
    + eexists [], _. by eapply pool_finish.
    + eexists [], _. by eapply pool_finish.
    + destruct (Hinh a) as [r]. eexists _, _. by eapply (pool_await _ _ _ _ r).
  - assert (Hc : count running ts = 0%nat).
    { clear Hex. unfold count. induction ts as [|x ts IH]; [done|]. cbn. destruct (running x) eqn:E; [by destruct Hr; left|]. apply IH.
      intros H; apply Hr; by right. }
    apply list.Exists_exists in Hex as (x & Hx & E). apply list_elem_of_lookup in Hx as [i Hi]. destruct x as [p|p|o]; [|exfalso|done].
    + eexists [], _. eapply pool_start; [done|lia].
    + apply Hr, list.Exists_exists. eexists; split; [by eapply list_elem_of_lookup_2|done].
Qed.
End Prog.

Arguments prog {action} answer exn A.
Arguments Ret {action answer exn A}.
Arguments Throw {action answer exn A}.
Arguments Do {action answer exn A}.
Arguments event {action} answer.
Arguments Ev {action answer}.
Arguments outcome {exn} A.
Arguments Done {exn A}.
Arguments Threw {exn A}.
Arguments task {action} answer exn A.
Arguments Waiting {action answer exn A}.
Arguments Running {action answer exn A}.
Arguments Ended {action answer exn A}.
