(* ===== verification/Tools.v ===== *)
(** * Tools, their registry and the aliases of their parameters

    Models [kolega_code/tools/core.py], [registry.py] and [param_aliases.py]: what
    happens to the arguments of a call between the agent and the handler, and the
    table of tools.

    A handler is known by a name and by the signature that [inspect] reports.
    Definitions are objects that registries share and mark in place, so a tool
    holds the address of its definition in a heap.  Floats occur where a timeout
    is converted; they are [spec_float]s of binary64, and [float_of_text] reads a
    text as [float] does. *)

From Stdlib Require Import ZArith Lia SpecFloat.
From stdpp Require Import base gmap list strings numbers.
From S2P Require Import Prelude PyStr PyVal Json.

Abbreviation dict := (list (str * value)).

(** ** Exceptions

    The classes that the executor of tools tells apart, with [str(ex)]. *)
Inductive exn :=
| CancelledError
| ToolInputError (text : str)
| ToolError (text : str)
| OtherError (text : str).

Section Tools.
Variable repr : value -> str.
Variable float_of_text : str -> option spec_float.

(** ** Aliases *)

(** What [transform] returns: a value, [DROP], or an exception of its own. *)
Inductive transformed := Keep (v : value) | DROP | Raises (text : str).

Record ParamAlias := { canonical : option str; transform : option (value -> transformed) }.
Record AliasHit := { hit_tool : str; alias : str; action : str }.

(** [float(value)]: [None] for [TypeError] and [ValueError], and an infinity for
    the [OverflowError] of a large integer. *)
Definition as_float (v : value) : option spec_float :=
  match v with
  | VInt n => Some (binary_normalize 53 1024 n 0 false)
  | VBool b => Some (binary_normalize 53 1024 (Z.b2z b) 0 false)
  | VFloat m e => Some (binary_normalize 53 1024 m e false)
  | VStr s => float_of_text s
  | _ => None
  end.
Definition float_overflows (v : value) (f : spec_float) : bool :=
  match v, f with VInt _, S754_infinity _ => true | _, _ => false end.

(** [int(f)]: toward zero, and an exception when there is no such integer. *)
Definition int_of_float (f : spec_float) : transformed :=
  match f with
  | S754_zero _ => Keep (VInt 0)
  | S754_finite s m e =>
      let n := if 0 <=? e then Z.pos m * 2 ^ e else Z.pos m / 2 ^ (- e) in Keep (VInt (if s then - n else n))
  | S754_infinity _ => Raises (lit "cannot convert float infinity to integer")
  | S754_nan => Raises (lit "cannot convert float NaN to integer")
  end.

Definition float_of_Z (n : Z) : spec_float := binary_normalize 53 1024 n 0 false.
Definition _timeout_to_yield_ms (v : value) : transformed :=
  match as_float v with
  | None => DROP
  | Some number =>
      if float_overflows v number then Raises (lit "int too large to convert to float")
      else if SFltb number (float_of_Z 1000) then int_of_float (SFmul 53 1024 number (float_of_Z 1000)) else int_of_float number
  end.

Definition renames (to : string) : ParamAlias := {| canonical := Some (lit to); transform := None |}.
Definition PARAM_ALIASES : list (str * list (str * ParamAlias)) :=
  [(lit "exec_command",
      [(lit "timeout", {| canonical := Some (lit "yield_time_ms"); transform := Some _timeout_to_yield_ms |});
       (lit "cmd", renames "command");
       (lit "title", {| canonical := None; transform := None |})]);
   (lit "eval", [(lit "command", renames "code")]);
   (lit "read", [(lit "path", renames "file_path")]);
   (lit "write", [(lit "path", renames "file_path")]);
   (lit "read_memory", [(lit "file_path", renames "path")]);
   (lit "write_memory", [(lit "file_path", renames "path")]);
   (lit "edit_memory", [(lit "file_path", renames "path")]);
   (lit "delete_memory", [(lit "file_path", renames "path")])].

(** One round of the loop of [resolve_param_aliases]. *)
Definition resolve_one (tool_name : str) (aliases : list (str * ParamAlias)) (inputs : dict) (accepted_params : list str)
    (acc : dict * list AliasHit) (entry : str * value) : result str (dict * list AliasHit) :=
  let '(resolved, hits) := acc in
  let '(name, v) := entry in
  let hit action := hits ++ [{| hit_tool := tool_name; alias := name; action := action |}] in
  match dict_get aliases name with
  | None => Ok (dict_set resolved name v, hits)
  | Some al =>
      if str_in name accepted_params then Ok (dict_set resolved name v, hits)
      else match al.(canonical) with
           | None => Ok (resolved, hit (lit "discarded"))
           | Some c =>
               if dict_has inputs c then Ok (resolved, hit (lit "dropped (canonical `" ++ c ++ lit "` also present)"))
               else
                 let renamed v := Ok (dict_set resolved c v, hit (lit "renamed to `" ++ c ++ lit "`")) in
                 match al.(transform) with
                 | None => renamed v
                 | Some f =>
                     match f v with
                     | Keep v' => renamed v'
                     | DROP => Ok (resolved, hit (lit "discarded (value unusable as `" ++ c ++ lit "`)"))
                     | Raises text => Raise text
                     end
                 end
           end
  end.

Definition resolve_param_aliases (tool_name : str) (inputs : dict) (accepted_params : list str) : result str (dict * list AliasHit) :=
  match dict_get PARAM_ALIASES tool_name with
  | None => Ok (inputs, [])
  | Some aliases =>
      if existsb (fun kv => dict_has aliases kv.1) inputs
      then foldM (resolve_one tool_name aliases inputs accepted_params) inputs ([], [])
      else Ok (inputs, [])
  end.

(** ** Tools *)

Inductive param_kind := POSITIONAL_OR_KEYWORD | KEYWORD_ONLY | VAR_POSITIONAL | VAR_KEYWORD.
Record SigParameter := mkParameter { param_name : str; kind : param_kind; default_value : option value }.

Record Tool := mkTool {
  name : str;
  definition : nat;
  handler : str;
  signature : option (list SigParameter);   (* [None]: [inspect] cannot tell *)
  parallel_safe : bool;
  path_expander : option (str -> str);
  path_params : list str;
  has_log_debug : bool
}.

Definition accepted_params (t : Tool) : list str := match t.(signature) with Some ps => map param_name ps | None => [] end.

Definition _expand_path_params (t : Tool) (inputs : dict) : dict :=
  match t.(path_expander) with
  | None => inputs
  | Some expander =>
      foldl (fun inputs name => match get inputs name with VStr s => dict_set inputs name (VStr (expander s)) | _ => inputs end)
            inputs t.(path_params)
  end.

(** [signature.bind( **inputs)]: the first required parameter that is missing,
    else the first name that no parameter takes. *)
Definition is_required (p : SigParameter) : bool :=
  match p.(kind), p.(default_value) with
  | POSITIONAL_OR_KEYWORD, None | KEYWORD_ONLY, None => true
  | _, _ => false
  end.
Definition takes_keyword (p : SigParameter) (k : str) : bool :=
  match p.(kind) with
  | POSITIONAL_OR_KEYWORD | KEYWORD_ONLY => str_eqb p.(param_name) k
  | VAR_KEYWORD => true
  | VAR_POSITIONAL => false
  end.
Definition bind_error (ps : list SigParameter) (inputs : dict) : option str :=
  match List.find (fun p => is_required p && negb (dict_has inputs p.(param_name))) ps with
  | Some p => Some (lit "missing a required argument: " ++ repr (VStr p.(param_name)))
  | None =>
      match List.find (fun kv => negb (existsb (fun p => takes_keyword p kv.1) ps)) inputs with
      | Some kv => Some (lit "got an unexpected keyword argument " ++ repr (VStr kv.1))
      | None => None
      end
  end.

Definition usage_part (p : SigParameter) : list str :=
  if str_in p.(param_name) [lit "self"; lit "cls"] then []
  else match p.(kind), p.(default_value) with
       | VAR_POSITIONAL, _ => [lit "*" ++ p.(param_name)]
       | VAR_KEYWORD, _ => [lit "**" ++ p.(param_name)]
       | _, None => [p.(param_name)]
       | _, Some v => [p.(param_name) ++ lit "=" ++ repr v]
       end.
Definition _usage (t : Tool) (ps : list SigParameter) : str :=
  t.(name) ++ lit "(" ++ join (lit ", ") (concat (map usage_part ps)) ++ lit ")".

Definition _reject_malformed_call (t : Tool) (inputs : dict) : result exn unit :=
  match t.(signature) with
  | None => Ok tt
  | Some ps =>
      match bind_error ps inputs with
      | None => Ok tt
      | Some text => Raise (ToolInputError (lit "Invalid arguments for `" ++ t.(name) ++ lit "`: " ++ text ++ lit ". Usage: " ++ _usage t ps))
      end
  end.

(** What [Tool.call] logs for a hit. *)
Definition hit_message (h : AliasHit) : str := lit "Param alias on `" ++ hit_tool h ++ lit "`: `" ++ alias h ++ lit "` " ++ action h.

(** ** The registry *)

Record ToolPolicy := { include : option (list str); exclude : list str }.
Definition allows (p : ToolPolicy) (n : str) : bool :=
  if str_in n p.(exclude) then false
  else match p.(include) with Some l => str_in n l | None => true end.

Definition ToolRegistry := list (str * Tool).
Inductive registry_error := AlreadyRegistered (n : str) | KeyError (n : str).

Definition add_one (r : ToolRegistry) (t : Tool) : result registry_error ToolRegistry :=
  if dict_has r t.(name) then Raise (AlreadyRegistered t.(name)) else Ok (dict_set r t.(name) t).
(** [add] mutates: what was added before the exception stays. *)
Fixpoint add (r : ToolRegistry) (ts : list Tool) : ToolRegistry * option registry_error :=
  match ts with
  | [] => (r, None)
  | t :: ts' => match add_one r t with Ok r' => add r' ts' | Raise e => (r, Some e) end
  end.
Definition new_registry (ts : list Tool) : result registry_error ToolRegistry := foldM add_one ts [].

Definition lookup_tool (r : ToolRegistry) (n : str) : result registry_error Tool :=
  match dict_get r n with Some t => Ok t | None => Raise (KeyError n) end.
Definition names (r : ToolRegistry) : list str := map fst r.
Definition select (r : ToolRegistry) (p : ToolPolicy) : result registry_error ToolRegistry :=
  new_registry (List.filter (fun t => allows p t.(name)) (map snd r)).

(** *** Cache marks *)

Record ToolDefinition := { def_name : str; def_input_kind : str; cache_checkpoint : bool; cache_ttl : option str }.
Definition marked (on : bool) (d : ToolDefinition) : ToolDefinition :=
  {| def_name := def_name d; def_input_kind := def_input_kind d; cache_checkpoint := on;
     cache_ttl := if on then Some (lit "1h") else None |}.
Abbreviation heap := (gmap nat ToolDefinition).
(** The definitions and the heap in which they are marked. *)
Definition definitions (r : ToolRegistry) (h : heap) : list nat * heap :=
  let l := map (fun kt => definition kt.2) r in
  let h := foldl (fun h a => alter (marked false) a h) h l in
  (l, match rev l with a :: _ => alter (marked true) a h | [] => h end).
End Tools.
