(* ===== verification/Hooks.v ===== *)
(** * Lifecycle hooks

    Models [kolega_code/hooks]: the events, the matcher, the configuration files
    and their trust gate, what the backends read from their answers, the folding of
    outcomes, and the dispatcher.

    A backend that awaits is a program (Prog.v) over whatever awaits the host has;
    [HookCapabilities] is the record of what the host lends a hook, as in the
    source.  The regular expressions of matchers, [str.lower], [int] of a text,
    [repr] and indented JSON are parameters.  Killing a command that does not end
    is the business of [run_process]. *)

From stdpp Require Import base list strings numbers.
From Stdlib Require Import ZArith Lia.
From S2P Require Import Prelude PyStr PyVal Utf8 Json Shlex Prog Tools.

(** ** Events *)

Inductive HookEvent :=
| SESSION_START | SESSION_END | USER_PROMPT_SUBMIT | PRE_TOOL_USE | POST_TOOL_USE | STOP | SUBAGENT_STOP
| PRE_COMPACT | POST_COMPACT | NOTIFICATION.
#[global] Instance HookEvent_eq_dec : EqDecision HookEvent.
Proof. solve_decision. Defined.

Definition ALL_EVENTS : list HookEvent :=
  [SESSION_START; SESSION_END; USER_PROMPT_SUBMIT; PRE_TOOL_USE; POST_TOOL_USE; STOP; SUBAGENT_STOP; PRE_COMPACT; POST_COMPACT; NOTIFICATION].
Definition event_value (e : HookEvent) : str :=
  match e with
  | SESSION_START => lit "SessionStart" | SESSION_END => lit "SessionEnd" | USER_PROMPT_SUBMIT => lit "UserPromptSubmit"
  | PRE_TOOL_USE => lit "PreToolUse" | POST_TOOL_USE => lit "PostToolUse" | STOP => lit "Stop" | SUBAGENT_STOP => lit "SubagentStop"
  | PRE_COMPACT => lit "PreCompact" | POST_COMPACT => lit "PostCompact" | NOTIFICATION => lit "Notification"
  end.
(** [HookEvent(name)]. *)
Definition event_of_value (s : str) : option HookEvent := List.find (fun e => str_eqb (event_value e) s) ALL_EVENTS.
Definition TOOL_EVENTS (e : HookEvent) : bool := match e with PRE_TOOL_USE | POST_TOOL_USE => true | _ => false end.

Record LifecycleEvent := mkEvent {
  ev_name : HookEvent;
  payload : dict;
  session_id : option str;
  cwd : option str;
  permission_mode : option str
}.
Definition opt_value (o : option str) : value := match o with Some s => VStr s | None => VNone end.
Definition to_hook_input (e : LifecycleEvent) : dict :=
  dict_update [(lit "hook_event_name", VStr (event_value (ev_name e))); (lit "session_id", opt_value (session_id e));
               (lit "cwd", opt_value (cwd e)); (lit "permission_mode", opt_value (permission_mode e))] (payload e).
Definition with_payload (e : LifecycleEvent) (p : dict) : LifecycleEvent :=
  mkEvent (ev_name e) p (session_id e) (cwd e) (permission_mode e).

(** ** Outcomes *)

Record HookOutcome := mkOutcome {
  blocked : bool;
  reason : str;
  updated_input : option dict;
  updated_output : option str;
  additional_context : option str;
  end_turn : bool
}.
Definition empty_outcome : HookOutcome := mkOutcome false [] None None None false.
Definition deny (why : str) : HookOutcome :=
  mkOutcome true (if nonempty why then why else lit "Hook blocked the action.") None None None true.
(** [bool(x)] of an optional text. *)
Definition some_text (o : option str) : bool := match o with Some s => nonempty s | None => false end.
Definition is_some {A} (o : option A) : bool := match o with Some _ => true | None => false end.
Definition is_empty (o : HookOutcome) : bool :=
  negb (blocked o || is_some (updated_input o) || is_some (updated_output o) || some_text (additional_context o) || end_turn o).

(** The locals of [merge]. *)
Record merging := mkMerging {
  m_blocked : bool; m_reason : str; m_input : option dict; m_output : option str; contexts : list str; m_end : bool
}.
Definition merge_one (m : merging) (o : HookOutcome) : merging :=
  let fresh := blocked o && negb (m_blocked m) in
  mkMerging (m_blocked m || fresh) (if fresh then reason o else m_reason m)
    (match updated_input o with Some i => Some i | None => m_input m end)
    (match updated_output o with Some t => Some t | None => m_output m end)
    (match additional_context o with Some c => if nonempty c then contexts m ++ [c] else contexts m | None => contexts m end)
    (m_end m || end_turn o).
Definition merging_start : merging := mkMerging false [] None None [] false.
Definition merged (m : merging) : HookOutcome :=
  mkOutcome (m_blocked m) (m_reason m) (m_input m) (m_output m)
    (if nonempty (contexts m) then Some (join [NL] (contexts m)) else None) (m_end m || m_blocked m).
Definition merge (outcomes : list HookOutcome) : HookOutcome := merged (foldl merge_one merging_start outcomes).

(** ** Configuration *)

Inductive hook_type := HCommand | HPython | HPrompt | HAgent.
#[global] Instance hook_type_eq_dec : EqDecision hook_type.
Proof. solve_decision. Defined.

Record HookSpec := mkSpec {
  htype : hook_type;
  timeout : Z;
  scope : str;
  command : option str;
  callable : option str;
  prompt : option str;
  model : option str
}.

(** [HookConfigError], and the exceptions that are not: a hooks file that has
    them makes the loader raise. *)
Inductive config_error := HookConfigError (text : str) | AttributeError | TypeError | ValueError.

Section Config.
Variable repr : value -> str.
Variable int_of_text : str -> option Z.
(** [re.fullmatch(pattern, target)]; [None] is [re.error]. *)
Variable re_fullmatch : str -> str -> option bool.

Definition _SIMPLE_OR (c : Z) : bool :=
  ascii_digit c || ((65 <=? c) && (c <=? 90)) || ((97 <=? c) && (c <=? 122)) || (c =? 95) || (c =? 124).
(** [HookMatcher(pattern)]: what is not a string cannot be stripped. *)
Definition HookMatcher (v : value) : result config_error str :=
  if truthy v then match v with VStr s => Ok (strip s) | _ => Raise AttributeError end else Ok [].
Definition matches (pattern target : str) : bool :=
  if negb (nonempty pattern) || str_eqb pattern (lit "*") then true
  else if forallb _SIMPLE_OR pattern then str_in target (split_on 124 pattern)
  else match re_fullmatch pattern target with Some b => b | None => false end.

Definition _opt_str (v : value) : option str :=
  match v with
  | VNone => None
  | _ => let text := strip (py_str repr v) in if nonempty text then Some text else None
  end.

Definition type_of (s : str) : option hook_type :=
  if str_eqb s (lit "command") then Some HCommand else if str_eqb s (lit "python") then Some HPython
  else if str_eqb s (lit "prompt") then Some HPrompt else if str_eqb s (lit "agent") then Some HAgent else None.
Definition type_name (h : hook_type) : str :=
  match h with HCommand => lit "command" | HPython => lit "python" | HPrompt => lit "prompt" | HAgent => lit "agent" end.
Definition DEFAULT_TIMEOUTS (h : hook_type) : Z := match h with HCommand => 60 | HPython => 30 | HPrompt => 30 | HAgent => 60 end.
Definition REQUIRED_FIELD (h : hook_type) : str :=
  match h with HCommand => lit "command" | HPython => lit "callable" | HPrompt | HAgent => lit "prompt" end.
Definition required_value (s : HookSpec) : option str :=
  match htype s with HCommand => command s | HPython => callable s | HPrompt | HAgent => prompt s end.

(** [int(v)]. *)
Definition py_int (v : value) : result config_error Z :=
  match v with
  | VInt n => Ok n
  | VBool b => Ok (Z.b2z b)
  | VFloat m e => Ok (if 0 <=? e then m * 2 ^ e else Z.quot m (2 ^ (- e)))
  | VStr s => match int_of_text s with Some n => Ok n | None => Raise ValueError end
  | _ => Raise TypeError
  end.

Definition spec_from_dict (data : value) (sc : str) : result config_error HookSpec :=
  match data with
  | VDict d =>
      match type_of (strip (str_or_empty repr (get d (lit "type")))) with
      | None => Raise (HookConfigError (lit "unknown hook type " ++ repr (get d (lit "type"))
                  ++ lit " (expected one of ['agent', 'command', 'prompt', 'python'])"))
      | Some h =>
          t ← (if truthy (get d (lit "timeout")) then py_int (get d (lit "timeout")) else Ok (DEFAULT_TIMEOUTS h));
          let spec := mkSpec h t sc (_opt_str (get d (lit "command"))) (_opt_str (get d (lit "callable")))
                        (_opt_str (get d (lit "prompt"))) (_opt_str (get d (lit "model"))) in
          match required_value spec with
          | None => Raise (HookConfigError (type_name h ++ lit " hook requires a '" ++ REQUIRED_FIELD h ++ lit "' field"))
          | Some _ => Ok spec
          end
      end
  | _ => Raise (HookConfigError (lit "hook entry must be an object"))
  end.

Definition entries := list (HookEvent * list (str * list HookSpec)).
Record HookConfig := mkConfig { config_entries : entries; diagnostics : list str }.

Fixpoint entries_of (es : entries) (e : HookEvent) : list (str * list HookSpec) :=
  match es with [] => [] | (e', l) :: es' => if decide (e' = e) then l else entries_of es' e end.
(** [d.setdefault(e, []).extend(l)]. *)
Fixpoint extend_event (es : entries) (e : HookEvent) (l : list (str * list HookSpec)) : entries :=
  match es with
  | [] => [(e, l)]
  | (e', l') :: es' => if decide (e' = e) then (e', l' ++ l) :: es' else (e', l') :: extend_event es' e l
  end.
Definition specs_for (c : HookConfig) (e : HookEvent) (target : str) : list HookSpec :=
  concat (map (fun ms => if matches ms.1 target then ms.2 else []) (entries_of (config_entries c) e)).
Definition config_is_empty (c : HookConfig) : bool := negb (nonempty (config_entries c)).

(** [for x in v or []]: a dict gives its keys, a string its characters. *)
Definition iterate (v : value) : result config_error (list value) :=
  if negb (truthy v) then Ok []
  else match v with
       | VList l => Ok l
       | VDict d => Ok (map (fun kv => VStr kv.1) d)
       | VStr s => Ok (map (fun c => VStr [c]) s)
       | _ => Raise TypeError
       end.

Definition in_scope (sc text : str) : str := lit "[" ++ sc ++ lit "] " ++ text.

(** The inner loop, over the specs of an entry. *)
Definition parse_spec (sc event_name : str) (event : HookEvent) (acc : list HookSpec * list str) (raw : value)
    : result config_error (list HookSpec * list str) :=
  let '(specs, diagnostics) := acc in
  match spec_from_dict raw sc with
  | Raise (HookConfigError text) => Ok (specs, diagnostics ++ [in_scope sc (event_name ++ lit ": " ++ text ++ lit " " ++ [8212] ++ lit " skipped")])
  | Raise e => Raise e
  | Ok spec =>
      if bool_decide (htype spec = HAgent) && TOOL_EVENTS event
      then Ok (specs, diagnostics ++ [in_scope sc (event_name ++ lit ": 'agent' hooks are not allowed on tool events (recursion risk) "
                                                   ++ [8212] ++ lit " skipped")])
      else Ok (specs ++ [spec], diagnostics)
  end.
Definition parse_entry (sc event_name : str) (event : HookEvent) (acc : entries * list str) (entry : value)
    : result config_error (entries * list str) :=
  let '(parsed, diagnostics) := acc in
  match entry with
  | VDict d =>
      m ← HookMatcher (get d (lit "matcher"));
      raws ← iterate (get d (lit "hooks"));
      '(specs, diagnostics) ← foldM (parse_spec sc event_name event) raws ([], diagnostics);
      Ok (if nonempty specs then extend_event parsed event [(m, specs)] else parsed, diagnostics)
  | _ => Ok (parsed, diagnostics ++ [in_scope sc (event_name ++ lit ": entry must be an object " ++ [8212] ++ lit " ignored")])
  end.
Definition parse_event (sc : str) (acc : entries * list str) (item : str * value) : result config_error (entries * list str) :=
  let '(parsed, diagnostics) := acc in
  match event_of_value item.1 with
  | None => Ok (parsed, diagnostics ++ [in_scope sc (lit "unknown event '" ++ item.1 ++ lit "' " ++ [8212] ++ lit " ignored")])
  | Some event => l ← iterate item.2; foldM (parse_entry sc item.1 event) l (parsed, diagnostics)
  end.
Definition _parse_scope (blob : dict) (sc : str) (diagnostics : list str) : result config_error (entries * list str) :=
  let hooks_map := get blob (lit "hooks") in
  if negb (truthy hooks_map) then Ok ([], diagnostics)
  else match hooks_map with
       | VDict d => foldM (parse_event sc) d ([], diagnostics)
       | _ => Ok ([], diagnostics ++ [in_scope sc (lit "'hooks' must be an object " ++ [8212] ++ lit " ignored")])
       end.

(** A hooks file: [Unreadable] is an [OSError], [NotText] a [UnicodeDecodeError],
    [NotJson] a [JSONDecodeError]. *)
Inductive hooks_file := Absent | Unreadable | NotText | NotJson | Document (v : value).
Definition _read_hooks_file (path : str) (f : hooks_file) : result config_error (option dict) :=
  match f with
  | Absent => Ok None
  | Unreadable => Raise (HookConfigError (lit "could not read hooks file: " ++ path))
  | NotText => Raise ValueError
  | NotJson => Raise (HookConfigError (lit "hooks file is not valid JSON: " ++ path))
  | Document (VDict d) =>
      if eq_int (get d (lit "schema_version")) 1 then Ok (Some d)
      else Raise (HookConfigError (lit "unsupported hooks schema version " ++ repr (get d (lit "schema_version")) ++ lit " in " ++ path))
  | Document _ => Raise (HookConfigError (lit "hooks file must be a JSON object: " ++ path))
  end.

Definition absorb (sc : str) (acc : entries * list str) (blob : option dict) : result config_error (entries * list str) :=
  let '(merged, diagnostics) := acc in
  match blob with
  | None | Some [] => Ok (merged, diagnostics)
  | Some d =>
      '(parsed, diagnostics) ← _parse_scope d sc diagnostics;
      Ok (foldl (fun merged item => extend_event merged item.1 item.2) merged parsed, diagnostics)
  end.
(** [try: absorb(_read_hooks_file(path), scope) except HookConfigError]. *)
Definition absorb_file (sc path : str) (f : hooks_file) (acc : entries * list str) : result config_error (entries * list str) :=
  match blob ← _read_hooks_file path f; absorb sc acc blob with
  | Raise (HookConfigError text) => Ok (acc.1, acc.2 ++ [text])
  | r => r
  end.
(** [global_file] is [None] without a state directory. *)
Definition load_hook_config (global_path : str) (global_file : option hooks_file) (project_path : str) (project_file : hooks_file)
    (project_trusted : bool) : result config_error HookConfig :=
  '(merged, diagnostics) ←
    match global_file with Some f => absorb_file (lit "global") global_path f ([], []) | None => Ok ([], []) end;
  '(merged, diagnostics) ←
    match project_file with
    | Absent => Ok (merged, diagnostics)
    | f =>
        if negb project_trusted
        then Ok (merged, diagnostics ++ [lit "project hooks at " ++ project_path ++ lit " are disabled until this project is trusted"])
        else absorb_file (lit "project") project_path f (merged, diagnostics)
    end;
  Ok (mkConfig merged diagnostics).
End Config.

(** ** Backends *)

Section Backends.
Context {effect : Type} {answer : effect -> Type}.
Abbreviation program := (prog (action := effect) answer exn).
Variable repr : value -> str.
Variable lower : str -> str.
Variable float_repr : Z -> Z -> str.
(** [json.dumps(v, indent=2)]. *)
Variable pretty : value -> str.
(** [json.loads]. *)
Variable loads : str -> result json_error value.

(** How a command ended before its timeout, or that it did not. *)
Inductive command_end := Exited (code : Z) (stdout stderr : bytes) | TimedOut.
(** What a Python callable returned, once awaited. *)
Inductive python_result := POutcome (o : HookOutcome) | PNone | PDict (d : dict) | POther (type_name : str) | ImportFailed (text : str).

(** What the host lends a hook. *)
Record HookCapabilities := {
  run_process : list str -> bytes -> Z -> program command_end;
  call_python : str -> str -> LifecycleEvent -> Z -> program python_result;
  prompt_runner : option (str -> option str -> Z -> program str);
  agent_runner : option (str -> Z -> program str);
  log : option (str -> program unit)
}.

Definition HookExecutionError (text : str) : exn := OtherError text.
(** [try: m except Exception as e: h(str(e))]: a cancellation passes. *)
Definition except_Exception {A} (m : program A) (h : str -> program A) : program A :=
  catch m (fun e => match e with CancelledError => Throw CancelledError | ToolInputError t | ToolError t | OtherError t => h t end).

Definition _as_text (v : value) : option str :=
  match v with VNone => None | _ => let text := py_str repr v in if nonempty text then Some text else None end.
Definition as_dict (v : value) : option dict := match v with VDict d => Some d | _ => None end.

(** *** Commands *)

Definition _parse_command_stdout (text : str) : result exn HookOutcome :=
  let text := strip text in
  if negb (nonempty text) then Ok empty_outcome
  else match loads text with
       | Raise BadJson => Ok empty_outcome
       | Raise _ => Raise (OtherError (lit "Exceeds the limit for integer string conversion"))
       | Ok (VDict data) =>
           let hso := default [] (as_dict (get data (lit "hookSpecificOutput"))) in
           let is_denied := str_eqb (lower (str_or_empty repr (get hso (lit "permissionDecision")))) (lit "deny") in
           let why := if truthy (get hso (lit "permissionDecisionReason")) then get hso (lit "permissionDecisionReason")
                      else get data (lit "systemMessage") in
           Ok (mkOutcome is_denied (if is_denied then str_or_empty repr why else []) (as_dict (get hso (lit "updatedInput")))
                 (_as_text (get hso (lit "updatedToolOutput"))) (_as_text (get hso (lit "additionalContext")))
                 (match get data (lit "continue") with VBool false => true | _ => is_denied end))
       | Ok _ => Ok empty_outcome
       end.

Definition _run_command (e : LifecycleEvent) (s : HookSpec) (caps : HookCapabilities) : program HookOutcome :=
  match command s with
  | None => Throw (HookExecutionError (lit "command hook has no command"))
  | Some c =>
      match shlex_split c with
      | Raise NoClosingQuotation => Throw (OtherError (lit "No closing quotation"))
      | Raise NoEscapedCharacter => Throw (OtherError (lit "No escaped character"))
      | Ok argv =>
          let stdin := utf8 (dumps float_repr true (lit ", ") (lit ": ") (VDict (to_hook_input e))) in
          bind (run_process caps argv stdin (timeout s)) (fun ended =>
          match ended with
          | TimedOut => Throw (HookExecutionError (lit "command hook timed out after " ++ dec (timeout s) ++ lit "s"))
          | Exited code stdout stderr =>
              let detail := strip (decode_replace stderr) in
              if code =? 0 then of_result (_parse_command_stdout (decode_replace stdout))
              else if code =? 2 then Ret (deny (if nonempty detail then detail else lit "Hook blocked the action."))
              else Throw (HookExecutionError (lit "command hook exited " ++ dec code ++ lit ": " ++ detail))
          end)
      end
  end.

(** *** Python callables *)

Definition _coerce_outcome (r : python_result) : result exn HookOutcome :=
  match r with
  | POutcome o => Ok o
  | PNone => Ok empty_outcome
  | PDict d =>
      Ok (mkOutcome (truthy (get d (lit "blocked"))) (str_or_empty repr (get d (lit "reason"))) (as_dict (get d (lit "updated_input")))
            (_as_text (get d (lit "updated_output"))) (_as_text (get d (lit "additional_context")))
            (truthy (get d (lit "end_turn")) || truthy (get d (lit "blocked"))))
  | POther name => Raise (HookExecutionError (lit "python hook returned unsupported type " ++ name))
  | ImportFailed text => Raise (HookExecutionError text)
  end.
Definition _run_python (e : LifecycleEvent) (s : HookSpec) (caps : HookCapabilities) : program HookOutcome :=
  let target := default [] (callable s) in
  let '(module_name, attr) := partition 58 target in
  if negb (nonempty module_name) || negb (member 58 target) || negb (nonempty attr)
  then Throw (HookExecutionError (lit "invalid python callable " ++ repr (VStr target) ++ lit " (expected 'module.path:function')"))
  else bind (call_python caps module_name attr e (timeout s)) (fun r => of_result (_coerce_outcome r)).

(** *** Models *)

Fixpoint find_char (c : Z) (s : str) : option nat :=
  match s with [] => None | x :: s' => if x =? c then Some O else S <$> find_char c s' end.
Definition rfind_char (c : Z) (s : str) : option nat := (fun i => length s - 1 - i)%nat <$> find_char c (rev s).
(** [None] stands for [None]; other errors of the reader escape. *)
Definition try_loads (text : str) (otherwise : result exn (option value)) : result exn (option value) :=
  match loads text with
  | Ok v => Ok (Some v)
  | Raise BadJson => otherwise
  | Raise _ => Raise (OtherError (lit "Exceeds the limit for integer string conversion"))
  end.
Definition _extract_json_object (text : str) : result exn (option value) :=
  let text := strip text in
  if negb (nonempty text) then Ok None
  else try_loads text
         (match find_char 123 text, rfind_char 125 text with
          | Some start, Some stop =>
              if (start <? stop)%nat then try_loads (take (stop + 1 - start) (drop start text)) (Ok None) else Ok None
          | _, _ => Ok None
          end).
Definition _parse_ok_reason (text : str) : result exn HookOutcome :=
  let unparsed := Raise (HookExecutionError (lit "LLM hook did not return an {ok, reason} object: " ++ repr (VStr (slice_to text 200)))) in
  data ← _extract_json_object text;
  match data with
  | Some (VDict d) =>
      if negb (dict_has d (lit "ok")) then unparsed
      else if truthy (get d (lit "ok")) then Ok empty_outcome
      else let why := str_or_empty repr (get d (lit "reason")) in
           Ok (deny (if truthy (get d (lit "reason")) then why else lit "Hook blocked the action."))
  | _ => unparsed
  end.

Definition contains_text (p s : str) : bool := 0 <? count_sub p s.
Definition _render_prompt (template : str) (e : LifecycleEvent) : str :=
  let event_text := pretty (VDict (to_hook_input e)) in
  if contains_text (lit "$EVENT") template || contains_text (lit "$ARGUMENTS") template
  then replace (lit "$ARGUMENTS") event_text (replace (lit "$EVENT") event_text template)
  else template ++ [NL; NL] ++ lit "Event data:" ++ [NL] ++ event_text.

Definition _run_llm (e : LifecycleEvent) (s : HookSpec) (caps : HookCapabilities) : program HookOutcome :=
  let rendered := _render_prompt (default [] (prompt s)) e in
  bind (match htype s with
        | HPrompt => match prompt_runner caps with
                     | Some f => f rendered (model s) (timeout s)
                     | None => Throw (HookExecutionError (lit "prompt hook unavailable: no LLM runner in this host"))
                     end
        | _ => match agent_runner caps with
               | Some f => f rendered (timeout s)
               | None => Throw (HookExecutionError (lit "agent hook unavailable: no agent runner in this host"))
               end
        end) (fun text => of_result (_parse_ok_reason text)).

Definition run_hook (e : LifecycleEvent) (s : HookSpec) (caps : HookCapabilities) : program HookOutcome :=
  match htype s with
  | HCommand => _run_command e s caps
  | HPython => _run_python e s caps
  | _ => _run_llm e s caps
  end.

(** ** The dispatcher *)

Definition _log (caps : HookCapabilities) (text : str) : program unit :=
  match log caps with None => Ret tt | Some f => except_Exception (f text) (fun _ => Ret tt) end.

Definition type_label (h : hook_type) : str := type_name h.
(** The event a hook sees: the input as the hooks before it left it. *)
Definition fired_event (e : LifecycleEvent) (current_input : value) : LifecycleEvent :=
  if TOOL_EVENTS (ev_name e) && match current_input with VNone => false | _ => true end
  then with_payload e (dict_set (payload e) (lit "tool_input") current_input) else e.
Definition attempt (e : LifecycleEvent) (s : HookSpec) (caps : HookCapabilities) (current_input : value) : program HookOutcome :=
  except_Exception (run_hook (fired_event e current_input) s caps) (fun text =>
    bind (_log caps (lit "hook error [" ++ event_value (ev_name e) ++ lit "/" ++ type_label (htype s) ++ lit "]: " ++ text))
      (fun _ => Ret empty_outcome)).
Definition next_input (current_input : value) (o : HookOutcome) : value :=
  match updated_input o with Some i => VDict i | None => current_input end.
Fixpoint dispatch_loop (e : LifecycleEvent) (caps : HookCapabilities) (specs : list HookSpec) (current_input : value)
    (outcomes : list HookOutcome) : program (list HookOutcome) :=
  match specs with
  | [] => Ret outcomes
  | s :: specs' =>
      bind (attempt e s caps current_input) (fun o =>
        if blocked o then Ret (outcomes ++ [o])
        else dispatch_loop e caps specs' (next_input current_input o) (outcomes ++ [o]))
  end.

(** [nested] is [in_hook()]. *)
Definition dispatch (nested : bool) (specs : list HookSpec) (e : LifecycleEvent) (caps : HookCapabilities) : program HookOutcome :=
  if nested then Ret empty_outcome
  else match specs with
       | [] => Ret empty_outcome
       | _ => bind (dispatch_loop e caps specs (get (payload e) (lit "tool_input")) []) (fun outcomes => Ret (merge outcomes))
       end.
End Backends.
