(* ===== verification/HooksFacts.v ===== *)
(** * Facts about hooks

    What merging outcomes gives, what a dispatch runs and in which order, that a
    hook which fails changes nothing, and which hooks a configuration can hold. *)

From stdpp Require Import base list strings numbers sets.
From Stdlib Require Import ZArith Lia.
From S2P Require Import Prelude PyStr PyVal Json Prog Tools Hooks.

(** An invariant of a loop that may raise. *)
Lemma foldM_inv {E A B} (P : A -> Prop) (f : A -> B -> result E A) l a b :
  foldM f l a = Ok b -> P a -> (forall acc x acc', P acc -> f acc x = Ok acc' -> P acc') -> P b.
Proof.
  intros H Ha Hf; revert a H Ha; induction l as [|x l IH]; intros a; cbn; [by intros [= <-]|].
  destruct (f a x) as [a'|] eqn:Efx; [|done]. intros H Ha. apply (IH a' H). by eapply Hf.
Qed.

(** ** Merging *)

(** The last replacement of a list. *)
Definition last_some {A B} (f : A -> option B) (l : list A) : option B :=
  foldl (fun acc x => match f x with Some y => Some y | None => acc end) None l.
Definition texts (os : list HookOutcome) : list str :=
  concat (map (fun o => match additional_context o with Some c => if nonempty c then [c] else [] | None => [] end) os).

Lemma last_some_app {A B} (f : A -> option B) l l' :
  last_some f (l ++ l') = match last_some f l' with Some y => Some y | None => last_some f l end.
Proof.
  unfold last_some. rewrite foldl_app. generalize (foldl (fun acc x => match f x with Some y => Some y | None => acc end) None l).
  intros a. induction l' as [|x l' IH] using rev_ind; [done|]. rewrite !foldl_app. cbn. by destruct (f x).
Qed.

Lemma merge_spec os :
  let m := foldl merge_one merging_start os in
  m_blocked m = existsb blocked os
  /\ m_reason m = match List.find blocked os with Some o => reason o | None => [] end
  /\ m_input m = last_some updated_input os
  /\ m_output m = last_some updated_output os
  /\ contexts m = texts os
  /\ m_end m = existsb end_turn os.
Proof.
  induction os as [|o os IH] using rev_ind; [done|]. cbn zeta in *. rewrite foldl_app. cbn [foldl].
  destruct (foldl merge_one merging_start os) as [b r i u c e]. cbn [m_blocked m_reason m_input m_output contexts m_end] in IH.
  destruct IH as (-> & -> & -> & -> & -> & ->). rewrite !existsb_app. cbn [existsb]. rewrite !orb_false_r.
  unfold texts. rewrite map_app, concat_app, !last_some_app. cbn [map concat]. rewrite app_nil_r.
  assert (Hf : forall l, existsb blocked l = match List.find blocked l with Some _ => true | None => false end).
  { induction l as [|x l IHl]; [done|]. cbn. by destruct (blocked x). }
  assert (Happ : List.find blocked (os ++ [o]) = match List.find blocked os with Some x => Some x | None => if blocked o then Some o else None end).
  { clear. induction os as [|x os IHo]; cbn; [by destruct (blocked o)|]. by destruct (blocked x). }
  rewrite Happ, Hf. unfold merge_one, last_some. cbn.
  split_and!; try done.
  - destruct (List.find blocked os), (blocked o); done.
  - destruct (List.find blocked os), (blocked o); done.
  - by destruct (updated_input o).
  - by destruct (updated_output o).
  - destruct (additional_context o) as [[|]|]; cbn; by rewrite ?app_nil_r.
Qed.

Lemma merge_blocked os : blocked (merge os) = existsb blocked os.
Proof. unfold merge, merged. destruct (merge_spec os) as (H & _). exact H. Qed.
Lemma merge_input os : updated_input (merge os) = last_some updated_input os.
Proof. unfold merge, merged. destruct (merge_spec os) as (_ & _ & H & _). exact H. Qed.
Lemma merge_reason os : reason (merge os) = match List.find blocked os with Some o => reason o | None => [] end.
Proof. unfold merge, merged. destruct (merge_spec os) as (_ & H & _). exact H. Qed.
Lemma merge_context os : additional_context (merge os) = if nonempty (texts os) then Some (join [NL] (texts os)) else None.
Proof. unfold merge, merged. cbn. destruct (merge_spec os) as (_ & _ & _ & _ & -> & _). done. Qed.
Lemma merge_end os : end_turn (merge os) = existsb end_turn os || existsb blocked os.
Proof. unfold merge, merged. cbn. destruct (merge_spec os) as (-> & _ & _ & _ & _ & ->). done. Qed.

(** ** Dispatch *)

Section Dispatch.
Context {effect : Type} {answer : effect -> Type}.
Variable repr : value -> str.
Variable lower : str -> str.
Variable float_repr : Z -> Z -> str.
Variable pretty : value -> str.
Variable loads : str -> result json_error value.
Abbreviation attempt := (attempt (answer := answer) repr lower float_repr pretty loads).
Abbreviation dispatch := (dispatch (answer := answer) repr lower float_repr pretty loads).
Abbreviation dispatch_loop := (dispatch_loop (answer := answer) repr lower float_repr pretty loads).

(** Only a cancellation leaves [except Exception]. *)
Definition only_cancelled {A} (p : prog answer exn A) : Prop := forall t e, runs p t (Threw e) -> e = CancelledError.

Lemma only_cancelled_except {A} (m : prog answer exn A) h :
  (forall text, only_cancelled (h text)) -> only_cancelled (except_Exception m h).
Proof.
  intros Hh t e [(a & _ & [=])|(t1 & t2 & e' & -> & _ & H2)]%runs_catch.
  destruct e'; cbn in H2; [destruct H2 as [_ [= <-]]; done|by eapply Hh..].
Qed.
Lemma only_cancelled_bind {A B} (m : prog answer exn A) (f : A -> prog answer exn B) :
  only_cancelled m -> (forall a, only_cancelled (f a)) -> only_cancelled (bind m f).
Proof. intros Hm Hf t e [(t1 & t2 & a & -> & _ & H2)|(e' & H & [= <-])]%runs_bind; [by eapply Hf|by eapply Hm]. Qed.
Lemma only_cancelled_Ret {A} (a : A) : only_cancelled (Ret a).
Proof. intros t e [_ [=]]. Qed.

Lemma log_safe (caps : @HookCapabilities effect answer) text : only_cancelled (_log caps text).
Proof.
  unfold _log. destruct (log caps); [|apply only_cancelled_Ret]. apply only_cancelled_except. intros; apply only_cancelled_Ret.
Qed.
Lemma attempt_safe e s (caps : @HookCapabilities effect answer) v : only_cancelled (attempt e s caps v).
Proof.
  apply only_cancelled_except. intros text. apply only_cancelled_bind; [apply log_safe|]. intros; apply only_cancelled_Ret.
Qed.
Lemma dispatch_loop_safe e (caps : @HookCapabilities effect answer) ss v os : only_cancelled (dispatch_loop e caps ss v os).
Proof.
  revert v os; induction ss as [|s ss IH]; intros v os; cbn; [apply only_cancelled_Ret|].
  apply only_cancelled_bind; [apply attempt_safe|]. intros o. destruct (blocked o); [apply only_cancelled_Ret|apply IH].
Qed.
Lemma dispatch_safe nested ss e (caps : @HookCapabilities effect answer) : only_cancelled (dispatch nested ss e caps).
Proof.
  unfold Hooks.dispatch. destruct nested; [apply only_cancelled_Ret|]. destruct ss; [apply only_cancelled_Ret|].
  apply only_cancelled_bind; [apply dispatch_loop_safe|]. intros; apply only_cancelled_Ret.
Qed.

(** The input that a hook sees after the outcomes [os]. *)
Definition input_after (e : LifecycleEvent) (os : list HookOutcome) : value :=
  foldl next_input (get (payload e) (lit "tool_input")) os.

(** Hooks run in order until one blocks; each gets the input of those before. *)
Definition hooks_ran (e : LifecycleEvent) (caps : @HookCapabilities effect answer) (ss : list HookSpec) (v : value)
    (os : list HookOutcome) (ts : list (list (event answer))) : Prop :=
  length ts = length os
  /\ (forall i o t, os !! i = Some o -> ts !! i = Some t ->
        exists s, ss !! i = Some s /\ runs (attempt e s caps (foldl next_input v (take i os))) t (Done o))
  /\ (forall i o, os !! i = Some o -> blocked o = true -> S i = length os)
  /\ (length os = length ss \/ existsb blocked os = true).

Lemma dispatch_loop_ran e (caps : @HookCapabilities effect answer) ss v acc t all :
  runs (dispatch_loop e caps ss v acc) t (Done all) ->
  exists os ts, all = acc ++ os /\ t = concat ts /\ hooks_ran e caps ss v os ts.
Proof.
  revert v acc t; induction ss as [|s ss IH]; intros v acc t; cbn.
  - intros [-> [= ->]]. exists [], []. rewrite app_nil_r. split_and!; [done..|]. split_and!; auto. all: by intros ? ? ?.
  - intros [(t1 & t2 & o & -> & H1 & H2)|(e' & _ & [=])]%runs_bind. destruct (blocked o) eqn:Eb.
    + destruct H2 as [-> [= ->]]. exists [o], [t1]. rewrite app_nil_r. split_and!; [done|cbn; by rewrite app_nil_r|].
      split_and!; [done| | |right; cbn; by rewrite Eb].
      * intros [|i] o' t'; cbn; [intros [= <-] [= <-]; by exists s|done].
      * intros [|i] o'; cbn; done.
    + apply IH in H2 as (os & ts & -> & -> & Hl & Hr & Hb & Hc). exists (o :: os), (t1 :: ts). split_and!; [by rewrite <- app_assoc|done|].
      split_and!; [cbn; congruence| | |].
      * intros [|i] o' t'; cbn; [intros [= <-] [= <-]; by exists s|]. apply Hr.
      * intros [|i] o'; cbn; [intros [= <-]; congruence|]. intros Ho Hbl. f_equal. by eapply Hb.
      * cbn. rewrite Eb. destruct Hc as [->|Hc]; [by left|by right].
Qed.

(** One hook: what it returned, or nothing when it failed. *)
Definition hook_answered (e : LifecycleEvent) (s : HookSpec) (caps : @HookCapabilities effect answer) (o : HookOutcome)
    (t : list (event answer)) : Prop :=
  runs (run_hook repr lower float_repr pretty loads e s caps) t (Done o)
  \/ (o = empty_outcome
      /\ exists t1 t2 ex, t = t1 ++ t2 /\ runs (run_hook repr lower float_repr pretty loads e s caps) t1 (Threw ex) /\ ex <> CancelledError).

Lemma attempt_answered e s caps v t o :
  runs (attempt e s caps v) t (Done o) -> hook_answered (fired_event e v) s caps o t.
Proof.
  intros [(o' & H & [= <-])|(t1 & t2 & ex & -> & H1 & H2)]%runs_catch; [by left|]. right.
  destruct ex; cbn in H2; [by destruct H2 as [_ [=]]|..].
  all: apply runs_bind in H2 as [(u1 & u2 & [] & -> & _ & [-> [= ->]])|(? & _ & [=])]; split; [done|]; eauto 7.
Qed.

(** C26: A dispatch raises nothing but a cancellation.  Otherwise the hooks ran in
    the order of the configuration, each on the tool input as those before it left
    it, and what they returned is merged, where a hook that failed counts as one
    that decided nothing; the first to block was the last to run and gives the
    reason, and without a block all of them ran. *)
Theorem dispatch_outcome nested ss e (caps : @HookCapabilities effect answer) t o :
  runs (dispatch nested ss e caps) t o ->
  o = Threw CancelledError
  \/ exists os ts, o = Done (merge os) /\ t = concat ts /\ length ts = length os
       /\ (if nested then os = [] else blocked (merge os) = true \/ length os = length ss)
       /\ (forall i oi ti, os !! i = Some oi -> ts !! i = Some ti ->
             exists s, ss !! i = Some s /\ hook_answered (fired_event e (input_after e (take i os))) s caps oi ti)
       /\ (forall i oi, os !! i = Some oi -> blocked oi = true -> S i = length os /\ reason (merge os) = reason oi).
Proof.
  intros H. destruct o as [out|ex]; [right|left; f_equal; by eapply dispatch_safe].
  unfold Hooks.dispatch in H. destruct nested; [|destruct ss as [|s ss]].
  { destruct H as [-> [= ->]]. by exists [], []. }
  { destruct H as [-> [= ->]]. exists [], []. split_and!; auto; done. }
  apply runs_bind in H as [(t1 & t2 & os & -> & H & [-> [= ->]])|(? & _ & [=])].
  apply dispatch_loop_ran in H as (os' & ts & -> & -> & Hl & Hr & Hb & Hc). exists os', ts. rewrite app_nil_r. cbn [app].
  rewrite merge_blocked. split_and!; [done..|destruct Hc; auto| |].
  - intros i oi ti Ho Ht. destruct (Hr i oi ti Ho Ht) as (s' & Hs & Hrun). exists s'. split; [done|]. by apply attempt_answered.
  - intros i oi Ho Hbl. split; [by eapply Hb|]. rewrite merge_reason. clear -Ho Hbl Hb.
    assert (Hlast : forall j oj, os' !! j = Some oj -> blocked oj = true -> j = i).
    { intros j oj Hj Hbj. pose proof (Hb _ _ Ho Hbl). pose proof (Hb _ _ Hj Hbj). lia. }
    clear Hb. revert i Ho Hlast. induction os' as [|x os' IH]; intros i Ho Hlast; [done|]. cbn. destruct (blocked x) eqn:Ex.
    + specialize (Hlast 0%nat x eq_refl Ex) as <-. by injection Ho as ->.
    + destruct i as [|i]; [cbn in Ho; congruence|]. apply (IH i); [done|]. intros j oj Hj Hbj.
      specialize (Hlast (S j) oj Hj Hbj). lia.
Qed.
End Dispatch.

(** ** Configuration *)

Section Config.
Variable repr : value -> str.
Variable int_of_text : str -> option Z.

Definition every (P : HookEvent -> HookSpec -> Prop) (es : entries) : Prop :=
  Forall (fun el => Forall (fun ms => Forall (P el.1) ms.2) el.2) es.

Lemma every_extend P es e l : every P es -> Forall (fun ms => Forall (P e) ms.2) l -> every P (extend_event es e l).
Proof.
  intros Hes Hl. induction Hes as [|[e' l'] es H Hes IH]; cbn; [by repeat constructor|].
  destruct (decide (e' = e)) as [->|]; constructor; try done. by apply Forall_app.
Qed.

Definition spec_ok (sc : str) (e : HookEvent) (s : HookSpec) : Prop :=
  required_value s <> None /\ scope s = sc /\ (htype s = HAgent -> TOOL_EVENTS e = false).

Lemma spec_from_dict_ok v sc s : spec_from_dict repr int_of_text v sc = Ok s -> required_value s <> None /\ scope s = sc.
Proof.
  unfold spec_from_dict. destruct v; try done. destruct (type_of _); [|done]. intros (t & _ & H)%bind_Ok.
  destruct (required_value _) eqn:E; [|done]. injection H as <-. by rewrite E.
Qed.

Lemma parse_spec_ok sc name e acc v acc' :
  Forall (spec_ok sc e) acc.1 -> parse_spec repr int_of_text sc name e acc v = Ok acc' -> Forall (spec_ok sc e) acc'.1.
Proof.
  destruct acc as [specs ds]. cbn. intros Hs. unfold parse_spec. destruct (spec_from_dict _ _ v sc) as [s|[]] eqn:E; try done; [|by intros [= <-]].
  apply spec_from_dict_ok in E as [Hr Hsc]. destruct (bool_decide (htype s = HAgent)) eqn:Ea; destruct (TOOL_EVENTS e) eqn:Et; cbn.
  1: by intros [= <-].
  all: intros [= <-]; cbn; apply Forall_app; split; [done|]; repeat constructor; try done.
  apply bool_decide_eq_false in Ea. congruence.
Qed.

Lemma parse_entry_ok sc name e acc v acc' :
  every (spec_ok sc) acc.1 -> parse_entry repr int_of_text sc name e acc v = Ok acc' -> every (spec_ok sc) acc'.1.
Proof.
  destruct acc as [es ds]. cbn. intros Hes. unfold parse_entry. destruct v; try (by intros [= <-]).
  intros (m & _ & (raws & _ & ([specs ds'] & Hf & H)%bind_Ok)%bind_Ok)%bind_Ok.
  assert (Hs : Forall (spec_ok sc e) specs).
  { change specs with (specs, ds').1. eapply (foldM_inv (fun a => Forall (spec_ok sc e) a.1)); [exact Hf|by constructor|].
    intros ? ? ?; apply parse_spec_ok. }
  destruct (nonempty specs); injection H as <-; [|done]. by apply every_extend; [|repeat constructor].
Qed.

Lemma parse_scope_ok blob sc ds es ds' :
  _parse_scope repr int_of_text blob sc ds = Ok (es, ds') -> every (spec_ok sc) es.
Proof.
  unfold _parse_scope. destruct (negb _); [intros [= <- _]; constructor|]. destruct (get blob (lit "hooks")); try (by intros [= <- _]; constructor).
  intros H. change es with (es, ds').1. eapply (foldM_inv (fun a => every (spec_ok sc) a.1)); [exact H|by constructor|].
  intros [es0 ds0] item acc' Hes. unfold parse_event. destruct (event_of_value item.1); [|by intros [= <-]].
  intros (l & _ & Hf)%bind_Ok. eapply (foldM_inv (fun a => every (spec_ok sc) a.1)); [exact Hf|exact Hes|]. intros ? ? ?; apply parse_entry_ok.
Qed.

(** *** The scopes *)

Lemma entries_of_extend es e l e' : entries_of (extend_event es e l) e' = entries_of es e' ++ (if decide (e = e') then l else []).
Proof.
  induction es as [|[e0 l0] es IH]; cbn; [by destruct (decide (e = e'))|].
  destruct (decide (e0 = e)) as [He|He]; cbn; repeat destruct (decide _); cbn in *; subst; try done; by rewrite app_nil_r.
Qed.
(** Events have one entry each. *)
Definition distinct_events (es : entries) : Prop := NoDup (map fst es).
Lemma extend_keys es e l x : x ∈ map fst (extend_event es e l) <-> x ∈ map fst es \/ x = e.
Proof.
  induction es as [|[e0 l0] es IH]; cbn; [rewrite elem_of_cons; set_solver|].
  destruct (decide (e0 = e)) as [->|He]; cbn; rewrite !elem_of_cons; [set_solver|]. rewrite IH. set_solver.
Qed.
Lemma extend_distinct es e l : distinct_events es -> distinct_events (extend_event es e l).
Proof.
  unfold distinct_events. induction es as [|[e0 l0] es IH]; cbn; intros H; [repeat constructor; set_solver|].
  apply list.NoDup_cons in H as [Hn H]. destruct (decide (e0 = e)) as [->|He]; cbn; constructor; try done; [|by apply IH].
  rewrite extend_keys. naive_solver.
Qed.
Lemma entries_of_absent es e : e ∉ map fst es -> entries_of es e = [].
Proof.
  induction es as [|[e0 l0] es IH]; cbn; [done|]. rewrite elem_of_cons. intros H.
  destruct (decide (e0 = e)) as [->|]; [naive_solver|]. apply IH. naive_solver.
Qed.
Lemma entries_of_absorbed es parsed e :
  distinct_events parsed ->
  entries_of (foldl (fun merged item => extend_event merged item.1 item.2) es parsed) e = entries_of es e ++ entries_of parsed e.
Proof.
  unfold distinct_events. revert es; induction parsed as [|[e0 l0] parsed IH]; intros es; cbn; [by rewrite app_nil_r|].
  intros [Hn Hd]%list.NoDup_cons. rewrite IH, entries_of_extend by done. rewrite <- app_assoc. f_equal.
  destruct (decide (e0 = e)) as [->|]; [|done]. by rewrite (entries_of_absent parsed), app_nil_r by done.
Qed.
Lemma absorbed_distinct es parsed :
  distinct_events es -> distinct_events (foldl (fun merged item => extend_event merged item.1 item.2) es parsed).
Proof. revert es; induction parsed as [|x parsed IH]; intros es H; cbn; [done|]. by apply IH, extend_distinct. Qed.

Lemma parse_scope_distinct blob sc ds es ds' : _parse_scope repr int_of_text blob sc ds = Ok (es, ds') -> distinct_events es.
Proof.
  unfold _parse_scope. destruct (negb _); [intros [= <- _]; constructor|]. destruct (get blob (lit "hooks")); try (by intros [= <- _]; constructor).
  intros H. change es with (es, ds').1. eapply (foldM_inv (fun a => distinct_events a.1)); [exact H|by constructor|].
  intros [es0 ds0] item acc' Hes. unfold parse_event. destruct (event_of_value item.1); [|by intros [= <-]].
  intros (l & _ & Hf)%bind_Ok. eapply (foldM_inv (fun a => distinct_events a.1)); [exact Hf|exact Hes|].
  intros [es1 ds1] v acc2 Hes1. unfold parse_entry. destruct v; try (by intros [= <-]).
  intros (m & _ & (raws & _ & ([specs ds2] & _ & H2)%bind_Ok)%bind_Ok)%bind_Ok.
  destruct (nonempty specs); injection H2 as <-; [by apply extend_distinct|done].
Qed.

Variable re_fullmatch : str -> str -> option bool.
Abbreviation specs_in := (fun es e target => specs_for re_fullmatch (mkConfig es []) e target).

(** What one file adds: well-formed specs of its scope, after those there are. *)
Lemma absorb_file_adds sc path f es ds es' ds' :
  absorb_file repr int_of_text sc path f (es, ds) = Ok (es', ds') -> distinct_events es ->
  distinct_events es'
  /\ exists added, every (spec_ok sc) added /\ (f = Hooks.Absent -> added = [])
      /\ forall e target, specs_in es' e target = specs_in es e target ++ specs_in added e target.
Proof.
  intros H Hd. assert (Hnone : es' = es -> distinct_events es' /\ exists added, every (spec_ok sc) added /\ (f = Hooks.Absent -> added = [])
    /\ forall e target, specs_in es' e target = specs_in es e target ++ specs_in added e target).
  { intros ->. split; [done|]. exists []. split_and!; [constructor|done|]. intros. unfold specs_for. cbn. by rewrite app_nil_r. }
  unfold absorb_file in H. destruct (blob ← _read_hooks_file repr path f; absorb repr int_of_text sc (es, ds) blob) as [[a b]|[]] eqn:E; try done.
  2: { injection H as <- _. by apply Hnone. }
  injection H as -> ->. apply bind_Ok in E as ([[|kv d]|] & Hread & E); cbn [absorb] in E; [injection E as <- _; by apply Hnone| |injection E as <- _; by apply Hnone].
  apply bind_Ok in E as ([parsed ds2] & Hp & [= <- <-]). split; [by apply absorbed_distinct|]. exists parsed. split_and!.
  - by eapply parse_scope_ok.
  - intros ->. by cbn in Hread.
  - intros e target. unfold specs_for. cbn [config_entries]. rewrite entries_of_absorbed by (by eapply parse_scope_distinct).
    by rewrite map_app, concat_app.
Qed.

(** C27: A configuration that loads holds only hooks that have what their type needs
    and no agent hook on a tool event.  The hooks of an event are those of the
    global file and then those of the project file, and the project file adds
    nothing until the project is trusted. *)
Theorem hooks_loaded gp gf pp pf trusted cfg :
  load_hook_config repr int_of_text gp gf pp pf trusted = Ok cfg ->
  exists global project,
    every (spec_ok (lit "global")) global /\ every (spec_ok (lit "project")) project
    /\ (trusted = false -> project = []) /\ (gf = None -> global = [])
    /\ forall e target, specs_for re_fullmatch cfg e target = specs_in global e target ++ specs_in project e target.
Proof.
  unfold load_hook_config. intros ([es ds] & Hg & ([es2 ds2] & Hp & [= <-])%bind_Ok)%bind_Ok.
  assert (Hg' : distinct_events es /\ exists g, every (spec_ok (lit "global")) g /\ (gf = None -> g = [])
    /\ forall e target, specs_in es e target = specs_in g e target).
  { destruct gf as [f|]; [|injection Hg as <- _; split; [constructor|exists []; split_and!; by try constructor]].
    apply absorb_file_adds in Hg as (Hd & g & Hok & _ & Hs); [|constructor]. split; [done|]. exists g. done. }
  destruct Hg' as (Hd & g & Hok & Hnone & Hs).
  assert (Hp' : exists p, every (spec_ok (lit "project")) p /\ (trusted = false -> p = [])
    /\ forall e target, specs_in es2 e target = specs_in es e target ++ specs_in p e target).
  { destruct pf; cbn [mbind result_bind] in Hp; destruct trusted; cbn [negb] in Hp.
    all: try (injection Hp as <- _; exists []; split_and!; [constructor|done|intros; unfold specs_for; cbn; by rewrite app_nil_r]).
    all: apply absorb_file_adds in Hp as (_ & p & Hp & _ & Hps); [|done]; by exists p. }
  destruct Hp' as (p & Hpok & Ht & Hps). exists g, p. split_and!; try done.
  intros e target. rewrite <- Hs. apply Hps.
Qed.
End Config.

(** ** Witnesses *)

Definition no_awaits : unit -> Type := fun _ => unit.
Definition sample_spec (target : str) : HookSpec := mkSpec HPython 30 (lit "global") None (Some target) None None.
(** [m:deny] blocks, [m:edit] rewrites the input, anything else fails. *)
Definition sample_caps : @HookCapabilities unit no_awaits := {|
  run_process := fun _ _ _ => Ret TimedOut;
  call_python := fun _ attr _ _ =>
    if str_eqb attr (lit "deny") then Ret (POutcome (deny (lit "no")))
    else if str_eqb attr (lit "edit") then Ret (PDict [(lit "updated_input", VDict [(lit "command", VStr (lit "ls"))])])
    else Ret (ImportFailed (lit "no module"));
  prompt_runner := None;
  agent_runner := None;
  log := None
|}.
Definition sample_event : LifecycleEvent := mkEvent PRE_TOOL_USE [(lit "tool_input", VDict [])] None None None.
Definition sample_specs : list HookSpec := [sample_spec (lit "m:bad"); sample_spec (lit "m:edit"); sample_spec (lit "m:deny"); sample_spec (lit "m:late")].
Definition blank (v : value) : str := [].
Definition sample_dispatch :=
  dispatch (answer := no_awaits) blank (fun s => s) (fun _ _ => []) blank (fun _ => Raise BadJson) false sample_specs sample_event sample_caps.
Definition sample_result : HookOutcome := mkOutcome true (lit "no") (Some [(lit "command", VStr (lit "ls"))]) None None true.

Lemma dispatch_outcome_witness :
  runs sample_dispatch [] (Done sample_result)
  /\ (Done sample_result = Threw (exn := exn) CancelledError
      \/ exists os ts, Done (exn := exn) sample_result = Done (merge os) /\ [] = concat ts /\ length ts = length os
         /\ (blocked (merge os) = true \/ length os = length sample_specs)
         /\ (forall i oi ti, os !! i = Some oi -> ts !! i = Some ti ->
               exists s, sample_specs !! i = Some s
                 /\ hook_answered blank (fun s => s) (fun _ _ => []) blank (fun _ => Raise BadJson)
                      (fired_event sample_event (input_after sample_event (take i os))) s sample_caps oi ti)
         /\ (forall i oi, os !! i = Some oi -> blocked oi = true -> S i = length os /\ reason (merge os) = reason oi)).
Proof.
  assert (H : runs sample_dispatch [] (Done sample_result)) by (vm_compute; split; reflexivity).
  split; [exact H|]. exact (dispatch_outcome _ _ _ _ _ _ _ _ _ _ _ H).
Defined.

Definition sample_hooks (event : string) (kind target : string) : hooks_file :=
  Document (VDict [(lit "schema_version", VInt 1);
    (lit "hooks", VDict [(lit event, VList [VDict [(lit "hooks", VList [VDict [(lit "type", VStr (lit kind)); (lit "callable", VStr (lit target));
                                                                        (lit "prompt", VStr (lit target))]])]])])]).
Definition sample_config (trusted : bool) : result config_error HookConfig :=
  load_hook_config blank (fun _ => None) (lit "g") (Some (sample_hooks "PreToolUse" "python" "m:f")) (lit "p")
    (sample_hooks "PreToolUse" "agent" "check") trusted.

Lemma hooks_loaded_witness :
  exists cfg, sample_config false = Ok cfg /\ length (diagnostics cfg) = 1%nat
  /\ exists global project,
    every (spec_ok (lit "global")) global /\ every (spec_ok (lit "project")) project
    /\ (false = false -> project = []) /\ (Some (sample_hooks "PreToolUse" "python" "m:f") = None -> global = [])
    /\ forall e target, specs_for (fun _ _ => None) cfg e target
       = specs_for (fun _ _ => None) (mkConfig global []) e target ++ specs_for (fun _ _ => None) (mkConfig project []) e target.
Proof.
  eexists. split; [vm_compute; reflexivity|]. split; [reflexivity|].
  eapply (hooks_loaded blank (fun _ => None) (fun _ _ => None) (lit "g") (Some (sample_hooks "PreToolUse" "python" "m:f")) (lit "p")
            (sample_hooks "PreToolUse" "agent" "check") false). vm_compute; reflexivity.
Defined.

(** An agent hook on a tool event of a trusted project is left out with a diagnostic. *)
Example agent_hook_skipped :
  match sample_config true with Ok cfg => (length (config_entries cfg), length (diagnostics cfg)) = (1, 1)%nat | Raise _ => False end.
Proof. vm_compute. reflexivity. Qed.

(** A timeout that is no number is not skipped like the other mistakes of a hook:
    loading the configuration raises. *)
Lemma bad_timeout_raises :
  load_hook_config blank (fun _ => None) (lit "g")
    (Some (Document (VDict [(lit "schema_version", VInt 1);
       (lit "hooks", VDict [(lit "Stop", VList [VDict [(lit "hooks", VList [VDict [(lit "type", VStr (lit "prompt"));
          (lit "prompt", VStr (lit "ok?")); (lit "timeout", VStr (lit "soon"))]])]])])])))
    (lit "p") Hooks.Absent false = Raise ValueError.
Proof. vm_compute. reflexivity. Qed.
