(* ===== verification/ToolsFacts.v ===== *)
(** * Facts about tools

    What the resolution of aliases does to the arguments of a call, when binding
    refuses them, and what the registry keeps. *)

From stdpp Require Import base gmap list strings numbers.
From Stdlib Require Import ZArith Lia SpecFloat.
From S2P Require Import Prelude PyStr PyVal Json JsonFacts Tools HooksFacts.

Section Aliases.
Variable float_of_text : str -> option spec_float.
Abbreviation PARAM_ALIASES := (PARAM_ALIASES float_of_text).
Abbreviation resolve_param_aliases := (resolve_param_aliases float_of_text).

Definition alias_of (tool k : str) : option ParamAlias := aliases ← dict_get PARAM_ALIASES tool; dict_get aliases k.
(** [k] is renamed, dropped or discarded. *)
Definition stray (tool : str) (accepted : list str) (k : str) : bool :=
  match alias_of tool k with Some _ => negb (str_in k accepted) | None => false end.

(** No alias is renamed to an alias of the same tool. *)
Lemma canonical_not_alias tool k al c : alias_of tool k = Some al -> canonical al = Some c -> alias_of tool c = None.
Proof.
  unfold alias_of. destruct (dict_get PARAM_ALIASES tool) as [aliases|] eqn:Et; [|done]. cbn.
  intros H Hc. apply dict_get_elem in Et. apply dict_get_elem in H.
  assert (Hall : Forall (fun ta => Forall (fun ka => match canonical ka.2 with Some c => dict_get ta.2 c = None | None => True end) ta.2) PARAM_ALIASES).
  { repeat constructor. }
  rewrite list.Forall_forall in Hall. specialize (Hall _ Et). cbn in Hall. rewrite list.Forall_forall in Hall. specialize (Hall _ H).
  cbn in Hall. by rewrite Hc in Hall.
Qed.

Section Loop.
Variables (tool : str) (aliases : list (str * ParamAlias)) (inputs : dict) (accepted : list str).
Hypothesis Ha : dict_get PARAM_ALIASES tool = Some aliases.
Hypothesis Hk : NoDup (map fst inputs).

Lemma alias_here k : alias_of tool k = dict_get aliases k.
Proof. unfold alias_of. by rewrite Ha. Qed.

(** A round writes at most one key: that of the entry, or a canonical name that
    the arguments lack. *)
Lemma resolve_one_spec acc k v acc' :
  resolve_one tool aliases inputs accepted acc (k, v) = Ok acc' ->
  if stray tool accepted k
  then (exists h, acc'.2 = acc.2 ++ [h] /\ alias h = k)
       /\ (acc'.1 = acc.1 \/ exists al c v', alias_of tool k = Some al /\ canonical al = Some c /\ dict_has inputs c = false
                               /\ acc'.1 = dict_set acc.1 c v')
  else acc' = (dict_set acc.1 k v, acc.2).
Proof.
  destruct acc as [res hits]. unfold resolve_one, stray. rewrite alias_here.
  destruct (dict_get aliases k) as [al|] eqn:Eal; [|by intros [= <-]].
  destruct (str_in k accepted); cbn [negb]; [by intros [= <-]|].
  destruct (canonical al) as [c|] eqn:Ec; [|intros [= <-]; cbn; eauto].
  destruct (dict_has inputs c) eqn:Eh; [intros [= <-]; cbn; eauto|].
  destruct (transform al) as [f|]; [destruct (f v)|]; try done; intros [= <-]; cbn; split; eauto 10.
Qed.

Definition covered (l : dict) (acc : dict * list AliasHit) : Prop :=
  (forall k, dict_has acc.1 k = true -> stray tool accepted k = false)
  /\ (forall k v, dict_get inputs k = Some v -> stray tool accepted k = false -> k ∉ map fst l -> dict_get acc.1 k = Some v)
  /\ map alias acc.2 ++ List.filter (stray tool accepted) (map fst l) = List.filter (stray tool accepted) (map fst inputs).

Lemma resolve_loop l acc acc' :
  l ⊆ inputs -> NoDup (map fst l) -> covered l acc ->
  foldM (resolve_one tool aliases inputs accepted) l acc = Ok acc' -> covered [] acc'.
Proof.
  revert acc; induction l as [|[k v] l IH]; intros acc Hl Hd Hc; [by intros [= <-]|].
  cbn [foldM]. destruct (resolve_one _ _ _ _ acc (k, v)) as [acc1|] eqn:E1; [|done].
  apply IH; [set_solver|by apply list.NoDup_cons in Hd as [_ ?]|]. apply resolve_one_spec in E1.
  cbn in Hd. apply list.NoDup_cons in Hd as [Hn Hd]. destruct Hc as (Hs & Hg & Hf). cbn [map fst List.filter] in *.
  assert (Hkv : dict_get inputs k = Some v) by (apply dict_get_In; [done|]; apply Hl; left).
  destruct (stray tool accepted k) eqn:Es.
  - destruct E1 as [(h & Eh & Ehk) Hor]. split_and!.
    + destruct Hor as [->|(al & c & v' & Hal & Hca & _ & ->)]; [done|]. intros k'. unfold dict_has. rewrite dict_get_set.
      destruct (str_eqb c k') eqn:Ec; [|apply Hs]. intros _. apply str_eqb_eq in Ec as <-. unfold stray. by erewrite canonical_not_alias.
    + intros k' v'' Hk' Hsk' Hni. assert (dict_get acc.1 k' = Some v'') as Hold.
      { apply Hg; [done..|]. cbn. intros [->|H]%elem_of_cons; [congruence|done]. }
      destruct Hor as [->|(al & c & v' & Hal & Hca & Habs & ->)]; [done|]. rewrite dict_get_set. destruct (str_eqb c k') eqn:Ec; [|done].
      apply str_eqb_eq in Ec as ->. unfold dict_has in Habs. by rewrite Hk' in Habs.
    + rewrite Eh, map_app, <- app_assoc. cbn. by rewrite Ehk.
  - subst acc1. unfold covered. cbn [fst snd]. split_and!.
    + intros k'. unfold dict_has. rewrite dict_get_set. destruct (str_eqb k k') eqn:Ec; [|apply Hs]. intros _. by apply str_eqb_eq in Ec as <-.
    + intros k' v'' Hk' Hsk' Hni. rewrite dict_get_set. destruct (str_eqb k k') eqn:Ec.
      * apply str_eqb_eq in Ec as <-. congruence.
      * apply Hg; [done..|]. cbn. intros [->|H]%elem_of_cons; [by rewrite str_eqb_refl in Ec|done].
    + done.
Qed.
End Loop.

Lemma filter_none {A} (f : A -> bool) l : (forall x, x ∈ l -> f x = false) -> List.filter f l = [].
Proof.
  induction l as [|x l IH]; intros H; [done|]. cbn. rewrite (H x) by left. apply IH. intros y Hy. apply H. by right.
Qed.

(** When the arguments of a call are resolved, every name that the handler
    accepts, or that is no alias, keeps its value, so that a canonical name wins
    over its alias; no alias is left; and there is one hit for each alias, in
    order.  Arguments without an alias are left as they are. *)
Theorem aliases_resolved tool inputs accepted resolved hits :
  NoDup (map fst inputs) -> resolve_param_aliases tool inputs accepted = Ok (resolved, hits) ->
  (forall k v, dict_get inputs k = Some v -> stray tool accepted k = false -> dict_get resolved k = Some v)
  /\ (forall k, dict_has resolved k = true -> stray tool accepted k = false)
  /\ map alias hits = List.filter (stray tool accepted) (map fst inputs).
Proof.
  intros Hd H. unfold Tools.resolve_param_aliases in H. destruct (dict_get PARAM_ALIASES tool) as [aliases|] eqn:Ea.
  2: { injection H as <- <-. assert (Hs : forall k, stray tool accepted k = false) by (intros k; unfold stray, alias_of; by rewrite Ea).
       split_and!; [auto..|]. by rewrite filter_none by auto. }
  destruct (existsb _ inputs) eqn:Ex.
  - apply (resolve_loop tool aliases inputs accepted Ea Hd inputs ([], []) (resolved, hits)) in H as (H1 & H2 & H3); [|done..|].
    + split_and!; [|done|]. { intros k v ? ?. apply H2; [done..|]. apply not_elem_of_nil. } by rewrite app_nil_r in H3.
    + split_and!; [done| |done]. intros k v Hkv _ Hn. exfalso. apply Hn. apply dict_get_elem in Hkv. by apply (list_elem_of_fmap_2 fst) in Hkv.
  - injection H as <- <-.
    assert (Hs : forall k, k ∈ map fst inputs -> stray tool accepted k = false).
    { intros k ([k' v] & -> & Hin)%list_elem_of_fmap. unfold stray, alias_of. rewrite Ea. cbn. destruct (dict_get aliases k') eqn:El; [|done].
      exfalso. rewrite <- not_true_iff_false, existsb_exists in Ex. apply Ex. exists (k', v). split; [by apply list_elem_of_In|].
      unfold dict_has. cbn. by rewrite El. }
    split_and!; [done| |by rewrite filter_none].
    intros k Hk. apply Hs. by apply dict_has_elem.
Qed.

(** Arguments without a stray name are left alone. *)
Lemma resolve_no_stray tool inputs accepted :
  NoDup (map fst inputs) -> (forall k, k ∈ map fst inputs -> stray tool accepted k = false) ->
  resolve_param_aliases tool inputs accepted = Ok (inputs, []).
Proof.
  intros Hd Hs. unfold Tools.resolve_param_aliases. destruct (dict_get PARAM_ALIASES tool) as [aliases|] eqn:Ea; [|done].
  destruct (existsb _ inputs); [|done].
  assert (Hgen : forall l done_ : dict, NoDup (map fst (done_ ++ l)) -> (forall k, k ∈ map fst l -> stray tool accepted k = false) ->
    foldM (resolve_one tool aliases inputs accepted) l (done_, []) = Ok (done_ ++ l, [])).
  { induction l as [|[k v] l IH]; intros d Hn Hst; [by rewrite app_nil_r|]. cbn [foldM].
    assert (Hk : stray tool accepted k = false) by (apply Hst; left).
    assert (resolve_one tool aliases inputs accepted (d, []) (k, v) = Ok (d ++ [(k, v)], [])) as ->.
    { unfold resolve_one. unfold stray, alias_of in Hk. rewrite Ea in Hk. cbn in Hk. rewrite map_app in Hn. cbn in Hn.
      assert (k ∉ map fst d) as Hnk. { intros H. apply list.NoDup_app in Hn as (_ & Hn & _). apply (Hn k H). left. }
      destruct (dict_get aliases k); [apply negb_false_iff in Hk; rewrite Hk|]; by rewrite dict_set_new. }
    rewrite (IH (d ++ [(k, v)])); [by rewrite <- app_assoc| |].
    - by rewrite <- app_assoc.
    - intros k' Hk'. apply Hst. by right. }
  apply (Hgen inputs []); done.
Qed.
End Aliases.

(** A witness: the canonical [command] wins over [cmd], [timeout] becomes a number
    of milliseconds, and [title] goes. *)
Definition sample_arguments : dict :=
  [(lit "cmd", VStr (lit "rm -rf /")); (lit "timeout", VInt 30); (lit "command", VStr (lit "ls")); (lit "title", VStr (lit "list"))].
Definition exec_accepts : list str := [lit "command"; lit "workdir"; lit "yield_time_ms"; lit "max_output_tokens"; lit "login"; lit "background"].
Definition no_float (s : str) : option spec_float := None.

Lemma aliases_resolved_witness :
  exists resolved hits,
    resolve_param_aliases no_float (lit "exec_command") sample_arguments exec_accepts = Ok (resolved, hits)
    /\ resolved = [(lit "yield_time_ms", VInt 30000); (lit "command", VStr (lit "ls"))]
    /\ (forall k v, dict_get sample_arguments k = Some v -> stray no_float (lit "exec_command") exec_accepts k = false ->
          dict_get resolved k = Some v)
    /\ (forall k, dict_has resolved k = true -> stray no_float (lit "exec_command") exec_accepts k = false)
    /\ map alias hits = List.filter (stray no_float (lit "exec_command") exec_accepts) (map fst sample_arguments).
Proof.
  eexists _, _. split; [vm_compute; reflexivity|]. split; [vm_compute; reflexivity|].
  apply aliases_resolved; [apply (bool_decide_unpack _); vm_compute; reflexivity|vm_compute; reflexivity].
Defined.

(** A hit can fail the call: a timeout that no float can hold. *)
Lemma alias_can_fail float_of_text :
  resolve_param_aliases float_of_text (lit "exec_command") [(lit "command", VStr (lit "ls")); (lit "timeout", VInt (2 ^ 1024))] exec_accepts
  = Raise (lit "int too large to convert to float").
Proof. vm_compute. reflexivity. Qed.

(** ** Binding *)

(** [bind] accepts exactly when each required parameter is there and each name is taken. *)
Lemma bind_accepts repr ps inputs :
  bind_error repr ps inputs = None
  <-> (forall p, p ∈ ps -> is_required p = true -> dict_has inputs (param_name p) = true)
      /\ (forall k v, (k, v) ∈ inputs -> exists p, p ∈ ps /\ takes_keyword p k = true).
Proof.
  unfold bind_error. destruct (List.find _ ps) as [p|] eqn:E1.
  - split; [done|]. intros [H _]. apply List.find_some in E1 as [Hin Hp]. apply andb_prop in Hp as [Hr Hn].
    rewrite (H p) in Hn; [done|by apply list_elem_of_In|done].
  - pose proof (List.find_none _ _ E1) as Hreq. destruct (List.find _ inputs) as [[k v]|] eqn:E2.
    + split; [done|]. intros [_ H]. apply List.find_some in E2 as [Hin Hn]. destruct (H k v) as (p & Hp & Ht); [by apply list_elem_of_In|].
      cbn in Hn. apply negb_true_iff, not_true_iff_false in Hn. exfalso. apply Hn, existsb_exists. exists p. split; [by apply list_elem_of_In|done].
    + pose proof (List.find_none _ _ E2) as Hall. split; [|done]. intros _. split.
      * intros p Hp Hr. apply list_elem_of_In, Hreq in Hp. rewrite Hr in Hp. by destruct (dict_has inputs (param_name p)).
      * intros k v Hin. apply list_elem_of_In, Hall in Hin. cbn in Hin. apply negb_false_iff, existsb_exists in Hin as (p & Hp & Ht).
        exists p. split; [by apply list_elem_of_In|done].
Qed.

(** ** The registry *)

Definition well_named (r : ToolRegistry) : Prop := NoDup (map fst r) /\ Forall (fun kt => name kt.2 = kt.1) r.

Lemma add_one_spec r t r' : add_one r t = Ok r' -> well_named r -> r' = r ++ [(name t, t)] /\ well_named r'.
Proof.
  unfold add_one. destruct (dict_has r (name t)) eqn:E; [done|]. intros [= <-] [Hd Hn].
  assert (Hk : name t ∉ map fst r) by (intros H%dict_has_elem; congruence).
  rewrite dict_set_new by done. split; [done|]. split.
  - rewrite map_app. apply list.NoDup_app. split_and!; [done| |apply list.NoDup_singleton].
    intros x Hx [= ->]%list_elem_of_singleton. done.
  - apply Forall_app. split; [done|]. by constructor.
Qed.

(** A registry lists its tools in the order they were given, each under its name. *)
Lemma new_registry_spec ts r : new_registry ts = Ok r -> well_named r /\ map snd r = ts.
Proof.
  unfold new_registry. intros H.
  assert (Hgen : forall ts a b, foldM add_one ts a = Ok b -> well_named a -> well_named b /\ map snd b = map snd a ++ ts).
  { clear. induction ts as [|t ts IH]; intros a b; cbn; [intros [= <-] Ha; by rewrite app_nil_r|].
    destruct (add_one a t) as [a'|] eqn:E; [|done]. intros Hf Ha. apply add_one_spec in E as [-> Ha']; [|done].
    destruct (IH _ _ Hf Ha') as [Hb ->]. split; [done|]. by rewrite map_app, <- app_assoc. }
  apply Hgen in H; [done|]. split; constructor.
Qed.
Lemma lookup_name r n t : well_named r -> dict_get r n = Some t -> name t = n.
Proof. intros [_ H] Hg%dict_get_elem. rewrite list.Forall_forall in H. by apply (H (n, t)). Qed.

Lemma unmark_all (l : list nat) (h : gmap nat ToolDefinition) a :
  foldl (fun h a => alter (marked false) a h) h l !! a = (if decide (a ∈ l) then marked false <$> (h !! a) else h !! a).
Proof.
  revert h; induction l as [|b l IH]; intros h; cbn; [by rewrite decide_False by apply not_elem_of_nil|].
  rewrite IH. destruct (decide (a = b)) as [->|Hne].
  - rewrite lookup_alter_eq, (decide_True (P := b ∈ b :: l)) by left. destruct (decide _); [|done]. by destruct (h !! b).
  - rewrite lookup_alter_ne by done. destruct (decide (a ∈ l)); [rewrite decide_True by (by right)|rewrite decide_False]; try done.
    by intros [|]%elem_of_cons.
Qed.

(** The last definition carries the only cache mark, whatever was marked before. *)
Lemma last_definition_marked r h l h' a :
  definitions r h = (l, h') -> a ∈ l ->
  h' !! a = (if decide (head (rev l) = Some a) then marked true ∘ marked false <$> (h !! a) else marked false <$> (h !! a)).
Proof.
  unfold definitions. intros [= <- <-] Ha. set (l := map _ r) in *. destruct (rev l) as [|b m] eqn:E; cbn [head].
  - assert (l = []) as Hl by (by rewrite <- (rev_involutive l), E). rewrite Hl in Ha. by apply not_elem_of_nil in Ha.
  - destruct (decide (Some b = Some a)) as [[= ->]|Hne].
    + rewrite lookup_alter_eq, unmark_all, decide_True by done. by destruct (h !! a).
    + rewrite lookup_alter_ne by congruence. by rewrite unmark_all, decide_True by done.
Qed.
