(* ===== verification/ToolExec.v ===== *)
(** * Executing the tool calls of a reply

    Models [execute_single_tool] and [process_tool_calls] of
    [kolega_code/agent/baseagent.py]: consent, hooks, the call itself and its
    errors, and how the calls of one reply are rejected, run in parallel or run in
    turn.

    The coroutines are programs (Prog.v) over [effect], the awaits of the agent;
    hooks run through the dispatcher of Hooks.v and arguments through Tools.v.
    [registry] is what [tool_collection.registry()] returns, [nested] is
    [in_hook()].  A handler answers text or a list of blocks of content.
    [subject] and [display] make the display data of a call, and do not raise. *)

From stdpp Require Import base list strings numbers.
From Stdlib Require Import ZArith Lia SpecFloat.
From S2P Require Import Prelude PyStr PyVal Json Permissions SessionRuntime Conversation Prog Tools Hooks.

Inductive log_level := INFO | WARNING | ERROR | DEBUG.

Section ToolExec.
Context {other : Type}.

Record chat_message := mkChat {
  message_type : str;
  chat_content : @result_content other;
  tool_description : str;
  chat_call_id : option str;
  images : list (str * str);
  tool_subject : str;
  tool_display : value;
  tool_error_kind : option str
}.

(** ** What the agent awaits *)

Inductive effect :=
| Log (level : log_level) (text : str)
| Chat (m : chat_message)
| ReadMode                                          (* [self.permission_mode], which the host may change *)
| Ask (r : PermissionRequest)                       (* [self.permission_callback] *)
| Process (argv : list str) (stdin : bytes) (seconds : Z)
| Python (module_name attr : str) (e : LifecycleEvent) (seconds : Z)
| AskModel (text : str) (hint : option str) (seconds : Z)
| AskAgent (task : str) (seconds : Z)
| Handle (h : str) (arguments : dict)               (* the handler of a tool *)
| SetCurrent (ids : option (str * option str))      (* the three identifiers of the running call *)
| SetEndTurn.                                       (* [self._hook_end_turn = True] *)

(** [None] in the answer to [Ask]: not a [PermissionDecision]. *)
Definition answer (e : effect) : Type :=
  match e with
  | Log _ _ | Chat _ => result exn unit
  | ReadMode => PermissionMode
  | Ask _ => result exn (option PermissionDecision)
  | Process _ _ _ => result exn command_end
  | Python _ _ _ _ => result exn python_result
  | AskModel _ _ _ | AskAgent _ _ => result exn str
  | Handle _ _ => result exn (@result_content other)
  | SetCurrent _ | SetEndTurn => unit
  end.
Abbreviation program := (prog answer exn).
Abbreviation trace := (list (event answer)).

Definition say (level : log_level) (text : str) : program unit := Do (Log level text) of_result.
Definition send_chat_message (m : chat_message) : program unit := Do (Chat m) of_result.

Variable repr : value -> str.
Variable lower : str -> str.
Variable float_repr : Z -> Z -> str.
Variable pretty : value -> str.
Variable parse_float : str -> value.
Variable float_of_text : str -> option spec_float.
Variable re_fullmatch : str -> str -> option bool.
Variable to_markdown : other -> str.
Variable image_payload : other -> option (str * str).
Variable subject : str -> value -> str.
Variable display : str -> value -> value.

(** The agent: its tools, its hooks and what does not change while it runs. *)
Record agent := {
  registry : ToolRegistry;
  exclusive_tools : list str;
  hook_config : HookConfig;
  nested : bool;
  thread_id : str;
  project : str;
  anthropic : bool
}.
Variable self : agent.

Definition long_content_tool_calls : list str := [lit "write"].
Definition PARALLEL_TOOL_LIMIT : nat := 8.

(** ** Hooks *)

Definition _hook_capabilities : @HookCapabilities effect answer := {|
  run_process := fun argv stdin seconds => Do (Process argv stdin seconds) of_result;
  call_python := fun m a e seconds => Do (Python m a e seconds) of_result;
  prompt_runner := Some (fun text hint seconds => Do (AskModel text hint seconds) of_result);
  agent_runner := Some (fun task seconds => Do (AskAgent task seconds) of_result);
  log := Some (say WARNING)
|}.

Definition mode_value (m : PermissionMode) : str := match m with AUTO => lit "auto" | ASK => lit "ask" end.
Definition fire_hook (name : HookEvent) (body : dict) (target : str) : program HookOutcome :=
  if config_is_empty (hook_config self) then Ret empty_outcome
  else bind (perform ReadMode) (fun mode =>
    dispatch repr lower float_repr pretty (loads parse_float plain_object (fun s => Ok (parse_float s))) (nested self) (specs_for re_fullmatch (hook_config self) name target)
      (mkEvent name body (Some (thread_id self)) (Some (project self)) (Some (mode_value mode))) _hook_capabilities).

Definition _hook_text (output : @result_content other) : str :=
  match output with ResultText s => s | ResultBlocks l => join [NL; NL] (map to_markdown l) end.

Definition _apply_post_tool_hook (output : @result_content other) (o : HookOutcome) : program (@result_content other) :=
  if is_empty o then Ret output
  else
    let output := match updated_output o with Some t => ResultText t | None => output end in
    let output := match additional_context o with
                  | Some c => if nonempty c then ResultText (_hook_text output ++ [NL; NL] ++ c) else output
                  | None => output
                  end in
    if blocked o || end_turn o then
      bind (perform SetEndTurn) (fun _ =>
        Ret (if nonempty (reason o) then ResultText (_hook_text output ++ [NL; NL] ++ lit "[hook] " ++ reason o) else output))
    else Ret output.

Definition post_payload (tool_name : str) (inputs : dict) (output : str) (failed : bool) : dict :=
  [(lit "tool_name", VStr tool_name); (lit "tool_input", VDict inputs); (lit "tool_output", VStr output); (lit "is_error", VBool failed)].
Definition _post_tool_error_hook (tool_name : str) (inputs : dict) (error_message : str) : program str :=
  bind (fire_hook POST_TOOL_USE (post_payload tool_name inputs error_message true) tool_name) (fun post =>
    Ret (match additional_context post with
         | Some c => if nonempty c then error_message ++ [NL; NL] ++ c else error_message
         | None => error_message
         end)).

(** ** One call *)

Definition arguments_of (c : ToolCall) : dict :=
  match input c with
  | VDict d => d
  | VStr s => [(lit "input", VStr s)]
  | v => [(lit "input", VStr (py_str repr v))]
  end.

(** What changes while a call is executed: its arguments and their display. *)
Record locals := { l_inputs : dict; l_subject : str; l_display : value }.
Definition locals_of (c : ToolCall) : locals :=
  {| l_inputs := arguments_of c; l_subject := subject (call_name c) (input c); l_display := display (call_name c) (input c) |}.

Definition failure (c : ToolCall) (text : str) : @ToolResult other :=
  mkResult (id c) (ResultText text) (call_name c) true (call_execution_id c) (lit "json") None.
Definition error_chat (c : ToolCall) (l : locals) (text : str) (error_kind : option str) : chat_message :=
  mkChat (lit "tool_error") (ResultText text) (call_name c) (call_execution_id c) [] (l_subject l) (l_display l) error_kind.
(** A logged and shown failure. *)
Definition report (c : ToolCall) (l : locals) (level : log_level) (logged shown : str) (text : str) : program (@ToolResult other) :=
  bind (say level logged) (fun _ => bind (send_chat_message (error_chat c l shown None)) (fun _ => Ret (failure c text))).

Definition unavailable (c : ToolCall) (l : locals) : program (@ToolResult other) :=
  let short := lit "Tool '" ++ call_name c ++ lit "' is not available in this mode." in
  report c l ERROR short short
    (short ++ lit " Available tools: " ++ join (lit ", ") (sort_by str_leb (names (registry self))) ++ lit ".").

(** The permission gate: [Some r] when the call ends with [r]. *)
Definition check_permission (c : ToolCall) (l : locals) : program (option (@ToolResult other)) :=
  let refuse level text := bind (report c l level text text text) (fun r => Ret (Some r)) in
  match permission_request_for_tool repr (call_name c) (l_inputs l) with
  | None => Ret None
  | Some request =>
      bind (perform ReadMode) (fun mode =>
        match mode with
        | AUTO => Ret None
        | ASK =>
            let failed text := refuse ERROR (lit "Permission check failed for " ++ call_name c ++ lit ": " ++ text) in
            bind (perform (Ask request)) (fun r =>
              match r with
              | Raise CancelledError => Throw CancelledError
              | Raise (ToolInputError t) | Raise (ToolError t) | Raise (OtherError t) => failed t
              | Ok None => failed (lit "permission callback must return PermissionDecision")
              | Ok (Some decision) =>
                  if allowed decision then Ret None
                  else
                    let why := if nonempty (because decision) then because decision
                               else lit "The user denied permission for this action." in
                    refuse WARNING (lit "Permission denied for " ++ call_name c ++ lit ": " ++ why)
              end)
        end)
  end.

Definition _blocked_tool_result (c : ToolCall) (l : locals) (why : str) : program (@ToolResult other) :=
  let text := if nonempty why then lit "Permission denied for " ++ call_name c ++ lit ": " ++ why
              else lit "Permission denied for " ++ call_name c ++ lit "." in
  report c l WARNING text text text.

(** Before the call: a result, or the tool and the arguments that hooks left. *)
Definition before_call (c : ToolCall) (l : locals) : program (@ToolResult other + (Tool * locals)) :=
  match dict_get (registry self) (call_name c) with
  | None => bind (unavailable c l) (fun r => Ret (inl r))
  | Some t =>
      bind (say INFO (lit "Executing tool: " ++ call_name c)) (fun _ =>
      bind (check_permission c l) (fun refused =>
        match refused with
        | Some r => Ret (inl r)
        | None =>
            let tool_use_id := match call_execution_id c with Some i => VStr i | None => VNone end in
            bind (fire_hook PRE_TOOL_USE [(lit "tool_name", VStr (call_name c)); (lit "tool_input", VDict (l_inputs l));
                                          (lit "tool_use_id", tool_use_id)] (call_name c)) (fun pre =>
              if blocked pre then bind (_blocked_tool_result c l (reason pre)) (fun r => Ret (inl r))
              else Ret (inr (t, match updated_input pre with
                                | Some d => {| l_inputs := d; l_subject := subject (call_name c) (VDict d);
                                               l_display := display (call_name c) (VDict d) |}
                                | None => l
                                end)))
        end))
  end.

(** [Tool.call( **inputs)]. *)
Definition call_tool (t : Tool) (inputs : dict) : program (@result_content other) :=
  if dict_has inputs (lit "self") then Throw (OtherError (lit "Tool.call() got multiple values for argument 'self'"))
  else match resolve_param_aliases float_of_text (name t) inputs (accepted_params t) with
       | Raise text => Throw (OtherError text)
       | Ok (resolved, hits) =>
           bind (mapP (fun h => if has_log_debug t then say DEBUG (hit_message h) else Ret tt) hits) (fun _ =>
             let inputs := _expand_path_params t resolved in
             match _reject_malformed_call repr t inputs with
             | Raise e => Throw e
             | Ok _ => Do (Handle (handler t) inputs) of_result
             end)
       end.

Definition _image_payloads (output : @result_content other) : list (str * str) :=
  match output with ResultText _ => [] | ResultBlocks l => omap image_payload l end.

Definition calls_and_reports (c : ToolCall) (t : Tool) (l : locals) : program (@ToolResult other) :=
  let chat kind content imgs := mkChat kind content (call_name c) (call_execution_id c) imgs (l_subject l) (l_display l) None in
  bind (if anthropic self && str_in (call_name c) long_content_tool_calls then Ret tt
        else send_chat_message (chat (lit "tool_call") (ResultText (lit "Calling " ++ call_name c)) [])) (fun _ =>
  bind (call_tool t (l_inputs l)) (fun output =>
  bind (fire_hook POST_TOOL_USE (post_payload (call_name c) (l_inputs l) (_hook_text output) false) (call_name c)) (fun post =>
  bind (_apply_post_tool_hook output post) (fun output =>
  bind (send_chat_message (chat (lit "tool_result") (ResultText (_hook_text output)) (_image_payloads output))) (fun _ =>
  Ret (mkResult (id c) output (call_name c) false (call_execution_id c) (lit "json") None)))))).

(** The [except] clauses. *)
Definition on_error (c : ToolCall) (l : locals) (e : exn) : program (@ToolResult other) :=
  let reported level prefix text kind error_kind :=
    bind (say level (prefix ++ text)) (fun _ =>
    bind (_post_tool_error_hook (call_name c) (l_inputs l) text) (fun shown =>
    bind (send_chat_message (error_chat c l shown error_kind)) (fun _ =>
    Ret (mkResult (id c) (ResultText shown) (call_name c) true (call_execution_id c) kind error_kind)))) in
  match e with
  | CancelledError => Throw CancelledError
  | ToolInputError text =>
      reported WARNING (lit "Invalid tool call for " ++ call_name c ++ lit ": ") text (call_input_kind c) (Some (lit "invalid_arguments"))
  | ToolError text => reported WARNING (lit "Tool " ++ call_name c ++ lit " failed: ") text (lit "json") None
  | OtherError text => reported ERROR (lit "Error executing tool " ++ call_name c ++ lit ": ") text (lit "json") None
  end.

Definition execute_single_tool (c : ToolCall) : program (@ToolResult other) :=
  let l := locals_of c in
  bind (perform (SetCurrent (Some (id c, call_execution_id c)))) (fun _ =>
  finally
    (try_else (before_call c l) (on_error c l) (fun r =>
       match r with
       | inl result => Ret result
       | inr (t, l') => catch (calls_and_reports c t l') (on_error c l')
       end))
    (perform (SetCurrent None))).

(** ** The calls of a reply *)

Definition with_kind (c : ToolCall) (r : @ToolResult other) : @ToolResult other :=
  mkResult (tool_use_id r) (result_content_of r) (result_name r) (is_error r) (result_execution_id r) (call_input_kind c) (error_kind r).
Definition run_limited (c : ToolCall) : program (@ToolResult other) := bind (execute_single_tool c) (fun r => Ret (with_kind c r)).

Definition batched_exclusive (calls : list ToolCall) : list str :=
  sort_by str_leb (distinct [] (List.filter (fun n => str_in n (exclusive_tools self)) (map call_name calls))).

Inductive batch := Rejected | Alone (c : ToolCall) | Parallel | Sequential.
Definition plan (calls : list ToolCall) : batch :=
  if (1 <? len calls) && nonempty (batched_exclusive calls) then Rejected
  else match calls with
       | [c] => Alone c
       | _ =>
           if forallb (fun c => match dict_get (registry self) (call_name c) with Some t => parallel_safe t | None => false end) calls
           then Parallel else Sequential
       end.

Definition rejection (calls : list ToolCall) : str :=
  lit "Exclusive tool " ++ join (lit ", ") (map (fun n => lit "`" ++ n ++ lit "`") (batched_exclusive calls))
  ++ lit " must be called by itself. No tools in this batch were executed. Call the exclusive tool in a separate tool round, "
  ++ lit "then make any other calls afterward.".
Definition execution_id_of (c : ToolCall) : str :=
  match call_execution_id c with Some (x :: s) => x :: s | _ => lit "tool_" ++ id c end.
Definition reject (text : str) (c : ToolCall) : program (@ToolResult other) :=
  bind (send_chat_message (mkChat (lit "tool_error") (ResultText text) (call_name c) (Some (execution_id_of c)) []
                             (subject (call_name c) (input c)) (display (call_name c) (input c)) None)) (fun _ =>
  Ret (mkResult (id c) (ResultText text) (call_name c) true (Some (execution_id_of c)) (call_input_kind c) None)).

(** [process_tool_calls] but for the parallel calls. *)
Definition process_in_turn (calls : list ToolCall) : program (list (@ToolResult other)) :=
  match plan calls with
  | Rejected => bind (say WARNING (rejection calls)) (fun _ => mapP (reject (rejection calls)) calls)
  | Alone c => bind (run_limited c) (fun r => Ret [r])
  | _ =>
      bind (say INFO (lit "Executing " ++ dec (len calls) ++ lit " tool calls sequentially (some are not read-only)")) (fun _ =>
        mapP run_limited calls)
  end.
Definition announce_parallel (calls : list ToolCall) : program unit :=
  say INFO (lit "Executing " ++ dec (len calls) ++ lit " parallel-safe tool calls in parallel").

(** What [gather] gives: the results in order, or the exception of a task that
    failed, while others may still run. *)
Inductive gathered : list (task answer exn (@ToolResult other)) -> outcome (exn := exn) (list (@ToolResult other)) -> Prop :=
| all_returned ts rs : ts = map (fun r => Ended (Done r)) rs -> gathered ts (Done rs)
| one_raised ts i e : ts !! i = Some (Ended (Threw e)) -> gathered ts (Threw e).

(** The runs of [process_tool_calls]; each event with the index of its task. *)
Inductive processed (calls : list ToolCall) : list (nat * event answer) -> outcome (exn := exn) (list (@ToolResult other)) -> Prop :=
| in_turn t o : plan calls <> Parallel -> runs (process_in_turn calls) t o -> processed calls (map (pair O) t) o
| not_announced t e : plan calls = Parallel -> runs (announce_parallel calls) t (Threw e) ->
    processed calls (map (pair O) t) (Threw e)
| in_parallel t l ts o : plan calls = Parallel -> runs (announce_parallel calls) t (Done tt) ->
    pool_steps PARALLEL_TOOL_LIMIT (map (fun c => Waiting (run_limited c)) calls) l ts -> gathered ts o ->
    processed calls (map (pair O) t ++ l) o.
End ToolExec.
