(* ===== verification/ToolExecFacts.v ===== *)
(** * Facts about the execution of one tool call

    What a call may await, and when: the gate of permissions comes first, a handler
    runs at most once and on arguments that passed the gate, and whatever fails
    becomes a result of the call, if it can be told of. *)

From stdpp Require Import base list strings numbers.
From Stdlib Require Import ZArith Lia SpecFloat.
From S2P Require Import Prelude PyStr PyVal Json Shlex Permissions SessionRuntime Conversation Prog Tools Hooks HooksFacts ToolsFacts ToolExec.

(** ** What hooks may await *)

Section HookEffects.
Context {effect : Type} {answer : effect -> Type}.
Variable repr : value -> str.
Variable lower : str -> str.
Variable float_repr : Z -> Z -> str.
Variable pretty : value -> str.
Variable loads : str -> result json_error value.
Variable P : event answer -> Prop.
Variable caps : @HookCapabilities effect answer.
Hypothesis Hprocess : forall argv stdin s, emits P (run_process caps argv stdin s).
Hypothesis Hpython : forall m a e s, emits P (call_python caps m a e s).
Hypothesis Hprompt : forall f, prompt_runner caps = Some f -> forall t h s, emits P (f t h s).
Hypothesis Hagent : forall f, agent_runner caps = Some f -> forall t s, emits P (f t s).
Hypothesis Hlog : forall f, log caps = Some f -> forall t, emits P (f t).

Lemma run_hook_emits e s : emits P (run_hook repr lower float_repr pretty loads e s caps).
Proof.
  unfold run_hook, _run_command, _run_python, _run_llm. destruct (htype s).
  - destruct (command s); [|apply emits_Throw]. destruct (shlex_split _) as [|[]]; try apply emits_Throw.
    apply emits_bind; [apply Hprocess|]. intros [code out err|]; [|apply emits_Throw].
    destruct (code =? 0); [apply emits_of_result|]. destruct (code =? 2); [apply emits_Ret|apply emits_Throw].
  - destruct (partition 58 _). destruct (_ || _ || _); [apply emits_Throw|]. apply emits_bind; [apply Hpython|]. intros; apply emits_of_result.
  - apply emits_bind; [|intros; apply emits_of_result]. destruct (prompt_runner caps) eqn:E; [by apply Hprompt|apply emits_Throw].
  - apply emits_bind; [|intros; apply emits_of_result]. destruct (agent_runner caps) eqn:E; [by apply Hagent|apply emits_Throw].
Qed.

Lemma except_emits {A} (m : prog answer exn A) h : emits P m -> (forall t, emits P (h t)) -> emits P (except_Exception m h).
Proof. intros Hm Hh. apply emits_catch; [done|]. intros []; [apply emits_Throw|apply Hh..]. Qed.

Lemma dispatch_emits nested ss e : emits P (dispatch repr lower float_repr pretty loads nested ss e caps).
Proof.
  unfold dispatch. destruct nested; [apply emits_Ret|]. destruct ss as [|s ss]; [apply emits_Ret|].
  apply emits_bind; [|intros; apply emits_Ret]. generalize (s :: ss); clear s ss. intros ss.
  generalize (get (payload e) (lit "tool_input")), (@nil HookOutcome).
  induction ss as [|s ss IH]; intros v os; cbn; [apply emits_Ret|]. apply emits_bind.
  - apply except_emits; [apply run_hook_emits|]. intros text. apply emits_bind; [|intros; apply emits_Ret].
    unfold _log. destruct (log caps) eqn:E; [|apply emits_Ret]. apply except_emits; [by apply Hlog|intros; apply emits_Ret].
  - intros o. destruct (blocked o); [apply emits_Ret|apply IH].
Qed.
End HookEffects.

Section Facts.
Context {other : Type}.
Abbreviation effect := (@effect other).
Abbreviation answer := (@answer other).
Abbreviation program := (prog (action := effect) answer exn).
Variable repr : value -> str.
Variable lower : str -> str.
Variable float_repr : Z -> Z -> str.
Variable pretty : value -> str.
Variable parse_float : str -> value.
Variable float_of_text : str -> option spec_float.
Variable re_fullmatch : str -> str -> option bool.
Variable to_markdown : other -> str.
Variable image_payload : other -> option (str * str).
Variable subject : str -> value -> str.
Variable display : str -> value -> value.
Variable self : agent.
Abbreviation fire_hook := (fire_hook (other := other) repr lower float_repr pretty parse_float re_fullmatch self).
Abbreviation before_call := (before_call repr lower float_repr pretty parse_float re_fullmatch subject display self).
Abbreviation check_permission := (check_permission (other := other) repr).
Abbreviation call_tool := (call_tool (other := other) repr float_of_text).
Abbreviation calls_and_reports := (calls_and_reports repr lower float_repr pretty parse_float float_of_text re_fullmatch to_markdown image_payload self).
Abbreviation on_error := (on_error (other := other) repr lower float_repr pretty parse_float re_fullmatch self).
Abbreviation execute_single_tool :=
  (execute_single_tool repr lower float_repr pretty parse_float float_of_text re_fullmatch to_markdown image_payload subject display self).

(** No handler runs. *)
Definition quiet (e : event answer) : Prop := match e with Ev (Handle _ _) _ => False | _ => True end.

Lemma fire_hook_quiet n b t : emits quiet (fire_hook n b t).
Proof.
  unfold ToolExec.fire_hook. destruct (config_is_empty _); [apply emits_Ret|]. apply emits_Do; [done|]. intros mode.
  apply dispatch_emits; cbn; intros; simplify_eq; (apply emits_Do; [done|intros; apply emits_of_result]).
Qed.
Lemma fire_hook_only n b t : only_cancelled (fire_hook n b t).
Proof.
  unfold ToolExec.fire_hook. destruct (config_is_empty _); [apply only_cancelled_Ret|]. intros tr e (m & t' & -> & H). by eapply dispatch_safe.
Qed.
Lemma say_quiet l text : emits quiet (say (other := other) l text).
Proof. apply emits_Do; [done|]. intros; apply emits_of_result. Qed.
Lemma send_quiet m : emits quiet (send_chat_message (other := other) m).
Proof. apply emits_Do; [done|]. intros; apply emits_of_result. Qed.

(** Programs put together from quiet ones. *)
Ltac quiet_step :=
  first [ apply fire_hook_quiet | apply say_quiet | apply send_quiet | apply emits_Ret | apply emits_Throw | apply emits_of_result
        | apply emits_bind; [|intros] | apply emits_perform; done
        | match goal with |- emits _ (match ?x with _ => _ end) => destruct x end
        | match goal with |- emits _ (if ?x then _ else _) => destruct x end ].
Ltac quiet := repeat quiet_step.

Lemma report_quiet c l lv a b t : emits quiet (report (other := other) c l lv a b t).
Proof. unfold report. quiet. Qed.
Lemma check_permission_quiet c l : emits quiet (check_permission c l).
Proof.
  unfold ToolExec.check_permission. destruct (permission_request_for_tool _ _ _); [|quiet]. quiet.
  all: try (apply emits_bind; [apply report_quiet|intros; apply emits_Ret]). all: apply report_quiet.
Qed.
Lemma before_call_quiet c l : emits quiet (before_call c l).
Proof.
  unfold ToolExec.before_call, unavailable, _blocked_tool_result. destruct (dict_get _ _); [|apply emits_bind; [apply report_quiet|intros; apply emits_Ret]].
  apply emits_bind; [apply say_quiet|]. intros _. apply emits_bind; [apply check_permission_quiet|]. intros [r|]; [apply emits_Ret|].
  apply emits_bind; [apply fire_hook_quiet|]. intros pre. destruct (blocked pre); [|apply emits_Ret].
  apply emits_bind; [apply report_quiet|]. intros; apply emits_Ret.
Qed.
Lemma on_error_quiet c l e : emits quiet (on_error c l e).
Proof. unfold ToolExec.on_error, _post_tool_error_hook. destruct e; quiet. Qed.
Lemma post_hook_quiet out o : emits quiet (_apply_post_tool_hook to_markdown out o).
Proof. unfold _apply_post_tool_hook. destruct (is_empty o); [apply emits_Ret|]. cbv zeta. destruct (blocked o || end_turn o); [|apply emits_Ret]. quiet. Qed.
Lemma hits_quiet t hits : emits quiet (mapP (fun h => if has_log_debug t then say (other := other) DEBUG (hit_message h) else Ret tt) hits).
Proof. apply emits_mapP. intros; destruct (has_log_debug t); [apply say_quiet|apply emits_Ret]. Qed.

(** ** The gate *)

(** What the gate of permissions leaves in the trace when it lets a call pass. *)
Definition gate_passed (c : ToolCall) (inputs : dict) (g : list (event answer)) : Prop :=
  match permission_request_for_tool repr (call_name c) inputs with
  | None => g = []
  | Some request =>
      g = [Ev (answer := answer) ReadMode AUTO]
      \/ exists d, g = [Ev (answer := answer) ReadMode ASK; Ev (answer := answer) (Ask request) (Ok (Some d))] /\ allowed d = true
  end.

Lemma report_done c l lv a b text t (r : option (@ToolResult other)) :
  runs (bind (report (other := other) c l lv a b text) (fun r => Ret (Some r))) t (Done r) -> r <> None.
Proof. intros [(t1 & t2 & x & _ & _ & [_ [= ->]])|(? & _ & [=])]%runs_bind. done. Qed.

Lemma check_permission_passed c l t : runs (check_permission c l) t (Done None) -> gate_passed c (l_inputs l) t.
Proof.
  unfold ToolExec.check_permission, gate_passed. destruct (permission_request_for_tool _ _ _) as [req|]; [|by intros [-> _]].
  cbn [bind perform]. intros (m & t' & -> & H). destruct m; [destruct H as [-> _]; by left|]. right. cbn in H.
  destruct H as (r & t2 & -> & H). destruct r as [[d|]|[]]; try (by apply report_done in H); [|by destruct H as [_ [=]]].
  destruct (allowed d) eqn:E; [|by apply report_done in H]. destruct H as [-> _]. eauto.
Qed.

(** The hooks before a call: they did not block, and may have replaced the arguments. *)
Definition hooks_passed (c : ToolCall) (inputs inputs' : dict) (t : list (event answer)) : Prop :=
  exists body pre, runs (fire_hook PRE_TOOL_USE body (call_name c)) t (Done pre) /\ dict_get body (lit "tool_input") = Some (VDict inputs)
    /\ blocked pre = false /\ inputs' = default inputs (updated_input pre).

Lemma before_call_passed c l t tool l' :
  runs (before_call c l) t (Done (inr (tool, l'))) ->
  dict_get (registry self) (call_name c) = Some tool
  /\ exists g th, t = Ev (Log INFO (lit "Executing tool: " ++ call_name c)) (Ok tt) :: g ++ th
       /\ gate_passed c (l_inputs l) g /\ hooks_passed c (l_inputs l) (l_inputs l') th.
Proof.
  unfold ToolExec.before_call. destruct (dict_get _ _) as [t0|].
  2: { intros [(? & ? & ? & _ & _ & [_ [=]])|(? & _ & [=])]%runs_bind. }
  intros [(t1 & t2 & [] & -> & H1 & H2)|(? & _ & [=])]%runs_bind. cbn in H1. destruct H1 as (r & t1' & -> & H1).
  destruct r as [[]|]; [destruct H1 as [-> _]|by destruct H1 as [_ [=]]].
  apply runs_bind in H2 as [(g & t3 & [r|] & -> & Hg & H2)|(? & _ & [=])]; [by destruct H2 as [_ [=]]|].
  apply runs_bind in H2 as [(th & t4 & pre & -> & Hh & H2)|(? & _ & [=])]. destruct (blocked pre) eqn:Eb.
  { by apply runs_bind in H2 as [(? & ? & ? & _ & _ & [_ [=]])|(? & _ & [=])]. }
  destruct H2 as [-> [= <- Hl]]. split; [done|]. exists g, th. rewrite app_nil_r. split_and!; [done|by apply check_permission_passed|].
  eexists _, pre. split_and!; [exact Hh|done|done|]. rewrite Hl. by destruct (updated_input pre).
Qed.

(** ** The call *)

(** [args] is what [tool] does with [inputs]. *)
Definition prepared (tool : Tool) (inputs args : dict) : Prop :=
  exists resolved hits, resolve_param_aliases float_of_text (name tool) inputs (accepted_params tool) = Ok (resolved, hits)
    /\ args = _expand_path_params tool resolved /\ _reject_malformed_call repr tool args = Ok tt.

Lemma call_tool_once tool inputs t o :
  runs (call_tool tool inputs) t o ->
  Forall quiet t \/ exists t1 args r, t = t1 ++ [Ev (Handle (handler tool) args) r] /\ Forall quiet t1 /\ prepared tool inputs args
    /\ o = match r with Ok x => Done x | Raise e => Threw e end.
Proof.
  unfold ToolExec.call_tool. destruct (dict_has _ _); [intros [-> _]; left; constructor|].
  destruct (resolve_param_aliases _ _ _ _) as [[resolved hits]|] eqn:Er; [|intros [-> _]; left; constructor].
  intros [(t1 & t2 & us & -> & H1 & H2)|(e & H & _)]%runs_bind; [|left; by eapply hits_quiet].
  apply hits_quiet in H1. cbv zeta in H2. destruct (_reject_malformed_call _ _ _) as [[]|] eqn:Em.
  - destruct H2 as (r & t3 & -> & H2). right. exists t1, (_expand_path_params tool resolved), r.
    assert (t3 = [] /\ o = match r with Ok x => Done x | Raise e => Threw e end) as [-> ->] by (by destruct r, H2).
    split_and!; [done..|by exists resolved, hits|done].
  - destruct H2 as [-> _]. left. by rewrite app_nil_r.
Qed.

Lemma calls_once c tool l t o :
  runs (calls_and_reports c tool l) t o ->
  Forall quiet t \/ exists t1 args r t2, t = t1 ++ Ev (Handle (handler tool) args) r :: t2 /\ Forall quiet t1 /\ Forall quiet t2
    /\ prepared tool (l_inputs l) args.
Proof.
  unfold ToolExec.calls_and_reports. intros [(t1 & t2 & us & -> & H1 & H2)|(e & H & _)]%runs_bind.
  2: { left. revert H. set (b := anthropic self && _). intros H. destruct b; [by destruct H as [-> _]|by eapply send_quiet]. }
  assert (Hq1 : Forall quiet t1) by (destruct (anthropic self && _); [by destruct H1 as [-> _]|by eapply send_quiet]).
  assert (Htail : forall (out : @result_content other) tr oo, runs (bind (fire_hook POST_TOOL_USE
      (post_payload (call_name c) (l_inputs l) (_hook_text to_markdown out) false) (call_name c)) (fun post =>
    bind (_apply_post_tool_hook to_markdown out post) (fun output =>
    bind (send_chat_message (mkChat (lit "tool_result") (ResultText (_hook_text to_markdown output)) (call_name c) (call_execution_id c)
       (_image_payloads image_payload output) (l_subject l) (l_display l) None)) (fun _ =>
    Ret (mkResult (id c) output (call_name c) false (call_execution_id c) (lit "json") None))))) tr oo -> Forall quiet tr).
  { intros out tr oo. apply emits_bind; [apply fire_hook_quiet|]. intros post. apply emits_bind; [apply post_hook_quiet|].
    intros out'. apply emits_bind; [apply send_quiet|intros; apply emits_Ret]. }
  apply runs_bind in H2 as [(t3 & t4 & out & -> & H2 & H3)|(e & H2 & ->)].
  - apply Htail in H3. apply call_tool_once in H2 as [H2|(t5 & args & r & -> & Hq & Hp & _)].
    + left. rewrite !Forall_app. auto.
    + right. exists (t1 ++ t5), args, r, t4. split_and!; [by rewrite <- !app_assoc|by apply Forall_app|done|done].
  - apply call_tool_once in H2 as [H2|(t5 & args & r & -> & Hq & Hp & _)]; [left; by apply Forall_app|].
    right. exists (t1 ++ t5), args, r, []. split_and!; [by rewrite <- !app_assoc|by apply Forall_app|constructor|done].
Qed.


(** ** The whole call *)

Lemma no_hooks n b t tr (o : HookOutcome) : config_is_empty (hook_config self) = true -> runs (fire_hook n b t) tr (Done o) -> o = empty_outcome.
Proof. unfold ToolExec.fire_hook. intros ->. by intros [_ [= ->]]. Qed.

Lemma bind_quiet_tail {A B} (m : program A) (f : A -> program B) t o :
  (forall a, emits quiet (f a)) -> runs (bind m f) t o -> exists t1 t2 o1, t = t1 ++ t2 /\ runs m t1 o1 /\ Forall quiet t2.
Proof.
  intros Hf [(t1 & t2 & a & -> & H1 & H2)|(e & H & ->)]%runs_bind; [exists t1, t2, (Done a)|exists t, [], (Threw e)]; split_and!; auto.
  - by eapply Hf.
  - by rewrite app_nil_r.
Qed.

(** One handler ran, after the gate and the hooks, on what they left. *)
Definition ran_with_consent (c : ToolCall) (t : list (event answer)) : Prop :=
  exists tool g th t1 inputs args r t2,
    dict_get (registry self) (call_name c) = Some tool
    /\ t = [Ev (answer := answer) (SetCurrent (Some (id c, call_execution_id c))) tt;
            Ev (answer := answer) (Log INFO (lit "Executing tool: " ++ call_name c)) (Ok tt)]
           ++ g ++ th ++ t1 ++ Ev (answer := answer) (Handle (handler tool) args) r :: t2
    /\ gate_passed c (arguments_of repr c) g /\ hooks_passed c (arguments_of repr c) inputs th
    /\ Forall quiet (th ++ t1 ++ t2) /\ prepared tool inputs args
    /\ (config_is_empty (hook_config self) = true -> NoDup (map fst (arguments_of repr c)) ->
        (forall k, k ∈ map fst (arguments_of repr c) -> stray float_of_text (name tool) (accepted_params tool) k = false) ->
        path_expander tool = None -> args = arguments_of repr c).

(** C23: No tool runs without consent.  In every run of a call, whatever hooks,
    people and tools answer, a handler runs at most once, and only after the gate:
    the tool is one of the agent's; the request for the arguments of the model was
    not needed, or came while permissions were automatic, or was allowed; and no
    hook blocked.  Its arguments are those that the hooks left, resolved, expanded
    and accepted by its signature; without hooks, aliases and expansion they are
    exactly those of the request. *)
Theorem consent_before_handler c t o :
  runs (execute_single_tool c) t o -> Forall quiet t \/ ran_with_consent c t.
Proof.
  unfold ToolExec.execute_single_tool. intros [[] (t0 & -> & H)].
  apply runs_finally in H as (ta & tb & o1 & o2 & -> & H & Hl & _). assert (Hb : Forall quiet tb).
  { destruct Hl as ([] & t' & -> & [-> _]). by repeat constructor. }
  apply runs_try_else in H as [(t1 & t2 & [res|[tool l']] & -> & H1 & H2)|(t1 & t2 & e & -> & H1 & H2)].
  - left. destruct H2 as [-> _]. apply before_call_quiet in H1. constructor; [done|]. by rewrite !Forall_app.
  - pose proof (before_call_quiet _ _ _ _ H1) as Hq. apply before_call_passed in H1 as (Ht & g & th & -> & Hg & Hh).
    assert (Hin : exists u1 u2 oc, t2 = u1 ++ u2 /\ runs (calls_and_reports c tool l') u1 oc /\ Forall quiet u2).
    { apply runs_catch in H2 as [(a & H2 & ->)|(u1 & u2 & e & -> & H2 & H3)]; [exists t2, [], (Done a)|exists u1, u2, (Threw e)].
      - by rewrite app_nil_r.
      - split_and!; [done..|]. by eapply on_error_quiet. }
    destruct Hin as (u1 & u2 & oc & -> & Hc & Hu). apply calls_once in Hc as [Hc|(u3 & args & r & u4 & -> & Hq3 & Hq4 & Hp)].
    + left. constructor; [done|]. by rewrite !Forall_app.
    + right. exists tool, g, th, u3, (l_inputs l'), args, r, (u4 ++ u2 ++ tb). split_and!; try done.
      * cbn. by rewrite <- !app_assoc.
      * apply list.Forall_cons in Hq as [_ Hq]. rewrite !Forall_app in *. naive_solver.
      * intros He Hd Hs Hx. destruct Hh as (body & pre & Hrun & _ & _ & Hi). apply no_hooks in Hrun as ->; [|done].
        destruct Hp as (resolved & hits & Hr & -> & _). rewrite Hi in Hr. unfold _expand_path_params. rewrite Hx. cbn in Hr.
        rewrite resolve_no_stray in Hr by done. by injection Hr as <-.
  - left. apply before_call_quiet in H1. apply on_error_quiet in H2. constructor; [done|]. by rewrite !Forall_app.
Qed.

(** ** What a call returns *)

(** The await [x] is a message of the log or of the chat that raised [e]. *)
Definition unsaid (x : event answer) (e : exn) : Prop :=
  match x with Ev (Log _ _) (Raise e') | Ev (Chat _) (Raise e') => e' = e | _ => False end.
(** What escapes is a cancellation, or a message that could not be given. *)
Definition gives_up (t : list (event answer)) (e : exn) : Prop := e = CancelledError \/ exists t' x, t = t' ++ [x] /\ unsaid x e.
Definition contained {A} (p : program A) : Prop := forall t e, runs p t (Threw e) -> gives_up t e.

Lemma gives_up_app t t' e : gives_up t' e -> gives_up (t ++ t') e.
Proof. intros [->|(t2 & x & -> & Hx)]; [by left|right]. exists (t ++ t2), x. by rewrite <- app_assoc. Qed.
Lemma contained_only {A} (p : program A) : only_cancelled p -> contained p.
Proof. intros H t e Hr. left. by eapply H. Qed.
Lemma contained_Ret {A} (a : A) : contained (Ret a).
Proof. intros t e [_ [=]]. Qed.
Lemma contained_bind {A B} (m : program A) (f : A -> program B) : contained m -> (forall a, contained (f a)) -> contained (bind m f).
Proof.
  intros Hm Hf t e [(t1 & t2 & a & -> & _ & H2)|(e' & H & [= <-])]%runs_bind; [|by eapply Hm].
  apply gives_up_app. by eapply Hf.
Qed.
Lemma contained_perform a : contained (perform a).
Proof. intros t e (r & t' & -> & [_ [=]]). Qed.
Lemma contained_say l text : contained (say (other := other) l text).
Proof.
  intros t e (r & t' & -> & H). destruct r as [|x]; [by destruct H as [_ [=]]|]. destruct H as [-> [= <-]]. right. eexists [], _. by split.
Qed.
Lemma contained_send m : contained (send_chat_message (other := other) m).
Proof.
  intros t e (r & t' & -> & H). destruct r as [|x]; [by destruct H as [_ [=]]|]. destruct H as [-> [= <-]]. right. eexists [], _. by split.
Qed.
Lemma contained_catch {A} (m : program A) h : (forall e, contained (h e)) -> contained (catch m h).
Proof.
  intros Hh t e [(a & _ & [=])|(t1 & t2 & e' & -> & _ & H2)]%runs_catch. apply gives_up_app. by eapply Hh.
Qed.
Lemma contained_try_else {A B} (m : program A) h (f : A -> program B) :
  (forall e, contained (h e)) -> (forall a, contained (f a)) -> contained (try_else m h f).
Proof.
  intros Hh Hf t e [(t1 & t2 & a & -> & _ & H2)|(t1 & t2 & a & -> & _ & H2)]%runs_try_else;
    apply gives_up_app; [by eapply Hf|by eapply Hh].
Qed.
Ltac contained :=
  repeat first [ apply contained_say | apply contained_send | apply contained_Ret | apply contained_perform
        | apply contained_only, fire_hook_only | apply contained_bind; [|intros] ].

Lemma on_error_contained c l e : contained (on_error c l e).
Proof.
  unfold ToolExec.on_error, _post_tool_error_hook. destruct e; [intros t e [_ [= ->]]; by left|..]; contained.
Qed.

(** [r] is the result of [c]. *)
Definition answers (c : ToolCall) (r : @ToolResult other) : Prop :=
  tool_use_id r = id c /\ result_name r = call_name c /\ result_execution_id r = call_execution_id c.
(** What hooks after a call make of its output: the one they put in its place, or
    the output itself; behind it what they add, and the reason of one that ends the
    turn.  A hook that says nothing leaves the output as it is. *)
Definition posted (out : @result_content other) (o : HookOutcome) : @result_content other :=
  let base := match updated_output o with Some s => ResultText s | None => out end in
  let added := match additional_context o with Some (x :: s) => [NL; NL] ++ x :: s | _ => [] end in
  let why := if (blocked o || end_turn o) && nonempty (reason o) then [NL; NL] ++ lit "[hook] " ++ reason o else [] in
  match added ++ why with [] => base | s => ResultText (_hook_text to_markdown base ++ s) end.

(** A result that is no error has the output of the handler of the called tool,
    with what the hooks after the call made of it. *)
Definition earned (c : ToolCall) (t : list (event answer)) (r : @ToolResult other) : Prop :=
  is_error r = false -> exists tool inputs args out post t1 t2 t3,
    dict_get (registry self) (call_name c) = Some tool
    /\ t = t1 ++ Ev (answer := answer) (Handle (handler tool) args) (Ok out) :: t2 ++ t3
    /\ runs (fire_hook POST_TOOL_USE (post_payload (call_name c) inputs (_hook_text to_markdown out) false) (call_name c)) t2 (Done post)
    /\ result_content_of r = posted out post
    /\ (config_is_empty (hook_config self) = true -> result_content_of r = out).

Lemma earned_app c t0 t t4 r : earned c t r -> earned c (t0 ++ t ++ t4) r.
Proof.
  intros H Hr. destruct (H Hr) as (tool & inputs & args & out & post & t1 & t2 & t3 & Ht & -> & Hx).
  exists tool, inputs, args, out, post, (t0 ++ t1), t2, (t3 ++ t4). split; [done|]. split; [|done]. by simplify_list_eq.
Qed.
Lemma error_earned c t r : is_error r = true -> earned c t r.
Proof. intros Hr Hf. congruence. Qed.

Lemma post_hook_posted out o t x : runs (_apply_post_tool_hook to_markdown out o) t (Done x) -> x = posted out o.
Proof.
  unfold _apply_post_tool_hook, posted. destruct (is_empty o) eqn:Ee.
  { intros [_ [= ->]]. unfold is_empty in Ee. destruct o as [b w ui uo ac en]. cbn in *. by destruct b, ui, uo, ac as [[|]|], en. }
  cbv zeta. set (base := match updated_output o with Some _ => _ | None => _ end). clearbody base.
  destruct (additional_context o) as [[|y s]|]; cbn [nonempty app]; destruct (blocked o || end_turn o); cbn [andb];
    [intros (r & t' & -> & [_ [= ->]])|intros [_ [= ->]]|intros (r & t' & -> & [_ [= ->]])|intros [_ [= ->]]
    |intros (r & t' & -> & [_ [= ->]])|intros [_ [= ->]]]; try destruct (nonempty (reason o)); cbn; rewrite ?app_nil_r; try done.
  f_equal. by simplify_list_eq.
Qed.

(** [p] ends in an error result of [c], if it returns. *)
Definition fails_with (c : ToolCall) (p : program (@ToolResult other)) : Prop :=
  forall t r, runs p t (Done r) -> answers c r /\ is_error r = true.

Lemma fails_bind {A} c (m : program A) f : (forall a, fails_with c (f a)) -> fails_with c (bind m f).
Proof. intros Hf t r [(t1 & t2 & a & -> & _ & H)|(? & _ & [=])]%runs_bind. by eapply Hf. Qed.
Lemma fails_error c content kind ek : fails_with c (Ret (mkResult (id c) content (call_name c) true (call_execution_id c) kind ek)).
Proof. by intros t r [-> [= ->]]. Qed.
Lemma report_fails c l lv a b text : fails_with c (report (other := other) c l lv a b text).
Proof. unfold report, failure. do 2 (apply fails_bind; intros). apply fails_error. Qed.
Lemma on_error_fails c l e : fails_with c (on_error c l e).
Proof.
  unfold ToolExec.on_error. destruct e; [by intros t r [_ [=]]|..]; do 3 (apply fails_bind; intros); apply fails_error.
Qed.
Lemma report_as {A} c l lv a b text (f : @ToolResult other -> A) t x :
  runs (bind (report (other := other) c l lv a b text) (fun r => Ret (f r))) t (Done x) -> exists r, x = f r /\ answers c r /\ is_error r = true.
Proof. intros [(u1 & u2 & r & -> & H & [_ [= ->]])|(? & _ & [=])]%runs_bind. exists r. split; [done|]. by eapply report_fails. Qed.
Lemma gate_returns c l t r : runs (check_permission c l) t (Done (Some r)) -> answers c r /\ is_error r = true.
Proof.
  unfold ToolExec.check_permission. destruct (permission_request_for_tool _ _ _) as [req|]; [|by intros [_ [=]]].
  assert (Hrep : forall lv a b text t, runs (bind (report (other := other) c l lv a b text) (fun r => Ret (Some r))) t (Done (Some r)) ->
    answers c r /\ is_error r = true) by (by intros lv a b text t1 (r' & [= ->] & H)%report_as).
  intros (m & t' & -> & H). destruct m; [by destruct H as [_ [=]]|]. destruct H as (x & t2 & -> & H).
  destruct x as [[d|]|[]]; [|by eapply Hrep|by destruct H as [_ [=]]|by eapply Hrep..].
  cbn [bind] in H. destruct (allowed d); [by destruct H as [_ ?]|by eapply Hrep].
Qed.
Lemma before_call_returns c l t r : runs (before_call c l) t (Done (inl r)) -> answers c r /\ is_error r = true.
Proof.
  assert (Hrep : forall lv a b text t, runs (bind (report (other := other) c l lv a b text) (fun r => Ret (@inl _ (Tool * locals) r))) t (Done (inl r)) ->
    answers c r /\ is_error r = true) by (by intros lv a b text t1 (r' & [= ->] & H)%report_as).
  unfold ToolExec.before_call. destruct (dict_get _ _) as [tool|]; [|apply Hrep].
  intros [(t1 & t2 & [] & -> & _ & H)|(? & _ & [=])]%runs_bind.
  apply runs_bind in H as [(t3 & t4 & [x|] & -> & Hg & H)|(? & _ & [=])].
  { destruct H as [_ [= <-]]. by eapply gate_returns. }
  apply runs_bind in H as [(t5 & t6 & pre & -> & _ & H)|(? & _ & [=])]. destruct (blocked pre); [by eapply Hrep|by destruct H as [_ [=]]].
Qed.
Lemma call_tool_output tool inputs t out : runs (call_tool tool inputs) t (Done out) ->
  exists t1 args, t = t1 ++ [Ev (Handle (handler tool) args) (Ok out)].
Proof.
  unfold ToolExec.call_tool. destruct (dict_has _ _); [by intros [_ [=]]|].
  destruct (resolve_param_aliases _ _ _ _) as [[res hits]|]; [|by intros [_ [=]]].
  intros [(u1 & u2 & us & -> & _ & H)|(? & _ & [=])]%runs_bind. cbv zeta in H.
  destruct (_reject_malformed_call _ _ _); [|by destruct H as [_ [=]]]. destruct H as (x & u3 & -> & H).
  destruct x as [x|]; [|by destruct H as [_ [=]]]. destruct H as [-> [= ->]]. eauto.
Qed.
Lemma calls_returns c tool l t r : dict_get (registry self) (call_name c) = Some tool ->
  runs (calls_and_reports c tool l) t (Done r) -> answers c r /\ earned c t r.
Proof.
  intros Ht. unfold ToolExec.calls_and_reports.
  intros [(t1 & t2 & [] & -> & _ & H)|(? & _ & [=])]%runs_bind. apply runs_bind in H as [(t3 & t4 & out & -> & Hc & H)|(? & _ & [=])].
  apply runs_bind in H as [(t5 & t6 & post & -> & Hp & H)|(? & _ & [=])]. apply runs_bind in H as [(t7 & t8 & out' & -> & Ho & H)|(? & _ & [=])].
  apply runs_bind in H as [(t9 & t10 & [] & -> & _ & [-> [= ->]])|(? & _ & [=])]. split; [done|]. intros _.
  apply call_tool_output in Hc as (u1 & args & ->). apply post_hook_posted in Ho as ->.
  exists tool, (l_inputs l), args, out, post, (t1 ++ u1), t5, (t7 ++ t9 ++ []). split_and!; [done|by simplify_list_eq|done|done|].
  intros He. by rewrite (no_hooks _ _ _ _ _ He Hp).
Qed.

Lemma single_returns c t r : runs (execute_single_tool c) t (Done r) -> answers c r /\ earned c t r.
Proof.
  unfold ToolExec.execute_single_tool. intros [[] (t0 & -> & H)]. apply runs_finally in H as (ta & tb & o1 & o2 & -> & H & Hl & E).
  destruct Hl as ([] & t' & -> & [-> ->]). subst o1. apply runs_try_else in H as [(t1 & t2 & [res|[tool l']] & -> & H1 & H2)|(t1 & t2 & e & -> & H1 & H2)].
  - destruct H2 as [-> [= ->]]. apply before_call_returns in H1 as [Ha He]. split; [done|by apply error_earned].
  - apply before_call_passed in H1 as [Ht _]. apply runs_catch in H2 as [(x & H2 & [= <-])|(u1 & u2 & e & -> & _ & H3)].
    + destruct (calls_returns _ _ _ _ _ Ht H2) as [Ha He]. split; [done|].
      apply (earned_app c (Ev (answer := answer) (SetCurrent (Some (id c, call_execution_id c))) tt :: t1) _ [Ev (answer := answer) (SetCurrent None) tt]) in He.
      by simplify_list_eq.
    + apply on_error_fails in H3 as [Ha He]. split; [done|by apply error_earned].
  - apply on_error_fails in H2 as [Ha He]. split; [done|by apply error_earned].
Qed.

(** C24: A call is always answered.  Whatever a hook, a person or a tool does, and
    whatever they raise, a call ends in a result of that call, unless the turn is
    cancelled or the message that would tell of its failure cannot be logged or
    shown; what escapes then is that very exception.  A result that is no error
    has exactly what the handler of the called tool returned, with what the hooks
    after the call replaced and added; without hooks it is the output itself.  The
    identifiers of the running call are cleared at the end in every case. *)
Theorem call_always_answered c t o :
  runs (execute_single_tool c) t o ->
  exists t', t = t' ++ [Ev (answer := answer) (SetCurrent None) tt]
  /\ match o with
     | Done r => answers c r /\ earned c t r
     | Threw e => e = CancelledError \/ exists t1 x, t' = t1 ++ [x] /\ unsaid x e
     end.
Proof.
  intros Hr. destruct o as [r|e]; [pose proof (single_returns c t r Hr) as Hd|]; revert Hr; unfold ToolExec.execute_single_tool;
    intros [[] (t0 & -> & H)]; apply runs_finally in H as (ta & tb & o1 & o2 & -> & H & Hl & E);
    destruct Hl as ([] & t' & -> & [-> ->]); eexists (_ :: ta); (split; [done|]); [done|].
  subst o1. apply (gives_up_app [_] ta e). revert H. apply contained_try_else; [apply on_error_contained|].
  intros [res|[tool l']]; [apply contained_Ret|]. apply contained_catch, on_error_contained.
Qed.
End Facts.
