(* ===== verification/ToolBatch.v ===== *)
(** * Facts about the tool calls of one reply

    Every call of a reply gets its own result, in order, however the calls are
    run; parallel calls never exceed the limit and each keeps a run of its own; a
    tool that must be alone is never run beside others.  A sample agent gives the
    witnesses, and the lemmas at the end show where consent and execution differ. *)

From stdpp Require Import base list strings numbers.
From Stdlib Require Import ZArith Lia SpecFloat.
From S2P Require Import Prelude PyStr PyVal Json Permissions SessionRuntime Conversation Prog Tools Hooks HooksFacts ToolsFacts ToolExec ToolExecFacts.

Section Facts.
Context {other : Type}.
Abbreviation effect := (@effect other).
Abbreviation answer := (@answer other).
Abbreviation program := (prog (action := effect) answer exn).
Variable repr : value -> str.
Variable lower : str -> str.
Variable float_repr : Z -> Z -> str.
Variable pretty : value -> str.
Variable parse_float : str -> value.
Variable float_of_text : str -> option spec_float.
Variable re_fullmatch : str -> str -> option bool.
Variable to_markdown : other -> str.
Variable image_payload : other -> option (str * str).
Variable subject : str -> value -> str.
Variable display : str -> value -> value.
Variable self : agent.
Abbreviation run_limited :=
  (run_limited repr lower float_repr pretty parse_float float_of_text re_fullmatch to_markdown image_payload subject display self).
Abbreviation process_in_turn :=
  (process_in_turn repr lower float_repr pretty parse_float float_of_text re_fullmatch to_markdown image_payload subject display self).
Abbreviation processed :=
  (processed repr lower float_repr pretty parse_float float_of_text re_fullmatch to_markdown image_payload subject display self).
Abbreviation plan := (plan self).

(** [r] is the result of [c], as the conversation will match them. *)
Definition settles (c : ToolCall) (r : @ToolResult other) : Prop :=
  tool_use_id r = id c /\ result_name r = call_name c /\ result_input_kind r = call_input_kind c
  /\ (call_execution_id c <> Some [] -> same_tool_execution c r = true).

Lemma run_limited_settles c t r : runs (run_limited c) t (Done r) -> settles c r.
Proof.
  unfold ToolExec.run_limited. intros [(t1 & t2 & r0 & -> & H & [-> [= ->]])|(? & _ & [=])]%runs_bind.
  apply single_returns in H as [(H1 & H2 & H3) _].
  split_and!; [done..|]. intros _. unfold same_tool_execution. cbn. rewrite H1, H3. unfold same_execution.
  destruct (call_execution_id c); by rewrite str_eqb_refl.
Qed.

Lemma mapP_Forall2 {A B} (f : A -> program B) (R : A -> B -> Prop) l t rs :
  (forall x t r, runs (f x) t (Done r) -> R x r) -> runs (mapP f l) t (Done rs) -> Forall2 R l rs.
Proof.
  intros Hf. revert t rs; induction l as [|x l IH]; intros t rs; cbn; [intros [_ [= ->]]; constructor|].
  intros [(t1 & t2 & y & -> & H1 & H2)|(? & _ & [=])]%runs_bind. apply runs_bind in H2 as [(t3 & t4 & ys & -> & H2 & [_ [= ->]])|(? & _ & [=])].
  constructor; [by eapply Hf|by eapply IH].
Qed.

Lemma reject_settles text c t r : runs (reject subject display text c) t (Done r) -> settles c r.
Proof.
  unfold reject. intros [(t1 & t2 & [] & -> & _ & [_ [= ->]])|(? & _ & [=])]%runs_bind. split_and!; [done..|].
  intros Hne. unfold same_tool_execution, same_execution, execution_id_of. cbn. destruct (call_execution_id c) as [[|x s]|]; [done|by rewrite str_eqb_refl..].
Qed.

(** C25: The results of a reply correspond to its calls, one each and in order,
    with the same identifiers, names and kinds of input, whether the calls are
    rejected, run alone, run in turn, or run in parallel in any interleaving. *)
Theorem results_match_calls calls l rs : processed calls l (Done rs) -> Forall2 settles calls rs.
Proof.
  inversion 1 as [t o Hp Hr|t e|t l' ts o Hp _ Hs Hg]; subst.
  - unfold ToolExec.process_in_turn in Hr. destruct (plan calls) as [|c| |] eqn:E; [| |done|].
    + apply runs_bind in Hr as [(t1 & t2 & [] & -> & _ & Hr)|(? & _ & [=])]. eapply mapP_Forall2; [|exact Hr]. intros ? ? ?; apply reject_settles.
    + assert (calls = [c]) as -> by (unfold ToolExec.plan in E; destruct (_ && _); [done|];
        destruct calls as [|c0 [|]]; [|by injection E as ->|]; destruct (forallb _ _); done).
      apply runs_bind in Hr as [(t1 & t2 & r & -> & Hr & [_ [= ->]])|(? & _ & [=])]. constructor; [by eapply run_limited_settles|constructor].
    + apply runs_bind in Hr as [(t1 & t2 & [] & -> & _ & Hr)|(? & _ & [=])]. eapply mapP_Forall2; [|exact Hr].
      intros ? ? ? Hx; by eapply run_limited_settles.
  - inversion Hg; subst. apply Forall2_same_length_lookup. pose proof (pool_steps_length _ _ _ _ Hs) as Hlen. rewrite !length_map in Hlen.
    split; [done|]. intros i c r Hc Hi.
    assert (Hrun : task_runs (Waiting (run_limited c)) (own i l') (Ended (Done r))).
    { eapply pool_runs; [exact Hs| |]; [by rewrite list_lookup_fmap, Hc|by rewrite list_lookup_fmap, Hi]. }
    destruct Hrun as [Hrun|(_ & ? & [=])]. by eapply run_limited_settles.
Qed.

Lemma distinct_keeps x seen l : x ∈ l -> x ∉ seen -> x ∈ distinct seen l.
Proof.
  revert seen; induction l as [|y l IH]; intros seen; [by intros ?%not_elem_of_nil|]. intros [->|Hx]%elem_of_cons Hs; cbn.
  - destruct (str_in y seen) eqn:E; [by apply str_in_spec in E|]. left.
  - destruct (str_in y seen) eqn:E; [by apply IH|]. destruct (decide (x = y)) as [->|Hne]; [left|right]. apply IH; [done|].
    by intros [|]%elem_of_cons.
Qed.

(** What no part of a rejected batch does. *)
Definition inert (e : event answer) : Prop := match e with Ev (Log _ _) _ | Ev (Chat _) _ => True | _ => False end.

Lemma contained_mapP {A B} (f : A -> program B) l : (forall x, contained (f x)) -> contained (mapP f l).
Proof.
  intros Hf. induction l as [|x l IH]; cbn; [apply contained_Ret|].
  apply contained_bind; [apply Hf|intros y]. apply contained_bind; [exact IH|intros ys; apply contained_Ret].
Qed.
Lemma exclusive_rejected calls c :
  (1 < length calls)%nat -> c ∈ calls -> str_in (call_name c) (exclusive_tools self) = true -> plan calls = Rejected.
Proof.
  intros Hn Hc Hx. unfold ToolExec.plan. assert ((1 <? len calls) = true) as -> by (unfold len; apply Z.ltb_lt; lia).
  enough (Hin : call_name c ∈ batched_exclusive self calls) by (destruct (batched_exclusive self calls); [by apply not_elem_of_nil in Hin|done]).
  unfold batched_exclusive. rewrite sort_by_perm. apply distinct_keeps; [|by intros ?%not_elem_of_nil].
  apply list_elem_of_In, filter_In. split; [|done]. apply list_elem_of_In. by apply list_elem_of_fmap_2.
Qed.
Lemma reject_inert text c : emits inert (reject subject display text c).
Proof. apply emits_bind; [apply emits_Do; [done|intros; apply emits_of_result]|intros; apply emits_Ret]. Qed.
(** The answer to a call of a rejected batch. *)
Definition refuses (calls : list ToolCall) (c : ToolCall) (r : @ToolResult other) : Prop :=
  settles c r /\ is_error r = true /\ result_content_of r = ResultText (rejection self calls).
Lemma reject_refuses calls c t r : runs (reject subject display (rejection self calls) c) t (Done r) -> refuses calls c r.
Proof.
  intros Hr. split; [by eapply reject_settles|]. revert Hr. unfold reject. by intros [(t3 & t4 & [] & -> & _ & [_ [= ->]])|(? & _ & [=])]%runs_bind.
Qed.

(** C33: A tool that must be called by itself never runs beside others.  When a
    reply has more than one call and one of them is exclusive, nothing is asked, no
    hook fires and no tool runs: the calls are only told of, in the log and in the
    chat.  Each call, in order, is answered with its own result, an error that
    names the exclusive tools; there is no such answer only when the turn is
    cancelled or one of these messages cannot be given, and then that very
    exception escapes. *)
Theorem exclusive_alone calls l o c :
  processed calls l o -> (1 < length calls)%nat -> c ∈ calls -> str_in (call_name c) (exclusive_tools self) = true ->
  Forall inert (map snd l)
  /\ match o with Done rs => Forall2 (refuses calls) calls rs | Threw e => gives_up (map snd l) e end.
Proof.
  intros H Hn Hc Hx. pose proof (exclusive_rejected calls c Hn Hc Hx) as Hplan.
  inversion H as [t o' Hp Hr|t e Hp|t l' ts o' Hp]; subst; [|congruence..]. unfold ToolExec.process_in_turn in Hr. rewrite Hplan in Hr.
  rewrite map_map, map_id. split.
  - revert Hr. apply emits_bind; [apply emits_Do; [done|intros; apply emits_of_result]|].
    intros _. apply emits_mapP. intros; apply reject_inert.
  - destruct o as [rs|e].
    + apply runs_bind in Hr as [(t1 & t2 & [] & -> & _ & Hr)|(? & _ & [=])].
      eapply mapP_Forall2; [|exact Hr]. intros; by eapply reject_refuses.
    + revert Hr. apply contained_bind; [apply contained_say|intros _]. apply contained_mapP. intros x.
      apply contained_bind; [apply contained_send|intros; apply contained_Ret].
Qed.

(** At most eight calls of a reply run at once. *)
Lemma parallel_limit calls l ts :
  pool_steps PARALLEL_TOOL_LIMIT (map (fun c => Waiting (run_limited c)) calls) l ts -> (count running ts <= PARALLEL_TOOL_LIMIT)%nat.
Proof.
  intros H. eapply pool_bounded; [exact H|]. assert (count running (map (fun c => Waiting (run_limited c)) calls) = 0%nat) as ->; [|lia].
  clear H. unfold count. induction calls as [|c cs IH]; [done|]. exact IH.
Qed.
End Facts.

(** ** A sample agent *)

Module Sample.
Definition text_of (v : value) : str := match v with VStr s => s | _ => [] end.
Definition param (n : string) (d : option value) : SigParameter := mkParameter (lit n) POSITIONAL_OR_KEYWORD d.
Definition exec_tool : Tool :=
  mkTool (lit "exec_command") 0 (lit "exec") (Some [param "command" None; param "yield_time_ms" (Some (VInt 10000))]) false None [] false.
Definition read_tool : Tool := mkTool (lit "read") 1 (lit "read") (Some [param "file_path" None]) true None [] false.
Definition switch_tool : Tool := mkTool (lit "switch_worktree") 2 (lit "switch") (Some [param "name" None]) false None [] false.
Definition agent_with (hooks : entries) : agent := {|
  registry := [(lit "exec_command", exec_tool); (lit "read", read_tool); (lit "switch_worktree", switch_tool)];
  exclusive_tools := [lit "switch_worktree"];
  hook_config := mkConfig hooks [];
  nested := false; thread_id := lit "t"; project := lit "/p"; anthropic := false
|}.

(** A person who allows what [allow] allows, and tools that answer their name. *)
Definition world (allow : PermissionRequest -> bool) (e : @effect unit) (w : unit) : answer e * unit :=
  (match e return answer e with
   | Log _ _ | Chat _ => Ok tt
   | ReadMode => ASK
   | Ask r => Ok (Some {| allowed := allow r; because := []; decided_rule := None |})
   | Process _ _ _ => Ok (Exited 2 [] (lit "stop"))
   | Python _ _ _ _ => Ok (ImportFailed [])
   | AskModel _ _ _ | AskAgent _ _ => Ok []
   | Handle h _ => if str_eqb h (lit "switch") then Raise (ToolError (lit "busy")) else Ok (ResultText h)
   | SetCurrent _ | SetEndTurn => tt
   end, w).

Definition call_of (tool : string) (args : dict) : ToolCall := mkCall (lit "c1") (lit tool) (VDict args) None (lit "json").
Definition execute (hooks : entries) (c : ToolCall) :=
  ToolExec.execute_single_tool (other := unit) text_of (fun s => s) (fun _ _ => []) text_of VStr (fun _ => None) (fun _ _ => None) (fun _ => [])
    (fun _ => None) (fun _ _ => []) (fun _ _ => VNone) (agent_with hooks) c.
Definition outcome_of (hooks : entries) allow c := (exec (world allow) (execute hooks c) tt).1.2.
Definition trace_of (hooks : entries) allow c := (exec (world allow) (execute hooks c) tt).1.1.
Definition list_files : ToolCall := call_of "exec_command" [(lit "command", VStr (lit "ls"))].
(** A hook on every tool event that blocks. *)
Definition blocking (e : HookEvent) : entries :=
  [(e, [([], [mkSpec HCommand 60 (lit "global") (Some (lit "guard")) None None None])])].

Definition handled (t : list (event (answer (other := unit)))) : list (str * dict) :=
  omap (fun e => match e with Ev (Handle h args) _ => Some (h, args) | _ => None end) t.
Definition asked (t : list (event (answer (other := unit)))) : list str :=
  omap (fun e => match e with Ev (Ask r) _ => Some (Permissions.command r) | _ => None end) t.
Definition ends_turn (t : list (event (answer (other := unit)))) : bool :=
  existsb (fun e => match e with Ev SetEndTurn _ => true | _ => false end) t.

Lemma consent_before_handler_witness :
  handled (trace_of [] (fun _ => true) list_files) = [(lit "exec", [(lit "command", VStr (lit "ls"))])]
  /\ (Forall quiet (trace_of [] (fun _ => true) list_files)
      \/ ran_with_consent text_of (fun s => s) (fun _ _ => []) text_of VStr (fun _ => None) (fun _ _ => None) (agent_with []) list_files
           (trace_of [] (fun _ => true) list_files)).
Proof.
  split; [vm_compute; reflexivity|].
  eapply (consent_before_handler text_of (fun s => s) (fun _ _ => []) text_of VStr (fun _ => None) (fun _ _ => None) (fun _ => [])
            (fun _ => None) (fun _ _ => []) (fun _ _ => VNone) (agent_with [])). apply exec_runs.
Defined.

Lemma call_always_answered_witness :
  (exists r, outcome_of [] (fun _ => true) list_files = Done r /\ is_error r = false /\ result_content_of r = ResultText (lit "exec")
     /\ answers list_files r)
  /\ exists t', trace_of [] (fun _ => true) list_files = t' ++ [Ev (answer := answer) (SetCurrent None) tt].
Proof.
  pose proof (call_always_answered text_of (fun s => s) (fun _ _ => []) text_of VStr (fun _ => None) (fun _ _ => None) (fun _ => [])
            (fun _ => None) (fun _ _ => []) (fun _ _ => VNone) (agent_with []) list_files _ _
            (exec_runs (world (fun _ => true)) (execute [] list_files) tt)) as (t' & Ht & H).
  split; [|by exists t'].
  assert (exists r, outcome_of [] (fun _ => true) list_files = Done r /\ is_error r = false /\ result_content_of r = ResultText (lit "exec"))
    as (r & E & Hr & Hc) by (eexists; split_and!; vm_compute; reflexivity).
  exists r. split_and!; [done..|]. unfold outcome_of in E. rewrite E in H. exact (proj1 H).
Defined.

Definition process (calls : list ToolCall) :=
  ToolExec.process_in_turn (other := unit) text_of (fun s => s) (fun _ _ => []) text_of VStr (fun _ => None) (fun _ _ => None) (fun _ => [])
    (fun _ => None) (fun _ _ => []) (fun _ _ => VNone) (agent_with []) calls.
Definition processes :=
  ToolExec.processed (other := unit) text_of (fun s => s) (fun _ _ => []) text_of VStr (fun _ => None) (fun _ _ => None) (fun _ => [])
    (fun _ => None) (fun _ _ => []) (fun _ _ => VNone) (agent_with []).
Definition two_calls : list ToolCall := [list_files; call_of "read" [(lit "path", VStr (lit "a.txt"))]].
Definition exclusive_batch : list ToolCall := [list_files; call_of "switch_worktree" [(lit "name", VStr (lit "w"))]].
Definition batch_run calls := exec (world (fun _ => true)) (process calls) tt.

Lemma results_match_calls_witness :
  exists rs, processes two_calls (map (pair O) (batch_run two_calls).1.1) (Done rs) /\ map is_error rs = [false; false]
             /\ Forall2 settles two_calls rs.
Proof.
  assert (H : exists rs, (batch_run two_calls).1.2 = Done rs /\ map is_error rs = [false; false]) by (eexists; split; vm_compute; reflexivity).
  destruct H as (rs & Hrs & He). exists rs.
  assert (Hp : processes two_calls (map (pair O) (batch_run two_calls).1.1) (Done rs)).
  { rewrite <- Hrs. apply in_turn; [vm_compute; congruence|apply exec_runs]. }
  split; [exact Hp|]. split; [exact He|]. exact (results_match_calls _ _ _ _ _ _ _ _ _ _ _ _ _ _ _ Hp).
Defined.

Lemma exclusive_alone_witness :
  exists rs l, processes exclusive_batch l (Done rs) /\ length rs = 2%nat
    /\ Forall inert (map snd l) /\ Forall2 (refuses (agent_with []) exclusive_batch) exclusive_batch rs.
Proof.
  assert (H : exists rs, (batch_run exclusive_batch).1.2 = Done rs /\ length rs = 2%nat) by (eexists; split; vm_compute; reflexivity).
  destruct H as (rs & Hrs & He). exists rs, (map (pair O) (batch_run exclusive_batch).1.1).
  assert (Hp : processes exclusive_batch (map (pair O) (batch_run exclusive_batch).1.1) (Done rs)).
  { rewrite <- Hrs. apply in_turn; [vm_compute; congruence|apply exec_runs]. }
  split; [exact Hp|]. split; [exact He|].
  refine (exclusive_alone _ _ _ _ _ _ _ _ _ _ _ _ exclusive_batch _ (Done rs) (call_of "switch_worktree" [(lit "name", VStr (lit "w"))]) Hp _ _ _).
  - cbn; lia.
  - right; left.
  - vm_compute; reflexivity.
Defined.

(** ** Where execution differs from what was shown or documented *)

(** The request for a permission is made from the arguments before aliases are
    resolved: the person is shown an empty command, and another one runs. *)
Lemma alias_hides_command :
  let c := call_of "exec_command" [(lit "cmd", VStr (lit "rm -rf /"))] in
  asked (trace_of [] (fun _ => true) c) = [[]]
  /\ handled (trace_of [] (fun _ => true) c) = [(lit "exec", [(lit "command", VStr (lit "rm -rf /"))])].
Proof. vm_compute. split; reflexivity. Qed.

(** A hook that blocks after a tool ends the turn, but not when the tool failed. *)
Lemma failed_block_ignored :
  ends_turn (trace_of (blocking POST_TOOL_USE) (fun _ => true) list_files) = true
  /\ ends_turn (trace_of (blocking POST_TOOL_USE) (fun _ => true) (call_of "switch_worktree" [(lit "name", VStr (lit "w"))])) = false.
Proof. vm_compute. split; reflexivity. Qed.

(** A hook that blocks before a tool keeps it from running. *)
Example blocked_before :
  handled (trace_of (blocking PRE_TOOL_USE) (fun _ => true) list_files) = []
  /\ handled (trace_of [] (fun _ => false) list_files) = [].
Proof. vm_compute. split; reflexivity. Qed.
End Sample.
