(* ===== verification/LlmErrors.v ===== *)
(** * Errors of language models

    Models [kolega_code/llm/exceptions.py]: the classes of errors, how an exception
    of a provider's library or of Python becomes one of them, and what the user is
    told.

    An exception from outside is a record of what the mapping reads: which of the
    tested classes it belongs to (the first that fits), [str(error)], and its
    attributes, [VNone] where one is missing.  [lower] is [str.lower], [title] is
    [str.title] and [alnum] the class of letters and digits of a [str] pattern. *)

From stdpp Require Import base list strings numbers.
From Stdlib Require Import ZArith Lia.
From S2P Require Import Prelude PyStr PyVal.

Inductive llm_class :=
| LLMError | LLMBadRequestError | LLMUnsupportedParamsError | LLMContextWindowExceededError | LLMContentPolicyViolationError
| LLMInvalidRequestError | LLMAuthenticationError | LLMPermissionDeniedError | LLMNotFoundError | LLMConnectionError | LLMTimeout
| LLMIncompleteResponseError | LLMStreamStalled | LLMUnprocessableEntityError | LLMRateLimitError | LLMBillingError
| LLMInternalServerError.
#[global] Instance llm_class_eq_dec : EqDecision llm_class.
Proof. solve_decision. Defined.

(** [isinstance(error, LLMTimeout)] and [isinstance(error, LLMConnectionError)]. *)
Definition is_timeout (c : llm_class) : bool := match c with LLMTimeout | LLMStreamStalled => true | _ => false end.
Definition is_connection (c : llm_class) : bool := is_timeout c || match c with LLMConnectionError | LLMIncompleteResponseError => true | _ => false end.

Definition class_name (c : llm_class) : str :=
  match c with
  | LLMError => lit "LLMError"
  | LLMBadRequestError => lit "LLMBadRequestError"
  | LLMUnsupportedParamsError => lit "LLMUnsupportedParamsError"
  | LLMContextWindowExceededError => lit "LLMContextWindowExceededError"
  | LLMContentPolicyViolationError => lit "LLMContentPolicyViolationError"
  | LLMInvalidRequestError => lit "LLMInvalidRequestError"
  | LLMAuthenticationError => lit "LLMAuthenticationError"
  | LLMPermissionDeniedError => lit "LLMPermissionDeniedError"
  | LLMNotFoundError => lit "LLMNotFoundError"
  | LLMConnectionError => lit "LLMConnectionError"
  | LLMTimeout => lit "LLMTimeout"
  | LLMIncompleteResponseError => lit "LLMIncompleteResponseError"
  | LLMStreamStalled => lit "LLMStreamStalled"
  | LLMUnprocessableEntityError => lit "LLMUnprocessableEntityError"
  | LLMRateLimitError => lit "LLMRateLimitError"
  | LLMBillingError => lit "LLMBillingError"
  | LLMInternalServerError => lit "LLMInternalServerError"
  end.

(** [bytes_received] and [partial_output] of a stalled stream; [partial_message]
    of an incomplete response. *)
Record llm_error (message : Type) := mkLlm {
  cls : llm_class;
  text : str;
  provider : option str;
  bytes_received : Z;
  partial_output : bool;
  partial_message : option message
}.
Arguments mkLlm {message}.
Arguments cls {message}.
Arguments text {message}.
Arguments provider {message}.
Arguments bytes_received {message}.
Arguments partial_output {message}.
Arguments partial_message {message}.
Definition zero_output {message} (e : llm_error message) : bool := e.(bytes_received) <=? 0.

Inductive sdk_kind := APITimeoutError | APIConnectionError | APIStatusError | InternalServerError | OtherSdkError.
Inductive error_kind :=
| OpenAIError (k : sdk_kind) | GoogleAPIError | AnthropicError (k : sdk_kind)
| ValueError | HttpxTimeout | TimeoutError | ConnectionError | AiohttpClientError | HttpxTransportError
| KeyError | TypeError | RuntimeError | OtherException.
Record foreign := mkForeign {
  kind : error_kind;
  type_name : str;
  shown : str;                      (* [str(error)] *)
  status_code : value;
  status : option value;            (* [None]: no such attribute *)
  code : value;
  type_ : value;
  body : value;
  message_attribute : option value;
  retry_header : value;             (* [error.response.headers.get("retry-after")] *)
  retry_attribute : value
}.

(** The loop sees its own errors, those of the journal, cancellation, and any other. *)
Inductive raised (message : Type) := CancelledError | Persistence (why : str) | Llm (e : llm_error message) | Foreign (f : foreign).
Arguments CancelledError {message}.
Arguments Persistence {message}.
Arguments Llm {message}.
Arguments Foreign {message}.

(** ** Small parsers *)

Definition contains (sub s : str) : bool := 0 <? count_sub sub s.
Definition any_in (phrases : list str) (s : str) : bool := existsb (fun p => contains p s) phrases.
Definition fields (v : value) : list (str * value) := match v with VDict d => d | _ => [] end.

(** The pattern of exhausted quotas, without case.  On words joined by single
    spaces [\s*] is an optional space. *)
Inductive re := Lit (s : str) | Seq (a b : re) | Alt (a b : re) | Opt (a : re).
Definition fold_case (c : Z) : Z :=
  if (65 <=? c) && (c <=? 90) then c + 32
  else if (c =? 304) || (c =? 305) then 105 else if c =? 383 then 115 else if c =? 8490 then 107 else c.
(** What may follow a match of [r] at the beginning. *)
Fixpoint rests (r : re) (s : str) : list str :=
  match r with
  | Lit p => if startswith p (map fold_case (take (length p) s)) then [drop (length p) s] else []
  | Seq a b => flat_map (rests b) (rests a s)
  | Alt a b => rests a s ++ rests b s
  | Opt a => rests a s ++ [s]
  end.
Definition word (s : string) : re := Lit (lit s).
Definition quota_body : re :=
  let api := Opt (Alt (word "api ") (word "current ")) in
  Alt (Seq (word "you ") (Seq (Opt (word "have ")) (Seq (word "exceeded your ") (Seq api (word "quota")))))
  (Alt (Seq (Opt (Seq (word "your ") api))
         (Seq (word "quota ") (Seq (Opt (word "has been ")) (Alt (word "exceeded") (word "exhausted")))))
  (Alt (Seq (word "insufficient ") (Alt (Seq (word "credit") (Opt (word "s"))) (word "balance")))
       (word "your account has run out of credits"))).
Definition _PERPLEXITY_QUOTA_MESSAGE : re := Seq (Opt (Seq (word "unauthorized:") (Opt (word " ")))) quota_body.

Section Mapping.
Context {message : Type}.
Abbreviation llm := (llm_error message).
Variable lower : str -> str.
Variable title : str -> str.
Variable alnum : Z -> bool.
Variable repr : value -> str.

Definition made (c : llm_class) (why : str) (p : option str) : llm := mkLlm c why p 0 false None.

(** ** Recognising the causes *)

Definition word_char (c : Z) : bool := alnum c || (c =? 95).
(** [\b] after a letter. *)
Definition word_ends (s : str) : bool := match s with [] => true | c :: _ => negb (word_char c) end.
Definition quota_message (m : str) : bool := existsb word_ends (rests _PERPLEXITY_QUOTA_MESSAGE (join (lit " ") (split_ws m))).
Definition _PERPLEXITY_QUOTA_CODES : list str :=
  [lit "insufficient_quota"; lit "quota_exceeded"; lit "quota_exhausted"; lit "insufficient_credits"; lit "insufficient_balance"].

Definition strings (l : list value) : list str := omap (fun v => match v with VStr s => Some s | _ => None end) l.
Definition is_openai (k : error_kind) : bool := match k with OpenAIError _ => true | _ => false end.
Definition is_perplexity_quota_error (e : foreign) (p : option str) : bool :=
  if negb (bool_decide (p = Some (lit "perplexity_agent"))) || negb (is_openai (kind e)) then false
  else
    let info := get (fields (body e)) (lit "error") in
    let entries := match body e with VDict d => d :: (match info with VDict d' => [d'] | _ => [] end) | _ => [] end in
    let codes := [code e; type_ e] ++ flat_map (fun d => [get d (lit "code"); get d (lit "type")]) entries in
    let messages := strings (map (fun d => get d (lit "message")) entries)
                    ++ match body e with VDict _ => strings [info] | v => strings [v] end in
    let messages := if nonempty messages then messages
                    else strings [default (VStr (shown e)) (message_attribute e)] in
    existsb (fun c => str_in c _PERPLEXITY_QUOTA_CODES) (strings codes) || existsb quota_message messages.

Definition _BILLING_ERROR_PHRASES : list str :=
  [lit "insufficient balance"; lit "insufficient credit"; lit "insufficient credits"; lit "payment required"; lit "billing"].
Definition _is_billing_status (e : foreign) : bool := eq_int (status_code e) 402 || eq_int (default VNone (status e)) 402.
Definition _is_billing_message (m : str) : bool := any_in _BILLING_ERROR_PHRASES (lower m).
Definition _anthropic_body_error_message (e : foreign) : str :=
  match body e with
  | VDict d => match get d (lit "error") with VDict info => strip (str_or_empty repr (get info (lit "message"))) | _ => [] end
  | _ => []
  end.

Definition _CLOUDFLARE_BILLING_CODES : list Z := [3036; 5035].
Definition _CLOUDFLARE_BILLING_PHRASES : list str :=
  [lit "daily free allocation"; lit "requires a workers paid plan"; lit "not available on the workers free plan"].
Definition _CLOUDFLARE_CONTEXT_CODES : list Z := [5021].
Definition _CLOUDFLARE_CONTEXT_PHRASES : list str :=
  [lit "maximum context length"; lit "context window limit"; lit "context length"; lit "context window"; lit "too many input tokens";
   lit "prompt is too long"].
Definition _CLOUDFLARE_NOT_FOUND_CODES : list Z := [5007].
(** Texts of digits; on superscripts, which [isdigit] accepts too, [int] raises. *)
Definition _cloudflare_error_codes (e : foreign) : list Z :=
  match body e with
  | VDict d =>
      match get d (lit "errors") with
      | VList l => omap (fun entry => match entry with
                                      | VDict c => match get c (lit "code") with
                                                   | VInt n => Some n
                                                   | VStr s => if nonempty s && forallb is_digit s then Some (digits_value s) else None
                                                   | _ => None
                                                   end
                                      | _ => None
                                      end) l
      | _ => []
      end
  | _ => []
  end.
Definition any_code (codes known : list Z) : bool := existsb (fun c => existsb (Z.eqb c) known) codes.

(** ** The providers' libraries *)

Definition openai_text (e : foreign) : str := lit "OpenAI APIError: " ++ shown e.
Definition _map_cloudflare_openai_error (e : foreign) (p : option str) : option llm :=
  let low := lower (shown e) in
  let codes := _cloudflare_error_codes e in
  if any_code codes _CLOUDFLARE_BILLING_CODES || any_in _CLOUDFLARE_BILLING_PHRASES low then Some (made LLMBillingError (openai_text e) p)
  else if any_code codes _CLOUDFLARE_CONTEXT_CODES || eq_int (status_code e) 413
          || (eq_int (status_code e) 400 && any_in _CLOUDFLARE_CONTEXT_PHRASES low)
  then Some (made LLMContextWindowExceededError (openai_text e) p)
  else if any_code codes _CLOUDFLARE_NOT_FOUND_CODES then Some (made LLMNotFoundError (openai_text e) p)
  else None.
Definition _is_refuseless_billing_error (e : foreign) : bool :=
  _is_billing_status e
  || (let entries := match body e with
                     | VDict d => d :: (match get d (lit "error") with VDict d' => [d'] | _ => [] end)
                     | _ => []
                     end in
      existsb (str_eqb (lit "insufficient_credits"))
        (strings ([code e; type_ e] ++ flat_map (fun d => [get d (lit "code"); get d (lit "type")]) entries))).

(** [provider or ModelProvider.X.value]. *)
Definition or_provider (p : option str) (d : string) : option str := match p with Some (c :: s) => Some (c :: s) | _ => Some (lit d) end.

(** The class of a status code of OpenAI, if it decides. *)
Definition openai_status (e : foreign) : option llm_class :=
  let at_ := eq_int (status_code e) in
  if at_ 400 then Some (match code e with VStr s => if str_eqb s (lit "context_length_exceeded") then LLMContextWindowExceededError else LLMInvalidRequestError
                       | _ => LLMInvalidRequestError end)
  else if at_ 401 then Some LLMAuthenticationError
  else if at_ 403 then Some LLMPermissionDeniedError
  else if at_ 404 then Some LLMNotFoundError
  else if at_ 408 then Some LLMTimeout
  else if at_ 409 then Some LLMInternalServerError
  else if at_ 422 then Some LLMUnprocessableEntityError
  else if at_ 429 then Some LLMRateLimitError
  else match as_int (status_code e) with
       | Some n => if (500 <=? n) && (n <=? 599) then Some LLMInternalServerError else None
       | None => None
       end.
Definition transport (k : error_kind) : llm_class :=
  match k with
  | OpenAIError APITimeoutError | AnthropicError APITimeoutError => LLMTimeout
  | OpenAIError APIConnectionError | AnthropicError APIConnectionError => LLMConnectionError
  | _ => LLMError
  end.
Definition map_openai_errors (e : foreign) (p : option str) : llm :=
  let p := or_provider p "openai" in
  let at_ name := bool_decide (p = Some name) in
  let mapped c := made c (openai_text e) p in
  if at_ (lit "refuseless") && _is_refuseless_billing_error e then mapped LLMBillingError
  else if is_perplexity_quota_error e p then mapped LLMBillingError
  else match (if at_ (lit "cloudflare_workers_ai") then _map_cloudflare_openai_error e p else None) with
       | Some m => m
       | None => mapped (default (transport (kind e)) (openai_status e))
       end.

Definition map_google_errors (e : foreign) (p : option str) : llm :=
  let p := or_provider p "google" in
  let mapped c := made c (lit "GoogleAPIError: " ++ shown e) p in
  let other := made LLMError (lit "Google APIError: " ++ shown e) p in
  match status e with
  | Some s =>
      if eq_int s 400 then mapped LLMInvalidRequestError
      else if eq_int s 403 then mapped LLMPermissionDeniedError
      else if eq_int s 429 then mapped LLMRateLimitError
      else if eq_int s 500 then mapped LLMInternalServerError
      else other
  | None => other
  end.

Definition context_window_phrases : list str :=
  [lit "exceeded model token limit"; lit "context window"; lit "maximum context length"; lit "prompt is too long"].
(** The [try] block: what raises in it is passed over. *)
Definition anthropic_body (e : foreign) : option llm_class :=
  match body e with
  | VDict d =>
      match dict_get d (lit "error") with
      | Some (VDict info) =>
          match (match get info (lit "message") with VStr s => Some (strip s) | v => if truthy v then None else Some [] end) with
          | Some m =>
              let at_ t := match get info (lit "type") with VStr s => str_eqb s (lit t) | _ => false end in
              if at_ "overloaded_error" || at_ "api_error" then Some LLMInternalServerError
              else if any_in context_window_phrases (lower m) then Some LLMContextWindowExceededError
              else if at_ "invalid_request_error" && str_eqb m (lit "Output blocked by content filtering policy")
              then Some LLMContentPolicyViolationError
              else None
          | None => None
          end
      | _ => None
      end
  | _ => None
  end.
Definition anthropic_status (e : foreign) : option llm_class :=
  let at_ := eq_int (status_code e) in
  if at_ 400 then Some (if any_in context_window_phrases (lower (shown e)) then LLMContextWindowExceededError else LLMInvalidRequestError)
  else if at_ 401 then Some LLMAuthenticationError
  else if at_ 403 then Some LLMPermissionDeniedError
  else if at_ 404 then Some LLMNotFoundError
  else if at_ 413 then Some LLMContextWindowExceededError
  else if at_ 429 then Some LLMRateLimitError
  else if at_ 500 then Some LLMInternalServerError
  else if at_ 529 then Some LLMInternalServerError
  else None.
Definition map_anthropic_errors (e : foreign) (p : option str) : llm :=
  let p := or_provider p "anthropic" in
  let mapped c := made c (lit "AnthropicError: " ++ shown e) p in
  if _is_billing_status e || _is_billing_message (_anthropic_body_error_message e) || _is_billing_message (shown e)
  then mapped LLMBillingError
  else match (match kind e with AnthropicError APIStatusError => anthropic_body e | _ => None end) with
       | Some c => mapped c
       | None =>
           match kind e with
           | AnthropicError InternalServerError => mapped LLMInternalServerError
           | k => mapped (default (transport k) (anthropic_status e))
           end
       end.

(** [getattr(error, "status_code", None)], and [status] when that is [None]. *)
Definition any_status (e : foreign) : value :=
  match status_code e with VNone => default VNone (status e) | v => v end.
Definition map_tinker_errors (e : foreign) (p : option str) : option llm :=
  match as_int (any_status e) with
  | None => None
  | Some n =>
      let mapped c (prefix : string) := Some (made c (lit prefix ++ lit ": " ++ shown e) p) in
      if (n =? 401) || (n =? 403) then mapped LLMAuthenticationError "Tinker auth error"
      else if (n =? 402) || contains (lit "billing") (lower (shown e)) then mapped LLMBillingError "Tinker billing error"
      else if n =? 429 then mapped LLMRateLimitError "Tinker rate limit"
      else if (400 <=? n) && (n <? 500) then mapped LLMInvalidRequestError "Tinker request error"
      else if 500 <=? n then mapped LLMInternalServerError "Tinker server error"
      else None
  end.

(** Python's own exceptions and those of the HTTP libraries. *)
Definition map_python_errors (e : foreign) (p : option str) : llm :=
  let mapped c (prefix : string) := made c (lit prefix ++ lit ": " ++ shown e) p in
  match kind e with
  | ValueError => mapped LLMInvalidRequestError "Invalid parameter"
  | HttpxTimeout | TimeoutError => mapped LLMTimeout "Request timeout"
  | ConnectionError => mapped LLMConnectionError "Connection error"
  | AiohttpClientError => mapped LLMConnectionError "HTTP client error"
  | HttpxTransportError => mapped LLMConnectionError "HTTPX transport error"
  | KeyError => mapped LLMInvalidRequestError "Missing required parameter"
  | TypeError => mapped LLMInvalidRequestError "Invalid parameter type"
  | RuntimeError => mapped LLMInternalServerError "Runtime error"
  | _ => made LLMError (lit "Unexpected error (" ++ type_name e ++ lit "): " ++ shown e) p
  end.

(** [tinker]: its library is loaded.  Not called on a cancellation; an error of
    the journal is a [RuntimeError]. *)
Definition map_to_llm_error (tinker : bool) (x : raised message) (p : option str) : llm :=
  match x with
  | Llm e => e
  | CancelledError => made LLMError [] p
  | Persistence why => made LLMInternalServerError (lit "Runtime error: " ++ why) p
  | Foreign e =>
      match kind e with
      | OpenAIError _ => map_openai_errors e p
      | GoogleAPIError => map_google_errors e p
      | AnthropicError _ => map_anthropic_errors e p
      | _ => match (if tinker then map_tinker_errors e p else None) with Some m => m | None => map_python_errors e p end
      end
  end.

(** ** What the user is told *)

Definition provider_names : list (str * str) :=
  [(lit "anthropic", lit "Anthropic"); (lit "openai", lit "OpenAI"); (lit "google", lit "Google"); (lit "groq", lit "Groq");
   (lit "together", lit "Together"); (lit "fireworks", lit "Fireworks"); (lit "xai", lit "xAI"); (lit "dashscope", lit "DashScope");
   (lit "moonshot", lit "Moonshot"); (lit "deepseek", lit "DeepSeek"); (lit "llama", lit "Llama"); (lit "ollama_cloud", lit "Ollama Cloud");
   (lit "cloudflare_workers_ai", lit "Cloudflare Workers AI"); (lit "openrouter", lit "OpenRouter");
   (lit "perplexity_agent", lit "Perplexity"); (lit "refuseless", lit "Refuseless")].
Definition _provider_display_name (p : option str) : str :=
  match p with
  | Some (c :: s) => default (title (replace (lit "-") (lit " ") (replace (lit "_") (lit " ") (c :: s)))) (dict_get provider_names (c :: s))
  | _ => lit "The selected provider"
  end.
Definition provider_model (p : option str) (model : str) : str :=
  _provider_display_name p ++ (if nonempty model then lit "/" ++ model else []).

Definition billing_error_message (e : llm) (model : str) : str :=
  let name := _provider_display_name (provider e) in
  if bool_decide (provider e = Some (lit "cloudflare_workers_ai"))
  then provider_model (provider e) model
       ++ lit " could not run this request: the Cloudflare account has used its daily free Workers AI allocation, or this model requires the Workers Paid plan. Upgrade the account to Workers Paid or switch to another provider/model in Settings or with /model."
  else provider_model (provider e) model ++ lit " could not run this request because " ++ name
       ++ lit " reported insufficient balance. Add credits to your " ++ name
       ++ lit " account or switch to another provider/model in Settings or with /model.".

Definition _PROVIDER_ERROR_PREFIXES : list str :=
  [lit "OpenAI APIError: "; lit "AnthropicError: "; lit "GoogleAPIError: "; lit "Google APIError: "; lit "Tinker request error: ";
   lit "Invalid parameter: "; lit "Missing required parameter: "; lit "Invalid parameter type: "].
Definition _MAX_PROVIDER_DETAIL_CHARS : Z := 300.
Fixpoint drop_prefix (l : list str) (s : str) : str :=
  match l with [] => s | p :: l' => if startswith p s then slice_from s (len p) else drop_prefix l' s end.
Definition ELLIPSIS : Z := 8230.
Definition _provider_error_detail (e : llm) : str :=
  let detail := join (lit " ") (split_ws (drop_prefix _PROVIDER_ERROR_PREFIXES (text e))) in
  if _MAX_PROVIDER_DETAIL_CHARS <? len detail then rstrip (slice_to detail _MAX_PROVIDER_DETAIL_CHARS) ++ [ELLIPSIS] else detail.

Definition llm_error_message (e : llm) (model : str) : str :=
  let says (s : string) := provider_model (provider e) model ++ lit s in
  match cls e with
  | LLMBillingError => billing_error_message e model
  | LLMContextWindowExceededError =>
      lit "The conversation context became too large for the model. Oversized tool output is trimmed automatically; please retry the message."
  | LLMInternalServerError => lit "There is high traffic on our LLM provider right now. Please try again in a few seconds."
  | LLMAuthenticationError => says " could not authenticate. Check the API key in Settings or your environment."
  | LLMPermissionDeniedError => says " rejected this request because the API key does not have access."
  | LLMNotFoundError => says " was not found. Check the selected provider/model in Settings or with /model."
  | LLMTimeout | LLMStreamStalled => says " timed out while processing this request. Please try again."
  | LLMConnectionError | LLMIncompleteResponseError => says " could not be reached (connection error). Please try again."
  | LLMContentPolicyViolationError => says " blocked this request due to the provider's content policy."
  | LLMBadRequestError | LLMUnsupportedParamsError | LLMInvalidRequestError | LLMUnprocessableEntityError =>
      let detail := _provider_error_detail e in
      if nonempty detail then says " could not process this request: " ++ detail
      else says " could not process this request. Check the selected provider/model and try again."
  | LLMError | LLMRateLimitError => says " returned an error: " ++ text e
  end.

(** ** The documented table *)

Inductive family := OpenAI | Google | Anthropic.
(** The rows of the module's table; [None] for the rows that say "Other". *)
Definition error_table (f : family) (status : Z) : option llm_class :=
  let find l := match List.find (fun r => fst r =? status) l with Some r => Some (snd r) | None => None end in
  match f with
  | OpenAI => find [(400, LLMInvalidRequestError); (401, LLMAuthenticationError); (403, LLMPermissionDeniedError); (404, LLMNotFoundError);
                    (422, LLMUnprocessableEntityError); (429, LLMRateLimitError); (500, LLMInternalServerError)]
  | Google => find [(400, LLMInvalidRequestError); (403, LLMPermissionDeniedError); (429, LLMRateLimitError); (500, LLMInternalServerError)]
  | Anthropic => find [(400, LLMInvalidRequestError); (401, LLMAuthenticationError); (403, LLMPermissionDeniedError); (404, LLMNotFoundError);
                       (402, LLMBillingError); (413, LLMContextWindowExceededError); (429, LLMRateLimitError); (500, LLMInternalServerError);
                       (529, LLMInternalServerError)]
  end.
End Mapping.
