(* ===== verification/AgentStream.v ===== *)
(** * The chunks of a streamed reply

    Models how [_agent_loop_stream] of [kolega_code/agent/baseagent.py] cuts a reply
    into the chunks that a turn yields: text and thinking are gathered to pieces of
    sixteen characters, a change from one to the other closes the segment, and each
    segment has an identifier under which frontends assemble it.

    [uuid4 n] is the n-th identifier that is made; nothing is assumed of it but, for
    the last theorem, that identifiers differ. *)

From stdpp Require Import base list strings numbers.
From Stdlib Require Import ZArith Lia.
From S2P Require Import Prelude PyStr PyVal.

Inductive chunk_kind := Thought | Said.
#[global] Instance chunk_kind_eq_dec : EqDecision chunk_kind.
Proof. solve_decision. Defined.
Record chunk := mkChunk { kind : chunk_kind; content : str; complete : bool; stream_uuid : str }.

(** What the provider streams; other events do not concern the chunks, and the
    delta of a tool call that is missing or empty makes an other event. *)
Inductive stream_event := Text (text : str) | Thinking (thinking : str) | ToolUseStart (delta : value) | HostedToolCall (delta : value) | OtherEvent.

Section Stream.
Variable uuid4 : nat -> str.

Record segments := mkSegments {
  current_response : str;
  current_thinking : str;
  thinking_started : bool;
  response_started : bool;
  response_uuid : nat;
  thinking_uuid : nat;
  made : nat;                       (* identifiers made so far *)
  rendered : bool                   (* [attempt_rendered_output] *)
}.
Definition STREAM_FLUSH_CHARS : Z := 16.
Definition new_segments (made : nat) : segments := mkSegments [] [] false false made (S made) (S (S made)) false.

(** [_stream_chunk]. *)
Definition _stream_chunk (k : chunk_kind) (text : str) (c : bool) (u : nat) : chunk := mkChunk k text c (uuid4 u).
Definition shown (s : segments) (text : str) : bool := rendered s || nonempty text.

(** An open segment of thinking is closed, with a new identifier for the next. *)
Definition close_thinking (s : segments) : list chunk * segments :=
  if thinking_started s || nonempty (current_thinking s)
  then ([_stream_chunk Thought (current_thinking s) true (thinking_uuid s)],
        mkSegments (current_response s) [] false (response_started s) (response_uuid s) (made s) (S (made s)) (shown s (current_thinking s)))
  else ([], s).
(** The response so far, closed; [rotate] makes a new identifier. *)
Definition close_response (rotate : bool) (s : segments) : list chunk * segments :=
  ([_stream_chunk Said (current_response s) true (response_uuid s)],
   mkSegments [] (current_thinking s) (thinking_started s) false (if rotate then made s else response_uuid s) (thinking_uuid s)
     (if rotate then S (made s) else made s) (shown s (current_response s))).

Definition take_text (text : str) (s : segments) : list chunk * segments :=
  let response := current_response s ++ text in
  if STREAM_FLUSH_CHARS <=? len response
  then ([_stream_chunk Said response false (response_uuid s)],
        mkSegments [] (current_thinking s) (thinking_started s) true (response_uuid s) (thinking_uuid s) (made s) (shown s response))
  else ([], mkSegments response (current_thinking s) (thinking_started s) (response_started s) (response_uuid s) (thinking_uuid s) (made s) (rendered s)).
Definition take_thinking (text : str) (s : segments) : list chunk * segments :=
  let thinking := current_thinking s ++ text in
  if STREAM_FLUSH_CHARS <=? len thinking
  then ([_stream_chunk Thought thinking false (thinking_uuid s)],
        mkSegments (current_response s) [] true (response_started s) (response_uuid s) (thinking_uuid s) (made s) (shown s thinking))
  else ([], mkSegments (current_response s) thinking (thinking_started s) (response_started s) (response_uuid s) (thinking_uuid s) (made s) (rendered s)).

(** One step after the other. *)
Definition then_ (r : list chunk * segments) (f : segments -> list chunk * segments) : list chunk * segments :=
  let '(l, s) := r in let '(l', s') := f s in (l ++ l', s').

Definition stream_step (s : segments) (e : stream_event) : list chunk * segments :=
  match e with
  | Text text => then_ (close_thinking s) (take_text text)
  | Thinking [] => ([], s)
  | Thinking text =>
      then_ (if response_started s || nonempty (current_response s) then close_response true s else ([], s)) (take_thinking text)
  | ToolUseStart _ => close_response false s
  | HostedToolCall _ => then_ (close_thinking s) (close_response true)
  | OtherEvent => ([], s)
  end.
Fixpoint stream_steps (s : segments) (es : list stream_event) : list chunk * segments :=
  match es with [] => ([], s) | e :: es' => then_ (stream_step s e) (fun s => stream_steps s es') end.

(** After the reply is committed: what is open is closed. *)
Definition last_chunks (s : segments) : list chunk :=
  (if thinking_started s || nonempty (current_thinking s) then [_stream_chunk Thought (current_thinking s) true (thinking_uuid s)] else [])
  ++ [_stream_chunk Said (current_response s) true (response_uuid s)].
Definition streamed (made : nat) (es : list stream_event) : list chunk :=
  let '(l, s) := stream_steps (new_segments made) es in l ++ last_chunks s.

(** ** What is shown is what was said *)

(** The characters, each with the kind of its text, in the order of the stream. *)
Definition tagged (k : chunk_kind) (text : str) : list (chunk_kind * Z) := map (pair k) text.
Definition chunk_chars (c : chunk) : list (chunk_kind * Z) := tagged (kind c) (content c).
Definition event_chars (e : stream_event) : list (chunk_kind * Z) :=
  match e with Text t => tagged Said t | Thinking t => tagged Thought t | _ => [] end.
(** What is gathered but not yet yielded: never both. *)
Definition held (s : segments) : list (chunk_kind * Z) := tagged Thought (current_thinking s) ++ tagged Said (current_response s).
Definition one_held (s : segments) : Prop := current_thinking s = [] \/ current_response s = [].

Ltac flat := unfold chunk_chars, tagged; cbn; rewrite ?map_app, ?app_nil_r, <- ?app_assoc; cbn; rewrite ?app_nil_r.

Lemma close_thinking_held s l s' :
  close_thinking s = (l, s') -> one_held s -> concat (map chunk_chars l) ++ held s' = held s /\ current_thinking s' = []
    /\ current_response s' = current_response s /\ response_started s' = response_started s.
Proof.
  unfold close_thinking, held. destruct (thinking_started s || nonempty (current_thinking s)) eqn:E; intros [= <- <-] _; flat; [done|].
  apply orb_false_iff in E as [_ E]. by destruct (current_thinking s).
Qed.
Lemma close_response_held b s l s' :
  close_response b s = (l, s') -> one_held s -> concat (map chunk_chars l) ++ held s' = held s /\ current_response s' = []
    /\ current_thinking s' = current_thinking s.
Proof.
  unfold close_response, held. intros [= <- <-] Ho. cbn. rewrite !app_nil_r. split_and!; [|done..].
  unfold chunk_chars, tagged. cbn. destruct Ho as [-> | ->]; cbn; by rewrite ?app_nil_r.
Qed.

Lemma stream_step_chars s e l s' :
  stream_step s e = (l, s') -> one_held s -> concat (map chunk_chars l) ++ held s' = held s ++ event_chars e /\ one_held s'.
Proof.
  intros H Ho. destruct e as [text|[|c text]|d|d|]; cbn [stream_step] in H.
  - destruct (close_thinking s) as [l1 s1] eqn:E1. apply close_thinking_held in E1 as (H1 & Ht & _); [|done]. cbn in H.
    unfold take_text in H. rewrite <- H1. destruct (STREAM_FLUSH_CHARS <=? _); injection H as <- <-; unfold held; rewrite map_app, concat_app; flat;
      rewrite Ht; cbn; rewrite ?map_app, ?app_nil_r, <- ?app_assoc; (split; [done|by left]).
  - injection H as <- <-. cbn. by rewrite app_nil_r.
  - set (t := c :: text) in *.
    assert (H1 : exists l1 s1, (if response_started s || nonempty (current_response s) then close_response true s else ([], s)) = (l1, s1)
      /\ concat (map chunk_chars l1) ++ held s1 = held s /\ current_response s1 = []).
    { destruct (response_started s || nonempty (current_response s)) eqn:E.
      - eexists _, _. split; [reflexivity|]. destruct (close_response_held true s _ _ eq_refl Ho) as (? & ? & _). done.
      - eexists _, _. split; [reflexivity|]. split; [done|]. apply orb_false_iff in E as [_ E]. by destruct (current_response s). }
    destruct H1 as (l1 & s1 & E1 & H1 & Hr). rewrite E1 in H. cbn in H. unfold take_thinking in H. rewrite <- H1.
    destruct (STREAM_FLUSH_CHARS <=? _); injection H as <- <-; unfold held; rewrite map_app, concat_app; flat;
      rewrite Hr; cbn; rewrite ?map_app, ?app_nil_r, <- ?app_assoc; (split; [done|by right]).
  - apply close_response_held in H as (H1 & H2 & _); [|done]. rewrite H1. cbn. rewrite app_nil_r. split; [done|by right].
  - destruct (close_thinking s) as [l1 s1] eqn:E1. apply close_thinking_held in E1 as (H1 & Ht & _); [|done]. cbn [then_] in H.
    destruct (close_response true s1) as [l2 s2] eqn:E2. apply close_response_held in E2 as (H2 & Hr & Ht2); [|by left].
    injection H as <- <-. rewrite map_app, concat_app, <- app_assoc, H2, H1. cbn. rewrite app_nil_r. split; [done|by right].
  - injection H as <- <-. cbn. by rewrite app_nil_r.
Qed.

Lemma stream_steps_chars es : forall s l s', stream_steps s es = (l, s') -> one_held s ->
  concat (map chunk_chars l) ++ held s' = held s ++ concat (map event_chars es) /\ one_held s'.
Proof.
  induction es as [|e es IH]; intros s l s'; cbn; [intros [= <- <-]; by rewrite app_nil_r|].
  destruct (stream_step s e) as [l1 s1] eqn:E1. cbn. destruct (stream_steps s1 es) as [l2 s2] eqn:E2. intros [= <- <-] Ho.
  apply stream_step_chars in E1 as [H1 Ho1]; [|done]. apply IH in E2 as [H2 Ho2]; [|done].
  rewrite map_app, concat_app, <- app_assoc, H2, app_assoc, H1, <- app_assoc. done.
Qed.

Lemma last_chunks_held s : concat (map chunk_chars (last_chunks s)) = held s.
Proof.
  unfold last_chunks, held. destruct (thinking_started s || nonempty (current_thinking s)) eqn:E; flat; [done|].
  apply orb_false_iff in E as [_ E]. by destruct (current_thinking s).
Qed.

(** ** Every segment is closed *)

(** The last chunk of a segment, if it has one, is complete. *)
Definition closed (l : list chunk) (u : str) : Prop :=
  match rev (List.filter (fun c => str_eqb (stream_uuid c) u) l) with c :: _ => complete c = true | [] => True end.

Lemma closed_app_other l l' u : Forall (fun c => stream_uuid c <> u) l' -> closed l u -> closed (l ++ l') u.
Proof.
  intros H. unfold closed. rewrite List.filter_app. assert (List.filter (fun c => str_eqb (stream_uuid c) u) l' = []) as ->; [|by rewrite app_nil_r].
  induction H as [|c l' Hc _ IH]; [done|]. cbn. destruct (str_eqb (stream_uuid c) u) eqn:E; [by apply str_eqb_eq in E|done].
Qed.
Lemma closed_last l c u : complete c = true \/ stream_uuid c <> u -> (stream_uuid c <> u -> closed l u) -> closed (l ++ [c]) u.
Proof.
  intros Hc Hl. unfold closed. rewrite List.filter_app. cbn. destruct (str_eqb (stream_uuid c) u) eqn:E.
  - rewrite rev_app_distr. cbn. destruct Hc as [Hc|Hc]; [done|by apply str_eqb_eq in E].
  - rewrite app_nil_r. apply Hl. intros Hu. apply str_eqb_eq in Hu. congruence.
Qed.

Hypothesis uuid_inj : forall i j, uuid4 i = uuid4 j -> i = j.

(** What is open: at most the segments with the two current identifiers. *)
Definition tidy (l : list chunk) (s : segments) : Prop :=
  (forall u, u <> uuid4 (response_uuid s) -> u <> uuid4 (thinking_uuid s) -> closed l u)
  /\ (thinking_started s = false -> closed l (uuid4 (thinking_uuid s)))
  /\ (response_uuid s < made s)%nat /\ (thinking_uuid s < made s)%nat /\ response_uuid s <> thinking_uuid s
  /\ (forall i, (made s <= i)%nat -> Forall (fun c => stream_uuid c <> uuid4 i) l).

Lemma fresh_closed l i : Forall (fun c => stream_uuid c <> uuid4 i) l -> closed l (uuid4 i).
Proof. intros H. change l with ([] ++ l). by apply closed_app_other. Qed.
Lemma fresh_app l c i : Forall (fun c => stream_uuid c <> uuid4 i) l -> stream_uuid c <> uuid4 i -> Forall (fun c => stream_uuid c <> uuid4 i) (l ++ [c]).
Proof. intros H Hc. apply Forall_app. split; [done|by constructor]. Qed.

Lemma uuid_ne i j : i <> j -> uuid4 i <> uuid4 j.
Proof. intros H E. by apply H, uuid_inj. Qed.

Lemma close_thinking_tidy l s l' s' : close_thinking s = (l', s') -> tidy l s -> tidy (l ++ l') s' /\ thinking_started s' = false.
Proof.
  unfold close_thinking. intros H (H1 & H2 & H3 & H4 & H5 & H6). destruct (_ || _) eqn:E; injection H as <- <-.
  2: { apply orb_false_iff in E as [E _]. rewrite app_nil_r. done. }
  split; [|done]. unfold tidy. cbn. split_and!; try lia.
  - intros u Hu Ht. apply closed_last; [by left|]. cbn. intros Hne. apply H1; congruence.
  - intros _. apply closed_last; [by left|]. cbn. intros _. apply fresh_closed, H6. lia.
  - intros i Hi. apply fresh_app; [apply H6; lia|]. cbn. apply uuid_ne. lia.
Qed.
Lemma close_response_tidy b l s l' s' : close_response b s = (l', s') -> tidy l s -> tidy (l ++ l') s' /\ thinking_started s' = thinking_started s.
Proof.
  unfold close_response. intros [= <- <-] (H1 & H2 & H3 & H4 & H5 & H6). split; [|done]. unfold tidy. cbn. split_and!; try (destruct b; lia).
  - intros u Hu Ht. apply closed_last; [by left|]. cbn. intros Hne. apply H1; congruence.
  - intros Hs. apply closed_last; [by left|]. cbn. intros _. by apply H2.
  - intros i Hi. apply fresh_app; [apply H6; destruct b; lia|]. cbn. apply uuid_ne. destruct b; lia.
Qed.
Lemma take_text_tidy t l s l' s' : take_text t s = (l', s') -> tidy l s -> tidy (l ++ l') s'.
Proof.
  unfold take_text. intros H (H1 & H2 & H3 & H4 & H5 & H6). destruct (STREAM_FLUSH_CHARS <=? _); injection H as <- <-; [|by rewrite app_nil_r].
  unfold tidy. cbn. split_and!; try done.
  - intros u Hu Ht. apply closed_last; cbn; [right; congruence|]. intros Hne. by apply H1.
  - intros Hs. apply closed_last; cbn; [right; by apply uuid_ne|]. intros _. by apply H2.
  - intros i Hi. apply fresh_app; [by apply H6|]. cbn. apply uuid_ne. lia.
Qed.
Lemma take_thinking_tidy t l s l' s' : take_thinking t s = (l', s') -> tidy l s -> tidy (l ++ l') s'.
Proof.
  unfold take_thinking. intros H (H1 & H2 & H3 & H4 & H5 & H6). destruct (STREAM_FLUSH_CHARS <=? _); injection H as <- <-; [|by rewrite app_nil_r].
  unfold tidy. cbn. split_and!; try done.
  - intros u Hu Ht. apply closed_last; cbn; [right; congruence|]. intros Hne. by apply H1.
  - intros i Hi. apply fresh_app; [by apply H6|]. cbn. apply uuid_ne. lia.
Qed.

Lemma then_tidy l r f l' s' :
  then_ r f = (l', s') -> tidy (l ++ r.1) r.2 -> (forall l1 l2 s1 s2, f s1 = (l2, s2) -> tidy l1 s1 -> tidy (l1 ++ l2) s2) -> tidy (l ++ l') s'.
Proof.
  destruct r as [l1 s1]. cbn. destruct (f s1) as [l2 s2] eqn:E. intros [= <- <-] H Hf. rewrite app_assoc. by eapply Hf.
Qed.

Lemma stream_step_tidy l s e l' s' : stream_step s e = (l', s') -> tidy l s -> tidy (l ++ l') s'.
Proof.
  intros H Ht. destruct e as [text|[|c text]|d|d|]; cbn [stream_step] in H.
  - eapply then_tidy; [exact H| |intros; by eapply take_text_tidy]. destruct (close_thinking s) eqn:E. by eapply close_thinking_tidy.
  - injection H as <- <-. by rewrite app_nil_r.
  - eapply then_tidy; [exact H| |intros; by eapply take_thinking_tidy].
    destruct (_ || _); [|by rewrite app_nil_r]. exact (proj1 (close_response_tidy true l s _ _ eq_refl Ht)).
  - by eapply close_response_tidy.
  - eapply then_tidy; [exact H| |intros; by eapply close_response_tidy].
    destruct (close_thinking s) eqn:E1. by eapply close_thinking_tidy.
  - injection H as <- <-. by rewrite app_nil_r.
Qed.
Lemma stream_steps_tidy es : forall l s l' s', stream_steps s es = (l', s') -> tidy l s -> tidy (l ++ l') s'.
Proof.
  induction es as [|e es IH]; intros l s l' s'; cbn; [intros [= <- <-]; by rewrite app_nil_r|].
  destruct (stream_step s e) as [l1 s1] eqn:E1. cbn. destruct (stream_steps s1 es) as [l2 s2] eqn:E2. intros [= <- <-] Ht.
  rewrite app_assoc. eapply IH; [exact E2|]. by eapply stream_step_tidy.
Qed.

(** C32: The chunks of a reply carry its text and its thinking exactly, character by
    character and in the order in which they were streamed, and when the reply
    ends every segment that was opened is closed by a complete chunk. *)
Theorem stream_exact made es :
  concat (map chunk_chars (streamed made es)) = concat (map event_chars es) /\ forall u, closed (streamed made es) u.
Proof.
  unfold streamed. destruct (stream_steps (new_segments made) es) as [l s] eqn:E. split.
  - apply stream_steps_chars in E as [E _]; [|by left]. by rewrite map_app, concat_app, last_chunks_held, E.
  - intros u. apply (stream_steps_tidy _ []) in E as (H1 & H2 & H3 & H4 & H5 & H6); cbn [app] in *.
    + unfold last_chunks. rewrite app_assoc. apply closed_last; [by left|]. cbn. intros Hne.
      destruct (thinking_started s || nonempty (current_thinking s)) eqn:Et.
      * apply closed_last; [by left|]. cbn. intros Hnt. apply H1; congruence.
      * rewrite app_nil_r. apply orb_false_iff in Et as [Et _]. destruct (decide (u = uuid4 (thinking_uuid s))) as [->|]; [by apply H2|].
        apply H1; congruence.
    + unfold tidy. cbn. split_and!; try lia; try done. all: intros; constructor.
Qed.
End Stream.

(** Identifiers that differ. *)
Lemma stream_exact_witness :
  let uuid4 n := [Z.of_nat n] in
  let es := [Thinking (lit "let me see"); Text (lit "The answer is forty-two."); ToolUseStart VNone; Text (lit "!"); HostedToolCall VNone; Text (lit "done")] in
  length (streamed uuid4 0 es) = 5%nat
  /\ (concat (map chunk_chars (streamed uuid4 0 es)) = concat (map event_chars es) /\ forall u, closed (streamed uuid4 0 es) u).
Proof. split; [vm_compute; reflexivity|]. apply stream_exact. intros i j [= H]. lia. Defined.
