(* ===== verification/AgentLoop.v ===== *)
(** * The agent loop

    Models [_agent_loop_stream] of [kolega_code/agent/baseagent.py] with what it
    calls: the retries of [handle_llm_error], automatic compaction, the commits of
    replies and results, queued inputs, nudges and the stop hook.

    The loop is a program (Prog.v) over [effect].  Its variables and the attributes
    of the agent that it assigns are a [frame], which goes from step to step.  The
    [except] clause reads variables of the [try] block, so an exception carries the
    frame in which it was raised.  The stream of a request is answered at once, with
    its events and its end, and the events are handled in order.

    [over_threshold n budget] is [n > budget * threshold]; times are counted in
    ticks, [second] to a second; [fixed], [round1], [seconds_of] and [date_after]
    format and read times.  The nudges are templates.  The accounting of tokens with
    the gauge and the warning that depends on it (a DeepSeek reply near its cap), and
    the cache markers are left out. *)

From stdpp Require Import base list strings numbers.
From Stdlib Require Import ZArith Lia.
From S2P Require Import Prelude PyStr PyVal Json Permissions SessionRuntime Conversation Prog Tools Hooks ToolExec AgentStream.
From S2P Require LlmErrors.
Import LlmErrors(raised, Llm, Foreign, Persistence, llm_error, llm_class, foreign).

(** What the loop takes from outside: the libraries, the clock's format, the
    templates. *)
Class Environment {other : Type} := {
  uuid4 : nat -> str;
  lower : str -> str;
  title : str -> str;
  alnum : Z -> bool;
  repr : value -> str;
  other_text : other -> option str;
  over_threshold : Z -> Z -> bool;
  second : Z;
  fixed : Z -> Z -> str;
  round1 : Z -> Z;
  seconds_of : value -> option Z;
  date_after : str -> option Z;
  build_silent_turn_nudge : Z -> str;
  build_truncated_turn_nudge : Z -> str;
  build_interrupted_turn_nudge : Z -> str;
  SILENT_TURN_EXHAUSTED_NOTICE : str
}.

Section AgentLoop.
Context {other request : Type}.
Abbreviation Message := (@Message other).
Abbreviation ToolResult := (@ToolResult other).
Abbreviation raised := (raised Message).
Abbreviation llm := (llm_error Message).
Abbreviation CancelledError := (LlmErrors.CancelledError (message := Message)).

Record CompactionResult := { c_ok : bool; c_reason : str; summarized_messages : Z }.
Record queued_input := { q_text : str; attachments : value; origin : value }.
(** The structured part of a status: a retry. *)
Record retry_info := {
  continuation : bool; attempt : Z; cap : Z; retry_in : Z; stalled : bool; had_output : bool; budget_left : Z
}.

Inductive effect :=
| Cancelling                                          (* [_pending_turn_cancellation] *)
| PrepareBackground                                   (* [prepare_background_completions] *)
| BuildHistory                                        (* [_sanitize_oversized_tool_results], [_history_for_llm_async] *)
| CountTokens (h : request)
| Compress (trigger : str) (before : Z) (keep_recent : option Z)
| FireHook (e : HookEvent) (body : dict)
| LlmRequest (phase : str) (end_reason : option str)
| Stream (h : request)
| Yield (c : chunk)
| OnToolUseStart (delta : value)
| EmitHosted (delta : value)
| LogMessage (level : log_level) (text : str)
| Status (level text : str) (retry : option retry_info)
| EmitError (http_status : value) (c : llm_class) (raw_type : str) (attempt : Z) (text : str)
| RecordAssistant (m : Message)
| AppendAssistant (m : Message)
| AcknowledgeAssistant
| RunTools (calls : list ToolCall)                    (* [process_tool_calls] *)
| RecordResults (l : list ToolResult)
| AppendUser (l : list (@block other))
| AcknowledgeResults
| ShouldStop                                          (* [should_stop_after_tools] *)
| DeliverBackground
| QueuedInputs                                        (* [queued_input_provider] *)
| BuildContent (text : str) (attachments : value)
| RecordContext (l : list (@block other))
| RecordNotice (text code : str)
| Recap                                               (* [recap_agent_outcome] *)
| Now
| Jitter (bound : Z)                                  (* [random.uniform(0, bound)] *)
| Sleep (delay : Z).

(** [Yield] is answered [false] when the generator is closed or cancelled there.
    The commits say whether the turn was cancelled meanwhile, [RunTools] whether a
    hook set [_hook_end_turn]. *)
Definition answer (e : effect) : Type :=
  match e with
  | Cancelling | Yield _ | ShouldStop => bool
  | Now | Jitter _ => Z
  | BuildHistory => result raised request
  | CountTokens _ => result raised Z
  | Compress _ _ _ => result raised CompactionResult
  | FireHook _ _ => result raised HookOutcome
  | Stream _ => list stream_event * result raised Message
  | RecordAssistant _ => result raised unit * bool
  | RunTools _ => result raised (list ToolResult) * bool
  | RecordResults _ => result raised (list ToolResult) * bool
  | QueuedInputs => result raised (list queued_input)
  | BuildContent _ _ => result raised (list (@block other))
  | Recap => result raised str
  | _ => result raised unit
  end.

Context {outside : @Environment other}.

(** What does not change during a turn. *)
Record agent := {
  agent_name : str;
  sub_agent : bool;
  max_iterations : option Z;
  model : str;
  provider : str;
  tinker : bool;
  loop_max_retries : Z;
  _llm_retry_budget_seconds : Z;
  model_max_input_tokens : Z;
  model_context_length : Z;
  strict_context_budget : bool;
  edit_protocol : str;
  freeform_tools : list str;         (* the tools of [tool_collection] with that kind of input *)
  recorder : bool;                   (* [session_recorder is not None] *)
  acknowledge_assistant : bool;
  acknowledge_tool_results : bool;
  has_queue : bool;                  (* [queued_input_provider is not None] *)
  completion_log_message : str
}.
Variable self : agent.

Definition MAX_STOP_HOOK_OVERRIDES : Z := 5.
Definition MAX_SILENT_TURN_NUDGES : Z := 3.
Definition MAX_TRUNCATED_TURN_NUDGES : Z := 3.

(** The variables of the loop, then the attributes of the agent. *)
Record frame := mkFrame {
  stop : option str;
  stop_overrides : Z;
  silent_turn_nudges : Z;
  truncated_turn_nudges : Z;
  iterations : Z;
  committing_history : bool;
  segs : segments;
  _consecutive_llm_retries : Z;
  _zero_output_stalls : Z;
  _llm_retry_budget_started : option Z;
  _hook_end_turn : bool;
  background_needs_turn : bool
}.
Abbreviation program := (prog answer (frame * raised)).

Definition with_stop (r : option str) (f : frame) : frame :=
  mkFrame r (stop_overrides f) (silent_turn_nudges f) (truncated_turn_nudges f) (iterations f) (committing_history f) (segs f)
    (_consecutive_llm_retries f) (_zero_output_stalls f) (_llm_retry_budget_started f) (_hook_end_turn f) (background_needs_turn f).
Definition with_nudges (overrides silent truncated : Z) (f : frame) : frame :=
  mkFrame (stop f) overrides silent truncated (iterations f) (committing_history f) (segs f)
    (_consecutive_llm_retries f) (_zero_output_stalls f) (_llm_retry_budget_started f) (_hook_end_turn f) (background_needs_turn f).
Definition with_iterations (n : Z) (f : frame) : frame :=
  mkFrame (stop f) (stop_overrides f) (silent_turn_nudges f) (truncated_turn_nudges f) n (committing_history f) (segs f)
    (_consecutive_llm_retries f) (_zero_output_stalls f) (_llm_retry_budget_started f) (_hook_end_turn f) (background_needs_turn f).
Definition with_committing (b : bool) (f : frame) : frame :=
  mkFrame (stop f) (stop_overrides f) (silent_turn_nudges f) (truncated_turn_nudges f) (iterations f) b (segs f)
    (_consecutive_llm_retries f) (_zero_output_stalls f) (_llm_retry_budget_started f) (_hook_end_turn f) (background_needs_turn f).
Definition with_segs (s : segments) (f : frame) : frame :=
  mkFrame (stop f) (stop_overrides f) (silent_turn_nudges f) (truncated_turn_nudges f) (iterations f) (committing_history f) s
    (_consecutive_llm_retries f) (_zero_output_stalls f) (_llm_retry_budget_started f) (_hook_end_turn f) (background_needs_turn f).
Definition with_retries (n stalls : Z) (started : option Z) (f : frame) : frame :=
  mkFrame (stop f) (stop_overrides f) (silent_turn_nudges f) (truncated_turn_nudges f) (iterations f) (committing_history f) (segs f)
    n stalls started (_hook_end_turn f) (background_needs_turn f).
Definition with_end_turn (b : bool) (f : frame) : frame :=
  mkFrame (stop f) (stop_overrides f) (silent_turn_nudges f) (truncated_turn_nudges f) (iterations f) (committing_history f) (segs f)
    (_consecutive_llm_retries f) (_zero_output_stalls f) (_llm_retry_budget_started f) b (background_needs_turn f).
Definition with_needs_turn (b : bool) (f : frame) : frame :=
  mkFrame (stop f) (stop_overrides f) (silent_turn_nudges f) (truncated_turn_nudges f) (iterations f) (committing_history f) (segs f)
    (_consecutive_llm_retries f) (_zero_output_stalls f) (_llm_retry_budget_started f) (_hook_end_turn f) b.

(** An answer that may raise, in a frame. *)
Definition lift {A} (f : frame) (r : result raised A) : program A := match r with Ok x => Ret x | Raise e => Throw (f, e) end.
Abbreviation await f a := (Do a (lift f)).
Definition log (f : frame) (level : log_level) (text : str) : program unit := await f (LogMessage level text).
Definition status (f : frame) (level text : str) (retry : option retry_info) : program unit := await f (Status level text retry).
Definition yield (f : frame) (c : chunk) : program unit := Do (Yield c) (fun on : bool => if on then Ret tt else Throw (f, CancelledError)).
Definition yields (f : frame) (l : list chunk) : program unit := bind (mapP (yield f) l) (fun _ => Ret tt).
(** [except Exception]: everything but a cancellation. *)
Definition except_Exception {A} (m : program A) (h : frame -> raised -> program A) : program A :=
  catch m (fun x => match x.2 with LlmErrors.CancelledError => Throw x | e => h x.1 e end).
(** [str(ex)]. *)
Definition str_of (e : raised) : str :=
  match e with LlmErrors.CancelledError => [] | Persistence t => t | Llm e => LlmErrors.text e | Foreign e => LlmErrors.shown e end.

(** ** Retries *)

Definition _parse_retry_after (e : raised) : option Z :=
  match e with
  | Foreign e =>
      let raw := match LlmErrors.retry_header e with VNone => LlmErrors.retry_attribute e | v => v end in
      match raw with
      | VNone => None
      | _ => match seconds_of raw with
             | Some t => Some (Z.max 0 t)
             | None => match date_after (py_str repr raw) with Some t => Some (Z.max 0 t) | None => None end
             end
      end
  | _ => None
  end.
Definition EM_DASH : Z := 8212.
Definition _format_wait (t : Z) : str :=
  let total := Z.max 0 (Z.quot t second) in
  if total / 60 =? 0 then dec (total mod 60) ++ lit "s" else dec (total / 60) ++ lit "m " ++ dec_pad 2 (total mod 60) ++ lit "s".
Definition _retry_status_message (e : llm) (attempt cap delay : Z) : str :=
  (if LlmErrors.is_timeout (LlmErrors.cls e) then lit "Response timed out " ++ [EM_DASH] ++ lit " retrying" else lit "Retrying request")
  ++ lit " (" ++ dec attempt ++ lit "/" ++ dec cap ++ lit ") in " ++ fixed 0 delay ++ lit "s" ++ [LlmErrors.ELLIPSIS].
Definition is_stall (e : llm) : bool := match LlmErrors.cls e with LlmErrors.LLMStreamStalled => true | _ => false end.
Definition _retry_exhausted_message (e : llm) (attempts budget_used : Z) : str :=
  if is_stall e
  then lit "Response timed out after " ++ dec attempts ++ lit " " ++ (if attempts =? 1 then lit "attempt" else lit "attempts")
       ++ lit " over " ++ _format_wait budget_used ++ lit "."
  else LlmErrors.llm_error_message title e (model self).
Definition retryable (c : llm_class) : bool :=
  match c with LlmErrors.LLMRateLimitError | LlmErrors.LLMInternalServerError => true | c => LlmErrors.is_connection c end.
(** [type(error).__name__], and the status of the raw exception. *)
Definition type_name (e : raised) : str :=
  match e with
  | Foreign e => LlmErrors.type_name e
  | Persistence _ => lit "SessionJournalError"
  | Llm e => LlmErrors.class_name (LlmErrors.cls e)
  | LlmErrors.CancelledError => lit "CancelledError"
  end.
Definition http_status (e : raised) : value :=
  match e with Foreign e => if truthy (LlmErrors.status_code e) then LlmErrors.status_code e else default VNone (LlmErrors.status e) | _ => VNone end.

Definition _remaining_llm_retry_budget (started now : Z) : Z := _llm_retry_budget_seconds self - (now - started).
Definition backoff (n : Z) : Z := Z.min (30 * second) (2 * second * 2 ^ (n - 1)).

(** From the computed delay on: tells, sleeps, and checks the budget. *)
Definition sleep_before_retry (f : frame) (error : llm) (n used delay started : Z) (continuing_partial : bool) : program frame :=
  let cap := loop_max_retries self in
  Do Now (fun now =>
  let delay := Z.min delay (Z.max 0 (_remaining_llm_retry_budget started now)) in
  bind (log f WARNING (lit "Transient LLM error (" ++ LlmErrors.text error ++ lit "); retry " ++ dec n ++ lit "/" ++ dec cap ++ lit " in "
                       ++ fixed 1 delay ++ lit "s.")) (fun _ =>
  bind (status f (lit "info")
          (if continuing_partial
           then lit "Response interrupted " ++ [EM_DASH] ++ lit " continuing (" ++ dec n ++ lit "/" ++ dec cap ++ lit ") in " ++ fixed 0 delay
                ++ lit "s" ++ [LlmErrors.ELLIPSIS]
           else _retry_status_message error n cap delay)
          (Some {| continuation := continuing_partial; attempt := n; cap := cap; retry_in := round1 delay; stalled := is_stall error;
                   had_output := is_stall error && LlmErrors.partial_output error;
                   budget_left := round1 (Z.max 0 (_llm_retry_budget_seconds self - used)) |})) (fun _ =>
  Do Now (fun now =>
  bind (await f (Sleep (Z.min delay (Z.max 0 (_remaining_llm_retry_budget started now))))) (fun _ =>
  Do Now (fun now =>
  if _remaining_llm_retry_budget started now <=? 0 then
    Do Now (fun now =>
    bind (status f (lit "error") (_retry_exhausted_message error n (now - started)) None) (fun _ => Throw (f, Llm error)))
  else bind (log f INFO (lit "Resuming after backoff.")) (fun _ => Ret f))))))).

(** Returns when the request is to be repeated. *)
Definition handle_llm_error (f : frame) (raw : raised) (continuing_partial : bool) : program frame :=
  let retry_after := _parse_retry_after raw in
  let error := LlmErrors.map_to_llm_error lower alnum repr (tinker self) raw (Some (provider self)) in
  bind (except_Exception (await f (EmitError (http_status raw) (LlmErrors.cls error) (type_name raw) (_consecutive_llm_retries f + 1)
                                     (slice_to (LlmErrors.text error) 1000))) (fun _ _ => Ret tt)) (fun _ =>
  if retryable (LlmErrors.cls error) then
    let n := _consecutive_llm_retries f + 1 in
    let silent := is_stall error && LlmErrors.zero_output error in
    let stalls := if silent then _zero_output_stalls f + 1 else _zero_output_stalls f in
    Do Now (fun now =>
    let started := default now (_llm_retry_budget_started f) in
    let used := now - started in
    let f := with_retries n stalls (Some started) f in
    if (loop_max_retries self <? n) || (_llm_retry_budget_seconds self <=? used) || (silent && (1 <? stalls)) then
      bind (status f (lit "error") (_retry_exhausted_message error n used) None) (fun _ => Throw (f, Llm error))
    else match retry_after with
         | Some t => sleep_before_retry f error n used (Z.min t (60 * second)) started continuing_partial
         | None => Do (Jitter (backoff n)) (fun t => sleep_before_retry f error n used t started continuing_partial)
         end)
  else bind (status f (lit "error") (LlmErrors.llm_error_message title error (model self)) None) (fun _ => Throw (f, Llm error))).

(** ** The request *)

Definition opt_int (o : option Z) : value := match o with Some n => VInt n | None => VNone end.
Definition _auto_compact_once (f : frame) (trigger : str) (before : Z) (keep_recent : option Z) : program (CompactionResult * request * Z) :=
  bind (await f (FireHook PRE_COMPACT [(lit "trigger", VStr trigger); (lit "input_tokens", VInt before);
                                       (lit "model_context_length", VInt (model_context_length self))])) (fun _ =>
  bind (await f (Compress trigger before keep_recent)) (fun result =>
  bind (await f BuildHistory) (fun h =>
  bind (await f (CountTokens h)) (fun n =>
  bind (await f (FireHook POST_COMPACT
                   [(lit "trigger", VStr trigger); (lit "ok", VBool (c_ok result)); (lit "reason", VStr (c_reason result));
                    (lit "summarized_messages", VInt (summarized_messages result)); (lit "input_tokens_before", VInt before);
                    (lit "input_tokens_after", VInt n); (lit "model_context_length", VInt (model_context_length self))])) (fun _ =>
  Ret (result, h, n)))))).

Definition too_large (n : Z) : llm :=
  LlmErrors.made LlmErrors.LLMContextWindowExceededError
    (lit "Request needs " ++ dec n ++ lit " input tokens after automatic compaction, exceeding this run's resolved maximum input of "
     ++ dec (model_max_input_tokens self) ++ lit ".") None.
(** The history to send, compacted when it is over the budget. *)
Definition build_request (f : frame) : program request :=
  bind (await f BuildHistory) (fun h =>
  bind (await f (CountTokens h)) (fun n =>
  if over_threshold n (model_max_input_tokens self) then
    bind (_auto_compact_once f (lit "auto") n None) (fun '(result, h, n) =>
    bind (if (model_max_input_tokens self <? n) && negb (str_in (c_reason result) [lit "llm_error"; lit "too_few"])
          then _auto_compact_once f (lit "auto_tail_fallback") n (Some 0)
          else Ret (result, h, n)) (fun '(_, h, n) =>
    if (model_max_input_tokens self <? n) && strict_context_budget self then Throw (f, Llm (too_large n)) else Ret h))
  else Ret h)).

(** ** The stream *)

(** [attempt_rendered_output]. *)
Definition with_rendered (b : bool) (s : segments) : segments :=
  mkSegments (current_response s) (current_thinking s) (thinking_started s) (response_started s) (response_uuid s) (thinking_uuid s)
    (AgentStream.made s) b.
Fixpoint handle_events (f : frame) (es : list stream_event) : program frame :=
  match es with
  | [] => Ret f
  | e :: es' =>
      let '(chunks, s) := stream_step uuid4 (segs f) e in
      let f := with_segs s f in
      bind (yields f chunks) (fun _ =>
      match e with
      | ToolUseStart delta => bind (await f (OnToolUseStart delta)) (fun _ => handle_events f es')
      | HostedToolCall delta =>
          bind (await f (EmitHosted delta)) (fun _ =>
            handle_events (with_segs (with_rendered true s) f) es')
      | _ => handle_events f es'
      end)
  end.

(** [_normalize_freeform_tool_calls]; the calls of the message are those of its
    blocks. *)
Definition normalize_call (c : ToolCall) : ToolCall :=
  if str_in (call_name c) (freeform_tools self)
  then mkCall (id c) (call_name c)
         (match input c with VDict d => match get d (lit "input") with VStr s => VStr s | _ => input c end | v => v end)
         (call_execution_id c) (lit "freeform")
  else c.
Definition normalize_block (b : @block other) : @block other := match b with CallBlock c => CallBlock (normalize_call c) | b => b end.
Definition normalized (m : Message) : Message :=
  mkMessage (role_of m) (match content_of m with Plain s => Plain s | Blocks l => Blocks (map normalize_block l) end) (stop_reason m)
    (map normalize_call (tool_calls m)) (dict_set (usage_metadata m) (lit "edit_protocol") (VStr (edit_protocol self))) (usage m).

Definition stream_reply (f : frame) (h : request) : program (frame * Message) :=
  let f := with_segs (new_segments (AgentStream.made (segs f))) f in
  bind (await f (LlmRequest (lit "start") None)) (fun _ =>
  let f := with_needs_turn false f in
  Do (Stream h) (fun ends : list stream_event * result raised Message =>
  bind (handle_events f ends.1) (fun f =>
  match ends.2 with Ok m => Ret (f, normalized m) | Raise e => Throw (f, e) end))).

(** ** Commits *)

Definition _commit_assistant_message (f : frame) (m : Message) : program unit :=
  bind (if recorder self
        then Do (RecordAssistant m) (fun r : result raised unit * bool => bind (lift f r.1) (fun _ => Ret r.2))
        else Ret false) (fun cancelled =>
  bind (await f (AppendAssistant m)) (fun _ =>
  bind (if recorder self && acknowledge_assistant self then await f AcknowledgeAssistant else Ret tt) (fun _ =>
  if cancelled then Throw (f, CancelledError) else Ret tt))).

Definition _commit_tool_results (f : frame) (results : list ToolResult) : program unit :=
  bind (if recorder self
        then Do (RecordResults results) (fun r : result raised (list ToolResult) * bool => bind (lift f r.1) (fun l => Ret (l, r.2)))
        else Ret (results, false)) (fun '(results, cancelled) =>
  bind (await f (AppendUser (map ResultBlock results))) (fun _ =>
  bind (if recorder self && acknowledge_tool_results self then await f AcknowledgeResults else Ret tt) (fun _ =>
  if cancelled : bool then Throw (f, CancelledError) else Ret tt))).

(** [_record_context_user_message], and a list of blocks. *)
Definition record_and_append (f : frame) (l : list (@block other)) : program unit :=
  bind (if recorder self then await f (RecordContext l) else Ret tt) (fun _ => await f (AppendUser l)).
Definition _record_context_user_message (f : frame) (t : str) : program unit := record_and_append f [TextBlock t].
Definition _record_synthetic_notice (f : frame) (t code : str) : program unit :=
  if recorder self then await f (RecordNotice t code) else Ret tt.

(** ** Tools *)

Definition error_result (text : str) (c : ToolCall) : ToolResult :=
  mkResult (id c) (ResultText text) (call_name c) true (call_execution_id c) (call_input_kind c) None.
Definition INTERRUPTED : str := lit "Tool execution was interrupted. The tool was not re-run.".

Definition is_peer (i : queued_input) : bool :=
  match origin i with VDict d => match get d (lit "kind") with VStr s => str_eqb s (lit "peer") | _ => false end | _ => false end.
Definition _deliver_queued_user_inputs (f : frame) : program unit :=
  bind (await f DeliverBackground) (fun _ =>
  if has_queue self then
    bind (await f QueuedInputs) (fun inputs =>
    match inputs with
    | [] => Ret tt
    | _ =>
        bind (mapP (fun i => bind (await f (BuildContent (q_text i) (attachments i))) (record_and_append f)) inputs) (fun _ =>
        let peers := len (List.filter is_peer inputs) in
        log f INFO (lit "Delivered " ++ dec (len inputs)
                    ++ (if 0 <? peers then lit " queued input(s), " ++ dec peers ++ lit " from a peer session" else lit " queued user message(s)")))
    end)
  else Ret tt).

(** The flag says that the loop ends here. *)
Definition commit_results (f : frame) (results : list ToolResult) : program frame :=
  bind (_commit_tool_results (with_committing true f) results) (fun _ => Ret (with_committing false f)).
Definition run_tools (f : frame) (calls : list ToolCall) : program (frame * bool) :=
  bind (log f INFO (lit "Received " ++ dec (len calls) ++ lit " tool call(s)")) (fun _ =>
  Do (RunTools calls) (fun r : result raised (list ToolResult) * bool =>
  let f := with_end_turn (_hook_end_turn f || r.2) f in
  let on f := bind (_deliver_queued_user_inputs f) (fun _ => Ret (f, false)) in
  match r.1 with
  | Ok results =>
      bind (commit_results f results) (fun f =>
      Do ShouldStop (fun stops : bool =>
      if stops then Ret (f, true)
      else if _hook_end_turn f then Ret (with_end_turn false f, true)
      else on f))
  | Raise LlmErrors.CancelledError =>
      bind (_commit_tool_results f (map (error_result INTERRUPTED) calls)) (fun _ => Throw (f, CancelledError))
  | Raise e =>
      bind (log f ERROR (lit "Error processing tool calls: " ++ str_of e)) (fun _ =>
      bind (commit_results f (map (error_result (lit "Failed to process tool calls: " ++ str_of e)) calls)) on)
  end)).

(** ** The guards *)

Definition terminal (r : option str) : bool :=
  match r with Some s => str_in s [lit "end_turn"; lit "max_tokens"; lit "stop_sequence"] | None => false end.
Definition is_max_tokens (r : option str) : bool := match r with Some s => str_eqb s (lit "max_tokens") | None => false end.
Definition _is_silent_turn (m : Message) : bool := negb (nonempty (tool_calls m)) && negb (nonempty (strip (get_text_content other_text m))).

Definition silent_exhausted_text : str :=
  lit "[no output] The model ended its turn with no tool call and no visible message " ++ dec (MAX_SILENT_TURN_NUDGES + 1)
  ++ lit " times in a row despite reminders. The turn was terminated without a result.".
Definition silent_guard (f : frame) (m : Message) : program (frame * bool) :=
  if terminal (stop f) && _is_silent_turn m then
    if silent_turn_nudges f <? MAX_SILENT_TURN_NUDGES then
      let n := silent_turn_nudges f + 1 in
      let f := with_nudges (stop_overrides f) n (truncated_turn_nudges f) f in
      bind (status f (lit "info") (lit "Model returned no output " ++ [EM_DASH] ++ lit " asking it to act (" ++ dec n ++ lit "/"
                                   ++ dec MAX_SILENT_TURN_NUDGES ++ lit ")" ++ [LlmErrors.ELLIPSIS]) None) (fun _ =>
      bind (_record_context_user_message f (build_silent_turn_nudge n)) (fun _ => Ret (with_stop None f, false)))
    else
      bind (log f WARNING (lit "Model ended " ++ dec (MAX_SILENT_TURN_NUDGES + 1)
                           ++ lit " consecutive responses with no tool call and no visible output; terminating the turn.")) (fun _ =>
      bind (status f (lit "warning") (lit "Model returned no output after repeated reminders " ++ [EM_DASH]
                                      ++ lit " ending the turn with no result.") None) (fun _ =>
      bind (_record_context_user_message f SILENT_TURN_EXHAUSTED_NOTICE) (fun _ =>
      bind (_record_synthetic_notice f silent_exhausted_text (lit "silent_turn_exhausted")) (fun _ =>
      let u := AgentStream.made (segs f) in
      bind (yield f (mkChunk Said silent_exhausted_text true (uuid4 u))) (fun _ =>
      Ret (with_segs (mkSegments (current_response (segs f)) (current_thinking (segs f)) (thinking_started (segs f)) (response_started (segs f))
                        (response_uuid (segs f)) (thinking_uuid (segs f)) (S u) (rendered (segs f))) f, true))))))
  else Ret (f, false).

Definition truncated_guard (f : frame) (m : Message) : program frame :=
  if is_max_tokens (stop f) && negb (nonempty (tool_calls m)) then
    if truncated_turn_nudges f <? MAX_TRUNCATED_TURN_NUDGES then
      let n := truncated_turn_nudges f + 1 in
      let f := with_nudges (stop_overrides f) (silent_turn_nudges f) n f in
      bind (status f (lit "info") (lit "Response hit the output limit " ++ [EM_DASH] ++ lit " asking the model to continue (" ++ dec n ++ lit "/"
                                   ++ dec MAX_TRUNCATED_TURN_NUDGES ++ lit ")" ++ [LlmErrors.ELLIPSIS]) None) (fun _ =>
      bind (_record_context_user_message f (build_truncated_turn_nudge n)) (fun _ => Ret (with_stop None f)))
    else
      bind (log f WARNING (lit "Model hit the output-token limit " ++ dec (MAX_TRUNCATED_TURN_NUDGES + 1)
                           ++ lit " times in a row; finalizing the turn with the partial output.")) (fun _ =>
      bind (status f (lit "warning") (lit "Response still truncated after repeated continuation prompts " ++ [EM_DASH]
                                      ++ lit " delivering the partial output.") None) (fun _ => Ret f))
  else Ret f.

Definition _fire_stop_hook (f : frame) : program (option str) :=
  bind (except_Exception (await f Recap) (fun _ _ => Ret [])) (fun last_message =>
  bind (await f (FireHook STOP [(lit "stop_reason", opt_value (stop f)); (lit "last_message", VStr last_message)])) (fun outcome =>
  Ret (if blocked outcome
       then Some (if nonempty (reason outcome) then reason outcome else lit "Continue working; the stop condition is not yet satisfied.")
       else None))).
Definition stop_guard (f : frame) : program frame :=
  if terminal (stop f) && negb (sub_agent self) then
    bind (_fire_stop_hook f) (fun keep_working =>
    match keep_working with
    | Some text =>
        if stop_overrides f <? MAX_STOP_HOOK_OVERRIDES then
          let f := with_nudges (stop_overrides f + 1) (silent_turn_nudges f) (truncated_turn_nudges f) f in
          bind (_record_context_user_message f text) (fun _ => Ret (with_stop None f))
        else Ret f
    | None => Ret f
    end)
  else Ret f.

(** ** One round *)

(** Before the [try] block. *)
Definition start_round (f : frame) : program frame :=
  Do Cancelling (fun cancelling : bool =>
  if cancelling then Throw (f, CancelledError)
  else bind (await f PrepareBackground) (fun _ =>
    let f := with_iterations (iterations f + 1) f in
    match max_iterations self with
    | Some n =>
        if n <? iterations f
        then Throw (f, Foreign (LlmErrors.mkForeign LlmErrors.OtherException (lit "MaxAgentIterationsExceeded")
                                  (lit "Agent '" ++ agent_name self ++ lit "' exceeded max_iterations=" ++ dec n
                                   ++ lit " without reaching a terminal stop reason") VNone None VNone VNone VNone None VNone VNone))
        else Ret (with_committing false (with_segs (with_rendered false (segs f)) f))
    | None => Ret (with_committing false (with_segs (with_rendered false (segs f)) f))
    end)).

(** What follows a reply, up to the guards. *)
Definition commit_reply (f : frame) (m : Message) : program frame :=
  let f := with_stop (stop_reason m) f in
  bind (await f (LlmRequest (lit "end") (stop_reason m))) (fun _ =>
  bind (_commit_assistant_message (with_committing true f) m) (fun _ =>
  let f := with_retries 0 0 None (with_committing false f) in
  let f := with_nudges (stop_overrides f) (if _is_silent_turn m then silent_turn_nudges f else 0)
             (if is_max_tokens (stop f) then truncated_turn_nudges f else 0) f in
  bind (yields f (last_chunks uuid4 (segs f))) (fun _ => Ret f))).
Definition guards (f : frame) (m : Message) : program (frame * bool) :=
  bind (silent_guard f m) (fun '(f, ends) =>
  if ends : bool then Ret (f, true)
  else bind (truncated_guard f m) (fun f => bind (stop_guard f) (fun f => Ret (f, false)))).
Definition attempt_round (f : frame) : program (frame * bool) :=
  bind (build_request f) (fun h =>
  bind (stream_reply f h) (fun '(f, m) =>
  bind (commit_reply f m) (fun f =>
  bind (match tool_calls m with [] => Ret (f, false) | calls => run_tools f calls end) (fun '(f, ends) =>
  if ends : bool then Ret (f, true) else guards f m)))).

(** The [except] clause. *)
Definition commit_failed (e : raised) : raised := Llm (LlmErrors.made LlmErrors.LLMError (lit "Session history commit failed: " ++ str_of e) None).
Definition incomplete (e : raised) : option (option Message) :=
  match e with
  | Llm e => match LlmErrors.cls e with LlmErrors.LLMIncompleteResponseError => Some (LlmErrors.partial_message e) | _ => None end
  | _ => None
  end.
Definition continue_partial (f : frame) (e : raised) (partial : option Message) : program frame :=
  bind (match partial with
        | Some m => except_Exception (_commit_assistant_message (with_committing true f) (normalized m)) (fun f e => Throw (f, commit_failed e))
        | None => Ret tt
        end) (fun _ =>
  let f := match partial with Some _ => with_committing false f | None => f end in
  bind (yields f (last_chunks uuid4 (segs f))) (fun _ =>
  bind (await f (LlmRequest (lit "end") (Some (lit "interrupted")))) (fun _ =>
  bind (handle_llm_error f e true) (fun f =>
  bind (_record_context_user_message f (build_interrupted_turn_nudge (_consecutive_llm_retries f))) (fun _ => Ret f))))).
Definition on_error (f : frame) (e : raised) : program frame :=
  match e with
  | Persistence _ => Throw (f, e)
  | _ =>
      match incomplete e with
      | Some partial =>
          if rendered (segs f) then continue_partial f e partial
          else if committing_history f then Throw (f, commit_failed e) else handle_llm_error f e false
      | None => if committing_history f then Throw (f, commit_failed e) else handle_llm_error f e false
      end
  end.
Definition round (f : frame) : program (frame * bool) :=
  bind (start_round f) (fun f => except_Exception (attempt_round f) (fun f e => bind (on_error f e) (fun f => Ret (f, false)))).

(** ** The loop *)

Definition finish (f : frame) : program frame :=
  Do Cancelling (fun cancelling : bool =>
  if cancelling then Throw (f, CancelledError) else bind (log f INFO (completion_log_message self)) (fun _ => Ret f)).
(** [None]: the fuel is spent. *)
Fixpoint rounds (fuel : nat) (f : frame) : program (option frame) :=
  if terminal (stop f) then bind (finish f) (fun f => Ret (Some f))
  else match fuel with
       | O => Ret None
       | S fuel => bind (round f) (fun '(f, ends) =>
                     if ends : bool then bind (finish f) (fun f => Ret (Some f)) else rounds fuel f)
       end.
(** A turn starts with the attributes that the last one left. *)
Definition start_frame (retries stalls : Z) (started : option Z) (end_turn needs_turn : bool) : frame :=
  mkFrame None 0 0 0 0 false (new_segments 0) retries stalls started end_turn needs_turn.
Definition _agent_loop_stream (fuel : nat) (f : frame) : program (option frame) :=
  rounds fuel (with_stop None (with_nudges 0 0 0 (with_iterations 0 f))).
End AgentLoop.
