(* ===== verification/AgentLoopFacts.v ===== *)
(** * Facts about the agent loop: calls are settled

    A monitor watches what the loop does to the conversation.  It accepts a request
    only when no tool call waits for its result, a batch only for the calls of the
    last reply and once, and as results only those of the batch.  Every run of the
    loop is accepted. *)

From stdpp Require Import base list strings numbers.
From Stdlib Require Import ZArith Lia.
From S2P Require Import Prelude PyStr PyVal Json Permissions SessionRuntime Conversation Prog Tools Hooks ToolExec AgentStream AgentLoop.
From S2P Require LlmErrors.
Import LlmErrors(raised, Llm, Foreign, Persistence, llm_error, llm_class, foreign).

Section Facts.
Context {other request : Type}.
Abbreviation Message := (@Message other).
Abbreviation ToolResult := (@ToolResult other).
Abbreviation raised := (raised Message).
Abbreviation CancelledError := (LlmErrors.CancelledError (message := Message)).
Abbreviation effect := (@effect other request).
Abbreviation answer := (@answer other request).
Abbreviation program := (prog (action := effect) answer (frame * raised)).
Abbreviation Ev := (Ev (answer := answer)).
Abbreviation await f a := (Do a (lift f)).

(** ** The monitor *)

(** [Settling cancelled l]: the batch ran and [l] is to be committed.  [Failed]: a
    commit failed.  [Stopped]: the batch was cancelled and has been dealt with.
    [Free]: the host has taken back the cancellation of such a turn, or a message
    between a reply and its results could not be given. *)
Inductive phase :=
| Idle
| Owed (calls : list ToolCall)
| Settling (cancelled : bool) (l : list ToolResult)
| Failed
| Stopped
| Free.

Definition owed (calls : list ToolCall) : phase := match calls with [] => Idle | _ => Owed calls end.
Definition failing (cancelled : bool) : phase := if cancelled then Stopped else Failed.
Definition settled (cancelled : bool) : phase := if cancelled then Stopped else Idle.
(** The results of a batch: its own, or one error for each call. *)
Definition batch_results (calls : list ToolCall) (r : result raised (list ToolResult)) : phase :=
  match r with
  | Ok l => Settling false l
  | Raise LlmErrors.CancelledError => Settling true (map (error_result INTERRUPTED) calls)
  | Raise e => Settling false (map (error_result (lit "Failed to process tool calls: " ++ str_of e)) calls)
  end.

(** What does not touch the conversation, and may always happen. *)
Definition neutral_action (a : effect) : bool :=
  match a with
  | Stream _ | RecordAssistant _ | AppendAssistant _ | AcknowledgeAssistant | RunTools _ | RecordResults _ | AppendUser _ | AcknowledgeResults
  | RecordContext _ | Cancelling => false
  | _ => true
  end.
Definition neutral (e : event answer) : Prop := match e with Prog.Ev a _ => neutral_action a = true end.

Inductive watch : phase -> event answer -> phase -> Prop :=
| watch_neutral φ a r : neutral_action a = true -> watch φ (Ev a r) φ
| watch_free e : watch Free e Free
| watch_unsaid_calls calls level text e : e <> CancelledError -> watch (Owed calls) (Ev (LogMessage level text) (Raise e)) Free
| watch_unsaid_failure l level text e : e <> CancelledError -> watch (Settling false l) (Ev (LogMessage level text) (Raise e)) Free
| watch_cancelling (b : bool) : watch Idle (Ev Cancelling b) Idle
| watch_stopped (b : bool) : watch Stopped (Ev Cancelling b) (if b then Stopped else Free)
| watch_request h r : watch Idle (Ev (Stream h) r) Idle
| watch_record m r (c : bool) :
    watch Idle (Ev (RecordAssistant m) (r, c)) (match r with Ok _ => Idle | Raise _ => Failed end)
| watch_append m r : watch Idle (Ev (AppendAssistant m) r) (match r with Ok _ => owed (tool_calls m) | Raise _ => Failed end)
| watch_acknowledge calls r : watch (owed calls) (Ev AcknowledgeAssistant r) (match r with Ok _ => owed calls | Raise _ => Failed end)
| watch_run calls r (b : bool) : watch (Owed calls) (Ev (RunTools calls) (r, b)) (batch_results calls r)
| watch_record_results c l r (b : bool) :
    watch (Settling c l) (Ev (RecordResults l) (r, b)) (match r with Ok l' => Settling c l' | Raise _ => failing c end)
| watch_settle c l r :
    watch (Settling c l) (Ev (AppendUser (map ResultBlock l)) r) (match r with Ok _ => settled c | Raise _ => failing c end)
| watch_acknowledge_results c r : watch (settled c) (Ev AcknowledgeResults r) (match r with Ok _ => settled c | Raise _ => failing c end)
| watch_context l r : watch Idle (Ev (RecordContext l) r) Idle
| watch_user l r : watch Idle (Ev (AppendUser l) r) Idle.

Inductive seen : phase -> list (event answer) -> phase -> Prop :=
| seen_nil φ : seen φ [] φ
| seen_cons φ e φ1 t φ2 : watch φ e φ1 -> seen φ1 t φ2 -> seen φ (e :: t) φ2.

Lemma seen_app φ t1 φ1 t2 φ2 : seen φ t1 φ1 -> seen φ1 t2 φ2 -> seen φ (t1 ++ t2) φ2.
Proof. induction 1; [done|]. intros H2. cbn. econstructor; eauto. Qed.
Lemma seen_free t : seen Free t Free.
Proof. induction t; econstructor; eauto using watch. Qed.

(** ** Triples *)

(** What an answer raises. *)
Definition raised_by (a : effect) : answer a -> option raised :=
  let exn_of {A} (r : result raised A) := match r with Ok _ => None | Raise e => Some e end in
  match a with
  | Cancelling | Yield _ | ShouldStop | Now | Jitter _ => fun _ => None
  | BuildHistory => fun r => exn_of r
  | CountTokens _ => fun r => exn_of r
  | Compress _ _ _ => fun r => exn_of r
  | FireHook _ _ => fun r => exn_of r
  | Stream _ => fun r => exn_of r.2
  | RecordAssistant _ => fun r => exn_of r.1
  | RunTools _ | RecordResults _ => fun r => exn_of r.1
  | QueuedInputs => fun r => exn_of r
  | BuildContent _ _ => fun r => exn_of r
  | Recap => fun r => exn_of r
  | PrepareBackground | LlmRequest _ _ | OnToolUseStart _ | EmitHosted _ | LogMessage _ _ | Status _ _ _ | EmitError _ _ _ _ _
  | AppendAssistant _ | AcknowledgeAssistant | AppendUser _ | AcknowledgeResults | DeliverBackground | RecordContext _ | RecordNotice _ _
  | Sleep _ => fun r => exn_of r
  end.
(** Only streams end incomplete, and what they leave has no tool calls (as
    [get_final_message] of llm/providers/responses_common.py makes it). *)
Definition no_calls (e : raised) : Prop := match incomplete e with Some (Some m) => tool_calls m = [] | _ => True end.
Definition ok (e : event answer) : Prop :=
  match e with
  | Prog.Ev a r =>
      match raised_by a r with
      | Some x => match a with Stream _ => no_calls x | _ => incomplete x = None end
      | None => True
      end
  end.

Definition triple {A} (φ : phase) (p : program A) (Q : phase -> outcome (exn := frame * raised) A -> Prop) : Prop :=
  forall t o, runs p t o -> Forall ok t -> exists φ', seen φ t φ' /\ Q φ' o.

Lemma triple_mono {A} φ (p : program A) (Q Q' : phase -> outcome A -> Prop) :
  triple φ p Q -> (forall φ' o, Q φ' o -> Q' φ' o) -> triple φ p Q'.
Proof. intros H HQ t o Hr Hk. destruct (H _ _ Hr Hk) as (φ' & Hs & Hq). eauto. Qed.
Lemma triple_Ret {A} φ (a : A) (Q : phase -> outcome A -> Prop) : Q φ (Done a) -> triple φ (Ret a) Q.
Proof. intros H t o [-> ->] _. exists φ. split; [constructor|done]. Qed.
Lemma triple_Throw {A} φ x (Q : phase -> outcome A -> Prop) : Q φ (Threw x) -> triple φ (Throw x) Q.
Proof. intros H t o [-> ->] _. exists φ. split; [constructor|done]. Qed.
Lemma triple_Do {A} φ a (k : answer a -> program A) (Q : phase -> outcome A -> Prop) :
  (forall r, ok (Ev a r) -> exists φ', watch φ (Ev a r) φ' /\ triple φ' (k r) Q) -> triple φ (Do a k) Q.
Proof.
  intros H t o (r & t' & -> & Hr) [Hk Hk']%list.Forall_cons. destruct (H r Hk) as (φ1 & Hw & Ht).
  destruct (Ht _ _ Hr Hk') as (φ2 & Hs & Hq). exists φ2. split; [by econstructor|done].
Qed.
Lemma triple_seq {A B} φ (m : program A) (f : A -> program B) (Q : phase -> outcome B -> Prop) :
  triple φ m (fun φ' o => match o with Done a => triple φ' (f a) Q | Threw x => Q φ' (Threw x) end) -> triple φ (bind m f) Q.
Proof.
  intros H t o [(t1 & t2 & a & -> & H1 & H2)|(x & H1 & ->)]%runs_bind Hk.
  - apply Forall_app in Hk as [Hk1 Hk2]. destruct (H _ _ H1 Hk1) as (φ1 & Hs & Ht). destruct (Ht _ _ H2 Hk2) as (φ2 & Hs2 & Hq).
    exists φ2. split; [by eapply seen_app|done].
  - destruct (H _ _ H1 Hk) as (φ1 & Hs & Hq). eauto.
Qed.
Lemma triple_catch {A} φ (m : program A) h (Q : phase -> outcome A -> Prop) :
  triple φ m (fun φ' o => match o with Done a => Q φ' (Done a) | Threw x => triple φ' (h x) Q end) -> triple φ (catch m h) Q.
Proof.
  intros H t o [(a & H1 & ->)|(t1 & t2 & x & -> & H1 & H2)]%runs_catch Hk.
  - destruct (H _ _ H1 Hk) as (φ1 & Hs & Hq). eauto.
  - apply Forall_app in Hk as [Hk1 Hk2]. destruct (H _ _ H1 Hk1) as (φ1 & Hs & Ht). destruct (Ht _ _ H2 Hk2) as (φ2 & Hs2 & Hq).
    exists φ2. split; [by eapply seen_app|done].
Qed.
Lemma triple_free {A} (p : program A) (Q : phase -> outcome A -> Prop) : (forall o, Q Free o) -> triple Free p Q.
Proof. intros H t o _ _. exists Free. split; [apply seen_free|done]. Qed.

(** Programs whose events and exceptions satisfy [P] and [E]. *)
Definition good {A} (P : event answer -> Prop) (E : frame * raised -> Prop) (p : program A) : Prop :=
  forall t o, runs p t o -> Forall ok t -> Forall P t /\ match o with Threw x => E x | Done _ => True end.

Lemma good_Ret {A} P E (a : A) : good P E (Ret a).
Proof. intros t o [-> ->] _. by split. Qed.
Lemma good_Throw {A} P (E : frame * raised -> Prop) x : E x -> good P E (Throw (A := A) x).
Proof. intros H t o [-> ->] _. by split. Qed.
Lemma good_Do {A} P E a (k : answer a -> program A) :
  (forall r, ok (Ev a r) -> P (Ev a r) /\ good P E (k r)) -> good P E (Do a k).
Proof.
  intros H t o (r & t' & -> & Hr) [Hk Hk']%list.Forall_cons. destruct (H r Hk) as [HP Hg]. destruct (Hg _ _ Hr Hk'). split; [by constructor|done].
Qed.
Lemma good_bind {A B} P E (m : program A) (f : A -> program B) : good P E m -> (forall a, good P E (f a)) -> good P E (bind m f).
Proof.
  intros Hm Hf t o [(t1 & t2 & a & -> & H1 & H2)|(x & H1 & ->)]%runs_bind Hk; [|by eapply (Hm _ _ H1)].
  apply Forall_app in Hk as [Hk1 Hk2]. destruct (Hm _ _ H1 Hk1) as [? _], (Hf a _ _ H2 Hk2) as [? ?]. split; [by apply Forall_app|done].
Qed.
Lemma good_catch {A} P E E' (m : program A) h : good P E m -> (forall x, E x -> good P E' (h x)) -> good P E' (catch m h).
Proof.
  intros Hm Hh t o [(a & H1 & ->)|(t1 & t2 & x & -> & H1 & H2)]%runs_catch Hk; [by eapply (Hm _ _ H1)|].
  apply Forall_app in Hk as [Hk1 Hk2]. destruct (Hm _ _ H1 Hk1) as [? Hx], (Hh x Hx _ _ H2 Hk2) as [? ?]. split; [by apply Forall_app|done].
Qed.
Lemma good_mono {A} (P P' : event answer -> Prop) (E E' : frame * raised -> Prop) (p : program A) :
  (forall e, P e -> P' e) -> (forall x, E x -> E' x) -> good P E p -> good P' E' p.
Proof. intros HP HE H t o Hr Hk. destruct (H _ _ Hr Hk) as [Ht Ho]. split; [by eapply Forall_impl|]. destruct o; auto. Qed.
Lemma good_mapP {A B} P E (f : A -> program B) l : (forall x, good P E (f x)) -> good P E (mapP f l).
Proof.
  intros H. induction l as [|x l IH]; cbn; [apply good_Ret|]. apply good_bind; [apply H|]. intros y.
  apply good_bind; [done|]. intros ys. apply good_Ret.
Qed.

(** What is acceptable when nothing is owed. *)
Definition calm (e : event answer) : Prop := watch Idle e Idle.
Lemma neutral_calm e : neutral e -> calm e.
Proof. destruct e. apply watch_neutral. Qed.
Lemma triple_calm {A} E (p : program A) :
  good calm E p -> triple Idle p (fun φ o => φ = Idle /\ match o with Threw x => E x | Done _ => True end).
Proof.
  intros Hp t o Hr Hk. exists Idle. destruct (Hp _ _ Hr Hk) as [Ht Ho]. split; [|done]. clear -Ht.
  induction Ht as [|e t Hn _ IH]; [constructor|]. by econstructor.
Qed.
Lemma triple_neutral {A} φ E (p : program A) :
  good neutral E p -> triple φ p (fun φ' o => φ' = φ /\ match o with Threw x => E x | Done _ => True end).
Proof.
  intros Hp t o Hr Hk. exists φ. destruct (Hp _ _ Hr Hk) as [Ht Ho]. split; [|done]. clear -Ht.
  induction Ht as [|[a r] t Hn _ IH]; [constructor|]. econstructor; [by apply watch_neutral|done].
Qed.

(** ** The steps *)

Context {outside : @Environment other}.
Variable self : agent.

Definition harmless (x : frame * raised) : Prop := incomplete x.2 = None.
Definition only_cancelled (x : frame * raised) : Prop := x.2 = CancelledError.

(** An await whose answer may raise. *)
Ltac awaits := let r := fresh "r" in let Hok := fresh "Hok" in apply good_Do; intros r Hok; split; [done|];
  first [ destruct r as [?|?]; [apply good_Ret|apply good_Throw; first [exact I|done|by rewrite Hok]] | idtac ].
Ltac goods :=
  repeat first [ apply good_Ret | apply good_Throw; done | apply good_bind; [|intros] | awaits ].

Lemma log_harmless f l t : good neutral harmless (log f l t).
Proof. unfold log. awaits. Qed.
Lemma yields_good f l : good neutral only_cancelled (yields f l).
Proof.
  apply good_bind; [|intros; apply good_Ret]. apply good_mapP. intros c. apply good_Do. intros b _. split; [done|].
  destruct b; [apply good_Ret|by apply good_Throw].
Qed.
Definition anything (x : frame * raised) : Prop := True.
Lemma good_anything {A} P E (p : program A) : good P E p -> good P anything p.
Proof. by apply good_mono. Qed.
Lemma status_good f l t r : good neutral harmless (status f l t r).
Proof. unfold status. awaits. Qed.

Lemma sleep_good f e n u d s c : good neutral anything (sleep_before_retry self f e n u d s c).
Proof.
  unfold sleep_before_retry. cbv zeta. awaits.
  apply good_bind; [eapply good_anything, log_harmless|intros _]. apply good_bind; [eapply good_anything, status_good|intros _].
  awaits. apply good_bind; [awaits|intros _]. awaits. destruct (_ <=? 0).
  - awaits. apply good_bind; [eapply good_anything, status_good|intros; by apply good_Throw].
  - apply good_bind; [eapply good_anything, log_harmless|intros; apply good_Ret].
Qed.
Lemma handle_good f e c : good neutral anything (handle_llm_error self f e c).
Proof.
  unfold handle_llm_error. apply good_bind; [|intros _].
  { eapply (good_catch _ anything); [awaits|]. intros [f' []] _; [by apply good_Throw|apply good_Ret..]. }
  destruct (retryable _); [|apply good_bind; [eapply good_anything, status_good|intros; by apply good_Throw]].
  awaits. destruct (_ || _ || _); [apply good_bind; [eapply good_anything, status_good|intros; by apply good_Throw]|].
  destruct (_parse_retry_after e); [apply sleep_good|]. awaits. apply sleep_good.
Qed.

Lemma compact_good f t b k : good neutral harmless (_auto_compact_once self f t b k).
Proof. unfold _auto_compact_once. goods. Qed.
Lemma build_good f : good neutral harmless (build_request self f).
Proof.
  unfold build_request. apply good_bind; [awaits|intros h]. apply good_bind; [awaits|intros n].
  destruct (over_threshold _ _); [|apply good_Ret]. apply good_bind; [apply compact_good|intros [[r h'] n']].
  apply good_bind; [destruct (_ && _); [apply compact_good|apply good_Ret]|intros [[r' h''] n'']].
  destruct (_ && _); [by apply good_Throw|apply good_Ret].
Qed.
Lemma only_cancelled_harmless {A} (p : program A) : good neutral only_cancelled p -> good neutral harmless p.
Proof. apply good_mono; [done|]. by intros [? ?] ->. Qed.
Lemma events_good es : forall f, good neutral harmless (handle_events f es).
Proof.
  induction es as [|e es IH]; intros f; cbn [handle_events]; [apply good_Ret|]. destruct (stream_step _ _ _) as [chunks s].
  apply good_bind; [apply only_cancelled_harmless, yields_good|intros _].
  destruct e; try apply IH; (apply good_bind; [awaits|intros _; apply IH]).
Qed.

Lemma context_good f l : good calm harmless (record_and_append self f l).
Proof.
  unfold record_and_append. apply good_bind; [destruct (recorder self); [|apply good_Ret]|intros _];
    apply good_Do; intros [[]|x] Hok; (split; [constructor|]); first [apply good_Ret|by apply good_Throw].
Qed.
Lemma calm_harmless {A} (p : program A) : good neutral harmless p -> good calm harmless p.
Proof. apply good_mono; [apply neutral_calm|done]. Qed.
Lemma deliver_good f : good calm harmless (_deliver_queued_user_inputs self f).
Proof.
  unfold _deliver_queued_user_inputs. apply good_bind; [apply calm_harmless; awaits|intros _].
  destruct (has_queue self); [|apply good_Ret]. apply good_bind; [apply calm_harmless; awaits|intros [|i inputs]]; [apply good_Ret|].
  apply good_bind; [|intros _; apply calm_harmless, log_harmless]. apply good_mapP. intros j.
  apply good_bind; [apply calm_harmless; awaits|intros b]. apply context_good.
Qed.

Lemma silent_good f m : good calm harmless (silent_guard self f m).
Proof.
  unfold silent_guard. destruct (_ && _); [|apply good_Ret]. destruct (_ <? _).
  - apply good_bind; [apply calm_harmless, status_good|intros _]. apply good_bind; [apply context_good|intros; apply good_Ret].
  - apply good_bind; [apply calm_harmless, log_harmless|intros _]. apply good_bind; [apply calm_harmless, status_good|intros _].
    apply good_bind; [apply context_good|intros _]. apply good_bind; [|intros _].
    { unfold _record_synthetic_notice. destruct (recorder self); [apply calm_harmless; awaits|apply good_Ret]. }
    apply good_bind; [|intros; apply good_Ret]. apply calm_harmless. unfold yield. apply good_Do. intros [] _; (split; [done|]); goods.
Qed.
Lemma truncated_good f m : good calm harmless (truncated_guard self f m).
Proof.
  unfold truncated_guard. destruct (_ && _); [|apply good_Ret]. destruct (_ <? _).
  - apply good_bind; [apply calm_harmless, status_good|intros _]. apply good_bind; [apply context_good|intros; apply good_Ret].
  - apply good_bind; [apply calm_harmless, log_harmless|intros _]. apply good_bind; [apply calm_harmless, status_good|intros _; apply good_Ret].
Qed.
Lemma stop_hook_good f : good neutral harmless (_fire_stop_hook f).
Proof.
  unfold _fire_stop_hook. apply good_bind; [|intros; goods].
  eapply (good_catch _ harmless); [awaits|]. intros [f' []] _; [by apply good_Throw|apply good_Ret..].
Qed.
Lemma stop_good f : good calm harmless (stop_guard self f).
Proof.
  unfold stop_guard. destruct (_ && _); [|apply good_Ret]. apply good_bind; [apply calm_harmless, stop_hook_good|intros [text|]]; [|apply good_Ret].
  destruct (_ <? _); [|apply good_Ret]. apply good_bind; [apply context_good|intros; apply good_Ret].
Qed.
Lemma guards_good f m : good calm harmless (guards self f m).
Proof.
  unfold guards. apply good_bind; [apply silent_good|intros [f' []]]; [apply good_Ret|].
  apply good_bind; [apply truncated_good|intros f'']. apply good_bind; [apply stop_good|intros; apply good_Ret].
Qed.

(** ** Commits *)

(** How a commit in frame [f] may end, [φ] being the phase of a failure. *)
Definition committed {A} (f : frame) (ψ φ : phase) (φ' : phase) (o : outcome (exn := frame * raised) A) : Prop :=
  match o with
  | Done _ => φ' = ψ
  | Threw (f', e) => f' = f /\ (e = CancelledError \/ (φ' = φ /\ incomplete e = None))
  end.

Lemma cancelled_end f ψ φ (b : bool) : triple ψ (if b then Throw (f, CancelledError) else Ret tt) (committed f ψ φ).
Proof. destruct b; [apply triple_Throw|by apply triple_Ret]. cbn. auto. Qed.

Lemma commit_assistant f m : triple Idle (_commit_assistant_message self f m) (committed f (owed (tool_calls m)) Failed).
Proof.
  assert (Htail : forall b : bool, triple Idle (bind (await f (AppendAssistant m)) (fun _ =>
      bind (if recorder self && acknowledge_assistant self then await f AcknowledgeAssistant else Ret tt) (fun _ =>
      if b then Throw (f, CancelledError) else Ret tt))) (committed f (owed (tool_calls m)) Failed)).
  { intros b. apply triple_Do. intros r Hok. eexists; split; [apply watch_append|]. destruct r as [[]|e]; [|by apply triple_Throw; cbn; auto].
    cbn [lift bind]. destruct (_ && _); [|apply cancelled_end].
    apply triple_Do. intros r Hok'. eexists; split; [apply watch_acknowledge|]. destruct r as [[]|e]; [apply cancelled_end|by apply triple_Throw; cbn; auto]. }
  unfold _commit_assistant_message. destruct (recorder self); [|apply Htail].
  apply triple_Do. intros [[[]|e] b] Hok; (eexists; split; [apply watch_record|]); [apply Htail|by apply triple_Throw; cbn; auto].
Qed.

Lemma commit_tools f c l : triple (Settling c l) (_commit_tool_results self f l) (committed f (settled c) (failing c)).
Proof.
  assert (Htail : forall (b : bool) l, triple (Settling c l) (bind (await f (AppendUser (map ResultBlock l))) (fun _ =>
      bind (if recorder self && acknowledge_tool_results self then await f AcknowledgeResults else Ret tt) (fun _ =>
      if b then Throw (f, CancelledError) else Ret tt))) (committed f (settled c) (failing c))).
  { clear l. intros b l. apply triple_Do. intros r Hok. eexists; split; [apply watch_settle|].
    destruct r as [[]|e]; [|by apply triple_Throw; cbn; auto].
    cbn [lift bind]. destruct (_ && _); [|apply cancelled_end].
    apply triple_Do. intros r Hok'. eexists; split; [apply watch_acknowledge_results|].
    destruct r as [[]|e]; [apply cancelled_end|by apply triple_Throw; cbn; auto]. }
  unfold _commit_tool_results. destruct (recorder self); [|apply Htail].
  apply triple_Do. intros [[l'|e] b] Hok; (eexists; split; [apply watch_record_results|]); [apply Htail|by apply triple_Throw; cbn; auto].
Qed.

(** ** The round *)

(** What the [except] clause may meet. *)
Definition excepted (φ : phase) (x : frame * raised) : Prop :=
  x.2 = CancelledError \/ (φ = Idle /\ no_calls x.2) \/ (φ = Failed /\ committing_history x.1 = true /\ incomplete x.2 = None)
  \/ (φ = Stopped /\ incomplete x.2 = None) \/ φ = Free.
Lemma harmless_excepted x : harmless x -> excepted Idle x.
Proof. intros H. right. left. split; [done|]. unfold no_calls. by rewrite H. Qed.
Definition attempted {A} (φ : phase) (o : outcome (exn := frame * raised) A) : Prop :=
  match o with Done _ => φ = Idle | Threw x => excepted φ x end.

Lemma attempted_calm {A} (p : program A) : good calm harmless p -> triple Idle p attempted.
Proof. intros H. eapply triple_mono; [by apply triple_calm|]. intros φ [a|x] [-> Hx]; [done|by apply harmless_excepted]. Qed.

Lemma commit_results_attempted f l : triple (Settling false l) (commit_results self f l) attempted.
Proof.
  unfold commit_results. apply triple_seq. eapply triple_mono; [apply commit_tools|]. intros φ [[]|[f' e]]; cbn.
  - intros ->. by apply triple_Ret.
  - intros [-> [->|[-> He]]]; [by left|]. right. right. left. done.
Qed.

(** A message between a reply and its results. *)
Lemma log_between φ f l t : (forall e, e <> CancelledError -> watch φ (Ev (LogMessage l t) (Raise e)) Free) ->
  triple φ (log f l t) (fun φ' o => match o with Done _ => φ' = φ | Threw x => excepted φ' x end).
Proof.
  intros Hw. apply triple_Do. intros r _. destruct r as [[]|e].
  - exists φ. split; [by apply watch_neutral|by apply triple_Ret].
  - destruct e as [|why|e|e]; [exists φ; split; [by apply watch_neutral|apply triple_Throw; by left]|..];
      (exists Free; split; [by apply Hw|]); apply triple_Throw; do 4 right; done.
Qed.

Lemma run_tools_attempted f calls : triple (Owed calls) (run_tools self f calls) attempted.
Proof.
  unfold run_tools. apply triple_seq. eapply triple_mono; [apply log_between; intros; by apply watch_unsaid_calls|].
  intros φ [[]|x]; [intros ->|done]. apply triple_Do. intros [r b] Hok. eexists; split; [apply watch_run|]. cbv zeta. cbn [fst snd].
  set (f1 := with_end_turn _ f).
  assert (Hon : forall f, triple Idle (bind (_deliver_queued_user_inputs self f) (fun _ => Ret (f, false))) attempted).
  { intros f2. apply attempted_calm. apply good_bind; [apply deliver_good|intros; apply good_Ret]. }
  assert (Hlog : forall text l, triple (Settling false l) (bind (log f1 ERROR text) (fun _ =>
     bind (commit_results self f1 l) (fun f => bind (_deliver_queued_user_inputs self f) (fun _ => Ret (f, false))))) attempted).
  { intros text l. apply triple_seq. eapply triple_mono; [apply log_between; intros; by apply watch_unsaid_failure|].
    intros ψ [[]|y]; [intros ->|done]. apply triple_seq. eapply triple_mono; [apply commit_results_attempted|].
    intros ψ [f2|y]; cbn; [intros ->; apply Hon|done]. }
  destruct r as [l|[|why|e|e]].
  - apply triple_seq. eapply triple_mono; [apply commit_results_attempted|]. intros φ [f2|x]; cbn [attempted]; [intros ->|done].
    apply triple_Do. intros stops _. exists Idle. split; [by apply watch_neutral|].
    destruct stops; [by apply triple_Ret|]. destruct (_hook_end_turn f2); [by apply triple_Ret|apply Hon].
  - apply triple_seq. eapply triple_mono; [apply commit_tools|]. intros φ [[]|[f2 e]]; cbn [committed].
    + intros ->. apply triple_Throw. by left.
    + intros [-> [->|[-> He]]]; [by left|]. do 3 right. by left.
  - apply Hlog.
  - apply Hlog.
  - apply Hlog.
Qed.

Lemma commit_reply_attempted f m :
  triple Idle (commit_reply self f m) (fun φ o => match o with Done _ => φ = owed (tool_calls m) | Threw x => excepted φ x end).
Proof.
  unfold commit_reply. cbv zeta. apply triple_Do. intros r Hok. exists Idle. split; [by apply watch_neutral|].
  destruct r as [[]|e]; [|apply triple_Throw, harmless_excepted; exact Hok]. cbn [lift bind].
  apply triple_seq. eapply triple_mono; [apply commit_assistant|]. intros φ [[]|[f' e]]; cbn [committed].
  - intros ->. apply triple_seq. eapply triple_mono; [apply (triple_neutral _ only_cancelled), yields_good|].
    intros φ [[]|x] [-> Hx]; [by apply triple_Ret|by left].
  - intros [-> [->|[-> He]]]; [by left|]. right. right. left. done.
Qed.

Lemma stream_attempted f h : triple Idle (stream_reply self f h) attempted.
Proof.
  unfold stream_reply. cbv zeta. apply triple_Do. intros r Hok. exists Idle. split; [by apply watch_neutral|].
  destruct r as [[]|e]; [|apply triple_Throw, harmless_excepted; exact Hok]. cbn [lift bind].
  apply triple_Do. intros [es e] Hok'. exists Idle. split; [apply watch_request|]. cbn [fst snd].
  apply triple_seq. eapply triple_mono; [apply attempted_calm, calm_harmless, events_good|].
  intros φ [f1|x]; cbn [attempted]; [intros ->|done]. destruct e as [m|e]; [by apply triple_Ret|]. apply triple_Throw. right. left. split; [done|].
  exact Hok'.
Qed.

Lemma attempt_attempted f : triple Idle (attempt_round self f) attempted.
Proof.
  unfold attempt_round. apply triple_seq. eapply triple_mono; [apply attempted_calm, calm_harmless, build_good|].
  intros φ [h|x]; cbn [attempted]; [intros ->|done]. apply triple_seq. eapply triple_mono; [apply stream_attempted|].
  intros φ [[f1 m]|x]; cbn [attempted]; [intros ->|done]. apply triple_seq. eapply triple_mono; [apply commit_reply_attempted|].
  intros φ [f2|x]; [intros ->|done]. apply triple_seq.
  apply triple_mono with (Q := attempted).
  { destruct (tool_calls m) as [|c calls]; [by apply triple_Ret|]. apply run_tools_attempted. }
  intros φ [[f3 [|]]|x]; cbn [attempted]; [intros ->; by apply triple_Ret| |done]. intros ->. apply attempted_calm, guards_good.
Qed.

(** ** The loop *)

Definition between (φ : phase) : Prop := φ = Idle \/ φ = Stopped \/ φ = Free.
(** A turn leaves calls without results only when it is cancelled. *)
Definition ended (φ : phase) (e : raised) : Prop := match φ with Owed _ | Settling _ _ => e = CancelledError | _ => True end.
Definition went_on {A} (φ : phase) (o : outcome (exn := frame * raised) A) : Prop :=
  match o with Done _ => between φ | Threw x => ended φ x.2 end.

Lemma between_ended φ e : between φ -> ended φ e.
Proof. by intros [->|[->| ->]]. Qed.
Lemma went_on_neutral {A} φ (p : program A) : between φ -> good neutral anything p -> triple φ p went_on.
Proof.
  intros Hb H. eapply triple_mono; [by apply triple_neutral|]. intros φ' [a|x] [-> _]; [done|by apply between_ended].
Qed.
Lemma went_on_calm {A} (p : program A) : good calm harmless p -> triple Idle p went_on.
Proof. intros H. eapply triple_mono; [by apply triple_calm|]. intros φ' [a|x] [-> _]; [by left|done]. Qed.
Lemma went_on_free {A} (p : program A) : triple Free p went_on.
Proof. apply triple_free. intros [a|x]; [by right; right|done]. Qed.
Lemma went_on_bind {A B} φ (m : program A) (f : A -> program B) :
  triple φ m went_on -> (forall φ' a, between φ' -> triple φ' (f a) went_on) -> triple φ (bind m f) went_on.
Proof. intros Hm Hf. apply triple_seq. eapply triple_mono; [exact Hm|]. intros φ' [a|x] H; [by apply Hf|done]. Qed.

Lemma partial_went_on f e partial : match partial with Some m => tool_calls m = [] | None => True end ->
  triple Idle (continue_partial self f e partial) went_on.
Proof.
  intros Hc. unfold continue_partial. apply triple_seq.
  apply triple_mono with (Q := fun φ (o : outcome unit) => match o with Done _ => φ = Idle | Threw x => ended φ x.2 end).
  - destruct partial as [m|]; [|by apply triple_Ret]. apply triple_catch. eapply triple_mono; [apply commit_assistant|].
    intros φ [[]|[f' e']]; cbn [committed].
    + intros ->. cbn [normalized tool_calls]. by rewrite Hc.
    + intros [-> [->|[-> He]]]; [apply triple_Throw; by destruct φ|]. cbn [fst snd]. destruct e'; by apply triple_Throw.
  - intros φ [[]|x]; [intros ->|done]. cbv zeta.
    set (f1 := match partial with Some _ => _ | None => _ end).
    apply triple_seq. eapply triple_mono; [apply (triple_neutral _ only_cancelled), yields_good|]. intros φ [[]|x] [-> _]; [|done].
    apply triple_seq. eapply triple_mono; [apply (triple_neutral _ harmless); goods|]. intros φ [[]|x] [-> _]; [|done].
    apply triple_seq. eapply triple_mono; [apply (triple_neutral _ anything), handle_good|]. intros φ [f2|x] [-> _]; [|done].
    apply went_on_calm. apply good_bind; [apply context_good|intros; apply good_Ret].
Qed.

Lemma on_error_went_on φ f e : excepted φ (f, e) -> e <> CancelledError -> triple φ (on_error self f e) went_on.
Proof.
  unfold excepted. cbn [fst snd]. intros [->|[[-> Hn]|[(-> & Hc & He)|[[-> He]| ->]]]] Hne; [done|..|apply went_on_free]; unfold on_error.
  - destruct e as [|why|e|e]; [done|by apply triple_Throw|..].
    + destruct (incomplete (Llm e)) as [partial|] eqn:Ei.
      * destruct (rendered (segs f)); [apply partial_went_on; unfold no_calls in Hn; rewrite Ei in Hn; by destruct partial|].
        destruct (committing_history f); [by apply triple_Throw|]. apply went_on_neutral; [by left|apply handle_good].
      * destruct (committing_history f); [by apply triple_Throw|]. apply went_on_neutral; [by left|apply handle_good].
    + cbn [incomplete]. destruct (committing_history f); [by apply triple_Throw|]. apply went_on_neutral; [by left|apply handle_good].
  - rewrite He, Hc. destruct e; by apply triple_Throw.
  - rewrite He. destruct e as [|why|e|e]; [done|by apply triple_Throw|..];
      (destruct (committing_history f); [by apply triple_Throw|]); (apply went_on_neutral; [by right; left|apply handle_good]).
Qed.

(** After the question whether the turn is cancelled. *)
Lemma cancelling_went_on {A} φ f (p : program A) : between φ -> triple Idle p went_on ->
  triple φ (Do Cancelling (fun cancelling : bool => if cancelling then Throw (f, CancelledError) else p)) went_on.
Proof.
  intros [->|[->| ->]] Hp; [| |apply went_on_free].
  - apply triple_Do. intros b _. exists Idle. split; [apply watch_cancelling|]. destruct b; [by apply triple_Throw|done].
  - apply triple_Do. intros b _. eexists; split; [apply watch_stopped|]. destruct b; [by apply triple_Throw|apply went_on_free].
Qed.

Lemma round_went_on φ f : between φ -> triple φ (round self f) went_on.
Proof.
  intros Hb. unfold round. apply triple_seq. apply triple_mono with (Q := fun φ (o : outcome frame) => match o with Done _ => φ = Idle \/ φ = Free | Threw x => ended φ x.2 end).
  - unfold start_round. destruct Hb as [->|[->| ->]]; [| |apply triple_free; intros [|]; [by right|done]].
    + apply triple_Do. intros b _. exists Idle. split; [apply watch_cancelling|]. destruct b; [by apply triple_Throw|].
      eapply triple_mono; [apply (triple_neutral _ anything)|].
      * apply good_bind; [awaits|intros _]. destruct (max_iterations self); [destruct (_ <? _)|]; goods.
      * intros φ [f'|x] [-> _]; [by left|done].
    + apply triple_Do. intros b _. eexists; split; [apply watch_stopped|]. destruct b; [by apply triple_Throw|].
      apply triple_free. intros [|]; [by right|done].
  - intros φ' [f'|x]; [|done]. intros [->| ->]; [|apply went_on_free]. apply triple_catch. eapply triple_mono; [apply attempt_attempted|].
    intros φ'' [[f'' b]|[f'' e]]; cbn [attempted]; [intros ->; by left|]. intros He. cbn [fst snd].
    assert (Ht : e <> CancelledError -> triple φ'' (bind (on_error self f'' e) (fun f => Ret (f, false))) went_on).
    { intros Hne. apply went_on_bind; [by apply on_error_went_on|]. intros ψ a Hψ. by apply triple_Ret. }
    destruct e; [apply triple_Throw; by destruct φ''|by apply Ht..].
Qed.
Lemma finish_went_on {A} φ f (k : frame -> program A) : between φ -> (forall f, triple Idle (k f) went_on) -> triple φ (bind (finish self f) k) went_on.
Proof.
  intros Hb Hk. apply (cancelling_went_on φ f (bind (bind (log f INFO (completion_log_message self)) (fun _ => Ret f)) k)) in Hb.
  - intros t o Hr Hok. apply Hb; [|done]. revert Hr. cbn. intros (r & t' & -> & Hr). exists r, t'. split; [done|]. by destruct r.
  - apply triple_seq. eapply triple_mono; [apply (triple_neutral _ harmless)|].
    + apply good_bind; [apply log_harmless|intros; apply good_Ret].
    + intros φ' [f'|x] [-> ?]; [apply Hk|done].
Qed.
Lemma rounds_went_on fuel : forall φ f, between φ -> triple φ (rounds self fuel f) went_on.
Proof.
  assert (Hfin : forall φ f, between φ -> triple φ (bind (finish self f) (fun f => Ret (Some f))) went_on).
  { intros φ f Hb. apply finish_went_on; [done|]. intros f'. apply triple_Ret. by left. }
  induction fuel as [|fuel IH]; intros φ f Hb; cbn [rounds].
  - destruct (terminal (stop f)); [by apply Hfin|by apply triple_Ret].
  - destruct (terminal (stop f)); [by apply Hfin|]. apply went_on_bind; [by apply round_went_on|].
    intros φ' [f' [|]] Hb'; [by apply Hfin|by apply IH].
Qed.

End Facts.

(** ** A concrete host *)

Module Sample.
#[export] Instance outside : @Environment Empty_set := {|
  uuid4 n := [Z.of_nat n]; lower s := s; title s := s; alnum c := ascii_digit c; repr _ := []; other_text _ := None;
  over_threshold n budget := budget <? n; second := 1000; fixed _ t := dec t; round1 t := t; seconds_of v := as_int v;
  date_after _ := None; build_silent_turn_nudge _ := lit "act"; build_truncated_turn_nudge _ := lit "continue";
  build_interrupted_turn_nudge _ := lit "go on"; SILENT_TURN_EXHAUSTED_NOTICE := lit "silent" |}.
Definition self : agent := {|
  agent_name := lit "coder"; sub_agent := false; max_iterations := Some 4; model := lit "m"; provider := lit "openai"; tinker := false;
  loop_max_retries := 3; _llm_retry_budget_seconds := 360000; model_max_input_tokens := 1000; model_context_length := 2000;
  strict_context_budget := false; edit_protocol := lit "hashline"; freeform_tools := []; recorder := true; acknowledge_assistant := true;
  acknowledge_tool_results := true; has_queue := true; completion_log_message := lit "Processing complete" |}.

Abbreviation effect := (@effect Empty_set unit).
Abbreviation answer := (@answer Empty_set unit).
Definition reply : Type := list stream_event * result (raised (@Message Empty_set)) (@Message Empty_set).
Definition says (stop : string) (text : string) (calls : list ToolCall) : @Message Empty_set :=
  mkMessage Assistant (Blocks (TextBlock (lit text) :: map CallBlock calls)) (Some (lit stop)) calls [] None.

(** How a host may differ: a tool that ends the loop, a hook that ends the turn, an
    event at the end of a request that cannot be sent. *)
Record variant := { stops : bool; ends : bool; request_ends : result (raised (@Message Empty_set)) unit }.
Definition plain : variant := {| stops := false; ends := false; request_ends := Ok tt |}.
(** Answers from a script of replies; when it ends, [last]. *)
Definition host (v : variant) (last : reply) (a : effect) (w : list reply) : answer a * list reply :=
  match a return answer a * list reply with
  | Cancelling => (false, w)
  | ShouldStop => (stops v, w)
  | Yield _ => (true, w)
  | Now | Jitter _ => (0, w)
  | BuildHistory => (Ok tt, w)
  | CountTokens _ => (Ok 10, w)
  | Compress _ _ _ => (Ok {| c_ok := true; c_reason := lit "ok"; summarized_messages := 1 |}, w)
  | FireHook _ _ => (Ok empty_outcome, w)
  | Stream _ => match w with r :: w' => (r, w') | [] => (last, []) end
  | RecordAssistant _ => ((Ok tt, false), w)
  | RunTools calls => ((Ok (map (error_result (lit "done")) calls), ends v), w)
  | RecordResults l => ((Ok l, false), w)
  | QueuedInputs => (Ok [{| q_text := lit "also this"; attachments := VNone; origin := VNone |}], w)
  | BuildContent t _ => (Ok [TextBlock t], w)
  | Recap => (Ok (lit "report"), w)
  | LlmRequest _ (Some _) => (request_ends v, w)
  | PrepareBackground | LlmRequest _ None | OnToolUseStart _ | EmitHosted _ | LogMessage _ _ | Status _ _ _ | EmitError _ _ _ _ _
  | AppendAssistant _ | AcknowledgeAssistant | AppendUser _ | AcknowledgeResults | DeliverBackground | RecordContext _ | RecordNotice _ _
  | Sleep _ => (Ok tt, w)
  end.
Definition finished : reply := ([], Ok (says "end_turn" "All done." [])).
Definition call : ToolCall := mkCall (lit "1") (lit "read") (VDict []) (Some (lit "x1")) (lit "json").
Definition timeout : reply := ([], Raise (Llm (LlmErrors.made LlmErrors.LLMTimeout (lit "slow") None))).
Definition calls_read : reply := ([Text (lit "Let me look at the file.")], Ok (says "tool_use" "Let me look at the file." [call])).
Definition start : frame := start_frame 0 0 None false false.
Definition turn (fuel : nat) (last : reply) (script : list reply) :=
  exec (host plain last) (_agent_loop_stream self fuel start) script.
End Sample.


(** When the message that announces the calls of a reply cannot be given, its error
    is handled as one of the provider: when it may be retried, the tools do not run
    and the next request is sent while the calls of the reply are open. *)
Module Mute.
Definition closed : raised (@Message Empty_set) :=
  Foreign (LlmErrors.mkForeign LlmErrors.ConnectionError (lit "ConnectionResetError") (lit "closed") VNone None VNone VNone VNone None VNone VNone).
Definition host (a : Sample.effect) (w : list Sample.reply) : Sample.answer a * list Sample.reply :=
  match a return Sample.answer a * list Sample.reply with
  | LogMessage l text => (if startswith (lit "Received") text then Raise closed else Ok tt, w)
  | a => Sample.host Sample.plain Sample.finished a w
  end.
Inductive step := Request | Reply (calls : Z) | Tools | User.
Definition steps (t : list (event Sample.answer)) : list step :=
  omap (fun e => match e with
                 | Ev (Stream _) _ => Some Request
                 | Ev (AppendAssistant m) _ => Some (Reply (len (tool_calls m)))
                 | Ev (RunTools _) _ => Some Tools
                 | Ev (AppendUser _) _ => Some User
                 | _ => None
                 end) t.
End Mute.
Lemma mute_log_skips_tools :
  let r := exec Mute.host (_agent_loop_stream (outside := Sample.outside) Sample.self 4 Sample.start) [Sample.calls_read] in
  (exists f, r.1.2 = Done (Some f)) /\ Mute.steps r.1.1 = [Mute.Request; Mute.Reply 1; Mute.Request; Mute.Reply 0].
Proof. cbv zeta. split; [eexists; vm_compute; reflexivity|]. vm_compute. reflexivity. Qed.
