(* ===== verification/AgentLoopLimits.v ===== *)
(** * Facts about the agent loop: its limits

    With a limit of iterations a turn ends, whatever the model answers, and sends
    no more requests than that; while the provider gives no reply, the turn ends
    after the permitted retries; and each retry waits within its bounds.  Without a
    limit of iterations a turn need not end: two lemmas give the replies. *)

From stdpp Require Import base list strings numbers.
From Stdlib Require Import ZArith Lia.
From S2P Require Import Prelude PyStr PyVal Json Permissions SessionRuntime Conversation Prog Tools Hooks ToolExec AgentStream AgentLoop AgentLoopFacts.
From S2P Require LlmErrors.
Import LlmErrors(raised, Llm, Foreign, Persistence, llm_error, llm_class, foreign).

Section Limits.
Context {other request : Type}.
Abbreviation Message := (@Message other).
Abbreviation raised := (raised Message).
Abbreviation CancelledError := (LlmErrors.CancelledError (message := Message)).
Abbreviation effect := (@effect other request).
Abbreviation answer := (@answer other request).
Abbreviation program := (prog (action := effect) answer (frame * raised)).
Abbreviation Ev := (Ev (answer := answer)).
Abbreviation outcome := (outcome (exn := frame * raised)).

Definition is_request (e : event answer) : bool := match e with Prog.Ev (Stream _) _ => true | _ => false end.
Definition requests (t : list (event answer)) : nat := count is_request t.
(** A reply that was appended to the history. *)
Definition is_reply (e : event answer) : bool := match e with Prog.Ev (AppendAssistant _) _ => true | _ => false end.

Lemma requests_app t t' : requests (t ++ t') = (requests t + requests t')%nat.
Proof. unfold requests, count. by rewrite List.filter_app, length_app. Qed.

(** ** Programs and how many requests they send

    On the traces whose events are [allowed]. *)

Variable allowed : event answer -> Prop.
Definition within {A} (k : nat) (p : program A) (R : outcome A -> Prop) : Prop :=
  forall t o, runs p t o -> Forall allowed t -> (requests t <= k)%nat /\ R o.

Lemma within_Ret {A} k (a : A) (R : outcome A -> Prop) : R (Done a) -> within k (Ret a) R.
Proof. intros H t o [-> ->] _. split; [unfold requests, count; cbn; lia|done]. Qed.
Lemma within_Throw {A} k x (R : outcome A -> Prop) : R (Threw x) -> within k (Throw x) R.
Proof. intros H t o [-> ->] _. split; [unfold requests, count; cbn; lia|done]. Qed.
Lemma within_Do {A} k a (c : answer a -> program A) (R : outcome A -> Prop) :
  (forall r, allowed (Ev a r) -> is_request (Ev a r) = false /\ within k (c r) R) -> within k (Do a c) R.
Proof.
  intros H t o (r & t' & -> & Hr) [Ha Ha']%list.Forall_cons. destruct (H r Ha) as [Hq Hw]. destruct (Hw _ _ Hr Ha') as [Hk Ho].
  split; [|done]. unfold requests, count in *. cbn [List.filter]. by rewrite Hq.
Qed.
Lemma within_request {A} k a (c : answer a -> program A) (R : outcome A -> Prop) :
  (forall r, allowed (Ev a r) -> within k (c r) R) -> within (S k) (Do a c) R.
Proof.
  intros H t o (r & t' & -> & Hr) [Ha Ha']%list.Forall_cons. destruct (H r Ha _ _ Hr Ha') as [Hk Ho].
  split; [|done]. unfold requests, count in *. cbn [List.filter]. destruct (is_request _); cbn [length]; lia.
Qed.
Lemma within_bind {A B} k k' (m : program A) (f : A -> program B) (R : outcome A -> Prop) (R' : outcome B -> Prop) :
  within k m R -> (forall a, R (Done a) -> within k' (f a) R') -> (forall x, R (Threw x) -> R' (Threw x)) -> within (k + k') (bind m f) R'.
Proof.
  intros Hm Hf Hx t o [(t1 & t2 & a & -> & H1 & H2)|(x & H1 & ->)]%runs_bind Ha.
  - apply Forall_app in Ha as [Ha1 Ha2]. destruct (Hm _ _ H1 Ha1) as [Hk HR], (Hf _ HR _ _ H2 Ha2) as [Hk' HR'].
    rewrite requests_app. split; [lia|done].
  - destruct (Hm _ _ H1 Ha) as [Hk HR]. split; [lia|auto].
Qed.
Lemma within_bind0 {A B} k (m : program A) (f : A -> program B) (R : outcome A -> Prop) (R' : outcome B -> Prop) :
  within 0 m R -> (forall a, R (Done a) -> within k (f a) R') -> (forall x, R (Threw x) -> R' (Threw x)) -> within k (bind m f) R'.
Proof. apply (within_bind 0 k). Qed.
Lemma within_catch {A} k k' (m : program A) h (R R' : outcome A -> Prop) :
  within k m R -> (forall a, R (Done a) -> R' (Done a)) -> (forall x, R (Threw x) -> within k' (h x) R') -> within (k + k') (catch m h) R'.
Proof.
  intros Hm Hd Hh t o [(a & H1 & ->)|(t1 & t2 & x & -> & H1 & H2)]%runs_catch Ha.
  - destruct (Hm _ _ H1 Ha) as [Hk HR]. split; [lia|auto].
  - apply Forall_app in Ha as [Ha1 Ha2]. destruct (Hm _ _ H1 Ha1) as [Hk HR], (Hh _ HR _ _ H2 Ha2) as [Hk' HR'].
    rewrite requests_app. split; [lia|done].
Qed.
Lemma within_mono {A} k k' (p : program A) (R R' : outcome A -> Prop) :
  within k p R -> (k <= k')%nat -> (forall o, R o -> R' o) -> within k' p R'.
Proof. intros H Hk HR t o Hr Ha. destruct (H _ _ Hr Ha). split; [lia|auto]. Qed.
Lemma within_mapP {A B} (f : A -> program B) l (R : frame * raised -> Prop) :
  (forall x, within 0 (f x) (fun o => match o with Done _ => True | Threw x => R x end)) ->
  within 0 (mapP f l) (fun o => match o with Done _ => True | Threw x => R x end).
Proof.
  intros H. induction l as [|x l IH]; cbn [mapP]; [by apply within_Ret|]. eapply within_bind0; [apply H| |done]. intros y _.
  eapply within_bind0; [apply IH| |done]. intros ys _. by apply within_Ret.
Qed.

(** ** What the steps do to the counters *)

Context {outside : @Environment other}.
Variable self : agent.
Implicit Types f : frame.

(** The steps of a round keep the number of the iteration and, until there is a
    reply, the number of retries. *)
Definition replied : Prop := exists m r, allowed (Ev (AppendAssistant m) r).
Definition kept f f' : Prop :=
  iterations f' = iterations f /\ (replied \/ _consecutive_llm_retries f' = _consecutive_llm_retries f).
Definition throws_kept {A} f (o : outcome A) : Prop := match o with Done _ => True | Threw x => kept f x.1 end.
Definition frame_kept f (o : outcome frame) : Prop := match o with Done f' => kept f f' | Threw x => kept f x.1 end.
Definition flag_kept f (o : outcome (frame * bool)) : Prop := match o with Done r => kept f r.1 | Threw x => kept f x.1 end.

Lemma kept_refl f : kept f f.
Proof. by split; [|right]. Qed.
Lemma kept_trans f1 f2 f3 : kept f1 f2 -> kept f2 f3 -> kept f1 f3.
Proof. intros [E1 [H1|H1]] [E2 [H2|H2]]; (split; [congruence|]); auto. right. congruence. Qed.

Create HintDb kept.
Ltac steps f :=
  repeat first
    [ solve [auto 2 with kept nocore]
    | apply within_Ret; first [exact I|apply kept_refl|done]
    | apply within_Throw; first [exact I|apply kept_refl|done]
    | match goal with |- within _ (lift _ ?r) _ => destruct r end
    | match goal with |- within _ (bind _ _) _ =>
        eapply (within_bind0 _ _ _ (throws_kept f)); [|intros ? _|intros ? Hx; exact Hx] end
    | match goal with |- within _ (mapP _ _) _ => apply (within_mapP _ _ (fun x => kept f x.1)); intros ? end
    | match goal with |- within _ (Do _ _) _ => apply within_Do; let r := fresh "r" in intros r _; split; [done|]; cbv zeta end
    | match goal with |- within _ (match ?x with _ => _ end) _ => destruct x end ].

Lemma log_kept f l t : within 0 (log f l t) (throws_kept f).
Proof. unfold log. steps f. Qed.
Lemma status_kept f l t r : within 0 (status f l t r) (throws_kept f).
Proof. unfold status. steps f. Qed.
Lemma yield_kept f c : within 0 (yield f c) (throws_kept f).
Proof. unfold yield. steps f. Qed.
Lemma yields_kept f l : within 0 (yields f l) (throws_kept f).
Proof.
  unfold yields. eapply within_bind0; [apply (within_mapP _ _ (fun x => kept f x.1)), yield_kept| |done]. intros ? _. by apply within_Ret.
Qed.
Lemma record_kept f l : within 0 (record_and_append self f l) (throws_kept f).
Proof. unfold record_and_append. steps f. Qed.
#[local] Hint Resolve log_kept status_kept yield_kept yields_kept record_kept : kept.
Lemma compact_kept f t b k : within 0 (_auto_compact_once self f t b k) (throws_kept f).
Proof. unfold _auto_compact_once. steps f. Qed.
#[local] Hint Resolve compact_kept : kept.
Lemma build_kept f : within 0 (build_request self f) (throws_kept f).
Proof.
  unfold build_request. steps f.
Qed.

Lemma events_kept es : forall f, within 0 (handle_events f es) (frame_kept f).
Proof.
  induction es as [|e es IH]; intros f; cbn [handle_events]; [apply within_Ret, kept_refl|]. destruct (stream_step _ _ _) as [chunks s].
  assert (Hs : forall s, kept f (with_segs s f)) by (intros; by split; [|right]).
  eapply within_bind0; [apply yields_kept| |intros x Hx; exact Hx]. intros _ _.
  assert (IH' : forall s, within 0 (handle_events (with_segs s f) es) (frame_kept f)).
  { intros s'. eapply within_mono; [apply IH|done|]. intros [f'|x]; cbn; intros; (eapply kept_trans; [apply (Hs s')|done]). }
  destruct e; try apply IH'.
  all: eapply (within_bind0 _ _ _ (throws_kept (with_segs s f))); [steps (with_segs s f)|intros _ _; apply IH'|intros x Hx; exact Hx].
Qed.
Lemma stream_kept f h :
  within 1 (stream_reply self f h) (fun o => match o with Done r => kept f r.1 | Threw x => kept f x.1 end).
Proof.
  unfold stream_reply. cbv zeta. set (f1 := with_segs _ f). assert (H1 : kept f f1) by (by split; [|right]).
  eapply (within_bind0 _ _ _ (throws_kept f1)); [steps f1| |intros x Hx; eapply kept_trans; [exact H1|exact Hx]]. intros _ _.
  set (f2 := with_needs_turn false f1). assert (H2 : kept f f2) by (by split; [|right]).
  apply within_request. intros [es e] _. eapply within_bind0; [apply events_kept| |].
  - intros f3 H3. cbn in H3. destruct e; [apply within_Ret|apply within_Throw]; (eapply kept_trans; [exact H2|exact H3]).
  - intros x Hx. eapply kept_trans; [exact H2|exact Hx].
Qed.

(** After a commit that returns, or is interrupted late, there is a reply. *)
Lemma commit_kept f m : within 0 (_commit_assistant_message self f m) (fun o => match o with Done _ => replied | Threw x => kept f x.1 end).
Proof.
  unfold _commit_assistant_message. eapply (within_bind0 _ _ _ (throws_kept f)); [destruct (recorder self); steps f| |intros x Hx; exact Hx].
  intros b _. apply within_Do. intros r Ha. split; [done|]. assert (Hr : replied) by (by eexists _, _).
  destruct r as [[]|e]; [|apply within_Throw, kept_refl]. cbn [lift bind].
  eapply (within_bind0 _ _ _ (throws_kept f)); [destruct (_ && _); steps f| |intros x Hx; exact Hx]. intros _ _.
  destruct b; [apply within_Throw, kept_refl|by apply within_Ret].
Qed.
Lemma results_kept f l : within 0 (_commit_tool_results self f l) (throws_kept f).
Proof. unfold _commit_tool_results. steps f. Qed.
#[local] Hint Resolve results_kept : kept.

(** After the reply only the number of the iteration matters. *)
Lemma replied_kept f f' : replied -> iterations f' = iterations f -> kept f f'.
Proof. by split; [|left]. Qed.
Lemma deliver_kept f : within 0 (_deliver_queued_user_inputs self f) (throws_kept f).
Proof.
  unfold _deliver_queued_user_inputs. steps f.
Qed.
#[local] Hint Resolve deliver_kept : kept.

(** The steps after a reply: only the iteration is followed. *)
Definition same f (o : outcome (frame * bool)) : Prop := iterations (match o with Done r => r.1 | Threw x => x.1 end) = iterations f.
Definition same_frame f (o : outcome frame) : Prop := iterations (match o with Done f' => f' | Threw x => x.1 end) = iterations f.

Lemma flag_step {A} f f1 (m : program A) (k : A -> program (frame * bool)) :
  iterations f1 = iterations f -> within 0 m (throws_kept f1) -> (forall a, within 0 (k a) (same f)) -> within 0 (bind m k) (same f).
Proof. intros E Hm Hk. eapply within_bind0; [exact Hm|intros a _; apply Hk|]. intros x [Ex _]. unfold same. cbn in *. congruence. Qed.
Lemma frame_step {A} f f1 (m : program A) (k : A -> program frame) :
  iterations f1 = iterations f -> within 0 m (throws_kept f1) -> (forall a, within 0 (k a) (same_frame f)) -> within 0 (bind m k) (same_frame f).
Proof. intros E Hm Hk. eapply within_bind0; [exact Hm|intros a _; apply Hk|]. intros x [Ex _]. unfold same_frame. cbn in *. congruence. Qed.

Lemma commit_results_same f l : within 0 (commit_results self f l) (same_frame f).
Proof. unfold commit_results. eapply (frame_step _ (with_committing true f)); [done|apply results_kept|]. intros _. by apply within_Ret. Qed.

Lemma run_tools_same f calls : within 0 (run_tools self f calls) (same f).
Proof.
  unfold run_tools. eapply (flag_step _ f); [done|apply log_kept|]. intros _. apply within_Do. intros [r b] _. split; [done|]. cbv zeta. cbn [fst snd].
  set (f1 := with_end_turn _ f). assert (E1 : iterations f1 = iterations f) by done.
  assert (Hon : forall f2, iterations f2 = iterations f -> within 0 (bind (_deliver_queued_user_inputs self f2) (fun _ => Ret (f2, false))) (same f)).
  { intros f2 E2. eapply flag_step; [exact E2|apply deliver_kept|]. intros _. by apply within_Ret. }
  assert (Hres : forall l (k : frame -> program (frame * bool)), (forall f2, iterations f2 = iterations f -> within 0 (k f2) (same f)) ->
    within 0 (bind (commit_results self f1 l) k) (same f)).
  { intros l k Hk. eapply within_bind0; [apply commit_results_same| |]; [intros f2 E2; by apply Hk|intros x Ex; exact Ex]. }
  assert (Hlog : forall text l, within 0 (bind (log f1 ERROR text) (fun _ =>
     bind (commit_results self f1 l) (fun f => bind (_deliver_queued_user_inputs self f) (fun _ => Ret (f, false))))) (same f)).
  { intros text l. eapply flag_step; [exact E1|apply log_kept|]. intros _. apply Hres, Hon. }
  destruct r as [l|[|why|e|e]]; [|..|apply Hlog|apply Hlog|apply Hlog].
  - apply Hres. intros f2 E2. apply within_Do. intros stops _. split; [done|]. destruct stops; [by apply within_Ret|].
    destruct (_hook_end_turn f2); [by apply within_Ret|by apply Hon].
  - eapply (flag_step _ f1); [done|apply results_kept|]. intros _. by apply within_Throw.
Qed.

Lemma silent_guard_same f m : within 0 (silent_guard self f m) (same f).
Proof.
  unfold silent_guard. destruct (_ && _); [|by apply within_Ret]. destruct (_ <? _).
  - set (f1 := with_nudges _ _ _ f). eapply (flag_step _ f1); [done|apply status_kept|intros _].
    eapply (flag_step _ f1); [done|apply record_kept|intros _]. by apply within_Ret.
  - eapply (flag_step _ f); [done|apply log_kept|intros _]. eapply (flag_step _ f); [done|apply status_kept|intros _].
    eapply (flag_step _ f); [done|apply record_kept|intros _].
    eapply (flag_step _ f); [done|unfold _record_synthetic_notice; destruct (recorder self); steps f|intros _].
    eapply (flag_step _ f); [done|apply yield_kept|intros _]. by apply within_Ret.
Qed.
Lemma truncated_same f m : within 0 (truncated_guard self f m) (same_frame f).
Proof.
  unfold truncated_guard. destruct (_ && _); [|by apply within_Ret]. destruct (_ <? _).
  - set (f1 := with_nudges _ _ _ f). eapply (frame_step _ f1); [done|apply status_kept|intros _].
    eapply (frame_step _ f1); [done|apply record_kept|intros _]. by apply within_Ret.
  - eapply (frame_step _ f); [done|apply log_kept|intros _]. eapply (frame_step _ f); [done|apply status_kept|intros _]. by apply within_Ret.
Qed.
Lemma stop_hook_kept f : within 0 (_fire_stop_hook f) (throws_kept f).
Proof.
  unfold _fire_stop_hook. eapply (within_bind0 _ _ _ (throws_kept f)); [|intros; steps f|done].
  eapply (within_catch 0 0 _ _ (throws_kept f)); [steps f|done|]. intros [f' []] Hx; [by apply within_Throw|by apply within_Ret..].
Qed.
Lemma stop_same f : within 0 (stop_guard self f) (same_frame f).
Proof.
  unfold stop_guard. destruct (_ && _); [|by apply within_Ret]. eapply (frame_step _ f); [done|apply stop_hook_kept|intros [text|]]; [|by apply within_Ret].
  destruct (_ <? _); [|by apply within_Ret]. set (f1 := with_nudges _ _ _ f).
  eapply (frame_step _ f1); [done|apply record_kept|intros _]. by apply within_Ret.
Qed.
Lemma guards_same f m : within 0 (guards self f m) (same f).
Proof.
  unfold guards. eapply within_bind0; [apply silent_guard_same| |done]. intros [f1 [|]] E1; [by apply within_Ret|]. unfold same in E1. cbn in E1.
  eapply within_bind0; [apply truncated_same| |]; [|intros x Ex; unfold same_frame, same in *; cbn in *; congruence].
  intros f2 E2. unfold same_frame in E2. cbn in E2.
  eapply within_bind0; [apply stop_same| |]; [|intros x Ex; unfold same_frame, same in *; cbn in *; congruence].
  intros f3 E3. unfold same_frame in E3. cbn in E3. apply within_Ret. unfold same. cbn. congruence.
Qed.

Lemma commit_reply_kept f m :
  within 0 (commit_reply self f m) (fun o => match o with Done f' => replied /\ iterations f' = iterations f | Threw x => kept f x.1 end).
Proof.
  unfold commit_reply. cbv zeta. set (f1 := with_stop _ f). eapply (within_bind0 _ _ _ (throws_kept f1)); [steps f1| |intros x Hx; exact Hx].
  intros _ _. eapply within_bind0; [apply commit_kept| |intros x Hx; exact Hx]. intros [] Hr. cbn in Hr.
  set (f2 := with_nudges _ _ _ _). eapply within_bind0; [apply (yields_kept f2)| |].
  - intros _ _. by apply within_Ret.
  - intros x [Ex _]. by apply replied_kept.
Qed.

Lemma attempt_kept f :
  within 1 (attempt_round self f) (fun o => match o with Done r => replied /\ iterations r.1 = iterations f | Threw x => kept f x.1 end).
Proof.
  unfold attempt_round. eapply within_bind0; [apply build_kept| |done]. intros h _.
  eapply (within_bind 1 0); [apply stream_kept| |intros x Hx; exact Hx]. intros [f1 m] H1. cbn in H1.
  eapply within_bind0; [apply commit_reply_kept| |intros x Hx; by eapply kept_trans]. intros f2 [Hr E2].
  assert (E : iterations f2 = iterations f) by (destruct H1; congruence).
  assert (Hx : forall x : frame * raised, iterations x.1 = iterations f2 -> kept f x.1) by (intros x Ex; apply replied_kept; [done|congruence]).
  eapply (within_bind0 _ _ _ (same f2)); [destruct (tool_calls m); [by apply within_Ret|apply run_tools_same]| |intros x Ex; by apply Hx].
  intros [f3 [|]] E3; unfold same in E3; cbn in E3; [apply within_Ret; split; [done|cbn; congruence]|].
  eapply within_mono; [apply guards_same|done|]. intros [r|x] E4; unfold same in E4; cbn in *.
  - split; [done|congruence].
  - apply Hx. congruence.
Qed.

(** ** Retries *)

(** What a retry does to the counters. *)
Definition retried f f' : Prop :=
  iterations f' = iterations f /\ _consecutive_llm_retries f' = _consecutive_llm_retries f + 1
  /\ _consecutive_llm_retries f' <= loop_max_retries self.

Lemma throw_retried f f1 l t r (x : frame * raised) :
  within 0 (bind (status f1 l t r) (fun _ => Throw x)) (fun o : outcome frame => match o with Done f' => retried f f' | Threw _ => True end).
Proof. eapply within_bind0; [apply status_kept|intros; by apply within_Throw|done]. Qed.
Lemma sleep_retried f f1 e n u d s c : retried f f1 ->
  within 0 (sleep_before_retry self f1 e n u d s c) (fun o => match o with Done f' => retried f f' | Threw _ => True end).
Proof.
  intros H. unfold sleep_before_retry. cbv zeta. apply within_Do. intros now1 _. split; [done|].
  eapply within_bind0; [apply log_kept|intros _ _|done]. eapply within_bind0; [apply status_kept|intros _ _|done].
  apply within_Do. intros now2 _. split; [done|].
  eapply (within_bind0 _ _ _ (throws_kept f1)); [steps f1|intros _ _|done]. apply within_Do. intros now3 _. split; [done|].
  destruct (_ <=? 0); [apply within_Do; intros; split; [done|apply throw_retried]|].
  eapply within_bind0; [apply log_kept|intros _ _|done]. by apply within_Ret.
Qed.
Lemma handle_retried f e c :
  within 0 (handle_llm_error self f e c) (fun o => match o with Done f' => retried f f' | Threw _ => True end).
Proof.
  unfold handle_llm_error. eapply (within_bind0 _ _ _ (fun _ => True)); [|intros [] _|done].
  { eapply (within_catch 0 0 _ _ (fun _ => True)); [|done|intros [f' []] _; [by apply within_Throw|by apply within_Ret..]].
    apply within_Do. intros []; (split; [done|]); [by apply within_Ret|by apply within_Throw]. }
  destruct (retryable _); [|apply throw_retried]. apply within_Do. intros now _. split; [done|]. cbv zeta.
  set (f1 := with_retries _ _ _ f). destruct (Z.ltb_spec (loop_max_retries self) (_consecutive_llm_retries f + 1)); [apply throw_retried|].
  assert (Hf : retried f f1) by (split_and!; [done..|]; cbn; lia).
  rewrite orb_false_l. destruct (_ || _); [apply throw_retried|]. destruct (_parse_retry_after e); [by apply sleep_retried|].
  apply within_Do. intros d _. split; [done|]. by apply sleep_retried.
Qed.

(** A round that goes on after an exception had a reply, or used up a retry. *)
Definition recovered f f' : Prop := iterations f' = iterations f /\ (replied \/ retried f f').
Lemma on_error_recovered f e :
  within 0 (on_error self f e) (fun o => match o with Done f' => recovered f f' | Threw _ => True end).
Proof.
  assert (Hh : within 0 (handle_llm_error self f e false) (fun o => match o with Done f' => recovered f f' | Threw _ => True end)).
  { eapply within_mono; [apply handle_retried|done|]. intros [f'|x]; [|done]. intros H. split; [apply H|by right]. }
  unfold on_error. destruct e as [|why|e|e]; [|by apply within_Throw| |].
  1, 3: cbn [incomplete]; destruct (committing_history f); [by apply within_Throw|done].
  destruct (incomplete (Llm e)) as [partial|]; [|destruct (committing_history f); [by apply within_Throw|done]].
  destruct (rendered (segs f)); [|destruct (committing_history f); [by apply within_Throw|done]].
  unfold continue_partial.
  eapply (within_bind0 _ _ _ (fun o => match o with Done _ => partial = None \/ replied | Threw _ => True end)).
  - destruct partial as [m|]; [|apply within_Ret; by left].
    eapply (within_catch 0 0); [apply commit_kept| |].
    + intros [] Hr. by right.
    + intros [f' []] _; by apply within_Throw.
  - intros [] Hp. cbv zeta. set (f1 := match partial with Some _ => _ | None => _ end).
    assert (E1 : iterations f1 = iterations f /\ _consecutive_llm_retries f1 = _consecutive_llm_retries f) by (by destruct partial).
    eapply (within_bind0 _ _ _ (throws_kept f1)); [apply yields_kept|intros _ _|done].
    eapply (within_bind0 _ _ _ (throws_kept f1)); [steps f1|intros _ _|done].
    eapply within_bind0; [apply handle_retried| |done]. intros f2 (E2 & E3 & E4).
    eapply (within_bind0 _ _ _ (throws_kept f2)); [apply record_kept|intros _ _|done]. apply within_Ret.
    destruct E1 as [E1 E1']. split; [congruence|]. right. split_and!; [congruence..|done].
  - done.
Qed.

(** ** Rounds *)

Definition went_on f (o : outcome (frame * bool)) : Prop :=
  match o with
  | Done r => iterations r.1 = iterations f + 1 /\ (replied \/ (_consecutive_llm_retries r.1 = _consecutive_llm_retries f + 1
                                                       /\ _consecutive_llm_retries r.1 <= loop_max_retries self))
  | Threw _ => True
  end.

Lemma start_kept f : within 0 (start_round self f) (fun o => match o with
  | Done f' => iterations f' = iterations f + 1 /\ _consecutive_llm_retries f' = _consecutive_llm_retries f
               /\ (forall n, max_iterations self = Some n -> iterations f + 1 <= n)
  | Threw _ => True
  end).
Proof.
  apply within_Do. intros b _. split; [done|]. destruct b; [by apply within_Throw|].
  eapply (within_bind0 _ _ _ (fun _ => True)); [apply within_Do; intros []; (split; [done|]); [by apply within_Ret|by apply within_Throw]|intros [] _|done].
  cbv zeta. cbn [with_iterations iterations]. destruct (max_iterations self) as [n|].
  - destruct (Z.ltb_spec n (iterations f + 1)); [by apply within_Throw|]. apply within_Ret. split_and!; [done..|]. intros n' [= <-]. lia.
  - apply within_Ret. split_and!; [done..|]. discriminate.
Qed.

Lemma round_within f : within 1 (round self f) (went_on f).
Proof.
  unfold round. eapply within_bind0; [apply start_kept| |done]. intros f1 (E1 & R1 & _).
  eapply (within_catch 1 0); [apply attempt_kept| |].
  - intros [f2 b] [Hr E2]. cbn in *. split; [congruence|by left].
  - intros [f2 e] [E2 Hk]. cbn [fst snd] in *. 
    assert (H : within 0 (bind (on_error self f2 e) (fun f => Ret (f, false))) (went_on f)).
    { eapply within_bind0; [apply on_error_recovered| |done]. intros f3 [E3 H3]. apply within_Ret. split; [cbn; congruence|]. cbn.
      destruct Hk as [|Hk]; [by left|]. destruct H3 as [|(_ & H3 & H4)]; [by left|]. right. split; [congruence|done]. }
    destruct e; [by apply within_Throw|exact H..].
Qed.
(** At the limit a round raises before it sends a request. *)
Lemma round_at_limit f n : max_iterations self = Some n -> n <= iterations f ->
  within 0 (round self f) (fun o => match o with Done _ => False | Threw _ => True end).
Proof.
  intros Hn Hf. unfold round. eapply within_bind0; [apply start_kept| |done]. intros f1 (_ & _ & H). specialize (H n Hn). lia.
Qed.

Lemma finish_within f (k : frame -> program (option frame)) R : (forall f, within 0 (k f) R) -> (forall x, R (Threw x)) ->
  within 0 (bind (finish self f) k) R.
Proof.
  intros Hk Hx. eapply (within_bind0 _ _ _ (fun _ => True)); [|intros; apply Hk|intros; apply Hx].
  apply within_Do. intros []; (split; [done|]); [by apply within_Throw|].
  eapply within_bind0; [apply log_kept|intros; by apply within_Ret|done].
Qed.
End Limits.

(** ** Theorems *)

Section Theorems.
Context {other request : Type}.
Abbreviation Message := (@Message other).
Abbreviation raised := (raised Message).
Abbreviation effect := (@effect other request).
Abbreviation answer := (@answer other request).
Abbreviation program := (prog (action := effect) answer (frame * raised)).
Abbreviation Ev := (Prog.Ev (answer := answer)).
Abbreviation outcome := (outcome (exn := frame * raised)).
Context {outside : @Environment other}.
Variable self : agent.

Definition any_event (e : event answer) : Prop := True.
Lemma Forall_any t : Forall any_event t.
Proof. apply list.Forall_true. intros. exact I. Qed.
Lemma rounds_terminate n fuel : max_iterations self = Some n -> forall f,
  within any_event (Z.to_nat (n - iterations f)) (rounds self fuel f)
    (fun o => (Z.to_nat (n - iterations f) < fuel)%nat -> o <> Done None).
Proof.
  intros Hn. assert (Hfin : forall f k fuel, within any_event k (bind (finish self f) (fun f => Ret (Some f)))
    (fun o => (k < fuel)%nat -> o <> Done None)).
  { intros f k m. eapply within_mono; [apply (finish_within _ _ _ _ (fun o => o <> Done None))|lia|done]; intros; by apply within_Ret || done. }
  induction fuel as [|fuel IH]; intros f; cbn [rounds]; (destruct (terminal (stop f)); [apply Hfin|]); [apply within_Ret; lia|].
  destruct (Z.leb_spec n (iterations f)) as [Hle|Hlt].
  - eapply within_mono with (k := 0%nat) (R := fun o => match o with Done _ => False | Threw _ => True end); [|lia|by intros []].
    eapply within_bind0; [by eapply round_at_limit|done|done].
  - replace (Z.to_nat (n - iterations f)) with (1 + Z.to_nat (n - (iterations f + 1)))%nat by lia.
    eapply within_bind; [apply round_within| |done]. intros [f1 b] [E1 _]. cbn in E1.
    assert (Hk : Z.to_nat (n - (iterations f + 1)) = Z.to_nat (n - iterations f1)) by (by rewrite E1). rewrite Hk.
    destruct b; [eapply within_mono; [apply (Hfin _ _ (S (Z.to_nat (n - iterations f1))))|done|]; intros o H _; apply H; lia|].
    eapply within_mono; [apply IH|done|]. intros o H Hf. apply H. lia.
Qed.

(** C29: A turn with a limit of iterations ends.  Whatever the model, the tools, the
    hooks and the host answer, it makes at most that many rounds and sends at most
    that many requests, and then ends or raises. *)
Theorem turn_terminates n fuel f t o :
  max_iterations self = Some n -> (Z.to_nat n < fuel)%nat -> runs (answer := answer) (_agent_loop_stream self fuel f) t o ->
  o <> Done None /\ (requests t <= Z.to_nat n)%nat.
Proof.
  intros Hn Hf Hr. destruct (rounds_terminate n fuel Hn _ _ _ Hr (Forall_any _)) as [Hk Ho]. cbn in *. rewrite Z.sub_0_r in *. auto.
Qed.

(** *** Outages *)

Definition no_reply (e : event answer) : Prop := is_reply e = false.
Lemma not_replied : ~ replied (other := other) (request := request) no_reply.
Proof. intros (m & r & H). discriminate. Qed.

Lemma rounds_outage fuel : forall f, _consecutive_llm_retries f <= loop_max_retries self ->
  within no_reply (Z.to_nat (loop_max_retries self - _consecutive_llm_retries f) + 1) (rounds (request := request) self fuel f)
    (fun o => (Z.to_nat (loop_max_retries self - _consecutive_llm_retries f) + 1 < fuel)%nat -> o <> Done None).
Proof.
  assert (Hfin : forall f k fuel, within no_reply k (bind (finish (request := request) self f) (fun f => Ret (Some f)))
    (fun o => (k < fuel)%nat -> o <> Done None)).
  { intros f k m. eapply within_mono; [apply (finish_within _ _ _ _ (fun o => o <> Done None))|lia|done]; intros; by apply within_Ret || done. }
  induction fuel as [|fuel IH]; intros f Hf; cbn [rounds]; (destruct (terminal (stop f)); [apply Hfin|]); [apply within_Ret; lia|].
  rewrite Nat.add_comm. eapply within_bind; [apply round_within| |done].
  intros [f1 b] [_ [H|[E1 H1]]]; [by apply not_replied in H|]. cbn in E1, H1.
  destruct b; [eapply within_mono; [apply (Hfin _ _ (S (Z.to_nat (loop_max_retries self - _consecutive_llm_retries f))))|done|]; intros o H _; apply H; lia|].
  eapply within_mono; [by apply IH|lia|]. intros o H Hk. apply H. lia.
Qed.

(** C30: An outage is bounded.  While no reply reaches the history, a turn sends at
    most one request more than it has retries left, whatever it is that fails and
    also without a limit of iterations, and then ends. *)
Theorem outage_bounded fuel f t o :
  0 <= _consecutive_llm_retries f <= loop_max_retries self -> (Z.to_nat (loop_max_retries self) + 1 < fuel)%nat ->
  runs (_agent_loop_stream self fuel f) t o -> Forall no_reply t ->
  (requests t <= Z.to_nat (loop_max_retries self - _consecutive_llm_retries f) + 1)%nat /\ o <> Done None.
Proof.
  intros Hf Hk Hr Ht. destruct (rounds_outage fuel (with_stop None (with_nudges 0 0 0 (with_iterations 0 f))) (proj2 Hf) _ _ Hr Ht) as [H1 H2]. cbn in *. split; [done|]. apply H2. lia.
Qed.

(** *** One retry *)

Definition jitter_ok (e : event answer) : Prop :=
  match e with Prog.Ev a r => match a return answer a -> Prop with Jitter b => fun r => 0 <= r <= b | _ => fun _ => True end r end.
Definition clock (e : event answer) : option Z :=
  match e with Prog.Ev a r => match a return answer a -> option Z with Now => fun r => Some r | _ => fun _ => None end r end.
Definition slept (e : event answer) : option Z := match e with Prog.Ev (Sleep d) _ => Some d | _ => None end.
Definition mapped (e : raised) : llm_error Message := LlmErrors.map_to_llm_error lower alnum repr (tinker self) e (Some (provider self)).
(** The longest wait before retry [n]. *)
Definition longest (e : raised) (n : Z) : Z := match _parse_retry_after e with Some r => Z.min r (60 * second) | None => backoff n end.

(** What is known when the handler returns [f']. *)
Definition waited f e f' (t : list (event answer)) : Prop :=
  (is_stall (mapped e) && LlmErrors.zero_output (mapped e) = true -> _zero_output_stalls f' <= 1)
  /\ exists now1 now2 now3 now4 delay started, omap clock t = [now1; now2; now3; now4] /\ omap slept t = [delay]
     /\ started = default now1 (_llm_retry_budget_started f) /\ _llm_retry_budget_started f' = Some started
     /\ 0 <= delay <= longest e (_consecutive_llm_retries f') /\ delay <= 60 * second
     /\ delay <= Z.max 0 (_llm_retry_budget_seconds self - (now3 - started))
     /\ now4 - started < _llm_retry_budget_seconds self.
Definition returning (C : list (event answer) -> frame -> Prop) (t : list (event answer)) (o : outcome frame) : Prop :=
  match o with Done f' => Forall jitter_ok t -> C t f' | Threw _ => True end.

Lemma wp_log C f l text k t : (forall r, wp (k tt) (t ++ [Ev (LogMessage l text) r]) (returning C)) -> wp (bind (log f l text) k) t (returning C).
Proof. intros H. apply wp_bind. intros [[]|e]; [apply H|exact I]. Qed.
Lemma wp_status C f l text i k t : (forall r, wp (k tt) (t ++ [Ev (Status l text i) r]) (returning C)) -> wp (bind (status f l text i) k) t (returning C).
Proof. intros H. apply wp_bind. intros [[]|e]; [apply H|exact I]. Qed.
Lemma wp_throw C (x : frame * raised) t : wp (Throw x) t (returning C).
Proof. exact I. Qed.

Lemma parse_nonneg (e : raised) r : _parse_retry_after e = Some r -> 0 <= r.
Proof.
  unfold _parse_retry_after. destruct e; try discriminate. cbv zeta. destruct (match LlmErrors.retry_header _ with VNone => _ | v => _ end);
    try discriminate; (destruct (seconds_of _); [intros [= <-]; lia|]); (destruct (date_after _); [intros [= <-]; lia|discriminate]).
Qed.
Lemma backoff_minute n : 0 < second -> 1 <= n -> 0 <= backoff n <= 60 * second.
Proof. intros Hs Hn. unfold backoff. pose proof (Z.pow_nonneg 2 (n - 1)). nia. Qed.

Definition promised f e (t : list (event answer)) f' : Prop := retryable (LlmErrors.cls (mapped e)) = true /\ waited f e f' t.
Lemma sleep_waited f f1 e n u wait started c t now1 :
  omap clock t = [now1] -> omap slept t = [] -> retryable (LlmErrors.cls (mapped e)) = true ->
  started = default now1 (_llm_retry_budget_started f) -> _llm_retry_budget_started f1 = Some started ->
  (is_stall (mapped e) && LlmErrors.zero_output (mapped e) = true -> _zero_output_stalls f1 <= 1) ->
  (Forall jitter_ok t -> 0 <= wait <= longest e (_consecutive_llm_retries f1) /\ wait <= 60 * second) ->
  wp (sleep_before_retry self f1 (mapped e) n u wait started c) t
     (returning (promised f e)).
Proof.
  intros Hc Hd Hr Hs Hf Hz Hw. unfold sleep_before_retry. cbv zeta. intros now2. apply wp_log. intros r2. apply wp_status. intros r3 now3.
  apply wp_bind. intros [[]|x]; [|exact I]. intros now4. unfold _remaining_llm_retry_budget.
  destruct (Z.leb_spec (_llm_retry_budget_seconds self - (now4 - started)) 0); [intros now5; apply wp_status; intros; apply wp_throw|].
  apply wp_log. intros r5 Hj. split; [done|]. split; [done|].
  rewrite !Forall_app in Hj. specialize (Hw ltac:(naive_solver)). eexists now1, now2, now3, now4, _, started.
  rewrite !omap_app, Hc, Hd. cbn. split_and!; try done; lia.
Qed.
Lemma handle_waited f e c : 0 < second -> 0 <= _consecutive_llm_retries f ->
  wp (handle_llm_error self f e c) [] (returning (promised f e)).
Proof.
  intros Hs Hn. unfold handle_llm_error. fold (mapped e). cbv zeta. set (cont := fun _ : unit => _).
  assert (Hcont : forall t, omap clock t = [] -> omap slept t = [] -> wp (cont tt) t (returning (promised f e))).
  2: { apply wp_bind, wp_catch. intros [[]|[]]; try exact I; by apply Hcont. }
  intros t Hc Hd. subst cont. cbv beta. destruct (retryable _) eqn:Er; [|apply wp_status; intros; apply wp_throw]. intros now1.
  destruct (Z.ltb_spec (loop_max_retries self) (_consecutive_llm_retries f + 1)); [apply wp_status; intros; apply wp_throw|].
  rewrite orb_false_l. set (started := default now1 _). destruct (Z.leb_spec (_llm_retry_budget_seconds self) (now1 - started));
    [apply wp_status; intros; apply wp_throw|]. rewrite orb_false_l.
  destruct (is_stall (mapped e) && LlmErrors.zero_output (mapped e) && _) eqn:Es; [apply wp_status; intros; apply wp_throw|].
  set (f1 := with_retries _ _ _ f).
  assert (Hz : is_stall (mapped e) && LlmErrors.zero_output (mapped e) = true -> _zero_output_stalls f1 <= 1).
  { intros E. rewrite E in Es. cbn in *. rewrite E. apply Z.ltb_ge in Es. lia. }
  pose proof (backoff_minute (_consecutive_llm_retries f + 1) Hs) as Hb.
  destruct (_parse_retry_after e) as [ra|] eqn:Ea.
  - apply (sleep_waited _ _ _ _ _ _ _ _ _ now1); try done.
    + by rewrite omap_app, Hc.
    + by rewrite omap_app, Hd.
    + intros _. unfold longest. rewrite Ea. apply parse_nonneg in Ea. lia.
  - intros wait. apply (sleep_waited _ _ _ _ _ _ _ _ _ now1); try done.
    + by rewrite !omap_app, Hc.
    + by rewrite !omap_app, Hd.
    + intros Hj. rewrite !Forall_app in Hj. destruct Hj as [_ Hj]. apply list.Forall_cons in Hj as [Hj _]. cbn in Hj. unfold longest. rewrite Ea. cbn.
      lia.
Qed.

(** C31: A retry waits within its bounds.  An error is retried only when it is a
    limit of the rate, a failure of the server or of the connection, for as many
    consecutive times as permitted, and a stream that stayed silent once; the turn
    sleeps once, not longer than the provider asked or the exponential backoff
    allows, never more than a minute, and never beyond the budget of time; and when
    it goes on, less than the budget has passed since the first failure. *)
Theorem retry_waits f e c t f' :
  0 < second -> 0 <= _consecutive_llm_retries f -> runs (handle_llm_error self f e c) t (Done f') -> Forall jitter_ok t ->
  retryable (LlmErrors.cls (mapped e)) = true /\ retried self f f' /\ waited f e f' t.
Proof.
  intros Hs Hn Hr Hj. destruct (handle_retried any_event self f e c _ _ Hr (Forall_any _)) as [_ H].
  destruct (proj1 (wp_runs _ _ _) (handle_waited f e c Hs Hn) _ _ Hr Hj) as [H1 H2]. done.
Qed.
End Theorems.

(** ** Concrete turns *)

#[local] Existing Instance Sample.outside.

(** A model that always asks for a tool. *)
Lemma turn_terminates_witness :
  let r := exec (Sample.host Sample.plain Sample.calls_read) (_agent_loop_stream Sample.self 5 Sample.start) [] in
  requests r.1.1 = 4%nat
  /\ max_iterations Sample.self = Some 4 /\ (Z.to_nat 4 < 5)%nat
  /\ (r.1.2 <> Done None /\ (requests r.1.1 <= Z.to_nat 4)%nat).
Proof.
  intros r. split; [vm_compute; reflexivity|]. split; [reflexivity|]. split; [lia|].
  exact (turn_terminates (outside := Sample.outside) Sample.self 4 5 Sample.start _ _ eq_refl (le_n 5) (exec_runs _ _ _)).
Defined.

(** A provider that never answers. *)
Lemma outage_bounded_witness :
  let r := exec (Sample.host Sample.plain Sample.timeout) (_agent_loop_stream Sample.self 5 Sample.start) [] in
  requests r.1.1 = 4%nat /\ Forall no_reply r.1.1
  /\ ((requests r.1.1 <= Z.to_nat (loop_max_retries Sample.self - _consecutive_llm_retries Sample.start) + 1)%nat /\ r.1.2 <> Done None).
Proof.
  intros r. split; [vm_compute; reflexivity|]. assert (Ht : Forall no_reply r.1.1) by (vm_compute; repeat constructor). split; [exact Ht|].
  exact (outage_bounded (outside := Sample.outside) Sample.self 5 Sample.start r.1.1 r.1.2 ltac:(cbn; lia) ltac:(cbn; lia) (exec_runs _ _ _) Ht).
Defined.

Lemma retry_waits_witness :
  let e : raised (@Message Empty_set) := Llm (LlmErrors.made LlmErrors.LLMRateLimitError (lit "slow down") None) in
  let r := exec (Sample.host Sample.plain Sample.finished) (handle_llm_error Sample.self Sample.start e false) [] in
  exists f', r.1.2 = Done f' /\ 0 < second /\ Forall jitter_ok r.1.1
    /\ (retryable (LlmErrors.cls (mapped Sample.self e)) = true /\ retried Sample.self Sample.start f' /\ waited Sample.self Sample.start e f' r.1.1).
Proof.
  intros e r. assert (Hr : exists f', r.1.2 = Done f') by (eexists; vm_compute; reflexivity). destruct Hr as [f' Hr].
  exists f'. split; [exact Hr|]. split; [reflexivity|].
  assert (Hj : Forall jitter_ok r.1.1) by (vm_compute; repeat constructor; discriminate). split; [exact Hj|].
  assert (Hruns : runs (handle_llm_error Sample.self Sample.start e false) r.1.1 (Done f')) by (rewrite <- Hr; exact (exec_runs _ _ _)).
  exact (retry_waits (outside := Sample.outside) Sample.self Sample.start e false _ f' ltac:(reflexivity) ltac:(discriminate) Hruns Hj).
Defined.

(** ** Turns that do not end, and turns that end wrongly *)

Module Endless.
Definition self : agent := {|
  agent_name := lit "coder"; sub_agent := false; max_iterations := None; model := lit "m"; provider := lit "anthropic"; tinker := false;
  loop_max_retries := 3; _llm_retry_budget_seconds := 360000; model_max_input_tokens := 1000; model_context_length := 2000;
  strict_context_budget := false; edit_protocol := lit "hashline"; freeform_tools := []; recorder := true; acknowledge_assistant := true;
  acknowledge_tool_results := true; has_queue := true; completion_log_message := lit "Processing complete" |}.
(** An answer that was refused, one without visible text, and one that was cut off. *)
Definition refused : Sample.reply := ([], Ok (Sample.says "refusal" "I cannot help." [])).
Definition silent : Sample.reply := ([], Ok (Sample.says "end_turn" " " [])).
Definition truncated : Sample.reply := ([], Ok (Sample.says "max_tokens" "To begin with," [])).
End Endless.

Lemma exec_bind {A B W} {action : Type} {answer : action -> Type} {exn : Type} (env : forall a : action, W -> answer a * W)
    (m : prog answer exn A) (f : A -> prog answer exn B) w :
  exec env (bind m f) w = match exec env m w with
                          | (t, Done a, w') => let '(t', o, w'') := exec env (f a) w' in (t ++ t', o, w'')
                          | (t, Threw e, w') => (t, Threw e, w')
                          end.
Proof.
  revert w; induction m as [a|e|a k IH]; intros w; cbn; [by destruct (exec env (f a) w) as [[]]|done|].
  destruct (env a w) as [r w']. rewrite IH. destruct (exec env (k r) w') as [[t [x|e]] w'']; [|done]. by destruct (exec env (f x) w'') as [[]].
Qed.

(** One round after another, when each leaves a frame that goes on. *)
Lemma rounds_step last script script' f f' t fuel :
  terminal (stop f) = false ->
  exec (Sample.host Sample.plain last) (round Endless.self f) script = (t, Done (f', false), script') ->
  exec (Sample.host Sample.plain last) (rounds Endless.self (S fuel) f) script
  = let '(t', o, w) := exec (Sample.host Sample.plain last) (rounds Endless.self fuel f') script' in (t ++ t', o, w).
Proof. intros Hf H. cbn [rounds]. rewrite Hf, exec_bind, H. done. Qed.

(** A reply with a reason to stop that the loop does not know, as [refusal], and
    without tool calls is repeated for ever. *)
Lemma unknown_stop_repeats fuel :
  let r := exec (Sample.host Sample.plain Endless.refused) (_agent_loop_stream Endless.self fuel Sample.start) [] in
  r.1.2 = Done None /\ requests r.1.1 = fuel.
Proof.
  assert (Hround : forall f, exists t f', exec (Sample.host Sample.plain Endless.refused) (round Endless.self f) [] = (t, Done (f', false), [])
    /\ requests t = 1%nat /\ terminal (stop f') = false).
  { intros []. eexists _, _. split; [vm_compute; reflexivity|]. split; vm_compute; reflexivity. }
  unfold _agent_loop_stream. set (f := with_stop _ _). assert (Hf : terminal (stop f) = false) by done. clearbody f. revert f Hf.
  induction fuel as [|fuel IH]; intros f Hf.
  - cbn [rounds]. rewrite Hf. done.
  - destruct (Hround f) as (t & f' & E & Hq & Hf'). rewrite (rounds_step _ _ _ _ _ _ _ Hf E). specialize (IH f' Hf').
    destruct (exec _ (rounds Endless.self fuel f') []) as [[t' o] w]. destruct IH as [IH1 IH2]. cbn [fst snd] in *. rewrite requests_app. split; [done|lia].
Qed.

(** Silent and truncated replies in turn reset each other's count, so that the
    model is asked to go on for ever. *)
Lemma nudges_alternate n :
  let script := concat (replicate n [Endless.silent; Endless.truncated]) in
  let r := exec (Sample.host Sample.plain Sample.finished) (_agent_loop_stream Endless.self (n + n) Sample.start) script in
  r.1.2 = Done None /\ requests r.1.1 = (n + n)%nat.
Proof.
  assert (Hpair : forall f script, silent_turn_nudges f = 0 -> exists t1 f1 t2 f2,
    exec (Sample.host Sample.plain Sample.finished) (round Endless.self f) (Endless.silent :: Endless.truncated :: script) = (t1, Done (f1, false), Endless.truncated :: script)
    /\ exec (Sample.host Sample.plain Sample.finished) (round Endless.self f1) (Endless.truncated :: script) = (t2, Done (f2, false), script)
    /\ requests t1 = 1%nat /\ requests t2 = 1%nat /\ stop f1 = None /\ stop f2 = None /\ silent_turn_nudges f2 = 0).
  { intros f script Hf. destruct f. cbn in Hf. subst. eexists _, _, _, _. split; [vm_compute; reflexivity|]. split; [vm_compute; reflexivity|].
    split_and!; vm_compute; reflexivity. }
  unfold _agent_loop_stream. set (f := with_stop _ _). assert (Hf : stop f = None /\ silent_turn_nudges f = 0) by done. clearbody f. revert f Hf.
  induction n as [|n IH]; intros f [Hs Hn].
  - cbn [rounds Nat.add]. rewrite Hs. done.
  - replace (S n + S n)%nat with (S (S (n + n))) by lia. cbn [replicate concat].
    destruct (Hpair f (concat (replicate n [Endless.silent; Endless.truncated])) Hn) as (t1 & f1 & t2 & f2 & E1 & E2 & Q1 & Q2 & S1 & S2 & N2).
    cbv zeta. cbn [app]. rewrite (rounds_step _ _ _ _ _ _ (S (n + n)) ltac:(by rewrite Hs) E1), (rounds_step _ _ _ _ _ _ (n + n) ltac:(by rewrite S1) E2).
    specialize (IH f2 (conj S2 N2)). cbv zeta in IH. destruct (exec _ (rounds Endless.self (n + n) f2) _) as [[t' o] w]. destruct IH as [IH1 IH2].
    cbn [fst snd] in *. rewrite !requests_app. split; [done|lia].
Qed.

(** A hook asks to end the turn while a tool ends the loop: the request stays, and
    the next turn ends after its first batch, although no hook asked for that. *)
Lemma end_turn_leaks :
  let both : Sample.variant := {| Sample.stops := true; Sample.ends := true; Sample.request_ends := Ok tt |} in
  let first := exec (Sample.host both Sample.finished) (_agent_loop_stream Endless.self 5 Sample.start) [Sample.calls_read] in
  exists f, first.1.2 = Done (Some f) /\ _hook_end_turn f = true
    /\ let second := exec (Sample.host Sample.plain Sample.finished) (_agent_loop_stream Endless.self 5 f) [Sample.calls_read; Sample.finished] in
       requests second.1.1 = 1%nat /\ second.2 = [Sample.finished].
Proof.
  cbv zeta. eexists. split; [vm_compute; reflexivity|]. split; [reflexivity|]. split; vm_compute; reflexivity.
Qed.

(** When the event at the end of a request cannot be sent, the error is handled as
    one of the provider; but the reason to stop is set already, so that the turn
    ends as if completed, and its reply is not in the history. *)
Lemma reply_lost :
  let lost : Sample.variant := {| Sample.stops := false; Sample.ends := false;
    Sample.request_ends := Raise (Foreign (LlmErrors.mkForeign LlmErrors.RuntimeError (lit "RuntimeError") (lit "closed") VNone None VNone VNone VNone None VNone VNone)) |} in
  let r := exec (Sample.host lost Sample.finished) (_agent_loop_stream Endless.self 5 Sample.start) [] in
  (exists f, r.1.2 = Done (Some f)) /\ requests r.1.1 = 1%nat /\ Forall no_reply r.1.1.
Proof. cbv zeta. split; [eexists; vm_compute; reflexivity|]. split; [vm_compute; reflexivity|]. vm_compute. repeat constructor. Qed.
