(* ===== verification/LlmErrorsFacts.v ===== *)
(** * Which failures of a provider are retried

    What the mapping of LlmErrors.v and the loop's decision to retry (AgentLoop.v)
    amount to, error by error. *)

From stdpp Require Import base list strings numbers.
From Stdlib Require Import ZArith Lia.
From S2P Require Import Prelude PyStr PyVal Permissions Conversation LlmErrors.
From S2P Require AgentLoop.
Import AgentLoop(retryable).

Lemma eq_int_ne v n m : eq_int v n = true -> n <> m -> eq_int v m = false.
Proof.
  destruct v; cbn; try done; rewrite ?Z.eqb_eq, ?Z.eqb_neq; [lia..|]. match goal with |- context [0 <=? ?x] => destruct (0 <=? x) eqn:E end.
  - rewrite Z.eqb_eq, Z.eqb_neq. lia.
  - rewrite Z.eqb_eq, Z.eqb_neq. apply Z.leb_gt in E. intros -> Hn H. apply Hn. eapply Z.mul_cancel_r; [|exact H].
    apply Z.pow_nonzero; lia.
Qed.
(** All tests of a status against numbers. *)
Ltac statuses :=
  repeat (match goal with |- context [eq_int ?v ?n] => let E := fresh in destruct (eq_int v n) eqn:E end;
          try match goal with H : eq_int ?v ?n = true |- _ =>
            repeat match goal with |- context [eq_int v ?m] => rewrite (eq_int_ne v n m H) by lia end end);
  try done.

Section Retried.
Context {message : Type}.
Variable lower title : str -> str.
Variable alnum : Z -> bool.
Variable repr : value -> str.

(** A provider without rules of its own. *)
Definition plain (p : option str) : Prop :=
  p <> Some (lit "refuseless") /\ p <> Some (lit "perplexity_agent") /\ p <> Some (lit "cloudflare_workers_ai").

Definition one_of (v : value) (l : list Z) : bool := existsb (eq_int v) l.
Definition is_5xx (v : value) : bool := match as_int v with Some n => (500 <=? n) && (n <=? 599) | None => false end.
Definition transport_failure (k : sdk_kind) : bool := match k with APITimeoutError | APIConnectionError => true | _ => false end.
Definition billed (e : foreign) : bool :=
  _is_billing_status e || _is_billing_message lower (_anthropic_body_error_message repr e) || _is_billing_message lower (shown e).

(** The failures that pass, by the error alone. *)
Definition transient (e : foreign) : bool :=
  match kind e with
  | OpenAIError k =>
      negb (one_of (status_code e) [400; 401; 403; 404; 422])
      && (one_of (status_code e) [408; 409; 429] || is_5xx (status_code e) || transport_failure k)
  | GoogleAPIError => match status e with Some s => one_of s [429; 500] | None => false end
  | AnthropicError k =>
      negb (billed e)
      && match (match k with APIStatusError => anthropic_body lower e | _ => None end) with
         | Some c => bool_decide (c = LLMInternalServerError)
         | None => match k with
                   | InternalServerError => true
                   | k => negb (one_of (status_code e) [400; 401; 403; 404; 413])
                          && (one_of (status_code e) [429; 500; 529] || transport_failure k)
                   end
         end
  | HttpxTimeout | TimeoutError | ConnectionError | AiohttpClientError | HttpxTransportError | RuntimeError => true
  | _ => false
  end.

Lemma or_provider_plain p d : plain p -> plain (Some (lit d)) -> plain (or_provider p d).
Proof. intros Hp Hd. by destruct p as [[|c s]|]. Qed.
Lemma plain_not (p : option str) name : p <> Some name -> bool_decide (p = Some name) = false.
Proof. apply bool_decide_eq_false_2. Qed.

Lemma openai_transient e k p : plain p -> kind e = OpenAIError k ->
  retryable (cls (map_openai_errors (message := message) lower alnum e p)) = transient e.
Proof.
  intros Hp Hk. unfold map_openai_errors, transient. rewrite Hk.
  assert (plain (or_provider p "openai")) as (H1 & H2 & H3) by (apply or_provider_plain; [done|split_and!; vm_compute; intros [=]]).
  unfold is_perplexity_quota_error. rewrite !plain_not by done. cbn [andb orb negb cls].
  unfold openai_status, one_of, is_5xx, existsb.
  statuses; try (by destruct (code e) as [| | | | | |]; try done; destruct (str_eqb _ _)).
  all: destruct (as_int (status_code e)) as [n|]; [destruct ((500 <=? n) && (n <=? 599))|]; try done; by destruct k.
Qed.
Lemma google_transient e p : kind e = GoogleAPIError -> retryable (cls (map_google_errors (message := message) e p)) = transient e.
Proof.
  intros Hk. unfold map_google_errors, transient. rewrite Hk. destruct (status e) as [v|]; [|done]. unfold one_of, existsb. statuses.
Qed.
Lemma anthropic_transient e k p : kind e = AnthropicError k ->
  retryable (cls (map_anthropic_errors (message := message) lower repr e p)) = transient e.
Proof.
  intros Hk. unfold map_anthropic_errors, transient, billed. rewrite Hk. cbv zeta. destruct (_ || _ || _); [done|]. cbn [negb andb].
  destruct (match k with APIStatusError => anthropic_body lower e | _ => None end) as [c|] eqn:Eb.
  - destruct k; try done. unfold anthropic_body in Eb.
    repeat (match type of Eb with context [match ?x with _ => _ end] => destruct x eqn:? end; try discriminate); by injection Eb as <-.
  - destruct k; try done; unfold anthropic_status, one_of, existsb; statuses; destruct (any_in _ _); done.
Qed.

(** What makes the loop repeat its request after an error of a library, for a
    provider without rules of its own and not through the tinker library: with an
    OpenAI library the statuses 408, 409, 429 and 500 to 599 (also when a 429 says
    that a quota is used up), and a transport failure without a status that forbids
    it; with Anthropic, when nothing speaks of billing, an error that its body calls
    an overload or an internal one, the statuses 429, 500 and 529, the class for
    internal errors, and transport failures; with Google, a status that is the
    number 429 or 500; of Python's own, the timeouts, the failures of connections,
    and [RuntimeError]. *)
Theorem transient_failures e p :
  plain p -> retryable (cls (map_to_llm_error (message := message) lower alnum repr false (Foreign e) p)) = transient e.
Proof.
  intros Hp. cbn [map_to_llm_error]. destruct (kind e) as [k| |k| | | | | | | | | |] eqn:Hk.
  1: by eapply openai_transient. 1: by apply google_transient. 1: by eapply anthropic_transient.
  all: unfold map_python_errors, transient; by rewrite Hk.
Qed.

End Retried.

(** A failure of an OpenAI library with a status. *)
Definition failure (k : error_kind) (code_ : value) (status_ : option value) : foreign :=
  mkForeign k (lit "APIStatusError") (lit "Error code: 503") code_ status_ VNone VNone VNone None VNone VNone.
Definition plain_lower (s : str) : str := s.
Definition mapped_class (e : foreign) : llm_class :=
  cls (map_to_llm_error (message := unit) plain_lower (fun _ => true) (fun _ => []) false (Foreign e) (Some (lit "groq"))).

Lemma transient_failures_witness :
  let e := failure (OpenAIError APIStatusError) (VInt 503) None in
  retryable (cls (map_to_llm_error (message := unit) plain_lower (fun _ => true) (fun _ => []) false (Foreign e) (Some (lit "groq"))))
  = transient plain_lower (fun _ => []) e /\ transient plain_lower (fun _ => []) e = true
  /\ transient plain_lower (fun _ => []) (failure (OpenAIError APIConnectionError) (VInt 401) None) = false
  /\ transient plain_lower (fun _ => []) (failure (AnthropicError APIStatusError) (VInt 402) None) = false.
Proof.
  split; [|vm_compute; auto].
  apply (transient_failures (message := unit) plain_lower (fun _ => true) (fun _ => []) (failure (OpenAIError APIStatusError) (VInt 503) None) (Some (lit "groq"))).
  split_and!; vm_compute; intros [=].
Defined.

(** The table of the module says that other statuses of OpenAI make an [LLMError]. *)
Lemma other_statuses n : n = 408 \/ n = 409 \/ 501 <= n <= 599 ->
  error_table OpenAI n = None /\ retryable (mapped_class (failure (OpenAIError APIStatusError) (VInt n) None)) = true.
Proof.
  intros Hn. split.
  - unfold error_table. cbn [List.find fst]. by repeat match goal with |- context [?a =? n] => destruct (Z.eqb_spec a n); [lia|] end.
  - unfold mapped_class. cbn [map_to_llm_error failure kind].
    rewrite (openai_transient plain_lower (fun _ => true) (fun _ => []) _ APIStatusError); [|split_and!; vm_compute; intros [=]|done].
    unfold transient, one_of, existsb, is_5xx. cbn [failure kind status_code eq_int as_int].
    repeat match goal with |- context [n =? ?a] => destruct (Z.eqb_spec n a); try lia end; try done; cbn;
      rewrite ?orb_false_r, ?orb_true_r; try done; apply andb_true_iff; split; apply Z.leb_le; lia.
Qed.
(** A status that is a text, as Google's library has it, is none of the table's. *)
Lemma google_text_status s :
  mapped_class (failure GoogleAPIError VNone (Some (VStr s))) = LLMError
  /\ error_table Google 429 = Some LLMRateLimitError /\ retryable LLMError = false.
Proof. done. Qed.
