(* ===== verification/VolatileContext.v ===== *)
(** * Context that changes during a session

    Models [kolega_code/agent/volatile_context.py]: memory, guidance and other
    sections are told to the model when they change, each in an envelope of its own
    from which its text cannot break out.

    [_last_sent] is the dict of the tracker, by key. *)

From stdpp Require Import base list strings numbers.
From Stdlib Require Import ZArith Lia.
From S2P Require Import Prelude PyStr PyVal Json JsonFacts.
From S2P Require LlmErrors.

(** ** Reminder tags *)

(** The pattern matches its letters without case, and two letters more. *)
Definition fold_case (c : Z) : Z := LlmErrors.fold_case c.
Definition TAG : str := lit "system-reminder".
Definition LT : Z := 60.
Definition SLASH : Z := 47.
(** A match of [<(/?)system-reminder] at the beginning: the group, and the rest. *)
Definition tag_name (s : str) : bool := startswith TAG (map fold_case s).
Definition tag_at (s : str) : option str :=
  match s with
  | c :: s' =>
      if negb (c =? LT) then None
      else match s' with
           | d :: s'' => if (d =? SLASH) && tag_name s'' then Some [SLASH] else if tag_name s' then Some [] else None
           | [] => None
           end
  | [] => None
  end.
(** [re.sub]; the text of a match is skipped. *)
Fixpoint scrub_go (skip : nat) (s : str) : str :=
  match s with
  | [] => []
  | c :: s' =>
      match skip with
      | S n => scrub_go n s'
      | O => match tag_at s with
             | Some group => lit "&lt;" ++ group ++ TAG ++ scrub_go (length group + length TAG) s'
             | None => c :: scrub_go O s'
             end
      end
  end.
Definition scrub_reminder_markup (s : str) : str := scrub_go O s.

(** ** Sections *)

Record VolatileSection := mkSection { key : str; text : str; path : str }.
Definition fingerprint (s : VolatileSection) : str := path s ++ [0] ++ text s.

Definition QUOTE : Z := 34.
Definition attribute (name value : str) : str := [32] ++ name ++ [61; QUOTE] ++ value ++ [QUOTE].
Definition _render (s : VolatileSection) (body : str) : str :=
  lit "<system-reminder" ++ attribute (lit "source") (key s) ++ (if nonempty (path s) then attribute (lit "path") (path s) else []) ++ [62; NL]
  ++ scrub_reminder_markup body ++ [NL] ++ lit "</system-reminder>".
Definition _REMOVAL_LABELS : list (str * str) :=
  [(lit "memory", lit "Private project memory"); (lit "guidance", lit "Repository guidance"); (lit "plan", lit "The current plan");
   (lit "task_list", lit "The shared task list")].
Definition _removal_notice (s : VolatileSection) : str :=
  (match path s with [] => default (key s) (dict_get _REMOVAL_LABELS (key s)) | p => p end)
  ++ lit " is no longer present. Disregard its earlier contents.".

Definition tracker := list (str * VolatileSection).
(** One section of [pending_block]. *)
Definition report (t : tracker) (s : VolatileSection) : tracker * option str :=
  let previous := dict_get t (key s) in
  if match previous with Some p => str_eqb (fingerprint p) (fingerprint s) | None => false end then (t, None)
  else (dict_set t (key s) s,
        if nonempty (text s) then Some (_render s (text s))
        else match previous with
             | Some p => if nonempty (text p) then Some (_render s (_removal_notice p)) else None
             | None => None
             end).
Fixpoint reports (t : tracker) (sections : list VolatileSection) : tracker * list str :=
  match sections with
  | [] => (t, [])
  | s :: l => let '(t, r) := report t s in let '(t, rs) := reports t l in (t, match r with Some b => b :: rs | None => rs end)
  end.
(** The text of the block, or [None]. *)
Definition pending_block (t : tracker) (sections : list VolatileSection) : tracker * option str :=
  let '(t, rendered) := reports t sections in (t, if nonempty rendered then Some (join [NL] rendered) else None).
Definition forget (t : tracker) : tracker := [].

(** The sections of an agent.  [memory] is the text of the project memory, [None]
    without a manager or when it fails; a provider of the host raises ([None]),
    returns [None] ([Some None]) or a section. *)
Definition _volatile_context_sections (guidance_file guidance : str) (memory : option str) (provider model today : str) (supports_vision : bool)
    (extra : list (option (option VolatileSection))) : list VolatileSection :=
  [mkSection (lit "memory") (default [] memory) []; mkSection (lit "guidance") guidance guidance_file;
   mkSection (lit "date") (lit "Today's date: " ++ today) [];
   mkSection (lit "model")
     (join [NL] [lit "Active model: " ++ provider ++ lit "/" ++ model; lit "Model supports vision: " ++ lit (if supports_vision then "true" else "false");
                 lit "This supersedes the session-start Model line if they differ."]) []]
  ++ flat_map (fun r => match r with Some (Some s) => [s] | _ => [] end) extra.

(** ** What cannot be forged *)

(** How many tags a text holds. *)
Fixpoint tags (s : str) : nat :=
  match s with [] => O | c :: s' => ((match tag_at s with Some _ => 1 | None => 0 end) + tags s')%nat end.

(** No tag begins, continues or ends with this character. *)
Definition foreign (c : Z) : bool := negb (existsb (Z.eqb (fold_case c)) (SLASH :: TAG)).

Lemma tag_at_lt c s : c <> LT -> tag_at (c :: s) = None.
Proof. intros H. cbn. by rewrite (proj2 (Z.eqb_neq c LT) H). Qed.

(** A name is found in what is left of a scrubbed text only if it was there. *)
Definition plain (s : str) : Prop := forall c, c ∈ s -> c <> 38 /\ c <> LT /\ fold_case c = c.
Lemma scrub_prefix p : forall n s, plain p -> startswith p (map fold_case (scrub_go n s)) = true -> startswith p (map fold_case (drop n s)) = true.
Proof.
  induction p as [|a p IH]; intros n s Hp H; [done|].
  assert (Hp' : plain p) by (intros c Hc; apply Hp; by right). destruct (Hp a ltac:(left)) as (Ha & Hl & _).
  revert n H. induction s as [|c s IHs]; intros n H; [by destruct n|]. destruct n as [|n]; [|cbn [scrub_go drop] in *; by apply IHs].
  cbn [scrub_go drop] in *. destruct (tag_at (c :: s)) as [g|].
  - cbn in H. rewrite andb_true_iff, Z.eqb_eq in H. by destruct H as [-> _].
  - cbn [map startswith] in *. rewrite andb_true_iff in *. destruct H as [-> H]. split; [done|]. by apply (IH O s).
Qed.

Lemma tag_name_lit : plain TAG.
Proof. intros c Hc. unfold TAG in Hc. cbn in Hc. rewrite !elem_of_cons, elem_of_nil in Hc. decompose [or] Hc; subst; done. Qed.
Lemma tags_app_plain a b : (forall c, c ∈ a -> c <> LT) -> tags (a ++ b) = tags b.
Proof.
  induction a as [|c a IH]; intros H; [done|]. cbn [app tags]. rewrite tag_at_lt by (apply H; left). apply IH. intros d Hd. apply H. by right.
Qed.
Lemma scrub_no_tags s : forall n, tags (scrub_go n s) = O.
Proof.
  induction s as [|c s IH]; intros n; [by destruct n|]. destruct n as [|n]; [|apply IH]. cbn [scrub_go].
  destruct (tag_at (c :: s)) as [g|] eqn:E.
  - assert (Hg : g = [] \/ g = [SLASH]).
    { unfold tag_at in E. destruct (negb _); [done|]. destruct s as [|d s']; [done|]. destruct ((d =? SLASH) && tag_name s'); [injection E as <-; auto|].
      destruct (tag_name (d :: s')); [injection E as <-; auto|done]. }
    rewrite !tags_app_plain; [apply IH|..].
    + intros d Hd. by apply tag_name_lit.
    + intros d Hd. destruct Hg as [-> | ->]; [by apply elem_of_nil in Hd|]. by apply list_elem_of_singleton in Hd as ->.
    + intros d Hd. cbn in Hd. rewrite !elem_of_cons, elem_of_nil in Hd. decompose [or] Hd; subst; done.
  - cbn [tags]. rewrite IH. assert (tag_at (c :: scrub_go 0 s) = None) as ->; [|done].
    destruct (Z.eq_dec c LT) as [->|Hc]; [|by apply tag_at_lt]. revert E. unfold tag_at, tag_name. cbn [negb Z.eqb].
    rewrite Z.eqb_refl. cbn [negb]. destruct s as [|d s]; [done|].
    pose proof (scrub_prefix TAG O (d :: s) tag_name_lit) as Hwhole. pose proof (scrub_prefix TAG O s tag_name_lit) as Htail. rewrite drop_0 in Hwhole, Htail.
    intros E. destruct (scrub_go 0 (d :: s)) as [|d' r] eqn:Es; [done|].
    destruct ((d' =? SLASH) && startswith TAG (map fold_case r)) eqn:E1.
    + rewrite andb_true_iff, Z.eqb_eq in E1. destruct E1 as [-> E1]. cbn [scrub_go] in Es. destruct (tag_at (d :: s)); [discriminate Es|].
      injection Es as -> <-. rewrite Htail in E by done. done.
    + destruct (startswith TAG (map fold_case (d' :: r))) eqn:E2; [|done]. rewrite Hwhole in E by done. by destruct (_ && _).
Qed.

Lemma foreign_no_letter c a : foreign c = true -> a ∈ SLASH :: TAG -> (a =? fold_case c) = false.
Proof.
  unfold foreign. rewrite negb_true_iff. intros Hc Ha. apply Z.eqb_neq. intros ->.
  enough (existsb (Z.eqb (fold_case c)) (SLASH :: TAG) = true) by congruence. apply existsb_exists. exists (fold_case c).
  split; [by apply list_elem_of_In|apply Z.eqb_refl].
Qed.
Lemma startswith_foreign c b : foreign c = true -> forall p s, (forall a, a ∈ p -> a ∈ SLASH :: TAG) ->
  startswith p (map fold_case (s ++ c :: b)) = startswith p (map fold_case s).
Proof.
  intros Hc. induction p as [|a p IH]; intros s Hp; [done|]. destruct s as [|d s]; cbn [app map startswith].
  - by rewrite foreign_no_letter by (done || (apply Hp; left)).
  - rewrite IH; [done|]. intros x Hx. apply Hp. by right.
Qed.
Lemma tag_name_foreign c b s : foreign c = true -> tag_name (s ++ c :: b) = tag_name s.
Proof. intros Hc. apply startswith_foreign; [done|]. intros a Ha. by right. Qed.

(** A character that belongs to no tag keeps the tags on both sides apart. *)
Lemma tags_app_foreign a c b : foreign c = true -> tags (a ++ c :: b) = (tags a + tags (c :: b))%nat.
Proof.
  intros Hc. induction a as [|x a IH]; [done|]. cbn [app]. change (tags (x :: a ++ c :: b)) with
    ((match tag_at (x :: a ++ c :: b) with Some _ => 1 | None => 0 end) + tags (a ++ c :: b))%nat. rewrite IH.
  change (tags (x :: a)) with ((match tag_at (x :: a) with Some _ => 1 | None => 0 end) + tags a)%nat.
  enough (tag_at (x :: a ++ c :: b) = tag_at (x :: a)) as -> by lia. unfold tag_at. destruct (negb _); [done|].
  destruct a as [|d a]; cbn [app].
  - assert ((c =? SLASH) = false) as ->.
    { apply Z.eqb_neq. intros ->. by vm_compute in Hc. }
    change (c :: b) with ([] ++ c :: b). rewrite tag_name_foreign by done. done.
  - change (d :: a ++ c :: b) with ((d :: a) ++ c :: b). by rewrite !tag_name_foreign.
Qed.

(** C35: A section cannot break out of its envelope.  Whatever text a section has,
    the message that tells it holds exactly two tags, the opening one at its
    beginning and the closing one at its end, in any case of the letters, unless
    the key or the path of the section holds a tag. *)
Theorem envelope_closed s body :
  tags (_render s body) = (2 + tags (key s) + tags (path s))%nat
  /\ startswith (lit "<system-reminder") (_render s body) = true /\ endswith (lit "</system-reminder>") (_render s body) = true.
Proof.
  assert (Hq : foreign QUOTE = true) by done.
  assert (Hbody : tags (NL :: scrub_reminder_markup body ++ [NL] ++ lit "</system-reminder>") = 1%nat).
  { change (NL :: scrub_reminder_markup body ++ [NL] ++ lit "</system-reminder>") with ([NL] ++ scrub_reminder_markup body ++ NL :: lit "</system-reminder>").
    rewrite tags_app_plain; [|intros c ->%list_elem_of_singleton; done]. rewrite tags_app_foreign by done. unfold scrub_reminder_markup. by rewrite scrub_no_tags. }
  assert (Hattr : forall name value rest, (forall c, c ∈ [32] ++ name ++ [61; QUOTE] -> c <> LT) ->
    tags (attribute name value ++ rest) = (tags value + tags (QUOTE :: rest))%nat).
  { intros name value rest Hn. unfold attribute. rewrite <- !app_assoc. rewrite (app_assoc name), (app_assoc [32]), tags_app_plain by done.
    change ([QUOTE] ++ rest) with (QUOTE :: rest). by apply tags_app_foreign. }
  set (inner := NL :: scrub_reminder_markup body ++ [NL] ++ lit "</system-reminder>") in *.
  set (after := (if nonempty (path s) then attribute (lit "path") (path s) else []) ++ 62 :: inner).
  assert (Er : _render s body = lit "<system-reminder" ++ attribute (lit "source") (key s) ++ after).
  { reflexivity. }
  assert (Hplain : forall name, (forall c, c ∈ name -> c <> LT) -> forall c, c ∈ [32] ++ name ++ [61; QUOTE] -> c <> LT).
  { intros name Hn c. rewrite !elem_of_app, !elem_of_cons, elem_of_nil. intros [[->|[]]|[Hc|[->|[->|[]]]]]; try done. by apply Hn. }
  assert (Hlit : forall l c, Forall (fun c => c <> LT) l -> c ∈ l -> c <> LT) by (intros l c Hl Hc; rewrite list.Forall_forall in Hl; exact (Hl c Hc)).
  assert (Hopen : tags (lit "<system-reminder" ++ attribute (lit "source") (key s) ++ after)
                  = (1 + tags (attribute (lit "source") (key s) ++ after))%nat).
  { change (attribute (lit "source") (key s) ++ after) with (32 :: (lit "source" ++ [61; QUOTE] ++ key s ++ [QUOTE]) ++ after).
    by rewrite (tags_app_foreign (lit "<system-reminder") 32). }
  assert (Hafter : tags (QUOTE :: after) = (tags (path s) + 1)%nat).
  { change (QUOTE :: after) with ([QUOTE] ++ after). rewrite tags_app_plain by (intros c ->%list_elem_of_singleton; done). unfold after.
    assert (H62 : tags (62 :: inner) = 1%nat) by (change (62 :: inner) with ([62] ++ inner); by rewrite tags_app_plain by (intros c ->%list_elem_of_singleton; done)).
    destruct (path s) as [|x l] eqn:Ep; cbn [nonempty]; [exact H62|]. rewrite Hattr by (apply Hplain; intros c; apply Hlit; repeat constructor; done).
    change (QUOTE :: 62 :: inner) with ([QUOTE] ++ 62 :: inner). by rewrite tags_app_plain, H62 by (intros c ->%list_elem_of_singleton; done). }
  split_and!.
  - rewrite Er, Hopen, Hattr by (apply Hplain; intros c; apply Hlit; repeat constructor; done). lia.
  - done.
  - unfold endswith. rewrite Er. unfold after, inner.
    match goal with |- startswith _ (rev ?l) = true => replace l with ((lit "<system-reminder" ++ attribute (lit "source") (key s)
      ++ (if nonempty (path s) then attribute (lit "path") (path s) else []) ++ 62 :: NL :: scrub_reminder_markup body ++ [NL]) ++ lit "</system-reminder>") end.
    + rewrite rev_app_distr. done.
    + rewrite <- !app_assoc. cbn [app]. rewrite <- !app_assoc. done.
Qed.

(** ** What the model knows *)

(** A report as the model understands it. *)
Inductive news := Told (s : VolatileSection) | Gone (before now : VolatileSection).
Definition wording (n : news) : str := match n with Told s => _render s (text s) | Gone p s => _render s (_removal_notice p) end.
Definition heard (v : str -> option (str * str)) (n : news) : str -> option (str * str) :=
  fun k => match n with
           | Told s => if str_eqb (key s) k then Some (path s, text s) else v k
           | Gone _ s => if str_eqb (key s) k then None else v k
           end.
(** What is the case: the path and the text of a section that is there. *)
Definition fact (s : VolatileSection) : option (str * str) := if nonempty (text s) then Some (path s, text s) else None.
Definition news_of (t : tracker) (s : VolatileSection) : option news :=
  let previous := dict_get t (key s) in
  if match previous with Some p => str_eqb (fingerprint p) (fingerprint s) | None => false end then None
  else if nonempty (text s) then Some (Told s)
  else match previous with Some p => if nonempty (text p) then Some (Gone p s) else None | None => None end.
Fixpoint all_news (t : tracker) (sections : list VolatileSection) : list news :=
  match sections with
  | [] => []
  | s :: l => (match news_of t s with Some n => [n] | None => [] end) ++ all_news (report t s).1 l
  end.

Lemma report_wording t s : (report t s).2 = option_map wording (news_of t s).
Proof.
  unfold report, news_of. cbv zeta. destruct (match dict_get t (key s) with Some p => _ | None => _ end); [done|]. cbn [snd].
  destruct (nonempty (text s)); [done|]. destruct (dict_get t (key s)) as [p|]; [|done]. by destruct (nonempty (text p)).
Qed.
Lemma reports_wording sections : forall t, (reports t sections).2 = map wording (all_news t sections).
Proof.
  induction sections as [|s l IH]; intros t; [done|]. cbn [reports all_news]. destruct (report t s) as [t' r] eqn:E.
  pose proof (report_wording t s) as Hr. rewrite E in Hr. cbn in Hr. subst r. cbn [fst]. specialize (IH t').
  destruct (reports t' l) as [t'' rs]. cbn in *. subst rs. by destruct (news_of t s).
Qed.

(** What the tracker has is what the model was told last. *)
Definition readable (s : VolatileSection) : Prop := 0 ∉ path s.
Definition knows (t : tracker) (v : str -> option (str * str)) : Prop :=
  (forall k, v k = match dict_get t k with Some s => fact s | None => None end) /\ forall k s, dict_get t k = Some s -> readable s.

Lemma fingerprint_inj s s' : readable s -> readable s' -> fingerprint s = fingerprint s' -> path s = path s' /\ text s = text s'.
Proof.
  unfold readable, fingerprint. generalize (path s) (path s') (text s) (text s'). intros l. induction l as [|a l IH]; intros [|b l'] u u' H H' E; cbn in E.
  - injection E as ->. done.
  - injection E as <- E. destruct H'. by left.
  - injection E as -> E. destruct H. by left.
  - injection E as -> E. apply IH in E as [-> ->]; [done|..]; intros Hx; [apply H|apply H']; by right.
Qed.

Lemma str_eqb_ne a b : b <> a -> str_eqb a b = false.
Proof. intros H. destruct (str_eqb a b) eqn:E; [|done]. apply str_eqb_eq in E. congruence. Qed.
Lemma knows_set t v v' s : readable s -> knows t v -> v' (key s) = fact s -> (forall k, k <> key s -> v' k = v k) ->
  knows (dict_set t (key s) s) v' /\ v' (key s) = fact s /\ forall k, k <> key s -> v' k = v k.
Proof.
  intros Hs [Hv Hr] H1 H2. split; [|done]. split; intros k; rewrite dict_get_set; destruct (str_eqb (key s) k) eqn:Ek.
  - apply str_eqb_eq in Ek as <-. done.
  - rewrite H2, Hv; [done|]. intros ->. by rewrite (proj2 (str_eqb_eq _ _) eq_refl) in Ek.
  - by intros s' [= <-].
  - apply Hr.
Qed.
Lemma heard_news v n : forall k, k <> key (match n with Told s | Gone _ s => s end) -> heard v n k = v k.
Proof. intros k Hk. destruct n; cbn in *; by rewrite str_eqb_ne. Qed.

Lemma knows_report t v s : readable s -> knows t v ->
  let v' := match news_of t s with Some n => heard v n | None => v end in
  knows (report t s).1 v' /\ v' (key s) = fact s /\ forall k, k <> key s -> v' k = v k.
Proof.
  intros Hs [Hv Hr]. cbv zeta. assert (Heq : str_eqb (key s) (key s) = true) by by apply str_eqb_eq.
  unfold news_of, report. cbv zeta.
  destruct (match dict_get t (key s) with Some p => str_eqb (fingerprint p) (fingerprint s) | None => false end) eqn:Esame.
  - destruct (dict_get t (key s)) as [p|] eqn:Ep; [|done]. apply str_eqb_eq in Esame.
    apply fingerprint_inj in Esame as [E1 E2]; [|by eapply Hr|done]. split; [done|]. split; [|done]. rewrite Hv, Ep. unfold fact. by rewrite E1, E2.
  - cbn [fst]. apply (knows_set t v); [done|by split|..]; specialize (Hv (key s)); unfold fact in *.
    + destruct (nonempty (text s)) eqn:Et; [cbn; by rewrite Heq|]. destruct (dict_get t (key s)) as [p|]; [|done].
      destruct (nonempty (text p)) eqn:Etp; [cbn; by rewrite Heq|done].
    + destruct (nonempty (text s)); [apply (heard_news v (Told s))|]. destruct (dict_get t (key s)) as [p|]; [|done].
      destruct (nonempty (text p)); [apply (heard_news v (Gone p s))|done].
Qed.

Fixpoint hears (v : str -> option (str * str)) (l : list news) : str -> option (str * str) :=
  match l with [] => v | n :: l => hears (heard v n) l end.
Lemma hears_app l l' : forall v, hears v (l ++ l') = hears (hears v l) l'.
Proof. induction l as [|n l IH]; intros v; [done|]. apply IH. Qed.

(** What was reported last under a key is the case. *)
Fixpoint newest (k : str) (sections : list VolatileSection) (before : option (str * str)) : option (str * str) :=
  match sections with [] => before | s :: l => newest k l (if str_eqb (key s) k then fact s else before) end.
Lemma knows_reports sections : forall t v, Forall readable sections -> knows t v ->
  knows (reports t sections).1 (hears v (all_news t sections)) /\ forall k, hears v (all_news t sections) k = newest k sections (v k).
Proof.
  induction sections as [|s l IH]; intros t v Hs Hk; [done|]. apply list.Forall_cons in Hs as [Hs Hl]. cbn [reports all_news newest].
  pose proof (knows_report t v s Hs Hk) as (H1 & H2 & H3). cbv zeta in H1, H2, H3. rewrite hears_app. destruct (report t s) as [t' r]. cbn [fst] in *.
  set (v' := match news_of t s with Some n => heard v n | None => v end) in *.
  assert (hears v (match news_of t s with Some n => [n] | None => [] end) = v') as -> by (unfold v'; by destruct (news_of t s)).
  destruct (IH t' v' Hl H1) as [H4 H5]. destruct (reports t' l) as [t'' rs]. split; [exact H4|]. intros k. rewrite H5. f_equal.
  destruct (str_eqb (key s) k) eqn:E; [by apply str_eqb_eq in E as <-|]. apply H3. intros ->. by rewrite (proj2 (str_eqb_eq _ _) eq_refl) in E.
Qed.

(** The tracker in a conversation: it is asked, or the history it mirrored is discarded. *)
Inductive occasion := Asked (sections : list VolatileSection) | Discarded.
(** The tracker, and the news in the blocks the history still has. *)
Fixpoint converse (t : tracker) (told : list news) (l : list occasion) : tracker * list news :=
  match l with
  | [] => (t, told)
  | Asked sections :: l => converse (pending_block t sections).1 (told ++ all_news t sections) l
  | Discarded :: l => converse (forget t) [] l
  end.
Definition asked (o : occasion) : list VolatileSection := match o with Asked l => l | Discarded => [] end.
(** The news as one block has them. *)
Definition blocks_of (l : list news) : option str := if nonempty l then Some (join [NL] (map wording l)) else None.

Lemma pending_fst t sections : (pending_block t sections).1 = (reports t sections).1.
Proof. unfold pending_block. by destruct (reports t sections). Qed.
Lemma converse_knows l : forall t told, Forall (fun o => Forall readable (asked o)) l -> knows t (hears (fun _ => None) told) ->
  knows (converse t told l).1 (hears (fun _ => None) (converse t told l).2).
Proof.
  induction l as [|[sections|] l IH]; intros t told Hl Hk; [done|..]; apply list.Forall_cons in Hl as [Hs Hl]; cbn [converse]; apply IH; try done.
  rewrite pending_fst, hears_app. by apply knows_reports.
Qed.

(** C34: The history always tells what is the case.  After any sequence of calls and
    of discarded histories, a call adds a block only for news, worded one after the
    other, and none when there are none; whoever reads the blocks that the history
    holds, the news of earlier calls and then these, knows of every key exactly
    what the last section passed under it says - its path and text, or that it is
    absent - and of a key not passed what was known before. *)
Theorem tracker_tells l sections : Forall (fun o => Forall readable (asked o)) l -> Forall readable sections ->
  let '(t, told) := converse [] [] l in
  (pending_block t sections).2 = blocks_of (all_news t sections)
  /\ forall k, hears (fun _ => None) (told ++ all_news t sections) k = newest k sections (hears (fun _ => None) told k).
Proof.
  intros Hl Hs. pose proof (converse_knows l [] [] Hl) as Hk. destruct (converse [] [] l) as [t told]. cbn [fst snd] in Hk.
  assert (H : knows t (hears (fun _ => None) told)) by (apply Hk; split; done). split.
  - unfold pending_block, blocks_of. pose proof (reports_wording sections t) as E. destruct (reports t sections) as [t' rs]. cbn in *. subst rs.
    by destruct (all_news t sections).
  - intros k. rewrite hears_app. by apply knows_reports.
Qed.

Definition guidance (s : str) : VolatileSection := mkSection (lit "guidance") s (lit "AGENTS.md").
Lemma tracker_tells_witness :
  let l := [Asked [guidance (lit "be kind"); mkSection (lit "memory") [] []]; Asked [guidance (lit "be kind")]; Discarded; Asked [guidance (lit "be brief")]] in
  let '(t, told) := converse [] [] l in
  let r := pending_block t [guidance []] in
  (forall k, hears (fun _ => None) (told ++ all_news t [guidance []]) k = newest k [guidance []] (hears (fun _ => None) told k))
  /\ (exists text, r.2 = Some text /\ LlmErrors.contains (lit "AGENTS.md is no longer present") text = true) /\ length told = 1%nat
  /\ hears (fun _ => None) told (lit "guidance") = Some (lit "AGENTS.md", lit "be brief")
  /\ hears (fun _ => None) (told ++ all_news t [guidance []]) (lit "guidance") = None.
Proof.
  assert (R : forall s, readable (guidance s)).
  { intros s. unfold readable, guidance. cbn [path]. change (0 ∉ lit "AGENTS.md"). apply (bool_decide_unpack (0 ∉ lit "AGENTS.md")). vm_compute. exact I. }
  split_and!.
  - apply (tracker_tells [Asked [guidance (lit "be kind"); mkSection (lit "memory") [] []]; Asked [guidance (lit "be kind")]; Discarded; Asked [guidance (lit "be brief")]] [guidance []]).
    + assert (E : readable (mkSection (lit "memory") [] [])) by (intros H; by apply elem_of_nil in H).
      repeat first [apply R | exact E | constructor].
    + apply list.Forall_cons. split; [apply R|done].
  - eexists. split; [reflexivity|vm_compute; reflexivity].
  - vm_compute; reflexivity.
  - vm_compute; reflexivity.
  - vm_compute; reflexivity.
Defined.

(** A section whose provider returns [None] is not reported as gone. *)
Lemma omitted_section_stays :
  let plan := mkSection (lit "plan") (lit "step one") [] in
  let sections extra := _volatile_context_sections [] [] None (lit "anthropic") (lit "m") (lit "2026-01-01") true [extra] in
  let t := (pending_block [] (sections (Some (Some plan)))).1 in
  (pending_block t (sections (Some None))).2 = None
  /\ (exists b, (pending_block t (sections (Some (Some (mkSection (lit "plan") [] []))))).2 = Some b
       /\ LlmErrors.contains (lit "The current plan is no longer present") b = true).
Proof. split; [vm_compute; reflexivity|]. eexists. split; [vm_compute; reflexivity|vm_compute; reflexivity]. Qed.
