(* ===== verification/AgentTurn.v ===== *)
(** * A turn of the agent

    Models what surrounds the loop in [kolega_code/agent/baseagent.py]:
    [process_message_stream], [_continue_from_history_impl], the events at the
    boundaries of a turn, the journal's record of how it ended, and what is done
    with tool calls that an interruption left open.

    The turn drives the generator of the loop: each of its awaits is an await of
    the turn ([Inner]), and a chunk that it yields is mirrored to the event stream
    and handed to the caller.  When mirroring is cancelled or the caller closes the
    generator, the loop is closed at its [yield].  Clean-up runs in a task of its
    own that a cancellation cannot reach; [Recancelled] tells whether the turn was
    cancelled once more while it waited for it. *)

From stdpp Require Import base list strings numbers.
From Stdlib Require Import ZArith Lia.
From S2P Require Import Prelude PyStr PyVal Json Permissions SessionRuntime Conversation Prog Tools Hooks ToolExec AgentStream AgentLoop.
From S2P Require LlmErrors.
Import LlmErrors(raised, Llm, Foreign, Persistence, llm_error, llm_class, foreign).

Section AgentTurn.
Context {other request : Type} {outside : @Environment other}.
Abbreviation Message := (@Message other).
Abbreviation ToolResult := (@ToolResult other).
Abbreviation raised := (raised Message).
Abbreviation CancelledError := (LlmErrors.CancelledError (message := Message)).
Abbreviation loop_effect := (@AgentLoop.effect other request).
Abbreviation loop_answer := (@AgentLoop.answer other request).

Inductive turn_phase := Started | Finished.
Inductive turn_status := Completed | Cancelled | Failed.
Definition status_value (s : turn_status) : str :=
  match s with Completed => lit "completed" | Cancelled => lit "cancelled" | Failed => lit "failed" end.

Inductive effect :=
| Inner (e : loop_effect)
| AssistantDelta (text : str) (complete : bool) (stream_uuid : str) (thinking : bool)
| Hand (c : chunk)                                   (* [yield] to the caller *)
| Boundary (phase : turn_phase) (turn_id : str) (status : option turn_status) (user_text : option str)
| CurrentTurn                                        (* [current_turn_id is not None] *)
| FinishTurn (status : turn_status) (error : option str)
| Recancelled
| History
| NewId
| RefreshMemory
| StartTurn (l : list (@block other))
| StartContinuation
| RecordSystemContext
| RecordToolDefinitions
| PendingVolatile.                                   (* [pending_volatile_context] *)

Definition answer (e : effect) : Type :=
  match e with
  | Inner e => loop_answer e
  | Hand _ | CurrentTurn | Recancelled => bool
  | FinishTurn _ _ => result raised unit * bool
  | History => list Message
  | NewId => str
  | PendingVolatile => result raised (option str)
  | _ => result raised unit
  end.
Abbreviation program := (prog answer raised).
Abbreviation await a := (Do a (of_result (answer := answer) (exn := raised))).

(** [except Exception]. *)
Definition except_Exception {A} (m : program A) (h : raised -> program A) : program A :=
  catch m (fun e => match e with LlmErrors.CancelledError => Throw e | _ => h e end).

(** ** Chunks *)

Definition _mirror_stream_chunk (c : chunk) : program unit :=
  if negb (nonempty (content c)) && negb (complete c) then Ret tt
  else except_Exception (await (AssistantDelta (content c) (complete c) (stream_uuid c) (bool_decide (kind c = Thought)))) (fun _ => Ret tt).
(** What a [yield] of the inner generator comes back with: [false] closes it. *)
Definition hand (c : chunk) : program bool := catch (bind (_mirror_stream_chunk c) (fun _ => Do (Hand c) Ret)) (fun _ => Ret false).

(** The loop, driven by the turn. *)
Fixpoint drive {A} (p : prog loop_answer (frame * raised) A) : program A :=
  match p with
  | Ret a => Ret a
  | Throw x => Throw x.2
  | Do a k =>
      match a as a return (loop_answer a -> program A) -> program A with
      | Yield c => fun next => bind (hand c) next
      | a => fun next => Do (Inner a) next
      end (fun r => drive (k r))
  end.
Definition yield (c : chunk) : program unit := bind (hand c) (fun on : bool => if on then Ret tt else Throw CancelledError).

Variable self : agent.
(** The variables of the loop are not used before it runs. *)
Variable f : frame.

(** ** How a turn ends *)

Definition _emit_turn_boundary (p : turn_phase) (turn_id : str) (s : option turn_status) (user_text : option str) : program unit :=
  Do (Boundary p turn_id s user_text) (fun _ => Ret tt).

Definition _finish_recorded_turn (s : turn_status) (error : option str) : program unit :=
  if recorder self then
    Do CurrentTurn (fun open : bool =>
    if open then
      Do (FinishTurn s error) (fun r : result raised unit * bool =>
      bind (of_result r.1) (fun _ => if r.2 then Throw CancelledError else Ret tt))
    else Ret tt)
  else Ret tt.

(** The calls of the last message of the assistant that no later result answers;
    the history is given from its end. *)
Fixpoint open_calls (newest_first : list Message) (answered : list ToolResult) : list ToolCall :=
  match newest_first with
  | [] => []
  | m :: older =>
      let answered := answered ++ omap block_result (blocks_of m) in
      match role_of m with
      | Assistant => List.filter (fun c => negb (existsb (same_tool_execution c) answered)) (tool_calls m)
      | _ => open_calls older answered
      end
  end.
Definition unsettled (history : list Message) : list ToolCall := open_calls (rev history) [].
Definition _settle_interrupted_tool_calls : program unit :=
  bind (await (Inner PrepareBackground)) (fun _ =>
  Do History (fun history : list Message =>
  match unsettled history with
  | [] => Ret tt
  | pending => drive (_commit_tool_results self f (map (error_result INTERRUPTED) pending))
  end)).

Definition _finalize_interrupted_turn (s : turn_status) (error : option str) : program unit :=
  bind (finally (except_Exception _settle_interrupted_tool_calls (fun _ => Ret tt)) (_finish_recorded_turn s error)) (fun _ =>
    Do Recancelled (fun again : bool => if again then Throw CancelledError else Ret tt)).

Definition deliver_background : program unit := await (Inner DeliverBackground).
Definition _run_recorded_turn (impl : program unit) (user_text : option str) : program unit :=
  bind (await (Inner PrepareBackground)) (fun _ =>
  bind deliver_background (fun _ =>
  Do NewId (fun turn_id : str =>
  bind (_emit_turn_boundary Started turn_id None user_text) (fun _ =>
  try_else impl
    (fun e =>
      let '(s, error) := match e with LlmErrors.CancelledError => (Cancelled, None) | e => (Failed, Some (str_of e)) end in
      bind (_finalize_interrupted_turn s error) (fun _ =>
      bind (_emit_turn_boundary Finished turn_id (Some s) None) (fun _ => Throw e)))
    (fun _ =>
      bind (_finish_recorded_turn Completed None) (fun _ =>
      bind deliver_background (fun _ => _emit_turn_boundary Finished turn_id (Some Completed) None))))))).

(** ** What a turn does *)

Definition _unsupported_attachment_message (supports_vision : bool) (attachments : list dict) : option str :=
  if negb (existsb (fun d => match get d (lit "type") with VStr s => str_eqb s (lit "image") | _ => false end) attachments) then None
  else if supports_vision then None
  else Some (model self ++ lit " does not support image input. Your message was not sent to the model. Remove the image attachment or switch to a vision-capable model with /model.").

(** The message is not sent; the caller is told why. *)
Definition refuse (why code : str) : program unit :=
  bind (drive (_record_synthetic_notice self f why code)) (fun _ =>
  Do NewId (fun u : str => yield (mkChunk Said why true u))).
Definition run_loop (fuel : nat) : program unit := bind (drive (_agent_loop_stream self fuel f)) (fun _ => Ret tt).
Definition record_context : program unit :=
  bind (await RecordSystemContext) (fun _ => await RecordToolDefinitions).

(** The prompt, recorded and appended, what changed around it, and the loop. *)
Definition send (blocks : list (@block other)) (fuel : nat) : program unit :=
  bind (if recorder self then bind (await (StartTurn blocks)) (fun _ => record_context) else Ret tt) (fun _ =>
  bind (await (Inner (AppendUser blocks))) (fun _ =>
  bind (await PendingVolatile) (fun volatile =>
  bind (match volatile with Some text => drive (_record_context_user_message self f text) | None => Ret tt end) (fun _ =>
  run_loop fuel)))).
Definition _process_message_stream_impl (supports_vision : bool) (message : str) (attachments : option (list dict)) (fuel : nat) : program unit :=
  bind (if sub_agent self then Ret tt else except_Exception (await RefreshMemory) (fun _ => Ret tt)) (fun _ =>
  match _unsupported_attachment_message supports_vision (default [] attachments) with
  | Some why => refuse why (lit "unsupported_attachment")
  | None =>
      bind (await (Inner (BuildContent message (match attachments with Some l => VList (map VDict l) | None => VNone end)))) (fun blocks =>
      if sub_agent self then send blocks fuel
      else
        bind (await (Inner (FireHook USER_PROMPT_SUBMIT [(lit "user_message", VStr message)]))) (fun submit =>
        if blocked submit || end_turn submit
        then refuse (if nonempty (reason submit) then reason submit else lit "A hook blocked this prompt.") (lit "hook_blocked")
        else send (blocks ++ match additional_context submit with Some (c :: s) => [TextBlock (c :: s)] | _ => [] end) fuel))
  end).
Definition _continue_from_history_impl (fuel : nat) : program unit :=
  bind (if recorder self then bind (await StartContinuation) (fun _ => record_context) else Ret tt) (fun _ => run_loop fuel).
Definition process_message_stream (supports_vision : bool) (message : str) (attachments : option (list dict)) (fuel : nat) : program unit :=
  _run_recorded_turn (_process_message_stream_impl supports_vision message attachments fuel) (Some message).
End AgentTurn.
