(* ===== verification/AgentTurnFacts.v ===== *)
(** * Facts about turns

    How a turn ends is said once, and alike, in the journal, in the events and to
    the caller; beyond the announcement of its turn, a prompt that is refused leaves
    no trace; and an interruption leaves no open tool call. *)

From stdpp Require Import base list strings numbers.
From Stdlib Require Import ZArith Lia.
From S2P Require Import Prelude PyStr PyVal Json Permissions SessionRuntime Conversation Prog Tools Hooks ToolExec AgentStream AgentLoop AgentTurn.
From S2P Require LlmErrors AgentLoopFacts ConversationFacts.
Import LlmErrors(raised, Llm, Foreign, Persistence, llm_error, llm_class, foreign).

Section Facts.
Context {other request : Type} {outside : @Environment other}.
Abbreviation Message := (@Message other).
Abbreviation ToolResult := (@ToolResult other).
Abbreviation raised := (raised Message).
Abbreviation CancelledError := (LlmErrors.CancelledError (message := Message)).
Abbreviation effect := (@AgentTurn.effect other request).
Abbreviation answer := (@AgentTurn.answer other request).
Abbreviation program := (prog (action := effect) answer raised).
Abbreviation Ev := (Ev (answer := answer)).
Variable self : agent.
Variable f : frame.

(** ** What a trace says *)

Definition boundary (e : event answer) : option (turn_phase * str * option turn_status) :=
  match e with Prog.Ev (Boundary p id s _) _ => Some (p, id, s) | _ => None end.
(** An attempt to write the end of a turn to the journal, and whether it succeeded. *)
Definition recorded (e : event answer) : option (turn_status * bool) :=
  match e with Prog.Ev (FinishTurn s _) (r, _) => Some (s, match r with Ok _ => true | Raise _ => false end) | _ => None end.
Definition boundaries (t : list (event answer)) := omap boundary t.
Definition finishes (t : list (event answer)) := omap recorded t.
(** No turn was open to be ended in the journal. *)
Definition nothing_open (t : list (event answer)) : Prop := recorder self = false \/ Ev CurrentTurn false ∈ t.

Lemma boundaries_app t t' : boundaries (t ++ t') = boundaries t ++ boundaries t'.
Proof. apply omap_app. Qed.
Lemma finishes_app t t' : finishes (t ++ t') = finishes t ++ finishes t'.
Proof. apply omap_app. Qed.

(** How the end of a turn with status [s] went into the journal: nothing was open
    there, or there was one write, which succeeded or not. *)
Definition journaled (s : turn_status) (t : list (event answer)) : Prop :=
  (finishes t = [] /\ nothing_open t) \/ exists w, finishes t = [(s, w)].
(** Nothing in the journal is open, or the one write succeeded. *)
Definition closed (s : turn_status) (t : list (event answer)) : Prop := (finishes t = [] /\ nothing_open t) \/ finishes t = [(s, true)].
(** What may keep the end of a turn from being announced. *)
Definition prevented (t : list (event answer)) (e : raised) : Prop :=
  e = CancelledError \/ (exists s why again, Ev (FinishTurn s why) (Raise e, again) ∈ t) \/ Ev (Inner DeliverBackground) (Raise e) ∈ t.

Lemma nothing_open_app t t' : nothing_open t \/ nothing_open t' -> nothing_open (t ++ t').
Proof. unfold nothing_open. rewrite list.elem_of_app. tauto. Qed.
Lemma prevented_app t t' e : prevented t e \/ prevented t' e -> prevented (t ++ t') e.
Proof. unfold prevented. setoid_rewrite list.elem_of_app. firstorder. Qed.

(** Everything but the ends of turns. *)
Definition quiet (e : event answer) : Prop := boundary e = None /\ recorded e = None.
Lemma quiet_trace t : Forall quiet t -> boundaries t = [] /\ finishes t = [].
Proof. unfold boundaries, finishes. induction 1 as [|e t [H1 H2] _ [IH1 IH2]]; [done|]. cbn. by rewrite H1, H2. Qed.

Lemma hand_quiet c : emits quiet (hand c).
Proof.
  unfold hand. apply emits_catch; [|intros e; apply emits_Ret]. apply emits_bind.
  - unfold _mirror_stream_chunk. destruct (_ && _); [apply emits_Ret|]. unfold AgentTurn.except_Exception. apply emits_catch.
    + apply emits_Do; [done|]. intros r. apply emits_of_result.
    + intros []; first [apply emits_Throw | apply emits_Ret].
  - intros []. apply emits_Do; [done|]. intros r. apply emits_Ret.
Qed.
(** What the loop does goes into the trace of the turn as it is, or as chunks. *)
Lemma drive_quiet {A} (p : prog (@AgentLoop.answer other request) (frame * raised) A) : emits quiet (drive p).
Proof.
  induction p as [a|x|a k IH]; [apply emits_Ret|apply emits_Throw|].
  destruct a; cbn [drive]; first [apply emits_bind; [apply hand_quiet|exact IH] | apply emits_Do; [done|exact IH]].
Qed.

Ltac quiets :=
  repeat first
    [ apply drive_quiet | apply hand_quiet | apply emits_Ret | apply emits_Throw | apply emits_of_result
    | apply emits_bind; [|intros ?] | apply emits_Do; [done|intros ?] | apply emits_catch; [|intros []]
    | match goal with |- emits _ (match ?x with _ => _ end) => destruct x end ].

Lemma settle_quiet : emits quiet (_settle_interrupted_tool_calls (request := request) self f).
Proof. unfold _settle_interrupted_tool_calls. quiets. Qed.
Lemma refuse_quiet why code : emits quiet (refuse (request := request) self f why code).
Proof. unfold refuse, AgentTurn.yield. quiets. Qed.
Lemma sent_quiet blocks fuel : emits quiet (send (request := request) self f blocks fuel).
Proof. unfold send, record_context, run_loop. quiets. Qed.
Lemma impl_quiet vision message attachments fuel : emits quiet (_process_message_stream_impl (request := request) self f vision message attachments fuel).
Proof.
  unfold _process_message_stream_impl, AgentTurn.except_Exception. apply emits_bind; [quiets|]. intros _.
  destruct (_unsupported_attachment_message _ _ _); [apply refuse_quiet|]. apply emits_bind; [quiets|]. intros blocks.
  destruct (sub_agent self); [apply sent_quiet|]. apply emits_bind; [quiets|]. intros submit. destruct (_ || _); [apply refuse_quiet|apply sent_quiet].
Qed.

(** ** The end of a turn *)

(** Quiet steps around the end change nothing. *)
Lemma finishes_around t1 t2 t3 : Forall quiet t1 -> Forall quiet t3 -> boundaries (t1 ++ t2 ++ t3) = boundaries t2 /\ finishes (t1 ++ t2 ++ t3) = finishes t2.
Proof.
  intros [H1 H2]%quiet_trace [H3 H4]%quiet_trace. by rewrite !boundaries_app, !finishes_app, H1, H2, H3, H4, !app_nil_r.
Qed.
Lemma closed_around s t1 t2 t3 : Forall quiet t1 -> Forall quiet t3 -> closed s t2 -> closed s (t1 ++ t2 ++ t3).
Proof.
  intros H1 H3. destruct (finishes_around t1 t2 t3 H1 H3) as [_ E]. unfold closed. rewrite E. intros [[H4 H5]|H4]; [left|by right].
  split; [done|]. apply nothing_open_app. right. apply nothing_open_app. by left.
Qed.
Lemma journaled_around s t1 t2 t3 : Forall quiet t1 -> Forall quiet t3 -> journaled s t2 -> journaled s (t1 ++ t2 ++ t3).
Proof.
  intros H1 H3. destruct (finishes_around t1 t2 t3 H1 H3) as [_ E]. unfold journaled. rewrite E. intros [[H4 H5]|H4]; [left|by right].
  split; [done|]. apply nothing_open_app. right. apply nothing_open_app. by left.
Qed.

(** What a part of the end of a turn says: no boundary; and when it goes on, the
    journal knows the end, and otherwise why not. *)
Definition said_once {A} (s : turn_status) (t : list (event answer)) (o : outcome (exn := raised) A) : Prop :=
  boundaries t = [] /\ match o with Done _ => closed s t | Threw e => journaled s t /\ prevented t e end.

Lemma finish_said s error t o : runs (_finish_recorded_turn (request := request) self s error) t o -> said_once s t o.
Proof.
  unfold _finish_recorded_turn, said_once. destruct (recorder self) eqn:Er.
  2: { intros [-> ->]. split; [done|]. left. split; [done|]. by left. }
  intros (b & t1 & -> & H). destruct b.
  2: { destruct H as [-> ->]. split; [done|]. left. split; [done|]. right. left. }
  destruct H as ([r again] & t2 & -> & H). cbn in H. destruct r as [[]|e].
  - cbn in H. destruct again; destruct H as [-> ->]; (split; [done|]); [|by right].
    split; [right; by exists true|by left].
  - destruct H as [-> ->]. split; [done|]. split; [right; by exists false|]. right. left. exists s, error, again. right. left.
Qed.
Lemma closed_journaled s t : closed s t -> journaled s t.
Proof. intros [H|H]; [by left|right; by exists true]. Qed.
Lemma finalize_said s error t o : runs (_finalize_interrupted_turn (request := request) self f s error) t o -> said_once s t o.
Proof.
  unfold _finalize_interrupted_turn.
  assert (Hq : forall u1 o1, runs (except_Exception (_settle_interrupted_tool_calls (request := request) self f) (fun _ => Ret tt)) u1 o1 ->
    Forall quiet u1 /\ forall e, o1 = Threw e -> e = CancelledError).
  { intros u1 o1 H. split; [revert H; apply (emits_catch quiet); [apply settle_quiet|intros []; first [apply emits_Throw | apply emits_Ret]]|].
    intros e ->. unfold AgentTurn.except_Exception in H. apply runs_catch in H as [(? & _ & [=])|(v1 & v2 & e' & -> & _ & H)].
    destruct e'; by destruct H as [_ [= ->]]. }
  intros [(t1 & t2 & [] & -> & H & Ht)|(e & H & ->)]%runs_bind;
    apply runs_finally in H as (u1 & u2 & o1 & o2 & -> & H1 & H2 & Ho); apply Hq in H1 as [H1 Hc]; apply finish_said in H2 as [B2 H2].
  - destruct o2 as [[]|]; [|done]. destruct Ht as (b & t' & -> & Ht).
    assert (Hend : Forall quiet [Ev Recancelled b] /\ (o = Done tt \/ o = Threw CancelledError) /\ t' = [])
      by (split; [by repeat constructor|]; destruct b; destruct Ht as [-> ->]; auto).
    destruct Hend as (He & Ho' & ->). rewrite <- app_assoc. destruct (finishes_around u1 u2 [Ev Recancelled b] H1 He) as [EB _].
    split; [by rewrite EB|]. pose proof (closed_around s u1 u2 [Ev Recancelled b] H1 He H2) as Hcl. destruct Ho' as [->| ->]; [done|].
    split; [by apply closed_journaled|by left].
  - destruct (finishes_around u1 u2 [] H1 ltac:(constructor)) as [EB _]. rewrite app_nil_r in EB. split; [by rewrite EB|].
    destruct o2 as [[]|e2].
    + subst o1. rewrite (Hc e eq_refl). split; [|by left]. rewrite <- (app_nil_r u2). apply journaled_around; [done|constructor|]. by apply closed_journaled.
    + injection Ho as ->. destruct H2 as [H2 H3]. split; [rewrite <- (app_nil_r u2); apply journaled_around; [done|constructor|done]|].
      apply prevented_app. by right.
Qed.

(** What the caller sees of a turn with a status. *)
Definition seen_as (s : turn_status) (o : outcome (exn := raised) unit) : Prop :=
  match s with
  | Completed => o = Done tt
  | Cancelled => o = Threw CancelledError
  | Failed => exists e, o = Threw e /\ e <> CancelledError
  end.
(** The events of a turn: it was started, and perhaps ended. *)
Definition told (ended : bool) (turn_id : str) (s : turn_status) : list (turn_phase * str * option turn_status) :=
  (Started, turn_id, None) :: if ended then [(Finished, turn_id, Some s)] else [].

Lemma deliver_quiet : emits quiet (deliver_background (other := other) (request := request)).
Proof. unfold deliver_background. quiets. Qed.

(** The last part of a turn: its end is announced, or something prevented it. *)
Definition ends_as (id : str) (s : turn_status) (t : list (event answer)) (o : outcome (exn := raised) unit) (good : outcome unit -> Prop) : Prop :=
  (boundaries t = [(Finished, id, Some s)] /\ closed s t /\ good o)
  \/ (boundaries t = [] /\ journaled s t /\ exists e, o = Threw e /\ prevented t e).

Lemma interrupted_says s error id e t o :
  runs (bind (_finalize_interrupted_turn (request := request) self f s error) (fun _ =>
          bind (_emit_turn_boundary Finished id (Some s) None) (fun _ => Throw (A := unit) e))) t o ->
  ends_as id s t o (fun o => o = Threw e).
Proof.
  intros [(t1 & t2 & [] & -> & H1 & (r & t3 & -> & [-> ->]))|(e' & H & ->)]%runs_bind.
  - left. apply finalize_said in H1 as [H1 H2]. rewrite boundaries_app, H1. split_and!; [done| |done].
    unfold closed in *. rewrite finishes_app, app_nil_r. destruct H2 as [[H2 H3]|H2]; [left|by right]. split; [done|]. apply nothing_open_app. by left.
  - right. apply finalize_said in H as [H1 [H2 H3]]. eauto.
Qed.
Lemma completed_says id t o :
  runs (bind (_finish_recorded_turn (request := request) self Completed None) (fun _ =>
          bind deliver_background (fun _ => _emit_turn_boundary Finished id (Some Completed) None))) t o ->
  ends_as id Completed t o (fun o => o = Done tt).
Proof.
  intros [(t1 & t2 & [] & -> & H1 & H2)|(e' & H & ->)]%runs_bind.
  - apply finish_said in H1 as [B1 H1]. apply runs_bind in H2 as [(t3 & t4 & [] & -> & H3 & (r & t5 & -> & [-> ->]))|(e & H3 & ->)].
    + left. apply deliver_quiet in H3. pose proof H3 as [B3 F3]%quiet_trace. rewrite !boundaries_app, B1, B3. split_and!; [done| |done].
      unfold closed in *. rewrite !finishes_app, F3, app_nil_r. destruct H1 as [[H1 H2]|H1]; [left; rewrite H1|right; by rewrite H1].
      split; [done|]. apply nothing_open_app. by left.
    + right. pose proof (deliver_quiet _ _ H3) as Hq. destruct (finishes_around [] t1 t2 ltac:(constructor) Hq) as [EB _]. cbn [app] in EB. split; [by rewrite EB|].
      split; [apply (journaled_around Completed [] t1 t2); [constructor|done|by apply closed_journaled]|]. exists e. split; [done|].
      apply prevented_app. right. unfold deliver_background in H3. destruct H3 as (r & t' & -> & H3).
      destruct r as [|x]; [by destruct H3 as [_ [=]]|]. destruct H3 as [-> [= ->]]. right. right. left.
  - right. apply finish_said in H as [H1 [H2 H3]]. eauto.
Qed.

(** How a turn went: it failed before it was announced; or it was announced, and its
    end too; or something prevented that. *)
Definition turn_told (t : list (event answer)) (o : outcome (exn := raised) unit) : Prop :=
  (boundaries t = [] /\ finishes t = [] /\ exists e, o = Threw e)
  \/ exists turn_id s,
       (boundaries t = told true turn_id s /\ closed s t /\ seen_as s o)
       \/ (boundaries t = told false turn_id s /\ journaled s t /\ exists e, o = Threw e /\ prevented t e).

(** The beginning of a turn, what it did, and its end. *)
Lemma turn_parts t1 t3 id user r u1 u2 s o (good : outcome unit -> Prop) :
  Forall quiet t1 -> Forall quiet t3 -> Forall quiet u1 -> ends_as id s u2 o good ->
  let t := t1 ++ t3 ++ Ev NewId id :: Ev (Boundary Started id None user) r :: u1 ++ u2 in
  (boundaries t = told true id s /\ closed s t /\ good o)
  \/ (boundaries t = told false id s /\ journaled s t /\ exists e, o = Threw e /\ prevented t e).
Proof.
  intros H1 H3 H5 H. cbv zeta. set (t := t1 ++ _).
  assert (Hb : boundaries t = (Started, id, None) :: boundaries u2 /\ finishes t = finishes u2).
  { apply quiet_trace in H1 as [B1 F1], H3 as [B3 F3], H5 as [B5 F5]. unfold t. rewrite !boundaries_app, !finishes_app, B1, B3, F1, F3.
    change (boundaries (Ev NewId id :: Ev (Boundary Started id None user) r :: u1 ++ u2)) with ((Started, id, None (A := turn_status)) :: boundaries (u1 ++ u2)).
    change (finishes (Ev NewId id :: Ev (Boundary Started id None user) r :: u1 ++ u2)) with (finishes (u1 ++ u2)).
    by rewrite boundaries_app, finishes_app, B5, F5. }
  destruct Hb as [EB EF]. assert (Hs : t = (t1 ++ t3 ++ Ev NewId id :: Ev (Boundary Started id None user) r :: u1) ++ u2) by (unfold t; by simplify_list_eq).
  assert (Hopen : nothing_open u2 -> nothing_open t) by (intros Hn; rewrite Hs; apply nothing_open_app; by right).
  unfold closed, journaled. rewrite EB, EF. destruct H as [(-> & Hc & Hg)|(-> & Hj & e & He & Hp)]; [left|right].
  - split_and!; [done| |done]. destruct Hc as [[Hc Hn]|Hc]; [left; auto|by right].
  - split_and!; [done| |exists e; split; [done|]; rewrite Hs; apply prevented_app; by right]. destruct Hj as [[Hj Hn]|Hj]; [left; auto|by right].
Qed.

Lemma run_recorded impl user t o : emits quiet impl -> runs (_run_recorded_turn (request := request) self f impl user) t o -> turn_told t o.
Proof.
  intros Hi. unfold _run_recorded_turn.
  assert (Hprepare : emits quiet (Do (Inner PrepareBackground) (of_result (answer := answer) (exn := raised)))) by quiets.
  intros [(t1 & t2 & [] & -> & H1 & H2)|(e & H & ->)]%runs_bind; [|left; apply Hprepare in H; apply quiet_trace in H as [? ?]; eauto].
  apply Hprepare in H1.
  apply runs_bind in H2 as [(t3 & t4 & [] & -> & H3 & H4)|(e & H & ->)].
  2: { left. apply deliver_quiet, quiet_trace in H as [B2 F2]. apply quiet_trace in H1 as [B1 F1]. rewrite boundaries_app, finishes_app, B1, F1, B2, F2. eauto. }
  apply deliver_quiet in H3. destruct H4 as (id & t5 & -> & (r & t6 & -> & H)). right. exists id.
  revert H. intros [(u1 & u2 & [] & -> & H5 & H6)|(u1 & u2 & e & -> & H5 & H6)]%runs_try_else; apply Hi in H5.
  - exists Completed. apply completed_says, (turn_parts t1 t3 id user r u1 u2 Completed o (fun o => o = Done tt) H1 H3 H5) in H6. exact H6.
  - set (s := match e with LlmErrors.CancelledError => Cancelled | _ => Failed end). exists s.
    assert (H7 : ends_as id s u2 o (fun o => o = Threw e)) by (unfold s; destruct e; by eapply interrupted_says).
    apply (turn_parts t1 t3 id user r u1 u2 s o _ H1 H3 H5) in H7. destruct H7 as [(Hb & Hc & ->)|H7]; [left|by right].
    split_and!; [done..|]. unfold s. destruct e; cbn; eauto; eexists; (split; [done|done]).
Qed.

(** C36: How a turn ends is said once and alike.  Whatever the model, the tools, the
    journal, the hooks and the host do, a turn either fails before it is announced,
    and then neither events nor journal say anything of it, and the caller gets the
    failure; or it is announced once.  Then, when its end is announced, it is
    announced once, after it was written to the journal once and successfully with
    the same status (or the journal had no turn open, as after a prompt that was
    refused), and the caller sees that status: a normal return, a cancellation, or
    another exception.  When its end is not announced, at most one write was tried,
    and the caller gets the exception that prevented it: a cancellation, the failure
    of that write, or, after a turn that completed, of the delivery of background
    reports. *)
Theorem turn_ends_alike vision message attachments fuel t o :
  runs (process_message_stream (request := request) self f vision message attachments fuel) t o -> turn_told t o.
Proof. apply run_recorded, impl_quiet. Qed.

(** ** Refused prompts *)

(** What reaches the conversation, the model or the tools. *)
Definition touches (e : event answer) : bool :=
  match e with
  | Prog.Ev (StartTurn _) _ | Prog.Ev StartContinuation _ | Prog.Ev (Inner (AppendUser _)) _ | Prog.Ev (Inner (RecordContext _)) _
  | Prog.Ev (Inner (Stream _)) _ | Prog.Ev (Inner (RunTools _)) _ => true
  | _ => false
  end.
Definition untouched (e : event answer) : Prop := touches e = false.
(** What a trace does to the conversation, the model and the tools, in order. *)
Definition touching (t : list (event answer)) : list (event answer) := List.filter touches t.
Lemma untouched_none t : Forall untouched t -> touching t = [].
Proof. induction 1 as [|e t He _ IH]; [done|]. unfold touching. cbn. by rewrite He. Qed.
Lemma touching_app t t' : touching (t ++ t') = touching t ++ touching t'.
Proof. apply filter_app. Qed.

(** The message [sent] is appended before anything else, if anything happens; when
    that fails nothing follows. *)
Definition appends (sent : list (@block other)) (l : list (event answer)) : Prop :=
  match l with
  | [] => True
  | Prog.Ev (Inner (AppendUser b)) r :: l' => b = sent /\ (forall e, r = Raise e -> l' = [])
  | _ => False
  end.
(** A prompt with the content [sent] enters: with a journal it is recorded first, as
    it is then appended. *)
Definition enters (sent : list (@block other)) (l : list (event answer)) : Prop :=
  if recorder self
  then match l with
       | Prog.Ev (StartTurn b) r :: l' => b = sent /\ (forall e, r = Raise e -> l' = []) /\ appends sent l'
       | _ => False
       end
  else l <> [] /\ appends sent l.

Lemma appended blocks (k : unit -> program unit) t o :
  runs (bind (Do (Inner (AppendUser blocks)) (of_result (answer := answer) (exn := raised))) k) t o -> touching t <> [] /\ appends blocks (touching t).
Proof.
  intros (r & t1 & -> & H). split; [done|]. cbn. split; [done|]. intros e ->. by destruct H as [-> _].
Qed.
Lemma record_context_untouched : emits untouched (record_context (other := other) (request := request)).
Proof. unfold record_context. repeat first [apply emits_bind; [|intros ?] | apply emits_Do; [done|intros ?] | apply emits_of_result]. Qed.
Lemma send_enters blocks fuel t o : runs (send (request := request) self f blocks fuel) t o -> enters blocks (touching t).
Proof.
  unfold send, enters. destruct (recorder self); [|cbn [bind]; apply appended].
  intros [(t0 & t2 & [] & -> & H1 & H2)|(e & H & _)]%runs_bind.
  - destruct H1 as (r & t3 & -> & H1). destruct r as [[]|e]; [|by destruct H1 as [_ [=]]]. cbn [of_result bind] in H1.
    apply record_context_untouched, untouched_none in H1. cbn. fold (touching (t3 ++ t2)). rewrite touching_app, H1. split_and!; [done..|].
    by apply appended in H2 as [_ H2].
  - destruct H as (r & t3 & -> & H). cbn. fold (touching t3). destruct r as [[]|x]; cbn [of_result bind] in H.
    + apply record_context_untouched, untouched_none in H as ->. by split_and!.
    + by destruct H as [-> _].
Qed.
Lemma refuse_untouched why code : emits untouched (refuse (request := request) self f why code).
Proof.
  unfold refuse, _record_synthetic_notice. apply emits_bind.
  - destruct (recorder self); [|apply emits_Ret]. apply emits_Do; [done|]. intros []; [apply emits_Ret|apply emits_Throw].
  - intros []. apply emits_Do; [done|]. intros u. unfold AgentTurn.yield. apply emits_bind; [|intros []; [apply emits_Ret|apply emits_Throw]].
    unfold hand. apply emits_catch; [|intros e; apply emits_Ret]. apply emits_bind.
    + unfold _mirror_stream_chunk. destruct (_ && _); [apply emits_Ret|]. unfold AgentTurn.except_Exception. apply emits_catch.
      * apply emits_Do; [done|]. intros r. apply emits_of_result.
      * intros []; first [apply emits_Throw | apply emits_Ret].
    + intros []. apply emits_Do; [done|]. intros r. apply emits_Ret.
Qed.

(** The hooks on prompts let it pass, with what they add. *)
Definition let_pass (submit : HookOutcome) (blocks sent : list (@block other)) : Prop :=
  blocked submit || end_turn submit = false
  /\ sent = blocks ++ match additional_context submit with Some (c :: s) => [TextBlock (c :: s)] | _ => [] end.


(** ** Interruptions *)

(** The conversation after what was appended. *)
Definition applied (c : @Conversation other) (t : list (event answer)) : @Conversation other :=
  fold_left (fun c e => match e with Prog.Ev (Inner (AppendUser l)) (Ok _) => append_user (Blocks l) c | _ => c end) t c.
(** The history is that of [c], and the journal returns the results that it is given. *)
Definition honest (c : @Conversation other) (e : event answer) : Prop :=
  match e with
  | Prog.Ev History h => h = _history c
  | Prog.Ev (Inner (RecordResults l)) (Ok l', _) => l' = l
  | _ => True
  end.

Definition same_call (a b : ToolCall) : bool := same_execution (call_execution_id a) (id a) (call_execution_id b) (id b).
Definition results_of (h : list Message) : list ToolResult := flat_map (fun m => omap block_result (blocks_of m)) h.
(** Calls of different executions, none of which has a result already. *)
Definition separate (c : @Conversation other) : Prop :=
  ForallOrdPairs (fun a b => same_call a b = false) (unsettled (_history c))
  /\ forall call r, call ∈ unsettled (_history c) -> r ∈ results_of (_history c) -> same_tool_execution call r = false.

Lemma replace_first_none {A} (g : A -> bool) x l : Forall (fun y => g y = false) l -> replace_first g x l = None.
Proof. induction 1 as [|y l Hy _ IH]; [done|]. cbn. by rewrite Hy, IH. Qed.
Lemma extract_first_none {A} (g : A -> bool) l : Forall (fun y => g y = false) l -> extract_first g l = None.
Proof. induction 1 as [|y l Hy _ IH]; [done|]. cbn. by rewrite Hy, IH. Qed.

Lemma split_results_separate rs : forall acc, ForallOrdPairs (fun a b => same_result_execution a b = false) (acc ++ rs) ->
  fold_left (fun acc b => match b with
     | ResultBlock r => match replace_first (fun existing => same_result_execution existing r) r (fst acc) with
                        | Some l => (l, snd acc) | None => (fst acc ++ [r], snd acc) end
     | _ => (fst acc, snd acc ++ [b]) end) (map ResultBlock rs) (acc, ([] : list (@block other))) = (acc ++ rs, []).
Proof.
  induction rs as [|r rs IH]; intros acc H; [by rewrite app_nil_r|]. cbn [map fold_left fst snd].
  rewrite replace_first_none.
  - rewrite (IH (acc ++ [r])); by rewrite <- app_assoc.
  - clear IH. induction acc as [|a acc IHa]; [done|]. cbn in H. inversion H as [|x l Hx Hl]; subst. apply list.Forall_cons. split; [|by apply IHa].
    rewrite list.Forall_forall in Hx. apply Hx, list.elem_of_app. right. by left.
Qed.

Definition unmatched_by (rs : list ToolResult) (old : ToolResult) : Prop := Forall (fun r => same_result_execution old r = false) rs.
Lemma reconcile_blocks_none rs bs : Forall (unmatched_by rs) (omap block_result bs) -> reconcile_blocks bs rs = (bs, false, rs).
Proof.
  induction bs as [|b bs IH]; intros H; [done|]. destruct b as [t|c|old|o]; cbn in H |- *; try (by rewrite IH).
  apply list.Forall_cons in H as [Ho H]. by rewrite extract_first_none, IH.
Qed.
Lemma reconcile_none rs h : Forall (unmatched_by rs) (results_of h) -> reconcile h rs = (h, rs).
Proof.
  induction h as [|m h IH]; intros H; [done|]. unfold results_of in H. cbn [flat_map] in H. apply Forall_app in H as [Hm H]. cbn [reconcile].
  unfold blocks_of in Hm. destruct (role_of m), (content_of m) as [x|l]; try (by rewrite IH).
  rewrite reconcile_blocks_none by done. by rewrite IH.
Qed.
Lemma append_results rs c : rs <> [] -> ForallOrdPairs (fun a b => same_result_execution a b = false) rs ->
  Forall (unmatched_by rs) (results_of (_history c)) ->
  _history (append_user (Blocks (map ResultBlock rs)) c) = _history c ++ [mkMessage User (Blocks (map ResultBlock rs)) None [] [] None].
Proof.
  intros Hn Hp Hu. unfold append_user, split_results. rewrite (split_results_separate rs []) by done. destruct rs as [|r rs]; [done|]. cbn [app nonempty].
  rewrite reconcile_none by done. rewrite app_nil_r. cbn. destruct c. done.
Qed.

Lemma open_calls_app l : forall a b, open_calls l (a ++ b) = List.filter (fun c => negb (existsb (same_tool_execution c) a)) (open_calls (other := other) l b).
Proof.
  induction l as [|m l IH]; intros a b; [done|]. cbn [open_calls]. rewrite <- app_assoc. destruct (role_of m); try apply IH.
  generalize (b ++ omap block_result (blocks_of m)). intros x. induction (tool_calls m) as [|c cs IHc]; [done|]. cbn.
  rewrite existsb_app. destruct (existsb (same_tool_execution c) x) eqn:E; cbn; rewrite ?orb_true_r, ?orb_false_r; cbn; [done|].
  destruct (existsb (same_tool_execution c) a); cbn; by rewrite IHc.
Qed.
Lemma omap_results (rs : list ToolResult) : omap block_result (map ResultBlock rs) = rs.
Proof. induction rs as [|r rs IH]; [done|]. cbn. by rewrite IH. Qed.
Lemma unsettled_answered (h : list Message) (rs : list ToolResult) : (forall c, c ∈ unsettled h -> existsb (same_tool_execution c) rs = true) ->
  unsettled (h ++ [mkMessage User (Blocks (map ResultBlock rs)) None [] [] None]) = [].
Proof.
  intros H. unfold unsettled. rewrite rev_app_distr. cbn [rev app open_calls role_of blocks_of content_of]. rewrite omap_results.
  rewrite <- (app_nil_r rs), open_calls_app. fold (unsettled h). revert H. induction (unsettled h) as [|c l IH]; intros H; [done|].
  cbn. rewrite H by left. cbn. apply IH. intros d Hd. apply H. by right.
Qed.

Lemma error_results_separate text l : ForallOrdPairs (fun a b => same_call a b = false) l ->
  ForallOrdPairs (fun a b => same_result_execution a b = false) (map (error_result (other := other) text) l).
Proof.
  induction 1 as [|a l Ha _ IH]; [constructor|]. constructor; [|done]. apply list.Forall_forall. intros r Hr.
  apply list_elem_of_In, in_map_iff in Hr as (b & <- & Hb). rewrite list.Forall_forall in Ha. by apply Ha, list_elem_of_In.
Qed.
Lemma same_execution_comm e i e' i' : same_execution e i e' i' = same_execution e' i' e i.
Proof. 
  assert (Hs : forall a b, str_eqb a b = str_eqb b a).
  { intros a b. destruct (str_eqb a b) eqn:E; symmetry; [by apply str_eqb_eq in E as ->; apply str_eqb_eq|].
    destruct (str_eqb b a) eqn:E'; [|done]. apply str_eqb_eq in E' as ->. by rewrite (proj2 (str_eqb_eq a a) eq_refl) in E. }
  unfold same_execution. destruct e, e'; apply Hs.
Qed.

(** The results of open calls follow the history, and close them. *)
Lemma settled_history c : separate c -> unsettled (_history c) <> [] ->
  let rs := map (error_result INTERRUPTED) (unsettled (_history c)) in
  _history (append_user (Blocks (map ResultBlock rs)) c) = _history c ++ [mkMessage User (Blocks (map ResultBlock rs)) None [] [] None].
Proof.
  intros [Hp Hf] Hn. apply append_results.
  - intros E. by apply map_eq_nil in E.
  - by apply error_results_separate.
  - apply list.Forall_forall. intros old Hold. apply list.Forall_forall. intros r Hr. apply list_elem_of_In, in_map_iff in Hr as (call & <- & Hc).
    rewrite <- (Hf call old) by (done || by apply list_elem_of_In). unfold same_result_execution, same_tool_execution. apply same_execution_comm.
Qed.
Lemma settled_closes c : separate c -> unsettled (_history c) <> [] ->
  unsettled (_history (append_user (Blocks (map ResultBlock (map (error_result INTERRUPTED) (unsettled (_history c))))) c)) = [].
Proof.
  intros Hs Hn. rewrite settled_history by done. apply unsettled_answered. intros call Hc. apply existsb_exists. exists (error_result INTERRUPTED call).
  split; [by apply in_map, list_elem_of_In|]. apply ConversationFacts.same_execution_refl.
Qed.

(** What a commit that succeeds appends. *)
Lemma append_applied c l (b : bool) t :
  runs (drive (request := request) (Do (AppendUser l) (fun r => bind (lift f r) (fun _ =>
    bind (if recorder self && acknowledge_tool_results self then Do AcknowledgeResults (lift f) else Ret tt) (fun _ =>
    if b then Throw (f, CancelledError) else Ret tt))))) t (Done tt) ->
  applied c t = append_user (Blocks l) c.
Proof.
  intros (r & t1 & -> & H). destruct r as [[]|e]; [|by destruct H as [_ [=]]]. unfold applied. cbn [fold_left].
  cbn [lift bind] in H. destruct (recorder self && acknowledge_tool_results self); cbn in H.
  - destruct H as ([[]|e] & t2 & -> & H); [|by destruct H as [_ [=]]]. cbn in H. destruct b; destruct H as [Ht H]; subst; [discriminate H|reflexivity].
  - destruct b; destruct H as [Ht H]; subst; [discriminate H|reflexivity].
Qed.
Lemma commit_applied c rs t : runs (drive (request := request) (_commit_tool_results self f rs)) t (Done tt) -> Forall (honest c) t ->
  applied c t = append_user (Blocks (map ResultBlock rs)) c.
Proof.
  unfold _commit_tool_results. intros H Hh. destruct (recorder self) eqn:Er.
  - destruct H as ([r b] & t1 & -> & H). destruct r as [l|e]; [|by destruct H as [_ [=]]]. cbn [lift bind] in H.
    apply list.Forall_cons in Hh as [Hl _]. cbn in Hl. subst l. change (applied c (_ :: t1)) with (applied c t1).
    apply (append_applied c _ b). rewrite Er. exact H.
  - apply (append_applied c _ false). rewrite Er. exact H.
Qed.

End Facts.

(** ** A concrete turn *)

Module Sample.
#[export] Existing Instance AgentLoopFacts.Sample.outside.
Abbreviation effect := (@AgentTurn.effect Empty_set unit).
Abbreviation answer := (@AgentTurn.answer Empty_set unit).
Abbreviation Message := (@Message Empty_set).
Definition reply := AgentLoopFacts.Sample.reply.
Definition self : agent := AgentLoopFacts.Sample.self.
Definition start : frame := AgentLoopFacts.Sample.start.

(** [journal] is what the journal answers to the end of a turn, [history] the
    history. *)
Definition host (journal : result (raised Message) unit) (history : list Message) (a : effect) (w : list reply) : answer a * list reply :=
  match a return answer a * list reply with
  | Inner e => AgentLoopFacts.Sample.host AgentLoopFacts.Sample.plain AgentLoopFacts.Sample.finished e w
  | Hand _ | CurrentTurn => (true, w)
  | Recancelled => (false, w)
  | FinishTurn _ _ => ((journal, false), w)
  | History => (history, w)
  | NewId => (lit "t1", w)
  | PendingVolatile => (Ok None, w)
  | AssistantDelta _ _ _ _ | Boundary _ _ _ _ | RefreshMemory | StartTurn _ | StartContinuation | RecordSystemContext | RecordToolDefinitions => (Ok tt, w)
  end.
Definition turn : prog answer (raised Message) unit := process_message_stream self start true (lit "Please look.") None 4.
Definition prompt : prog answer (raised Message) unit := _process_message_stream_impl self start true (lit "Please look.") None 4.

(** A reply with a call that was not answered. *)
Definition open_conversation : @Conversation Empty_set :=
  init [text_message User (lit "Please look."); AgentLoopFacts.Sample.says "tool_use" "" [AgentLoopFacts.Sample.call]] 1000.
End Sample.

Lemma turn_ends_alike_witness :
  let r := exec (Sample.host (Ok tt) []) Sample.turn [AgentLoopFacts.Sample.calls_read] in
  let t := r.1.1 in let o := r.1.2 in
  turn_told Sample.self t o /\ boundaries t = told true (lit "t1") Completed /\ finishes t = [(Completed, true)] /\ o = Done tt.
Proof.
  split_and!; [|vm_compute; reflexivity..].
  exact (turn_ends_alike Sample.self Sample.start true (lit "Please look.") None 4 _ _
           (exec_runs (Sample.host (Ok tt) []) Sample.turn [AgentLoopFacts.Sample.calls_read])).
Defined.



(** When the journal fails to end a turn that is complete, its end is never told. *)
Lemma end_never_told :
  let r := exec (Sample.host (Raise (Persistence (lit "disk full"))) []) Sample.turn [] in
  boundaries r.1.1 = told false (lit "t1") Completed /\ r.1.2 = Threw (Persistence (lit "disk full")).
Proof. split; vm_compute; reflexivity. Qed.
