(* ===== verification/Compression.v ===== *)
(** * History compression

    Models [kolega_code/agent/compression.py], [compress_history] of
    [kolega_code/agent/baseagent.py], and the image placeholders of
    [kolega_code/agent/conversation.py]: the part of a history that has aged out is
    told to the model as a transcript, which gives a summary in its place.  When the
    request is too large, messages are left out of the middle of the transcript.

    An exception carries the conversation as it was when it was raised.  The
    conversation is not changed by others meanwhile.  [half_target kept budget
    counted] is the integer part of half of what the floating-point expression
    [kept * budget / counted * 0.9] comes to: as many characters are kept at either
    end.  Of the other blocks, [other_text] and [other_thinking] are the attributes
    and [media_type] that of an image; [inner_text] makes a text block.
    [build_compression_summary_user_prompt] is a template.  The arguments of calls are
    decoded JSON, which [json.dumps] accepts. *)

From stdpp Require Import base list strings numbers.
From Stdlib Require Import ZArith Lia.
From S2P Require Import Prelude PyStr PyVal Json Permissions Conversation Prog.
From S2P Require LlmErrors AgentLoop.
Import LlmErrors(raised, Llm, Foreign, llm_error).

(** [sum]. *)
Definition total (l : list Z) : Z := foldr Z.add 0 l.

Section Compression.
Context {other : Type}.
Abbreviation Message := (@Message other).
Abbreviation Conversation := (@Conversation other).
Abbreviation raised := (raised Message).
Variables other_text other_thinking media_type : other -> option str.
Variable inner_text : str -> other.
Variable float_repr : Z -> Z -> str.
Variable half_target : Z -> Z -> Z -> Z.
Variable build_compression_summary_user_prompt : str -> option str -> str.
Variable COMPRESSION_SUMMARY_SYSTEM_PROMPT : str.

Record CompactionResult := mkResult { ok : bool; reason : str; summarized_messages : Z; message : str }.

(** ** The transcript *)

Definition _image_placeholder (media model : str) : str :=
  lit "[An image (" ++ media ++ lit ") was shared earlier in this thread but is not visible to " ++ model ++ lit ".]".
Definition replace_inner (model : str) (o : other) : other :=
  match media_type o with Some m => inner_text (_image_placeholder m model) | None => o end.
Definition is_image (o : other) : bool := match media_type o with Some _ => true | None => false end.
Definition replace_block (model : str) (b : @block other) : @block other :=
  match b with
  | OtherBlock o => match media_type o with Some m => TextBlock (_image_placeholder m model) | None => b end
  | ResultBlock r =>
      match result_content_of r with
      | ResultBlocks l =>
          ResultBlock (Conversation.mkResult (tool_use_id r) (ResultBlocks (map (replace_inner model) l)) (result_name r) (is_error r)
                         (result_execution_id r) (result_input_kind r) (error_kind r))
      | ResultText _ => b
      end
  | b => b
  end.
Definition has_image (b : @block other) : bool :=
  match b with
  | OtherBlock o => is_image o
  | ResultBlock r => match result_content_of r with ResultBlocks l => existsb is_image l | ResultText _ => false end
  | _ => false
  end.
(** A message without images stays the same object. *)
Definition replace_images (model : str) (m : Message) : Message :=
  match content_of m with
  | Blocks l =>
      if existsb has_image l
      then let l := map (replace_block model) l in
           mkMessage (role_of m) (Blocks l) (stop_reason m) (omap block_call l) (usage_metadata m) (usage m)
      else m
  | Plain _ => m
  end.
Definition replace_image_blocks_with_placeholders (l : list Message) (model : str) : list Message := map (replace_images model) l.

Definition role_value (r : role) : str := match r with System => lit "system" | User => lit "user" | Assistant => lit "assistant" end.
Definition json (ensure_ascii : bool) (v : value) : str := dumps float_repr ensure_ascii (lit ", ") (lit ": ") v.
Definition text_or_empty (o : other) : str := default [] (other_text o).
Definition RIGHT_ARROW : Z := 8594.
Definition headed (who text : str) : str := lit "[" ++ who ++ lit "]" ++ [NL] ++ text.
Definition render_block (r : role) (b : @block other) : option str :=
  match b with
  | CallBlock c => Some (lit "[assistant " ++ [RIGHT_ARROW] ++ lit " " ++ call_name c ++ lit "] " ++ json false (input c))
  | ResultBlock res =>
      let body := match result_content_of res with ResultText s => s | ResultBlocks l => join [NL] (map text_or_empty l) end in
      Some (headed (result_name res ++ lit " " ++ lit (if is_error res then "error" else "result")) body)
  | TextBlock t => if nonempty t then Some (headed (role_value r) t) else None
  | OtherBlock o =>
      match other_text o, other_thinking o with
      | Some (c :: t), _ => Some (headed (role_value r) (c :: t))
      | _, Some (c :: t) => Some (headed (role_value r ++ lit " thinking") (c :: t))
      | _, _ => None
      end
  end.
Definition render_message (m : Message) : list str :=
  match content_of m with
  | Plain s => if nonempty s then [headed (role_value (role_of m)) s] else []
  | Blocks l => omap (render_block (role_of m)) l
  end.
Definition render_transcript (l : list Message) : str := join [NL; NL] (flat_map render_message l).
Definition _omission_notice (omitted : Z) : str :=
  lit "[... " ++ dec omitted ++ lit " conversation message(s) omitted here so the compaction request fits the context budget ...]".

Definition block_chars (b : @block other) : Z :=
  match b with
  | CallBlock c => len (json true (input c))
  | ResultBlock r => match result_content_of r with ResultText s => len s | ResultBlocks l => total (map (fun o => len (text_or_empty o)) l) end
  | TextBlock t => len t
  | OtherBlock o => len (text_or_empty o) + len (default [] (other_thinking o))
  end.
Definition _approx_message_chars (m : Message) : Z :=
  match content_of m with Plain s => len s | Blocks l => total (map block_chars l) end.

(** ** The gap *)

(** How many of the weights, from the first, come to at most [half]. *)
Fixpoint fitting (ws : list Z) (acc half : Z) : nat :=
  match ws with w :: ws' => if half <? acc + w then O else S (fitting ws' (acc + w) half) | [] => O end.
(** [(head_end, tail_start)]. *)
Definition gap : Type := Z * Z.
Definition _middle_gap (weights : list Z) (half : Z) : gap :=
  let head_end := fitting weights 0 half in
  (Z.of_nat head_end, len weights - Z.of_nat (fitting (rev (drop head_end weights)) 0 half)).
Definition _bundles_tool_results (m : Message) : bool :=
  match content_of m with Blocks l => existsb (fun b => match b with ResultBlock _ => true | _ => false end) l | Plain _ => false end.
Definition gap_eqb (a b : gap) : bool := (a.1 =? b.1) && (a.2 =? b.2).

Definition MIN_MESSAGES_TO_COMPRESS : Z := 5.
Definition KEEP_RECENT_MESSAGES : Z := 6.
Definition MIN_PREFIX_TO_SUMMARIZE : Z := 3.
Definition SUMMARY_EMPTY_ATTEMPTS : nat := 3.
Definition MAX_FIT_ATTEMPTS : nat := 6.

(** ** A pass *)

(** [summary_request]: the system prompt and the user's. *)
Definition summary_request : Type := str * str.
Inductive effect :=
| Info (text : str)                    (* [on_info] *)
| ErrorLog (text : str)                (* [on_error] *)
| CountTokens (r : summary_request)
| StreamSummary (r : summary_request)
| CompactionStatus (phase text summary : str)
| LoadPrompt                           (* the override of the system prompt, if it can be rendered *)
| ForgetVolatile
| RecordCompaction (state : str * Z * Z) (trigger reason : str) (summarized before : Z)
| CountContext.
Definition answer (e : effect) : Type :=
  match e with
  | CountTokens _ => result raised Z
  | StreamSummary _ => result raised Message
  | LoadPrompt => result raised (option str)
  | _ => result raised unit
  end.
Abbreviation program := (prog answer (Conversation * raised)).

Definition lift {A} (c : Conversation) (r : result raised A) : program A := match r with Ok x => Ret x | Raise e => Throw (c, e) end.
Abbreviation await c a := (Do a (lift c)).

(** The arguments of [summarize]. *)
Record pass := {
  model : str;
  on_info : bool;
  on_error : bool;
  system_prompt_text : option str;
  keep_recent : option Z;
  max_input_tokens : option Z
}.

Section Pass.
Variable p : pass.
Variable c : Conversation.

Definition info (c : Conversation) (text : str) : program unit := if on_info p then await c (Info text) else Ret tt.
Definition error (c : Conversation) (text : str) : program unit := if on_error p then await c (ErrorLog text) else Ret tt.

Section Request.
Variables prior_through split : Z.
Definition prefix : list Message := replace_image_blocks_with_placeholders (slice (_history c) prior_through split) (model p).
Definition weights : list Z := map _approx_message_chars prefix.
Definition previous_summary : option str := option_map (get_text_content other_text) (summary c).
Definition build_request (g : gap) : summary_request :=
  let omitted := g.2 - g.1 in
  let transcript :=
    if omitted =? 0 then render_transcript prefix
    else join [NL; NL] (List.filter (fun s => nonempty s)
                          [render_transcript (slice_to prefix g.1); _omission_notice omitted; render_transcript (slice_from prefix g.2)]) in
  (match system_prompt_text p with Some (x :: s) => x :: s | _ => COMPRESSION_SUMMARY_SYSTEM_PROMPT end,
   build_compression_summary_user_prompt transcript previous_summary).

(** [while new_head < new_tail < len(prefix)] the tail starts with results. *)
Fixpoint skip_results (rest : list Message) (tail : Z) : Z :=
  match rest with m :: rest' => if _bundles_tool_results m then skip_results rest' (tail + 1) else tail | [] => tail end.
Definition kept_chars (g : gap) : Z := total (slice_to weights g.1) + total (slice_from weights g.2).
Definition next_gap (g : gap) (budget counted : Z) : gap :=
  let '(h, t) := _middle_gap weights (half_target (kept_chars g) budget counted) in
  let h := snap_split_point c (prior_through + h) - prior_through in
  (h, if h <? t then skip_results (slice_from prefix t) t else t).
Fixpoint widen_gap_until_fits (attempts : nat) (budget : Z) (g : gap) : program gap :=
  match attempts with
  | O => Ret g
  | S attempts =>
      bind (await c (CountTokens (build_request g))) (fun counted =>
      if counted <=? budget then Ret g
      else let g' := next_gap g budget counted in
           if gap_eqb g' g then Ret g else widen_gap_until_fits attempts budget g')
  end.

Definition assertion : raised :=
  Foreign (LlmErrors.mkForeign LlmErrors.OtherException (lit "AssertionError") [] VNone None VNone VNone VNone None VNone VNone).
Definition too_large (e : raised) : bool :=
  match e with Llm e => match LlmErrors.cls e with LlmErrors.LLMContextWindowExceededError => true | _ => false end | _ => false end.
(** The budgets of the rungs, and whether there is a limit: without one the request
    is sent as it is, and a rejection is an error. *)
Definition rungs : list (option Z) :=
  match max_input_tokens p with Some n => map (fun tenths => Some (n * tenths / 10)) [10; 9; 8; 7; 6; 5; 4; 3; 2; 1] | None => [None] end.
Fixpoint ladder (l : list (option Z)) (g : gap) (dispatched : option gap) (last_error : option raised) : program (Message * gap) :=
  match l with
  | [] => Throw (c, default assertion last_error)
  | rung :: l =>
      bind (match rung with Some budget => widen_gap_until_fits MAX_FIT_ATTEMPTS budget g | None => Ret g end) (fun g =>
      if match rung, dispatched with Some _, Some d => gap_eqb d g | _, _ => false end then ladder l g dispatched last_error
      else
        Do (StreamSummary (build_request g)) (fun r : result raised Message =>
        match r with
        | Ok m => Ret (m, g)
        | Raise e => if too_large e && match rung with Some _ => true | None => false end then ladder l g (Some g) (Some e) else Throw (c, e)
        end))
  end.

Definition stop_note (m : Message) : str :=
  match stop_reason m with Some (x :: s) => lit " (stop_reason=" ++ (x :: s) ++ lit ")" | _ => [] end.
Definition done_message (folded : Z) : str :=
  lit "Compressed " ++ dec folded ++ lit " older message(s) into a summary; kept the latest turns verbatim.".
(** [more] attempts are left after this one. *)
Fixpoint read_summary (more : nat) (g : gap) (response : Message) : program (CompactionResult * Conversation) :=
  let text := get_text_content other_text response in
  if nonempty text && nonempty (strip text) then
    let folded := split - prior_through in
    let c' := apply_compaction text split c in
    bind (info c' (done_message folded)) (fun _ => Ret (mkResult true (lit "ok") folded (done_message folded), c'))
  else
    let why := lit "Compression produced an empty summary" ++ stop_note response in
    match more with
    | O =>
        bind (error c (why ++ lit "; history left unchanged.")) (fun _ =>
        Ret (mkResult false (lit "empty_summary") 0 (why ++ lit "; history left unchanged."), c))
    | S more =>
        bind (info c (why ++ lit "; retrying (" ++ dec (Z.of_nat (SUMMARY_EMPTY_ATTEMPTS - more)) ++ lit "/" ++ dec (Z.of_nat SUMMARY_EMPTY_ATTEMPTS)
                      ++ lit ").")) (fun _ =>
        bind (await c (StreamSummary (build_request g))) (fun response => read_summary more g response))
    end.

(** The [try] block. *)
Definition whole : gap := (len prefix, len prefix).
Definition attempt_pass : program (CompactionResult * Conversation) :=
  bind (ladder rungs whole None None) (fun '(response, g) => read_summary (pred SUMMARY_EMPTY_ATTEMPTS) g response).
End Request.

(** [except Exception]. *)
Definition on_failure (x : Conversation * raised) : program (CompactionResult * Conversation) :=
  match x.2 with
  | LlmErrors.CancelledError => Throw x
  | e =>
      let why := lit "Failed to compress message history: " ++ AgentLoop.type_name e ++ lit ": " ++ AgentLoop.str_of e in
      bind (error x.1 why) (fun _ => Ret (mkResult false (lit "llm_error") 0 why, x.1))
  end.
Definition refused (why : string) (text : str) : program (CompactionResult * Conversation) := Ret (mkResult false (lit why) 0 text, c).
Definition summarize : program (CompactionResult * Conversation) :=
  let n := len (_history c) in
  if n <? MIN_MESSAGES_TO_COMPRESS then
    refused "too_few" (lit "Nothing to compress yet (" ++ dec n ++ lit " message(s); need at least " ++ dec MIN_MESSAGES_TO_COMPRESS ++ lit ").")
  else
    let split := compaction_split_point c (default KEEP_RECENT_MESSAGES (keep_recent p)) MIN_PREFIX_TO_SUMMARIZE in
    let prior_through := match summary c with Some _ => compacted_through c | None => 0 end in
    match split with
    | Some split =>
        if split <=? prior_through then refused "nothing_to_summarize" (lit "Already compact " ++ [AgentLoop.EM_DASH] ++ lit " no older messages to summarize.")
        else bind (info c (lit "Compressing message history...")) (fun _ => catch (attempt_pass prior_through split) on_failure)
    | None => refused "nothing_to_summarize" (lit "Already compact " ++ [AgentLoop.EM_DASH] ++ lit " no older messages to summarize.")
    end.
End Pass.

(** ** The agent's part *)

Definition compress_history (recorder : bool) (model : str) (model_max_input_tokens : Z) (trigger : str) (tokens_before : Z) (keep_recent : option Z)
    (c : Conversation) : program (CompactionResult * Conversation) :=
  bind (await c (CompactionStatus (lit "started") (lit "Compacting conversation" ++ [LlmErrors.ELLIPSIS]) [])) (fun _ =>
  let body :=
    bind (await c LoadPrompt) (fun prompt =>
    bind (summarize {| model := model; on_info := true; on_error := true; system_prompt_text := prompt; keep_recent := keep_recent;
                       max_input_tokens := Some model_max_input_tokens |} c) (fun '(r, c) =>
    if ok r then
      Do ForgetVolatile (fun _ : result raised unit =>
      bind (if recorder
            then await c (RecordCompaction (dump_compaction other_text c) trigger (reason r) (summarized_messages r) tokens_before)
            else Ret tt) (fun _ => Ret (r, c)))
    else Ret (r, c))) in
  bind (try_else body
          (fun x => bind (await x.1 CountContext) (fun _ => Throw x))
          (fun rc => bind (await rc.2 CountContext) (fun _ => Ret rc))) (fun '(r, c) =>
  let text := if ok r then match summary c with Some s => get_text_content other_text s | None => [] end else [] in
  bind (await c (CompactionStatus (lit (if ok r then "finished" else "error")) (message r) text)) (fun _ => Ret (r, c)))).
End Compression.
