(* ===== verification/CompressionFacts.v ===== *)
(** * Facts about history compression

    What a pass reports and does to the conversation, what its requests leave out,
    and how many there are. *)

From stdpp Require Import base list strings numbers.
From Stdlib Require Import ZArith Lia.
From S2P Require Import Prelude PyStr PyVal Json Permissions Conversation Prog Compression.
From S2P Require LlmErrors AgentLoop ConversationFacts.
Import LlmErrors(raised, Llm, Foreign, llm_error).

Section Facts.
Context {other : Type}.
Abbreviation Message := (@Message other).
Abbreviation Conversation := (@Conversation other).
Abbreviation raised := (raised Message).
Variables other_text other_thinking media_type : other -> option str.
Variable inner_text : str -> other.
Variable float_repr : Z -> Z -> str.
Variable half_target : Z -> Z -> Z -> Z.
Variable build_prompt : str -> option str -> str.
Variable system_prompt : str.
Abbreviation effect := (@effect).
Abbreviation answer := (@answer other).
Abbreviation program := (prog answer (Conversation * raised)).
Abbreviation Ev := (Ev (answer := answer)).
Abbreviation ladder := (ladder other_text other_thinking media_type inner_text float_repr half_target build_prompt system_prompt).
Abbreviation read_summary := (read_summary other_text other_thinking media_type inner_text float_repr build_prompt system_prompt).
Abbreviation attempt_pass := (attempt_pass other_text other_thinking media_type inner_text float_repr half_target build_prompt system_prompt).
Abbreviation summarize := (summarize other_text other_thinking media_type inner_text float_repr half_target build_prompt system_prompt).
Abbreviation widen := (widen_gap_until_fits other_text other_thinking media_type inner_text float_repr half_target build_prompt system_prompt).
Abbreviation build_request := (build_request other_text other_thinking media_type inner_text float_repr build_prompt system_prompt).
Variable p : pass.

(** ** What is raised where *)

(** Every exception of [m] carries the conversation [c]. *)
Definition carries {A} (c : Conversation) (m : program A) : Prop := forall t x, runs m t (Threw x) -> x.1 = c.
Lemma carries_Ret {A} c (a : A) : carries c (Ret a).
Proof. intros t x [_ [=]]. Qed.
Lemma carries_Throw {A} c e : carries c (Throw (A := A) (c, e)).
Proof. intros t x [_ [= ->]]. done. Qed.
Lemma carries_Do {A} c a (k : answer a -> program A) : (forall r, carries c (k r)) -> carries c (Do a k).
Proof. intros H t x (r & t' & -> & Hr). by eapply H. Qed.
Lemma carries_lift {A} c (r : result raised A) : carries c (lift c r).
Proof. destruct r; [apply carries_Ret|apply carries_Throw]. Qed.
Lemma carries_bind {A B} c (m : program A) (f : A -> program B) : carries c m -> (forall a, carries c (f a)) -> carries c (bind m f).
Proof. intros Hm Hf t x [(t1 & t2 & a & -> & H1 & H2)|(e & H & [= ->])]%runs_bind; [by eapply Hf|by eapply Hm]. Qed.
Lemma carries_info c text : carries c (info p c text).
Proof. unfold info. destruct (on_info p); [|apply carries_Ret]. apply carries_Do. intros r. apply carries_lift. Qed.
Lemma carries_error c text : carries c (error p c text).
Proof. unfold error. destruct (on_error p); [|apply carries_Ret]. apply carries_Do. intros r. apply carries_lift. Qed.

Lemma carries_widen c prior split attempts : forall budget g, carries c (widen p c prior split attempts budget g).
Proof.
  induction attempts as [|n IH]; intros budget g; cbn [widen_gap_until_fits]; [apply carries_Ret|].
  apply carries_bind; [apply carries_Do; intros r; apply carries_lift|]. intros counted. destruct (counted <=? budget); [apply carries_Ret|].
  cbv zeta. destruct (gap_eqb _ _); [apply carries_Ret|apply IH].
Qed.
Lemma carries_ladder c prior split l : forall g d e, carries c (ladder p c prior split l g d e).
Proof.
  induction l as [|rung l IH]; intros g d e; cbn [Compression.ladder]; [apply carries_Throw|].
  apply carries_bind; [destruct rung; [apply carries_widen|apply carries_Ret]|]. intros g'.
  destruct (match rung, d with Some _, Some d => gap_eqb d g' | _, _ => false end); [apply IH|]. apply carries_Do. intros [m|x]; [apply carries_Ret|].
  destruct (_ && _); [apply IH|apply carries_Throw].
Qed.

(** ** The outcome *)

(** The boundary of [c] moved to [split], with a summary that says something. *)
Definition compacted (c : Conversation) (split : Z) (c' : Conversation) : Prop :=
  exists text, nonempty (strip text) = true /\ c' = apply_compaction text split c.
Definition announced (prior split : Z) (t : list (event answer)) (e : raised) : Prop :=
  Ev (Info (done_message (split - prior))) (Raise e) ∈ t.

Lemma read_summary_outcome c prior split more : forall g response t o, runs (read_summary p c prior split more g response) t o ->
  match o with
  | Done (r, c') =>
      (ok r = true /\ reason r = lit "ok" /\ summarized_messages r = split - prior /\ compacted c split c')
      \/ (ok r = false /\ reason r = lit "empty_summary" /\ c' = c)
  | Threw x => x.1 = c \/ (compacted c split x.1 /\ announced prior split t x.2)
  end.
Proof.
  induction more as [|more IH]; intros g response t o; cbn [Compression.read_summary]; destruct (_ && _) eqn:E.
  all: try (apply andb_true_iff in E as [_ E]; unfold info; destruct (on_info p);
    [intros ([[]|e] & t' & -> & H); cbn in H; destruct H as [-> ->];
      [left; split_and!; try done; by eexists|right; split; [by eexists|left]]
    |intros [-> ->]; left; split_and!; try done; by eexists]).
  - intros [(t1 & t2 & [] & -> & H1 & [-> ->])|(x & H & ->)]%runs_bind; [by right|left; by eapply carries_error].
  - intros [(t1 & t2 & [] & -> & H1 & H2)|(x & H & ->)]%runs_bind; [|left; by eapply carries_info].
    apply runs_bind in H2 as [(t3 & t4 & m & -> & H3 & H4)|(x & H & ->)].
    + apply IH in H4. destruct o as [[r c']|x]; [done|]. destruct H4 as [H4|[H4 H5]]; [by left|right]. split; [done|].
      unfold announced. apply list.elem_of_app. right. apply list.elem_of_app. by right.
    + left. revert H. eapply carries_Do. intros r. apply carries_lift.
Qed.
Lemma attempt_outcome c prior split t o : runs (attempt_pass p c prior split) t o ->
  match o with
  | Done (r, c') =>
      (ok r = true /\ reason r = lit "ok" /\ summarized_messages r = split - prior /\ compacted c split c')
      \/ (ok r = false /\ reason r = lit "empty_summary" /\ c' = c)
  | Threw x => x.1 = c \/ (compacted c split x.1 /\ announced prior split t x.2)
  end.
Proof.
  unfold Compression.attempt_pass. intros [(t1 & t2 & [m g] & -> & H1 & H2)|(x & H & ->)]%runs_bind; [|left; by eapply carries_ladder].
  apply read_summary_outcome in H2. destruct o as [[r c']|x]; [done|]. destruct H2 as [H2|[H2 H3]]; [by left|right]. split; [done|].
  unfold announced. apply list.elem_of_app. by right.
Qed.

Definition prior_boundary (c : Conversation) : Z := match summary c with Some _ => compacted_through c | None => 0 end.
Definition split_of (c : Conversation) : option Z :=
  compaction_split_point c (default KEEP_RECENT_MESSAGES (keep_recent p)) MIN_PREFIX_TO_SUMMARIZE.
Definition reasons : list str := [lit "too_few"; lit "nothing_to_summarize"; lit "empty_summary"; lit "llm_error"].
(** What a pass may report, and the conversation after it. *)
Definition reported (c : Conversation) (t : list (event answer)) (r : CompactionResult) (c' : Conversation) : Prop :=
  (ok r = true /\ reason r = lit "ok" /\ exists split, split_of c = Some split /\ prior_boundary c < split
      /\ summarized_messages r = split - prior_boundary c /\ compacted c split c')
  \/ (ok r = false /\ reason r ∈ reasons /\ c' = c)
  \/ (ok r = false /\ reason r = lit "llm_error" /\ exists split e, announced (prior_boundary c) split t e /\ compacted c split c').

Lemma failure_outcome x t o : runs (on_failure p x) t o ->
  match o with
  | Done (r, c') => ok r = false /\ reason r = lit "llm_error" /\ c' = x.1
  | Threw y => y.2 = LlmErrors.CancelledError \/ exists text, Ev (ErrorLog text) (Raise y.2) ∈ t
  end.
Proof.
  unfold on_failure. intros H. assert (Hlog : forall why, runs (bind (error p x.1 why) (fun _ => Ret (mkResult false (lit "llm_error") 0 why, x.1))) t o ->
    match o with
    | Done (r, c') => ok r = false /\ reason r = lit "llm_error" /\ c' = x.1
    | Threw y => y.2 = LlmErrors.CancelledError \/ exists text, Ev (ErrorLog text) (Raise y.2) ∈ t
    end).
  { intros why. unfold error. destruct (on_error p); [|by intros [-> ->]]. intros ([[]|e] & t' & -> & Hr); cbn in Hr; destruct Hr as [-> ->]; [done|].
    right. eexists. left. }
  destruct x as [c e]; cbn [fst snd] in *. destruct e; try exact (Hlog _ H). destruct H as [-> ->]. by left.
Qed.

(** C39: A pass reports what it did.  Whatever the provider, the counter and the log
    answer, a pass never changes the history, and ends in a result unless it is
    cancelled or the log itself fails.  When the result says that it succeeded, a
    summary that is not blank stands for the messages up to the split point, which
    lies beyond the old boundary, and as many messages are reported; otherwise the
    conversation is as before - but for one case, in which the boundary moved and
    then the announcement of the success failed. *)
Theorem compaction_outcome c t o : runs (summarize p c) t o ->
  match o with
  | Done (r, c') => reported c t r c' /\ _history c' = _history c
  | Threw x => x.2 = LlmErrors.CancelledError \/ exists text, Ev (Info text) (Raise x.2) ∈ t \/ Ev (ErrorLog text) (Raise x.2) ∈ t
  end.
Proof.
  unfold Compression.summarize. fold (prior_boundary c) (split_of c).
  assert (Hrefused : forall why text, lit why ∈ reasons -> runs (refused (other := other) c why text) t o ->
    match o with Done (r, c') => reported c t r c' /\ _history c' = _history c
    | Threw x => x.2 = LlmErrors.CancelledError \/ exists text, Ev (Info text) (Raise x.2) ∈ t \/ Ev (ErrorLog text) (Raise x.2) ∈ t end).
  { intros why text Hw [-> ->]. split; [|done]. right. left. done. }
  destruct (len (_history c) <? MIN_MESSAGES_TO_COMPRESS); [apply Hrefused; left|].
  destruct (split_of c) as [split|] eqn:Es; [|apply Hrefused; right; left].
  destruct (Z.leb_spec split (prior_boundary c)) as [Hle|Hlt]; [apply Hrefused; right; left|].
  intros [(t1 & t2 & [] & -> & H1 & H2)|(x & H & ->)]%runs_bind.
  2: { right. unfold info in H. destruct (on_info p); [|by destruct H as [_ [=]]]. destruct H as ([[]|e] & t' & -> & H); cbn in H; [by destruct H as [_ [=]]|].
       destruct H as [-> [= ->]]. eexists. left. left. }
  assert (Hhist : forall c', compacted c split c' -> _history c' = _history c) by (intros c' (text & _ & ->); done).
  apply runs_catch in H2 as [([r c'] & H2 & ->)|(t3 & t4 & x & -> & H3 & H4)].
  - apply attempt_outcome in H2 as [(H3 & H4 & H5 & H6)|(H3 & H4 & ->)].
    + split; [left|by apply Hhist]. eauto 10.
    + split; [|done]. right. left. rewrite H4. split_and!; [done| |done]. right. right. left.
  - apply attempt_outcome in H3. apply failure_outcome in H4. destruct o as [[r c']|y].
    + destruct H4 as (H5 & H6 & ->). destruct H3 as [H3|[H3 H7]].
      * rewrite H3. split; [|done]. right. left. rewrite H6. split_and!; [done| |done]. right. right. right. left.
      * split; [|by apply Hhist]. right. right. split_and!; [done|done|]. exists split, x.2. split; [|done].
        unfold announced in *. apply list.elem_of_app. right. apply list.elem_of_app. by left.
    + destruct H4 as [H4|[text H4]]; [by left|]. right. exists text. right. apply list.elem_of_app. right. apply list.elem_of_app. by right.
Qed.

(** ** What a request leaves out *)

Abbreviation prefix := (prefix media_type inner_text p).
Abbreviation next_gap := (next_gap other_text other_thinking media_type inner_text float_repr half_target p).

Lemma fitting_le ws : forall acc half, (fitting ws acc half <= length ws)%nat.
Proof. induction ws as [|w ws IH]; intros acc half; cbn; [done|]. destruct (half <? acc + w); [lia|]. specialize (IH (acc + w) half). lia. Qed.
Lemma middle_gap_bounds ws half : let '(h, t) := _middle_gap ws half in 0 <= h <= t /\ t <= len ws.
Proof.
  unfold _middle_gap. cbv zeta. set (h := fitting ws 0 half). pose proof (fitting_le ws 0 half) as Hh. fold h in Hh.
  pose proof (fitting_le (rev (drop h ws)) 0 half) as Ht. rewrite length_rev, length_drop in Ht. unfold len. lia.
Qed.
Lemma skip_results_spec (l : list Message) : forall tail, exists n, skip_results l tail = tail + Z.of_nat n /\ (n <= length l)%nat
  /\ forall m, l !! n = Some m -> _bundles_tool_results m = false.
Proof.
  induction l as [|m l IH]; intros tail; cbn [skip_results]; [exists O; split_and!; [lia|done|done]|].
  destruct (_bundles_tool_results m) eqn:E.
  - destruct (IH (tail + 1)) as (n & -> & Hn & Hm). exists (S n). split_and!; [lia|cbn; lia|exact Hm].
  - exists O. split_and!; [lia|lia|]. by intros ? [= <-].
Qed.

(** A gap in the transcript of [c] from [prior] to [split] that separates no call
    from its results: what is kept before it does not end with calls, and what is
    kept after it does not begin with results. *)
Definition proper_gap (c : Conversation) (prior split : Z) (g : gap) : Prop :=
  0 <= g.1 <= g.2 /\ g.2 <= len (prefix c prior split)
  /\ (forall m, 0 < prior + g.1 -> _history c !! Z.to_nat (prior + g.1 - 1) = Some m -> calls_of m = [])
  /\ (forall m, g.1 < g.2 -> prefix c prior split !! Z.to_nat g.2 = Some m -> _bundles_tool_results m = false).
(** Nothing is left out, or a proper gap. *)
Definition fair_gap (c : Conversation) (prior split : Z) (g : gap) : Prop :=
  g = (len (prefix c prior split), len (prefix c prior split)) \/ proper_gap c prior split g.
(** A boundary that [snap_split_point] leaves in its place. *)
Definition settled_boundary (c : Conversation) (prior : Z) : Prop := 0 <= prior /\ snap_split_point c prior = prior.

Lemma snap_above c prior h : settled_boundary c prior -> 0 <= h -> prior <= snap_split_point c (prior + h) <= prior + h.
Proof.
  intros [Hp Hs] Hh. destruct (ConversationFacts.snap_split_spec c prior) as (H1 & _ & H3). rewrite Hs in H1, H3. clear Hs.
  destruct (ConversationFacts.snap_split_spec c (prior + h)) as (H4 & H5 & _). set (k := snap_split_point c (prior + h)) in *.
  split; [|lia]. destruct (Z_lt_le_dec k prior) as [Hk|]; [exfalso|lia].
  destruct (_history c !! Z.to_nat (prior - 1)) as [m|] eqn:Em.
  - apply (H5 (prior - 1) m); [lia|done|]. apply H3; [lia|done].
  - apply lookup_ge_None in Em. unfold len in *. lia.
Qed.
Lemma next_gap_proper c prior split g budget counted : settled_boundary c prior ->
  proper_gap c prior split (next_gap c prior split g budget counted).
Proof.
  intros Hs. unfold Compression.next_gap. set (ws := weights _ _ _ _ _ _ _ _ _). assert (Hw : len ws = len (prefix c prior split)).
  { unfold ws, weights, len. by rewrite length_map. }
  set (half := half_target _ _ _). pose proof (middle_gap_bounds ws half) as Hm. destruct (_middle_gap ws half) as [h t]. destruct Hm as [[H1 H2] H3].
  pose proof (snap_above c prior h Hs H1) as Ha. set (k := snap_split_point c (prior + h)) in *.
  destruct (ConversationFacts.snap_split_spec c (prior + h)) as (_ & _ & Hc). fold k in Hc.
  assert (Hhead : forall m, 0 < prior + (k - prior) -> _history c !! Z.to_nat (prior + (k - prior) - 1) = Some m -> calls_of m = []).
  { intros m Hk Hm. apply Hc; [lia|]. rewrite <- Hm. f_equal. lia. }
  unfold proper_gap. cbn [fst snd]. destruct (Z.ltb_spec (k - prior) t) as [Hlt|Hge].
  - destruct (skip_results_spec (slice_from (prefix c prior split) t) t) as (n & -> & Hn & Hr). rewrite slice_from_pos in * by lia.
    rewrite length_drop in Hn. split_and!; [lia|lia|unfold len in *; lia|exact Hhead|]. intros m _ Hm. apply Hr. rewrite lookup_drop, <- Hm. f_equal. lia.
  - split_and!; [lia|lia|lia|exact Hhead|]. intros m Hgt. lia.
Qed.

(** Every request of a pass is made for a fair gap. *)
Definition fair_request (c : Conversation) (prior split : Z) (e : event answer) : Prop :=
  match e with
  | Prog.Ev (CountTokens r) _ | Prog.Ev (StreamSummary r) _ => exists g, r = build_request p c prior split g /\ fair_gap c prior split g
  | _ => True
  end.
Section Fair.
Variables (c : Conversation) (prior split : Z).
Hypothesis settled : settled_boundary c prior.
Abbreviation fair := (fair_request c prior split).

Lemma lift_emits {A} (P : event answer -> Prop) d a (r : answer a -> result raised A) :
  (forall x, P (Ev a x)) -> emits P (Do a (fun x => lift d (r x))).
Proof. intros H. apply emits_Do; [done|]. intros x. destruct (r x); [apply emits_Ret|apply emits_Throw]. Qed.
Lemma info_fair d text : emits fair (info p d text).
Proof. unfold info. destruct (on_info p); [|apply emits_Ret]. by apply (lift_emits fair d (Info text) (fun r => r)). Qed.
Lemma error_fair d text : emits fair (error p d text).
Proof. unfold error. destruct (on_error p); [|apply emits_Ret]. by apply (lift_emits fair d (ErrorLog text) (fun r => r)). Qed.

Lemma widen_fair attempts : forall budget g, fair_gap c prior split g ->
  emits fair (widen p c prior split attempts budget g) /\ forall t g', runs (widen p c prior split attempts budget g) t (Done g') -> fair_gap c prior split g'.
Proof.
  induction attempts as [|n IH]; intros budget g Hg; cbn [widen_gap_until_fits].
  - split; [apply emits_Ret|]. by intros t g' [_ [= ->]].
  - assert (Hnext : forall counted, fair_gap c prior split (next_gap c prior split g budget counted)) by (intros; right; by apply next_gap_proper).
    split.
    + apply emits_bind; [by apply (lift_emits fair c (CountTokens _) (fun r => r)); eexists|]. intros counted. destruct (counted <=? budget); [apply emits_Ret|].
      cbv zeta. destruct (gap_eqb _ _); [apply emits_Ret|]. by apply IH.
    + intros t g' [(t1 & t2 & counted & -> & _ & H)|(x & _ & [=])]%runs_bind. revert H. cbv zeta.
      destruct (counted <=? budget); [by intros [_ [= ->]]|]. destruct (gap_eqb _ _); [by intros [_ [= ->]]|]. by apply IH.
Qed.
Lemma ladder_fair l : forall g d e, fair_gap c prior split g ->
  emits fair (ladder p c prior split l g d e) /\ forall t m g', runs (ladder p c prior split l g d e) t (Done (m, g')) -> fair_gap c prior split g'.
Proof.
  induction l as [|rung l IH]; intros g d e Hg; cbn [Compression.ladder]; [split; [apply emits_Throw|by intros t m g' [_ [=]]]|].
  set (w := match rung with Some budget => widen p c prior split MAX_FIT_ATTEMPTS budget g | None => Ret g end).
  assert (Hw : emits fair w /\ forall t g', runs w t (Done g') -> fair_gap c prior split g').
  { unfold w. destruct rung; [by apply widen_fair|]. split; [apply emits_Ret|]. by intros t g' [_ [= ->]]. }
  clearbody w. destruct Hw as [He Hd]. split.
  - intros t o [(t1 & t2 & g' & -> & H1 & H2)|(x & H & _)]%runs_bind; [|by eapply He]. apply Forall_app. split; [by eapply He|].
    apply Hd in H1. revert H2. destruct (match rung, d with Some _, Some d => gap_eqb d g' | _, _ => false end); [by apply IH|].
    apply emits_Do; [intros r; by eexists|]. intros [m|x]; [apply emits_Ret|]. destruct (_ && _); [by apply IH|apply emits_Throw].
  - intros t m g2 [(t1 & t2 & g' & -> & H1 & H2)|(x & _ & [=])]%runs_bind. apply Hd in H1. revert H2.
    destruct (match rung, d with Some _, Some d => gap_eqb d g' | _, _ => false end); [by apply IH|]. intros (r & t' & -> & H). destruct r as [m'|x].
    + by destruct H as [_ [= -> ->]].
    + revert H. destruct (_ && _); [by apply IH|by intros [_ [=]]].
Qed.
Lemma read_summary_fair more : forall g response, fair_gap c prior split g -> emits fair (read_summary p c prior split more g response).
Proof.
  induction more as [|more IH]; intros g response Hg; cbn [Compression.read_summary]; destruct (_ && _);
    try (apply emits_bind; [apply info_fair|intros; apply emits_Ret]).
  - apply emits_bind; [apply error_fair|intros; apply emits_Ret].
  - apply emits_bind; [apply info_fair|]. intros _. apply emits_bind; [by apply (lift_emits fair c (StreamSummary _) (fun r => r)); eexists|].
    intros m. by apply IH.
Qed.
Lemma attempt_fair : emits fair (attempt_pass p c prior split).
Proof.
  unfold Compression.attempt_pass. set (g0 := whole _ _ _ _ _ _). assert (H0 : fair_gap c prior split g0) by by left.
  intros t o [(t1 & t2 & [m g] & -> & H1 & H2)|(x & H & _)]%runs_bind; [|by eapply (proj1 (ladder_fair _ _ _ _ H0))].
  apply Forall_app. split; [by eapply (proj1 (ladder_fair _ _ _ _ H0))|]. eapply read_summary_fair; [|exact H2].
  by eapply (proj2 (ladder_fair _ _ _ _ H0)).
Qed.
End Fair.

(** C40: A request never separates a call from its results.  Every request of a
    pass, counted or sent, asks for a summary of the messages between the old
    boundary and the split point; what it leaves out, if anything, is one run of
    whole messages in the middle, within that span, such that the kept beginning
    does not end with a message that calls tools and the kept end does not begin
    with results of tools. *)
Theorem request_gaps c t o : settled_boundary c (prior_boundary c) -> runs (summarize p c) t o ->
  match split_of c with
  | Some split => Forall (fair_request c (prior_boundary c) split) t
  | None => t = []
  end.
Proof.
  intros Hs. unfold Compression.summarize. fold (prior_boundary c) (split_of c).
  assert (Hrefused : forall why text, runs (refused (other := other) c why text) t o ->
    match split_of c with Some split => Forall (fair_request c (prior_boundary c) split) t | None => t = [] end).
  { intros why text [-> _]. by destruct (split_of c). }
  destruct (len (_history c) <? MIN_MESSAGES_TO_COMPRESS); [apply Hrefused|].
  destruct (split_of c) as [split|] eqn:Es; [|by apply Hrefused]. destruct (split <=? prior_boundary c); [by apply Hrefused|].
  apply emits_bind; [apply info_fair|]. intros _. apply emits_catch; [by apply attempt_fair|]. intros [d x]. unfold on_failure. cbn [fst snd].
  destruct x; first [apply emits_Throw | apply emits_bind; [apply error_fair|intros; apply emits_Ret]].
Qed.

(** ** How many requests *)

Definition sent (e : event answer) : nat := match e with Prog.Ev (StreamSummary _) _ => 1 | _ => 0 end.
Definition counts (e : event answer) : nat := match e with Prog.Ev (CountTokens _) _ => 1 | _ => 0 end.
Definition tally (g : event answer -> nat) (t : list (event answer)) : nat := sum_list_with g t.
Definition uses {A} (g : event answer -> nat) (n : nat) (m : program A) : Prop := forall t o, runs m t o -> (tally g t <= n)%nat.

Lemma uses_Ret {A} g n (a : A) : uses g n (Ret a).
Proof. intros t o [-> _]. unfold tally. cbn. lia. Qed.
Lemma uses_Throw {A} g n x : uses g n (Throw (A := A) x).
Proof. intros t o [-> _]. unfold tally. cbn. lia. Qed.
Lemma uses_Do {A} g n a (k : answer a -> program A) : (forall r, exists i, (g (Ev a r) + i <= n)%nat /\ uses g i (k r)) -> uses g n (Do a k).
Proof. intros H t o (r & t' & -> & Hr). destruct (H r) as (i & Hi & Hk). apply Hk in Hr. unfold tally in *. cbn. lia. Qed.
Lemma uses_bind {A B} g i j n (m : program A) (f : A -> program B) : uses g i m -> (forall a, uses g j (f a)) -> (i + j <= n)%nat -> uses g n (bind m f).
Proof.
  intros Hm Hf Hn t o [(t1 & t2 & a & -> & H1 & H2)|(x & H & _)]%runs_bind.
  - apply Hm in H1. apply Hf in H2. unfold tally in *. rewrite sum_list_with_app. lia.
  - apply Hm in H. lia.
Qed.
Lemma uses_catch {A} g i j n (m : program A) h : uses g i m -> (forall x, uses g j (h x)) -> (i + j <= n)%nat -> uses g n (catch m h).
Proof.
  intros Hm Hh Hn t o [(a & H1 & _)|(t1 & t2 & x & -> & H1 & H2)]%runs_catch; apply Hm in H1; [lia|].
  apply Hh in H2. unfold tally in *. rewrite sum_list_with_app. lia.
Qed.
Lemma uses_await {A} g n d a (r : answer a -> result raised A) : (forall x, (g (Ev a x) <= n)%nat) -> uses g n (Do a (fun x => lift d (r x))).
Proof. intros H. apply uses_Do. intros x. exists O. split; [specialize (H x); lia|]. destruct (r x); [apply uses_Ret|apply uses_Throw]. Qed.

(** Neither measure counts what is logged. *)
Definition of_requests (g : event answer -> nat) : Prop := (forall text r, g (Ev (Info text) r) = O) /\ forall text r, g (Ev (ErrorLog text) r) = O.
Lemma uses_info g d text : of_requests g -> uses g 0 (info p d text).
Proof. intros [H _]. unfold info. destruct (on_info p); [|apply uses_Ret]. apply (uses_await g 0 d (Info text) (fun r => r)). intros x. by rewrite H. Qed.
Lemma uses_error g d text : of_requests g -> uses g 0 (error p d text).
Proof. intros [_ H]. unfold error. destruct (on_error p); [|apply uses_Ret]. apply (uses_await g 0 d (ErrorLog text) (fun r => r)). intros x. by rewrite H. Qed.

Section Bounded.
Variables (g : event answer -> nat) (counted streamed : nat).
Hypothesis Hlog : of_requests g.
Hypothesis Hcount : forall r x, g (Ev (CountTokens r) x) = counted.
Hypothesis Hstream : forall r x, g (Ev (StreamSummary r) x) = streamed.

Lemma widen_uses c prior split attempts : forall budget h, uses g (attempts * counted) (widen p c prior split attempts budget h).
Proof.
  induction attempts as [|n IH]; intros budget h; cbn [widen_gap_until_fits]; [apply uses_Ret|].
  apply (uses_bind g counted (n * counted)); [apply (uses_await g counted c (CountTokens _) (fun r => r)); intros; by rewrite Hcount| |lia].
  intros k. destruct (k <=? budget); [apply uses_Ret|]. cbv zeta. destruct (gap_eqb _ _); [apply uses_Ret|apply IH].
Qed.
(** Counts are made on the rungs that have a budget. *)
Definition budgeted (l : list (option Z)) : nat := length (omap (fun rung => rung) l).
Lemma ladder_uses c prior split l : forall h d e,
  uses g (budgeted l * (MAX_FIT_ATTEMPTS * counted) + length l * streamed) (ladder p c prior split l h d e).
Proof.
  induction l as [|rung l IH]; intros h d e; cbn [Compression.ladder]; [apply uses_Throw|].
  set (w := match rung with Some budget => _ | None => Ret h end).
  assert (Hw : uses g (budgeted [rung] * (MAX_FIT_ATTEMPTS * counted)) w) by (unfold w; destruct rung; [rewrite Nat.mul_1_l; apply widen_uses|apply uses_Ret]).
  clearbody w.
  apply (uses_bind g _ (budgeted l * (MAX_FIT_ATTEMPTS * counted) + length l * streamed + streamed) _ _ _ Hw).
  - intros h'. destruct (match rung, d with Some _, Some d => gap_eqb d h' | _, _ => false end).
    { intros t o Ht. apply IH in Ht. lia. }
    apply uses_Do. intros r. rewrite Hstream. exists (budgeted l * (MAX_FIT_ATTEMPTS * counted) + length l * streamed)%nat. split; [lia|].
    destruct r; [apply uses_Ret|]. destruct (_ && _); [apply IH|apply uses_Throw].
  - assert (E : budgeted (rung :: l) = (budgeted [rung] + budgeted l)%nat) by by destruct rung. rewrite E. cbn [length]. lia.
Qed.
Lemma read_summary_uses c prior split more : forall h response, uses g (more * streamed) (read_summary p c prior split more h response).
Proof.
  induction more as [|more IH]; intros h response; cbn [Compression.read_summary]; destruct (_ && _);
    try (apply (uses_bind g 0 0); [by apply uses_info|intros; apply uses_Ret|lia]).
  - apply (uses_bind g 0 0); [by apply uses_error|intros; apply uses_Ret|lia].
  - apply (uses_bind g 0 (S more * streamed)); [by apply uses_info| |lia]. intros _.
    apply (uses_bind g streamed (more * streamed)); [apply (uses_await g streamed c (StreamSummary _) (fun r => r)); intros; by rewrite Hstream| |lia].
    intros m. apply IH.
Qed.
Lemma summarize_uses c :
  uses g (budgeted (rungs p) * (MAX_FIT_ATTEMPTS * counted) + (length (rungs p) + pred SUMMARY_EMPTY_ATTEMPTS) * streamed) (summarize p c).
Proof.
  unfold Compression.summarize, refused. destruct (len (_history c) <? MIN_MESSAGES_TO_COMPRESS); [apply uses_Ret|].
  destruct (compaction_split_point _ _ _) as [split|]; [|apply uses_Ret]. destruct (split <=? _); [apply uses_Ret|].
  apply (uses_bind g 0 (budgeted (rungs p) * (MAX_FIT_ATTEMPTS * counted) + (length (rungs p) + pred SUMMARY_EMPTY_ATTEMPTS) * streamed)); [by apply uses_info| |lia].
  intros _. eapply uses_catch with (j := O); [| |rewrite Nat.add_0_r; reflexivity].
  - unfold Compression.attempt_pass. eapply uses_bind; [apply ladder_uses|intros [m h]; apply read_summary_uses|lia].
  - intros [d x]. unfold on_failure. cbn [fst snd]. destruct x; first [apply uses_Throw | apply (uses_bind g 0 0); [by apply uses_error|intros; apply uses_Ret|lia]].
Qed.
End Bounded.

(** A pass is bounded.  It sends at most twelve requests for a summary and
    counts the tokens of at most sixty, or without a limit of tokens sends three and
    counts none, whatever is answered. *)
Theorem pass_bounded c t o : runs (summarize p c) t o ->
  match max_input_tokens p with
  | Some _ => (tally sent t <= 12)%nat /\ (tally counts t <= 60)%nat
  | None => (tally sent t <= 3)%nat /\ tally counts t = O
  end.
Proof.
  intros H. pose proof (summarize_uses sent 0 1 ltac:(done) ltac:(done) ltac:(done) c t o H) as H1.
  pose proof (summarize_uses counts 1 0 ltac:(done) ltac:(done) ltac:(done) c t o H) as H2.
  unfold rungs in H1, H2. destruct (max_input_tokens p); cbn in H1, H2; lia.
Qed.
End Facts.

(** ** Concrete passes *)

Module Sample.
Abbreviation Message := (@Message unit).
Abbreviation answer := (@answer unit).
Definition no_text (o : unit) : option str := None.
(** Half of nine tenths of what is in proportion. *)
Definition half_target (kept budget counted : Z) : Z := kept * budget * 9 / (counted * 20).
Definition template (history : str) (previous : option str) : str := default [] previous ++ history.
Definition says (r : role) (text : string) : Message := text_message r (lit text).
Definition c : @Conversation unit :=
  init (concat (replicate 6 [text_message User (replicate 200 97); text_message Assistant (replicate 200 98)])) 1000.
Definition p : pass :=
  {| model := lit "m"; on_info := true; on_error := true; system_prompt_text := None; keep_recent := None; max_input_tokens := Some 2000 |}.
Definition summarize : prog answer (@Conversation unit * raised Message) (CompactionResult * @Conversation unit) :=
  Compression.summarize no_text no_text no_text (fun _ => tt) (fun _ _ => []) half_target template (lit "Summarize.") p c.

(** A character is a token; [announces]: success can be announced. *)
Definition host (announces : bool) (a : effect) (w : list (result (raised Message) Message)) : answer a * list (result (raised Message) Message) :=
  match a return answer a * list (result (raised Message) Message) with
  | Info text => (if announces || negb (startswith (lit "Compressed") text) then Ok tt
                  else Raise (Foreign (LlmErrors.mkForeign LlmErrors.RuntimeError (lit "RuntimeError") (lit "closed") VNone None VNone VNone VNone None VNone VNone)), w)
  | CountTokens r => (Ok (len r.2), w)
  | StreamSummary _ => match w with r :: w' => (r, w') | [] => (Ok (says Assistant "They looked at the file."), []) end
  | LoadPrompt => (Ok None, w)
  | ErrorLog _ | CompactionStatus _ _ _ | ForgetVolatile | RecordCompaction _ _ _ _ _ | CountContext => (Ok tt, w)
  end.
Definition rejected : result (raised Message) Message :=
  Raise (Llm (LlmErrors.made LlmErrors.LLMContextWindowExceededError (lit "too long") None)).
End Sample.

(** The first request is rejected, the second, which leaves more out, is answered. *)
Lemma compaction_outcome_witness :
  let x := exec (Sample.host true) Sample.summarize [Sample.rejected] in
  let t := x.1.1 in let o := x.1.2 in
  (match o with
   | Done (r, c') => reported Sample.p Sample.c t r c' /\ _history c' = _history Sample.c
   | Threw x => x.2 = LlmErrors.CancelledError \/ exists text, Prog.Ev (answer := Sample.answer) (Info text) (Raise x.2) ∈ t \/ Prog.Ev (answer := Sample.answer) (ErrorLog text) (Raise x.2) ∈ t
   end)
  /\ match o with Done (r, c') => ok r = true /\ summarized_messages r = 6 /\ compacted_through c' = 6 | Threw _ => False end.
Proof.
  split; [|vm_compute; auto].
  exact (compaction_outcome Sample.no_text Sample.no_text Sample.no_text (fun _ => tt) (fun _ _ => []) Sample.half_target Sample.template (lit "Summarize.")
           Sample.p Sample.c _ _ (exec_runs (Sample.host true) Sample.summarize [Sample.rejected])).
Defined.
Lemma request_gaps_witness :
  let t := (exec (Sample.host true) Sample.summarize [Sample.rejected]).1.1 in
  split_of Sample.p Sample.c = Some 6 /\ tally sent t = 2%nat
  /\ match split_of Sample.p Sample.c with
     | Some split => Forall (fair_request Sample.no_text Sample.no_text Sample.no_text (fun _ => tt) (fun _ _ => []) Sample.template (lit "Summarize.")
                               Sample.p Sample.c (prior_boundary Sample.c) split) t
     | None => t = []
     end.
Proof.
  split; [vm_compute; reflexivity|]. split; [vm_compute; reflexivity|].
  apply (request_gaps Sample.no_text Sample.no_text Sample.no_text (fun _ => tt) (fun _ _ => []) Sample.half_target Sample.template (lit "Summarize.")
           Sample.p Sample.c _ (exec (Sample.host true) Sample.summarize [Sample.rejected]).1.2).
  - split; [done|vm_compute; reflexivity].
  - exact (exec_runs (Sample.host true) Sample.summarize [Sample.rejected]).
Defined.
Lemma pass_bounded_witness :
  let t := (exec (Sample.host true) Sample.summarize [Sample.rejected]).1.1 in
  match max_input_tokens Sample.p with
  | Some _ => (tally sent t <= 12)%nat /\ (tally counts t <= 60)%nat
  | None => (tally sent t <= 3)%nat /\ tally counts t = O
  end /\ tally sent t = 2%nat.
Proof.
  split; [|vm_compute; reflexivity].
  exact (pass_bounded Sample.no_text Sample.no_text Sample.no_text (fun _ => tt) (fun _ _ => []) Sample.half_target Sample.template (lit "Summarize.")
           Sample.p Sample.c _ _ (exec_runs (Sample.host true) Sample.summarize [Sample.rejected])).
Defined.

(** The boundary has moved, but the result says that the pass failed. *)
Lemma success_denied :
  match (exec (Sample.host false) Sample.summarize []).1.2 with
  | Done (r, c') => ok r = false /\ reason r = lit "llm_error" /\ compacted_through c' = 6
  | Threw _ => False
  end.
Proof. vm_compute. auto. Qed.
